(* ===== verification/_CoqProject ===== *)
-Q . S2P
Prelude.v
PyValue.v
NLeg.v
NLegForms.v
NLegValidate.v
NLegWf.v
IsoFormat.v
IsoFormatCorrect.v
Decimal.v
DecimalCorrect.v
Decode.v
UnionFind.v
Oracle.v
OracleScenario.v
OracleEval.v
OracleQualify.v
Support.v
Search.v
SupportCorrect.v
SplitCorrect.v
SearchCorrect.v
SearchTotal.v
Components.v
ComponentsCorrect.v
LinearModel.v
TerminalModel.v
TerminalCorrect.v
PartialFill.v
NLegFormsCorrect.v
DecodeCorrect.v
FillCorrect.v
FillProof.v
FillProofCorrect.v
Master.v
Generation.v
Evidence.v
Verified.v
DecodeInverse.v
Quotes.v
QuotesCorrect.v
Receipts.v
BatchStore.v
Lineage.v
Repair.v
Reconcile.v
Entry.v
Resolve.v
Lifecycle.v
Mode.v
ReceiptsCorrect.v
RepairCorrect.v
ReconcileCorrect.v
EntryCorrect.v
PricedCorrect.v
LifecycleCorrect.v
ModeCorrect.v
Preflight.v
PreflightCorrect.v
Samples.v
MasterCorrect.v
GenerationCorrect.v
ReferenceBackend.v
CandidateCorrect.v
MasterComplete.v
GenerationComplete.v
GenerationLoop.v
GenerationSearch.v
GenerationTotal.v
ResolveCorrect.v
ResolveSamples.v
GenerationTheorems.v
ExecutionSamples.v
OracleTheorems.v
DecodeTheorems.v
FillTheorems.v
ExecutionTheorems.v
LifecycleTheorems.v
ResolveTheorems.v
ModeTheorems.v
PreflightTheorems.v
