(* ===== verification/Prelude.v ===== *)
(** * Open Trader: the N-leg prediction-market arbitrage engine

    The repository trades settlement-backed portfolios: it buys several legs
    on prediction markets whose joint settlements are constrained (exactly one
    candidate wins, one event implies another), so that the portfolio pays more
    than it costs in every settlement the constraints allow.  This library
    models that engine, in [src/open_trader/], and proves what makes it safe:
    the guarantee is real, the fill proof bounds the loss, and the execution
    state machine keeps its ledger.  Sources below are files of that directory.

    ** Parts and how they interact

    - The problem ([prediction_n_leg.py]) lists candidate actions with price
      slices, the terminal atoms of every contract, relations and forbidden
      combinations, and qualification thresholds.
    - The oracle ([prediction_n_leg_oracle.py]) enumerates the allowed
      settlements, evaluates portfolios, searches for the best one, splits
      portfolios by their support graph and problems by their components.
    - The solver ([prediction_solver.py]) finds the best portfolio without
      enumerating: a master integer program proposes quantities against the
      settlements known so far, a second program answers with the worst
      settlement, and the cut it violates is added.  Both go to a backend
      whose answers are checked again in exact arithmetic.
    - The fill adversary ([prediction_partial_fill.py]) bounds the loss when
      the venues fill only a part of the orders, and seals a proof record.
    - The resolver ([prediction_executable_cost.py]) prices a component from
      its order books, has the proof engine ([prediction_solver_verified.py])
      solve and verify the priced problem, freezes the market solution with
      its execution legs, and funds it against an account snapshot.
    - The execution service ([prediction_n_leg_execution.py]) enters a batch
      bound to its proof, reduces order receipts, opens incidents, plans
      repairs and reconciles.
    - The mode contract ([prediction_n_leg_mode.py]) versions the qualification
      policy, the caps and the execution scopes, and decides between MANUAL and
      AUTO.  A confirmation ([prediction_n_leg_confirm.py]) freezes the versions
      it read into a queued request; the driver ([prediction_n_leg_driver.py])
      hands them to the admission of the batch.
    - The preflight ([prediction_n_leg_preflight.py]) stands between the queue
      and that admission: it prices the frozen quantities on fresh books with
      the live cost slices of [prediction_market_solution.py] and repeats the
      gates of the policy, the caps and the price bounds.
    - The store ([prediction_arbitrage_store.py]) holds the batches, the
      control row, the tables of the contract, the request queue, the
      transition log and the lineage claims, and runs every step as one
      transaction.

    ** Files

    Shared: [Prelude] (Python exceptions and the error monad [res], the
    library lemmas, the tactics [ok_inv] and [bool_prop]),
    [PyValue] (datetimes, JSON and its canonical printer, the digest).

    Problem: [NLeg] (the dataclasses and enums), [NLegForms] (legacy units,
    sorting, directional identities, payloads and fingerprints),
    [NLegValidate] ([validate_problem], issue by issue), [NLegWf] (the same as
    a proposition, [wf_problem]), [NLegFormsCorrect]; [IsoFormat] (the ISO 8601
    reader of the standard library) and [IsoFormatCorrect], [Decode] (the
    payload decoders) and [DecodeCorrect] (round trips, and the completion of
    unknown data).

    Oracle: [UnionFind]; [Oracle] (scenarios, costs, evaluation); [OracleScenario],
    [OracleEval], [OracleQualify] (their specifications);
    [Support] and [SupportCorrect], [SplitCorrect] (support graph, split,
    independence of the parts); [Search], [SearchCorrect], [SearchTotal] (the three searches); [Components], [ComponentsCorrect].

    Solver boundary: [LinearModel] (models, validation, checked answers),
    [TerminalModel], [TerminalCorrect] (the payout adversary).

    Constraint generation: [Master] ([compile_master]), [Generation]
    ([solve_with_constraint_generation] and all it calls); [MasterCorrect],
    [MasterComplete] (the points of the master are the portfolios),
    [GenerationCorrect] (what an answer of the backend establishes, worst
    payouts and reachable releases), [CandidateCorrect]
    (a reported portfolio is sound), [GenerationComplete] (the support graph is
    the oracle's), [GenerationLoop], [GenerationSearch] (no acceptable
    portfolio is missed), [GenerationTotal] (the loops end),
    [ReferenceBackend] (an enumerating backend, proved honest).

    Fill proof: [PartialFill] (order semantics, the adversary problem, its
    compiler, the bounded oracle), [FillCorrect], [FillProof] (evidence,
    verification, [prove_partial_fill]), [FillProofCorrect].

    Resolver: [Decimal] (the decimal arithmetic of the pricing code) and
    [DecimalCorrect] (when it is exact); [Evidence] (payloads of proofs and of
    solver evidence), [Verified] (proof inputs, [solve], [verify], results),
    [DecodeInverse] (what a payload that decodes was written from); [Quotes] (books, quotes, the priced problem, execution legs) with
    [QuotesCorrect] and [PricedCorrect] (with what sorting and pricing keep of
    settlements, payouts and costs); [Resolve] (codecs of solutions,
    [resolve_component]) and [ResolveCorrect] (the chain from the candidate of
    the solver through [verify] and the decoders to the funded solution).

    Execution: [Receipts] (the batch record and [_reduce]), [BatchStore] (the
    tables and [n_leg_reduce]), [Lineage] (the executed lock), [Repair] (quotes,
    [_open_incident], [_repair_plan], [apply_receipt]), [Reconcile]
    ([complete_reconciliation]), [Entry] ([_fund_fixed_solution],
    [execution_solution_binding], the batch of [enter]), [Lifecycle]
    ([n_leg_create_batch], [enter], acknowledgement, breaker reset, mode
    control); each with a file of lemmas named [...Correct].

    Mode contract: [Mode] (the operations of the contract, its tables, the
    request queue, the versions a request freezes) and [ModeCorrect] (a view of
    the store, the specification [spec_op] of every operation, what AUTO keeps,
    what an admission finds, the order of the queue).

    Preflight: [Preflight] (live books, their cost slices, [preflight]) and
    [PreflightCorrect] (the lots and the cost of the slices, what each gate
    means, the proposition [passes]).

    [Samples], [ResolveSamples] and [ExecutionSamples] hold the concrete inputs on which theorems
    are instantiated; the files [...Theorems] state the properties.

    ** Modelling conventions

    A Python integer is [Z]; the 64-bit checks of the source are written out
    ([checked], [unsigned63]).  A function that may raise returns [res]; the
    exception carries its class and message.  A dict keyed by strings is a
    [gmap] where order does not matter and an association list where it does;
    a set whose iteration order matters is sorted first, as in the source.
    Dataclasses are typed records, so [isinstance] tests hold by typing.  The
    store is one record of tables passed through the operations; a transaction
    either returns the new store or raises and leaves the old one.  An
    operation of the mode contract commits several transactions, so it is a
    computation [SM] that returns a store even when it raises.

    Parameters: the digest is the class [Sha256], of which nothing is assumed
    except where a hypothesis says so; the integer-programming backend is
    [SolverBackend], a function of the call number, the model and the time
    limit, whose honesty ([optimal_is_optimal]; [honest], which adds that
    INFEASIBLE answers are true) is a hypothesis of exactly the theorems that
    need it.  Clocks are arguments.  The computations of [Generation] thread
    the number of the next backend call, since a backend may answer the same
    model differently at every call.

    ** Fuel

    Loops that are not structural carry fuel, and a theorem shows that it never
    runs out: [find_loop] runs on [size parent] (path halving walks up a
    forest), the support closure on [closure_fuel] (each round adds a contract),
    [connected_solutions] on the number of quantities (parts are smaller), the
    ancestor walk on one more than the number of predecessors (each round
    visits a new one), the cut loop on the rounds left in the limits (each
    repetition spends one).  [search_total], [executed_lock],
    [fill_oracle_exact] and [generation_terminates] state that the entry points
    return.

    ** What the theorems show

    - Guarantee ([OracleTheorems]): returned portfolios are feasible, exact in
      cost, payout, release and qualification, and optimal; negative answers
      exclude every portfolio; validation, scenario enumeration and
      qualification mean what their declarative specifications say; components
      and disconnected parts decompose the problem.
    - Normal forms ([DecodeTheorems]): the fingerprint is
      canonical; legacy units are scaled faithfully; a request survives its
      canonical payload; the strict decoder lets exactly the well-formed
      problems through, the lenient one those that filling in unknown data makes
      well formed ([complete_problem]); and what the searches return is what
      the result decoder accepts.
    - Solver boundary ([GenerationTheorems]): the compiled program has the allowed
      settlements as integer points; a checked answer is sound and its minimum
      is the oracle's worst payout.
    - Constraint generation ([GenerationTheorems]): with an honest backend a
      reported portfolio is exact and qualified, a closed search has missed no
      acceptable portfolio and agrees with the exhaustive oracle; the master
      is exact; with any backend the loops end.
    - Fill proof ([FillTheorems]): SAFE bounds every loss, UNSAFE carries a real
      counterexample, the bounded oracle is exact and agrees.
    - Resolver ([ResolveTheorems]): whatever the backend answers, what the
      resolver funds earns its profit in every settlement that the component
      allows and is covered by the account ([resolve_sound]); a quote is
      conservative against the visible asks, when the priced problem is valid,
      execution legs are exact.
    - Execution ([ExecutionTheorems]): invariants along every sequence of
      receipts, incident discipline, idempotence, conflict handling, exact
      repair prices and conservative repair losses.
    - Life of a batch ([LifecycleTheorems]): what entry checks, the executed
      lock, the capital ledger as an invariant of every run of the store, what
      reconciliation settles.
    - Mode contract ([ModeTheorems]): every operation refines its
      specification, raising before its first write or not at all; AUTO is not
      widened by itself; a batch runs under the contract its request froze;
      the queue keeps its order, its limits and the identity of its rows.
    - Preflight ([PreflightTheorems]): the slices of a live book offer exactly
      its lots and cover every fill, the taker fee included; a request passes
      exactly when it still holds on the fresh books, at the reported cost.
    - Where the code does not do what it means to, a theorem exhibits it:
      [offset_window_crashes], [duplicate_row_escapes], [negative_payout_false_safe],
      [reconciled_mixed_fill], [late_receipt_steals_control],
      [rounded_size_overstates_lots], [shallow_contract_unknown],
      [capability_raised_in_auto], [caps_lifted_in_auto], [request_reopened],
      [unknown_fee_passes].

    ** Not modelled

    Of the files above: the process runner of the solver (the worker harness is
    an argument); the gates of a confirmation on fees and quotes, and the
    ticks of the driver, which submit orders and poll the venues; floats in
    payloads (the seconds of the preflight are kept in microseconds); SQL, threads and clocks; the ids and times of control events.  Outside them: the native solver bindings
    and worker processes (third-party code behind [SolverBackend]), the cutover
    and the reports (polling and rendering around the modelled core), the older
    two-leg engine, the Polymarket liquidity engine, the equity research, the
    dashboards and the account clients (network, database and HTML I/O). *)

From Stdlib Require Export ZArith Lia.
From stdpp Require Export base tactics option list strings gmap pretty sorting.

Declare Scope py_scope.
Delimit Scope py_scope with py.
Local Open Scope Z_scope.

(** ** Python exceptions as values *)

Inductive exn : Type :=
  | ValueError (msg : string)
  | OverflowError
  | NumericUnsafe (msg : string)
  | UnsafeSolverResult (msg : string)
  | KeyError (key : string)
  | IndexError
  | TypeError
  | AssertionError
  | RuntimeError (msg : string)
  | ModuleNotFoundError
  | NLegVersionConflict (msg : string)
  | IntegrityError
  | InvalidOperation
  | DivisionByZero
  | ZeroDivisionError
  | DecimalOverflow
  | OutOfFuel.

Inductive res (A : Type) : Type :=
  | Ok (a : A)
  | Err (e : exn).
Arguments Ok {A} a.
Arguments Err {A} e.

#[export] Instance res_ret : MRet res := @Ok.
#[export] Instance res_bind : MBind res := λ A B f m,
  match m with Ok a => f a | Err e => Err e end.
#[export] Instance res_fmap : FMap res := λ A B f m,
  match m with Ok a => Ok (f a) | Err e => Err e end.

Definition is_ok {A} (m : res A) : bool :=
  match m with Ok _ => true | Err _ => false end.

(** [x is None] *)
Definition is_none {A} (o : option A) : bool := match o with None => true | Some _ => false end.

(** [guard_ok b e]: raise [e] unless [b]. *)
Definition require (b : bool) (e : exn) : res unit :=
  if b then Ok tt else Err e.

(** [of_option e o]: a Python lookup that raises [e] when it misses. *)
Definition of_option {A} (e : exn) (o : option A) : res A :=
  match o with Some a => Ok a | None => Err e end.

(** A loop that threads an accumulator and may raise. *)
Fixpoint foldM {A B} (f : B → A → res B) (b : B) (l : list A) : res B :=
  match l with
  | [] => Ok b
  | x :: l => b' ← f b x; foldM f b' l
  end.

(** A filter whose test may raise. *)
Fixpoint filterM {A} (f : A → res bool) (l : list A) : res (list A) :=
  match l with
  | [] => Ok []
  | x :: l => b ← f x; k ← filterM f l; Ok (if b : bool then x :: k else k)
  end.

Lemma is_none_None {A} (o : option A) : is_none o = true ↔ o = None.
Proof. by destruct o. Qed.

Section res_lemmas.
Context {A B : Type}.
Implicit Types (m : res A) (f : A → res B).

Lemma bind_Ok m f b : m ≫= f = Ok b ↔ ∃ a, m = Ok a ∧ f a = Ok b.
Proof. destruct m; simpl; split; [eauto|intros (?&[= ->]&?)|done|intros (?&?&?)]; done. Qed.

Lemma fmap_Ok m (g : A → B) b : g <$> m = Ok b ↔ ∃ a, m = Ok a ∧ b = g a.
Proof.
  destruct m; simpl; split; [intros [= <-]; eauto|intros (?&[= ->]&->)|done|intros (?&?&?)]; done.
Qed.

Lemma require_Ok b e u : require b e = Ok u ↔ b = true.
Proof. destruct b, u; simpl; split; done. Qed.

Lemma of_option_Ok (e : exn) (o : option A) a : of_option e o = Ok a ↔ o = Some a.
Proof. destruct o; simpl; split; congruence. Qed.
End res_lemmas.

Lemma mapM_Ok {A B} (f : A → res B) l k :
  mapM f l = Ok k ↔ Forall2 (λ x y, f x = Ok y) l k.
Proof.
  revert k; induction l as [|x l IH]; intros k; simpl.
  - split; [intros [= <-]; constructor | by inversion 1].
  - rewrite bind_Ok. split.
    + intros (y & Hy & (ys & Hys & [= <-])%bind_Ok).
      constructor; [done | by apply IH].
    + inversion 1 as [|? y ? ys Hy Hys]; subst. exists y; split; [done|].
      apply bind_Ok. exists ys. split; [by apply IH | done].
Qed.

Lemma mapM_elem {A B} (f : A → res B) l k y :
  mapM f l = Ok k → y ∈ k ↔ ∃ x, x ∈ l ∧ f x = Ok y.
Proof.
  intros H%mapM_Ok. induction H as [|x z l k Hx _ IH].
  - split; [by intros ?%not_elem_of_nil|by intros (? & ?%not_elem_of_nil & _)].
  - rewrite elem_of_cons, IH. split.
    + intros [->|(x' & ? & ?)]; [exists x|exists x']; (split; [|done]); rewrite elem_of_cons; auto.
    + intros (x' & [->|?]%elem_of_cons & ?); [left; congruence|eauto].
Qed.

Lemma filterM_Ok {A} (f : A → res bool) l k :
  filterM f l = Ok k →
  (∀ x, x ∈ l → ∃ b, f x = Ok b) ∧ ∀ x, x ∈ k ↔ x ∈ l ∧ f x = Ok true.
Proof.
  revert k; induction l as [|x l IH]; intros k; simpl.
  - intros [= <-]. set_solver.
  - intros (b & Hb & (k' & Hk' & [= <-])%bind_Ok)%bind_Ok.
    destruct (IH k' Hk') as [IH1 IH2]. split.
    + intros y [->|Hy]%elem_of_cons; eauto.
    + intros y. destruct b; rewrite ?elem_of_cons, IH2; split.
      * intros [->|[? ?]]; auto.
      * intros [[->|?] ?]; auto.
      * intros [? ?]; auto.
      * intros [[->|?] ?]; [congruence|auto].
Qed.

Lemma filterM_pure {A} (f : A → res bool) (g : A → bool) l :
  (∀ x, x ∈ l → f x = Ok (g x)) → filterM f l = Ok (filter (λ x, g x = true) l).
Proof.
  induction l as [|x l IH]; intros H; [done|]. simpl.
  rewrite H by set_solver. simpl. rewrite IH by set_solver. simpl.
  rewrite filter_cons. destruct (g x); simpl; done.
Qed.

(** A loop whose body never raises agrees with its pure fold. *)
Lemma foldM_pure {A B} (f : B → A → res B) (g : B → A → B) b l :
  (∀ b x, x ∈ l → f b x = Ok (g b x)) → foldM f b l = Ok (foldl g b l).
Proof.
  revert b; induction l as [|x l IH]; intros b H; simpl; [done|].
  rewrite H by apply elem_of_list_here || (rewrite elem_of_cons; auto). simpl.
  apply IH. intros. apply H. rewrite elem_of_cons; auto.
Qed.

(** [safe E m]: the computation returns, or raises an exception of [E]. *)
Definition safe (E : list exn) {A} (m : res A) : Prop :=
  match m with Ok _ => True | Err e => e ∈ E end.

Create HintDb safe.

Section safe.
Context (E : list exn).

Lemma safe_bind {A B} (m : res A) (f : A → res B) :
  safe E m → (∀ a, m = Ok a → safe E (f a)) → safe E (m ≫= f).
Proof. destruct m; simpl; auto. Qed.

Lemma safe_foldM {A B} (f : B → A → res B) (P : B → Prop) b l :
  P b → (∀ b x, x ∈ l → P b → safe E (f b x)) → (∀ b x b', x ∈ l → P b → f b x = Ok b' → P b') →
  safe E (foldM f b l).
Proof.
  revert b; induction l as [|x l IH]; intros b Hb Hs Hp; simpl; [done|].
  apply safe_bind; [apply Hs; [rewrite elem_of_cons; auto|done]|].
  intros b' Hb'. apply IH.
  - eapply Hp; [rewrite elem_of_cons; auto|exact Hb|done].
  - intros. apply Hs; [rewrite elem_of_cons; auto|done].
  - intros ?????. eapply Hp; [rewrite elem_of_cons; auto|done].
Qed.

Lemma safe_foldM' {A B} (f : B → A → res B) b l :
  (∀ b x, x ∈ l → safe E (f b x)) → safe E (foldM f b l).
Proof. intros. by apply (safe_foldM f (λ _, True)); auto. Qed.

Lemma safe_mapM {A B} (f : A → res B) l : (∀ x, x ∈ l → safe E (f x)) → safe E (mapM f l).
Proof.
  induction l as [|x l IH]; intros H; simpl; [done|].
  apply safe_bind; [apply H; rewrite elem_of_cons; auto|]. intros y _.
  apply safe_bind; [apply IH; intros; apply H; rewrite elem_of_cons; auto|done].
Qed.

Lemma safe_filterM {A} (f : A → res bool) l : (∀ x, x ∈ l → safe E (f x)) → safe E (filterM f l).
Proof.
  induction l as [|x l IH]; intros H; simpl; [done|].
  apply safe_bind; [apply H; rewrite elem_of_cons; auto|]. intros b _.
  apply safe_bind; [apply IH; intros; apply H; rewrite elem_of_cons; auto|done].
Qed.

Lemma safe_require b e : b = true → safe E (require b e).
Proof. by intros ->. Qed.
End safe.

Lemma safe_Ok {A} (m : res A) : safe [] m → ∃ a, m = Ok a.
Proof. destruct m; simpl; [eauto|]. by intros ?%not_elem_of_nil. Qed.

#[export] Hint Resolve safe_bind safe_foldM' safe_mapM safe_filterM safe_require : safe.

Create Rewrite HintDb py.
#[export] Hint Rewrite @bind_Ok @fmap_Ok @require_Ok @of_option_Ok @mapM_Ok : py.

(** [ok_inv H]: split a successful computation into its steps. *)
Ltac ok_inv H :=
  repeat (autorewrite with py in H; simpl in H);
  repeat match goal with
  | H' : ∃ _, _ |- _ => destruct H'
  | H' : _ ∧ _ |- _ => destruct H'
  | H' : Ok _ = Ok _ |- _ => injection H' as H'
  | H' : Ok _ = Err _ |- _ => discriminate H'
  | H' : Err _ = Ok _ |- _ => discriminate H'
  end.

(** Boolean tests on integers and strings, as propositions. *)
Ltac bool_prop :=
  repeat match goal with
  | H : andb _ _ = true |- _ => apply andb_true_iff in H; destruct H
  | H : orb _ _ = false |- _ => apply orb_false_iff in H; destruct H
  | H : negb _ = true |- _ => apply negb_true_iff in H
  | H : negb _ = false |- _ => apply negb_false_iff in H
  | H : (_ <=? _) = true |- _ => apply Z.leb_le in H
  | H : (_ <=? _) = false |- _ => apply Z.leb_gt in H
  | H : (_ <? _) = true |- _ => apply Z.ltb_lt in H
  | H : (_ <? _) = false |- _ => apply Z.ltb_ge in H
  | H : (_ =? _) = true |- _ => apply Z.eqb_eq in H
  | H : (_ =? _) = false |- _ => apply Z.eqb_neq in H
  | H : bool_decide _ = true |- _ => apply bool_decide_eq_true_1 in H
  | H : bool_decide _ = false |- _ => apply bool_decide_eq_false_1 in H
  | H : (_ =? _)%string = true |- _ => apply String.eqb_eq in H
  | H : (_ =? _)%string = false |- _ => apply String.eqb_neq in H
  end.

(** ** Sorting

    [sorted(xs, key=...)] is a stable sort on string keys.  A Python string is
    a list of code points; the model uses Rocq strings, whose characters are
    the code points below 256, and [String.leb] compares code points
    lexicographically exactly as Python's [<=] does. *)

Section sort.
Context {A : Type} (leb : A → A → bool).

Fixpoint insert_sorted (x : A) (l : list A) : list A :=
  match l with
  | [] => [x]
  | y :: l => if leb x y then x :: y :: l else y :: insert_sorted x l
  end.

Definition sort (l : list A) : list A := foldr insert_sorted [] l.

Lemma insert_sorted_perm x l : insert_sorted x l ≡ₚ x :: l.
Proof.
  induction l as [|y l IH]; simpl; [done|].
  destruct (leb x y); [done|]. rewrite IH. apply Permutation_swap.
Qed.

Lemma sort_perm l : sort l ≡ₚ l.
Proof.
  induction l as [|x l IH]; simpl; [done|].
  rewrite insert_sorted_perm. by constructor.
Qed.

Lemma elem_of_sort x l : x ∈ sort l ↔ x ∈ l.
Proof. by rewrite sort_perm. Qed.

Lemma length_sort l : length (sort l) = length l.
Proof. by rewrite sort_perm. Qed.

Lemma NoDup_sort l : NoDup (sort l) ↔ NoDup l.
Proof. by rewrite sort_perm. Qed.

Lemma Forall_sort (P : A → Prop) l : Forall P (sort l) ↔ Forall P l.
Proof. by rewrite sort_perm. Qed.

Context (Htot : ∀ x y, leb x y = true ∨ leb y x = true)
        (Htrans : ∀ x y z, leb x y = true → leb y z = true → leb x z = true).

Let R x y := leb x y = true.

Lemma insert_sorted_StronglySorted x l :
  StronglySorted R l → StronglySorted R (insert_sorted x l).
Proof.
  induction 1 as [|y l Hl IH Hy]; simpl; [repeat constructor|].
  destruct (leb x y) eqn:E.
  - constructor; [by constructor|]. constructor; [done|].
    eapply Forall_impl; [exact Hy|]. intros z Hz. eapply Htrans; eauto.
  - constructor; [done|]. rewrite insert_sorted_perm. constructor; [|done].
    destruct (Htot x y); [congruence|done].
Qed.

Lemma sort_StronglySorted l : StronglySorted R (sort l).
Proof.
  induction l; simpl; [constructor|]. by apply insert_sorted_StronglySorted.
Qed.
End sort.

(** [sorted(xs, key=lambda x: x.key)] with a string key. *)
Definition sort_on {A} (key : A → string) : list A → list A :=
  sort (λ x y, String.leb (key x) (key y)).

Definition sorted_strings : list string → list string := sort_on id.

Lemma leb_true_le s t : String.leb s t = true ↔ String.le s t.
Proof. unfold String.le. by rewrite Is_true_true. Qed.

Lemma leb_trans s t u :
  String.leb s t = true → String.leb t u = true → String.leb s u = true.
Proof. rewrite !leb_true_le. intros. by etrans. Qed.

Lemma leb_refl s : String.leb s s = true.
Proof. by rewrite leb_true_le. Qed.

Lemma leb_antisym' s t : String.leb s t = true → String.leb t s = true → s = t.
Proof. rewrite !leb_true_le. intros. by apply (anti_symm String.le). Qed.

Section sort_on.
Context {A : Type} (key : A → string).

Lemma sort_on_perm l : sort_on key l ≡ₚ l.
Proof. apply sort_perm. Qed.

Lemma elem_of_sort_on x l : x ∈ sort_on key l ↔ x ∈ l.
Proof. apply elem_of_sort. Qed.

Lemma sort_on_sorted l :
  StronglySorted (λ x y, String.leb (key x) (key y) = true) (sort_on key l).
Proof.
  apply sort_StronglySorted.
  - intros. apply String.leb_total.
  - intros ???. apply leb_trans.
Qed.

Lemma StronglySorted_unique l k :
  StronglySorted (λ x y, String.leb (key x) (key y) = true) l →
  StronglySorted (λ x y, String.leb (key x) (key y) = true) k →
  NoDup (key <$> l) → l ≡ₚ k → l = k.
Proof.
  intros Hl; revert k; induction Hl as [|x l Hl IH Hx]; intros k Hk Hnd Hp.
  - symmetry in Hp. by apply Permutation_nil_r in Hp.
  - destruct Hk as [|y k Hk Hy]; [by apply Permutation_nil_r in Hp|].
    simpl in Hnd. apply NoDup_cons in Hnd as [Hnx Hnd].
    assert (x = y) as ->.
    { assert (x ∈ y :: k) as Hxin by (rewrite <- Hp; set_solver).
      assert (y ∈ x :: l) as Hyin by (rewrite Hp; set_solver).
      apply elem_of_cons in Hxin as [->|Hxin]; [done|].
      apply elem_of_cons in Hyin as [->|Hyin]; [done|].
      rewrite Forall_forall in Hx, Hy.
      assert (key x = key y) as E by (apply leb_antisym'; auto).
      destruct Hnx. rewrite E. apply list_elem_of_fmap. eauto. }
    f_equal. apply IH; [done|done|]. by apply Permutation_cons_inv in Hp.
Qed.

(** Sorting by distinct keys depends only on the set of elements. *)
Lemma sort_on_canonical l k :
  NoDup (key <$> l) → l ≡ₚ k → sort_on key l = sort_on key k.
Proof.
  intros Hnd Hp. apply StronglySorted_unique; [apply sort_on_sorted..| |].
  - by rewrite sort_on_perm.
  - by rewrite !sort_on_perm.
Qed.

Lemma sort_on_sorted_id l :
  StronglySorted (λ x y, String.leb (key x) (key y) = true) l →
  NoDup (key <$> l) → sort_on key l = l.
Proof.
  intros Hs Hnd. symmetry. apply StronglySorted_unique; auto using sort_on_sorted.
  by rewrite sort_on_perm.
Qed.
End sort_on.

(** ** Dictionaries

    A Python dict built by a loop or comprehension keeps the last value bound
    to a key.  [py_dict] is such a dict when only lookups matter; an
    association list is used when the iteration order matters. *)

Definition py_dict {V} (l : list (string * V)) : gmap string V :=
  foldl (λ m p, <[p.1 := p.2]> m) ∅ l.

(** Dict comprehension [{key(x): x for x in l}]. *)
Definition index_by {V} (key : V → string) (l : list V) : gmap string V :=
  py_dict ((λ x, (key x, x)) <$> l).

(** Dict comprehension with a filter, [{x for x in xs}] and friends go through
    [gset]; ordered de-duplication is [sorted_strings ∘ remove_dups]. *)
Definition sorted_set (l : list string) : list string := sorted_strings (remove_dups l).

Section dict.
Context {V : Type}.
Implicit Types (l : list (string * V)).

Lemma py_dict_nil k : py_dict (V:=V) [] !! k = None.
Proof. done. Qed.

Lemma py_dict_snoc l k v : py_dict (l ++ [(k, v)]) = <[k := v]> (py_dict l).
Proof. unfold py_dict. by rewrite foldl_app. Qed.

Lemma py_dict_elem l k v : py_dict l !! k = Some v → (k, v) ∈ l.
Proof.
  induction l as [|[k' v'] l IH] using rev_ind; [by rewrite py_dict_nil|].
  rewrite py_dict_snoc, lookup_insert. case_decide; [intros; simplify_eq|]; set_solver.
Qed.

Lemma py_dict_lookup l k v :
  NoDup l.*1 → py_dict l !! k = Some v ↔ (k, v) ∈ l.
Proof.
  intros Hnd. split; [apply py_dict_elem|]. revert Hnd.
  induction l as [|[k' v'] l IH] using rev_ind; [set_solver|].
  rewrite fmap_app, py_dict_snoc. intros (Hnd & Hdisj & _)%NoDup_app Hin.
  rewrite lookup_insert. apply elem_of_app in Hin as [Hin|Hin].
  - case_decide as Hk; [|auto]. subst. destruct (Hdisj k).
    + apply list_elem_of_fmap. by exists (k, v).
    + set_solver.
  - apply list_elem_of_singleton in Hin. simplify_eq. by case_decide.
Qed.

Lemma py_dict_is_Some l k : is_Some (py_dict l !! k) ↔ k ∈ l.*1.
Proof.
  induction l as [|[k' v'] l IH] using rev_ind.
  - rewrite py_dict_nil. split; [by intros []|set_solver].
  - rewrite py_dict_snoc, lookup_insert, fmap_app, elem_of_app. simpl.
    case_decide; [split; [set_solver|done]|]. rewrite IH. set_solver.
Qed.

Lemma py_dict_None l k : py_dict l !! k = None ↔ k ∉ l.*1.
Proof. rewrite <- py_dict_is_Some. by rewrite <- eq_None_not_Some. Qed.

Context (key : V → string).

Lemma index_by_elem xs k x : index_by key xs !! k = Some x → x ∈ xs ∧ key x = k.
Proof. intros H%py_dict_elem. apply list_elem_of_fmap in H as (? & ? & ?). by simplify_eq. Qed.

Lemma index_by_lookup xs k x :
  NoDup (key <$> xs) → index_by key xs !! k = Some x ↔ x ∈ xs ∧ key x = k.
Proof.
  intros Hnd. split; [apply index_by_elem|]. intros [Hx <-].
  apply py_dict_lookup; [by rewrite <- list_fmap_compose|].
  apply list_elem_of_fmap. eauto.
Qed.

Lemma index_by_is_Some xs k : is_Some (index_by key xs !! k) ↔ k ∈ key <$> xs.
Proof. unfold index_by. rewrite py_dict_is_Some. by rewrite <- list_fmap_compose. Qed.

Lemma index_by_None xs k : index_by key xs !! k = None ↔ k ∉ key <$> xs.
Proof. rewrite <- index_by_is_Some. by rewrite <- eq_None_not_Some. Qed.
End dict.

Lemma elem_of_sorted_set x l : x ∈ sorted_set l ↔ x ∈ l.
Proof. unfold sorted_set, sorted_strings. by rewrite elem_of_sort_on, elem_of_remove_dups. Qed.

Lemma NoDup_key_eq {A} (key : A → string) (l : list A) x y :
  NoDup (key <$> l) → x ∈ l → y ∈ l → key x = key y → x = y.
Proof.
  intros Hnd Hx Hy E.
  pose proof (proj2 (index_by_lookup key l (key x) x Hnd) (conj Hx eq_refl)).
  pose proof (proj2 (index_by_lookup key l (key x) y Hnd) (conj Hy (eq_sym E))).
  congruence.
Qed.

Lemma filter_all {A} (P : A → Prop) `{∀ x, Decision (P x)} l : Forall P l → filter P l = l.
Proof. induction 1 as [|x l Hx _ IH]; [done|]. rewrite filter_cons, IH. by rewrite decide_True. Qed.

Lemma NoDup_fmap_filter {A} (key : A → string) (P : A → Prop) `{∀ x, Decision (P x)} (l : list A) :
  NoDup (key <$> l) → NoDup (key <$> filter P l).
Proof.
  induction l as [|x l IH]; csimpl; [done|]. intros [Hx Hnd]%NoDup_cons. rewrite filter_cons.
  case_decide; csimpl; [|auto]. constructor; [|auto]. intros (y & E & Hy)%list_elem_of_fmap. apply Hx.
  apply list_elem_of_fmap. exists y. split; [done|]. by apply list_elem_of_filter in Hy as [_ ?].
Qed.

Lemma filter_ext {A} (P Q : A → Prop) `{∀ x, Decision (P x)} `{∀ x, Decision (Q x)} (l : list A) :
  (∀ x, x ∈ l → P x ↔ Q x) → filter P l = filter Q l.
Proof.
  induction l as [|x l IH]; intros Heq; [done|]. rewrite !filter_cons, IH by (intros; apply Heq; by right).
  pose proof (Heq x ltac:(left)). repeat case_decide; naive_solver.
Qed.

(** [next((x for x in l if p(x)), None)] *)
Definition py_next {A} (p : A → bool) (l : list A) : option A := List.find p l.

Lemma py_next_Some {A} (p : A → bool) l x : py_next p l = Some x → x ∈ l ∧ p x = true.
Proof. intros H%List.find_some. by rewrite list_elem_of_In. Qed.

Lemma py_next_None {A} (p : A → bool) l : py_next p l = None ↔ ∀ x, x ∈ l → p x = false.
Proof.
  split.
  - intros H x Hx. apply (List.find_none _ _ H). by apply list_elem_of_In.
  - intros H. destruct (py_next p l) eqn:E; [|done].
    apply py_next_Some in E as [E1 E2]. rewrite H in E2 by done. done.
Qed.

(** ** [itertools.product] *)

Fixpoint product {A} (ls : list (list A)) : list (list A) :=
  match ls with
  | [] => [[]]
  | l :: ls => x ← l; cons x <$> product ls
  end.

Lemma elem_of_product {A} (ls : list (list A)) (xs : list A) :
  xs ∈ product ls ↔ Forall2 (∈) xs ls.
Proof.
  revert xs; induction ls as [|l ls IH]; intros xs; simpl.
  - rewrite list_elem_of_singleton. split; [intros ->; constructor | by inversion 1].
  - rewrite list_elem_of_bind. split.
    + intros (x & (ys & -> & Hys)%list_elem_of_fmap & Hx). constructor; [done|by apply IH].
    + inversion 1 as [|x ? ys ? Hx Hys]; subst. exists x. split; [|done].
      apply list_elem_of_fmap. exists ys. by rewrite IH.
Qed.

Lemma length_product {A} (ls : list (list A)) :
  Z.of_nat (length (product ls)) = foldr Z.mul 1 ((λ l, Z.of_nat (length l)) <$> ls).
Proof.
  induction ls as [|l ls IH]; csimpl; [done|]. rewrite <- IH. clear IH.
  induction l as [|x l IH]; csimpl; [done|].
  rewrite length_app, length_fmap, Nat2Z.inj_add, IH. lia.
Qed.

(** ** Integer sums *)

Definition sumZ (l : list Z) : Z := foldr Z.add 0 l.

Lemma sumZ_app l k : sumZ (l ++ k) = sumZ l + sumZ k.
Proof. induction l; csimpl; lia. Qed.

Lemma foldl_add_sumZ {A} (f : A → Z) l a :
  foldl (λ s x, s + f x) a l = a + sumZ (f <$> l).
Proof. revert a; induction l as [|x l IH]; intros a; csimpl; [lia|]. rewrite IH. lia. Qed.

Lemma sumZ_perm l k : l ≡ₚ k → sumZ l = sumZ k.
Proof. induction 1; csimpl; lia. Qed.

Lemma sumZ_fmap_ext {A} (f g : A → Z) l :
  (∀ x, x ∈ l → f x = g x) → sumZ (f <$> l) = sumZ (g <$> l).
Proof.
  induction l as [|x l IH]; intros H; csimpl; [done|].
  rewrite H by set_solver. rewrite IH; [done|]. set_solver.
Qed.

Lemma sumZ_fmap_le {A} (f g : A → Z) l :
  (∀ x, x ∈ l → f x ≤ g x) → sumZ (f <$> l) ≤ sumZ (g <$> l).
Proof.
  induction l as [|x l IH]; intros H; csimpl; [done|].
  assert (f x ≤ g x) by (apply H; set_solver).
  assert (sumZ (f <$> l) ≤ sumZ (g <$> l)) by (apply IH; set_solver). lia.
Qed.

Lemma sumZ_nonneg l : Forall (λ x, 0 ≤ x) l → 0 ≤ sumZ l.
Proof. induction 1; csimpl; lia. Qed.

(** [-(-a // b)] and [(a + b - 1) // b] are the ceiling division. *)
Definition ceil_div (a b : Z) : Z := (a + b - 1) `div` b.

Lemma ceil_div_spec a b : 0 < b → b * (ceil_div a b - 1) < a ≤ b * ceil_div a b.
Proof.
  intros Hb. unfold ceil_div.
  pose proof (Z.div_mod (a + b - 1) b ltac:(lia)).
  pose proof (Z.mod_pos_bound (a + b - 1) b Hb). nia.
Qed.

Lemma ceil_div_opp a b : 0 < b → - ((- a) `div` b) = ceil_div a b.
Proof.
  intros Hb. pose proof (ceil_div_spec a b Hb).
  pose proof (Z.div_mod (- a) b ltac:(lia)).
  pose proof (Z.mod_pos_bound (- a) b Hb). nia.
Qed.

Lemma ceil_div_mul a b : 0 < b → ceil_div (a * b) b = a.
Proof. intros Hb. pose proof (ceil_div_spec (a * b) b Hb). nia. Qed.

Lemma ceil_div_nonneg a b : 0 < b → 0 ≤ a → 0 ≤ ceil_div a b.
Proof. intros. pose proof (ceil_div_spec a b ltac:(lia)). nia. Qed.

Lemma ceil_div_mono a a' b : 0 < b → a ≤ a' → ceil_div a b ≤ ceil_div a' b.
Proof. intros. unfold ceil_div. apply Z.div_le_mono; lia. Qed.

(** ** Signed 64-bit range *)

Definition INT64_MIN : Z := - 2 ^ 63.
Definition INT64_MAX : Z := 2 ^ 63 - 1.
Definition in_int64 (z : Z) : bool := (INT64_MIN <=? z) && (z <=? INT64_MAX).

Lemma in_int64_spec z : in_int64 z = true ↔ INT64_MIN ≤ z ≤ INT64_MAX.
Proof. unfold in_int64. rewrite andb_true_iff, !Z.leb_le. done. Qed.
