(* ===== verification/PyValue.v ===== *)
(** * Values of the Python standard library the engine uses

    Aware datetimes, the whitespace test behind [str.strip], JSON values with
    the canonical printer ([json.dumps(..., sort_keys=True,
    separators=(",", ":"), ensure_ascii=False)]) and the SHA-256 fingerprint.
    The digest itself is a parameter, the class [Sha256]: no theorem assumes
    more of it than what is written as a hypothesis. *)

From S2P Require Import Prelude.
Local Open Scope Z_scope.

(** ** Strings *)

(** [str.isspace] on the code points below 256. *)
Definition is_space (c : Ascii.ascii) : bool :=
  let n := Z.of_N (Ascii.N_of_ascii c) in
  ((9 <=? n) && (n <=? 13)) || ((28 <=? n) && (n <=? 32)) || (n =? 133) || (n =? 160).

(** [not value.strip()] *)
Fixpoint is_blank (s : string) : bool :=
  match s with
  | EmptyString => true
  | String c s => is_space c && is_blank s
  end.

Lemma is_blank_app s t : is_blank (s +:+ t) = is_blank s && is_blank t.
Proof. induction s as [|c s IH]; simpl; [done|]. by rewrite IH, andb_assoc. Qed.

(** [sep.join(parts)] *)
Fixpoint join (sep : string) (parts : list string) : string :=
  match parts with
  | [] => ""
  | [s] => s
  | s :: parts => s +:+ sep +:+ join sep parts
  end.

Definition str_nat (n : nat) : string := pretty n.
Definition str_Z (z : Z) : string := pretty z.

(** ** Datetimes

    [dt_us] is the instant in microseconds since 1970-01-01T00:00:00, in UTC
    for an aware value and on the wall clock for a naive one; [dt_offset] is
    the UTC offset in microseconds, [None] for a naive datetime. *)

Record datetime := Datetime { dt_us : Z; dt_offset : option Z }.

#[export] Instance datetime_eq_dec : EqDecision datetime.
Proof. solve_decision. Defined.

Definition is_utc (d : datetime) : bool := bool_decide (dt_offset d = Some 0).

(** [==] on datetimes: instants for aware values, never equal across kinds. *)
Definition datetime_eqb (a b : datetime) : bool :=
  match dt_offset a, dt_offset b with
  | Some _, Some _ | None, None => dt_us a =? dt_us b
  | _, _ => false
  end.

(** [a < b] between two aware (or two naive) datetimes. *)
Definition datetime_ltb (a b : datetime) : bool := dt_us a <? dt_us b.

Definition US_PER_SECOND : Z := 1000000.
Definition US_PER_DAY : Z := 86400 * US_PER_SECOND.

(** [timedelta] fields of a difference: days, seconds in [0, 86400),
    microseconds in [0, 10^6). *)
Definition delta_days (us : Z) : Z := us `div` US_PER_DAY.
Definition delta_seconds (us : Z) : Z := (us `mod` US_PER_DAY) `div` US_PER_SECOND.
Definition delta_microseconds (us : Z) : Z := us `mod` US_PER_SECOND.

Lemma is_utc_eq a b : is_utc a = true → is_utc b = true →
  datetime_eqb a b = true ↔ a = b.
Proof.
  destruct a as [ua oa], b as [ub ob]. unfold is_utc, datetime_eqb. simpl.
  intros ->%bool_decide_eq_true_1 ->%bool_decide_eq_true_1.
  rewrite Z.eqb_eq. split; [by intros -> | by intros [= ->]].
Qed.

Lemma datetime_eqb_refl a : datetime_eqb a a = true.
Proof. unfold datetime_eqb. destruct (dt_offset a); apply Z.eqb_refl. Qed.

Lemma delta_parts us :
  us = (delta_days us * 86400 + delta_seconds us) * US_PER_SECOND + delta_microseconds us
  ∧ 0 ≤ delta_seconds us < 86400 ∧ 0 ≤ delta_microseconds us < US_PER_SECOND.
Proof.
  unfold delta_days, delta_seconds, delta_microseconds.
  assert (0 < US_PER_SECOND) by (unfold US_PER_SECOND; lia).
  assert (HD : US_PER_DAY = 86400 * US_PER_SECOND) by done.
  assert (0 < US_PER_DAY) by lia.
  pose proof (Z.div_mod us US_PER_DAY ltac:(lia)).
  pose proof (Z.mod_pos_bound us US_PER_DAY ltac:(lia)).
  pose proof (Z.div_mod (us `mod` US_PER_DAY) US_PER_SECOND ltac:(lia)).
  pose proof (Z.mod_pos_bound (us `mod` US_PER_DAY) US_PER_SECOND ltac:(lia)).
  assert ((us `mod` US_PER_DAY) `mod` US_PER_SECOND = us `mod` US_PER_SECOND).
  { rewrite HD. symmetry. rewrite (Z.mul_comm 86400).
    rewrite Z.rem_mul_r by lia.
    rewrite Z.mul_comm, Z.mod_add by lia. by rewrite Z.mod_mod by lia. }
  rewrite HD in *. set (q := us `mod` (86400 * US_PER_SECOND)) in *.
  split; [|split]; nia.
Qed.

(** *** [isoformat] of a UTC datetime, with the trailing Z *)

Definition civil_from_days (days : Z) : Z * Z * Z :=
  let z := days + 719468 in
  let era := z `div` 146097 in
  let doe := z - era * 146097 in
  let yoe := (doe - doe `div` 1460 + doe `div` 36524 - doe `div` 146096) `div` 365 in
  let doy := doe - (365 * yoe + yoe `div` 4 - yoe `div` 100) in
  let mp := (5 * doy + 2) `div` 153 in
  let d := doy - (153 * mp + 2) `div` 5 + 1 in
  let m := if mp <? 10 then mp + 3 else mp - 9 in
  (yoe + era * 400 + (if m <=? 2 then 1 else 0), m, d).

Fixpoint zeros (n : nat) : string :=
  match n with O => "" | S n => "0" +:+ zeros n end.

Definition pad (width : nat) (z : Z) : string :=
  let s := str_Z z in zeros (width - String.length s) +:+ s.

Definition isoformat_utc (d : datetime) : string :=
  let us := dt_us d in
  let '(y, m, day) := civil_from_days (delta_days us) in
  let s := delta_seconds us in
  let micros := delta_microseconds us in
  pad 4 y +:+ "-" +:+ pad 2 m +:+ "-" +:+ pad 2 day +:+ "T" +:+
  pad 2 (s `div` 3600) +:+ ":" +:+ pad 2 ((s `div` 60) `mod` 60) +:+ ":" +:+ pad 2 (s `mod` 60) +:+
  (if micros =? 0 then "" else "." +:+ pad 6 micros) +:+ "Z".

(** ** JSON *)

Inductive json :=
  | JNull
  | JBool (b : bool)
  | JInt (z : Z)
  | JStr (s : string)
  | JArr (l : list json)
  | JObj (fields : list (string * json)).

Definition hex_digit (n : N) : Ascii.ascii :=
  Ascii.ascii_of_N (if (n <? 10)%N then 48 + n else 87 + n)%N.

(** The escapes of [json.dumps] with [ensure_ascii=False]. *)
Definition escape_char (c : Ascii.ascii) : string :=
  let n := Ascii.N_of_ascii c in
  let bs := String (Ascii.ascii_of_N 92) in
  if (n =? 34)%N then bs (String c "")
  else if (n =? 92)%N then bs (String c "")
  else if (n =? 8)%N then bs "b"
  else if (n =? 9)%N then bs "t"
  else if (n =? 10)%N then bs "n"
  else if (n =? 12)%N then bs "f"
  else if (n =? 13)%N then bs "r"
  else if (n <? 32)%N
  then bs ("u00" +:+ String (hex_digit (n / 16)) (String (hex_digit (n mod 16)) ""))
  else String c "".

Fixpoint escape (s : string) : string :=
  match s with
  | EmptyString => ""
  | String c s => escape_char c +:+ escape s
  end.

Definition quote (s : string) : string :=
  let q := String (Ascii.ascii_of_N 34) "" in q +:+ escape s +:+ q.

Fixpoint json_dumps (j : json) : string :=
  match j with
  | JNull => "null"
  | JBool b => if b then "true" else "false"
  | JInt z => str_Z z
  | JStr s => quote s
  | JArr l => "[" +:+ join "," (json_dumps <$> l) +:+ "]"
  | JObj fields =>
      "{" +:+ join "," ((λ p, quote p.1 +:+ ":" +:+ p.2) <$>
        sort_on fst ((λ p, (p.1, json_dumps p.2)) <$> fields)) +:+ "}"
  end.

Definition jopt {A} (f : A → json) (o : option A) : json :=
  match o with Some a => f a | None => JNull end.

(** ** Fingerprints

    [sha256_hexdigest s] stands for
    [hashlib.sha256(s.encode()).hexdigest()]. *)

Class Sha256 := sha256_hexdigest : string → string.

Definition fingerprint_json `{Sha256} (j : json) : string :=
  "sha256:" +:+ sha256_hexdigest (json_dumps j).
#[global] Arguments fingerprint_json : simpl never.

Example isoformat_epoch : isoformat_utc (Datetime 0 (Some 0)) = "1970-01-01T00:00:00Z".
Proof. vm_compute. reflexivity. Qed.

Example isoformat_2026 :
  isoformat_utc (Datetime 1785283200000001 (Some 0)) = "2026-07-29T00:00:00.000001Z".
Proof. vm_compute. reflexivity. Qed.

Example json_dumps_sorts :
  json_dumps (JObj [("b", JInt (-12)); ("a", JArr [JStr "x"; JNull])])
  = json_dumps (JObj [("a", JArr [JStr "x"; JNull]); ("b", JInt (-12))]).
Proof. vm_compute. reflexivity. Qed.
