(* ===== verification/NLeg.v ===== *)
(** * The N-leg problem: data model, normal forms, canonical payloads

    [src/open_trader/prediction_n_leg.py].  The dataclasses are records, the
    [StrEnum]s are inductive types with a [_value] function.  Python's dynamic
    type tests ([isinstance], [type(x) is int]) are discharged by typing. *)

From S2P Require Import Prelude PyValue.
Local Open Scope Z_scope.

Definition REQUEST_SCHEMA_V1 := "open_trader.prediction_n_leg.request.v1".
Definition PROBLEM_SCHEMA_V1 := "open_trader.prediction_n_leg.problem.v1".
Definition OBSERVATION_SCHEMA_V1 := "open_trader.prediction_n_leg.observation.v1".
Definition PAYOUT_PROOF_SCHEMA_V1 := "open_trader.prediction_n_leg.payout_proof.v1".
Definition USD_UNITS_PER_DOLLAR : Z := 1000000.
Definition MICRO_VALUATION_UNIT := "usd-micro".

(** ** Enumerations *)

Inductive ActionSide := BUY_YES | BUY_NO.
Inductive TerminalKind := NORMAL_YES | NORMAL_NO | VOID | REFUND | SPLIT.
Inductive RelationKind := IMPLIES | MUTUALLY_EXCLUSIVE | EXACTLY_ONE | NATIVE_COMPLEMENT.
Inductive QualificationMetric :=
  | GUARANTEED_PROFIT_UNITS
  | NET_MARGIN_PPM
  | RETURN_ON_COST_PPM
  | ANNUALIZED_RETURN_PPM
  | MAX_CAPITAL_RELEASE_DELAY_SECONDS.
Inductive Comparison := GREATER_THAN_OR_EQUAL | LESS_THAN_OR_EQUAL.
Inductive SearchMode := ADMISSION | OPTIMIZATION | RAW_ARBITRAGE_DIAGNOSTIC.
Inductive SolveStatus := SOLVE_FEASIBLE | SOLVE_INFEASIBLE | SOLVE_UNKNOWN.
Inductive ProofStatus := PROVEN | PROOF_UNKNOWN.
Inductive BusinessStatus :=
  | QUALIFIED_FEASIBLE | NO_QUALIFIED_OPPORTUNITY | NO_ARBITRAGE | BUSINESS_UNKNOWN.
Inductive ProofResultKind :=
  | KIND_PORTFOLIO | KIND_NO_QUALIFIED_OPPORTUNITY | KIND_NO_ARBITRAGE.
Inductive OptimalityStatus := OPTIMAL | NOT_PROVEN | NOT_APPLICABLE.
Inductive UnknownReason :=
  | INVALID_MODEL
  | UNKNOWN_TERMINAL_DATA
  | UNKNOWN_VALUATION
  | NUMERIC_OVERFLOW
  | CONTRADICTORY_CONSTRAINT_MODEL
  | ORACLE_DECISION_LIMIT_EXCEEDED
  | ORACLE_STATE_LIMIT_EXCEEDED
  | ORACLE_SUPPORT_LIMIT_EXCEEDED.

#[export] Instance ActionSide_eq_dec : EqDecision ActionSide.
Proof. solve_decision. Defined.
#[export] Instance TerminalKind_eq_dec : EqDecision TerminalKind.
Proof. solve_decision. Defined.
#[export] Instance RelationKind_eq_dec : EqDecision RelationKind.
Proof. solve_decision. Defined.
#[export] Instance QualificationMetric_eq_dec : EqDecision QualificationMetric.
Proof. solve_decision. Defined.
#[export] Instance Comparison_eq_dec : EqDecision Comparison.
Proof. solve_decision. Defined.
#[export] Instance SearchMode_eq_dec : EqDecision SearchMode.
Proof. solve_decision. Defined.
#[export] Instance SolveStatus_eq_dec : EqDecision SolveStatus.
Proof. solve_decision. Defined.
#[export] Instance ProofStatus_eq_dec : EqDecision ProofStatus.
Proof. solve_decision. Defined.
#[export] Instance ProofResultKind_eq_dec : EqDecision ProofResultKind.
Proof. solve_decision. Defined.
#[export] Instance OptimalityStatus_eq_dec : EqDecision OptimalityStatus.
Proof. solve_decision. Defined.
#[export] Instance BusinessStatus_eq_dec : EqDecision BusinessStatus.
Proof. solve_decision. Defined.
#[export] Instance UnknownReason_eq_dec : EqDecision UnknownReason.
Proof. solve_decision. Defined.

Definition side_value (s : ActionSide) : string :=
  match s with BUY_YES => "BUY_YES" | BUY_NO => "BUY_NO" end.

Definition terminal_kind_value (k : TerminalKind) : string :=
  match k with
  | NORMAL_YES => "NORMAL_YES" | NORMAL_NO => "NORMAL_NO" | VOID => "VOID"
  | REFUND => "REFUND" | SPLIT => "SPLIT"
  end.

Definition relation_kind_value (k : RelationKind) : string :=
  match k with
  | IMPLIES => "IMPLIES" | MUTUALLY_EXCLUSIVE => "MUTUALLY_EXCLUSIVE"
  | EXACTLY_ONE => "EXACTLY_ONE" | NATIVE_COMPLEMENT => "NATIVE_COMPLEMENT"
  end.

Definition metric_value (m : QualificationMetric) : string :=
  match m with
  | GUARANTEED_PROFIT_UNITS => "GUARANTEED_PROFIT_UNITS"
  | NET_MARGIN_PPM => "NET_MARGIN_PPM"
  | RETURN_ON_COST_PPM => "RETURN_ON_COST_PPM"
  | ANNUALIZED_RETURN_PPM => "ANNUALIZED_RETURN_PPM"
  | MAX_CAPITAL_RELEASE_DELAY_SECONDS => "MAX_CAPITAL_RELEASE_DELAY_SECONDS"
  end.

Definition comparison_value (c : Comparison) : string :=
  match c with
  | GREATER_THAN_OR_EQUAL => "GREATER_THAN_OR_EQUAL"
  | LESS_THAN_OR_EQUAL => "LESS_THAN_OR_EQUAL"
  end.

Definition mode_value (m : SearchMode) : string :=
  match m with
  | ADMISSION => "ADMISSION" | OPTIMIZATION => "OPTIMIZATION"
  | RAW_ARBITRAGE_DIAGNOSTIC => "RAW_ARBITRAGE_DIAGNOSTIC"
  end.

Definition unknown_reason_value (r : UnknownReason) : string :=
  match r with
  | INVALID_MODEL => "INVALID_MODEL"
  | UNKNOWN_TERMINAL_DATA => "UNKNOWN_TERMINAL_DATA"
  | UNKNOWN_VALUATION => "UNKNOWN_VALUATION"
  | NUMERIC_OVERFLOW => "NUMERIC_OVERFLOW"
  | CONTRADICTORY_CONSTRAINT_MODEL => "CONTRADICTORY_CONSTRAINT_MODEL"
  | ORACLE_DECISION_LIMIT_EXCEEDED => "ORACLE_DECISION_LIMIT_EXCEEDED"
  | ORACLE_STATE_LIMIT_EXCEEDED => "ORACLE_STATE_LIMIT_EXCEEDED"
  | ORACLE_SUPPORT_LIMIT_EXCEEDED => "ORACLE_SUPPORT_LIMIT_EXCEEDED"
  end.

(** ** Records *)

Record SettlementObservationKey := {
  ok_schema_version : string;
  ok_oracle_id : string;
  ok_indicator_id : string;
  ok_observation_start : datetime;
  ok_observation_end : datetime;
  ok_timezone : string;
  ok_rule_version : string;
}.

Record ExecutableCostSlice := {
  first_lot : Z;
  last_lot : Z;
  incremental_cost_upper_bound_units : Z;
}.

Record CandidateAction := {
  ca_action_id : string;
  ca_venue_id : string;
  ca_account_id : string;
  ca_chain_id : string;
  ca_market_contract_id : string;
  ca_settlement_observation_key : SettlementObservationKey;
  ca_side : ActionSide;
  ca_lot_step_units : Z;
  ca_quantity_scale : Z;
  ca_min_quantity_lots : Z;
  ca_max_quantity_lots : Z;
  ca_settlement_asset_id : string;
  ca_valuation_unit_id : string;
  ca_asset_valuation_rule_id : string;
  ca_cost_slices : list ExecutableCostSlice;
}.

Record ActionPayout := {
  ap_action_id : string;
  payout_lower_bound_per_lot_units : Z;
}.

Record TerminalAtom := {
  ta_atom_id : string;
  ta_kind : TerminalKind;
  ta_rule_version : option string;
  ta_payouts : list ActionPayout;
  ta_capital_release_at : option datetime;
}.

Record TerminalStateSet := {
  ts_market_contract_id : string;
  ts_settlement_observation_key : SettlementObservationKey;
  ts_rule_version : string;
  ts_atoms : list TerminalAtom;
}.

Record RelationConstraint := {
  rc_constraint_id : string;
  rc_kind : RelationKind;
  rc_contract_ids : list string;
  rc_rule_version : string;
}.

Record ForbiddenAtomCombination := {
  fb_constraint_id : string;
  fb_atom_ids : list string;
  fb_rule_version : string;
}.

Record ConstraintModel := {
  cm_relations : list RelationConstraint;
  cm_forbidden_atom_combinations : list ForbiddenAtomCombination;
}.

Record QualificationConstraint := {
  qc_constraint_id : string;
  qc_rule_version : string;
  qc_metric : QualificationMetric;
  qc_comparison : Comparison;
  qc_threshold_numerator : Z;
  qc_threshold_denominator : Z;
}.

Record ArbitrageProblem := {
  pb_schema_version : string;
  pb_problem_id : string;
  pb_as_of : datetime;
  pb_valuation_unit_id : string;
  pb_actions : list CandidateAction;
  pb_terminal_state_sets : list TerminalStateSet;
  pb_constraint_model : ConstraintModel;
  pb_qualification_constraints : list QualificationConstraint;
}.

Record ActionQuantity := AQ { aq_action_id : string; aq_quantity_lots : Z }.
Record SelectedAtom := SelAtom { sa_market_contract_id : string; sa_atom_id : string }.
Record SettlementScenario := Scenario { sc_atoms : list SelectedAtom }.

Record WorstStateCut := {
  cut_id : string;
  cut_scenario : SettlementScenario;
  cut_payout_per_lot : list ActionPayout;
}.

Record SelectedSupportGraph := {
  sg_action_ids : list string;
  sg_contract_ids : list string;
  sg_constraint_ids : list string;
  sg_hyperedges : list (string * list string);
}.

Record PayoutProof := {
  pp_schema_version : string;
  pp_result_kind : ProofResultKind;
  pp_problem_fingerprint : string;
  pp_portfolio_fingerprint : option string;
  pp_worst_scenario : option SettlementScenario;
  pp_worst_state_cut : option WorstStateCut;
  pp_payout_lower_bound_units : option Z;
  pp_cost_upper_bound_units : option Z;
  pp_guaranteed_profit_units : option Z;
  pp_conservative_capital_release_at : option datetime;
  pp_selected_support_graph : option SelectedSupportGraph;
  pp_proof_method : string;
  pp_request_fingerprint : option string;
  pp_source_problem_fingerprint : option string;
  pp_qualification_fingerprint : option string;
  pp_quantity_vectors_total : option Z;
  pp_quantity_vectors_examined : option Z;
  pp_joint_states_per_vector : option Z;
  pp_rejection_counts : list (string * Z);
}.

Record PortfolioSolution := {
  ps_quantities : list ActionQuantity;
  ps_payout_proof : PayoutProof;
}.

Record ObjectiveBounds := {
  ob_lower_bound_units : option Z;
  ob_upper_bound_units : option Z;
  ob_gap_units : option Z;
  ob_closed : bool;
}.

Record OracleBudget := {
  bg_max_quantity_vectors : Z;
  bg_max_joint_states : Z;
  bg_max_support_rechecks : Z;
}.

Record OracleRequest := {
  rq_schema_version : string;
  rq_mode : SearchMode;
  rq_problem : ArbitrageProblem;
  rq_budget : OracleBudget;
}.

Record OracleResult := {
  or_solve_status : SolveStatus;
  or_proof_status : ProofStatus;
  or_business_status : BusinessStatus;
  or_optimality_status : OptimalityStatus;
  or_objective_bounds : ObjectiveBounds;
  or_solution : option PortfolioSolution;
  or_negative_proof : option PayoutProof;
  or_unknown_reason : option UnknownReason;
}.

Record ModelIssue := Issue { mi_code : string; mi_path : string; mi_message : string }.

#[export] Instance ObservationKey_eq_dec : EqDecision SettlementObservationKey.
Proof. solve_decision. Defined.
#[export] Instance CostSlice_eq_dec : EqDecision ExecutableCostSlice.
Proof. solve_decision. Defined.
#[export] Instance ActionPayout_eq_dec : EqDecision ActionPayout.
Proof. solve_decision. Defined.
#[export] Instance ActionQuantity_eq_dec : EqDecision ActionQuantity.
Proof. solve_decision. Defined.
#[export] Instance SelectedAtom_eq_dec : EqDecision SelectedAtom.
Proof. solve_decision. Defined.
#[export] Instance Scenario_eq_dec : EqDecision SettlementScenario.
Proof. solve_decision. Defined.
#[export] Instance Cut_eq_dec : EqDecision WorstStateCut.
Proof. solve_decision. Defined.

(** [==] on observation keys goes through Python's datetime equality. *)
Definition observation_key_eqb (a b : SettlementObservationKey) : bool :=
  (ok_schema_version a =? ok_schema_version b)%string &&
  (ok_oracle_id a =? ok_oracle_id b)%string &&
  (ok_indicator_id a =? ok_indicator_id b)%string &&
  datetime_eqb (ok_observation_start a) (ok_observation_start b) &&
  datetime_eqb (ok_observation_end a) (ok_observation_end b) &&
  (ok_timezone a =? ok_timezone b)%string &&
  (ok_rule_version a =? ok_rule_version b)%string.

(** ** [dataclasses.replace] *)

Definition set_action_cost_slices (a : CandidateAction) (cs : list ExecutableCostSlice) : CandidateAction := {|
  ca_action_id := ca_action_id a; ca_venue_id := ca_venue_id a;
  ca_account_id := ca_account_id a; ca_chain_id := ca_chain_id a;
  ca_market_contract_id := ca_market_contract_id a;
  ca_settlement_observation_key := ca_settlement_observation_key a;
  ca_side := ca_side a; ca_lot_step_units := ca_lot_step_units a;
  ca_quantity_scale := ca_quantity_scale a;
  ca_min_quantity_lots := ca_min_quantity_lots a;
  ca_max_quantity_lots := ca_max_quantity_lots a;
  ca_settlement_asset_id := ca_settlement_asset_id a;
  ca_valuation_unit_id := ca_valuation_unit_id a;
  ca_asset_valuation_rule_id := ca_asset_valuation_rule_id a;
  ca_cost_slices := cs |}.

Definition set_action_identity (a : CandidateAction) (id : string) (side : ActionSide) : CandidateAction := {|
  ca_action_id := id; ca_venue_id := ca_venue_id a;
  ca_account_id := ca_account_id a; ca_chain_id := ca_chain_id a;
  ca_market_contract_id := ca_market_contract_id a;
  ca_settlement_observation_key := ca_settlement_observation_key a;
  ca_side := side; ca_lot_step_units := ca_lot_step_units a;
  ca_quantity_scale := ca_quantity_scale a;
  ca_min_quantity_lots := ca_min_quantity_lots a;
  ca_max_quantity_lots := ca_max_quantity_lots a;
  ca_settlement_asset_id := ca_settlement_asset_id a;
  ca_valuation_unit_id := ca_valuation_unit_id a;
  ca_asset_valuation_rule_id := ca_asset_valuation_rule_id a;
  ca_cost_slices := ca_cost_slices a |}.

Definition set_action_valuation (a : CandidateAction) (unit rule : string) : CandidateAction := {|
  ca_action_id := ca_action_id a; ca_venue_id := ca_venue_id a;
  ca_account_id := ca_account_id a; ca_chain_id := ca_chain_id a;
  ca_market_contract_id := ca_market_contract_id a;
  ca_settlement_observation_key := ca_settlement_observation_key a;
  ca_side := ca_side a; ca_lot_step_units := ca_lot_step_units a;
  ca_quantity_scale := ca_quantity_scale a;
  ca_min_quantity_lots := ca_min_quantity_lots a;
  ca_max_quantity_lots := ca_max_quantity_lots a;
  ca_settlement_asset_id := unit;
  ca_valuation_unit_id := unit;
  ca_asset_valuation_rule_id := rule;
  ca_cost_slices := ca_cost_slices a |}.

Definition set_atom_payouts (t : TerminalAtom) (ps : list ActionPayout) : TerminalAtom := {|
  ta_atom_id := ta_atom_id t; ta_kind := ta_kind t; ta_rule_version := ta_rule_version t;
  ta_payouts := ps; ta_capital_release_at := ta_capital_release_at t |}.

Definition set_state_atoms (s : TerminalStateSet) (ts : list TerminalAtom) : TerminalStateSet := {|
  ts_market_contract_id := ts_market_contract_id s;
  ts_settlement_observation_key := ts_settlement_observation_key s;
  ts_rule_version := ts_rule_version s; ts_atoms := ts |}.

Definition set_relation_contracts (r : RelationConstraint) (cs : list string) : RelationConstraint := {|
  rc_constraint_id := rc_constraint_id r; rc_kind := rc_kind r;
  rc_contract_ids := cs; rc_rule_version := rc_rule_version r |}.

Definition set_forbidden_atoms (f : ForbiddenAtomCombination) (ids : list string) : ForbiddenAtomCombination := {|
  fb_constraint_id := fb_constraint_id f; fb_atom_ids := ids; fb_rule_version := fb_rule_version f |}.

Definition set_threshold_numerator (q : QualificationConstraint) (n : Z) : QualificationConstraint := {|
  qc_constraint_id := qc_constraint_id q; qc_rule_version := qc_rule_version q;
  qc_metric := qc_metric q; qc_comparison := qc_comparison q;
  qc_threshold_numerator := n; qc_threshold_denominator := qc_threshold_denominator q |}.

Definition set_constraint_model (p : ArbitrageProblem) (m : ConstraintModel) : ArbitrageProblem := {|
  pb_schema_version := pb_schema_version p; pb_problem_id := pb_problem_id p;
  pb_as_of := pb_as_of p; pb_valuation_unit_id := pb_valuation_unit_id p;
  pb_actions := pb_actions p; pb_terminal_state_sets := pb_terminal_state_sets p;
  pb_constraint_model := m; pb_qualification_constraints := pb_qualification_constraints p |}.
