(* ===== verification/NLegForms.v ===== *)
(** * Normal forms of an N-leg problem and canonical payloads

    [src/open_trader/prediction_n_leg.py]: the legacy-unit normalization, the
    sorted form produced by the decoder, the direction-aware action identities
    (issue #111) and the canonical JSON payloads behind [fingerprint]. *)

From S2P Require Import Prelude PyValue NLeg.
Local Open Scope Z_scope.

(** ** Legacy valuation units *)

Definition is_legacy_unit (unit : string) : bool :=
  (unit =? "USD")%string || (unit =? "usd-cents")%string.

Definition normalize_legacy_payout (payout : ActionPayout) : res ActionPayout :=
  let value := payout_lower_bound_per_lot_units payout in
  scaled ← (if value =? 0 then Ok 0
            else if value =? 1 then Ok USD_UNITS_PER_DOLLAR
            else Err (ValueError ("unsupported payout scale: " +:+ str_Z value)));
  Ok {| ap_action_id := ap_action_id payout; payout_lower_bound_per_lot_units := scaled |}.

Definition normalize_legacy_atom (atom : TerminalAtom) : res TerminalAtom :=
  payouts ← mapM normalize_legacy_payout (ta_payouts atom);
  Ok (set_atom_payouts atom payouts).

Definition scale_cost_slice (c : ExecutableCostSlice) : ExecutableCostSlice := {|
  first_lot := first_lot c; last_lot := last_lot c;
  incremental_cost_upper_bound_units :=
    incremental_cost_upper_bound_units c * USD_UNITS_PER_DOLLAR |}.

Definition normalize_legacy_action (a : CandidateAction) : CandidateAction :=
  set_action_cost_slices (set_action_valuation a MICRO_VALUATION_UNIT "usd-micro-v1")
    (scale_cost_slice <$> ca_cost_slices a).

Definition normalize_legacy_qualification (q : QualificationConstraint) : QualificationConstraint :=
  set_threshold_numerator q
    (if decide (qc_metric q = GUARANTEED_PROFIT_UNITS)
     then qc_threshold_numerator q * USD_UNITS_PER_DOLLAR
     else qc_threshold_numerator q).

Definition normalize_problem (problem : ArbitrageProblem) : res ArbitrageProblem :=
  let unit := pb_valuation_unit_id problem in
  if (unit =? MICRO_VALUATION_UNIT)%string then Ok problem
  else if negb (is_legacy_unit unit)
  then Err (ValueError ("unsupported valuation unit: " +:+ unit))
  else
    states ← mapM (λ state,
        atoms ← mapM normalize_legacy_atom (ts_atoms state);
        Ok (set_state_atoms state atoms)) (pb_terminal_state_sets problem);
    Ok {| pb_schema_version := pb_schema_version problem;
          pb_problem_id := pb_problem_id problem;
          pb_as_of := pb_as_of problem;
          pb_valuation_unit_id := MICRO_VALUATION_UNIT;
          pb_actions := normalize_legacy_action <$> pb_actions problem;
          pb_terminal_state_sets := states;
          pb_constraint_model := pb_constraint_model problem;
          pb_qualification_constraints :=
            normalize_legacy_qualification <$> pb_qualification_constraints problem |}.

(** ** The sorted form *)

Definition sorted_atom (t : TerminalAtom) : TerminalAtom :=
  set_atom_payouts t (sort_on ap_action_id (ta_payouts t)).

Definition sorted_state_set (s : TerminalStateSet) : TerminalStateSet :=
  set_state_atoms s (sort_on ta_atom_id (sorted_atom <$> ts_atoms s)).

Definition sorted_relation (r : RelationConstraint) : RelationConstraint :=
  set_relation_contracts r
    (if decide (rc_kind r = IMPLIES) then rc_contract_ids r
     else sorted_strings (rc_contract_ids r)).

Definition sorted_forbidden (f : ForbiddenAtomCombination) : ForbiddenAtomCombination :=
  set_forbidden_atoms f (sorted_strings (fb_atom_ids f)).

Definition sorted_problem (p : ArbitrageProblem) : ArbitrageProblem := {|
  pb_schema_version := pb_schema_version p;
  pb_problem_id := pb_problem_id p;
  pb_as_of := pb_as_of p;
  pb_valuation_unit_id := pb_valuation_unit_id p;
  pb_actions := sort_on ca_action_id (pb_actions p);
  pb_terminal_state_sets :=
    sort_on ts_market_contract_id (sorted_state_set <$> pb_terminal_state_sets p);
  pb_constraint_model := {|
    cm_relations :=
      sort_on rc_constraint_id (sorted_relation <$> cm_relations (pb_constraint_model p));
    cm_forbidden_atom_combinations :=
      sort_on fb_constraint_id
        (sorted_forbidden <$> cm_forbidden_atom_combinations (pb_constraint_model p)) |};
  pb_qualification_constraints := sort_on qc_constraint_id (pb_qualification_constraints p) |}.

(** ** Direction-aware action identities *)

(** [_DIRECTIONAL_PAYOUTS] *)
Definition directional_payouts (k : TerminalKind) : option (Z * Z) :=
  match k with
  | NORMAL_YES => Some (1, 0)
  | NORMAL_NO => Some (0, 1)
  | VOID => Some (0, 0)
  | REFUND | SPLIT => None
  end.

(** [groups.setdefault(key, []).append(x)] *)
Fixpoint group_append {A} (k : string) (x : A) (groups : list (string * list A))
  : list (string * list A) :=
  match groups with
  | [] => [(k, [x])]
  | (k', xs) :: groups =>
      if (k =? k')%string then (k', xs ++ [x]) :: groups
      else (k', xs) :: group_append k x groups
  end.

Definition group_by {A} (key : A → string) (l : list A) : list (string * list A) :=
  foldl (λ groups x, group_append (key x) x groups) [] l.

Definition action_prefix (a : CandidateAction) (contract_id : string) : string :=
  ca_venue_id a +:+ ":" +:+ contract_id.

Definition directional_id (a : CandidateAction) (contract_id : string) (side : ActionSide) : string :=
  action_prefix a contract_id +:+ ":" +:+ side_value side.

(** The side an action id names, if it is a canonical directional id. *)
Definition suffix_side (a : CandidateAction) (contract_id : string) : option ActionSide :=
  if (ca_action_id a =? directional_id a contract_id BUY_YES)%string then Some BUY_YES
  else if (ca_action_id a =? directional_id a contract_id BUY_NO)%string then Some BUY_NO
  else None.

(** The pair of canonical actions of one contract, [pair] of the source:
    the BUY_YES entry and the BUY_NO entry, each filled at most once. *)
Record SidePair := { pair_yes : option CandidateAction; pair_no : option CandidateAction }.

Definition pair_get (p : SidePair) (s : ActionSide) : option CandidateAction :=
  match s with BUY_YES => pair_yes p | BUY_NO => pair_no p end.

Definition pair_put (p : SidePair) (s : ActionSide) (a : CandidateAction) : SidePair :=
  match s with
  | BUY_YES => {| pair_yes := Some a; pair_no := pair_no p |}
  | BUY_NO => {| pair_yes := pair_yes p; pair_no := Some a |}
  end.

Definition pair_error (contract_id : string) (group : list CandidateAction) : exn :=
  ValueError ("contract '" +:+ contract_id +:+ "' has " +:+ str_nat (length group) +:+
    " actions without a canonical BUY_YES/BUY_NO direction pair: [" +:+
    join ", " ((λ s, "'" +:+ s +:+ "'") <$> sorted_strings (ca_action_id <$> group)) +:+ "]").

Definition add_to_pair (contract_id : string) (group : list CandidateAction)
    (sp : SidePair) (a : CandidateAction) : res SidePair :=
  match suffix_side a contract_id with
  | None => Err (pair_error contract_id group)
  | Some side =>
      if decide (ca_side a = side) then
        match pair_get sp side with
        | Some _ => Err (pair_error contract_id group)
        | None => Ok (pair_put sp side a)
        end
      else Err (pair_error contract_id group)
  end.

(** One contract's group: its canonical pair, or the untouched action. *)
Definition canonical_group (contract_id : string) (group : list CandidateAction)
  : res (SidePair + CandidateAction) :=
  match group with
  | [a] =>
      let prefix := action_prefix a contract_id in
      if (ca_action_id a =? prefix)%string
         || (ca_action_id a =? directional_id a contract_id (ca_side a))%string
      then Ok (inl {|
        pair_yes := Some (set_action_identity a (directional_id a contract_id BUY_YES) BUY_YES);
        pair_no := Some (set_action_identity a (directional_id a contract_id BUY_NO) BUY_NO) |})
      else if String.prefix (prefix +:+ ":") (ca_action_id a)
      then Err (ValueError ("action '" +:+ ca_action_id a +:+ "' on contract '" +:+ contract_id +:+
        "' uses a direction-suffixed id whose side does not match " +:+ side_value (ca_side a)))
      else Ok (inr a)
  | _ =>
      sp ← foldM (add_to_pair contract_id group) {| pair_yes := None; pair_no := None |} group;
      Ok (inl sp)
  end.

(** The loop over the groups: the [canonical] dict and [passthrough]. *)
Definition canonical_groups (groups : list (string * list CandidateAction))
  : res (list (string * SidePair) * list CandidateAction) :=
  foldM (λ acc g,
      out ← canonical_group g.1 g.2;
      match out with
      | inl sp => Ok (acc.1 ++ [(g.1, sp)], acc.2)
      | inr a => Ok (acc.1, acc.2 ++ [a])
      end) ([], []) groups.

(** [pair[ActionSide.BUY_YES], pair[ActionSide.BUY_NO]] *)
Definition pair_actions (sp : SidePair) : res (list CandidateAction) :=
  yes ← of_option (KeyError "BUY_YES") (pair_yes sp);
  no ← of_option (KeyError "BUY_NO") (pair_no sp);
  Ok [yes; no].

Definition directional_atom (contract_id : string) (sp : SidePair) (atom : TerminalAtom)
  : res TerminalAtom :=
  match directional_payouts (ta_kind atom) with
  | None => Err (ValueError ("terminal atom '" +:+ ta_atom_id atom +:+ "' on contract '" +:+
      contract_id +:+ "' has non-settlement kind " +:+ terminal_kind_value (ta_kind atom)))
  | Some (yes_units, no_units) =>
      yes ← of_option (KeyError "BUY_YES") (pair_yes sp);
      no ← of_option (KeyError "BUY_NO") (pair_no sp);
      Ok (set_atom_payouts atom
        [ {| ap_action_id := ca_action_id yes; payout_lower_bound_per_lot_units := yes_units |};
          {| ap_action_id := ca_action_id no; payout_lower_bound_per_lot_units := no_units |} ])
  end.

Definition directional_state_set (canonical : gmap string SidePair) (state : TerminalStateSet)
  : res TerminalStateSet :=
  match canonical !! ts_market_contract_id state with
  | None => Ok state
  | Some sp =>
      atoms ← mapM (directional_atom (ts_market_contract_id state) sp) (ts_atoms state);
      Ok (set_state_atoms state atoms)
  end.

Definition canonicalize_directional_actions (problem : ArbitrageProblem) : res ArbitrageProblem :=
  if negb (existsb (λ r, bool_decide (rc_kind r = IMPLIES)) (cm_relations (pb_constraint_model problem)))
  then Ok problem
  else
    '(canonical, passthrough) ← canonical_groups (group_by ca_market_contract_id (pb_actions problem));
    pairs ← mapM (λ e, pair_actions e.2) canonical;
    states ← mapM (directional_state_set (py_dict canonical)) (pb_terminal_state_sets problem);
    Ok {| pb_schema_version := pb_schema_version problem;
          pb_problem_id := pb_problem_id problem;
          pb_as_of := pb_as_of problem;
          pb_valuation_unit_id := pb_valuation_unit_id problem;
          pb_actions := sort_on ca_action_id (mjoin pairs ++ passthrough);
          pb_terminal_state_sets := states;
          pb_constraint_model := pb_constraint_model problem;
          pb_qualification_constraints := pb_qualification_constraints problem |}.

(** ** Canonical payloads

    [_canonical_value] of each dataclass: enums by value, datetimes in
    RFC 3339, and the tuples named by [_sort_values] sorted by their stable
    id.  [canonical_json] sorts the keys, so the field order is free. *)

Definition json_datetime (d : datetime) : json := JStr (isoformat_utc d).
Definition json_strings (l : list string) : json := JArr (JStr <$> l).

Definition observation_key_json (k : SettlementObservationKey) : json := JObj
  [ ("schema_version", JStr (ok_schema_version k)); ("oracle_id", JStr (ok_oracle_id k));
    ("indicator_id", JStr (ok_indicator_id k));
    ("observation_start", json_datetime (ok_observation_start k));
    ("observation_end", json_datetime (ok_observation_end k));
    ("timezone", JStr (ok_timezone k)); ("rule_version", JStr (ok_rule_version k)) ].

Definition cost_slice_json (c : ExecutableCostSlice) : json := JObj
  [ ("first_lot", JInt (first_lot c)); ("last_lot", JInt (last_lot c));
    ("incremental_cost_upper_bound_units", JInt (incremental_cost_upper_bound_units c)) ].

Definition action_json (a : CandidateAction) : json := JObj
  [ ("action_id", JStr (ca_action_id a)); ("venue_id", JStr (ca_venue_id a));
    ("account_id", JStr (ca_account_id a)); ("chain_id", JStr (ca_chain_id a));
    ("market_contract_id", JStr (ca_market_contract_id a));
    ("settlement_observation_key", observation_key_json (ca_settlement_observation_key a));
    ("side", JStr (side_value (ca_side a)));
    ("lot_step_units", JInt (ca_lot_step_units a)); ("quantity_scale", JInt (ca_quantity_scale a));
    ("min_quantity_lots", JInt (ca_min_quantity_lots a));
    ("max_quantity_lots", JInt (ca_max_quantity_lots a));
    ("settlement_asset_id", JStr (ca_settlement_asset_id a));
    ("valuation_unit_id", JStr (ca_valuation_unit_id a));
    ("asset_valuation_rule_id", JStr (ca_asset_valuation_rule_id a));
    ("cost_slices", JArr (cost_slice_json <$> ca_cost_slices a)) ].

Definition payout_json (p : ActionPayout) : json := JObj
  [ ("action_id", JStr (ap_action_id p));
    ("payout_lower_bound_per_lot_units", JInt (payout_lower_bound_per_lot_units p)) ].

Definition atom_json (t : TerminalAtom) : json := JObj
  [ ("atom_id", JStr (ta_atom_id t)); ("kind", JStr (terminal_kind_value (ta_kind t)));
    ("rule_version", jopt JStr (ta_rule_version t));
    ("payouts", JArr (payout_json <$> sort_on ap_action_id (ta_payouts t)));
    ("capital_release_at", jopt json_datetime (ta_capital_release_at t)) ].

Definition state_set_json (s : TerminalStateSet) : json := JObj
  [ ("market_contract_id", JStr (ts_market_contract_id s));
    ("settlement_observation_key", observation_key_json (ts_settlement_observation_key s));
    ("rule_version", JStr (ts_rule_version s));
    ("atoms", JArr (atom_json <$> sort_on ta_atom_id (ts_atoms s))) ].

Definition relation_json (r : RelationConstraint) : json := JObj
  [ ("constraint_id", JStr (rc_constraint_id r)); ("kind", JStr (relation_kind_value (rc_kind r)));
    ("contract_ids", json_strings
       (if decide (rc_kind r = IMPLIES) then rc_contract_ids r
        else sorted_strings (rc_contract_ids r)));
    ("rule_version", JStr (rc_rule_version r)) ].

Definition forbidden_json (f : ForbiddenAtomCombination) : json := JObj
  [ ("constraint_id", JStr (fb_constraint_id f));
    ("atom_ids", json_strings (sorted_strings (fb_atom_ids f)));
    ("rule_version", JStr (fb_rule_version f)) ].

Definition qualification_json (q : QualificationConstraint) : json := JObj
  [ ("constraint_id", JStr (qc_constraint_id q)); ("rule_version", JStr (qc_rule_version q));
    ("metric", JStr (metric_value (qc_metric q)));
    ("comparison", JStr (comparison_value (qc_comparison q)));
    ("threshold_numerator", JInt (qc_threshold_numerator q));
    ("threshold_denominator", JInt (qc_threshold_denominator q)) ].

Definition constraint_model_json (m : ConstraintModel) : json := JObj
  [ ("relations", JArr (relation_json <$> sort_on rc_constraint_id (cm_relations m)));
    ("forbidden_atom_combinations",
       JArr (forbidden_json <$> sort_on fb_constraint_id (cm_forbidden_atom_combinations m))) ].

Definition problem_json (p : ArbitrageProblem) : json := JObj
  [ ("schema_version", JStr (pb_schema_version p)); ("problem_id", JStr (pb_problem_id p));
    ("as_of", json_datetime (pb_as_of p)); ("valuation_unit_id", JStr (pb_valuation_unit_id p));
    ("actions", JArr (action_json <$> sort_on ca_action_id (pb_actions p)));
    ("terminal_state_sets",
       JArr (state_set_json <$> sort_on ts_market_contract_id (pb_terminal_state_sets p)));
    ("constraint_model", constraint_model_json (pb_constraint_model p));
    ("qualification_constraints",
       JArr (qualification_json <$> sort_on qc_constraint_id (pb_qualification_constraints p))) ].

Definition selected_atom_json (a : SelectedAtom) : json := JObj
  [ ("market_contract_id", JStr (sa_market_contract_id a)); ("atom_id", JStr (sa_atom_id a)) ].

Definition scenario_json (s : SettlementScenario) : json := JObj
  [ ("atoms", JArr (selected_atom_json <$> sort_on sa_market_contract_id (sc_atoms s))) ].

Definition quantity_json (q : ActionQuantity) : json := JObj
  [ ("action_id", JStr (aq_action_id q)); ("quantity_lots", JInt (aq_quantity_lots q)) ].

Definition budget_json (b : OracleBudget) : json := JObj
  [ ("max_quantity_vectors", JInt (bg_max_quantity_vectors b));
    ("max_joint_states", JInt (bg_max_joint_states b));
    ("max_support_rechecks", JInt (bg_max_support_rechecks b)) ].

Definition request_json (r : OracleRequest) : json := JObj
  [ ("schema_version", JStr (rq_schema_version r)); ("mode", JStr (mode_value (rq_mode r)));
    ("problem", problem_json (rq_problem r)); ("budget", budget_json (rq_budget r)) ].

(** The datetimes of a canonical payload. *)
Definition key_datetimes (k : SettlementObservationKey) : list datetime :=
  [ok_observation_start k; ok_observation_end k].

Definition problem_datetimes (p : ArbitrageProblem) : list datetime :=
  pb_as_of p ::
  (pb_actions p ≫= λ a, key_datetimes (ca_settlement_observation_key a)) ++
  (pb_terminal_state_sets p ≫= λ s,
     key_datetimes (ts_settlement_observation_key s) ++ omap ta_capital_release_at (ts_atoms s)).

Section fingerprints.
Context `{Sha256}.

(** [_canonical_datetime] rejects a datetime that is not UTC-aware. *)
Definition not_canonical : exn := ValueError "canonical datetimes must be UTC-aware".

Definition fingerprint_observation_key (k : SettlementObservationKey) : res string :=
  require (forallb is_utc (key_datetimes k)) not_canonical;;
  Ok (fingerprint_json (observation_key_json k)).
Definition fingerprint_scenario (s : SettlementScenario) : string :=
  fingerprint_json (scenario_json s).
Definition fingerprint_problem (p : ArbitrageProblem) : res string :=
  require (forallb is_utc (problem_datetimes p)) not_canonical;;
  Ok (fingerprint_json (problem_json p)).
Definition fingerprint_request (r : OracleRequest) : res string :=
  require (forallb is_utc (problem_datetimes (rq_problem r))) not_canonical;;
  Ok (fingerprint_json (request_json r)).
Definition fingerprint_quantities (qs : list ActionQuantity) : string :=
  fingerprint_json (JObj [("quantities", JArr (quantity_json <$> qs))]).

(** [_qualification_fingerprint] *)
Definition qualification_fingerprint (p : ArbitrageProblem) : string :=
  fingerprint_json (JObj
    [ ("schema_version", JStr PROBLEM_SCHEMA_V1);
      ("qualification_constraints",
         JArr (qualification_json <$> sort_on qc_constraint_id (pb_qualification_constraints p))) ]).
End fingerprints.
