(* ===== verification/NLegValidate.v ===== *)
(** * Validation of an N-leg problem

    [validate_problem] of [src/open_trader/prediction_n_leg.py], issue by issue
    and in the source's order, and its declarative meaning [wf_problem]:
    validation returns no issue exactly for well-formed problems. *)

From S2P Require Import Prelude PyValue NLeg.
Local Open Scope Z_scope.

(** ** Issue helpers *)

Definition when (b : bool) (i : ModelIssue) : list ModelIssue := if b then [i] else [].

Definition validate_int (value : Z) (path : string) : list ModelIssue :=
  when (negb (in_int64 value)) (Issue "INTEGER_OUT_OF_RANGE" path "must fit signed 64-bit range").

Definition validate_product (left right : Z) (path : string) : list ModelIssue :=
  when (negb (in_int64 (left * right)))
    (Issue "DERIVED_INTEGER_OUT_OF_RANGE" path "derived product must fit signed 64-bit range").

Definition validate_datetime (d : datetime) (path : string) : list ModelIssue :=
  match dt_offset d with
  | None => [Issue "NAIVE_DATETIME" path "must be UTC-aware"]
  | Some o => when (negb (o =? 0)) (Issue "NON_UTC_DATETIME" path "must be UTC")
  end.

(** [_identifier]: the issue, and the identifier when it is usable. *)
Definition identifier_issues (value path : string) : list ModelIssue :=
  when (is_blank value) (Issue "INVALID_IDENTIFIER" path "must be a non-empty string").

Definition identifier (value : string) : option string :=
  if is_blank value then None else Some value.

Definition validate_observation_key (k : SettlementObservationKey) (path : string) : list ModelIssue :=
  identifier_issues (ok_schema_version k) (path +:+ ".schema_version") ++
  identifier_issues (ok_oracle_id k) (path +:+ ".oracle_id") ++
  identifier_issues (ok_indicator_id k) (path +:+ ".indicator_id") ++
  identifier_issues (ok_timezone k) (path +:+ ".timezone") ++
  identifier_issues (ok_rule_version k) (path +:+ ".rule_version") ++
  when (negb (ok_schema_version k =? OBSERVATION_SCHEMA_V1)%string)
    (Issue "INVALID_SCHEMA_VERSION" (path +:+ ".schema_version")
      ("must equal " +:+ OBSERVATION_SCHEMA_V1)).

(** A loop over nodes whose usable ids must be new: [body] receives the index
    and whether the node's id repeats an earlier one. *)
Fixpoint loop_seen {A} (key : A → string) (body : nat → bool → A → list ModelIssue)
    (idx : nat) (seen : list string) (l : list A) : list ModelIssue :=
  match l with
  | [] => []
  | x :: l =>
      body idx (negb (is_blank (key x)) && bool_decide (key x ∈ seen)) x ++
      loop_seen key body (S idx) (if is_blank (key x) then seen else key x :: seen) l
  end.

Definition usable_ids (ids : list string) : list string :=
  filter (λ s, is_blank s = false) ids.

(** [actions_by_contract.get(contract_id, ())] after the action loop. *)
Definition actions_on (p : ArbitrageProblem) (contract_id : string) : list CandidateAction :=
  filter (λ a, is_blank (ca_action_id a) = false ∧ is_blank (ca_market_contract_id a) = false
               ∧ ca_market_contract_id a = contract_id) (pb_actions p).

(** ** Actions *)

Fixpoint cost_slice_issues (prefix : string) (idx : nat) (previous_last : Z)
    (slices : list ExecutableCostSlice) : list ModelIssue :=
  match slices with
  | [] => []
  | c :: slices =>
      let path := prefix +:+ ".cost_slices[" +:+ str_nat idx +:+ "]" in
      validate_int (first_lot c) (path +:+ ".first_lot") ++
      validate_int (last_lot c) (path +:+ ".last_lot") ++
      validate_int (incremental_cost_upper_bound_units c)
        (path +:+ ".incremental_cost_upper_bound_units") ++
      when (negb (first_lot c =? previous_last + 1) || (last_lot c <? first_lot c))
        (Issue "NON_CONTIGUOUS_COST_SLICES" path "cost slices must start at one and be contiguous") ++
      validate_product (last_lot c) (incremental_cost_upper_bound_units c) (path +:+ ".total_cost") ++
      cost_slice_issues prefix (S idx) (last_lot c) slices
  end.

Definition observation_window_issues (k : SettlementObservationKey) (path : string) : list ModelIssue :=
  let start_issues := validate_datetime (ok_observation_start k) (path +:+ ".observation_start") in
  let end_issues := validate_datetime (ok_observation_end k) (path +:+ ".observation_end") in
  start_issues ++ end_issues ++
  when (is_utc (ok_observation_start k) && is_utc (ok_observation_end k)
        && datetime_ltb (ok_observation_end k) (ok_observation_start k))
    (Issue "INVALID_OBSERVATION_WINDOW" path "observation_start must not be after observation_end").

Definition action_issues (p : ArbitrageProblem) (idx : nat) (dup : bool) (a : CandidateAction)
  : list ModelIssue :=
  let prefix := "actions[" +:+ str_nat idx +:+ "]" in
  identifier_issues (ca_action_id a) (prefix +:+ ".action_id") ++
  identifier_issues (ca_venue_id a) (prefix +:+ ".venue_id") ++
  identifier_issues (ca_account_id a) (prefix +:+ ".account_id") ++
  identifier_issues (ca_chain_id a) (prefix +:+ ".chain_id") ++
  identifier_issues (ca_market_contract_id a) (prefix +:+ ".market_contract_id") ++
  when dup (Issue "DUPLICATE_ID" (prefix +:+ ".action_id") "action_id must be unique") ++
  identifier_issues (ca_settlement_asset_id a) (prefix +:+ ".settlement_asset_id") ++
  identifier_issues (ca_valuation_unit_id a) (prefix +:+ ".valuation_unit_id") ++
  when (bool_decide (identifier (ca_valuation_unit_id a) ≠ identifier (pb_valuation_unit_id p)))
    (Issue "VALUATION_UNIT_MISMATCH" (prefix +:+ ".valuation_unit_id")
      "must equal problem valuation_unit_id") ++
  identifier_issues (ca_asset_valuation_rule_id a) (prefix +:+ ".asset_valuation_rule_id") ++
  validate_int (ca_lot_step_units a) (prefix +:+ ".lot_step_units") ++
  validate_int (ca_quantity_scale a) (prefix +:+ ".quantity_scale") ++
  validate_int (ca_min_quantity_lots a) (prefix +:+ ".min_quantity_lots") ++
  validate_int (ca_max_quantity_lots a) (prefix +:+ ".max_quantity_lots") ++
  when (ca_lot_step_units a <=? 0)
    (Issue "NON_POSITIVE_LOT_STEP" (prefix +:+ ".lot_step_units") "must be positive") ++
  when (ca_quantity_scale a <=? 0)
    (Issue "NON_POSITIVE_QUANTITY_SCALE" (prefix +:+ ".quantity_scale") "must be positive") ++
  validate_product (ca_lot_step_units a) (ca_quantity_scale a)
    (prefix +:+ ".lot_step_units*quantity_scale") ++
  when (negb (ca_settlement_asset_id a =? pb_valuation_unit_id p)%string
        && is_blank (ca_asset_valuation_rule_id a))
    (Issue "MISSING_ASSET_VALUATION_RULE" (prefix +:+ ".asset_valuation_rule_id")
      "non-native settlement assets require a versioned valuation rule") ++
  validate_observation_key (ca_settlement_observation_key a)
    (prefix +:+ ".settlement_observation_key") ++
  observation_window_issues (ca_settlement_observation_key a)
    (prefix +:+ ".settlement_observation_key") ++
  when (bool_decide (ca_cost_slices a = []))
    (Issue "MISSING_COST_SLICES" (prefix +:+ ".cost_slices")
      "must contain at least one executable cost slice") ++
  when (negb ((0 <? ca_min_quantity_lots a) && (ca_min_quantity_lots a <=? ca_max_quantity_lots a)))
    (Issue "INVALID_QUANTITY_BOUNDS" (prefix +:+ ".min_quantity_lots")
      "must satisfy 0 < min_quantity_lots <= max_quantity_lots") ++
  match last (ca_cost_slices a) with
  | Some c => when (last_lot c <? ca_max_quantity_lots a)
      (Issue "QUANTITY_BOUNDS_EXCEED_COST_SLICES" (prefix +:+ ".max_quantity_lots")
        "must not exceed the final executable cost slice")
  | None => []
  end ++
  cost_slice_issues prefix 0 0 (ca_cost_slices a).

(** ** Terminal state sets *)

Fixpoint payout_issues (p : ArbitrageProblem) (required : list string) (atom_path : string)
    (idx : nat) (payouts : list ActionPayout) : list ModelIssue :=
  match payouts with
  | [] => []
  | y :: payouts =>
      let path := atom_path +:+ ".payouts[" +:+ str_nat idx +:+ "]" in
      validate_int (payout_lower_bound_per_lot_units y)
        (path +:+ ".payout_lower_bound_per_lot_units") ++
      identifier_issues (ap_action_id y) (path +:+ ".action_id") ++
      (if is_blank (ap_action_id y) then []
       else if negb (bool_decide (ap_action_id y ∈ usable_ids (ca_action_id <$> pb_actions p)))
       then [Issue "UNKNOWN_ACTION_REFERENCE" (path +:+ ".action_id") "must reference an action"]
       else when (negb (bool_decide (ap_action_id y ∈ required)))
         (Issue "UNKNOWN_ACTION_REFERENCE" (path +:+ ".action_id")
           "must reference an action on this contract")) ++
      payout_issues p required atom_path (S idx) payouts
  end.

Definition atom_rule_issues (s : TerminalStateSet) (t : TerminalAtom) (path : string) : list ModelIssue :=
  match ta_rule_version t with
  | None => [Issue "MISSING_TERMINAL_RULE_IDENTITY" (path +:+ ".rule_version")
               "must identify the terminal rule"]
  | Some v =>
      if is_blank v
      then [Issue "MISSING_TERMINAL_RULE_IDENTITY" (path +:+ ".rule_version")
              "must identify the terminal rule"]
      else when (negb (v =? ts_rule_version s)%string)
        (Issue "TERMINAL_RULE_VERSION_MISMATCH" (path +:+ ".rule_version")
          "must equal terminal state-set rule_version")
  end.

Definition atom_release_issues (p : ArbitrageProblem) (t : TerminalAtom) (path : string) : list ModelIssue :=
  match ta_capital_release_at t with
  | None => [Issue "MISSING_CAPITAL_RELEASE_AT" (path +:+ ".capital_release_at")
               "must identify capital release time"]
  | Some d =>
      validate_datetime d (path +:+ ".capital_release_at") ++
      when (is_utc (pb_as_of p) && is_utc d && datetime_ltb d (pb_as_of p))
        (Issue "STALE_CAPITAL_RELEASE_AT" (path +:+ ".capital_release_at")
          "must be after problem as_of")
  end.

Definition atom_issues (p : ArbitrageProblem) (s : TerminalStateSet) (prefix : string)
    (required : list string) (idx : nat) (dup : bool) (t : TerminalAtom) : list ModelIssue :=
  let path := prefix +:+ ".atoms[" +:+ str_nat idx +:+ "]" in
  let payout_ids := usable_ids (ap_action_id <$> ta_payouts t) in
  identifier_issues (ta_atom_id t) (path +:+ ".atom_id") ++
  when dup (Issue "DUPLICATE_ID" (path +:+ ".atom_id") "atom_id must be globally unique") ++
  atom_rule_issues s t path ++
  atom_release_issues p t path ++
  (ta_payouts t ≫= λ y, identifier_issues (ap_action_id y) (path +:+ ".payouts.action_id")) ++
  when (negb (bool_decide (Forall (.∈ payout_ids) required)))
    (Issue "MISSING_ACTION_PAYOUT" (path +:+ ".payouts") "must include every action for this contract") ++
  when (negb (length (remove_dups payout_ids) =? length (ta_payouts t))%nat)
    (Issue "DUPLICATE_ID" (path +:+ ".payouts") "action payouts must be unique") ++
  payout_issues p required path 0 (ta_payouts t).

Definition state_issues (p : ArbitrageProblem) (idx : nat) (dup : bool) (seen_atoms : list string)
    (s : TerminalStateSet) : list ModelIssue :=
  let prefix := "terminal_state_sets[" +:+ str_nat idx +:+ "]" in
  let state_actions := if is_blank (ts_market_contract_id s) then []
                       else actions_on p (ts_market_contract_id s) in
  identifier_issues (ts_market_contract_id s) (prefix +:+ ".market_contract_id") ++
  when dup (Issue "DUPLICATE_ID" (prefix +:+ ".market_contract_id") "market_contract_id must be unique") ++
  when (negb (is_blank (ts_market_contract_id s)) && bool_decide (state_actions = []))
    (Issue "UNKNOWN_CONTRACT_REFERENCE" (prefix +:+ ".market_contract_id")
      "must reference an action contract") ++
  validate_observation_key (ts_settlement_observation_key s) (prefix +:+ ".settlement_observation_key") ++
  identifier_issues (ts_rule_version s) (prefix +:+ ".rule_version") ++
  when (bool_decide (ts_atoms s = []))
    (Issue "MISSING_TERMINAL_ATOMS" (prefix +:+ ".atoms") "must contain at least one terminal atom") ++
  (state_actions ≫= λ a,
     when (negb (observation_key_eqb (ca_settlement_observation_key a) (ts_settlement_observation_key s)))
       (Issue "OBSERVATION_KEY_MISMATCH" (prefix +:+ ".settlement_observation_key")
         "must match each action for this contract")) ++
  loop_seen ta_atom_id (atom_issues p s prefix (ca_action_id <$> state_actions)) 0 seen_atoms (ts_atoms s).

Fixpoint state_loop (p : ArbitrageProblem) (idx : nat) (seen_contracts seen_atoms : list string)
    (l : list TerminalStateSet) : list ModelIssue :=
  match l with
  | [] => []
  | s :: l =>
      let c := ts_market_contract_id s in
      state_issues p idx (negb (is_blank c) && bool_decide (c ∈ seen_contracts)) seen_atoms s ++
      state_loop p (S idx) (if is_blank c then seen_contracts else c :: seen_contracts)
        (usable_ids (ta_atom_id <$> ts_atoms s) ++ seen_atoms) l
  end.

(** Contract ids of the usable actions, in first-seen order. *)
Fixpoint dedup (seen : list string) (l : list string) : list string :=
  match l with
  | [] => []
  | x :: l => if decide (x ∈ seen) then dedup seen l else x :: dedup (x :: seen) l
  end.

Definition action_contracts (p : ArbitrageProblem) : list string :=
  dedup [] (ca_market_contract_id <$>
    filter (λ a, is_blank (ca_action_id a) = false ∧ is_blank (ca_market_contract_id a) = false)
      (pb_actions p)).

Definition state_contracts (p : ArbitrageProblem) : list string :=
  usable_ids (ts_market_contract_id <$> pb_terminal_state_sets p).

Definition missing_state_issues (p : ArbitrageProblem) : list ModelIssue :=
  action_contracts p ≫= λ c,
    when (negb (bool_decide (c ∈ state_contracts p)))
      (Issue "MISSING_TERMINAL_STATE_SET" "terminal_state_sets" ("missing terminal states for " +:+ c)).

(** ** Relations, forbidden combinations, qualification constraints *)

Definition native_kinds (s : TerminalStateSet) : bool :=
  let kinds := ta_kind <$> ts_atoms s in
  (length kinds =? 3)%nat && bool_decide (NORMAL_YES ∈ kinds)
  && bool_decide (NORMAL_NO ∈ kinds) && bool_decide (SPLIT ∈ kinds).

Definition state_on (p : ArbitrageProblem) (contract_id : string) : option TerminalStateSet :=
  py_next (λ s, (ts_market_contract_id s =? contract_id)%string) (pb_terminal_state_sets p).

Definition native_complement_issues (p : ArbitrageProblem) (path c1 c2 : string) : list ModelIssue :=
  let at_ids := path +:+ ".contract_ids" in
  when (c1 =? c2)%string
    (Issue "NATIVE_COMPLEMENT_CONTRACTS_NOT_DISTINCT" at_ids
      "NATIVE_COMPLEMENT requires two distinct contracts") ++
  match actions_on p c1, actions_on p c2 with
  | [l], [r] =>
      when (bool_decide (ca_side l = ca_side r))
        (Issue "NATIVE_COMPLEMENT_ACTION_SIDES" at_ids
          "NATIVE_COMPLEMENT requires one BUY_YES and one BUY_NO action")
  | _, _ => [Issue "NATIVE_COMPLEMENT_ACTION_ARITY" at_ids
               "NATIVE_COMPLEMENT requires one action per contract"]
  end ++
  match state_on p c1, state_on p c2 with
  | Some ls, Some rs =>
      when (negb (observation_key_eqb (ts_settlement_observation_key ls) (ts_settlement_observation_key rs)))
        (Issue "NATIVE_COMPLEMENT_OBSERVATION_MISMATCH" at_ids
          "NATIVE_COMPLEMENT contracts must share settlement observation identity") ++
      when (negb (native_kinds ls && native_kinds rs))
        (Issue "NATIVE_COMPLEMENT_TERMINAL_KINDS" at_ids
          "NATIVE_COMPLEMENT requires NORMAL_YES, NORMAL_NO, and SPLIT atoms per contract")
  | _, _ => []
  end.

Fixpoint reference_issues (known : list string) (code message path : string) (field : string)
    (idx : nat) (ids : list string) : list ModelIssue :=
  match ids with
  | [] => []
  | c :: ids =>
      identifier_issues c (path +:+ field +:+ "[" +:+ str_nat idx +:+ "]") ++
      when (negb (is_blank c) && negb (bool_decide (c ∈ known))) (Issue code (path +:+ field) message) ++
      reference_issues known code message path field (S idx) ids
  end.

Definition relation_arity_issues (r : RelationConstraint) (path : string) : list ModelIssue :=
  let n := length (rc_contract_ids r) in
  match rc_kind r with
  | IMPLIES => when (negb (n =? 2)%nat)
      (Issue "INVALID_RELATION_ARITY" (path +:+ ".contract_ids")
        "IMPLIES requires ordered antecedent and consequent")
  | NATIVE_COMPLEMENT => when (negb (n =? 2)%nat)
      (Issue "INVALID_RELATION_ARITY" (path +:+ ".contract_ids")
        "NATIVE_COMPLEMENT requires exactly two contracts")
  | MUTUALLY_EXCLUSIVE | EXACTLY_ONE => when (n <? 2)%nat
      (Issue "INVALID_RELATION_ARITY" (path +:+ ".contract_ids")
        "relation requires at least two contracts")
  end.

Definition relation_issues (p : ArbitrageProblem) (idx : nat) (dup : bool) (r : RelationConstraint)
  : list ModelIssue :=
  let path := "constraint_model.relations[" +:+ str_nat idx +:+ "]" in
  identifier_issues (rc_constraint_id r) (path +:+ ".constraint_id") ++
  when dup (Issue "DUPLICATE_ID" (path +:+ ".constraint_id") "constraint_id must be unique") ++
  identifier_issues (rc_rule_version r) (path +:+ ".rule_version") ++
  relation_arity_issues r path ++
  reference_issues (state_contracts p) "UNKNOWN_CONTRACT_REFERENCE" "must reference a terminal contract"
    path ".contract_ids" 0 (rc_contract_ids r) ++
  match rc_kind r, rc_contract_ids r with
  | NATIVE_COMPLEMENT, [c1; c2] => native_complement_issues p path c1 c2
  | _, _ => []
  end.

Definition state_atom_ids (p : ArbitrageProblem) : list string :=
  usable_ids (pb_terminal_state_sets p ≫= λ s, ta_atom_id <$> ts_atoms s).

Definition forbidden_issues (p : ArbitrageProblem) (idx : nat) (dup : bool) (f : ForbiddenAtomCombination)
  : list ModelIssue :=
  let path := "constraint_model.forbidden_atom_combinations[" +:+ str_nat idx +:+ "]" in
  identifier_issues (fb_constraint_id f) (path +:+ ".constraint_id") ++
  when dup (Issue "DUPLICATE_ID" (path +:+ ".constraint_id") "constraint_id must be unique") ++
  identifier_issues (fb_rule_version f) (path +:+ ".rule_version") ++
  reference_issues (state_atom_ids p) "UNKNOWN_ATOM_REFERENCE" "must reference a terminal atom"
    path ".atom_ids" 0 (fb_atom_ids f).

Definition qualification_issues (idx : nat) (dup : bool) (q : QualificationConstraint) : list ModelIssue :=
  let path := "qualification_constraints[" +:+ str_nat idx +:+ "]" in
  identifier_issues (qc_constraint_id q) (path +:+ ".constraint_id") ++
  when dup (Issue "DUPLICATE_ID" (path +:+ ".constraint_id") "qualification constraint_id must be unique") ++
  identifier_issues (qc_rule_version q) (path +:+ ".rule_version") ++
  validate_int (qc_threshold_numerator q) (path +:+ ".threshold_numerator") ++
  validate_int (qc_threshold_denominator q) (path +:+ ".threshold_denominator") ++
  when (in_int64 (qc_threshold_denominator q) && (qc_threshold_denominator q <=? 0))
    (Issue "NON_POSITIVE_DENOMINATOR" (path +:+ ".threshold_denominator") "must be positive").

Definition validate_problem (p : ArbitrageProblem) : list ModelIssue :=
  let relations := cm_relations (pb_constraint_model p) in
  validate_datetime (pb_as_of p) "as_of" ++
  identifier_issues (pb_schema_version p) "schema_version" ++
  when (negb (pb_schema_version p =? PROBLEM_SCHEMA_V1)%string)
    (Issue "INVALID_SCHEMA_VERSION" "schema_version" ("must equal " +:+ PROBLEM_SCHEMA_V1)) ++
  identifier_issues (pb_problem_id p) "problem_id" ++
  identifier_issues (pb_valuation_unit_id p) "valuation_unit_id" ++
  loop_seen ca_action_id (action_issues p) 0 [] (pb_actions p) ++
  state_loop p 0 [] [] (pb_terminal_state_sets p) ++
  missing_state_issues p ++
  loop_seen rc_constraint_id (relation_issues p) 0 [] relations ++
  loop_seen fb_constraint_id (forbidden_issues p) 0 (usable_ids (rc_constraint_id <$> relations))
    (cm_forbidden_atom_combinations (pb_constraint_model p)) ++
  loop_seen qc_constraint_id qualification_issues 0 [] (pb_qualification_constraints p).

Definition issue_codes (issues : list ModelIssue) : string := join "; " (mi_code <$> issues).

(** [_require_valid] of prediction_n_leg_oracle.py *)
Definition require_valid (p : ArbitrageProblem) : res unit :=
  match validate_problem p with
  | [] => Ok tt
  | issues => Err (ValueError ("invalid problem: " +:+ issue_codes issues))
  end.
