(* ===== verification/NLegWf.v ===== *)
(** * Well-formed N-leg problems

    What [validate_problem] accepts, as a proposition: [validate_problem_nil]
    states that the validator returns no issue exactly on [wf_problem].  The
    oracle's theorems are stated for well-formed problems. *)

From S2P Require Import Prelude PyValue NLeg NLegValidate.
Local Open Scope Z_scope.

Definition usable (s : string) : Prop := is_blank s = false.
Definition int64 (z : Z) : Prop := INT64_MIN ≤ z ≤ INT64_MAX.

(** ** The predicate *)

Definition wf_key (k : SettlementObservationKey) : Prop :=
  ok_schema_version k = OBSERVATION_SCHEMA_V1 ∧ usable (ok_oracle_id k) ∧
  usable (ok_indicator_id k) ∧ usable (ok_timezone k) ∧ usable (ok_rule_version k).

(** Slices cover the lots [prev+1, prev+2, ...] without gap or overlap. *)
Fixpoint contiguous (prev : Z) (l : list ExecutableCostSlice) : Prop :=
  match l with
  | [] => True
  | c :: l => first_lot c = prev + 1 ∧ first_lot c ≤ last_lot c ∧ contiguous (last_lot c) l
  end.

Definition slice_int64 (c : ExecutableCostSlice) : Prop :=
  int64 (first_lot c) ∧ int64 (last_lot c) ∧ int64 (incremental_cost_upper_bound_units c) ∧
  int64 (last_lot c * incremental_cost_upper_bound_units c).

Record wf_action (p : ArbitrageProblem) (a : CandidateAction) : Prop := {
  wa_id : usable (ca_action_id a);
  wa_contract : usable (ca_market_contract_id a);
  wa_names : Forall usable [ca_venue_id a; ca_account_id a; ca_chain_id a;
                            ca_settlement_asset_id a; ca_asset_valuation_rule_id a];
  wa_unit : ca_valuation_unit_id a = pb_valuation_unit_id p;
  wa_lot_step : int64 (ca_lot_step_units a) ∧ 0 < ca_lot_step_units a;
  wa_scale : int64 (ca_quantity_scale a) ∧ 0 < ca_quantity_scale a;
  wa_step_scale : int64 (ca_lot_step_units a * ca_quantity_scale a);
  wa_bounds_int64 : int64 (ca_min_quantity_lots a) ∧ int64 (ca_max_quantity_lots a);
  wa_bounds : 0 < ca_min_quantity_lots a ≤ ca_max_quantity_lots a;
  wa_key : wf_key (ca_settlement_observation_key a);
  wa_window : is_utc (ok_observation_start (ca_settlement_observation_key a)) = true ∧
              is_utc (ok_observation_end (ca_settlement_observation_key a)) = true ∧
              dt_us (ok_observation_start (ca_settlement_observation_key a))
              ≤ dt_us (ok_observation_end (ca_settlement_observation_key a));
  wa_slices : contiguous 0 (ca_cost_slices a);
  wa_slices_int64 : Forall slice_int64 (ca_cost_slices a);
  wa_covered : ∃ c, last (ca_cost_slices a) = Some c ∧ ca_max_quantity_lots a ≤ last_lot c;
}.

Definition actions_of (p : ArbitrageProblem) (contract_id : string) : list CandidateAction :=
  filter (λ a, ca_market_contract_id a = contract_id) (pb_actions p).

Record wf_atom (p : ArbitrageProblem) (s : TerminalStateSet) (t : TerminalAtom) : Prop := {
  wt_id : usable (ta_atom_id t);
  wt_rule : ta_rule_version t = Some (ts_rule_version s);
  wt_release : ∃ d, ta_capital_release_at t = Some d ∧ is_utc d = true ∧ dt_us (pb_as_of p) ≤ dt_us d;
  wt_payout_int64 : Forall (λ y, int64 (payout_lower_bound_per_lot_units y)) (ta_payouts t);
  wt_payout_unique : NoDup (ap_action_id <$> ta_payouts t);
  wt_payout_ids : ∀ i, i ∈ ap_action_id <$> ta_payouts t
                       ↔ i ∈ ca_action_id <$> actions_of p (ts_market_contract_id s);
}.

Record wf_state (p : ArbitrageProblem) (s : TerminalStateSet) : Prop := {
  ws_id : usable (ts_market_contract_id s);
  ws_actions : actions_of p (ts_market_contract_id s) ≠ [];
  ws_key : wf_key (ts_settlement_observation_key s);
  ws_rule : usable (ts_rule_version s);
  ws_atoms : ts_atoms s ≠ [];
  ws_keys : ∀ a, a ∈ actions_of p (ts_market_contract_id s) →
     observation_key_eqb (ca_settlement_observation_key a) (ts_settlement_observation_key s) = true;
  ws_wf_atoms : Forall (wf_atom p s) (ts_atoms s);
}.

Definition contracts (p : ArbitrageProblem) : list string :=
  ts_market_contract_id <$> pb_terminal_state_sets p.

Definition atom_ids (p : ArbitrageProblem) : list string :=
  pb_terminal_state_sets p ≫= λ s, ta_atom_id <$> ts_atoms s.

(** A native YES/NO token pair: one market seen as two contracts. *)
Definition wf_native (p : ArbitrageProblem) (c1 c2 : string) : Prop :=
  c1 ≠ c2 ∧
  (∃ a1 a2, actions_of p c1 = [a1] ∧ actions_of p c2 = [a2] ∧ ca_side a1 ≠ ca_side a2) ∧
  (∃ s1 s2, s1 ∈ pb_terminal_state_sets p ∧ s2 ∈ pb_terminal_state_sets p ∧
     ts_market_contract_id s1 = c1 ∧ ts_market_contract_id s2 = c2 ∧
     observation_key_eqb (ts_settlement_observation_key s1) (ts_settlement_observation_key s2) = true ∧
     native_kinds s1 = true ∧ native_kinds s2 = true).

Definition wf_arity (k : RelationKind) (ids : list string) : Prop :=
  match k with
  | IMPLIES | NATIVE_COMPLEMENT => length ids = 2%nat
  | MUTUALLY_EXCLUSIVE | EXACTLY_ONE => (2 ≤ length ids)%nat
  end.

Record wf_relation (p : ArbitrageProblem) (r : RelationConstraint) : Prop := {
  wr_id : usable (rc_constraint_id r);
  wr_rule : usable (rc_rule_version r);
  wr_arity : wf_arity (rc_kind r) (rc_contract_ids r);
  wr_contracts : Forall (.∈ contracts p) (rc_contract_ids r);
  wr_native : ∀ c1 c2, rc_kind r = NATIVE_COMPLEMENT → rc_contract_ids r = [c1; c2] → wf_native p c1 c2;
}.

Record wf_forbidden (p : ArbitrageProblem) (f : ForbiddenAtomCombination) : Prop := {
  wb_id : usable (fb_constraint_id f);
  wb_rule : usable (fb_rule_version f);
  wb_atoms : Forall (.∈ atom_ids p) (fb_atom_ids f);
}.

Record wf_qualification (q : QualificationConstraint) : Prop := {
  wq_id : usable (qc_constraint_id q);
  wq_rule : usable (qc_rule_version q);
  wq_numerator : int64 (qc_threshold_numerator q);
  wq_denominator : 0 < qc_threshold_denominator q ≤ INT64_MAX;
}.

Record wf_problem (p : ArbitrageProblem) : Prop := {
  wf_as_of : is_utc (pb_as_of p) = true;
  wf_schema : pb_schema_version p = PROBLEM_SCHEMA_V1;
  wf_problem_id : usable (pb_problem_id p);
  wf_unit : usable (pb_valuation_unit_id p);
  wf_actions : Forall (wf_action p) (pb_actions p);
  wf_action_ids : NoDup (ca_action_id <$> pb_actions p);
  wf_states : Forall (wf_state p) (pb_terminal_state_sets p);
  wf_contracts : NoDup (contracts p);
  wf_atom_ids : NoDup (atom_ids p);
  wf_action_contracts : ∀ a, a ∈ pb_actions p → ca_market_contract_id a ∈ contracts p;
  wf_relations : Forall (wf_relation p) (cm_relations (pb_constraint_model p));
  wf_forbiddens : Forall (wf_forbidden p) (cm_forbidden_atom_combinations (pb_constraint_model p));
  wf_constraint_ids : NoDup ((rc_constraint_id <$> cm_relations (pb_constraint_model p)) ++
                             (fb_constraint_id <$> cm_forbidden_atom_combinations (pb_constraint_model p)));
  wf_qualifications : Forall wf_qualification (pb_qualification_constraints p);
  wf_qualification_ids : NoDup (qc_constraint_id <$> pb_qualification_constraints p);
}.

(** ** Helper lemmas *)

Lemma when_nil b i : when b i = [] ↔ b = false.
Proof. destruct b; done. Qed.

Lemma validate_int_nil z path : validate_int z path = [] ↔ int64 z.
Proof. unfold validate_int. rewrite when_nil, negb_false_iff. apply in_int64_spec. Qed.

Lemma validate_product_nil x y path : validate_product x y path = [] ↔ int64 (x * y).
Proof. unfold validate_product. rewrite when_nil, negb_false_iff. apply in_int64_spec. Qed.

Lemma identifier_issues_nil s path : identifier_issues s path = [] ↔ usable s.
Proof. apply when_nil. Qed.

Lemma validate_datetime_nil d path : validate_datetime d path = [] ↔ is_utc d = true.
Proof.
  unfold validate_datetime, is_utc. destruct (dt_offset d) as [o|].
  - rewrite when_nil, negb_false_iff, Z.eqb_eq, bool_decide_eq_true. naive_solver.
  - rewrite bool_decide_eq_true. naive_solver.
Qed.

Lemma list_bind_nil {A B} (l : list A) (f : A → list B) :
  l ≫= f = [] ↔ ∀ x, x ∈ l → f x = [].
Proof.
  induction l as [|x l IH]; csimpl; [split; [set_solver|done]|].
  rewrite app_nil, IH. set_solver.
Qed.

Lemma usable_ids_all l : Forall usable l → usable_ids l = l.
Proof.
  unfold usable_ids. induction 1 as [|x l Hx Hl IH]; [done|].
  rewrite filter_cons_True by done. by rewrite IH.
Qed.

Lemma loop_seen_nil {A} (key : A → string) body (P : A → Prop) idx seen l :
  (∀ idx dup x, x ∈ l → body idx dup x = [] ↔ P x ∧ dup = false) →
  (∀ x, P x → usable (key x)) →
  loop_seen key body idx seen l = [] ↔
  Forall P l ∧ NoDup (key <$> l) ∧ ∀ x, x ∈ l → key x ∉ seen.
Proof.
  intros Hbody HP. revert idx seen Hbody.
  induction l as [|x l IH]; intros idx seen Hbody; csimpl.
  - split; [|done]. intros _. split_and!; [constructor..|set_solver].
  - rewrite app_nil, Hbody by set_solver. rewrite Forall_cons, NoDup_cons. split.
    + intros [[Hx Hdup] Hl]. rewrite (HP _ Hx) in Hdup, Hl. simpl in Hdup, Hl.
      apply bool_decide_eq_false_1 in Hdup. apply IH in Hl; [|set_solver].
      destruct Hl as (Hl & Hnd & Hns). split_and!; [done..| |done|].
      * rewrite list_elem_of_fmap. intros (y & E & Hy). apply (Hns y Hy). set_solver.
      * intros y [->|Hy]%elem_of_cons; [done|]. specialize (Hns y Hy). set_solver.
    + intros ([Hx Hl] & [Hnx Hnd] & Hns). rewrite (HP _ Hx). simpl.
      split; [split; [done|]|].
      * apply bool_decide_eq_false_2. apply Hns. set_solver.
      * apply IH; [set_solver|]. split_and!; [done..|].
        intros y Hy [E|Hs]%elem_of_cons; [|apply (Hns y); set_solver].
        apply Hnx. rewrite <- E. apply list_elem_of_fmap. eauto.
Qed.

(** [issues_split]: turn "no issue here" into the facts it stands for, in the
    hypotheses and in the goal. *)
Ltac issue_fact H :=
  lazymatch type of H with
  | _ ++ _ = [] =>
      let H1 := fresh "Hi" in let H2 := fresh "Hi" in
      apply app_nil in H; destruct H as [H1 H2]; issue_fact H1; issue_fact H2
  | when _ _ = [] => apply when_nil in H; bool_prop
  | validate_int _ _ = [] => apply validate_int_nil in H
  | validate_product _ _ _ = [] => apply validate_product_nil in H
  | identifier_issues _ _ = [] => apply identifier_issues_nil in H
  | validate_datetime _ _ = [] => apply validate_datetime_nil in H
  | _ => idtac
  end.

Ltac issue_goal :=
  lazymatch goal with
  | |- _ ++ _ = [] => apply app_nil; split; issue_goal
  | |- when _ _ = [] => apply when_nil
  | |- validate_int _ _ = [] => apply validate_int_nil
  | |- validate_product _ _ _ = [] => apply validate_product_nil
  | |- identifier_issues _ _ = [] => apply identifier_issues_nil
  | |- validate_datetime _ _ = [] => apply validate_datetime_nil
  | |- _ => idtac
  end.

Lemma wf_key_spec k path : validate_observation_key k path = [] ↔ wf_key k.
Proof.
  unfold validate_observation_key, wf_key. split.
  - intros H. issue_fact H. split_and!; done.
  - intros (E & ?&?&?&?). issue_goal; try done; by rewrite E.
Qed.

Lemma observation_window_spec k path :
  observation_window_issues k path = [] ↔
  is_utc (ok_observation_start k) = true ∧ is_utc (ok_observation_end k) = true ∧
  dt_us (ok_observation_start k) ≤ dt_us (ok_observation_end k).
Proof.
  unfold observation_window_issues, datetime_ltb. split.
  - intros H. issue_fact H. rewrite Hi, Hi1 in Hi2. simpl in Hi2. apply Z.ltb_ge in Hi2. done.
  - intros (H1 & H2 & H3). issue_goal; [done..|]. rewrite H1, H2. simpl. by rewrite Z.ltb_ge.
Qed.

Lemma cost_slice_issues_nil prefix idx prev l :
  cost_slice_issues prefix idx prev l = [] ↔ contiguous prev l ∧ Forall slice_int64 l.
Proof.
  revert idx prev; induction l as [|c l IH]; intros idx prev; simpl.
  - split; [split; constructor|done].
  - rewrite Forall_cons. unfold slice_int64. split.
    + intros H. issue_fact H.
      match goal with H : cost_slice_issues _ _ _ _ = [] |- _ => apply IH in H as [? ?] end.
      split_and!; first [done | lia].
    + intros ((E & Hle & Hc) & (?&?&?&?) & Hf). issue_goal; try done; [|by apply IH].
      rewrite E, Z.eqb_refl. simpl. rewrite Z.ltb_ge. lia.
Qed.

Lemma identifier_eq s t : usable t → identifier s = identifier t → s = t.
Proof. unfold identifier, usable. intros ->. by destruct (is_blank s); intros [= ->]. Qed.

Lemma action_issues_nil p idx dup a :
  usable (pb_valuation_unit_id p) →
  action_issues p idx dup a = [] ↔ wf_action p a ∧ dup = false.
Proof.
  intros Hunit. unfold action_issues. split.
  - intros H. issue_fact H.
    repeat match goal with
    | H : validate_observation_key _ _ = [] |- _ => apply wf_key_spec in H
    | H : observation_window_issues _ _ = [] |- _ => apply observation_window_spec in H
    | H : cost_slice_issues _ _ _ _ = [] |- _ => apply cost_slice_issues_nil in H as [? ?]
    | H : ¬ (_ ≠ _) |- _ => apply dec_stable in H
    end.
    split; [|done]. constructor; auto.
    + repeat constructor; done.
    + by apply identifier_eq.
    + destruct (last (ca_cost_slices a)) as [c|] eqn:E; [|by apply last_None in E].
      exists c. split; [done|].
      repeat match goal with H : when _ _ = [] |- _ => apply when_nil in H end. bool_prop. done.
  - intros [[Hid Hct Hnames Hu [Hls ?] [Hqs ?] Hprod [Hmin Hmax] Hb Hkey Hwin Hcont Hsl (c & Hc & Hle)] ->].
    rewrite !Forall_cons in Hnames. destruct Hnames as (Hven & Hacc & Hch & Hasset & Hrule & _).
    rewrite Hu. issue_goal; try done.
    + by apply bool_decide_eq_false_2; intros [].
    + by apply Z.leb_gt.
    + by apply Z.leb_gt.
    + rewrite Hrule. by rewrite andb_false_r.
    + by apply wf_key_spec.
    + by apply observation_window_spec.
    + apply bool_decide_eq_false_2. intros E. by rewrite E in Hc.
    + rewrite negb_false_iff, andb_true_iff, Z.ltb_lt, Z.leb_le. lia.
    + rewrite Hc. apply when_nil, Z.ltb_ge. done.
    + by apply cost_slice_issues_nil.
Qed.

Lemma filter_ext_in {A} (P Q : A → Prop) `{∀ x, Decision (P x), ∀ x, Decision (Q x)} (l : list A) :
  (∀ x, x ∈ l → P x ↔ Q x) → filter P l = filter Q l.
Proof.
  induction l as [|x l IH]; intros Hiff; [done|].
  rewrite !filter_cons. rewrite IH by set_solver.
  assert (P x ↔ Q x) by (apply Hiff; set_solver).
  destruct (decide (P x)), (decide (Q x)); tauto.
Qed.

Lemma actions_on_wf p c : Forall (wf_action p) (pb_actions p) → actions_on p c = actions_of p c.
Proof.
  intros Hwf. apply filter_ext_in. intros a Ha.
  rewrite Forall_forall in Hwf. destruct (Hwf a Ha) as [Hid Hct]. unfold usable in *. tauto.
Qed.

Lemma usable_action_ids p :
  Forall (wf_action p) (pb_actions p) →
  usable_ids (ca_action_id <$> pb_actions p) = ca_action_id <$> pb_actions p.
Proof.
  intros Hwf. apply usable_ids_all, Forall_fmap. eapply Forall_impl; [exact Hwf|].
  intros a Ha. apply Ha.
Qed.

Lemma elem_of_actions_of p c a :
  a ∈ actions_of p c ↔ ca_market_contract_id a = c ∧ a ∈ pb_actions p.
Proof. unfold actions_of. by rewrite list_elem_of_filter. Qed.

Lemma payout_issues_nil p required path idx l :
  Forall (wf_action p) (pb_actions p) →
  (∀ i, i ∈ required → i ∈ ca_action_id <$> pb_actions p) →
  payout_issues p required path idx l = [] ↔
  Forall (λ y, int64 (payout_lower_bound_per_lot_units y)) l ∧
  Forall (λ y, usable (ap_action_id y) ∧ ap_action_id y ∈ required) l.
Proof.
  intros Hwf Hreq. revert idx; induction l as [|y l IH]; intros idx; simpl.
  { split; [split; constructor|done]. }
  rewrite !Forall_cons, usable_action_ids by done. split.
  - intros H. issue_fact H.
    match goal with H : payout_issues _ _ _ _ _ = [] |- _ => apply IH in H as [? ?] end.
    unfold usable in *.
    destruct (is_blank (ap_action_id y)); [done|].
    destruct (bool_decide _) eqn:E in *; [|done]. simpl in *.
    repeat match goal with H : when _ _ = [] |- _ => apply when_nil in H end. bool_prop. tauto.
  - intros ((Hz & Hzs) & ((Hu & Hin) & Hl)). issue_goal; try done.
    + rewrite Hu, bool_decide_eq_true_2 by auto. simpl. apply when_nil.
      by rewrite bool_decide_eq_true_2.
    + by apply IH.
Qed.

Lemma atom_rule_issues_nil s t path :
  usable (ts_rule_version s) →
  atom_rule_issues s t path = [] ↔ ta_rule_version t = Some (ts_rule_version s).
Proof.
  intros Hs. unfold atom_rule_issues. destruct (ta_rule_version t) as [v|]; [|done].
  destruct (is_blank v) eqn:E.
  - split; [done|]. intros [= ->]. unfold usable in Hs. congruence.
  - rewrite when_nil, negb_false_iff, String.eqb_eq. naive_solver.
Qed.

Lemma atom_release_issues_nil p t path :
  is_utc (pb_as_of p) = true →
  atom_release_issues p t path = [] ↔
  ∃ d, ta_capital_release_at t = Some d ∧ is_utc d = true ∧ dt_us (pb_as_of p) ≤ dt_us d.
Proof.
  intros Hp. unfold atom_release_issues, datetime_ltb.
  destruct (ta_capital_release_at t) as [d|]; [|naive_solver].
  rewrite app_nil, validate_datetime_nil, when_nil, Hp. simpl. split.
  - intros [Hd Hlt]. rewrite Hd in Hlt. apply Z.ltb_ge in Hlt. eauto.
  - intros (d' & [= <-] & Hd & Hle). rewrite Hd. simpl. by rewrite Z.ltb_ge.
Qed.

Lemma remove_dups_length_NoDup (l : list string) :
  length (remove_dups l) = length l ↔ NoDup l.
Proof.
  split.
  - induction l as [|x l IH]; simpl; [constructor|]. case_decide as Hx; intros E.
    + exfalso. assert (length (remove_dups l) ≤ length l)%nat; [|lia].
      clear. induction l; simpl; [lia|]. case_decide; simpl; lia.
    + simpl in E. constructor; [done|]. apply IH. lia.
  - induction 1; simpl; [done|]. case_decide; [done|]. simpl. lia.
Qed.

Lemma atom_issues_nil p s prefix idx dup t :
  Forall (wf_action p) (pb_actions p) → is_utc (pb_as_of p) = true → usable (ts_rule_version s) →
  atom_issues p s prefix (ca_action_id <$> actions_of p (ts_market_contract_id s)) idx dup t = []
  ↔ wf_atom p s t ∧ dup = false.
Proof.
  intros Hwf Hp Hs. set (required := ca_action_id <$> _).
  assert (Hreq : ∀ i, i ∈ required → i ∈ ca_action_id <$> pb_actions p).
  { intros i (a & -> & [_ Ha]%elem_of_actions_of)%list_elem_of_fmap. apply list_elem_of_fmap. eauto. }
  unfold atom_issues. split.
  - intros H. issue_fact H.
    repeat match goal with
    | H : atom_rule_issues _ _ _ = [] |- _ => apply atom_rule_issues_nil in H; [|done]
    | H : atom_release_issues _ _ _ = [] |- _ => apply atom_release_issues_nil in H; [|done]
    | H : payout_issues _ _ _ _ _ = [] |- _ => apply payout_issues_nil in H as [? Hpay]; [|done..]
    end.
    rewrite Forall_forall in Hpay.
    assert (Hall : Forall usable (ap_action_id <$> ta_payouts t)).
    { apply Forall_fmap, Forall_forall. intros y Hy. by apply Hpay. }
    rewrite usable_ids_all in * by done.
    match goal with H : Nat.eqb _ _ = true |- _ => apply Nat.eqb_eq in H end.
    split; [|done]. constructor; auto.
    + apply remove_dups_length_NoDup. by rewrite length_fmap.
    + intros i. split; [|intros Hin; rewrite Forall_forall in Hi4; by apply Hi4].
      intros (y & -> & Hy)%list_elem_of_fmap. by apply Hpay.
  - intros [[Hid Hrule Hrel Hint Hnd Hids] ->].
    assert (Hall : Forall (λ y, usable (ap_action_id y) ∧ ap_action_id y ∈ required) (ta_payouts t)).
    { apply Forall_forall. intros y Hy.
      assert (ap_action_id y ∈ required) by (apply Hids, list_elem_of_fmap; eauto).
      split; [|done]. apply Hreq, list_elem_of_fmap in H as (a & -> & Ha).
      rewrite Forall_forall in Hwf. by apply Hwf. }
    assert (Hus : Forall usable (ap_action_id <$> ta_payouts t)).
    { apply Forall_fmap. eapply Forall_impl; [exact Hall|]. naive_solver. }
    rewrite usable_ids_all by done. issue_goal; try done.
    + by apply atom_rule_issues_nil.
    + by apply atom_release_issues_nil.
    + apply list_bind_nil. intros y Hy. apply identifier_issues_nil.
      rewrite Forall_forall in Hall. by apply Hall.
    + rewrite negb_false_iff, bool_decide_eq_true, Forall_forall. intros i Hi. by apply Hids.
    + rewrite negb_false_iff, Nat.eqb_eq. rewrite <- (length_fmap ap_action_id).
      by apply remove_dups_length_NoDup.
    + by apply payout_issues_nil.
Qed.

Lemma state_issues_nil p idx dup seen_atoms s :
  Forall (wf_action p) (pb_actions p) → is_utc (pb_as_of p) = true →
  state_issues p idx dup seen_atoms s = [] ↔
  wf_state p s ∧ dup = false ∧ NoDup (ta_atom_id <$> ts_atoms s) ∧
  ∀ t, t ∈ ts_atoms s → ta_atom_id t ∉ seen_atoms.
Proof.
  intros Hwf Hp. unfold state_issues. split.
  - intros H. issue_fact H. unfold usable in Hi. rewrite Hi, actions_on_wf in * by done.
    simpl in *. bool_prop.
    match goal with H : loop_seen _ _ _ _ _ = [] |- _ =>
      apply (loop_seen_nil _ _ (wf_atom p s)) in H as (? & ? & ?) end.
    2: { intros. by apply atom_issues_nil. }
    2: { intros ? Hx. apply Hx. }
    match goal with H : validate_observation_key _ _ = [] |- _ => apply wf_key_spec in H end.
    split; [|done]. constructor; try done.
    intros a Ha.
    match goal with H : _ ≫= _ = [] |- _ => rewrite list_bind_nil in H; specialize (H a Ha) end.
    match goal with H : when _ _ = [] |- _ => apply when_nil, negb_false_iff in H end. done.
  - intros ([Hid Hacts Hkey Hrule Hatoms Hkeys Hwfa] & -> & Hnd & Hns).
    unfold usable in Hid. rewrite Hid, actions_on_wf by done. simpl. issue_goal; try done.
    + by apply bool_decide_eq_false_2.
    + by apply wf_key_spec.
    + by apply bool_decide_eq_false_2.
    + apply list_bind_nil. intros a Ha. apply when_nil, negb_false_iff. auto.
    + apply (loop_seen_nil _ _ (wf_atom p s)); [|intros ? Hx; apply Hx|done].
      intros. by apply atom_issues_nil.
Qed.

Lemma wf_state_usable_atoms p s :
  wf_state p s → usable_ids (ta_atom_id <$> ts_atoms s) = ta_atom_id <$> ts_atoms s.
Proof.
  intros Hs. apply usable_ids_all, Forall_fmap.
  eapply Forall_impl; [apply Hs|]. intros t Ht. apply Ht.
Qed.

Lemma state_loop_nil p idx seen_c seen_a l :
  Forall (wf_action p) (pb_actions p) → is_utc (pb_as_of p) = true →
  state_loop p idx seen_c seen_a l = [] ↔
  Forall (wf_state p) l ∧ NoDup (ts_market_contract_id <$> l) ∧
  NoDup (l ≫= λ s, ta_atom_id <$> ts_atoms s) ∧
  (∀ s, s ∈ l → ts_market_contract_id s ∉ seen_c) ∧
  (∀ i, i ∈ (l ≫= λ s, ta_atom_id <$> ts_atoms s) → i ∉ seen_a).
Proof.
  intros Hwf Hp. revert idx seen_c seen_a.
  induction l as [|s l IH]; intros idx seen_c seen_a; csimpl.
  { split; [|done]. intros _. split_and!; try constructor; set_solver. }
  rewrite app_nil, state_issues_nil, IH, Forall_cons, NoDup_cons, NoDup_app by done. split.
  - intros [(Hs & Hdup & Hnd & Hns) (Hl & Hndl & Hnda & Hsc & Hsa)].
    rewrite (ws_id _ _ Hs) in Hdup, Hsc. simpl in *. apply bool_decide_eq_false_1 in Hdup.
    rewrite (wf_state_usable_atoms p) in Hsa by done.
    split_and!; try done.
    + intros (s' & E & Hs')%list_elem_of_fmap. apply (Hsc s' Hs'). set_solver.
    + intros i Hi Hi'. apply (Hsa i Hi'). set_solver.
    + intros s' [->|Hs']%elem_of_cons; [done|]. specialize (Hsc s' Hs'). set_solver.
    + intros i [Hi|Hi]%elem_of_app.
      * apply list_elem_of_fmap in Hi as (t & -> & Ht). auto.
      * specialize (Hsa i Hi). set_solver.
  - intros ([Hs Hl] & [Hnc Hndc] & (Hnd & Hdisj & Hnda) & Hsc & Hsa).
    rewrite (ws_id _ _ Hs), (wf_state_usable_atoms p) by done. simpl. split_and!; try done.
    + apply bool_decide_eq_false_2, Hsc. set_solver.
    + intros t Ht. apply Hsa. rewrite elem_of_app. left. apply list_elem_of_fmap. eauto.
    + intros s' Hs' [E|Hin]%elem_of_cons; [|apply (Hsc s'); set_solver].
      apply Hnc. rewrite <- E. apply list_elem_of_fmap. eauto.
    + intros i Hi [Hi'|Hi']%elem_of_app; [by apply (Hdisj i)|].
      apply (Hsa i); [|done]. rewrite elem_of_app. auto.
Qed.

Lemma elem_of_dedup x seen l : x ∈ dedup seen l ↔ x ∈ l ∧ x ∉ seen.
Proof.
  revert seen; induction l as [|y l IH]; intros seen; simpl; [set_solver|].
  case_decide; rewrite ?elem_of_cons, IH; [set_solver|].
  destruct (decide (x = y)); set_solver.
Qed.

Lemma missing_state_issues_nil p :
  Forall (wf_action p) (pb_actions p) → Forall (wf_state p) (pb_terminal_state_sets p) →
  missing_state_issues p = [] ↔
  ∀ a, a ∈ pb_actions p → ca_market_contract_id a ∈ contracts p.
Proof.
  intros Ha Hs. unfold missing_state_issues, state_contracts. rewrite list_bind_nil.
  rewrite usable_ids_all.
  2: { apply Forall_fmap. eapply Forall_impl; [exact Hs|]. intros s Hs'. apply Hs'. }
  rewrite Forall_forall in Ha. split.
  - intros H a Hin. specialize (H (ca_market_contract_id a)).
    rewrite when_nil, negb_false_iff, bool_decide_eq_true in H. apply H.
    apply elem_of_dedup. split; [|set_solver]. apply list_elem_of_fmap. exists a.
    split; [done|]. apply list_elem_of_filter. split; [|done]. split; apply (Ha a Hin).
  - intros H c [(a & -> & [_ Hin]%list_elem_of_filter)%list_elem_of_fmap _]%elem_of_dedup.
    apply when_nil, negb_false_iff, bool_decide_eq_true_2. auto.
Qed.

Lemma reference_issues_nil known code message path field idx ids :
  (∀ i, i ∈ known → usable i) →
  reference_issues known code message path field idx ids = [] ↔ Forall (.∈ known) ids.
Proof.
  intros Hk. revert idx; induction ids as [|c ids IH]; intros idx; simpl.
  { split; [constructor|done]. }
  rewrite !app_nil, IH, identifier_issues_nil, when_nil, Forall_cons. unfold usable. split.
  - intros (Hc & Hin & Hids). rewrite Hc in Hin. simpl in Hin. bool_prop. done.
  - intros (Hin & Hids). rewrite (Hk c Hin). simpl.
    by rewrite bool_decide_eq_true_2.
Qed.

Lemma state_on_Some p c s :
  NoDup (contracts p) →
  state_on p c = Some s ↔ s ∈ pb_terminal_state_sets p ∧ ts_market_contract_id s = c.
Proof.
  intros Hnd. split.
  - intros [Hs E]%py_next_Some. apply String.eqb_eq in E. done.
  - intros [Hs E]. destruct (state_on p c) as [s'|] eqn:Hc.
    + apply py_next_Some in Hc as [Hs' E']. apply String.eqb_eq in E'. f_equal.
      apply (NoDup_key_eq ts_market_contract_id (pb_terminal_state_sets p)); [done..|congruence].
    + unfold state_on in Hc. rewrite py_next_None in Hc. specialize (Hc s Hs). by apply String.eqb_neq in Hc.
Qed.

Lemma elem_of_contracts p c :
  c ∈ contracts p ↔ ∃ s, s ∈ pb_terminal_state_sets p ∧ ts_market_contract_id s = c.
Proof. unfold contracts. rewrite list_elem_of_fmap. naive_solver. Qed.

Lemma native_complement_issues_nil p path c1 c2 :
  Forall (wf_action p) (pb_actions p) → NoDup (contracts p) → c1 ∈ contracts p → c2 ∈ contracts p →
  native_complement_issues p path c1 c2 = [] ↔ wf_native p c1 c2.
Proof.
  intros Ha Hnd (s1 & Hs1)%elem_of_contracts (s2 & Hs2)%elem_of_contracts.
  unfold native_complement_issues, wf_native. rewrite !actions_on_wf by done.
  pose proof Hs1 as E1. pose proof Hs2 as E2. rewrite <- state_on_Some in E1, E2 by done.
  rewrite E1, E2, !app_nil, !when_nil, String.eqb_neq, !negb_false_iff, andb_true_iff.
  split.
  - intros (Hne & Hact & Hobs & Hk1 & Hk2). split_and!; [done| |].
    + destruct (actions_of p c1) as [|a1 [|]], (actions_of p c2) as [|a2 [|]]; try done.
      apply when_nil, bool_decide_eq_false_1 in Hact. eauto.
    + exists s1, s2. naive_solver.
  - intros (Hne & (a1 & a2 & -> & -> & Hside) & (s1' & s2' & H1 & H2 & E1' & E2' & ?)).
    assert (s1' = s1) as -> by (apply (NoDup_key_eq ts_market_contract_id (pb_terminal_state_sets p)); [done|tauto|tauto|destruct Hs1, Hs2; congruence]).
    assert (s2' = s2) as -> by (apply (NoDup_key_eq ts_market_contract_id (pb_terminal_state_sets p)); [done|tauto|tauto|destruct Hs1, Hs2; congruence]).
    split_and!; try tauto. apply when_nil. by apply bool_decide_eq_false_2.
Qed.

Lemma usable_state_contracts p :
  Forall (wf_state p) (pb_terminal_state_sets p) → state_contracts p = contracts p.
Proof.
  intros Hs. apply usable_ids_all, Forall_fmap. eapply Forall_impl; [exact Hs|]. intros s H. apply H.
Qed.

Lemma usable_state_atoms p :
  Forall (wf_state p) (pb_terminal_state_sets p) →
  state_atom_ids p = atom_ids p ∧ ∀ i, i ∈ atom_ids p → usable i.
Proof.
  intros Hs. assert (Hu : ∀ i, i ∈ atom_ids p → usable i).
  { intros i (s & Hi & Hsin)%list_elem_of_bind. apply list_elem_of_fmap in Hi as (t & -> & Ht).
    rewrite Forall_forall in Hs. destruct (Hs s Hsin). rewrite Forall_forall in ws_wf_atoms0.
    by apply ws_wf_atoms0. }
  split; [|done]. apply usable_ids_all. by apply Forall_forall.
Qed.

Lemma relation_arity_issues_nil r path :
  relation_arity_issues r path = [] ↔ wf_arity (rc_kind r) (rc_contract_ids r).
Proof.
  unfold relation_arity_issues, wf_arity.
  destruct (rc_kind r); rewrite when_nil, ?negb_false_iff, ?Nat.eqb_eq, ?Nat.ltb_ge; done.
Qed.

Lemma relation_issues_nil p idx dup r :
  Forall (wf_action p) (pb_actions p) → Forall (wf_state p) (pb_terminal_state_sets p) →
  NoDup (contracts p) →
  relation_issues p idx dup r = [] ↔ wf_relation p r ∧ dup = false.
Proof.
  intros Ha Hs Hnd. unfold relation_issues. rewrite usable_state_contracts by done.
  assert (Huc : ∀ i, i ∈ contracts p → usable i).
  { intros i (s & Hin & <-)%elem_of_contracts. rewrite Forall_forall in Hs. by apply Hs. }
  rewrite !app_nil, !identifier_issues_nil, when_nil, relation_arity_issues_nil, reference_issues_nil by done.
  assert (Hnat : Forall (.∈ contracts p) (rc_contract_ids r) →
    (match rc_kind r, rc_contract_ids r with
     | NATIVE_COMPLEMENT, [c1; c2] =>
         native_complement_issues p ("constraint_model.relations[" +:+ str_nat idx +:+ "]") c1 c2
     | _, _ => [] end = [] ↔
     (∀ c1 c2, rc_kind r = NATIVE_COMPLEMENT → rc_contract_ids r = [c1; c2] → wf_native p c1 c2))).
  { intros Hall. destruct (rc_kind r); try naive_solver.
    destruct (rc_contract_ids r) as [|c1 [|c2 [|]]]; try naive_solver.
    rewrite !Forall_cons in Hall. rewrite native_complement_issues_nil by naive_solver. naive_solver. }
  split.
  - intros (Hid & Hdup & Hrule & Har & Hall & Hn). split; [|done]. constructor; auto. by apply Hnat.
  - intros [[Hid Hrule Har Hall Hn] ->]. split_and!; try done. by apply Hnat.
Qed.

Lemma forbidden_issues_nil p idx dup f :
  Forall (wf_state p) (pb_terminal_state_sets p) →
  forbidden_issues p idx dup f = [] ↔ wf_forbidden p f ∧ dup = false.
Proof.
  intros Hs. destruct (usable_state_atoms p Hs) as [E Hu]. unfold forbidden_issues. rewrite E.
  rewrite !app_nil, !identifier_issues_nil, when_nil, reference_issues_nil by done.
  split; [intros (?&?&?&?); split; [by constructor|done]|]. intros [[] ->]. done.
Qed.

Lemma qualification_issues_nil idx dup q :
  qualification_issues idx dup q = [] ↔ wf_qualification q ∧ dup = false.
Proof.
  unfold qualification_issues.
  rewrite !app_nil, !identifier_issues_nil, !when_nil, !validate_int_nil. split.
  - intros (Hid & Hdup & Hr & Hn & Hd & Hpos). split; [|done]. constructor; try done.
    apply in_int64_spec in Hd as Hd'. rewrite Hd' in Hpos. simpl in Hpos. bool_prop.
    unfold int64 in *. lia.
  - intros [[Hid Hr Hn Hd] ->]. split_and!; try done.
    + unfold int64, INT64_MIN in *. lia.
    + rewrite andb_false_iff, Z.leb_gt. lia.
Qed.

(** ** Validation is exactly well-formedness *)

Lemma validate_problem_wf p : validate_problem p = [] ↔ wf_problem p.
Proof.
  unfold validate_problem.
  rewrite !app_nil, !identifier_issues_nil, validate_datetime_nil, when_nil, negb_false_iff, String.eqb_eq.
  split.
  - intros (Hasof & _ & Hsch & Hpid & Hunit & Hact & Hst & Hmiss & Hrel & Hfb & Hq).
    apply (loop_seen_nil _ _ (wf_action p)) in Hact as (Hact & Hactid & _);
      [|intros; by apply action_issues_nil|intros ? Hx; apply Hx].
    apply state_loop_nil in Hst as (Hst & Hnc & Hna & _); [|done..].
    rewrite missing_state_issues_nil in Hmiss by done.
    apply (loop_seen_nil _ _ (wf_relation p)) in Hrel as (Hrel & Hrelid & _);
      [|intros; by apply relation_issues_nil|intros ? Hx; apply Hx].
    rewrite usable_ids_all in Hfb by (apply Forall_fmap; eapply Forall_impl; [exact Hrel|]; intros ? Hx; apply Hx).
    apply (loop_seen_nil _ _ (wf_forbidden p)) in Hfb as (Hfb & Hfbid & Hdisj);
      [|intros; by apply forbidden_issues_nil|intros ? Hx; apply Hx].
    apply (loop_seen_nil _ _ wf_qualification) in Hq as (Hq & Hqid & _);
      [|intros; by apply qualification_issues_nil|intros ? Hx; apply Hx].
    constructor; try done. apply NoDup_app. split_and!; [done| |done].
    intros i Hi (f & -> & Hf)%list_elem_of_fmap. by apply (Hdisj f).
  - intros [Hasof Hsch Hpid Hunit Hact Hactid Hst Hnc Hna Hcov Hrel Hfb Hids Hq Hqid].
    apply NoDup_app in Hids as (Hrelid & Hdisj & Hfbid). split_and!; try done.
    + by rewrite Hsch.
    + apply (loop_seen_nil _ _ (wf_action p)); [intros; by apply action_issues_nil|intros ? Hx; apply Hx|set_solver].
    + apply state_loop_nil; try done. set_solver.
    + by apply missing_state_issues_nil.
    + apply (loop_seen_nil _ _ (wf_relation p)); [intros; by apply relation_issues_nil|intros ? Hx; apply Hx|set_solver].
    + rewrite usable_ids_all by (apply Forall_fmap; eapply Forall_impl; [exact Hrel|]; intros ? Hx; apply Hx).
      apply (loop_seen_nil _ _ (wf_forbidden p)); [intros; by apply forbidden_issues_nil|intros ? Hx; apply Hx|].
      split_and!; try done. intros f Hf Hin. apply (Hdisj _ Hin), list_elem_of_fmap. eauto.
    + apply (loop_seen_nil _ _ wf_qualification); [intros; by apply qualification_issues_nil|intros ? Hx; apply Hx|set_solver].
Qed.

Lemma require_valid_Ok p u : require_valid p = Ok u ↔ wf_problem p.
Proof.
  rewrite <- validate_problem_wf. unfold require_valid.
  destruct (validate_problem p), u; split; done.
Qed.
