(* ===== verification/IsoFormat.v ===== *)
(** * [datetime.fromisoformat]

    Reading back what [isoformat] prints.  Python accepts every calendar or
    week date in basic or extended form, any separator character, a time with
    optional minutes, seconds and fraction, and an optional offset; the
    documented grammar is modelled on ASCII digits, in the order of the
    pure-Python implementation of the standard library. *)

From Stdlib Require Import Ascii.
From S2P Require Import Prelude PyValue.
Local Open Scope Z_scope.

(** ** Strings by position *)

Definition slice (s : string) (a b : nat) : string := String.substring a (b - a) s.
Definition char_at (s : string) (i : nat) : option Ascii.ascii := String.get i s.
Definition is_char (o : option Ascii.ascii) (c : Ascii.ascii) : bool :=
  match o with Some d => Ascii.eqb d c | None => false end.

Definition digit (c : Ascii.ascii) : option Z :=
  let n := Z.of_N (Ascii.N_of_ascii c) in
  if (48 <=? n) && (n <=? 57) then Some (n - 48) else None.
Definition is_digit (c : Ascii.ascii) : bool := match digit c with Some _ => true | None => false end.

(** All characters of [s] read as one number. *)
Fixpoint digits_value (acc : Z) (s : string) : option Z :=
  match s with
  | EmptyString => Some acc
  | String c s => d ← digit c; digits_value (acc * 10 + d) s
  end.

(** Exactly [w] digits. *)
Definition int_of (w : nat) (s : string) : option Z :=
  if Nat.eqb (String.length s) w then digits_value 0 s else None.

Fixpoint all_digits (s : string) : bool :=
  match s with EmptyString => true | String c s => is_digit c && all_digits s end.

(** ** The proleptic Gregorian calendar *)

Definition is_leap (y : Z) : bool := (y `mod` 4 =? 0) && (negb (y `mod` 100 =? 0) || (y `mod` 400 =? 0)).

Definition days_before_year (y : Z) : Z := let y := y - 1 in y * 365 + y `div` 4 - y `div` 100 + y `div` 400.

Definition DAYS_IN_MONTH : list Z := [31; 28; 31; 30; 31; 30; 31; 31; 30; 31; 30; 31].
Definition DAYS_BEFORE_MONTH : list Z := [0; 31; 59; 90; 120; 151; 181; 212; 243; 273; 304; 334].

Definition days_in_month (y m : Z) : Z :=
  if (m =? 2) && is_leap y then 29 else nth (Z.to_nat (m - 1)) DAYS_IN_MONTH 0.
Definition days_before_month (y m : Z) : Z :=
  nth (Z.to_nat (m - 1)) DAYS_BEFORE_MONTH 0 + (if (2 <? m) && is_leap y then 1 else 0).

(** [_ymd2ord]: 1 is January 1st of year 1. *)
Definition ymd2ord (y m d : Z) : Z := days_before_year y + days_before_month y m + d.

Definition MAX_ORDINAL : Z := 3652059.

(** The ordinal of a valid date, the checks of [date.__new__]. *)
Definition date_ordinal (y m d : Z) : option Z :=
  if (1 <=? y) && (y <=? 9999) && (1 <=? m) && (m <=? 12) && (1 <=? d) && (d <=? days_in_month y m)
  then Some (ymd2ord y m d) else None.

(** [_isoweek_to_gregorian] *)
Definition isoweek_ordinal (y week day : Z) : option Z :=
  let first := ymd2ord y 1 1 in
  let first_weekday := (first + 6) `mod` 7 in
  let monday := first - first_weekday + (if 3 <? first_weekday then 7 else 0) in
  let weeks := if (first `mod` 7 =? 4) || ((first `mod` 7 =? 3) && is_leap y) then 53 else 52 in
  let ordinal := monday + (week - 1) * 7 + (day - 1) in
  if (1 <=? y) && (y <=? 9999) && (1 <=? week) && (week <=? weeks) && (1 <=? day) && (day <=? 7) &&
     (1 <=? ordinal) && (ordinal <=? MAX_ORDINAL)
  then Some ordinal else None.

(** ** Parsing *)

(** Length of the run of digits from [i] on. *)
Fixpoint digit_run (s : string) : nat :=
  match s with String c s => if is_digit c then S (digit_run s) else 0%nat | EmptyString => 0%nat end.

(** [_find_isoformat_datetime_separator] *)
Definition find_separator (s : string) : option nat :=
  let len := String.length s in
  if Nat.eqb len 7 then Some 7%nat
  else if is_char (char_at s 4) "-"%char then
    if is_char (char_at s 5) "W"%char then
      if Nat.ltb 8 len && is_char (char_at s 8) "-"%char then
        if Nat.eqb len 9 then None
        else match char_at s 10 with
             | Some c => Some (if is_digit c then 8%nat else 10%nat)
             | None => Some 10%nat
             end
      else Some 8%nat
    else Some 10%nat
  else if is_char (char_at s 4) "W"%char then
    let idx := (7 + digit_run (slice s 7 len))%nat in
    Some (if Nat.ltb idx 9 then idx else if Nat.even idx then 7%nat else 8%nat)
  else Some 8%nat.

(** [_parse_isoformat_date] *)
Definition parse_date (s : string) : option Z :=
  year ← int_of 4 (slice s 0 4);
  let has_sep := is_char (char_at s 4) "-"%char in
  let w := if has_sep then 1%nat else 0%nat in
  let pos := (4 + w)%nat in
  if is_char (char_at s pos) "W"%char then
    week ← int_of 2 (slice s (pos + 1) (pos + 3));
    day ← (if Nat.ltb (pos + 3) (String.length s)
           then if Bool.eqb (is_char (char_at s (pos + 3)) "-"%char) has_sep
                then int_of 1 (slice s (pos + 3 + w) (pos + 4 + w)) else None
           else Some 1);
    isoweek_ordinal year week day
  else
    month ← int_of 2 (slice s pos (pos + 2));
    if Bool.eqb (is_char (char_at s (pos + 2)) "-"%char) has_sep then
      day ← int_of 2 (slice s (pos + 2 + w) (pos + 4 + w));
      date_ordinal year month day
    else None.

(** [HH[:?MM[:?SS]]]: the components and the rest of the string; [sep] is
    known after the first component. *)
Fixpoint parse_hms (n : nat) (sep : option bool) (s : string) : option (list Z * string) :=
  match n with
  | O => Some ([], s)
  | S n =>
      match s with
      | String a (String b rest) =>
          v ← int_of 2 (String a (String b EmptyString));
          match rest with
          | EmptyString => Some ([v], EmptyString)
          | String c rest' =>
              if Nat.eqb n 0 then Some ([v], rest)
              else
                let has_sep := match sep with Some b => b | None => Ascii.eqb c ":"%char end in
                if has_sep && negb (Ascii.eqb c ":"%char) then None
                else
                  r ← parse_hms n (Some has_sep) (if has_sep then rest' else rest);
                  Some (v :: r.1, r.2)
          end
      | _ => None
      end
  end.

(** The fraction after [.] or [,], in microseconds, cut after six digits. *)
Definition parse_fraction (s : string) : option Z :=
  match s with
  | EmptyString => Some 0
  | String c rest =>
      if Ascii.eqb c "."%char || Ascii.eqb c ","%char then
        let n := Nat.min 6 (String.length rest) in
        if Nat.eqb n 0 then None
        else
          v ← int_of n (slice rest 0 n);
          if all_digits rest then Some (v * 10 ^ (6 - Z.of_nat n)) else None
      else None
  end.

(** [_parse_hh_mm_ss_ff] *)
Definition parse_time (s : string) : option (Z * Z * Z * Z) :=
  r ← parse_hms 3 None s;
  f ← parse_fraction r.2;
  Some (nth 0 r.1 0, nth 1 r.1 0, nth 2 r.1 0, f).

(** The position of the first [c]. *)
Fixpoint find_char (c : Ascii.ascii) (s : string) : option nat :=
  match s with
  | EmptyString => None
  | String d s => if Ascii.eqb d c then Some 0%nat else S <$> find_char c s
  end.

Definition time_us (t : Z * Z * Z * Z) : Z :=
  let '(h, m, s, f) := t in ((h * 60 + m) * 60 + s) * US_PER_SECOND + f.

(** [_parse_isoformat_time]: the time of day and the offset, in microseconds. *)
Definition parse_day_time (s : string) : option (Z * option Z) :=
  let zone := match find_char "-"%char s with
              | Some i => Some i
              | None => match find_char "+"%char s with Some i => Some i | None => find_char "Z"%char s end
              end in
  t ← parse_time (match zone with Some i => slice s 0 i | None => s end);
  let '(h, m, sec, _) := t in
  offset ← (match zone with
            | None => Some None
            | Some i =>
                let tz := slice s (i + 1) (String.length s) in
                if Nat.eqb (String.length tz) 0 && is_char (char_at s i) "Z"%char then Some (Some 0)
                else if Nat.ltb (String.length tz) 2 || Nat.eqb (String.length tz) 3 then None
                else
                  z ← parse_time tz;
                  if time_us z <? US_PER_DAY
                  then Some (Some (if is_char (char_at s i) "-"%char then - time_us z else time_us z)) else None
            end);
  if (h <=? 23) && (m <=? 59) && (sec <=? 59) then Some (time_us t, offset) else None.

Definition EPOCH_ORDINAL : Z := 719163.

(** [datetime.fromisoformat]; [None] is a [ValueError]. *)
Definition fromisoformat (s : string) : option datetime :=
  if Nat.ltb (String.length s) 7 then None
  else
    sep ← find_separator s;
    ordinal ← parse_date (slice s 0 sep);
    t ← (match slice s (sep + 1) (String.length s) with
         | EmptyString => Some (0, None)
         | rest => parse_day_time rest
         end);
    let local := (ordinal - EPOCH_ORDINAL) * US_PER_DAY + t.1 in
    Some (Datetime (match t.2 with Some o => local - o | None => local end) t.2).

Example fromisoformat_samples :
  fromisoformat <$> ["2026-07-29T00:00:00.000001+00:00"; "20260729T0000+00:00"; "2026-W31-3 00+00:00"; "2026-07-29T01:00+01:00";
                     "2026-07-29+00:00"; "2026-02-29T00:00+00:00"; "2026-07-29T24:00+00:00"]
  = [Some (Datetime 1785283200000001 (Some 0)); Some (Datetime 1785283200000000 (Some 0));
     Some (Datetime 1785283200000000 (Some 0)); Some (Datetime 1785283200000000 (Some 3600000000));
     Some (Datetime 1785283200000000 None); None; None].
Proof. vm_compute. reflexivity. Qed.
