(* ===== verification/IsoFormatCorrect.v ===== *)
(** * [fromisoformat] inverts [isoformat]

    On every datetime Python can represent (years 1 to 9999) the text printed
    by [isoformat_utc] reads back as the same instant. *)

From Stdlib Require Import Ascii.
From S2P Require Import Prelude PyValue IsoFormat.
Local Open Scope Z_scope.

(** ** The calendar *)

Lemma month_of_year doy : 0 ≤ doy ≤ 365 →
  let mp := (5 * doy + 2) `div` 153 in 0 ≤ mp ≤ 11 ∧ (153 * mp + 2) `div` 5 ≤ doy < (153 * (mp + 1) + 2) `div` 5.
Proof. intros H mp. subst mp. Z.to_euclidean_division_equations; lia. Qed.

(** Leap days up to the end of year [y]. *)
Definition leaps (y : Z) : Z := y `div` 4 - y `div` 100 + y `div` 400.

Lemma leap_days y : ∃ l, (if is_leap y then 1 else 0) = l ∧ 0 ≤ l ≤ 1 ∧ l = leaps y - leaps (y - 1).
Proof.
  eexists. split; [done|]. unfold is_leap, leaps.
  destruct (Z.eqb_spec (y `mod` 4) 0), (Z.eqb_spec (y `mod` 100) 0), (Z.eqb_spec (y `mod` 400) 0); simpl;
    Z.to_euclidean_division_equations; lia.
Qed.

Lemma leap_bound y : 0 ≤ leaps (y + 1) - leaps y ≤ 1.
Proof. destruct (leap_days (y + 1)) as (l & _ & Hl & ->). by replace (y + 1 - 1) with y in Hl by lia. Qed.

Lemma leaps_era yoe era : leaps (yoe + era * 400) = leaps yoe + 97 * era.
Proof. unfold leaps. Z.to_euclidean_division_equations; lia. Qed.

Lemma leaps_first_era yoe : 0 ≤ yoe ≤ 399 → leaps yoe = yoe `div` 4 - yoe `div` 100.
Proof. intros H. unfold leaps. rewrite (Z.div_small yoe 400); lia. Qed.

Lemma year_of_era doe : 0 ≤ doe ≤ 146096 →
  let yoe := (doe - doe `div` 1460 + doe `div` 36524 - doe `div` 146096) `div` 365 in
  0 ≤ yoe ≤ 399 ∧ 365 * yoe + leaps yoe ≤ doe < 365 * (yoe + 1) + leaps (yoe + 1).
Proof. intros H yoe. subst yoe. unfold leaps. Z.to_euclidean_division_equations; lia. Qed.

Lemma days_before_year_leap y : days_before_year y = (y - 1) * 365 + leaps (y - 1).
Proof. unfold days_before_year, leaps. lia. Qed.

Lemma days_in_month_leap y m : days_in_month y m = nth (Z.to_nat (m - 1)) DAYS_IN_MONTH 0 + (if m =? 2 then if is_leap y then 1 else 0 else 0).
Proof. unfold days_in_month. destruct (Z.eqb_spec m 2) as [->|]; [by destruct (is_leap y)|simpl; lia]. Qed.

Lemma days_before_month_leap y m : days_before_month y m = nth (Z.to_nat (m - 1)) DAYS_BEFORE_MONTH 0 + (if 2 <? m then if is_leap y then 1 else 0 else 0).
Proof. unfold days_before_month. by destruct (2 <? m), (is_leap y). Qed.

(** The civil date of a day, read back as its ordinal. *)
Lemma civil_ordinal days : -719162 ≤ days ≤ 2932896 →
  let '(y, m, d) := civil_from_days days in
  date_ordinal y m d = Some (days + EPOCH_ORDINAL) ∧ 1 ≤ y ≤ 9999 ∧ 1 ≤ m ≤ 12 ∧ 1 ≤ d ≤ 31.
Proof.
  intros Hd. unfold civil_from_days. set (z := days + 719468).
  set (era := z `div` 146097). set (doe := z - era * 146097).
  assert (Hdoe : 0 ≤ doe ≤ 146096) by (subst doe era; Z.to_euclidean_division_equations; lia).
  assert (Hz : days = doe + era * 146097 - 719468) by (subst doe z; lia). clearbody doe era. clear z.
  destruct (year_of_era doe Hdoe) as (Hy & Hlo & Hhi). cbv zeta in *.
  set (yoe := (doe - doe `div` 1460 + doe `div` 36524 - doe `div` 146096) `div` 365) in *. clearbody yoe.
  set (doy := doe - (365 * yoe + yoe `div` 4 - yoe `div` 100)).
  pose proof (leaps_first_era yoe Hy) as HL. pose proof (leap_bound yoe) as HB.
  assert (Hdoe' : doe = doy + (365 * yoe + leaps yoe)) by (subst doy; lia). clearbody doy.
  assert (Hdoy : 0 ≤ doy ≤ 365) by lia.
  destruct (month_of_year doy Hdoy) as (Hmp & Hm). cbv zeta in *. set (mp := (5 * doy + 2) `div` 153) in *. clearbody mp.
  set (y0 := yoe + era * 400). assert (L0 : leaps y0 = leaps yoe + 97 * era) by apply leaps_era.
  assert (L1 : leaps (y0 + 1) = leaps (yoe + 1) + 97 * era)
    by (rewrite <- leaps_era; f_equal; subst y0; lia).
  assert (Hy0 : yoe = y0 - era * 400) by (subst y0; lia). clearbody y0.
  set (d := doy - (153 * mp + 2) `div` 5 + 1). set (m := if mp <? 10 then mp + 3 else mp - 9).
  set (y := y0 + (if m <=? 2 then 1 else 0)).
  assert (Hgoal : 1 ≤ y ≤ 9999 ∧ 1 ≤ d ≤ days_in_month y m ∧ days_in_month y m ≤ 31 ∧ 1 ≤ m ≤ 12 ∧
                  ymd2ord y m d = days + EPOCH_ORDINAL).
  { rewrite days_in_month_leap. unfold ymd2ord, EPOCH_ORDINAL. rewrite days_before_year_leap, days_before_month_leap.
    destruct (leap_days y) as (l & -> & Hl & El).
    assert (Hc : mp = 0 ∨ mp = 1 ∨ mp = 2 ∨ mp = 3 ∨ mp = 4 ∨ mp = 5 ∨ mp = 6 ∨ mp = 7 ∨ mp = 8 ∨ mp = 9 ∨ mp = 10 ∨ mp = 11)
      by lia.
    destruct Hc as [->|[->|[->|[->|[->|[->|[->|[->|[->|[->|[->| ->]]]]]]]]]]]; subst m d y; simpl in *;
      rewrite ?Z.add_0_r, ?Z.add_simpl_r in *; Z.to_euclidean_division_equations; lia. }
  destruct Hgoal as (Hy1 & Hd1 & Hd2 & Hm1 & Ho). split; [|lia]. unfold date_ordinal. rewrite Ho.
  repeat match goal with |- context [?a <=? ?b] => rewrite (proj2 (Z.leb_le a b)) by lia end. done.
Qed.

(** ** Decimal fields *)

Fixpoint digits (w : nat) (x : N) (s : string) : string :=
  match w with O => s | S w => digits w (x / 10) (String (pretty_N_char (x mod 10)) s) end.

Lemma digit_char x : (x < 10)%N → digit (pretty_N_char x) = Some (Z.of_N x).
Proof.
  intros Hx. assert (Hc : (x = 0 ∨ x = 1 ∨ x = 2 ∨ x = 3 ∨ x = 4 ∨ x = 5 ∨ x = 6 ∨ x = 7 ∨ x = 8 ∨ x = 9)%N) by lia.
  by destruct Hc as [->|[->|[->|[->|[->|[->|[->|[->|[->| ->]]]]]]]]].
Qed.

Lemma zeros_push n s : zeros n +:+ String "0" s = zeros (S n) +:+ s.
Proof.
  induction n as [|n IH]; [done|].
  change (String "0" (zeros n +:+ String "0" s) = String "0" (zeros (S n) +:+ s)). by rewrite IH.
Qed.

Lemma pretty_go_length x s : (String.length s ≤ String.length (pretty_N_go x s))%nat.
Proof.
  revert s. induction (N.lt_wf_0 x) as [x _ IH]; intros s. destruct (decide (0 < x)%N) as [Hx|Hx].
  - rewrite pretty_N_go_step by done. etrans; [|apply IH, N.div_lt; lia]. simpl. lia.
  - replace x with 0%N by lia. by rewrite pretty_N_go_0.
Qed.

Lemma go_digits w x s : (x < 10 ^ N.of_nat w)%N →
  zeros (w - (String.length (pretty_N_go x s) - String.length s)) +:+ pretty_N_go x s = digits w x s.
Proof.
  revert x s. induction w as [|w IH]; intros x s Hx.
  - replace x with 0%N by (simpl in Hx; lia). by rewrite pretty_N_go_0.
  - simpl digits. rewrite Nat2N.inj_succ, N.pow_succ_r' in Hx.
    rewrite <- IH by (apply N.Div0.div_lt_upper_bound; lia).
    destruct (decide (0 < x)%N) as [Hp|Hp].
    + rewrite (pretty_N_go_step x s Hp). set (t := String _ s).
      pose proof (pretty_go_length (x / 10) t) as Hl. f_equal. f_equal. simpl in Hl |- *. lia.
    + replace x with 0%N by lia. change (0 / 10)%N with 0%N. rewrite !pretty_N_go_0. simpl String.length.
      rewrite !Nat.sub_diag, !Nat.sub_0_r. symmetry. apply zeros_push.
Qed.

Lemma pad_digits w z : (0 < w)%nat → 0 ≤ z < 10 ^ Z.of_nat w → pad w z = digits w (Z.to_N z) "".
Proof.
  intros Hw [H0 Hz]. unfold pad, str_Z. destruct z as [|p|p]; [|change (pretty (Z.pos p)) with (pretty (N.pos p))|lia].
  - destruct w as [|w]; [lia|]. rewrite <- go_digits by (simpl; lia). simpl. rewrite !Nat.sub_0_r.
    change (pretty 0%Z) with (String "0" ""). by rewrite zeros_push.
  - rewrite <- go_digits by lia. unfold pretty, pretty_N. destruct (decide _); [done|]. simpl String.length.
    by rewrite Nat.sub_0_r.
Qed.

Lemma digits_value_digits w x s acc : digits_value acc (digits w x s) = digits_value (acc * 10 ^ Z.of_nat w + Z.of_N (x mod 10 ^ N.of_nat w)) s.
Proof.
  revert x s acc. induction w as [|w IH]; intros x s acc.
  - simpl. rewrite N.mod_1_r. f_equal. lia.
  - simpl digits. rewrite IH. simpl digits_value. rewrite digit_char by (apply N.mod_lt; lia). simpl. f_equal.
    rewrite Nat2Z.inj_succ, Z.pow_succ_r by lia. rewrite Nat2N.inj_succ, N.pow_succ_r'.
    rewrite N.Div0.mod_mul_r. lia.
Qed.

Lemma digits_shape w x s : String.length (digits w x s) = (w + String.length s)%nat ∧ all_digits (digits w x s) = all_digits s.
Proof.
  revert x s. induction w as [|w IH]; intros x s; simpl; [done|]. destruct (IH (x / 10)%N (String (pretty_N_char (x mod 10)) s)) as [-> ->].
  simpl. unfold is_digit. rewrite digit_char by (apply N.mod_lt; lia). split; [lia|done].
Qed.

(** A padded field has exactly its width, digits only, and reads back. *)
Lemma pad_field w z : (0 < w)%nat → 0 ≤ z < 10 ^ Z.of_nat w →
  String.length (pad w z) = w ∧ all_digits (pad w z) = true ∧ digits_value 0 (pad w z) = Some z.
Proof.
  intros Hw Hz. rewrite pad_digits by done. destruct (digits_shape w (Z.to_N z) "") as [-> ->].
  split_and!; [simpl; lia|done|]. rewrite digits_value_digits. simpl. f_equal.
  rewrite N.mod_small; [lia|]. apply N2Z.inj_lt. rewrite N2Z.inj_pow, Z2N.id, nat_N_Z; lia.
Qed.

(** ** Parsing the fields back *)

#[local] Arguments int_of : simpl never.

Definition number (w : nat) (s : string) (z : Z) : Prop :=
  String.length s = w ∧ all_digits s = true ∧ digits_value 0 s = Some z.

Lemma int_of_number w s z : number w s z → int_of w s = Some z.
Proof. intros (Hl & _ & Hv). unfold int_of. by rewrite Hl, Nat.eqb_refl. Qed.

Lemma digit_eqb a c : is_digit a = true → is_digit c = false → Ascii.eqb a c = false.
Proof. intros Ha Hc. destruct (Ascii.eqb_spec a c) as [->|]; [congruence|done]. Qed.

(** The two characters of a field of width two, and the six of a fraction. *)
Ltac field H :=
  let Hl := fresh in let Hd := fresh in let Hi := fresh in
  pose proof (int_of_number _ _ _ H) as Hi; destruct H as (Hl & Hd & _);
  repeat match type of Hl with
  | String.length ?s = S _ => destruct s as [|? s]; [discriminate Hl|injection Hl as Hl; simpl in Hd; apply andb_true_iff in Hd as [? Hd]]
  | String.length ?s = 0%nat => destruct s; [clear Hl|discriminate Hl]
  end; rename Hi into H.

Ltac digit_tests :=
  repeat match goal with
  | H : is_digit ?a = true |- context [Ascii.eqb ?a ?c] => rewrite (digit_eqb a c H eq_refl)
  end.

Lemma parse_date_fields Y M D y m d :
  number 4 Y y → number 2 M m → number 2 D d → parse_date (Y +:+ "-" +:+ M +:+ "-" +:+ D) = date_ordinal y m d.
Proof.
  intros HY HM HD. field HY. field HM. field HD. unfold parse_date, slice, char_at, is_char. simpl in *. digit_tests.
  simpl. rewrite HY. simpl. rewrite HM. simpl. by rewrite HD.
Qed.

(** The text of a time of day with an optional fraction. *)
Definition clock (h m s fraction : string) : string := h +:+ ":" +:+ m +:+ ":" +:+ s +:+ fraction.

Definition fraction_text (text : string) (us : Z) : Prop :=
  text = "" ∧ us = 0 ∨ ∃ f, text = "." +:+ f ∧ number 6 f us.

Lemma parse_clock H M S f h m s us :
  number 2 H h → number 2 M m → number 2 S s → fraction_text f us → parse_time (clock H M S f) = Some (h, m, s, us).
Proof.
  intros HH HM HS Hf. field HH. field HM. field HS. unfold parse_time, clock. simpl in *. digit_tests. simpl.
  rewrite HH. simpl. rewrite HM. simpl. rewrite HS. simpl.
  destruct Hf as [[-> ->]|(t & -> & Ht)]; [done|]. field Ht. simpl in *. unfold slice. simpl. rewrite Ht. simpl.
  repeat match goal with E : is_digit _ = true |- _ => rewrite E end. simpl. by rewrite Z.mul_1_r.
Qed.

Lemma find_char_app c s t : find_char c s = None → find_char c (s +:+ t) = (λ n, (String.length s + n)%nat) <$> find_char c t.
Proof.
  induction s as [|d s IH]; simpl; [intros _; change ("" +:+ t) with t; by destruct (find_char c t)|]. destruct (Ascii.eqb d c); [done|].
  destruct (find_char c s); [done|]. intros _. rewrite IH by done. by destruct (find_char c t).
Qed.

Lemma find_char_number c w s z : number w s z → is_digit c = false → find_char c s = None.
Proof.
  intros (_ & Hd & _) Hc. induction s as [|d s IH]; [done|]. simpl in *. apply andb_true_iff in Hd as [Hd Hs].
  by rewrite (digit_eqb d c Hd Hc), IH.
Qed.

Lemma find_char_clock c H M S f h m s us :
  number 2 H h → number 2 M m → number 2 S s → fraction_text f us → is_digit c = false → Ascii.eqb ":" c = false →
  Ascii.eqb "." c = false → find_char c (clock H M S f) = None.
Proof.
  intros HH HM HS Hf Hc E1 E2. unfold clock.
  rewrite find_char_app, (find_char_app c ":") by (by apply (find_char_number c 2 H h) || by cbn [find_char]; rewrite E1).
  rewrite find_char_app, (find_char_app c ":") by (by apply (find_char_number c 2 M m) || by cbn [find_char]; rewrite E1).
  rewrite find_char_app by by apply (find_char_number c 2 S s).
  destruct Hf as [[-> _]|(t & -> & Ht)]; [done|]. rewrite find_char_app by (by cbn [find_char]; rewrite E2).
  by rewrite (find_char_number c 6 t us).
Qed.

Lemma substring_app s t : String.substring 0 (String.length s) (s +:+ t) = s.
Proof. induction s as [|c s IH]; simpl; [by destruct t|by rewrite IH]. Qed.

Lemma substring_app_r s t n : String.substring (String.length s) n (s +:+ t) = String.substring 0 n t.
Proof. induction s as [|c s IH]; simpl; [done|by rewrite IH]. Qed.

Lemma length_append s t : String.length (s +:+ t) = (String.length s + String.length t)%nat.
Proof. induction s as [|c s IH]; simpl; [done|by rewrite IH]. Qed.

Lemma get_app_r s t : String.get (String.length s) (s +:+ t) = String.get 0 t.
Proof. induction s as [|c s IH]; simpl; [done|by rewrite IH]. Qed.

Lemma substring_all s : String.substring 0 (String.length s) s = s.
Proof. induction s as [|c s IH]; simpl; [done|by rewrite IH]. Qed.

Lemma append_assoc (s t u : string) : (s +:+ t) +:+ u = s +:+ (t +:+ u).
Proof.
  induction s as [|c s IH]; [done|]. change (String c ((s +:+ t) +:+ u) = String c (s +:+ t +:+ u)). by rewrite IH.
Qed.

Lemma slice_prefix s t n : String.length s = n → slice (s +:+ t) 0 n = s.
Proof. intros <-. unfold slice. rewrite Nat.sub_0_r. apply substring_app. Qed.

Lemma slice_suffix s t n : String.length s = n → slice (s +:+ t) n (String.length (s +:+ t)) = t.
Proof.
  intros <-. unfold slice. rewrite length_append, Nat.add_comm, Nat.add_sub, substring_app_r. apply substring_all.
Qed.

(** A time of day in UTC. *)
Lemma parse_day_time_utc H M S f h m s us :
  number 2 H h → number 2 M m → number 2 S s → fraction_text f us → h ≤ 23 → m ≤ 59 → s ≤ 59 →
  parse_day_time (clock H M S f +:+ "+00:00") = Some (time_us (h, m, s, us), Some 0).
Proof.
  intros HH HM HS Hf Hh Hm Hs. unfold parse_day_time.
  pose proof (find_char_clock "-" _ _ _ _ _ _ _ _ HH HM HS Hf eq_refl eq_refl eq_refl) as E1.
  pose proof (find_char_clock "+" _ _ _ _ _ _ _ _ HH HM HS Hf eq_refl eq_refl eq_refl) as E2.
  pose proof (parse_clock _ _ _ _ _ _ _ _ HH HM HS Hf) as E3.
  set (c := clock H M S f) in *. clearbody c.
  rewrite (find_char_app "-" c _ E1), (find_char_app "+" c _ E2). simpl. rewrite Nat.add_0_r.
  rewrite slice_prefix, E3 by done. simpl.
  replace (c +:+ "+00:00") with ((c +:+ "+") +:+ "00:00") by apply append_assoc.
  rewrite (slice_suffix (c +:+ "+") "00:00" (String.length c + 1)) by (by rewrite length_append).
  unfold char_at. rewrite append_assoc, get_app_r. simpl.
  by rewrite (proj2 (Z.leb_le h 23) Hh), (proj2 (Z.leb_le m 59) Hm), (proj2 (Z.leb_le s 59) Hs).
Qed.

(** A date and a time of day in UTC. *)
Lemma fromisoformat_utc Y M D c y m d o t :
  number 4 Y y → number 2 M m → number 2 D d → date_ordinal y m d = Some o →
  parse_day_time (c +:+ "+00:00") = Some (t, Some 0) →
  fromisoformat ((Y +:+ "-" +:+ M +:+ "-" +:+ D) +:+ "T" +:+ c +:+ "+00:00")
  = Some (Datetime ((o - EPOCH_ORDINAL) * US_PER_DAY + t) (Some 0)).
Proof.
  intros HY HM HD Ho Ht. set (date := Y +:+ "-" +:+ M +:+ "-" +:+ D).
  assert (Hp : parse_date date = Some o) by (subst date; by rewrite (parse_date_fields Y M D y m d)).
  assert (Hd : String.length date = 10%nat ∧ is_char (char_at date 4) "-" = true ∧ is_char (char_at date 5) "W" = false).
  { subst date. field HY. field HM. field HD. split_and!; try done. unfold is_char, char_at. simpl. digit_tests. done. }
  destruct Hd as (Hl & H4 & H5). clearbody date. set (rest := c +:+ "+00:00") in *.
  assert (Hget : ∀ i, (i < 10)%nat → char_at (date +:+ "T" +:+ rest) i = char_at date i).
  { intros i Hi. unfold char_at. rewrite <- Hl in Hi. clear -Hi. revert i Hi.
    induction date as [|x date IH]; intros i Hi; simpl in Hi; [lia|]. destruct i as [|i]; [done|]. simpl. apply IH. lia. }
  unfold fromisoformat. assert (Hlen : (10 < String.length (date +:+ "T" +:+ rest))%nat)
    by (rewrite length_append, Hl; simpl; lia).
  destruct (Nat.ltb_spec (String.length (date +:+ "T" +:+ rest)) 7); [lia|].
  assert (Hsep : find_separator (date +:+ "T" +:+ rest) = Some 10%nat).
  { unfold find_separator. destruct (Nat.eqb_spec (String.length (date +:+ "T" +:+ rest)) 7); [lia|].
    rewrite !Hget by lia. by rewrite H4, H5. }
  rewrite Hsep. cbn [mbind option_bind]. rewrite slice_prefix, Hp by done. cbn [mbind option_bind].
  replace (date +:+ "T" +:+ rest) with ((date +:+ "T") +:+ rest) by apply append_assoc.
  rewrite (slice_suffix (date +:+ "T") rest (10 + 1)) by (by rewrite length_append, Hl).
  assert (Hne : ∃ x r, rest = String x r) by (subst rest; destruct c; simpl; eauto).
  destruct Hne as (x & r & E). rewrite E in *. rewrite Ht. cbn. do 2 f_equal. lia.
Qed.

(** ** The round trip *)

Definition MIN_DATETIME_US : Z := -719162 * US_PER_DAY.
Definition MAX_DATETIME_US : Z := 2932897 * US_PER_DAY - 1.

(** A UTC datetime between the years 1 and 9999. *)
Definition valid_datetime (d : datetime) : Prop := dt_offset d = Some 0 ∧ MIN_DATETIME_US ≤ dt_us d ≤ MAX_DATETIME_US.

Lemma isoformat_text d : valid_datetime d → ∃ text,
  isoformat_utc d = text +:+ "Z" ∧ fromisoformat (text +:+ "+00:00") = Some d.
Proof.
  destruct d as [us o]. intros [Eo Hr]. simpl in Eo, Hr. subst o. unfold isoformat_utc. simpl dt_us.
  destruct (delta_parts us) as (Hus & Hsec & Hmic).
  set (days := delta_days us) in *. set (sec := delta_seconds us) in *. set (mic := delta_microseconds us) in *.
  assert (Hdays : -719162 ≤ days ≤ 2932896)
    by (unfold MIN_DATETIME_US, MAX_DATETIME_US, US_PER_DAY, US_PER_SECOND in *; lia).
  pose proof (civil_ordinal days Hdays) as Hc. destruct (civil_from_days days) as [[y m] d]. destruct Hc as (Ho & Hy & Hm & Hd).
  set (H := pad 2 (sec `div` 3600)). set (Mi := pad 2 ((sec `div` 60) `mod` 60)). set (S := pad 2 (sec `mod` 60)).
  set (F := if mic =? 0 then "" else "." +:+ pad 6 mic).
  exists ((pad 4 y +:+ "-" +:+ pad 2 m +:+ "-" +:+ pad 2 d) +:+ "T" +:+ clock H Mi S F). split.
  { unfold clock. rewrite !append_assoc. done. }
  rewrite append_assoc, (append_assoc "T").
  assert (Hf : fraction_text F mic).
  { subst F. destruct (Z.eqb_spec mic 0) as [->|]; [by left|right]. eexists. split; [done|]. apply pad_field; [lia|].
    unfold US_PER_SECOND in Hmic. simpl. lia. }
  rewrite (fromisoformat_utc (pad 4 y) (pad 2 m) (pad 2 d) (clock H Mi S F) y m d (days + EPOCH_ORDINAL)
    (time_us (sec `div` 3600, (sec `div` 60) `mod` 60, sec `mod` 60, mic))); [|apply pad_field; simpl; lia..|done|].
  - f_equal. f_equal. unfold time_us, US_PER_DAY, US_PER_SECOND in *. Z.to_euclidean_division_equations; lia.
  - unfold US_PER_SECOND in *. apply parse_day_time_utc; try done; try apply pad_field; simpl; Z.to_euclidean_division_equations; lia.
Qed.
