(* ===== verification/Decimal.v ===== *)
(** * Decimal arithmetic

    What the pricing code uses of Python's [decimal]: values, comparison with
    zero, multiplication and division by an integer under the default context
    (28 digits, round half even, exponents within 999999, traps for invalid
    operations, divisions by zero and overflow), rounding to an integer,
    [str], and what the mode contract uses: reading a text and comparing. *)

From Stdlib Require Import Ascii.
From S2P Require Import Prelude PyValue IsoFormat.
Local Open Scope Z_scope.

(** ** Values *)

Inductive decimal :=
  | Finite (negative : bool) (coefficient exponent : Z)
  | Infinite (negative : bool)
  | NaN (negative signaling : bool) (payload : Z).

#[export] Instance decimal_eq_dec : EqDecision decimal.
Proof. solve_decision. Defined.

Definition is_finite (d : decimal) : bool := match d with Finite _ _ _ => true | _ => false end.

(** [d > 0] *)
Definition positive (d : decimal) : res bool :=
  match d with
  | Finite negative c _ => Ok (negb negative && (0 <? c))
  | Infinite negative => Ok (negb negative)
  | NaN _ _ _ => Err InvalidOperation
  end.

(** ** The default context *)

Definition PRECISION : Z := 28.
Definition EMAX : Z := 999999.
(** [Emin - prec + 1], the least exponent of a subnormal *)
Definition ETINY : Z := - EMAX - PRECISION + 1.

(** The number of decimal digits of a coefficient. *)
Fixpoint digits_upto (fuel : nat) (n : Z) : Z :=
  match fuel with
  | O => 0
  | S fuel => if n <=? 0 then 0 else 1 + digits_upto fuel (n `div` 10)
  end.
Definition digits (n : Z) : Z := digits_upto (S (Z.to_nat (Z.log2 n))) n.

(** [n / unit], rounded half to even. *)
Definition half_even (n unit : Z) : Z :=
  let q := n `div` unit in
  let r := n `mod` unit in
  if unit <? 2 * r then q + 1
  else if 2 * r <? unit then q
  else if Z.even q then q else q + 1.

(** [_fix]: round to the precision and the exponent range. *)
Definition fix_decimal (negative : bool) (c e : Z) : res decimal :=
  if c =? 0 then Ok (Finite negative 0 (Z.max ETINY (Z.min e EMAX)))
  else
    let drop := Z.max 0 (Z.max (digits c - PRECISION) (ETINY - e)) in
    let c' := if drop =? 0 then c else half_even c (10 ^ drop) in
    let '(c', e') := if c' =? 10 ^ PRECISION then (c' `div` 10, e + drop + 1) else (c', e + drop) in
    if EMAX <? digits c' + e' - 1 then Err DecimalOverflow else Ok (Finite negative c' e').

(** A NaN operand: quiet it, or refuse a signaling one. *)
Definition propagate (negative signaling : bool) (payload : Z) : res decimal :=
  if signaling then Err InvalidOperation else Ok (NaN negative false payload).

(** [d * n] for an integer [n] *)
Definition times (d : decimal) (n : Z) : res decimal :=
  match d with
  | Finite negative c e => fix_decimal (xorb negative (n <? 0)) (c * Z.abs n) e
  | Infinite negative => if n =? 0 then Err InvalidOperation else Ok (Infinite (xorb negative (n <? 0)))
  | NaN negative signaling payload => propagate negative signaling payload
  end.

(** The quotient to one digit more than the precision; a remainder is kept as
    a last digit that is not 0 or 5. *)
Definition long_division (c n : Z) : Z * Z :=
  let shift := digits n - digits c + PRECISION + 1 in
  let numerator := if 0 <=? shift then c * 10 ^ shift else c in
  let denominator := if 0 <=? shift then n else n * 10 ^ (- shift) in
  let q := numerator `div` denominator in
  (if (numerator `mod` denominator =? 0) || negb (q `mod` 5 =? 0) then q else q + 1, - shift).

(** [d / n] for an integer [n], as a value: among equal representations of an
    exact quotient Python picks one by its exponent, which nothing here
    observes. *)
Definition divided (d : decimal) (n : Z) : res decimal :=
  match d with
  | Finite negative c e =>
      if n =? 0 then Err (if c =? 0 then InvalidOperation else DivisionByZero)
      else
        let negative := xorb negative (n <? 0) in
        if c =? 0 then fix_decimal negative 0 e
        else let '(q, shift) := long_division c (Z.abs n) in fix_decimal negative q (e + shift)
  | Infinite negative => Ok (Infinite (xorb negative (n <? 0)))
  | NaN negative signaling payload => propagate negative signaling payload
  end.

(** The fraction [c * up e / down e] is the value of a finite decimal. *)
Definition up (e : Z) : Z := 10 ^ Z.max 0 e.
Definition down (e : Z) : Z := 10 ^ Z.max 0 (- e).
Definition signed (negative : bool) (c : Z) : Z := if negative then - c else c.

(** [int(d.to_integral_value(rounding=...))] *)
Definition to_integer (round : Z → Z → Z) (d : decimal) : res Z :=
  match d with
  | Finite negative c e => Ok (round (signed negative c * up e) (down e))
  | Infinite _ => Err OverflowError
  | NaN _ signaling _ => Err (if signaling then InvalidOperation else ValueError "cannot convert NaN to integer")
  end.

Definition integer_floor : decimal → res Z := to_integer Z.div.
Definition integer_ceiling : decimal → res Z := to_integer ceil_div.

(** ** [str] *)

Definition sign_text (negative : bool) : string := if negative then "-" else "".

Definition decimal_str (d : decimal) : string :=
  match d with
  | Infinite negative => sign_text negative +:+ "Infinity"
  | NaN negative signaling payload =>
      sign_text negative +:+ (if signaling then "sNaN" else "NaN") +:+ (if payload =? 0 then "" else str_Z payload)
  | Finite negative c e =>
      let ds := str_Z c in
      let n := Z.of_nat (String.length ds) in
      let left := e + n in
      let dot := if (e <=? 0) && (-6 <? left) then left else 1 in
      let body :=
        if dot <=? 0 then "0." +:+ zeros (Z.to_nat (- dot)) +:+ ds
        else if n <=? dot then ds +:+ zeros (Z.to_nat (dot - n))
        else slice ds 0 (Z.to_nat dot) +:+ "." +:+ slice ds (Z.to_nat dot) (String.length ds) in
      let power :=
        if left =? dot then "" else "E" +:+ (if 0 <=? left - dot then "+" else "") +:+ str_Z (left - dot) in
      sign_text negative +:+ body +:+ power
  end.

(** ** [Decimal(text)]

    The grammar of the library on ASCII text: blanks around and underscores
    anywhere are ignored; a number has digits with at most one point and an
    optional exponent.  [None] is [InvalidOperation], which the library also
    raises for exponents beyond 10^18, not bounded here. *)

Fixpoint lstrip (s : string) : string :=
  match s with String c s' => if is_space c then lstrip s' else s | EmptyString => s end.
Fixpoint without (c : Ascii.ascii) (s : string) : string :=
  match s with
  | String d s => if Ascii.eqb d c then without c s else String d (without c s)
  | EmptyString => EmptyString
  end.
Fixpoint rstrip (s : string) : string :=
  match s with
  | String c s => let r := rstrip s in if is_space c && (r =? "")%string then "" else String c r
  | EmptyString => EmptyString
  end.
Definition strip (s : string) : string := rstrip (lstrip s).
Definition lower_char (c : Ascii.ascii) : Ascii.ascii :=
  let n := Z.of_N (Ascii.N_of_ascii c) in
  if (65 <=? n) && (n <=? 90) then Ascii.ascii_of_N (Z.to_N (n + 32)) else c.
Fixpoint lower (s : string) : string :=
  match s with String c s => String (lower_char c) (lower s) | EmptyString => EmptyString end.

(** The digits that start [s], and the rest. *)
Definition span_digits (s : string) : string * string :=
  (slice s 0 (digit_run s), slice s (digit_run s) (String.length s)).

(** An optional sign, and the rest. *)
Definition take_sign (s : string) : bool * string :=
  match s with
  | String c s' => if Ascii.eqb c "-" then (true, s') else if Ascii.eqb c "+" then (false, s') else (false, s)
  | EmptyString => (false, s)
  end.

(** The exponent part: nothing, or [e], a sign and digits. *)
Definition exponent_of (s : string) : option Z :=
  match s with
  | EmptyString => Some 0
  | String c s =>
      if negb (Ascii.eqb (lower_char c) "e") then None
      else let '(negative, ds) := take_sign s in
           if (ds =? "")%string then None else signed negative <$> digits_value 0 ds
  end.

Definition finite_of (negative : bool) (s : string) : option decimal :=
  let '(whole, rest) := span_digits s in
  let '(fraction, rest) := match rest with
                           | String c r => if Ascii.eqb c "." then span_digits r else ("", rest)
                           | EmptyString => ("", rest)
                           end in
  if (whole +:+ fraction =? "")%string then None
  else
    c ← digits_value 0 (whole +:+ fraction);
    e ← exponent_of rest;
    Some (Finite negative c (e - Z.of_nat (String.length fraction))).

Definition decimal_of_string (text : string) : option decimal :=
  let '(negative, s) := take_sign (without "_" (strip text)) in
  let special := lower s in
  if (special =? "inf")%string || (special =? "infinity")%string then Some (Infinite negative)
  else if (slice special 0 3 =? "nan")%string then NaN negative false <$> digits_value 0 (slice special 3 (String.length special))
  else if (slice special 0 4 =? "snan")%string then NaN negative true <$> digits_value 0 (slice special 4 (String.length special))
  else finite_of negative s.

(** [a < b] of finite values, exact *)
Definition finite_ltb (a b : decimal) : bool :=
  match a, b with
  | Finite na ca ea, Finite nb cb eb =>
      let e := Z.min ea eb in signed na ca * 10 ^ (ea - e) <? signed nb cb * 10 ^ (eb - e)
  | _, _ => false
  end.

Example decimal_texts :
  (decimal_of_string <$> ["1.00"; " -0_5.e+2 "; ".5E-3"; "sNaN12"; "-Inf"; "."; "1e"; "1.2.3"]) =
  [Some (Finite false 100 (-2)); Some (Finite true 5 2); Some (Finite false 5 (-4)); Some (NaN false true 12);
   Some (Infinite true); None; None; None].
Proof. vm_compute. reflexivity. Qed.
