(* ===== verification/DecimalCorrect.v ===== *)
(** * When decimal arithmetic is exact

    The default context keeps 28 digits.  A product of fewer digits is exact,
    and the floor of a rounded quotient is the floor of the quotient when
    numerator and denominator have fewer than 28 digits.  The text of a finite
    value reads back as that value. *)

From Stdlib Require Import Ascii.
From S2P Require Import Prelude PyValue IsoFormat IsoFormatCorrect Decimal.
Local Open Scope Z_scope.

(** ** Digits *)

Lemma digits_upto_spec fuel n :
  0 < n < 2 ^ Z.of_nat fuel → 1 ≤ digits_upto fuel n ∧ 10 ^ (digits_upto fuel n - 1) ≤ n < 10 ^ digits_upto fuel n.
Proof.
  revert n; induction fuel as [|fuel IH]; intros n Hn; [simpl in Hn; lia|].
  rewrite Nat2Z.inj_succ, Z.pow_succ_r in Hn by lia. cbn [digits_upto].
  destruct (Z.leb_spec n 0); [lia|].
  pose proof (Z.div_mod n 10 ltac:(lia)). pose proof (Z.mod_pos_bound n 10 ltac:(lia)).
  destruct (decide (n < 10)) as [Hs|Hs].
  - rewrite Z.div_small by lia.
    replace (digits_upto fuel 0) with 0 by (destruct fuel; reflexivity). simpl. lia.
  - destruct (IH (n `div` 10)) as [Hd1 Hd2]; [split; [apply Z.div_str_pos; lia|lia]|].
    set (d := digits_upto fuel (n `div` 10)) in *.
    replace (1 + d - 1) with (Z.succ (d - 1)) by lia. replace (1 + d) with (Z.succ d) by lia.
    rewrite !Z.pow_succ_r by lia. lia.
Qed.

Lemma digits_spec n : 0 < n → 1 ≤ digits n ∧ 10 ^ (digits n - 1) ≤ n < 10 ^ digits n.
Proof.
  intros Hn. apply digits_upto_spec. split; [done|].
  rewrite Nat2Z.inj_succ, Z2Nat.id by apply Z.log2_nonneg. by apply Z.log2_spec.
Qed.

Lemma digits_lt n k : 0 < n → n < 10 ^ k → digits n ≤ k.
Proof.
  intros Hn Hk. destruct (digits_spec n Hn) as [? [Hl _]].
  assert (digits n - 1 < k); [|lia]. apply (Z.pow_lt_mono_r_iff 10); try lia.
  destruct (Z.le_gt_cases 0 k); [done|]. rewrite Z.pow_neg_r in Hk by done. lia.
Qed.

Lemma digits_ge n k : 0 ≤ k → 10 ^ k ≤ n → k < digits n.
Proof.
  intros Hk Hn. assert (0 < 10 ^ k) by (apply Z.pow_pos_nonneg; lia).
  destruct (digits_spec n ltac:(lia)) as [? [_ Hu]]. apply (Z.pow_lt_mono_r_iff 10); lia.
Qed.

(** ** Rounding *)

Lemma half_even_bound n unit :
  0 < unit → n `div` unit ≤ half_even n unit ∧ Z.abs (2 * (half_even n unit * unit - n)) ≤ unit.
Proof.
  intros Hu. pose proof (Z.div_mod n unit ltac:(lia)). pose proof (Z.mod_pos_bound n unit Hu).
  unfold half_even. set (q := n `div` unit) in *. set (r := n `mod` unit) in *.
  destruct (Z.ltb_spec unit (2 * r)); [nia|]. destruct (Z.ltb_spec (2 * r) unit); [nia|].
  destruct (Z.even q); nia.
Qed.

Lemma fix_exact negative c e :
  0 < c < 10 ^ PRECISION → ETINY ≤ e → e + PRECISION ≤ EMAX → fix_decimal negative c e = Ok (Finite negative c e).
Proof.
  intros Hc Hlo Hhi. unfold fix_decimal.
  pose proof (digits_lt c PRECISION ltac:(lia) ltac:(lia)) as Hd.
  destruct (Z.eqb_spec c 0); [lia|].
  replace (Z.max 0 (Z.max (digits c - PRECISION) (ETINY - e))) with 0 by lia. simpl.
  destruct (Z.eqb_spec c (10 ^ PRECISION)); [lia|]. rewrite Z.add_0_r.
  destruct (Z.ltb_spec EMAX (digits c + e - 1)); [lia|done].
Qed.

(** ** Fractions *)

Lemma up_pos e : 0 < up e.
Proof. apply Z.pow_pos_nonneg; lia. Qed.
Lemma down_pos e : 0 < down e.
Proof. apply Z.pow_pos_nonneg; lia. Qed.

(** Moving the point [m] places. *)
Lemma shift_point e m : 0 ≤ m → up (e - m) * down e * 10 ^ m = up e * down (e - m).
Proof.
  intros Hm. unfold up, down. rewrite <- !Z.pow_add_r by lia. f_equal. lia.
Qed.

Lemma up_le e m : 0 ≤ m → e - m ≤ 0 → up (e - m) = 1.
Proof. intros. unfold up. replace (Z.max 0 (e - m)) with 0 by lia. done. Qed.

Lemma times_exact c e n :
  0 < c → 0 < n → c * n < 10 ^ PRECISION → ETINY ≤ e → e + PRECISION ≤ EMAX →
  times (Finite false c e) n = Ok (Finite false (c * n) e).
Proof.
  intros. unfold times. rewrite Z.abs_eq by lia. destruct (Z.ltb_spec n 0); [lia|]. simpl.
  apply fix_exact; nia.
Qed.

(** ** The floor of a quotient *)

(** [h] is close to [C * P / n]: the error is less than a unit, and less than
    what separates [C * U / (n * D)] from the next integer. *)
Section close.
Context (C n U D P h big : Z).
Context (HC : 0 < C) (Hn : 0 < n) (HU : 0 < U) (HD : 0 < D) (HP : 0 < P) (Hbig : 1 < big) (Hh : big ≤ h).
Context (Herr : 10 * Z.abs (h * n - C * P) ≤ 6 * n) (Hfit : C * U + n * D ≤ big).

Lemma close_error : 6 * n * U < 10 * P.
Proof.
  assert (E1 : 10 * (h * n) ≤ 10 * (C * P) + 6 * n) by lia.
  pose proof (Z.mul_le_mono_nonneg_r _ _ n ltac:(lia) Hh) as E2.
  assert (E3 : 10 * (big * n) ≤ 10 * (C * P) + 6 * n) by lia.
  apply (Z.mul_le_mono_nonneg_r _ _ U) in E3; [|lia].
  assert (E4 : C * U ≤ big - 1) by (pose proof (Z.mul_pos_pos n D Hn HD); lia).
  apply (Z.mul_le_mono_nonneg_r _ _ P) in E4; [|lia].
  destruct (Z.lt_ge_cases (6 * n * U) (10 * P)) as [?|E5]; [done|].
  apply (Z.mul_le_mono_nonneg_r _ _ (big - 1)) in E5; [|lia].
  pose proof (Z.mul_pos_pos _ _ (Z.mul_pos_pos n U Hn HU) (Z.lt_trans 0 1 big ltac:(lia) Hbig)). lia.
Qed.

Lemma close_high k : C * U < (k + 1) * (n * D) → h * U < (k + 1) * P * D.
Proof.
  intros Hk. pose proof close_error as E0.
  assert (E1 : 10 * (h * n) ≤ 10 * (C * P) + 6 * n) by lia.
  apply (Z.mul_le_mono_nonneg_r _ _ U) in E1; [|lia].
  assert (E2 : C * U ≤ (k + 1) * (n * D) - 1) by lia. apply (Z.mul_le_mono_nonneg_r _ _ P) in E2; [|lia].
  apply (Z.mul_lt_mono_pos_l n); [done|]. lia.
Qed.

Lemma close_low k W : k * (n * W) * U ≤ C * P * U → k * W * U ≤ h * U.
Proof.
  intros Hk%Z.mul_le_mono_pos_r; [|done]. apply Z.mul_le_mono_nonneg_r; [lia|].
  destruct (Z.le_gt_cases (k * W) h) as [?|E]; [done|].
  assert (E1 : h + 1 ≤ k * W) by lia. apply (Z.mul_le_mono_nonneg_r _ _ n) in E1; lia.
Qed.
End close.

(** A number [h] with at least 28 digits that is close to [C * 10^m / n] has the
    floor of [C / n] once the point is moved back. *)
Lemma floor_of_close C n e m h :
  0 < C → 0 < n → 0 ≤ m → 10 ^ 27 ≤ h → 10 * Z.abs (h * n - C * 10 ^ m) ≤ 6 * n →
  C * up e + n * down e ≤ 10 ^ 27 →
  (h * up (e - m)) `div` down (e - m) = (C * up e) `div` (n * down e).
Proof.
  intros HC Hn Hm Hh Herr Hfit.
  pose proof (up_pos e) as Hup. pose proof (down_pos e) as Hdown.
  pose proof (up_pos (e - m)) as Hup'. pose proof (down_pos (e - m)) as Hdown'.
  assert (Hp : 0 < 10 ^ m) by (apply Z.pow_pos_nonneg; lia).
  pose proof (Z.mul_pos_pos _ _ Hn Hdown) as HnD.
  pose proof (Z.div_mod (C * up e) (n * down e) ltac:(lia)) as Hdm.
  pose proof (Z.mod_pos_bound (C * up e) (n * down e) HnD) as Hmod.
  set (k := (C * up e) `div` (n * down e)) in *.
  assert (Hhigh : h * up e < (k + 1) * 10 ^ m * down e).
  { apply (close_high C n (up e) (down e) (10 ^ m) h (10 ^ 27)); lia. }
  assert (Hlow : k * 10 ^ m * down e ≤ h * up e).
  { assert (Hk : k * (n * down e) ≤ C * up e) by lia.
    destruct (decide (e ≤ 0)) as [He|He].
    - assert (HU : up e = 1) by (unfold up; replace (Z.max 0 e) with 0 by lia; done). rewrite HU in *.
      apply (Z.mul_le_mono_nonneg_r _ _ (10 ^ m)) in Hk; [|lia].
      pose proof (close_low C n 1 (10 ^ m) h ltac:(lia) ltac:(lia) Herr k (10 ^ m * down e)). lia.
    - (* the point is moved past every digit, or the number would be too large *)
      assert (HD : down e = 1) by (unfold down; replace (Z.max 0 (- e)) with 0 by lia; done). rewrite HD in *.
      destruct (decide (e ≤ m)) as [Hem|Hem].
      + assert (HP : 10 ^ m = 10 ^ (m - e) * up e).
        { unfold up. rewrite <- Z.pow_add_r by lia. f_equal. lia. }
        assert (0 < 10 ^ (m - e)) by (apply Z.pow_pos_nonneg; lia).
        apply (Z.mul_le_mono_nonneg_r _ _ (10 ^ (m - e) * up e)) in Hk; [|lia].
        pose proof (close_low C n (up e) (10 ^ m) h ltac:(lia) ltac:(lia) Herr k (10 ^ (m - e))) as Hc.
        rewrite HP in *. lia.
      + assert (10 * 10 ^ m ≤ up e).
        { unfold up. rewrite <- Z.pow_succ_r by lia. apply Z.pow_le_mono_r; lia. }
        pose proof (close_error C n (up e) 1 (10 ^ m) h (10 ^ 27) Hn Hup ltac:(lia) ltac:(lia) ltac:(lia) Hh Herr Hfit) as E.
        assert (1 * up e ≤ n * up e) by (apply Z.mul_le_mono_nonneg_r; lia). lia. }
  pose proof (shift_point e m Hm) as Hsh.
  assert (HPD : 0 < 10 ^ m * down e) by (by apply Z.mul_pos_pos).
  assert (Hfact : h * up (e - m) * (10 ^ m * down e) = h * up e * down (e - m)).
  { transitivity (h * (up (e - m) * down e * 10 ^ m)); [ring|]. rewrite Hsh. ring. }
  symmetry. apply (Z.div_unique _ _ _ (h * up (e - m) - k * down (e - m))); [|lia]. left.
  apply (Z.mul_le_mono_nonneg_r _ _ (down (e - m))) in Hlow; [|lia].
  apply (Z.mul_lt_mono_pos_r (down (e - m))) in Hhigh; [|done].
  split.
  - assert (k * down (e - m) ≤ h * up (e - m)); [|lia]. apply (Z.mul_le_mono_pos_r _ _ (10 ^ m * down e)); lia.
  - assert (h * up (e - m) < (k + 1) * down (e - m)); [|lia]. apply (Z.mul_lt_mono_pos_r (10 ^ m * down e)); lia.
Qed.

(** ** Division *)

Lemma long_division_spec C n :
  0 < C < 10 ^ 27 → 0 < n ≤ 10 ^ 27 →
  ∃ shift q, long_division C n = (q, - shift) ∧ 3 ≤ shift ≤ 56 ∧ 10 ^ 28 ≤ q ≤ 10 ^ 30 ∧
    Z.abs (q * n - C * 10 ^ shift) ≤ n.
Proof.
  intros HC Hn. unfold long_division.
  destruct (digits_spec C ltac:(lia)) as [Hc1 [Hc2 Hc3]]. destruct (digits_spec n ltac:(lia)) as [Hn1 [Hn2 Hn3]].
  pose proof (digits_lt C 27 ltac:(lia) ltac:(lia)) as Hc4.
  pose proof (digits_lt n 28 ltac:(lia) ltac:(lia)) as Hn4.
  set (shift := digits n - digits C + PRECISION + 1). assert (Hs : 3 ≤ shift ≤ 56) by (unfold shift, PRECISION; lia).
  destruct (Z.leb_spec 0 shift); [|lia].
  set (N := C * 10 ^ shift). assert (Hps : 0 < 10 ^ shift) by (apply Z.pow_pos_nonneg; lia).
  assert (Hlow : 10 ^ 28 * n ≤ N).
  { assert (E : 10 ^ (digits C - 1) * 10 ^ shift = 10 ^ 28 * 10 ^ digits n).
    { rewrite <- !Z.pow_add_r by lia. f_equal. unfold shift, PRECISION. lia. }
    apply (Z.mul_le_mono_nonneg_r _ _ (10 ^ shift)) in Hc2; lia. }
  assert (Hhigh : N < 10 ^ 30 * n).
  { assert (E : 10 ^ digits C * 10 ^ shift = 10 ^ 30 * 10 ^ (digits n - 1)).
    { rewrite <- !Z.pow_add_r by lia. f_equal. unfold shift, PRECISION. lia. }
    apply (Z.mul_lt_mono_pos_r (10 ^ shift)) in Hc3; lia. }
  pose proof (Z.div_mod N n ltac:(lia)) as Hdm. pose proof (Z.mod_pos_bound N n ltac:(lia)) as Hmod.
  assert (10 ^ 28 ≤ N `div` n) by (apply Z.div_le_lower_bound; lia).
  assert (N `div` n < 10 ^ 30) by (apply Z.div_lt_upper_bound; lia).
  eexists shift, _. split; [reflexivity|].
  destruct (_ || _); split_and!; lia.
Qed.

Lemma floor_carry c e : (c * 10 * up e) `div` down e = (c * up (e + 1)) `div` down (e + 1).
Proof.
  unfold up, down. destruct (Z.leb_spec 0 e).
  - replace (Z.max 0 (- e)) with 0 by lia. replace (Z.max 0 (- (e + 1))) with 0 by lia.
    replace (Z.max 0 (e + 1)) with (Z.succ (Z.max 0 e)) by lia. rewrite Z.pow_succ_r by lia. f_equal. ring.
  - replace (Z.max 0 e) with 0 by lia. replace (Z.max 0 (e + 1)) with 0 by lia.
    replace (Z.max 0 (- e)) with (Z.succ (Z.max 0 (- (e + 1)))) by lia. rewrite Z.pow_succ_r by lia.
    rewrite !Z.mul_1_r, (Z.mul_comm c 10). apply Z.div_mul_cancel_l; [|lia].
    apply Z.pow_nonzero; lia.
Qed.

Lemma divided_floor C n e :
  0 < C → 0 < n → C * up e + n * down e ≤ 10 ^ 27 → -900000 ≤ e ≤ 900000 →
  (d ← divided (Finite false C e) n; integer_floor d) = Ok ((C * up e) `div` (n * down e)).
Proof.
  intros HC Hn Hfit He. pose proof (up_pos e). pose proof (down_pos e).
  assert (C * 1 ≤ C * up e) by (apply Z.mul_le_mono_nonneg_l; lia).
  assert (n * 1 ≤ n * down e) by (apply Z.mul_le_mono_nonneg_l; lia).
  destruct (long_division_spec C n) as (shift & q & Hdiv & Hshift & Hq & Herr); [lia..|].
  cbn [divided]. rewrite (Z.abs_eq n), Hdiv by lia.
  destruct (Z.eqb_spec n 0); [lia|]. destruct (Z.eqb_spec C 0); [lia|].
  destruct (Z.ltb_spec n 0); [lia|]. cbn [xorb]. unfold fix_decimal.
  destruct (Z.eqb_spec q 0); [lia|].
  assert (Hd1 : 28 < digits q) by (apply digits_ge; lia).
  assert (Hd2 : digits q ≤ 31) by (apply digits_lt; lia).
  destruct (digits_spec q ltac:(lia)) as [_ [Hd3 Hd4]].
  replace (Z.max 0 _) with (digits q - PRECISION) by (unfold ETINY, PRECISION, EMAX in *; lia).
  set (drop := digits q - PRECISION). assert (Hdrop : 1 ≤ drop ≤ 3) by (unfold drop, PRECISION; lia).
  destruct (Z.eqb_spec drop 0); [lia|].
  assert (Hpd : 0 < 10 ^ drop) by (apply Z.pow_pos_nonneg; lia).
  destruct (half_even_bound q (10 ^ drop) Hpd) as [Hh1 Hh2]. set (h := half_even q (10 ^ drop)) in *.
  assert (Hh3 : 10 ^ 27 ≤ h).
  { etransitivity; [|exact Hh1]. apply Z.div_le_lower_bound; [lia|].
    rewrite <- Z.pow_add_r by lia. replace (drop + 27) with (digits q - 1) by (unfold drop, PRECISION; lia). done. }
  assert (Hsp : 10 ^ shift = 10 ^ (shift - drop) * 10 ^ drop).
  { rewrite <- Z.pow_add_r by lia. f_equal. lia. }
  assert (Herr' : 10 * Z.abs (h * n - C * 10 ^ (shift - drop)) ≤ 6 * n).
  { set (X := C * 10 ^ (shift - drop)). replace (C * 10 ^ shift) with (X * 10 ^ drop) in Herr by (rewrite Hsp; unfold X; ring).
    apply (Z.mul_le_mono_pos_r _ _ (10 ^ drop)); [done|].
    assert (Hw : 2 * Z.abs (h * n - X) * 10 ^ drop ≤ 10 ^ drop * n + 2 * n).
    { assert (Z.abs (2 * (h * 10 ^ drop - q)) * n ≤ 10 ^ drop * n) by (apply Z.mul_le_mono_nonneg_r; lia).
      assert (Z.abs (2 * (h * 10 ^ drop - q)) * n = Z.abs (2 * (h * 10 ^ drop * n - q * n))).
      { rewrite <- (Z.abs_eq n) at 1 by lia. rewrite <- Z.abs_mul. f_equal. ring. }
      assert (2 * Z.abs (h * n - X) * 10 ^ drop = Z.abs (2 * (h * 10 ^ drop * n - X * 10 ^ drop))).
      { rewrite <- (Z.abs_eq (10 ^ drop)) at 1 by lia. rewrite <- (Z.abs_eq 2) at 1 by lia.
        rewrite <- !Z.abs_mul. f_equal. ring. }
      lia. }
    assert (drop = 1 ∨ drop = 2 ∨ drop = 3) as [E|[E|E]] by lia; rewrite E in *; lia. }
  assert (Hfloor := floor_of_close C n e (shift - drop) h HC Hn ltac:(lia) Hh3 Herr' Hfit).
  assert (Hdh : ∀ c, 0 < c → c ≤ 10 ^ 30 → digits c ≤ 31) by (intros; apply digits_lt; lia).
  assert (h ≤ 10 ^ 30).
  { assert (h * 1 ≤ h * 10 ^ drop) by (apply Z.mul_le_mono_nonneg_l; lia).
    assert (10 ^ drop ≤ 10 ^ 3) by (apply Z.pow_le_mono_r; lia).
    assert (10 * h ≤ h * 10 ^ drop).
    { rewrite (Z.mul_comm h). apply Z.mul_le_mono_nonneg_r; [lia|].
      change 10 with (10 ^ 1) at 1. apply Z.pow_le_mono_r; lia. }
    lia. }
  destruct (Z.eqb_spec h (10 ^ PRECISION)) as [Eh|_].
  - pose proof (Hdh (h `div` 10)) as Hdc. rewrite Eh in Hdc |- *.
    change (10 ^ PRECISION `div` 10) with (10 ^ 27) in *. specialize (Hdc ltac:(lia) ltac:(lia)).
    destruct (Z.ltb_spec EMAX (digits (10 ^ 27) + (e + - shift + drop + 1) - 1)); [unfold EMAX in *; lia|].
    cbn. f_equal. rewrite <- Hfloor, Eh. change (10 ^ PRECISION) with (10 ^ 27 * 10).
    rewrite floor_carry. do 3 f_equal; lia.
  - specialize (Hdh h ltac:(lia) ltac:(lia)).
    destruct (Z.ltb_spec EMAX (digits h + (e + - shift + drop) - 1)); [unfold EMAX in *; lia|].
    cbn. f_equal. rewrite <- Hfloor. do 3 f_equal; lia.
Qed.

(** ** What the pricing code computes *)

(** The sizes and prices for which it is exact. *)
Definition size_fits (c e scale step : Z) : Prop :=
  0 < c ∧ 0 < scale ∧ 0 < step ∧ -900000 ≤ e ≤ 900000 ∧ c * scale * up e + step * down e ≤ 10 ^ 27.
Definition price_fits (c e units : Z) : Prop :=
  0 < c ∧ 0 < units ∧ -900000 ≤ e ≤ 900000 ∧ c * units < 10 ^ PRECISION.

Lemma lots_exact c e scale step : size_fits c e scale step →
  (x ← times (Finite false c e) scale; d ← divided x step; integer_floor d)
  = Ok ((c * scale * up e) `div` (step * down e)).
Proof.
  intros (Hc & Hs & Hst & He & Hfit). pose proof (up_pos e). pose proof (down_pos e).
  assert (0 < c * scale) by (by apply Z.mul_pos_pos). assert (0 < step * down e) by (by apply Z.mul_pos_pos).
  assert (c * scale * 1 ≤ c * scale * up e) by (apply Z.mul_le_mono_nonneg_l; lia).
  rewrite times_exact; [|unfold ETINY, PRECISION, EMAX; lia..].
  cbn [mbind res_bind]. by apply divided_floor.
Qed.

Lemma protected_exact c e units : price_fits c e units →
  (x ← times (Finite false c e) units; integer_ceiling x) = Ok (ceil_div (c * units * up e) (down e)).
Proof.
  intros (Hc & Hu & He & Hfit). rewrite times_exact; [done|unfold ETINY, PRECISION, EMAX in *; lia..].
Qed.

(** ** Reading a printed value *)

Lemma digits_value_app acc s t : digits_value acc (s +:+ t) = digits_value acc s ≫= λ v, digits_value v t.
Proof. revert acc. induction s as [|c s IH]; intros acc; simpl; [done|]. destruct (digit c); simpl; [apply IH|done]. Qed.

Lemma all_digits_app s t : all_digits (s +:+ t) = all_digits s && all_digits t.
Proof. induction s as [|c s IH]; simpl; [done|]. by rewrite IH, andb_assoc. Qed.

Lemma zeros_digits n : all_digits (zeros n) = true ∧ digits_value 0 (zeros n) = Some 0 ∧ String.length (zeros n) = n.
Proof. induction n as [|n (IH1 & IH2 & IH3)]; [done|]. split_and!; [exact IH1|exact IH2|]. exact (f_equal S IH3). Qed.

Lemma str_Z_digits z : 0 ≤ z → all_digits (str_Z z) = true ∧ digits_value 0 (str_Z z) = Some z ∧ str_Z z ≠ "".
Proof.
  intros Hz. set (w := S (Z.to_nat (Z.log2 z))).
  assert (Hw : 0 ≤ z < 10 ^ Z.of_nat w).
  { split; [done|]. destruct (decide (z = 0)) as [->|]; [done|]. destruct (Z.log2_spec z) as [_ Hlog]; [lia|].
    eapply Z.lt_le_trans; [exact Hlog|]. unfold w. rewrite Nat2Z.inj_succ, Z2Nat.id by apply Z.log2_nonneg.
    apply Z.pow_le_mono_l. pose proof (Z.log2_nonneg z). lia. }
  destruct (pad_field w z) as (_ & Hd & Hv); [unfold w; lia|done|]. unfold pad in Hd, Hv.
  destruct (zeros_digits (w - String.length (str_Z z))) as (Z1 & Z2 & _).
  rewrite all_digits_app, Z1 in Hd. rewrite digits_value_app, Z2 in Hv. simpl in Hd, Hv. split_and!; [done|done|].
  intros E. unfold w in *. destruct z as [|p|p]; [by vm_compute in E| |lia]. rewrite E in Hv. by simpl in Hv.
Qed.

(** Texts that [strip] and the removal of underscores keep. *)
Fixpoint clean (s : string) : bool :=
  match s with String c s => negb (is_space c) && negb (Ascii.eqb c "_") && clean s | EmptyString => true end.

Lemma clean_app s t : clean (s +:+ t) = clean s && clean t.
Proof. induction s as [|c s IH]; simpl; [done|]. by rewrite IH, !andb_assoc. Qed.

Lemma digit_clean c : is_digit c = true → negb (is_space c) && negb (Ascii.eqb c "_") = true.
Proof. destruct c as [[] [] [] [] [] [] [] []]; by vm_compute. Qed.

Lemma digits_clean s : all_digits s = true → clean s = true.
Proof. induction s as [|c s IH]; simpl; [done|]. intros [Hc Hs]%andb_true_iff. by rewrite digit_clean, IH. Qed.

Lemma strip_clean s : clean s = true → without "_" (strip s) = s.
Proof.
  intros Hc. assert (Hr : ∀ t, clean t = true → rstrip t = t).
  { induction t as [|c t IH]; simpl; [done|]. intros [[->%negb_true_iff _]%andb_true_iff Ht]%andb_true_iff. simpl. by rewrite IH. }
  assert (Hl : lstrip s = s). { destruct s as [|c s]; [done|]. simpl in *. by destruct (is_space c). }
  unfold strip. rewrite Hl, Hr by done. clear Hl Hr. induction s as [|c s IH]; simpl in *; [done|].
  apply andb_true_iff in Hc as [[_ ->%negb_true_iff]%andb_true_iff Hs]. by rewrite IH.
Qed.

(** A text whose first character is no digit. *)
Definition no_digit (s : string) : Prop := match s with String c _ => is_digit c = false | EmptyString => True end.

Lemma digit_run_app s t : all_digits s = true → no_digit t → digit_run (s +:+ t) = String.length s.
Proof.
  intros Hs Ht. induction s as [|c s IH]; simpl in *.
  - destruct t as [|c t]; simpl in *; [done|]. by rewrite Ht.
  - apply andb_true_iff in Hs as [-> Hs]. f_equal. by apply IH.
Qed.

Lemma slice_front s t : slice (s +:+ t) 0 (String.length s) = s.
Proof. unfold slice. rewrite Nat.sub_0_r. induction s as [|c s IH]; [by destruct t|]. exact (f_equal (String c) IH). Qed.

Lemma slice_back s t n : (n = String.length s + String.length t)%nat → slice (s +:+ t) (String.length s) n = t.
Proof.
  intros ->. unfold slice. replace (String.length s + String.length t - String.length s)%nat with (String.length t) by lia.
  induction s as [|c s IH]; [|exact IH]. exact (substring_all t).
Qed.

Lemma app_empty_r s : s +:+ "" = s.
Proof. induction s as [|c s IH]; [done|]. exact (f_equal (String c) IH). Qed.

Lemma app_assoc_str s t u : (s +:+ t) +:+ u = s +:+ t +:+ u.
Proof. induction s as [|c s IH]; [done|]. exact (f_equal (String c) IH). Qed.

Lemma span_digits_app s t : all_digits s = true → no_digit t → span_digits (s +:+ t) = (s, t).
Proof.
  intros Hs Ht. unfold span_digits. rewrite digit_run_app by done. rewrite slice_front, slice_back; [done|apply length_append].
Qed.

(** The printed exponent reads back. *)
Definition power_text (e : Z) : string :=
  if e =? 0 then "" else "E" +:+ (if 0 <=? e then "+" else "") +:+ str_Z e.

Lemma str_Z_neg e : e < 0 → str_Z e = "-" +:+ str_Z (- e).
Proof. destruct e; [lia|lia|done]. Qed.

Lemma take_sign_digits s : all_digits s = true → take_sign s = (false, s).
Proof.
  destruct s as [|c s]; [done|]. simpl. intros [Hc _]%andb_true_iff. by rewrite !(digit_eqb c _ Hc) by reflexivity.
Qed.

Lemma exponent_power e : exponent_of (power_text e) = Some e ∧ no_digit (power_text e) ∧ clean (power_text e) = true.
Proof.
  unfold power_text. destruct (Z.eqb_spec e 0) as [->|He]; [done|]. destruct (Z.leb_spec 0 e) as [Hp|Hn].
  - destruct (str_Z_digits e Hp) as (Hd & Hv & Hne). split_and!; [|done|exact (digits_clean _ Hd)].
    change (exponent_of _) with (if (str_Z e =? "")%string then None else signed false <$> digits_value 0 (str_Z e)).
    apply String.eqb_neq in Hne. by rewrite Hne, Hv.
  - destruct (str_Z_digits (- e)) as (Hd & Hv & Hne); [lia|]. rewrite (str_Z_neg e) by done. split_and!; [|done|exact (digits_clean _ Hd)].
    change (exponent_of _) with (if (str_Z (- e) =? "")%string then None else signed true <$> digits_value 0 (str_Z (- e))).
    apply String.eqb_neq in Hne. rewrite Hne, Hv. simpl. f_equal. lia.
Qed.

(** A body of digits, with or without a point, and an exponent. *)
Lemma finite_of_point neg a b e v : all_digits a = true → all_digits b = true → a ≠ "" → digits_value 0 (a +:+ b) = Some v →
  finite_of neg (a +:+ "." +:+ b +:+ power_text e) = Some (Finite neg v (e - Z.of_nat (String.length b))).
Proof.
  intros Ha Hb Hne Hv. destruct (exponent_power e) as (He & Hnd & _). unfold finite_of.
  rewrite (span_digits_app a ("." +:+ b +:+ power_text e)) by done.
  change ("." +:+ b +:+ power_text e) with (String "." (b +:+ power_text e)). cbv beta iota. change (Ascii.eqb "." ".") with true.
  cbv iota. rewrite (span_digits_app b (power_text e)) by done.
  assert (Hne' : (a +:+ b =? "")%string = false) by (apply String.eqb_neq; destruct a; done).
  cbv beta iota. rewrite Hne', Hv. simpl. by rewrite He.
Qed.

Lemma finite_of_plain neg a e v : all_digits a = true → a ≠ "" → digits_value 0 a = Some v →
  finite_of neg (a +:+ power_text e) = Some (Finite neg v e).
Proof.
  intros Ha Hne Hv. destruct (exponent_power e) as (He & Hnd & _). unfold finite_of. rewrite (span_digits_app a (power_text e)) by done.
  assert (Hrest : match power_text e with String c r => if Ascii.eqb c "." then span_digits r else ("", power_text e)
                  | EmptyString => ("", power_text e) end = ("", power_text e)).
  { unfold power_text. by destruct (e =? 0). }
  rewrite Hrest. cbv beta iota. rewrite app_empty_r.
  apply String.eqb_neq in Hne. rewrite Hne, Hv. simpl. rewrite He. simpl. by rewrite Z.sub_0_r.
Qed.

Lemma slice_split s n : (n ≤ String.length s)%nat →
  s = slice s 0 n +:+ slice s n (String.length s) ∧ String.length (slice s 0 n) = n.
Proof.
  unfold slice. rewrite Nat.sub_0_r. revert n. induction s as [|c s IH]; intros [|n] Hn; simpl in *; try lia; try done.
  - split; [|done]. symmetry. exact (substring_all (String c s)).
  - destruct (IH n) as [IH1 IH2]; [lia|]. split; [exact (f_equal (String c) IH1)|exact (f_equal S IH2)].
Qed.

(** The text of a finite value is a sign, digits with or without a point, and
    an exponent. *)
Lemma decimal_str_shape neg c e : 0 ≤ c → ∃ body power,
  decimal_str (Finite neg c e) = sign_text neg +:+ body +:+ power_text power ∧ clean body = true ∧
  (∃ d s, body = String d s ∧ is_digit d = true) ∧ ∀ n, finite_of n (body +:+ power_text power) = Some (Finite n c e).
Proof.
  intros Hc. destruct (str_Z_digits c Hc) as (Hd & Hv & Hne). set (ds := str_Z c) in *. unfold decimal_str. fold ds.
  set (n := Z.of_nat (String.length ds)). assert (Hn : 1 ≤ n) by (unfold n; destruct ds; simpl; [done|lia]).
  assert (Hfirst : ∃ d s, ds = String d s ∧ is_digit d = true).
  { destruct ds as [|d s]; [done|]. simpl in Hd. apply andb_true_iff in Hd as [? _]. eauto. }
  set (left := e + n). set (dot := if (e <=? 0) && (-6 <? left) then left else 1).
  exists (if dot <=? 0 then "0." +:+ zeros (Z.to_nat (- dot)) +:+ ds
          else if n <=? dot then ds +:+ zeros (Z.to_nat (dot - n))
          else slice ds 0 (Z.to_nat dot) +:+ "." +:+ slice ds (Z.to_nat dot) (String.length ds)), (left - dot).
  split.
  { f_equal. f_equal. unfold power_text. destruct (Z.eqb_spec left dot), (Z.eqb_spec (left - dot) 0); try lia; done. }
  assert (Hdot : dot = left ∧ e ≤ 0 ∨ dot = 1 ∧ (0 < e ∨ left ≤ -6)).
  { unfold dot. destruct (Z.leb_spec e 0), (Z.ltb_spec (-6) left); simpl; lia. }
  destruct (Z.leb_spec dot 0) as [Hle|Hgt].
  { destruct (zeros_digits (Z.to_nat (- dot))) as (Z1 & Z2 & Z3). set (zs := zeros (Z.to_nat (- dot))) in *.
    assert (Hb : all_digits (zs +:+ ds) = true) by (by rewrite all_digits_app, Z1).
    split_and!; [exact (digits_clean _ Hb)|by exists "0"%char, ("." +:+ zs +:+ ds)|]. intros k.
    change ((("0." +:+ zs +:+ ds)) +:+ power_text (left - dot)) with ("0" +:+ "." +:+ (zs +:+ ds) +:+ power_text (left - dot)).
    rewrite (finite_of_point k "0" (zs +:+ ds) _ c); [|done..|].
    - do 2 f_equal. rewrite length_append, Z3. lia.
    - change ("0" +:+ zs +:+ ds) with (zeros 1 +:+ (zs +:+ ds)). by rewrite digits_value_app, (proj1 (proj2 (zeros_digits 1))); simpl;
        rewrite digits_value_app, Z2. }
  destruct (Z.leb_spec n dot) as [Hge|Hlt].
  { assert (dot = n) as -> by lia. rewrite Z.sub_diag. change (zeros (Z.to_nat 0)) with "".
    rewrite app_empty_r. split_and!; [by apply digits_clean|done|]. intros k.
    rewrite (finite_of_plain k ds _ c) by done. do 2 f_equal. lia. }
  destruct (slice_split ds (Z.to_nat dot)) as [Hsplit Hlen]; [lia|]. set (a := slice ds 0 (Z.to_nat dot)) in *.
  set (b := slice ds (Z.to_nat dot) (String.length ds)) in *. rewrite Hsplit, all_digits_app in Hd. apply andb_true_iff in Hd as [Ha Hb].
  assert (Hane : a ≠ "") by (intros E; rewrite E in Hlen; simpl in Hlen; lia). split_and!.
  - rewrite !clean_app, (digits_clean a Ha), (digits_clean b Hb). done.
  - destruct a as [|d s]; [done|]. simpl in Ha. apply andb_true_iff in Ha as [? _]. by exists d, (s +:+ "." +:+ b).
  - intros k. rewrite !app_assoc_str, (finite_of_point k a b _ c); [|done..|by rewrite <- Hsplit]. do 2 f_equal.
    assert (Hl : String.length ds = (Z.to_nat dot + String.length b)%nat) by (rewrite Hsplit, length_append; lia). lia.
Qed.

(** What [Decimal] reads from the text of a finite value is that value. *)
Lemma decimal_round_trip neg c e : 0 ≤ c → decimal_of_string (decimal_str (Finite neg c e)) = Some (Finite neg c e).
Proof.
  intros Hc. destruct (decimal_str_shape neg c e Hc) as (body & power & -> & Hclean & (d & s & Hbody & Hd) & Hfin).
  unfold decimal_of_string. rewrite strip_clean by (rewrite !clean_app, Hclean, (proj2 (proj2 (exponent_power power))); by destruct neg).
  assert (Hs : take_sign (sign_text neg +:+ body +:+ power_text power) = (neg, body +:+ power_text power)).
  { rewrite Hbody. destruct neg; [done|]. change (take_sign (String d (s +:+ power_text power)) = (false, String d (s +:+ power_text power))).
    simpl. by rewrite !(digit_eqb d _ Hd) by reflexivity. }
  rewrite Hs, Hfin, Hbody. change (String d s +:+ power_text power) with (String d (s +:+ power_text power)).
  unfold slice. simpl. assert (Hlow : ∀ y, is_digit y = false → (lower_char d =? y)%char = false).
  { intros y Hy. apply Ascii.eqb_neq. intros E. revert Hd Hy. rewrite <- E. clear. destruct d as [[] [] [] [] [] [] [] []]; by vm_compute. }
  by rewrite !Hlow by reflexivity.
Qed.
