(* ===== verification/Decode.v ===== *)
(** * Decoding canonical payloads

    The [..._from_payload] functions of [src/open_trader/prediction_n_leg.py],
    on JSON values without floats (a float is refused wherever it could
    stand).  [ModelDecodeError] is a [ValueError], and every handler treats it
    as one.  A JSON object is a dict: each key once. *)

From Stdlib Require Import Ascii.
From S2P Require Import Prelude PyValue NLeg NLegForms NLegValidate IsoFormat.
Local Open Scope Z_scope.

Definition decode_error (msg : string) : exn := ValueError msg.

(** ** Values *)

Definition in_list (k : string) (l : list string) : bool := existsb (String.eqb k) l.
Definition same_keys (a b : list string) : bool := forallb (λ k, in_list k b) a && forallb (λ k, in_list k a) b.

Fixpoint get (fields : list (string * json)) (k : string) : json :=
  match fields with
  | [] => JNull
  | f :: fields => if (f.1 =? k)%string then f.2 else get fields k
  end.

(** [str(sorted(required))] *)
Definition repr_names (l : list string) : string :=
  "[" +:+ join ", " ((λ s, "'" +:+ s +:+ "'") <$> sorted_strings l) +:+ "]".

(** [_object] *)
Definition object_of (payload : json) (name : string) (required : list string) : res (list (string * json)) :=
  match payload with
  | JObj fields =>
      require (same_keys fields.*1 required) (decode_error (name +:+ " must contain exactly " +:+ repr_names required));;
      Ok fields
  | _ => Err (decode_error (name +:+ " must contain exactly " +:+ repr_names required))
  end.

(** [_array] *)
Definition array_of (payload : json) (name : string) : res (list json) :=
  match payload with JArr l => Ok l | _ => Err (decode_error (name +:+ " must be a JSON array")) end.

(** [_string] *)
Definition string_of (payload : json) (name : string) : res string :=
  match payload with
  | JStr s => require (negb (is_blank s)) (decode_error (name +:+ " must be a non-empty string"));; Ok s
  | _ => Err (decode_error (name +:+ " must be a non-empty string"))
  end.

(** [_text] *)
Definition text_of (payload : json) (name : string) : res string :=
  match payload with JStr s => Ok s | _ => Err (decode_error (name +:+ " must be a string")) end.

(** [_integer] *)
Definition integer_of (payload : json) (name : string) : res Z :=
  match payload with
  | JInt z => require (in_int64 z) (decode_error (name +:+ " must be a signed 64-bit integer"));; Ok z
  | _ => Err (decode_error (name +:+ " must be a signed 64-bit integer"))
  end.

(** [None if value is None else decode(value)] *)
Definition optional_of {A} (decode : json → res A) (payload : json) : res (option A) :=
  match payload with JNull => Ok None | p => a ← decode p; Ok (Some a) end.

(** [_optional_integer] *)
Definition optional_integer_of (payload : json) (name : string) : res (option Z) :=
  optional_of (λ p, integer_of p name) payload.

Definition optional_string_of (payload : json) (name : string) : res (option string) :=
  optional_of (λ p, string_of p name) payload.

(** [_boolean] *)
Definition boolean_of (payload : json) (name : string) : res bool :=
  match payload with JBool b => Ok b | _ => Err (decode_error (name +:+ " must be a boolean")) end.

(** [value.endswith("Z")] and [value[:-1]] *)
Definition ends_with_z (s : string) : bool :=
  match String.length s with O => false | S n => is_char (char_at s n) "Z"%char end.
Definition without_last (s : string) : string := slice s 0 (String.length s - 1).

(** [_datetime_from_payload] *)
Definition datetime_of (payload : json) (name : string) : res datetime :=
  let malformed := decode_error (name +:+ " must be an RFC3339 UTC datetime ending in Z") in
  value ← string_of payload name;
  require (ends_with_z value) malformed;;
  decoded ← of_option malformed (fromisoformat (without_last value +:+ "+00:00"));
  require (is_utc decoded) (decode_error (name +:+ " must be UTC"));;
  Ok decoded.

(** [_enum]: the member whose value is the string; the error of [_string] is
    a [ValueError] too, and is replaced. *)
Definition enum_of {A} (type_name : string) (value : A → string) (members : list A) (payload : json) (name : string)
  : res A :=
  let invalid := decode_error (name +:+ " is not a valid " +:+ type_name) in
  match string_of payload name with
  | Ok s => of_option invalid (py_next (λ a, (value a =? s)%string) members)
  | Err _ => Err invalid
  end.

Definition side_of := enum_of "ActionSide" side_value [BUY_YES; BUY_NO].
Definition terminal_kind_of :=
  enum_of "TerminalKind" terminal_kind_value [NORMAL_YES; NORMAL_NO; VOID; REFUND; SPLIT].
Definition relation_kind_of :=
  enum_of "RelationKind" relation_kind_value [IMPLIES; MUTUALLY_EXCLUSIVE; EXACTLY_ONE; NATIVE_COMPLEMENT].
Definition metric_of := enum_of "QualificationMetric" metric_value
  [GUARANTEED_PROFIT_UNITS; NET_MARGIN_PPM; RETURN_ON_COST_PPM; ANNUALIZED_RETURN_PPM; MAX_CAPITAL_RELEASE_DELAY_SECONDS].
Definition comparison_of := enum_of "Comparison" comparison_value [GREATER_THAN_OR_EQUAL; LESS_THAN_OR_EQUAL].
Definition mode_of := enum_of "SearchMode" mode_value [ADMISSION; OPTIMIZATION; RAW_ARBITRAGE_DIAGNOSTIC].
Definition unknown_reason_of := enum_of "UnknownReason" unknown_reason_value
  [ INVALID_MODEL; UNKNOWN_TERMINAL_DATA; UNKNOWN_VALUATION; NUMERIC_OVERFLOW; CONTRADICTORY_CONSTRAINT_MODEL;
    ORACLE_DECISION_LIMIT_EXCEEDED; ORACLE_STATE_LIMIT_EXCEEDED; ORACLE_SUPPORT_LIMIT_EXCEEDED ].

(** [tuple(decode(item) for item in _array(value[k], k))] *)
Definition array_with {A} (decode : json → res A) (fields : list (string * json)) (k : string) : res (list A) :=
  items ← array_of (get fields k) k; mapM decode items.

Definition strings_with (fields : list (string * json)) (k : string) : res (list string) :=
  array_with (λ item, string_of item (k +:+ "[]")) fields k.

(** ** Problems *)

(** [_observation_from_payload] *)
Definition observation_from_payload (payload : json) : res SettlementObservationKey :=
  v ← object_of payload "settlement_observation_key"
        ["schema_version"; "oracle_id"; "indicator_id"; "observation_start"; "observation_end"; "timezone"; "rule_version"];
  schema ← string_of (get v "schema_version") "schema_version";
  require (schema =? OBSERVATION_SCHEMA_V1)%string (decode_error ("schema_version must equal " +:+ OBSERVATION_SCHEMA_V1));;
  oracle ← string_of (get v "oracle_id") "oracle_id";
  indicator ← string_of (get v "indicator_id") "indicator_id";
  start ← datetime_of (get v "observation_start") "observation_start";
  finish ← datetime_of (get v "observation_end") "observation_end";
  timezone ← string_of (get v "timezone") "timezone";
  rule ← string_of (get v "rule_version") "rule_version";
  Ok {| ok_schema_version := schema; ok_oracle_id := oracle; ok_indicator_id := indicator; ok_observation_start := start;
        ok_observation_end := finish; ok_timezone := timezone; ok_rule_version := rule |}.

(** [_cost_slice_from_payload] *)
Definition cost_slice_from_payload (payload : json) : res ExecutableCostSlice :=
  v ← object_of payload "cost_slice" ["first_lot"; "last_lot"; "incremental_cost_upper_bound_units"];
  first ← integer_of (get v "first_lot") "first_lot";
  last ← integer_of (get v "last_lot") "last_lot";
  cost ← integer_of (get v "incremental_cost_upper_bound_units") "incremental_cost_upper_bound_units";
  Ok {| first_lot := first; last_lot := last; incremental_cost_upper_bound_units := cost |}.

(** [_action_from_payload] *)
Definition action_from_payload (payload : json) : res CandidateAction :=
  v ← object_of payload "action"
        ["action_id"; "venue_id"; "account_id"; "chain_id"; "market_contract_id"; "settlement_observation_key"; "side";
         "lot_step_units"; "quantity_scale"; "min_quantity_lots"; "max_quantity_lots"; "settlement_asset_id";
         "valuation_unit_id"; "asset_valuation_rule_id"; "cost_slices"];
  action ← string_of (get v "action_id") "action_id";
  venue ← string_of (get v "venue_id") "venue_id";
  account ← string_of (get v "account_id") "account_id";
  chain ← string_of (get v "chain_id") "chain_id";
  contract ← string_of (get v "market_contract_id") "market_contract_id";
  key ← observation_from_payload (get v "settlement_observation_key");
  side ← side_of (get v "side") "side";
  lot ← integer_of (get v "lot_step_units") "lot_step_units";
  scale ← integer_of (get v "quantity_scale") "quantity_scale";
  low ← integer_of (get v "min_quantity_lots") "min_quantity_lots";
  high ← integer_of (get v "max_quantity_lots") "max_quantity_lots";
  asset ← string_of (get v "settlement_asset_id") "settlement_asset_id";
  unit ← string_of (get v "valuation_unit_id") "valuation_unit_id";
  rule ← text_of (get v "asset_valuation_rule_id") "asset_valuation_rule_id";
  slices ← array_with cost_slice_from_payload v "cost_slices";
  Ok {| ca_action_id := action; ca_venue_id := venue; ca_account_id := account; ca_chain_id := chain;
        ca_market_contract_id := contract; ca_settlement_observation_key := key; ca_side := side;
        ca_lot_step_units := lot; ca_quantity_scale := scale; ca_min_quantity_lots := low; ca_max_quantity_lots := high;
        ca_settlement_asset_id := asset; ca_valuation_unit_id := unit; ca_asset_valuation_rule_id := rule;
        ca_cost_slices := slices |}.

(** [_payout_from_payload] *)
Definition payout_from_payload (payload : json) : res ActionPayout :=
  v ← object_of payload "action_payout" ["action_id"; "payout_lower_bound_per_lot_units"];
  action ← string_of (get v "action_id") "action_id";
  payout ← integer_of (get v "payout_lower_bound_per_lot_units") "payout_lower_bound_per_lot_units";
  Ok {| ap_action_id := action; payout_lower_bound_per_lot_units := payout |}.

(** [_atom_from_payload]: two fields may be absent. *)
Definition atom_from_payload (payload : json) : res TerminalAtom :=
  let required := ["atom_id"; "kind"; "payouts"] in
  let allowed := required ++ ["rule_version"; "capital_release_at"] in
  let shape := decode_error ("terminal_atom must contain " +:+ repr_names required +:+
                             " and only optional rule_version/capital_release_at") in
  match payload with
  | JObj v =>
      require (forallb (λ k, in_list k v.*1) required && forallb (λ k, in_list k allowed) v.*1) shape;;
      atom ← string_of (get v "atom_id") "atom_id";
      kind ← terminal_kind_of (get v "kind") "kind";
      rule ← optional_of (λ p, text_of p "rule_version") (get v "rule_version");
      payouts ← array_with payout_from_payload v "payouts";
      release ← optional_of (λ p, datetime_of p "capital_release_at") (get v "capital_release_at");
      Ok {| ta_atom_id := atom; ta_kind := kind; ta_rule_version := rule; ta_payouts := payouts;
            ta_capital_release_at := release |}
  | _ => Err shape
  end.

(** [_state_set_from_payload] *)
Definition state_set_from_payload (payload : json) : res TerminalStateSet :=
  v ← object_of payload "terminal_state_set" ["market_contract_id"; "settlement_observation_key"; "rule_version"; "atoms"];
  contract ← string_of (get v "market_contract_id") "market_contract_id";
  key ← observation_from_payload (get v "settlement_observation_key");
  rule ← string_of (get v "rule_version") "rule_version";
  atoms ← array_with atom_from_payload v "atoms";
  Ok {| ts_market_contract_id := contract; ts_settlement_observation_key := key; ts_rule_version := rule; ts_atoms := atoms |}.

(** [_relation_from_payload] *)
Definition relation_from_payload (payload : json) : res RelationConstraint :=
  v ← object_of payload "relation" ["constraint_id"; "kind"; "contract_ids"; "rule_version"];
  id ← string_of (get v "constraint_id") "constraint_id";
  kind ← relation_kind_of (get v "kind") "kind";
  contracts ← strings_with v "contract_ids";
  rule ← string_of (get v "rule_version") "rule_version";
  Ok {| rc_constraint_id := id; rc_kind := kind; rc_contract_ids := contracts; rc_rule_version := rule |}.

(** [_forbidden_from_payload] *)
Definition forbidden_from_payload (payload : json) : res ForbiddenAtomCombination :=
  v ← object_of payload "forbidden_atom_combination" ["constraint_id"; "atom_ids"; "rule_version"];
  id ← string_of (get v "constraint_id") "constraint_id";
  atoms ← strings_with v "atom_ids";
  rule ← string_of (get v "rule_version") "rule_version";
  Ok {| fb_constraint_id := id; fb_atom_ids := atoms; fb_rule_version := rule |}.

(** [_qualification_from_payload] *)
Definition qualification_from_payload (payload : json) : res QualificationConstraint :=
  v ← object_of payload "qualification_constraint"
        ["constraint_id"; "rule_version"; "metric"; "comparison"; "threshold_numerator"; "threshold_denominator"];
  id ← string_of (get v "constraint_id") "constraint_id";
  rule ← string_of (get v "rule_version") "rule_version";
  metric ← metric_of (get v "metric") "metric";
  comparison ← comparison_of (get v "comparison") "comparison";
  numerator ← integer_of (get v "threshold_numerator") "threshold_numerator";
  denominator ← integer_of (get v "threshold_denominator") "threshold_denominator";
  Ok {| qc_constraint_id := id; qc_rule_version := rule; qc_metric := metric; qc_comparison := comparison;
        qc_threshold_numerator := numerator; qc_threshold_denominator := denominator |}.

Definition PROBLEM_FIELDS : list string :=
  ["schema_version"; "problem_id"; "as_of"; "valuation_unit_id"; "actions"; "terminal_state_sets"; "constraint_model";
   "qualification_constraints"].

(** Issues that [allow_unknown_data] tolerates. *)
Definition UNKNOWN_DATA_CODES : list string :=
  ["MISSING_ACTION_PAYOUT"; "MISSING_TERMINAL_RULE_IDENTITY"; "MISSING_CAPITAL_RELEASE_AT"; "MISSING_ASSET_VALUATION_RULE"].

Definition invalid_problem (issues : list ModelIssue) : exn :=
  decode_error ("invalid problem: " +:+ join "; " ((λ i, mi_path i +:+ ": " +:+ mi_code i) <$> issues)).

(** The fields of [problem_from_payload], before validation. *)
Definition problem_fields (payload : json) : res ArbitrageProblem :=
  v ← object_of payload "problem" PROBLEM_FIELDS;
  schema ← string_of (get v "schema_version") "schema_version";
  require (schema =? PROBLEM_SCHEMA_V1)%string (decode_error ("schema_version must equal " +:+ PROBLEM_SCHEMA_V1));;
  model ← object_of (get v "constraint_model") "constraint_model" ["relations"; "forbidden_atom_combinations"];
  id ← string_of (get v "problem_id") "problem_id";
  as_of ← datetime_of (get v "as_of") "as_of";
  unit ← string_of (get v "valuation_unit_id") "valuation_unit_id";
  actions ← array_with action_from_payload v "actions";
  states ← array_with state_set_from_payload v "terminal_state_sets";
  relations ← array_with relation_from_payload model "relations";
  forbidden ← array_with forbidden_from_payload model "forbidden_atom_combinations";
  qualifications ← array_with qualification_from_payload v "qualification_constraints";
  Ok {| pb_schema_version := schema; pb_problem_id := id; pb_as_of := as_of; pb_valuation_unit_id := unit;
        pb_actions := actions; pb_terminal_state_sets := states;
        pb_constraint_model := {| cm_relations := relations; cm_forbidden_atom_combinations := forbidden |};
        pb_qualification_constraints := qualifications |}.

(** [problem_from_payload] *)
Definition problem_from_payload (payload : json) (allow_unknown_data : bool) : res ArbitrageProblem :=
  problem ← problem_fields payload;
  let issues := validate_problem problem in
  require (Nat.eqb (length issues) 0 ||
           (allow_unknown_data && forallb (λ i, in_list (mi_code i) UNKNOWN_DATA_CODES) issues))
    (invalid_problem issues);;
  Ok (sorted_problem problem).

(** [_budget_from_payload] *)
Definition budget_from_payload (payload : json) : res OracleBudget :=
  v ← object_of payload "budget" ["max_quantity_vectors"; "max_joint_states"; "max_support_rechecks"];
  vectors ← integer_of (get v "max_quantity_vectors") "max_quantity_vectors";
  states ← integer_of (get v "max_joint_states") "max_joint_states";
  rechecks ← integer_of (get v "max_support_rechecks") "max_support_rechecks";
  require ((0 <? vectors) && (0 <? states) && (0 <? rechecks)) (decode_error "budget limits must be positive");;
  Ok {| bg_max_quantity_vectors := vectors; bg_max_joint_states := states; bg_max_support_rechecks := rechecks |}.

(** [request_from_payload] *)
Definition request_from_payload (payload : json) : res OracleRequest :=
  v ← object_of payload "request" ["schema_version"; "mode"; "problem"; "budget"];
  schema ← string_of (get v "schema_version") "schema_version";
  require (schema =? REQUEST_SCHEMA_V1)%string (decode_error ("schema_version must equal " +:+ REQUEST_SCHEMA_V1));;
  mode ← mode_of (get v "mode") "mode";
  object_of (get v "problem") "problem" PROBLEM_FIELDS;;
  problem ← problem_from_payload (get v "problem") true;
  budget ← budget_from_payload (get v "budget");
  Ok {| rq_schema_version := schema; rq_mode := mode; rq_problem := problem; rq_budget := budget |}.

(** ** Portfolio proofs and results *)

Definition result_kind_value (k : ProofResultKind) : string :=
  match k with
  | KIND_PORTFOLIO => "PORTFOLIO" | KIND_NO_QUALIFIED_OPPORTUNITY => "NO_QUALIFIED_OPPORTUNITY"
  | KIND_NO_ARBITRAGE => "NO_ARBITRAGE"
  end.
Definition solve_status_value (s : SolveStatus) : string :=
  match s with SOLVE_FEASIBLE => "FEASIBLE" | SOLVE_INFEASIBLE => "INFEASIBLE" | SOLVE_UNKNOWN => "UNKNOWN" end.
Definition proof_status_value (s : ProofStatus) : string :=
  match s with PROVEN => "PROVEN" | PROOF_UNKNOWN => "UNKNOWN" end.
Definition business_status_value (s : BusinessStatus) : string :=
  match s with
  | QUALIFIED_FEASIBLE => "QUALIFIED_FEASIBLE" | NO_QUALIFIED_OPPORTUNITY => "NO_QUALIFIED_OPPORTUNITY"
  | NO_ARBITRAGE => "NO_ARBITRAGE" | BUSINESS_UNKNOWN => "UNKNOWN"
  end.
Definition optimality_value (s : OptimalityStatus) : string :=
  match s with OPTIMAL => "OPTIMAL" | NOT_PROVEN => "NOT_PROVEN" | NOT_APPLICABLE => "NOT_APPLICABLE" end.

Definition result_kind_of := enum_of "ProofResultKind" result_kind_value
  [KIND_PORTFOLIO; KIND_NO_QUALIFIED_OPPORTUNITY; KIND_NO_ARBITRAGE].
Definition solve_status_of :=
  enum_of "SolveStatus" solve_status_value [SOLVE_FEASIBLE; SOLVE_INFEASIBLE; SOLVE_UNKNOWN].
Definition proof_status_of := enum_of "ProofStatus" proof_status_value [PROVEN; PROOF_UNKNOWN].
Definition business_status_of := enum_of "BusinessStatus" business_status_value
  [QUALIFIED_FEASIBLE; NO_QUALIFIED_OPPORTUNITY; NO_ARBITRAGE; BUSINESS_UNKNOWN].
Definition optimality_of := enum_of "OptimalityStatus" optimality_value [OPTIMAL; NOT_PROVEN; NOT_APPLICABLE].

(** [_quantity_from_payload] *)
Definition quantity_from_payload (payload : json) : res ActionQuantity :=
  v ← object_of payload "action_quantity" ["action_id"; "quantity_lots"];
  lots ← integer_of (get v "quantity_lots") "quantity_lots";
  require (0 <=? lots) (decode_error "quantity_lots must be non-negative");;
  action ← string_of (get v "action_id") "action_id";
  Ok (AQ action lots).

(** [_selected_atom_from_payload] *)
Definition selected_atom_from_payload (payload : json) : res SelectedAtom :=
  v ← object_of payload "selected_atom" ["market_contract_id"; "atom_id"];
  contract ← string_of (get v "market_contract_id") "market_contract_id";
  atom ← string_of (get v "atom_id") "atom_id";
  Ok (SelAtom contract atom).

(** [_scenario_from_payload] *)
Definition scenario_from_payload (payload : json) : res SettlementScenario :=
  v ← object_of payload "scenario" ["atoms"];
  atoms ← array_with selected_atom_from_payload v "atoms";
  Ok (Scenario atoms).

(** [_cut_from_payload] *)
Definition cut_from_payload (payload : json) : res WorstStateCut :=
  v ← object_of payload "worst_state_cut" ["cut_id"; "scenario"; "payout_per_lot"];
  id ← string_of (get v "cut_id") "cut_id";
  scenario ← scenario_from_payload (get v "scenario");
  payouts ← array_with payout_from_payload v "payout_per_lot";
  Ok {| cut_id := id; cut_scenario := scenario; cut_payout_per_lot := payouts |}.

Definition hyperedge_from_payload (item : json) : res (string * list string) :=
  edge ← array_of item "hyperedge";
  match edge with
  | [id; contracts] =>
      constraint ← string_of id "hyperedge.constraint_id";
      items ← array_of contracts "hyperedge.contract_ids";
      ids ← mapM (λ c, string_of c "hyperedge.contract_ids[]") items;
      Ok (constraint, ids)
  | _ => Err (decode_error "hyperedge must contain a constraint ID and contract IDs")
  end.

(** [_support_graph_from_payload] *)
Definition support_graph_from_payload (payload : json) : res SelectedSupportGraph :=
  v ← object_of payload "selected_support_graph" ["action_ids"; "contract_ids"; "constraint_ids"; "hyperedges"];
  hyperedges ← array_with hyperedge_from_payload v "hyperedges";
  actions ← strings_with v "action_ids";
  contracts ← strings_with v "contract_ids";
  constraints ← strings_with v "constraint_ids";
  Ok {| sg_action_ids := actions; sg_contract_ids := contracts; sg_constraint_ids := constraints;
        sg_hyperedges := hyperedges |}.

Definition rejection_step (acc : list (string * Z)) (item : json) : res (list (string * Z)) :=
  pair ← array_of item "rejection_count";
  match pair with
  | [id; n] =>
      id ← string_of id "rejection_count.id";
      require (negb (in_list id acc.*1)) (decode_error "rejection_count IDs must be unique");;
      count ← integer_of n "rejection_count.count";
      require (0 <=? count) (decode_error "rejection_count.count must be non-negative");;
      Ok (acc ++ [(id, count)])
  | _ => Err (decode_error "rejection_count must contain an ID and count")
  end.

(** [_rejection_counts_from_payload] *)
Definition rejection_counts_from_payload (payload : json) : res (list (string * Z)) :=
  items ← array_of payload "rejection_counts"; foldM rejection_step [] items.

(** The branch checks of [_payout_proof_from_payload]. *)
Definition portfolio_branch (p : PayoutProof) : bool :=
  (pp_proof_method p =? "BOUNDED_EXACT_ORACLE_V1")%string &&
  negb (is_none (pp_portfolio_fingerprint p)) && negb (is_none (pp_worst_scenario p)) &&
  negb (is_none (pp_worst_state_cut p)) && negb (is_none (pp_payout_lower_bound_units p)) &&
  negb (is_none (pp_cost_upper_bound_units p)) && negb (is_none (pp_guaranteed_profit_units p)) &&
  negb (is_none (pp_conservative_capital_release_at p)) && negb (is_none (pp_selected_support_graph p)) &&
  negb (is_none (pp_qualification_fingerprint p)) &&
  is_none (pp_request_fingerprint p) && is_none (pp_source_problem_fingerprint p) &&
  is_none (pp_quantity_vectors_total p) && is_none (pp_quantity_vectors_examined p) &&
  is_none (pp_joint_states_per_vector p) && bool_decide (pp_rejection_counts p = []).

Definition negative_branch (p : PayoutProof) : bool :=
  (pp_proof_method p =? "EXHAUSTIVE_ORACLE_V1")%string &&
  is_none (pp_portfolio_fingerprint p) && is_none (pp_worst_scenario p) && is_none (pp_worst_state_cut p) &&
  is_none (pp_payout_lower_bound_units p) && is_none (pp_cost_upper_bound_units p) &&
  is_none (pp_guaranteed_profit_units p) && is_none (pp_conservative_capital_release_at p) &&
  is_none (pp_selected_support_graph p) &&
  negb (is_none (pp_request_fingerprint p)) && negb (is_none (pp_qualification_fingerprint p)) &&
  match pp_quantity_vectors_total p, pp_quantity_vectors_examined p, pp_joint_states_per_vector p with
  | Some total, Some examined, Some joint =>
      (total =? examined) && (0 <? total) && (0 <? joint) &&
      forallb (λ c, c.2 <=? examined) (pp_rejection_counts p)
  | _, _, _ => false
  end &&
  Bool.eqb (bool_decide (pp_result_kind p = KIND_NO_QUALIFIED_OPPORTUNITY)) (is_none (pp_source_problem_fingerprint p)).

Definition check_payout_proof (p : PayoutProof) : res unit :=
  require (pp_schema_version p =? PAYOUT_PROOF_SCHEMA_V1)%string
    (decode_error ("schema_version must equal " +:+ PAYOUT_PROOF_SCHEMA_V1));;
  if bool_decide (pp_result_kind p = KIND_PORTFOLIO)
  then require (portfolio_branch p) (decode_error "PORTFOLIO payout proof contains invalid branch fields")
  else require (negative_branch p) (decode_error "negative payout proof contains invalid branch fields").

(** [_payout_proof_from_payload] *)
Definition payout_proof_from_payload (payload : json) : res PayoutProof :=
  v ← object_of payload "payout_proof"
        ["schema_version"; "result_kind"; "problem_fingerprint"; "portfolio_fingerprint"; "worst_scenario";
         "worst_state_cut"; "payout_lower_bound_units"; "cost_upper_bound_units"; "guaranteed_profit_units";
         "conservative_capital_release_at"; "selected_support_graph"; "proof_method"; "request_fingerprint";
         "source_problem_fingerprint"; "qualification_fingerprint"; "quantity_vectors_total"; "quantity_vectors_examined";
         "joint_states_per_vector"; "rejection_counts"];
  schema ← string_of (get v "schema_version") "schema_version";
  kind ← result_kind_of (get v "result_kind") "result_kind";
  problem ← string_of (get v "problem_fingerprint") "problem_fingerprint";
  portfolio ← optional_string_of (get v "portfolio_fingerprint") "portfolio_fingerprint";
  scenario ← optional_of scenario_from_payload (get v "worst_scenario");
  cut ← optional_of cut_from_payload (get v "worst_state_cut");
  payout ← optional_integer_of (get v "payout_lower_bound_units") "payout_lower_bound_units";
  cost ← optional_integer_of (get v "cost_upper_bound_units") "cost_upper_bound_units";
  profit ← optional_integer_of (get v "guaranteed_profit_units") "guaranteed_profit_units";
  release ← optional_of (λ p, datetime_of p "conservative_capital_release_at") (get v "conservative_capital_release_at");
  graph ← optional_of support_graph_from_payload (get v "selected_support_graph");
  method ← string_of (get v "proof_method") "proof_method";
  request ← optional_string_of (get v "request_fingerprint") "request_fingerprint";
  source ← optional_string_of (get v "source_problem_fingerprint") "source_problem_fingerprint";
  qualification ← optional_string_of (get v "qualification_fingerprint") "qualification_fingerprint";
  total ← optional_integer_of (get v "quantity_vectors_total") "quantity_vectors_total";
  examined ← optional_integer_of (get v "quantity_vectors_examined") "quantity_vectors_examined";
  joint ← optional_integer_of (get v "joint_states_per_vector") "joint_states_per_vector";
  rejections ← rejection_counts_from_payload (get v "rejection_counts");
  let proof := {|
    pp_schema_version := schema; pp_result_kind := kind; pp_problem_fingerprint := problem;
    pp_portfolio_fingerprint := portfolio; pp_worst_scenario := scenario; pp_worst_state_cut := cut;
    pp_payout_lower_bound_units := payout; pp_cost_upper_bound_units := cost; pp_guaranteed_profit_units := profit;
    pp_conservative_capital_release_at := release; pp_selected_support_graph := graph; pp_proof_method := method;
    pp_request_fingerprint := request; pp_source_problem_fingerprint := source;
    pp_qualification_fingerprint := qualification; pp_quantity_vectors_total := total;
    pp_quantity_vectors_examined := examined; pp_joint_states_per_vector := joint;
    pp_rejection_counts := rejections |} in
  check_payout_proof proof;;
  Ok proof.

(** [_solution_from_payload] *)
Definition solution_from_payload (payload : json) : res PortfolioSolution :=
  v ← object_of payload "solution" ["quantities"; "payout_proof"];
  proof ← payout_proof_from_payload (get v "payout_proof");
  require (bool_decide (pp_result_kind proof = KIND_PORTFOLIO)) (decode_error "solution requires a PORTFOLIO payout proof");;
  quantities ← array_with quantity_from_payload v "quantities";
  Ok {| ps_quantities := quantities; ps_payout_proof := proof |}.

(** [_bounds_from_payload] *)
Definition bounds_from_payload (payload : json) : res ObjectiveBounds :=
  v ← object_of payload "objective_bounds" ["lower_bound_units"; "upper_bound_units"; "gap_units"; "closed"];
  lower ← optional_integer_of (get v "lower_bound_units") "lower_bound_units";
  upper ← optional_integer_of (get v "upper_bound_units") "upper_bound_units";
  gap ← optional_integer_of (get v "gap_units") "gap_units";
  closed ← boolean_of (get v "closed") "closed";
  Ok {| ob_lower_bound_units := lower; ob_upper_bound_units := upper; ob_gap_units := gap; ob_closed := closed |}.

(** [_validate_result] *)
Definition validate_result (r : OracleResult) : res unit :=
  let bounds := or_objective_bounds r in
  let feasible := bool_decide (or_solve_status r = SOLVE_FEASIBLE) in
  let proven := bool_decide (or_proof_status r = PROVEN) in
  let negative := bool_decide (or_business_status r ∈ [NO_QUALIFIED_OPPORTUNITY; NO_ARBITRAGE]) in
  let not_applicable := bool_decide (or_optimality_status r = NOT_APPLICABLE) in
  let equal_bounds := negb (is_none (ob_lower_bound_units bounds)) &&
    bool_decide (ob_lower_bound_units bounds = ob_upper_bound_units bounds) && bool_decide (ob_gap_units bounds = Some 0) in
  (if feasible then
     require (negb (is_none (or_solution r)) && proven && bool_decide (or_business_status r = QUALIFIED_FEASIBLE) &&
              is_none (or_negative_proof r) && is_none (or_unknown_reason r))
       (decode_error "FEASIBLE requires a proved qualified solution and no negative or unknown state");;
     require (negb (bool_decide (or_optimality_status r = NOT_PROVEN)) ||
              (negb (ob_closed bounds) && negb (is_none (ob_lower_bound_units bounds)) &&
               is_none (ob_upper_bound_units bounds) && is_none (ob_gap_units bounds)))
       (decode_error "non-optimal feasible results require only an open lower bound");;
     require (bool_decide (or_optimality_status r ∈ [NOT_PROVEN; OPTIMAL]))
       (decode_error "FEASIBLE requires an optimal or not-proven optimality status")
   else Ok tt);;
  require (negb (bool_decide (or_optimality_status r = OPTIMAL)) ||
           (feasible && negb (is_none (or_solution r)) && proven && ob_closed bounds && equal_bounds))
    (decode_error "OPTIMAL requires a proved solution and equal closed objective bounds");;
  require (negb negative ||
           (bool_decide (or_solve_status r = SOLVE_INFEASIBLE) && proven && not_applicable && is_none (or_solution r) &&
            match or_negative_proof r with
            | None => false
            | Some proof =>
                (result_kind_value (pp_result_kind proof) =? business_status_value (or_business_status r))%string &&
                match pp_quantity_vectors_total proof, pp_quantity_vectors_examined proof, pp_joint_states_per_vector proof with
                | Some total, examined, Some joint => (0 <? total) && bool_decide (examined = Some total) && (0 <? joint)
                | _, _, _ => false
                end
            end && is_none (or_unknown_reason r)))
    (decode_error "negative conclusions require a matching exhaustive proof");;
  require (negb (bool_decide (or_business_status r = NO_ARBITRAGE)) ||
           (ob_closed bounds && equal_bounds &&
            match ob_lower_bound_units bounds with Some lower => lower <=? 0 | None => false end &&
            match or_negative_proof r with
            | Some proof => negb (is_none (pp_source_problem_fingerprint proof)) | None => false end))
    (decode_error "NO_ARBITRAGE requires closed diagnostic bounds and a source proof");;
  require (negb (bool_decide (or_solve_status r = SOLVE_UNKNOWN)) ||
           (bool_decide (or_business_status r = BUSINESS_UNKNOWN) && bool_decide (or_proof_status r = PROOF_UNKNOWN) &&
            not_applicable && is_none (or_solution r) && is_none (or_negative_proof r) && negb (is_none (or_unknown_reason r))))
    (decode_error "UNKNOWN requires only a matching unknown reason");;
  require (negb (bool_decide (or_solve_status r = SOLVE_INFEASIBLE) && negb negative))
    (decode_error "INFEASIBLE requires an exhaustive negative conclusion").

(** [result_from_payload] *)
Definition result_from_payload (payload : json) : res OracleResult :=
  v ← object_of payload "result"
        ["solve_status"; "proof_status"; "business_status"; "optimality_status"; "objective_bounds"; "solution";
         "negative_proof"; "unknown_reason"];
  solution ← optional_of solution_from_payload (get v "solution");
  negative ← optional_of payout_proof_from_payload (get v "negative_proof");
  unknown ← optional_of (λ p, unknown_reason_of p "unknown_reason") (get v "unknown_reason");
  solve ← solve_status_of (get v "solve_status") "solve_status";
  proof ← proof_status_of (get v "proof_status") "proof_status";
  business ← business_status_of (get v "business_status") "business_status";
  optimality ← optimality_of (get v "optimality_status") "optimality_status";
  bounds ← bounds_from_payload (get v "objective_bounds");
  let result := {|
    or_solve_status := solve; or_proof_status := proof; or_business_status := business; or_optimality_status := optimality;
    or_objective_bounds := bounds; or_solution := solution; or_negative_proof := negative; or_unknown_reason := unknown |} in
  validate_result result;;
  Ok result.
