(* ===== verification/UnionFind.v ===== *)
(** * Union-find with path halving

    The [parent]/[find]/[join] closures shared by [build_relation_components]
    and [split_disconnected_solution] of
    [src/open_trader/prediction_n_leg_oracle.py].  [find] mutates [parent]
    (path halving), so it returns the updated map.  The main result is that
    after joining a list of hyperedges two contracts have the same root exactly
    when a chain of shared hyperedges connects them, and that the fuel [size
    parent] is always enough for the [while] loop. *)

From S2P Require Import Prelude.
From stdpp Require Import relations.

Abbreviation parents := (gmap string string).

(** ** Operations *)

(** [find]: [while parent[c] != c: parent[c] = parent[parent[c]]; c = parent[c]] *)
Fixpoint find_loop (fuel : nat) (m : parents) (c : string) : res (string * parents) :=
  match fuel with
  | O => Err OutOfFuel
  | S fuel =>
      y ← of_option (KeyError c) (m !! c);
      if decide (y = c) then Ok (c, m)
      else z ← of_option (KeyError y) (m !! y);
           find_loop fuel (<[c := z]> m) z
  end.

Definition find (m : parents) (c : string) : res (string * parents) :=
  find_loop (S (size m)) m c.

Definition join_step (head : string) (m : parents) (c : string) : res parents :=
  '(tail, m) ← find m c;
  Ok (if decide (head = tail) then m else <[tail := head]> m).

(** [join]: an empty tuple raises [IndexError] at [contract_ids[0]]. *)
Definition join_ids (m : parents) (ids : list string) : res parents :=
  match ids with
  | [] => Err IndexError
  | c :: rest =>
      '(head, m) ← find m c;
      foldM (join_step head) m rest
  end.

(** [{c: c for c in ids}] *)
Definition singletons (ids : list string) : parents := py_dict ((λ c, (c, c)) <$> ids).

(** ** The forest *)

(** [rootn m x r n]: following [n] parent links from [x] ends in the root [r]. *)
Inductive rootn (m : parents) : string → string → nat → Prop :=
  | rootn_self x : m !! x = Some x → rootn m x x 0
  | rootn_step x y r n : m !! x = Some y → y ≠ x → rootn m y r n → rootn m x r (S n).

Definition root (m : parents) (x r : string) : Prop := ∃ n, rootn m x r n.

Definition forest (m : parents) : Prop := ∀ x, is_Some (m !! x) → ∃ r, root m x r.

Lemma rootn_fun m x r n r' n' : rootn m x r n → rootn m x r' n' → r = r' ∧ n = n'.
Proof.
  intros H; revert r' n'; induction H as [x Hx|x y r n Hx Hne H IH]; intros r' n'.
  - inversion 1; simplify_eq; done.
  - inversion 1 as [|? y' ? ? ? ? H']; simplify_eq. by destruct (IH _ _ H') as [-> ->].
Qed.

Lemma root_fun m x r r' : root m x r → root m x r' → r = r'.
Proof. intros [n H] [n' H']. by destruct (rootn_fun _ _ _ _ _ _ H H'). Qed.

Lemma root_is_root m x r : root m x r → m !! r = Some r.
Proof. intros [n H]. induction H; done. Qed.

Lemma root_elem m x r : root m x r → is_Some (m !! x).
Proof. intros [n H]. destruct H; eauto. Qed.

(** The nodes of a path to the root are distinct, so the path is no longer
    than the map is large. *)
Lemma rootn_bound m x r n : rootn m x r n → (n < size m)%nat.
Proof.
  intros H. assert (∃ l, length l = S n ∧ NoDup l ∧
    ∀ y, y ∈ l → y ∈ dom m ∧ ∃ k, (k ≤ n)%nat ∧ rootn m y r k) as (l & Hlen & Hnd & Hl).
  { induction H as [x Hx|x y r n Hx Hne H IH].
    - exists [x]. split_and!; [done|apply NoDup_singleton|].
      intros y ->%list_elem_of_singleton. split; [by apply elem_of_dom_2 with x|].
      exists 0%nat. split; [lia|by constructor].
    - destruct IH as (l & Hlen & Hnd & Hl). exists (x :: l). split_and!.
      + simpl. lia.
      + constructor; [|done]. intros Hin. destruct (Hl x Hin) as (_ & k & Hk & Hr).
        destruct (rootn_fun m x r (S n) r k) as [_ E]; [by econstructor|done|lia].
      + intros z [->|Hz]%elem_of_cons.
        * split; [by apply elem_of_dom_2 with y|]. exists (S n). split; [lia|by econstructor].
        * destruct (Hl z Hz) as (? & k & ? & ?). split; [done|]. exists k. split; [lia|done]. }
  assert (length l ≤ size (dom m))%nat as Hle.
  { rewrite <- (size_list_to_set (C:=gset string) l Hnd). apply subseteq_size.
    intros y Hy. apply elem_of_list_to_set in Hy. by apply Hl. }
  rewrite size_dom in Hle. lia.
Qed.

(** Path halving keeps every root and does not lengthen the rest of the path. *)
Lemma halve_rootn m c y z r n :
  m !! c = Some y → y ≠ c → m !! y = Some z → rootn m c r n →
  (∀ u s k, rootn m u s k → ∃ k', (k' ≤ k)%nat ∧ rootn (<[c := z]> m) u s k').
Proof.
  intros Hc Hne Hy Hr.
  assert (z ≠ c) as Hzc.
  { intros ->. inversion Hr as [|? y' ? k ? ? Hr' ]; simplify_eq.
    inversion Hr' as [|? c' ? k' ? ? Hr'']; simplify_eq.
    destruct (rootn_fun _ _ _ _ _ _ Hr Hr'') as [_ E]. lia. }
  intros u s k H. induction H as [u Hu|u v s k Hu Hne' H IH].
  - exists 0%nat. split; [lia|]. constructor. rewrite lookup_insert_ne; [done|]. intros ->. congruence.
  - destruct IH as (k' & Hk' & H'). destruct (decide (u = c)) as [->|Huc].
    + simplify_eq. destruct (decide (z = y)) as [->|Hzy].
      * exists (S k'). split; [lia|]. eapply rootn_step; [apply lookup_insert_eq|done|done].
      * inversion H' as [? Hl|? z' ? k'' Hl ? H'']; subst.
        { rewrite lookup_insert_ne in Hl by done. congruence. }
        rewrite lookup_insert_ne in Hl by done. simplify_eq.
        exists (S k''). split; [lia|]. eapply rootn_step; [apply lookup_insert_eq|done|done].
    + exists (S k'). split; [lia|]. eapply rootn_step; [by rewrite lookup_insert_ne|done|done].
Qed.

(** Two forests with the same nodes and roots. *)
Definition same_forest (m m' : parents) : Prop :=
  (∀ x, is_Some (m !! x) ↔ is_Some (m' !! x)) ∧ ∀ x r, root m x r ↔ root m' x r.

#[export] Instance same_forest_equiv : Equivalence same_forest.
Proof.
  split.
  - intros m. split; done.
  - intros m m' [H1 H2]. split; intros; [by rewrite H1|by rewrite H2].
  - intros m1 m2 m3 [H1 H2] [H3 H4]. split; intros; [by rewrite H1, H3|by rewrite H2, H4].
Qed.

Lemma same_forest_forest m m' : same_forest m m' → forest m → forest m'.
Proof.
  intros [H1 H2] H x Hx. apply H1 in Hx. destruct (H x Hx) as [r Hr]. exists r. by apply H2.
Qed.

Lemma halve_same m c y z r n :
  forest m → m !! c = Some y → y ≠ c → m !! y = Some z → rootn m c r n →
  same_forest m (<[c := z]> m).
Proof.
  intros Hf Hc Hne Hy Hr.
  assert (Hfw : ∀ u s, root m u s → root (<[c := z]> m) u s).
  { intros u s [k Hk]. destruct (halve_rootn m c y z r n Hc Hne Hy Hr u s k Hk) as (k' & _ & ?).
    by exists k'. }
  split.
  - intros x. destruct (decide (x = c)) as [->|]; [rewrite lookup_insert_eq, Hc|rewrite lookup_insert_ne by done]; [|done].
    split; eauto.
  - intros x s. split; [apply Hfw|]. intros Hx.
    assert (is_Some (m !! x)) as Hmx.
    { apply root_elem in Hx. destruct (decide (x = c)) as [->|]; [eauto|].
      by rewrite lookup_insert_ne in Hx. }
    destruct (Hf x Hmx) as [s' Hs']. by rewrite (root_fun _ _ _ _ Hx (Hfw _ _ Hs')).
Qed.

Lemma find_loop_correct fuel m c r n :
  forest m → rootn m c r n → (n < fuel)%nat →
  ∃ m', find_loop fuel m c = Ok (r, m') ∧ same_forest m m'.
Proof.
  revert m c n; induction fuel as [|fuel IH]; intros m c n Hf Hr Hlt; [lia|].
  inversion Hr as [? Hc|? y ? k Hc Hne Hy]; subst; simpl; rewrite Hc; simpl.
  - rewrite decide_True by done. eexists. split; [done|]. reflexivity.
  - rewrite decide_False by done.
    assert (∃ z, m !! y = Some z) as [z Hz] by (destruct Hy; eauto).
    rewrite Hz. simpl.
    pose proof (halve_same m c y z r (S k) Hf Hc Hne Hz Hr) as Hsame.
    assert (∃ j, rootn m z r j ∧ (j ≤ k)%nat) as (j & Hj & Hjk).
    { inversion Hy as [|? z' ? j ? ? Hz']; simplify_eq; eauto with lia. }
    destruct (halve_rootn m c y z r (S k) Hc Hne Hz Hr z r j Hj) as (j' & Hj' & Hrz).
    destruct (IH (<[c:=z]> m) z j') as (m' & E & Hm'); [|done|lia|].
    { by eapply same_forest_forest. }
    exists m'. split; [done|]. by etrans.
Qed.

(** [find] terminates within its fuel and returns the root. *)
Lemma find_correct m c :
  forest m → is_Some (m !! c) →
  ∃ r m', root m c r ∧ find m c = Ok (r, m') ∧ same_forest m m'.
Proof.
  intros Hf Hc. destruct (Hf c Hc) as [r [n Hr]].
  destruct (find_loop_correct (S (size m)) m c r n) as (m' & E & Hm'); [done..| |].
  { pose proof (rootn_bound _ _ _ _ Hr). lia. }
  exists r, m'. split; [by exists n|done].
Qed.

(** ** Linking two roots *)

Lemma link_root m a b :
  m !! a = Some a → m !! b = Some b → a ≠ b →
  ∀ x r, root m x r → root (<[b := a]> m) x (if decide (r = b) then a else r).
Proof.
  intros Ha Hb Hne x r [n Hr]. induction Hr as [x Hx|x y r n Hx Hxy Hr IH].
  - case_decide as E.
    + subst. exists 1%nat. eapply rootn_step; [apply lookup_insert_eq|done|].
      constructor. by rewrite lookup_insert_ne.
    + exists 0%nat. constructor. by rewrite lookup_insert_ne.
  - destruct IH as [k Hk]. exists (S k). eapply rootn_step; [|done|done].
    rewrite lookup_insert_ne; [done|]. intros ->. congruence.
Qed.

(** ** Connectivity *)

(** Two contracts share a hyperedge. *)
Definition linked (edges : list (list string)) (x y : string) : Prop :=
  ∃ e, e ∈ edges ∧ x ∈ e ∧ y ∈ e.

(** The specification of the partition: chains of shared hyperedges. *)
Definition connected (edges : list (list string)) : relation string := rtsc (linked edges).

Definition pair_rel (pairs : list (string * string)) (x y : string) : Prop := (x, y) ∈ pairs.

(** [uf_spec m K pairs]: [m] is a forest over [K] whose trees are the classes
    generated by [pairs]. *)
Record uf_spec (m : parents) (K : list string) (pairs : list (string * string)) : Prop := {
  uf_dom : ∀ x, is_Some (m !! x) ↔ x ∈ K;
  uf_forest : forest m;
  uf_same : ∀ x y r s, root m x r → root m y s → r = s ↔ rtsc (pair_rel pairs) x y;
}.

Lemma uf_spec_same m m' K pairs : same_forest m m' → uf_spec m K pairs → uf_spec m' K pairs.
Proof.
  intros Hs [Hd Hf Hr]. pose proof Hs as [H1 H2]. split.
  - intros x. by rewrite <- H1.
  - by eapply same_forest_forest.
  - intros x y r s Hx Hy. apply Hr; by apply H2.
Qed.

Lemma singletons_lookup ids x : singletons ids !! x = Some x ↔ x ∈ ids.
Proof.
  unfold singletons. split.
  - intros H%py_dict_elem. apply list_elem_of_fmap in H as (? & E & ?). by simplify_eq.
  - intros Hx. destruct (py_dict _ !! x) as [y|] eqn:E.
    + apply py_dict_elem, list_elem_of_fmap in E as (? & E' & _). by simplify_eq.
    + apply py_dict_None in E. destruct E. rewrite <- list_fmap_compose.
      apply list_elem_of_fmap. exists x. done.
Qed.

Lemma singletons_is_Some ids x y : singletons ids !! x = Some y → y = x ∧ x ∈ ids.
Proof.
  intros H%py_dict_elem. apply list_elem_of_fmap in H as (? & E & ?). by simplify_eq.
Qed.

Lemma rtsc_pairs_nil x y : rtsc (pair_rel []) x y ↔ x = y.
Proof.
  split; [|intros ->; apply rtc_refl].
  induction 1 as [|x y z Hxy _ IH]; [done|]. destruct Hxy as [H|H]; by apply not_elem_of_nil in H.
Qed.

Lemma uf_spec_init ids : uf_spec (singletons ids) ids [].
Proof.
  assert (Hroot : ∀ x r, root (singletons ids) x r → r = x).
  { intros x r [n H]. destruct H as [|? y ? ? Hy Hne]; [done|]. by apply singletons_is_Some in Hy as [-> _]. }
  split.
  - intros x. split; [intros [y [_ ?]%singletons_is_Some]; done|].
    intros Hx. apply singletons_lookup in Hx. eauto.
  - intros x [y [-> Hx]%singletons_is_Some]. exists x. exists 0%nat. constructor. by apply singletons_lookup.
  - intros x y r s ->%Hroot ->%Hroot. by rewrite rtsc_pairs_nil.
Qed.

Lemma rtsc_trans' {A} (R : relation A) x y z : rtsc R x y → rtsc R y z → rtsc R x z.
Proof. intros. by etrans. Qed.
Lemma rtsc_sym' {A} (R : relation A) x y : rtsc R x y → rtsc R y x.
Proof. intros. by symmetry. Qed.

Lemma rtsc_snoc_pair pairs a b x y :
  rtsc (pair_rel (pairs ++ [(a, b)])) x y ↔
  rtsc (pair_rel pairs) x y ∨
  (rtsc (pair_rel pairs) x a ∧ rtsc (pair_rel pairs) b y) ∨
  (rtsc (pair_rel pairs) x b ∧ rtsc (pair_rel pairs) a y).
Proof.
  set (R := pair_rel pairs). set (R' := pair_rel (pairs ++ _)).
  assert (Hsub : ∀ u v, rtsc R u v → rtsc R' u v).
  { intros u v. apply rtc_subrel. intros u' v' [H|H]; [left|right]; apply elem_of_app; by left. }
  assert (Hab : rtsc R' a b) by (apply rtc_once; left; apply elem_of_app; right; set_solver).
  split.
  - induction 1 as [|x y z Hxy Hyz IH]; [left; apply rtc_refl|].
    assert (rtsc R x y ∨ (x = a ∧ y = b) ∨ (x = b ∧ y = a)) as Hstep.
    { destruct Hxy as [H|H]; apply elem_of_app in H as [H|H];
        [left; apply rtc_once; by left| |left; apply rtc_once; by right|];
        apply list_elem_of_singleton in H; simplify_eq; auto. }
    assert (Hrefl : ∀ u, rtsc R u u) by (intros; apply rtc_refl).
    destruct Hstep as [H|[[-> ->]|[-> ->]]].
    + pose proof (rtsc_trans' R x y). naive_solver.
    + naive_solver.
    + naive_solver.
  - intros [H|[[H1 H2]|[H1 H2]]]; [by apply Hsub| |].
    + eapply rtsc_trans'; [by apply Hsub|]. eapply rtsc_trans'; [exact Hab|]. by apply Hsub.
    + eapply rtsc_trans'; [by apply Hsub|]. eapply rtsc_trans'; [by apply rtsc_sym'|]. by apply Hsub.
Qed.

Lemma root_self m r : m !! r = Some r → root m r r.
Proof. intros. exists 0%nat. by constructor. Qed.

(** Linking the roots of [x] and [y] adds the pair [(x, y)]. *)
Lemma uf_link m K pairs x y a b :
  uf_spec m K pairs → root m x a → root m y b → a ≠ b →
  uf_spec (<[b := a]> m) K (pairs ++ [(x, y)]).
Proof.
  intros [Hd Hf Hr] Hx Hy Hne.
  pose proof (root_is_root _ _ _ Hx) as Ha. pose proof (root_is_root _ _ _ Hy) as Hb.
  pose proof (link_root m a b Ha Hb Hne) as Hlink.
  assert (Hdom : ∀ u, is_Some (<[b := a]> m !! u) ↔ is_Some (m !! u)).
  { intros u. destruct (decide (u = b)) as [->|];
      [rewrite lookup_insert_eq, Hb; split; eauto|by rewrite lookup_insert_ne]. }
  split.
  - intros u. by rewrite Hdom.
  - intros u Hu. apply Hdom in Hu. destruct (Hf u Hu) as [r Hur]. eauto.
  - intros u v r s Hu Hv. rewrite rtsc_snoc_pair.
    assert (∃ r0, root m u r0) as [r0 Hu0] by (apply Hf, Hdom; eauto using root_elem).
    assert (∃ s0, root m v s0) as [s0 Hv0] by (apply Hf, Hdom; eauto using root_elem).
    rewrite (root_fun _ _ _ _ Hu (Hlink _ _ Hu0)), (root_fun _ _ _ _ Hv (Hlink _ _ Hv0)).
    rewrite <- (Hr u v _ _ Hu0 Hv0), <- (Hr u x _ _ Hu0 Hx), <- (Hr y v _ _ Hy Hv0),
      <- (Hr u y _ _ Hu0 Hy), <- (Hr x v _ _ Hx Hv0).
    repeat case_decide; simplify_eq; naive_solver.
Qed.

(** The pair is redundant when the two nodes already share their root. *)
Lemma uf_link_same m K pairs x y a :
  uf_spec m K pairs → root m x a → root m y a → uf_spec m K (pairs ++ [(x, y)]).
Proof.
  intros [Hd Hf Hr] Hx Hy. split; [done..|]. intros u v r s Hu Hv.
  rewrite rtsc_snoc_pair.
  rewrite <- (Hr u v _ _ Hu Hv), <- (Hr u x _ _ Hu Hx), <- (Hr y v _ _ Hy Hv),
    <- (Hr u y _ _ Hu Hy), <- (Hr x v _ _ Hx Hv). naive_solver.
Qed.

Lemma join_step_correct head c0 m K pairs c :
  uf_spec m K pairs → root m c0 head → c ∈ K →
  ∃ m', join_step head m c = Ok m' ∧ uf_spec m' K (pairs ++ [(c0, c)]) ∧ root m' c0 head.
Proof.
  intros Hu Hh Hc. destruct (find_correct m c) as (tail & m' & Htail & Ef & Hs).
  { apply Hu. } { by apply (uf_dom _ _ _ Hu). }
  unfold join_step. rewrite Ef. simpl.
  pose proof (uf_spec_same _ _ _ _ Hs Hu) as Hu'. destruct Hs as [Hs1 Hs2].
  apply Hs2 in Hh, Htail. case_decide as E; subst; eexists; (split; [done|]).
  - split; [by eapply uf_link_same|done].
  - split; [by eapply uf_link|].
    pose proof (link_root m' head tail (root_is_root _ _ _ Hh) (root_is_root _ _ _ Htail) E _ _ Hh) as Hl.
    by rewrite decide_False in Hl by done.
Qed.

Lemma foldM_join_correct head c0 m K pairs cs :
  uf_spec m K pairs → root m c0 head → Forall (.∈ K) cs →
  ∃ m', foldM (join_step head) m cs = Ok m' ∧ uf_spec m' K (pairs ++ ((λ c, (c0, c)) <$> cs)).
Proof.
  intros Hu Hh Hcs. revert m pairs Hu Hh; induction Hcs as [|c cs Hc Hcs IH]; intros m pairs Hu Hh; csimpl.
  - exists m. by rewrite app_nil_r.
  - destruct (join_step_correct head c0 m K pairs c Hu Hh Hc) as (m1 & E & Hu1 & Hh1).
    destruct (IH m1 _ Hu1 Hh1) as (m2 & E2 & Hu2). exists m2. rewrite E. simpl.
    split; [done|]. by rewrite <- app_assoc in Hu2.
Qed.

Definition star (e : list string) : list (string * string) :=
  match e with [] => [] | c :: cs => (λ c', (c, c')) <$> cs end.

Lemma join_ids_correct m K pairs e :
  uf_spec m K pairs → e ≠ [] → Forall (.∈ K) e →
  ∃ m', join_ids m e = Ok m' ∧ uf_spec m' K (pairs ++ star e).
Proof.
  intros Hu Hne Hin. destruct e as [|c cs]; [done|]. apply Forall_cons in Hin as [Hc Hcs]. simpl.
  destruct (find_correct m c) as (r & m' & Hr & E & Hs); [apply Hu|by apply (uf_dom _ _ _ Hu)|].
  rewrite E. simpl. apply foldM_join_correct; [by eapply uf_spec_same| |done]. by apply Hs.
Qed.

(** Joining a list of non-empty hyperedges over known contracts never raises. *)
Lemma join_all_correct m K pairs edges :
  uf_spec m K pairs → Forall (λ e, e ≠ [] ∧ Forall (.∈ K) e) edges →
  ∃ m', foldM join_ids m edges = Ok m' ∧ uf_spec m' K (pairs ++ (edges ≫= star)).
Proof.
  intros Hu He. revert m pairs Hu; induction He as [|e edges [Hne Hin] He IH]; intros m pairs Hu; csimpl.
  - exists m. by rewrite app_nil_r.
  - destruct (join_ids_correct m K pairs e Hu Hne Hin) as (m1 & -> & Hu1). simpl.
    destruct (IH m1 _ Hu1) as (m2 & E & Hu2). exists m2. split; [done|].
    by rewrite <- app_assoc in Hu2.
Qed.

(** The star pairs generate the same classes as the hyperedges. *)
Lemma star_connected edges x y : rtsc (pair_rel (edges ≫= star)) x y ↔ connected edges x y.
Proof.
  split.
  - apply rtc_subrel. intros u v H.
    assert (∀ u v, pair_rel (edges ≫= star) u v → linked edges u v) as Hl.
    { clear. intros u v (e & Hs & He)%list_elem_of_bind. exists e. split; [done|].
      destruct e as [|c cs]; simpl in Hs; [set_solver|].
      apply list_elem_of_fmap in Hs as (c' & [= -> ->] & Hc). split; set_solver. }
    destruct H as [H|H]; [left|right]; auto.
  - intros H.
    assert (∀ u v, linked edges u v → rtsc (pair_rel (edges ≫= star)) u v) as Hl.
    { clear. intros u v (e & He & Hu & Hv). destruct e as [|c cs]; [set_solver|].
      assert (∀ w, w ∈ c :: cs → rtsc (pair_rel (edges ≫= star)) c w) as Hc.
      { intros w [->|Hw]%elem_of_cons; [apply rtc_refl|]. apply rtc_once. left.
        apply list_elem_of_bind. exists (c :: cs). split; [|done]. apply list_elem_of_fmap. eauto. }
      eapply rtsc_trans'; [apply rtsc_sym'|]; by apply Hc. }
    induction H as [|x y z Hxy _ IH]; [apply rtc_refl|].
    eapply rtsc_trans'; [|exact IH]. destruct Hxy as [H|H]; [by apply Hl|]. by apply rtsc_sym', Hl.
Qed.

(** ** Main result *)

Lemma union_find_correct K edges :
  Forall (λ e, e ≠ [] ∧ Forall (.∈ K) e) edges →
  ∃ m, foldM join_ids (singletons K) edges = Ok m ∧ forest m ∧
    (∀ x, is_Some (m !! x) ↔ x ∈ K) ∧
    ∀ x y r s, root m x r → root m y s → r = s ↔ connected edges x y.
Proof.
  intros He. destruct (join_all_correct (singletons K) K [] edges) as (m & E & [Hd Hf Hr]); [apply uf_spec_init|done|].
  exists m. split_and!; [done..|]. intros x y r s Hx Hy. rewrite (Hr x y r s Hx Hy). apply star_connected.
Qed.
