(* ===== verification/Oracle.v ===== *)
(** * The bounded exact oracle: scenarios, costs and portfolio evaluation

    [src/open_trader/prediction_n_leg_oracle.py], lines 46-578.  Arithmetic is
    on [Z]; [checked] raises [OverflowError] outside the signed 64-bit range at
    each place the source calls a [_checked_*] helper. *)

From S2P Require Import Prelude PyValue NLeg NLegForms NLegValidate.
Local Open Scope Z_scope.

(** ** Checked 64-bit arithmetic *)

Definition checked (value : Z) : res Z :=
  if in_int64 value then Ok value else Err OverflowError.
Definition checked_add (x y : Z) : res Z := checked (x + y).
Definition checked_subtract (x y : Z) : res Z := checked (x - y).
Definition checked_multiply (x y : Z) : res Z := checked (x * y).
Definition checked_product (values : list Z) : res Z := foldM checked_multiply 1 values.

(** ** Records *)

Record ScenarioEnumeration := {
  se_scenarios : option (list SettlementScenario);
  se_raw_joint_state_count : Z;
  se_unknown_reason : option UnknownReason;
}.

Record PortfolioEvaluation := {
  pe_quantities : list ActionQuantity;
  pe_payout_lower_bound_units : Z;
  pe_cost_upper_bound_units : Z;
  pe_guaranteed_profit_units : Z;
  pe_worst_scenario : SettlementScenario;
  pe_worst_state_cut : WorstStateCut;
  pe_conservative_capital_release_at : option datetime;
  pe_failed_qualification_ids : list string;
  pe_time_qualification : string;
}.

Definition has_code (codes : list string) (i : ModelIssue) : bool := bool_decide (mi_code i ∈ codes).

(** [_input_unknown_reason] *)
Definition input_unknown_reason (p : ArbitrageProblem) : option UnknownReason :=
  let issues := validate_problem p in
  if existsb (has_code ["MISSING_ACTION_PAYOUT"; "MISSING_TERMINAL_RULE_IDENTITY";
                        "MISSING_CAPITAL_RELEASE_AT"]) issues
  then Some UNKNOWN_TERMINAL_DATA
  else if existsb (has_code ["MISSING_ASSET_VALUATION_RULE"]) issues
       || existsb (λ a, negb (ca_settlement_asset_id a =? pb_valuation_unit_id p)%string) (pb_actions p)
  then Some UNKNOWN_VALUATION
  else match issues with [] => None | _ => Some INVALID_MODEL end.

(** ** Joint terminal states *)

Definition is_normal (k : TerminalKind) : bool :=
  match k with NORMAL_YES | NORMAL_NO => true | _ => false end.

Definition is_yes (t : TerminalAtom) : bool := bool_decide (ta_kind t = NORMAL_YES).

(** One iteration of [_violates_normal_relation]. *)
Definition relation_violated (atoms_by_contract : gmap string TerminalAtom) (r : RelationConstraint)
  : res bool :=
  atoms ← mapM (λ c, of_option (KeyError c) (atoms_by_contract !! c)) (rc_contract_ids r);
  if decide (rc_kind r = NATIVE_COMPLEMENT) then
    Ok (negb (bool_decide ((ta_kind <$> atoms) ∈
      [[NORMAL_YES; NORMAL_NO]; [NORMAL_NO; NORMAL_YES]; [SPLIT; SPLIT]])))
  else if existsb (λ t, negb (is_normal (ta_kind t))) atoms then Ok false
  else
    let yes_count := length (filter (λ t, ta_kind t = NORMAL_YES) atoms) in
    match rc_kind r with
    | IMPLIES =>
        a0 ← of_option IndexError (atoms !! 0%nat);
        if is_yes a0
        then a1 ← of_option IndexError (atoms !! 1%nat); Ok (bool_decide (ta_kind a1 = NORMAL_NO))
        else Ok false
    | MUTUALLY_EXCLUSIVE => Ok (1 <? yes_count)%nat
    | EXACTLY_ONE => Ok (negb (yes_count =? 1)%nat)
    | NATIVE_COMPLEMENT => Ok false
    end.

Fixpoint any_violated (atoms_by_contract : gmap string TerminalAtom) (rs : list RelationConstraint)
  : res bool :=
  match rs with
  | [] => Ok false
  | r :: rs => v ← relation_violated atoms_by_contract r;
               if v : bool then Ok true else any_violated atoms_by_contract rs
  end.

Definition violates_normal_relation (p : ArbitrageProblem) (atoms_by_contract : gmap string TerminalAtom)
  : res bool := any_violated atoms_by_contract (cm_relations (pb_constraint_model p)).

Definition forbidden_selected (p : ArbitrageProblem) (atoms : list TerminalAtom) : bool :=
  let selected := ta_atom_id <$> atoms in
  existsb (λ f, forallb (λ i, bool_decide (i ∈ selected)) (fb_atom_ids f))
    (cm_forbidden_atom_combinations (pb_constraint_model p)).

(** The body of the enumeration loop: keep this joint choice of atoms? *)
Definition joint_allowed (p : ArbitrageProblem) (states : list TerminalStateSet) (atoms : list TerminalAtom)
  : res bool :=
  v ← violates_normal_relation p (py_dict (zip (ts_market_contract_id <$> states) atoms));
  if v : bool then Ok false else Ok (negb (forbidden_selected p atoms)).

Definition scenario_of (states : list TerminalStateSet) (atoms : list TerminalAtom) : SettlementScenario :=
  Scenario (zip_with (λ s t, SelAtom (ts_market_contract_id s) (ta_atom_id t)) states atoms).

Definition sorted_states (p : ArbitrageProblem) : list TerminalStateSet :=
  sort_on ts_market_contract_id (pb_terminal_state_sets p).

Definition joint_choices (p : ArbitrageProblem) : list (list TerminalAtom) :=
  product ((λ s, sort_on ta_atom_id (ts_atoms s)) <$> sorted_states p).

Definition raw_joint_state_count (states : list TerminalStateSet) : res Z :=
  foldM (λ n s, checked_multiply n (Z.of_nat (length (ts_atoms s)))) 1 states.

(** [issues and not (allow_unknown_release and all(...))] *)
Definition rejects_issues (allow_unknown_release : bool) (issues : list ModelIssue) : bool :=
  match issues with
  | [] => false
  | _ => negb (allow_unknown_release && forallb (has_code ["MISSING_CAPITAL_RELEASE_AT"]) issues)
  end.

Definition enumerate_scenarios (p : ArbitrageProblem) (budget : OracleBudget) (allow_unknown_release : bool)
  : res ScenarioEnumeration :=
  if rejects_issues allow_unknown_release (validate_problem p)
  then Ok {| se_scenarios := None; se_raw_joint_state_count := 0; se_unknown_reason := Some INVALID_MODEL |}
  else
    let states := sorted_states p in
    match raw_joint_state_count states with
    | Err _ => Ok {| se_scenarios := None; se_raw_joint_state_count := 0;
                     se_unknown_reason := Some NUMERIC_OVERFLOW |}
    | Ok count =>
        if bg_max_joint_states budget <? count
        then Ok {| se_scenarios := None; se_raw_joint_state_count := count;
                   se_unknown_reason := Some ORACLE_STATE_LIMIT_EXCEEDED |}
        else
          allowed ← filterM (joint_allowed p states) (joint_choices p);
          match allowed with
          | [] => Ok {| se_scenarios := None; se_raw_joint_state_count := count;
                        se_unknown_reason := Some CONTRADICTORY_CONSTRAINT_MODEL |}
          | _ => Ok {| se_scenarios := Some (scenario_of states <$> allowed);
                       se_raw_joint_state_count := count; se_unknown_reason := None |}
          end
    end.

Definition enumerate_allowed_scenarios (p : ArbitrageProblem) (budget : OracleBudget)
  : res ScenarioEnumeration := enumerate_scenarios p budget false.

(** ** Quantities and executable costs *)

Definition select_quantity (actions_by_id : gmap string CandidateAction)
    (acc : list ActionQuantity * list string) (q : ActionQuantity)
  : res (list ActionQuantity * list string) :=
  let '(selected, seen) := acc in
  let lots := aq_quantity_lots q in
  match actions_by_id !! aq_action_id q with
  | None => Err (ValueError ("unknown action quantity: " +:+ aq_action_id q))
  | Some action =>
      require ((0 <=? lots) && (lots <=? INT64_MAX))
        (ValueError ("invalid action quantity: " +:+ aq_action_id q));;
      require (negb (bool_decide (aq_action_id q ∈ seen)))
        (ValueError ("duplicate action quantity: " +:+ aq_action_id q));;
      require ((lots =? 0) || ((ca_min_quantity_lots action <=? lots) && (lots <=? ca_max_quantity_lots action)))
        (ValueError ("action quantity outside selected quantity range: " +:+ aq_action_id q));;
      Ok (if lots =? 0 then selected else selected ++ [q], aq_action_id q :: seen)
  end.

(** [_selected_quantities] *)
Definition selected_quantities (p : ArbitrageProblem) (quantities : list ActionQuantity)
  : res (list ActionQuantity) :=
  '(selected, _) ← foldM (select_quantity (index_by ca_action_id (pb_actions p))) ([], []) quantities;
  Ok (sort_on aq_action_id selected).

(** The inner loop of [_cost_upper_bound_for_selected], with its [break]. *)
Fixpoint slices_cost (total remaining : Z) (slices : list ExecutableCostSlice) : res Z :=
  match slices with
  | [] => Ok total
  | c :: slices =>
      if remaining <? first_lot c then Ok total
      else
        d ← checked_subtract (Z.min remaining (last_lot c)) (first_lot c);
        covered_lots ← checked_add d 1;
        cost ← checked_multiply covered_lots (incremental_cost_upper_bound_units c);
        total ← checked_add total cost;
        slices_cost total remaining slices
  end.

Definition quantity_cost (actions_by_id : gmap string CandidateAction) (total : Z) (q : ActionQuantity)
  : res Z :=
  action ← of_option (KeyError (aq_action_id q)) (actions_by_id !! aq_action_id q);
  total ← slices_cost total (aq_quantity_lots q) (ca_cost_slices action);
  final ← of_option IndexError (last (ca_cost_slices action));
  require (aq_quantity_lots q <=? last_lot final)
    (ValueError ("quantity exceeds executable cost slices: " +:+ aq_action_id q));;
  Ok total.

Definition cost_upper_bound_for_selected (p : ArbitrageProblem) (quantities : list ActionQuantity) : res Z :=
  foldM (quantity_cost (index_by ca_action_id (pb_actions p))) 0 quantities.

Definition cost_upper_bound (p : ArbitrageProblem) (quantities : list ActionQuantity) : res Z :=
  require_valid p;;
  selected ← selected_quantities p quantities;
  cost_upper_bound_for_selected p selected.

(** ** Qualification *)

Definition release_delay_seconds (p : ArbitrageProblem) (release_at : option datetime) : res Z :=
  match release_at with
  | None => Err (ValueError "capital release time is unknown")
  | Some d =>
      let delay := dt_us d - dt_us (pb_as_of p) in
      days ← checked_multiply (delta_days delay) (24 * 60 * 60);
      whole_seconds ← checked_add days (delta_seconds delay);
      checked_add whole_seconds (if delta_microseconds delay =? 0 then 0 else 1)
  end.

Definition occupied_days (p : ArbitrageProblem) (release_at : option datetime) : res Z :=
  seconds ← release_delay_seconds p release_at;
  s ← checked_add seconds 86399;
  Ok (Z.max 1 (s `div` 86400)).

Definition compare (c : Comparison) (left right : Z) : bool :=
  match c with
  | GREATER_THAN_OR_EQUAL => right <=? left
  | LESS_THAN_OR_EQUAL => left <=? right
  end.

(** [_qualification_passes]; [payout], [cost], [profit] and [release_at] are
    the fields of the evaluation it reads. *)
Definition qualification_passes (p : ArbitrageProblem) (q : QualificationConstraint)
    (payout cost profit : Z) (release_at : option datetime) : res bool :=
  let num := qc_threshold_numerator q in
  let den := qc_threshold_denominator q in
  match qc_metric q with
  | GUARANTEED_PROFIT_UNITS =>
      l ← checked_multiply profit den;
      Ok (compare (qc_comparison q) l num)
  | NET_MARGIN_PPM =>
      if (0 <? num) && (payout <=? 0) then Ok false
      else l ← checked_product [profit; 1000000; den];
           r ← checked_multiply num payout;
           Ok (compare (qc_comparison q) l r)
  | RETURN_ON_COST_PPM =>
      if (0 <? num) && (cost <=? 0) then Ok false
      else l ← checked_product [profit; 1000000; den];
           r ← checked_multiply num cost;
           Ok (compare (qc_comparison q) l r)
  | ANNUALIZED_RETURN_PPM =>
      days ← occupied_days p release_at;
      l ← checked_product [profit; 365; 1000000; den];
      r ← checked_product [num; cost; days];
      Ok (compare (qc_comparison q) l r)
  | MAX_CAPITAL_RELEASE_DELAY_SECONDS =>
      delay ← release_delay_seconds p release_at;
      l ← checked_multiply delay den;
      Ok (compare (qc_comparison q) l num)
  end.

Definition is_time_metric (m : QualificationMetric) : bool :=
  match m with ANNUALIZED_RETURN_PPM | MAX_CAPITAL_RELEASE_DELAY_SECONDS => true | _ => false end.

Definition qualification_fails (p : ArbitrageProblem) (payout cost profit : Z)
    (release_at : option datetime) (q : QualificationConstraint) : res bool :=
  if bool_decide (release_at = None) && is_time_metric (qc_metric q) then Ok false
  else b ← qualification_passes p q payout cost profit release_at; Ok (negb b).

(** ** Payouts of one scenario *)

Section evaluation.
Context `{Sha256}.

Definition find_atom (s : TerminalStateSet) (atom_id : string) : option TerminalAtom :=
  py_next (λ t, (ta_atom_id t =? atom_id)%string) (ts_atoms s).

Definition state_payouts (selected_atom_ids : gmap string string) (s : TerminalStateSet)
  : res (list ActionPayout) :=
  atom_id ← of_option (ValueError ("scenario is missing " +:+ ts_market_contract_id s))
              (selected_atom_ids !! ts_market_contract_id s);
  atom ← of_option (ValueError ("scenario selects unknown atom " +:+ atom_id)) (find_atom s atom_id);
  Ok (ta_payouts atom).

Definition selected_atoms_dict (scenario : SettlementScenario) : gmap string string :=
  py_dict ((λ a, (sa_market_contract_id a, sa_atom_id a)) <$> sc_atoms scenario).

(** [_cut_from_scenario] *)
Definition cut_from_scenario_unchecked (p : ArbitrageProblem) (scenario : SettlementScenario)
  : res WorstStateCut :=
  let selected_atom_ids := selected_atoms_dict scenario in
  require (size selected_atom_ids =? length (sc_atoms scenario))%nat
    (ValueError "scenario selects a contract more than once");;
  payouts ← mapM (state_payouts selected_atom_ids) (pb_terminal_state_sets p);
  require (size selected_atom_ids =? length (pb_terminal_state_sets p))%nat
    (ValueError "scenario selects an unknown contract");;
  Ok {| cut_id := "cut:" +:+ fingerprint_scenario scenario;
        cut_scenario := scenario;
        cut_payout_per_lot := sort_on ap_action_id (mjoin payouts) |}.

Definition cut_from_scenario (p : ArbitrageProblem) (scenario : SettlementScenario) : res WorstStateCut :=
  require_valid p;; cut_from_scenario_unchecked p scenario.

(** The local function [payout] of [_evaluate_portfolio]. *)
Definition scenario_payout (p : ArbitrageProblem) (quantities_by_action : gmap string Z)
    (scenario : SettlementScenario) : res Z :=
  cut ← cut_from_scenario_unchecked p scenario;
  foldM (λ total y,
      v ← checked_multiply (payout_lower_bound_per_lot_units y)
            (default 0 (quantities_by_action !! ap_action_id y));
      checked_add total v) 0 (cut_payout_per_lot cut).

(** [(payout, fingerprint, scenario) < best]: Python compares the scenarios
    themselves only when payout and fingerprint tie, which raises [TypeError]
    unless the scenarios are equal. *)
Definition worst_before (x best : Z * string * SettlementScenario) : res bool :=
  let '(v, f, s) := x in
  let '(v', f', s') := best in
  if v <? v' then Ok true
  else if v' <? v then Ok false
  else if (f =? f')%string then (if decide (s = s') then Ok false else Err TypeError)
  else Ok (String.leb f f').

Definition worst_step (p : ArbitrageProblem) (quantities_by_action : gmap string Z)
    (best : option (Z * string * SettlementScenario)) (s : SettlementScenario)
  : res (option (Z * string * SettlementScenario)) :=
  v ← scenario_payout p quantities_by_action s;
  let x := (v, fingerprint_scenario s, s) in
  match best with
  | None => Ok (Some x)
  | Some b => lt ← worst_before x b; Ok (Some (if lt : bool then x else b))
  end.

Definition worst_scenario (p : ArbitrageProblem) (quantities_by_action : gmap string Z)
    (scenarios : list SettlementScenario) : res (Z * string * SettlementScenario) :=
  best ← foldM (worst_step p quantities_by_action) None scenarios;
  of_option (ValueError "min() iterable argument is empty") best.

(** [atoms_by_contract[contract][atom].capital_release_at] *)
Definition atom_release (p : ArbitrageProblem) (a : SelectedAtom) : res (option datetime) :=
  state ← of_option (KeyError (sa_market_contract_id a))
            (index_by ts_market_contract_id (pb_terminal_state_sets p) !! sa_market_contract_id a);
  atom ← of_option (KeyError (sa_atom_id a)) (index_by ta_atom_id (ts_atoms state) !! sa_atom_id a);
  Ok (ta_capital_release_at atom).

Definition selected_contract_ids (p : ArbitrageProblem) (selected : list ActionQuantity) : list string :=
  ca_market_contract_id <$>
    filter (λ a, ca_action_id a ∈ aq_action_id <$> selected) (pb_actions p).

(** [max] of datetimes keeps the first maximal one. *)
Definition max_datetime (l : list datetime) : option datetime :=
  match l with
  | [] => None
  | d :: l => Some (foldl (λ m d, if datetime_ltb m d then d else m) d l)
  end.

Definition conservative_release (p : ArbitrageProblem) (selected : list ActionQuantity)
    (scenarios : list SettlementScenario) : res (option datetime) :=
  let contracts := selected_contract_ids p selected in
  releases ← mapM (atom_release p)
    (filter (λ a, sa_market_contract_id a ∈ contracts) (scenarios ≫= sc_atoms));
  match mapM (M:=option) id releases with
  | None => Ok None
  | Some ds => d ← of_option (ValueError "max() iterable argument is empty") (max_datetime ds); Ok (Some d)
  end.

(** [_evaluate_portfolio] *)
Definition evaluate_portfolio (p : ArbitrageProblem) (quantities : list ActionQuantity)
    (budget : OracleBudget) (allow_unknown_release : bool) : res PortfolioEvaluation :=
  require (negb (rejects_issues allow_unknown_release (validate_problem p)))
    (ValueError ("invalid problem: " +:+ issue_codes (validate_problem p)));;
  selected ← selected_quantities p quantities;
  require (negb (bool_decide (selected = [])))
    (ValueError "fixed portfolio must select at least one action");;
  enumeration ← enumerate_scenarios p budget allow_unknown_release;
  scenarios ← of_option (ValueError (match se_unknown_reason enumeration with
                                     | Some r => unknown_reason_value r
                                     | None => "scenario enumeration failed" end))
                (se_scenarios enumeration);
  let quantities_by_action := py_dict ((λ q, (aq_action_id q, aq_quantity_lots q)) <$> selected) in
  '(payout, _, worst) ← worst_scenario p quantities_by_action scenarios;
  release_at ← conservative_release p selected scenarios;
  cost ← cost_upper_bound_for_selected p selected;
  profit ← checked_subtract payout cost;
  cut ← cut_from_scenario_unchecked p worst;
  failed ← filterM (qualification_fails p payout cost profit release_at)
             (sort_on qc_constraint_id (pb_qualification_constraints p));
  Ok {| pe_quantities := selected;
        pe_payout_lower_bound_units := payout;
        pe_cost_upper_bound_units := cost;
        pe_guaranteed_profit_units := profit;
        pe_worst_scenario := worst;
        pe_worst_state_cut := cut;
        pe_conservative_capital_release_at := release_at;
        pe_failed_qualification_ids := qc_constraint_id <$> failed;
        pe_time_qualification := if bool_decide (release_at = None) then "UNKNOWN" else "KNOWN" |}.

Definition evaluate_fixed_portfolio (p : ArbitrageProblem) (quantities : list ActionQuantity)
    (budget : OracleBudget) : res PortfolioEvaluation := evaluate_portfolio p quantities budget false.

Definition evaluate_paper_portfolio (p : ArbitrageProblem) (quantities : list ActionQuantity)
    (budget : OracleBudget) : res PortfolioEvaluation := evaluate_portfolio p quantities budget true.

End evaluation.
