(* ===== verification/OracleScenario.v ===== *)
(** * Checked arithmetic and the executable-cost upper bound

    [slices_cost] walks the price slices; the reference [lots_cost] charges
    every lot the price of the slice that contains it.  Whenever the loop
    returns, it returns the reference value. *)

From S2P Require Import Prelude PyValue NLeg NLegForms NLegValidate NLegWf Oracle.
Local Open Scope Z_scope.

Lemma checked_Ok v w : checked v = Ok w ↔ w = v ∧ int64 v.
Proof.
  unfold checked, int64. destruct (in_int64 v) eqn:E.
  - apply in_int64_spec in E. split; [intros [= <-]; done|by intros [-> _]].
  - split; [done|]. intros [_ ?%in_int64_spec]. congruence.
Qed.

Lemma checked_Err v e : checked v = Err e → e = OverflowError ∧ ¬ int64 v.
Proof.
  unfold checked, int64. destruct (in_int64 v) eqn:E; [done|]. intros [= <-]. split; [done|].
  intros H%in_int64_spec. congruence.
Qed.

Lemma checked_product_Ok l v : checked_product l = Ok v → v = foldr Z.mul 1 l.
Proof.
  unfold checked_product. intros Hf. enough (∀ a, foldM checked_multiply a l = Ok v → v = a * foldr Z.mul 1 l).
  { rewrite (H 1 Hf). lia. }
  clear Hf. induction l as [|x l IH]; intros a; simpl; [intros [= <-]; lia|].
  intros (b & [-> _]%checked_Ok & Hb)%bind_Ok. rewrite (IH _ Hb). lia.
Qed.

(** A sum accumulated with overflow checks is the exact sum. *)
Lemma foldM_checked_sum {A} (f : A → Z) (g : A → res Z) a l t :
  (∀ x v, x ∈ l → g x = Ok v → v = f x) →
  foldM (λ total x, v ← g x; checked_add total v) a l = Ok t →
  t = a + sumZ (f <$> l).
Proof.
  intros Hg. revert a; induction l as [|x l IH]; intros a; csimpl; [intros [= <-]; lia|].
  intros (b & (v & Hv & [-> _]%checked_Ok)%bind_Ok & Hb)%bind_Ok.
  apply Hg in Hv; [|set_solver]. rewrite (IH ltac:(set_solver) _ Hb). lia.
Qed.

(** ** Reference cost of a lot and of a quantity *)

Definition lot_cost (slices : list ExecutableCostSlice) (lot : Z) : Z :=
  match py_next (λ c, (first_lot c <=? lot) && (lot <=? last_lot c)) slices with
  | Some c => incremental_cost_upper_bound_units c
  | None => 0
  end.

Definition lots_cost (slices : list ExecutableCostSlice) (quantity : Z) : Z :=
  sumZ (lot_cost slices <$> seqZ 1 quantity).

(** Cost of a quantity vector: every lot of every action. *)
Definition portfolio_cost (p : ArbitrageProblem) (qs : list ActionQuantity) : Z :=
  sumZ ((λ q, match index_by ca_action_id (pb_actions p) !! aq_action_id q with
              | Some a => lots_cost (ca_cost_slices a) (aq_quantity_lots q)
              | None => 0 end) <$> qs).

Lemma sumZ_const {A} (f : A → Z) k l : (∀ x, x ∈ l → f x = k) → sumZ (f <$> l) = k * Z.of_nat (length l).
Proof.
  induction l as [|x l IH]; intros H; csimpl; [lia|].
  rewrite H by set_solver. rewrite IH by set_solver. simpl length. lia.
Qed.

Lemma lot_cost_here c slices lot :
  first_lot c ≤ lot ≤ last_lot c →
  lot_cost (c :: slices) lot = incremental_cost_upper_bound_units c.
Proof.
  intros [H1 H2]. unfold lot_cost, py_next. simpl.
  rewrite (proj2 (Z.leb_le _ _) H1), (proj2 (Z.leb_le _ _) H2). done.
Qed.

Lemma lot_cost_later c slices lot : last_lot c < lot → lot_cost (c :: slices) lot = lot_cost slices lot.
Proof.
  intros H. unfold lot_cost, py_next. simpl. rewrite (proj2 (Z.leb_gt lot (last_lot c)) H).
  by rewrite andb_false_r.
Qed.

Definition final_lot (prev : Z) (slices : list ExecutableCostSlice) : Z :=
  match last slices with Some c => last_lot c | None => prev end.

Lemma final_lot_cons prev c slices : final_lot prev (c :: slices) = final_lot (last_lot c) slices.
Proof. unfold final_lot. rewrite last_cons. by destruct (last slices). Qed.

Lemma slices_cost_reference prev slices total q t :
  contiguous prev slices → q ≤ final_lot prev slices →
  slices_cost total q slices = Ok t →
  t = total + sumZ (lot_cost slices <$> seqZ (prev + 1) (q - prev)).
Proof.
  revert prev total; induction slices as [|c slices IH]; intros prev total Hc Hq; simpl.
  - intros [= <-]. unfold final_lot in Hq. simpl in Hq. rewrite seqZ_nil by lia. simpl. lia.
  - rewrite final_lot_cons in Hq. simpl in Hc. destruct Hc as (Hf & Hle & Hc).
    destruct (q <? first_lot c) eqn:E; bool_prop.
    { intros [= <-]. rewrite seqZ_nil by lia. simpl. lia. }
    intros (d & [-> _]%checked_Ok & (n & [-> _]%checked_Ok & (k & [-> _]%checked_Ok
      & (t' & [-> _]%checked_Ok & Ht)%bind_Ok)%bind_Ok)%bind_Ok)%bind_Ok.
    apply (IH (last_lot c)) in Ht; [|done..]. subst t.
    set (n := Z.min q (last_lot c) - prev).
    replace (q - prev) with (n + Z.max 0 (q - last_lot c)) by lia.
    rewrite seqZ_app, fmap_app, sumZ_app by lia.
    rewrite (sumZ_const (lot_cost (c :: slices)) (incremental_cost_upper_bound_units c) (seqZ (prev + 1) n)).
    2: { intros lot Hlot%elem_of_seqZ. apply lot_cost_here. lia. }
    rewrite length_seqZ.
    destruct (decide (q ≤ last_lot c)).
    + rewrite (seqZ_nil (last_lot c + 1)), (seqZ_nil (prev + 1 + n)) by lia. simpl. nia.
    + replace (prev + 1 + n) with (last_lot c + 1) by lia.
      replace (Z.max 0 (q - last_lot c)) with (q - last_lot c) by lia.
      rewrite (sumZ_fmap_ext (lot_cost (c :: slices)) (lot_cost slices)).
      * nia.
      * intros lot Hlot%elem_of_seqZ. apply lot_cost_later. lia.
Qed.

Lemma quantity_cost_reference p total q t a :
  index_by ca_action_id (pb_actions p) !! aq_action_id q = Some a →
  contiguous 0 (ca_cost_slices a) →
  quantity_cost (index_by ca_action_id (pb_actions p)) total q = Ok t →
  t = total + lots_cost (ca_cost_slices a) (aq_quantity_lots q).
Proof.
  intros Ha Hc. unfold quantity_cost. rewrite Ha. simpl.
  intros (t' & Ht & (fin & Hfin & (u & Hle & [= <-])%bind_Ok)%bind_Ok)%bind_Ok.
  apply of_option_Ok in Hfin. apply require_Ok in Hle. bool_prop.
  apply (slices_cost_reference 0) in Ht; [|done|unfold final_lot; by rewrite Hfin].
  unfold lots_cost. replace (aq_quantity_lots q - 0) with (aq_quantity_lots q) in Ht by lia. done.
Qed.

Lemma wf_slices p a : wf_problem p → a ∈ pb_actions p → contiguous 0 (ca_cost_slices a).
Proof. intros Hwf Ha. by apply (proj1 (Forall_forall _ _) (wf_actions _ Hwf) a Ha). Qed.

Lemma cost_for_selected_reference p qs t :
  wf_problem p → cost_upper_bound_for_selected p qs = Ok t → t = portfolio_cost p qs.
Proof.
  intros Hwf. unfold cost_upper_bound_for_selected, portfolio_cost.
  enough (∀ a, foldM (quantity_cost (index_by ca_action_id (pb_actions p))) a qs = Ok t →
    t = a + portfolio_cost p qs) as H by (intros Ht; rewrite (H 0 Ht); unfold portfolio_cost; lia).
  unfold portfolio_cost. induction qs as [|q qs IH]; intros a; csimpl; [intros [= <-]; lia|].
  intros (b & Hb & Hr)%bind_Ok. rewrite (IH _ Hr).
  destruct (index_by ca_action_id (pb_actions p) !! aq_action_id q) as [act|] eqn:Ea.
  - eapply quantity_cost_reference in Hb; [|done|].
    + rewrite Hb. lia.
    + apply (wf_slices p); [done|]. by apply index_by_elem in Ea as [? _].
  - unfold quantity_cost in Hb. rewrite Ea in Hb. done.
Qed.

(** ** Selected quantities *)

Definition in_range (a : CandidateAction) (lots : Z) : Prop :=
  ca_min_quantity_lots a ≤ lots ≤ ca_max_quantity_lots a.

(** What a canonical quantity vector looks like: sorted, no duplicates, every
    entry a known action with a positive quantity in its range. *)
Record selection (p : ArbitrageProblem) (qs : list ActionQuantity) : Prop := {
  sel_unique : NoDup (aq_action_id <$> qs);
  sel_known : Forall (λ q, ∃ a, index_by ca_action_id (pb_actions p) !! aq_action_id q = Some a
                                ∧ in_range a (aq_quantity_lots q) ∧ 0 < aq_quantity_lots q) qs;
  sel_sorted : StronglySorted (λ x y, String.leb (aq_action_id x) (aq_action_id y) = true) qs;
}.

Lemma select_quantity_fold acts qs acc out :
  foldM (select_quantity acts) acc qs = Ok out →
  NoDup (aq_action_id <$> acc.1) →
  (∀ q, q ∈ acc.1 → aq_action_id q ∈ acc.2) →
  Forall (λ q, ∃ a, acts !! aq_action_id q = Some a ∧ in_range a (aq_quantity_lots q) ∧ 0 < aq_quantity_lots q) acc.1 →
  NoDup (aq_action_id <$> out.1) ∧
  Forall (λ q, ∃ a, acts !! aq_action_id q = Some a ∧ in_range a (aq_quantity_lots q) ∧ 0 < aq_quantity_lots q) out.1 ∧
  out.1 = acc.1 ++ filter (λ q, aq_quantity_lots q ≠ 0) qs.
Proof.
  revert acc; induction qs as [|q qs IH]; intros [selected seen]; simpl.
  { intros [= <-] ???. by rewrite app_nil_r. }
  intros ([selected' seen'] & Hq & Hr)%bind_Ok Hnd Hseen Hall. simpl in *.
  unfold select_quantity in Hq. destruct (acts !! aq_action_id q) as [a|] eqn:Ea; [|done].
  apply bind_Ok in Hq as (? & Hlots%require_Ok & Hq). apply bind_Ok in Hq as (? & Hdup%require_Ok & Hq).
  apply bind_Ok in Hq as (? & Hrange%require_Ok & Hq). bool_prop.
  rewrite filter_cons. injection Hq as <- <-.
  destruct (aq_quantity_lots q =? 0) eqn:E0; simpl in *; bool_prop.
  - rewrite decide_False by lia. apply (IH _ Hr); simpl; try done. set_solver.
  - rewrite decide_True by lia.
    destruct (IH _ Hr) as (Hr1 & Hr2 & Hr3); simpl.
    + rewrite fmap_app. apply NoDup_app. split_and!; [done| |apply NoDup_singleton].
      intros i (q' & -> & Hq')%list_elem_of_fmap. csimpl. rewrite list_elem_of_singleton. intros E.
      apply Hdup. rewrite <- E. auto.
    + intros q' [Hq'|Hq']%elem_of_app; set_solver.
    + apply Forall_app. split; [done|]. constructor; [|constructor].
      exists a. unfold in_range. split_and!; [done|lia..].
    + split_and!; [done..|]. rewrite Hr3. simpl. by rewrite <- app_assoc.
Qed.

Lemma selected_quantities_spec p qs sel :
  selected_quantities p qs = Ok sel →
  selection p sel ∧ sel = sort_on aq_action_id (filter (λ q, aq_quantity_lots q ≠ 0) qs).
Proof.
  unfold selected_quantities. intros ([l seen] & Hf & [= <-])%bind_Ok.
  apply select_quantity_fold in Hf as (Hnd & Hall & E); [|apply NoDup_nil_2|set_solver|constructor].
  simpl in *. split; [|by rewrite E]. constructor.
  - by rewrite sort_on_perm.
  - by rewrite sort_on_perm.
  - apply sort_on_sorted.
Qed.

(** * Allowed settlement scenarios

    The declarative meaning of a joint settlement: an outcome picks one atom of
    every contract; it is allowed when it satisfies every relation and selects
    no forbidden combination.  [enumerate_scenarios] lists exactly the allowed
    outcomes, and never raises on a well-formed problem. *)

(** ** Specification *)

(** One atom for every contract. *)
Definition outcome (p : ArbitrageProblem) (ω : string → TerminalAtom) : Prop :=
  ∀ s, s ∈ pb_terminal_state_sets p → ω (ts_market_contract_id s) ∈ ts_atoms s.

Definition kinds (ω : string → TerminalAtom) (ids : list string) : list TerminalKind :=
  (λ c, ta_kind (ω c)) <$> ids.

Definition all_normal (ks : list TerminalKind) : Prop := Forall (λ k, k = NORMAL_YES ∨ k = NORMAL_NO) ks.
Definition yes_count (ks : list TerminalKind) : nat := length (filter (.= NORMAL_YES) ks).

(** Relations bind only when every member settles normally; a native
    complement pair settles YES/NO, NO/YES or splits on both sides. *)
Definition relation_sat (ω : string → TerminalAtom) (r : RelationConstraint) : Prop :=
  let ks := kinds ω (rc_contract_ids r) in
  match rc_kind r with
  | NATIVE_COMPLEMENT =>
      ks = [NORMAL_YES; NORMAL_NO] ∨ ks = [NORMAL_NO; NORMAL_YES] ∨ ks = [SPLIT; SPLIT]
  | IMPLIES => all_normal ks → ks ≠ [NORMAL_YES; NORMAL_NO]
  | MUTUALLY_EXCLUSIVE => all_normal ks → (yes_count ks ≤ 1)%nat
  | EXACTLY_ONE => all_normal ks → yes_count ks = 1%nat
  end.

Definition selects (p : ArbitrageProblem) (ω : string → TerminalAtom) (atom_id : string) : Prop :=
  ∃ s, s ∈ pb_terminal_state_sets p ∧ ta_atom_id (ω (ts_market_contract_id s)) = atom_id.

Definition forbidden_sat (p : ArbitrageProblem) (ω : string → TerminalAtom) (f : ForbiddenAtomCombination) : Prop :=
  ¬ Forall (selects p ω) (fb_atom_ids f).

Record allowed (p : ArbitrageProblem) (ω : string → TerminalAtom) : Prop := {
  al_outcome : outcome p ω;
  al_relations : Forall (relation_sat ω) (cm_relations (pb_constraint_model p));
  al_forbidden : Forall (forbidden_sat p ω) (cm_forbidden_atom_combinations (pb_constraint_model p));
}.

(** The scenario the oracle reports for an outcome. *)
Definition scenario (p : ArbitrageProblem) (ω : string → TerminalAtom) : SettlementScenario :=
  Scenario ((λ s, SelAtom (ts_market_contract_id s) (ta_atom_id (ω (ts_market_contract_id s)))) <$> sorted_states p).

(** ** Joint choices are outcomes *)

Definition choice_of (p : ArbitrageProblem) (ω : string → TerminalAtom) : list TerminalAtom :=
  (λ s, ω (ts_market_contract_id s)) <$> sorted_states p.

Definition dummy_atom : TerminalAtom := {|
  ta_atom_id := ""; ta_kind := VOID; ta_rule_version := None; ta_payouts := [];
  ta_capital_release_at := None |}.

Definition outcome_of (states : list TerminalStateSet) (atoms : list TerminalAtom) (c : string) : TerminalAtom :=
  default dummy_atom (py_dict (zip (ts_market_contract_id <$> states) atoms) !! c).

Lemma sorted_states_elem p s : s ∈ sorted_states p ↔ s ∈ pb_terminal_state_sets p.
Proof. apply elem_of_sort_on. Qed.

Lemma sorted_states_NoDup p : NoDup (contracts p) → NoDup (ts_market_contract_id <$> sorted_states p).
Proof. unfold sorted_states. by rewrite sort_on_perm. Qed.

Lemma zip_fmap_l {A B} (f : A → B) (g : A → TerminalAtom) (l : list A) :
  zip (f <$> l) (g <$> l) = (λ x, (f x, g x)) <$> l.
Proof. induction l as [|x l IH]; csimpl; [done|]. by rewrite IH. Qed.

Lemma choice_dict_lookup p ω c :
  NoDup (contracts p) → c ∈ contracts p →
  py_dict (zip (ts_market_contract_id <$> sorted_states p) (choice_of p ω)) !! c = Some (ω c).
Proof.
  intros Hnd (s & Hs & <-)%elem_of_contracts. unfold choice_of. rewrite zip_fmap_l.
  apply py_dict_lookup.
  - rewrite <- list_fmap_compose. by apply sorted_states_NoDup.
  - apply list_elem_of_fmap. exists s. split; [done|]. by apply sorted_states_elem.
Qed.

Lemma outcome_of_choice states atoms :
  NoDup (ts_market_contract_id <$> states) →
  Forall2 (λ s t, t ∈ ts_atoms s) states atoms →
  (λ s, outcome_of states atoms (ts_market_contract_id s)) <$> states = atoms ∧
  ∀ s, s ∈ states → outcome_of states atoms (ts_market_contract_id s) ∈ ts_atoms s.
Proof.
  intros Hnd H2.
  assert (Hlk : ∀ i s t, states !! i = Some s → atoms !! i = Some t →
    outcome_of states atoms (ts_market_contract_id s) = t).
  { intros i s t Hs Ht. unfold outcome_of.
    assert (py_dict (zip (ts_market_contract_id <$> states) atoms) !! ts_market_contract_id s = Some t) as ->; [|done].
    apply py_dict_lookup.
    - rewrite fst_zip; [done|]. rewrite length_fmap. by rewrite (Forall2_length _ _ _ H2).
    - apply list_elem_of_lookup. exists i. rewrite lookup_zip_with, list_lookup_fmap, Hs. simpl. by rewrite Ht. }
  split.
  - apply list_eq. intros i. rewrite list_lookup_fmap.
    destruct (states !! i) as [s|] eqn:Hs; simpl.
    + destruct (Forall2_lookup_l _ _ _ _ _ H2 Hs) as (t & Ht & _). rewrite Ht. by rewrite (Hlk i s t).
    + symmetry. apply lookup_ge_None. rewrite <- (Forall2_length _ _ _ H2). by apply lookup_ge_None.
  - intros s (i & Hs)%list_elem_of_lookup.
    destruct (Forall2_lookup_l _ _ _ _ _ H2 Hs) as (t & Ht & Hin). by rewrite (Hlk i s t).
Qed.

Lemma elem_of_joint_choices p atoms :
  NoDup (contracts p) →
  atoms ∈ joint_choices p ↔ ∃ ω, outcome p ω ∧ atoms = choice_of p ω.
Proof.
  intros Hnd. unfold joint_choices. rewrite elem_of_product, Forall2_fmap_r. split.
  - intros H. assert (Forall2 (λ s t, t ∈ ts_atoms s) (sorted_states p) atoms) as H2.
    { apply Forall2_flip. eapply Forall2_impl; [exact H|]. intros t s Ht. by apply elem_of_sort_on in Ht. }
    destruct (outcome_of_choice (sorted_states p) atoms) as [E Ho]; [by apply sorted_states_NoDup|done|].
    exists (outcome_of (sorted_states p) atoms). split; [|done].
    intros s Hs. apply Ho. by apply sorted_states_elem.
  - intros (ω & Ho & ->). unfold choice_of. apply Forall2_fmap_l, Forall_Forall2_diag, Forall_forall.
    intros s Hs. apply elem_of_sort_on. apply Ho. by apply sorted_states_elem.
Qed.

Lemma scenario_of_choice p ω : scenario_of (sorted_states p) (choice_of p ω) = scenario p ω.
Proof.
  unfold scenario_of, scenario, choice_of. f_equal.
  rewrite zip_with_fmap_r. induction (sorted_states p) as [|s l IH]; csimpl; [done|]. by rewrite IH.
Qed.

(** ** The relation test *)

Lemma is_normal_spec k : is_normal k = true ↔ k = NORMAL_YES ∨ k = NORMAL_NO.
Proof. destruct k; naive_solver. Qed.

Lemma mapM_lookup_total (m : gmap string TerminalAtom) (ω : string → TerminalAtom) ids :
  (∀ c, c ∈ ids → m !! c = Some (ω c)) →
  mapM (λ c, of_option (KeyError c) (m !! c)) ids = Ok (ω <$> ids).
Proof.
  intros H. apply mapM_Ok, Forall2_fmap_r, Forall_Forall2_diag, Forall_forall.
  intros c Hc. by rewrite (H c Hc).
Qed.

Lemma existsb_not_normal ω ids :
  existsb (λ t, negb (is_normal (ta_kind t))) (ω <$> ids) = false ↔ all_normal (kinds ω ids).
Proof.
  unfold all_normal, kinds. rewrite Forall_fmap. induction ids as [|c ids IH]; csimpl.
  - split; [constructor|done].
  - rewrite orb_false_iff, negb_false_iff, Forall_cons, IH. simpl. by rewrite is_normal_spec.
Qed.

Lemma yes_count_fmap ω ids :
  length (filter (λ t, ta_kind t = NORMAL_YES) (ω <$> ids)) = yes_count (kinds ω ids).
Proof.
  unfold yes_count, kinds. induction ids as [|c ids IH]; csimpl; [done|].
  rewrite !filter_cons. case_decide; csimpl; lia.
Qed.

Lemma relation_violated_spec m ω r :
  (∀ c, c ∈ rc_contract_ids r → m !! c = Some (ω c)) →
  wf_arity (rc_kind r) (rc_contract_ids r) →
  ∃ b, relation_violated m r = Ok b ∧ (b = false ↔ relation_sat ω r).
Proof.
  intros Hm Har. unfold relation_violated, relation_sat. rewrite (mapM_lookup_total m ω) by done. simpl.
  assert (Hk : ta_kind <$> (ω <$> rc_contract_ids r) = kinds ω (rc_contract_ids r))
    by (unfold kinds; by rewrite <- list_fmap_compose).
  case_decide as Hnat.
  { rewrite Hnat, Hk. eexists. split; [done|].
    rewrite negb_false_iff, bool_decide_eq_true. set_solver. }
  destruct (existsb _ _) eqn:Ex.
  { eexists. split; [done|].
    assert (¬ all_normal (kinds ω (rc_contract_ids r))) by (rewrite <- existsb_not_normal, Ex; done).
    destruct (rc_kind r); tauto. }
  apply existsb_not_normal in Ex. rewrite yes_count_fmap.
  destruct (rc_kind r) eqn:Ekind; try done.
  - simpl in Har. destruct (rc_contract_ids r) as [|c1 [|c2 [|]]]; try done. csimpl.
    unfold kinds in *. csimpl in *. unfold is_yes. destruct (bool_decide _) eqn:E1; bool_prop.
    + eexists. split; [done|]. rewrite E1 in Ex. rewrite bool_decide_eq_false, E1. split.
      * intros Hno _ [= ?]. done.
      * intros Hs Hno. apply Hs; [done|]. by rewrite Hno.
    + eexists. split; [done|]. split; [|done]. intros _ _ [= ? ?]. done.
  - eexists. split; [done|]. rewrite Nat.ltb_ge. tauto.
  - eexists. split; [done|]. rewrite negb_false_iff, Nat.eqb_eq. tauto.
Qed.

Lemma any_violated_spec m ω rs :
  Forall (λ r, (∀ c, c ∈ rc_contract_ids r → m !! c = Some (ω c)) ∧ wf_arity (rc_kind r) (rc_contract_ids r)) rs →
  ∃ b, any_violated m rs = Ok b ∧ (b = false ↔ Forall (relation_sat ω) rs).
Proof.
  induction 1 as [|r rs [Hm Har] _ IH]; simpl.
  - exists false. split; [done|]. split; [constructor|done].
  - destruct (relation_violated_spec m ω r Hm Har) as (b & -> & Hb). simpl.
    destruct b.
    + exists true. split; [done|]. split; [done|]. intros [H _]%Forall_cons. by apply Hb in H.
    + destruct IH as (b & -> & Hb'). exists b. split; [done|]. rewrite Forall_cons, Hb'. tauto.
Qed.

Lemma forbidden_selected_spec p ω :
  forbidden_selected p (choice_of p ω) = false ↔
  Forall (forbidden_sat p ω) (cm_forbidden_atom_combinations (pb_constraint_model p)).
Proof.
  unfold forbidden_selected. set (l := cm_forbidden_atom_combinations _).
  assert (Hsel : ∀ i, i ∈ ta_atom_id <$> choice_of p ω ↔ selects p ω i).
  { intros i. unfold choice_of, selects. rewrite <- list_fmap_compose, list_elem_of_fmap. simpl.
    setoid_rewrite sorted_states_elem. naive_solver. }
  rewrite Forall_forall. unfold forbidden_sat. split.
  - intros H f Hf Hall.
    assert (existsb (λ f, forallb (λ i, bool_decide (i ∈ ta_atom_id <$> choice_of p ω)) (fb_atom_ids f)) l = true); [|congruence].
    apply existsb_exists. exists f. split; [by apply list_elem_of_In|].
    apply forallb_forall. intros i Hi. apply bool_decide_eq_true_2, Hsel.
    rewrite Forall_forall in Hall. apply Hall. by apply list_elem_of_In.
  - intros H. destruct (existsb _ _) eqn:E; [|done]. exfalso.
    apply existsb_exists in E as (f & Hf & Hall). apply list_elem_of_In in Hf. apply (H f Hf).
    rewrite Forall_forall. intros i Hi. apply list_elem_of_In in Hi.
    rewrite forallb_forall in Hall. apply Hall, bool_decide_eq_true_1, Hsel in Hi. done.
Qed.

(** The parts of well-formedness the enumeration relies on; they survive the
    removal of constraints and the absence of release times. *)
Record enumerable (p : ArbitrageProblem) : Prop := {
  en_contracts : NoDup (contracts p);
  en_relations : Forall (λ r, Forall (.∈ contracts p) (rc_contract_ids r) ∧
                              wf_arity (rc_kind r) (rc_contract_ids r)) (cm_relations (pb_constraint_model p));
}.

Lemma wf_enumerable p : wf_problem p → enumerable p.
Proof.
  intros Hwf. split; [apply Hwf|]. eapply Forall_impl; [apply Hwf|]. intros r Hr. split; apply Hr.
Qed.

Lemma joint_allowed_spec p ω :
  enumerable p →
  ∃ b, joint_allowed p (sorted_states p) (choice_of p ω) = Ok b ∧
    (b = true ↔ Forall (relation_sat ω) (cm_relations (pb_constraint_model p)) ∧
                Forall (forbidden_sat p ω) (cm_forbidden_atom_combinations (pb_constraint_model p))).
Proof.
  intros [Hnd Hrel]. unfold joint_allowed, violates_normal_relation.
  destruct (any_violated_spec (py_dict (zip (ts_market_contract_id <$> sorted_states p) (choice_of p ω))) ω
    (cm_relations (pb_constraint_model p))) as (v & -> & Hv).
  { eapply Forall_impl; [exact Hrel|]. intros r [Hc Har]. split; [|done].
    intros c Hin. rewrite Forall_forall in Hc. apply choice_dict_lookup; auto. }
  simpl. destruct v.
  - exists false. split; [done|]. split; [done|]. intros [H _]. by apply Hv in H.
  - eexists. split; [done|]. rewrite negb_true_iff, forbidden_selected_spec. tauto.
Qed.

(** ** Enumeration *)

Definition choice_allowed (p : ArbitrageProblem) (atoms : list TerminalAtom) : bool :=
  match joint_allowed p (sorted_states p) atoms with Ok b => b | Err _ => false end.

Lemma filterM_joint p :
  enumerable p →
  filterM (joint_allowed p (sorted_states p)) (joint_choices p)
  = Ok (filter (λ atoms, choice_allowed p atoms = true) (joint_choices p)).
Proof.
  intros He. apply filterM_pure. intros atoms (ω & _ & ->)%elem_of_joint_choices; [|apply He].
  unfold choice_allowed. by destruct (joint_allowed_spec p ω He) as (b & -> & _).
Qed.

Definition allowed_scenarios (p : ArbitrageProblem) : list SettlementScenario :=
  scenario_of (sorted_states p) <$> filter (λ atoms, choice_allowed p atoms = true) (joint_choices p).

Lemma elem_of_allowed_scenarios p sc :
  enumerable p → sc ∈ allowed_scenarios p ↔ ∃ ω, allowed p ω ∧ sc = scenario p ω.
Proof.
  intros He. unfold allowed_scenarios. rewrite list_elem_of_fmap.
  setoid_rewrite list_elem_of_filter. setoid_rewrite (elem_of_joint_choices p _ (en_contracts _ He)). split.
  - intros (atoms & -> & Hb & ω & Ho & ->). exists ω. rewrite scenario_of_choice. split; [|done].
    unfold choice_allowed in Hb. destruct (joint_allowed_spec p ω He) as (b & E & Hiff).
    rewrite E in Hb. apply Hiff in Hb as [? ?]. by constructor.
  - intros (ω & [Ho Hr Hf] & ->). exists (choice_of p ω). rewrite scenario_of_choice.
    split_and!; [done| |eauto]. unfold choice_allowed.
    destruct (joint_allowed_spec p ω He) as (b & -> & Hiff). by apply Hiff.
Qed.

Lemma raw_count_exact states n :
  raw_joint_state_count states = Ok n → n = foldr Z.mul 1 ((λ s, Z.of_nat (length (ts_atoms s))) <$> states).
Proof.
  unfold raw_joint_state_count.
  enough (∀ a, foldM (λ n s, checked_multiply n (Z.of_nat (length (ts_atoms s)))) a states = Ok n →
    n = a * foldr Z.mul 1 ((λ s, Z.of_nat (length (ts_atoms s))) <$> states)) as H by (intros Hn; rewrite (H 1 Hn); lia).
  induction states as [|s states IH]; intros a; csimpl; [intros [= <-]; lia|].
  intros (b & [-> _]%checked_Ok & Hb)%bind_Ok. rewrite (IH _ Hb). lia.
Qed.

Lemma joint_choices_length p :
  Z.of_nat (length (joint_choices p))
  = foldr Z.mul 1 ((λ s, Z.of_nat (length (ts_atoms s))) <$> sorted_states p).
Proof.
  unfold joint_choices. rewrite length_product, <- list_fmap_compose. f_equal.
  apply list_fmap_ext. intros _ s _. simpl. unfold sort_on. by rewrite length_sort.
Qed.

(** Every outcome of the enumeration, case by case. *)
Lemma enumerate_scenarios_cases p budget allow :
  enumerable p → rejects_issues allow (validate_problem p) = false →
  ∃ e, enumerate_scenarios p budget allow = Ok e ∧
  match se_scenarios e with
  | Some l => l = allowed_scenarios p ∧ l ≠ [] ∧ se_unknown_reason e = None ∧
              Z.of_nat (length (joint_choices p)) ≤ bg_max_joint_states budget
  | None => (se_unknown_reason e = Some NUMERIC_OVERFLOW) ∨
            (se_unknown_reason e = Some ORACLE_STATE_LIMIT_EXCEEDED ∧
               bg_max_joint_states budget < Z.of_nat (length (joint_choices p))) ∨
            (se_unknown_reason e = Some CONTRADICTORY_CONSTRAINT_MODEL ∧ allowed_scenarios p = [])
  end.
Proof.
  intros He Hrej. unfold enumerate_scenarios. rewrite Hrej.
  destruct (raw_joint_state_count (sorted_states p)) as [n|] eqn:En; [|eexists; split; [done|]; simpl; auto].
  apply raw_count_exact in En. rewrite <- joint_choices_length in En. subst n.
  destruct (_ <? _) eqn:El; bool_prop; [eexists; split; [done|]; simpl; auto|].
  rewrite filterM_joint by done. simpl. unfold allowed_scenarios.
  destruct (filter _ (joint_choices p)) as [|x l] eqn:Ef; eexists; (split; [done|]); simpl.
  - auto.
  - split_and!; done.
Qed.
