(* ===== verification/OracleEval.v ===== *)
(** * Evaluation of a fixed portfolio

    The evaluation of a quantity vector is sound against the declarative
    outcomes of [OracleScenario]: the reported payout is the minimum over all
    allowed outcomes, so [guaranteed_profit_units] is earned whatever settles;
    the reported cost is the lot-by-lot reference cost; the release time bounds
    every allowed release; and the qualification tests are the exact rational
    comparisons. *)

From S2P Require Import Prelude PyValue NLeg NLegForms NLegValidate NLegWf Oracle OracleScenario.
Local Open Scope Z_scope.

(** ** Specification of payouts *)

(** Payout per lot of one action under an outcome. *)
Definition payout_of (p : ArbitrageProblem) (ω : string → TerminalAtom) (action_id : string) : Z :=
  match index_by ca_action_id (pb_actions p) !! action_id with
  | None => 0
  | Some a =>
      match py_next (λ y, (ap_action_id y =? action_id)%string) (ta_payouts (ω (ca_market_contract_id a))) with
      | Some y => payout_lower_bound_per_lot_units y
      | None => 0
      end
  end.

(** What a quantity vector pays when [ω] settles. *)
Definition realized_payout (p : ArbitrageProblem) (ω : string → TerminalAtom) (qs : list ActionQuantity) : Z :=
  sumZ ((λ q, payout_of p ω (aq_action_id q) * aq_quantity_lots q) <$> qs).

(** ** Generic sums and dicts *)

Lemma sumZ_support (h : string → Z) (l k : list string) :
  NoDup l → NoDup k → (∀ i, i ∈ k → i ∈ l) → (∀ i, i ∈ l → i ∉ k → h i = 0) →
  sumZ (h <$> l) = sumZ (h <$> k).
Proof.
  intros Hl Hk Hsub Hz.
  rewrite (sumZ_perm _ _ (fmap_Permutation h _ _ (symmetry (filter_app_complement (.∈ k) l)))).
  rewrite fmap_app, sumZ_app.
  rewrite (sumZ_const h 0 (filter (λ x, x ∉ k) l)) by (intros i [? ?]%list_elem_of_filter; auto).
  rewrite (sumZ_perm (h <$> filter (.∈ k) l) (h <$> k)); [lia|].
  apply fmap_Permutation, NoDup_Permutation; [by apply NoDup_filter|done|].
  intros i. rewrite list_elem_of_filter. naive_solver.
Qed.

Lemma size_py_dict {V} (l : list (string * V)) : NoDup l.*1 → size (py_dict l) = length l.
Proof.
  induction l as [|[k v] l IH] using rev_ind; [done|].
  rewrite fmap_app, py_dict_snoc. intros (Hnd & Hdisj & _)%NoDup_app.
  rewrite map_size_insert_None, IH, length_app; [simpl; lia|done|].
  apply py_dict_None. intros Hk. apply (Hdisj k Hk). set_solver.
Qed.

Lemma mjoin_fmap {A B} (f : A → list B) (l : list A) : mjoin (f <$> l) = l ≫= f.
Proof. induction l as [|x l IH]; csimpl; [done|]. by rewrite IH. Qed.

(** ** The cut of an outcome *)

Definition outcome_payouts (p : ArbitrageProblem) (ω : string → TerminalAtom) : list ActionPayout :=
  pb_terminal_state_sets p ≫= λ s, ta_payouts (ω (ts_market_contract_id s)).

Section lookups.
Context (p : ArbitrageProblem) (Hwf : wf_problem p).

Lemma wf_state_in s : s ∈ pb_terminal_state_sets p → wf_state p s.
Proof. intros Hs. exact (proj1 (Forall_forall _ _) (wf_states _ Hwf) s Hs). Qed.

Lemma wf_atom_in s t : s ∈ pb_terminal_state_sets p → t ∈ ts_atoms s → wf_atom p s t.
Proof. intros Hs Ht. exact (proj1 (Forall_forall _ _) (ws_wf_atoms _ _ (wf_state_in s Hs)) t Ht). Qed.

Lemma state_atom_ids_NoDup s : s ∈ pb_terminal_state_sets p → NoDup (ta_atom_id <$> ts_atoms s).
Proof.
  intros Hs. pose proof (wf_atom_ids _ Hwf) as Hnd. unfold atom_ids in Hnd. revert Hnd Hs.
  generalize (pb_terminal_state_sets p). induction l as [|s' l IH]; [set_solver|].
  csimpl. intros (H1 & _ & H2)%NoDup_app [->|Hs]%elem_of_cons; auto.
Qed.
End lookups.

Section cut.
Context `{Sha256} (p : ArbitrageProblem) (Hwf : wf_problem p) (ω : string → TerminalAtom) (Ho : outcome p ω).

Lemma find_atom_spec s t : s ∈ pb_terminal_state_sets p → t ∈ ts_atoms s → find_atom s (ta_atom_id t) = Some t.
Proof.
  intros Hs Ht. unfold find_atom. destruct (py_next _ _) as [t'|] eqn:E.
  - apply py_next_Some in E as [Ht' E]. apply String.eqb_eq in E. f_equal.
    by apply (NoDup_key_eq ta_atom_id (ts_atoms s)); [apply (state_atom_ids_NoDup p); done|..].
  - rewrite py_next_None in E. specialize (E t Ht). by apply String.eqb_neq in E.
Qed.

Lemma selected_atoms_dict_lookup s :
  s ∈ pb_terminal_state_sets p →
  selected_atoms_dict (scenario p ω) !! ts_market_contract_id s
  = Some (ta_atom_id (ω (ts_market_contract_id s))).
Proof.
  intros Hs. unfold selected_atoms_dict, scenario. simpl. rewrite <- list_fmap_compose.
  apply py_dict_lookup.
  - rewrite <- list_fmap_compose. apply sorted_states_NoDup, Hwf.
  - apply list_elem_of_fmap. exists s. split; [done|]. by apply sorted_states_elem.
Qed.

Lemma cut_of_outcome :
  cut_from_scenario_unchecked p (scenario p ω)
  = Ok {| cut_id := "cut:" +:+ fingerprint_scenario (scenario p ω);
          cut_scenario := scenario p ω;
          cut_payout_per_lot := sort_on ap_action_id (outcome_payouts p ω) |}.
Proof.
  unfold cut_from_scenario_unchecked.
  assert (size (selected_atoms_dict (scenario p ω)) = length (sorted_states p)) as Hsize.
  { unfold selected_atoms_dict, scenario. simpl. rewrite <- list_fmap_compose, size_py_dict, length_fmap; [done|].
    rewrite <- list_fmap_compose. apply sorted_states_NoDup, Hwf. }
  assert (length (sorted_states p) = length (pb_terminal_state_sets p)) as Hlen
    by (unfold sorted_states; by rewrite sort_on_perm).
  rewrite Hsize. unfold scenario at 1. simpl sc_atoms. rewrite length_fmap, Nat.eqb_refl. simpl.
  rewrite (proj2 (mapM_Ok _ _ ((λ s, ta_payouts (ω (ts_market_contract_id s))) <$> pb_terminal_state_sets p))).
  2: { apply Forall2_fmap_r, Forall_Forall2_diag, Forall_forall. intros s Hs. unfold state_payouts.
    rewrite selected_atoms_dict_lookup by done. simpl. rewrite find_atom_spec by auto. done. }
  simpl. rewrite Hlen, Nat.eqb_refl. simpl. do 3 f_equal.
  unfold outcome_payouts. by rewrite mjoin_fmap.
Qed.

Lemma outcome_payouts_elem y :
  y ∈ outcome_payouts p ω ↔
  ∃ s, s ∈ pb_terminal_state_sets p ∧ y ∈ ta_payouts (ω (ts_market_contract_id s)).
Proof. unfold outcome_payouts. rewrite list_elem_of_bind. naive_solver. Qed.

Lemma payout_action s y :
  s ∈ pb_terminal_state_sets p → y ∈ ta_payouts (ω (ts_market_contract_id s)) →
  ∃ a, a ∈ pb_actions p ∧ ca_action_id a = ap_action_id y ∧ ca_market_contract_id a = ts_market_contract_id s.
Proof.
  intros Hs Hy. pose proof (wf_atom_in p Hwf s _ Hs (Ho s Hs)) as Hat.
  assert (ap_action_id y ∈ ap_action_id <$> ta_payouts (ω (ts_market_contract_id s))) as Hin
    by (apply list_elem_of_fmap; eauto).
  apply (wt_payout_ids _ _ _ Hat), list_elem_of_fmap in Hin as (a & E & Ha).
  unfold actions_of in Ha. apply list_elem_of_filter in Ha as [? ?]. eauto.
Qed.

Lemma action_state a :
  a ∈ pb_actions p →
  ∃ s, s ∈ pb_terminal_state_sets p ∧ ts_market_contract_id s = ca_market_contract_id a ∧
       ca_action_id a ∈ ap_action_id <$> ta_payouts (ω (ts_market_contract_id s)).
Proof.
  intros Ha. destruct (proj1 (elem_of_contracts p _) (wf_action_contracts _ Hwf a Ha)) as (s & Hs & E).
  exists s. split_and!; [done|done|]. apply (wt_payout_ids _ _ _ (wf_atom_in p Hwf s _ Hs (Ho s Hs))).
  apply list_elem_of_fmap. exists a. split; [done|]. unfold actions_of. apply list_elem_of_filter. split; congruence.
Qed.

Lemma outcome_payouts_NoDup : NoDup (ap_action_id <$> outcome_payouts p ω).
Proof.
  assert (∀ l, (∀ s, s ∈ l → s ∈ pb_terminal_state_sets p) → NoDup (ts_market_contract_id <$> l) →
    NoDup (ap_action_id <$> (l ≫= λ s, ta_payouts (ω (ts_market_contract_id s))))) as Hgen.
  { induction l as [|s l IH]; csimpl; intros Hsub Hnd; [constructor|].
    apply NoDup_cons in Hnd as [Hs Hnd]. rewrite fmap_app. apply NoDup_app. split_and!.
    - apply (wt_payout_unique p s), (wf_atom_in p Hwf); [set_solver|]. apply Ho. set_solver.
    - intros i (y & -> & Hy)%list_elem_of_fmap (y' & E & Hy')%list_elem_of_fmap.
      apply list_elem_of_bind in Hy' as (s' & Hy' & Hs').
      destruct (payout_action s y) as (a & Ha & Ea & Ec); [set_solver..|].
      destruct (payout_action s' y') as (a' & Ha' & Ea' & Ec'); [set_solver..|].
      assert (a = a') as <- by (apply (NoDup_key_eq ca_action_id (pb_actions p)); [apply Hwf|done|done|congruence]).
      apply Hs. apply list_elem_of_fmap. exists s'. split; [congruence|done].
    - apply IH; [set_solver|done]. }
  apply Hgen; [done|]. apply Hwf.
Qed.

Lemma payout_of_spec y : y ∈ outcome_payouts p ω → payout_of p ω (ap_action_id y) = payout_lower_bound_per_lot_units y.
Proof.
  intros (s & Hs & Hy)%outcome_payouts_elem. destruct (payout_action s y Hs Hy) as (a & Ha & Ea & Ec).
  unfold payout_of. rewrite (proj2 (index_by_lookup ca_action_id (pb_actions p) (ap_action_id y) a (wf_action_ids _ Hwf)))
    by done.
  rewrite Ec. destruct (py_next _ _) as [y'|] eqn:E.
  - apply py_next_Some in E as [Hy' E]. apply String.eqb_eq in E.
    f_equal. apply (NoDup_key_eq ap_action_id (ta_payouts (ω (ts_market_contract_id s)))); [|done|done|done].
    apply (wt_payout_unique p s), (wf_atom_in p Hwf); [done|]. by apply Ho.
  - rewrite py_next_None in E. specialize (E y Hy). by apply String.eqb_neq in E.
Qed.

Lemma selection_payout_id qs q :
  selection p qs → q ∈ qs → aq_action_id q ∈ ap_action_id <$> outcome_payouts p ω.
Proof.
  intros Hsel Hq. pose proof (proj1 (Forall_forall _ _) (sel_known _ _ Hsel) q Hq) as (a & Ha & _).
  apply index_by_elem in Ha as [Ha <-]. destruct (action_state a Ha) as (s & Hs & E & Hin).
  apply list_elem_of_fmap in Hin as (y & -> & Hy). apply list_elem_of_fmap. exists y. split; [done|].
  apply outcome_payouts_elem. eauto.
Qed.

(** The per-scenario loop of the evaluation computes the realized payout. *)
Lemma scenario_payout_exact qs v :
  selection p qs →
  scenario_payout p (py_dict ((λ q, (aq_action_id q, aq_quantity_lots q)) <$> qs)) (scenario p ω) = Ok v →
  v = realized_payout p ω qs.
Proof.
  intros Hsel. set (m := py_dict _). unfold scenario_payout. rewrite cut_of_outcome. simpl. intros Hf.
  set (h := λ i, payout_of p ω i * default 0 (m !! i)).
  apply (foldM_checked_sum (λ y, h (ap_action_id y))) in Hf.
  2: { intros y w Hy [-> _]%checked_Ok. apply elem_of_sort_on in Hy. unfold h. by rewrite payout_of_spec. }
  rewrite (sumZ_perm _ _ (fmap_Permutation _ _ _ (sort_on_perm ap_action_id (outcome_payouts p ω)))) in Hf.
  rewrite Hf. unfold realized_payout.
  change (λ y, h (ap_action_id y)) with (h ∘ ap_action_id). rewrite list_fmap_compose.
  assert (Hm : ∀ q, q ∈ qs → m !! aq_action_id q = Some (aq_quantity_lots q)).
  { intros q Hq. apply py_dict_lookup; [rewrite <- list_fmap_compose; apply Hsel|]. apply list_elem_of_fmap. eauto. }
  rewrite (sumZ_support h _ (aq_action_id <$> qs)).
  - rewrite <- list_fmap_compose. simpl. apply sumZ_fmap_ext. intros q Hq. unfold h. simpl. by rewrite Hm.
  - apply outcome_payouts_NoDup.
  - apply Hsel.
  - intros i (q & -> & Hq)%list_elem_of_fmap. by apply (selection_payout_id qs).
  - intros i _ Hi. unfold h, m. rewrite (proj2 (py_dict_None _ i)); [simpl; lia|].
    by rewrite <- list_fmap_compose.
Qed.
End cut.

(** ** The worst scenario *)

Lemma worst_before_le x b lt :
  worst_before x b = Ok lt →
  (lt = true → x.1.1 ≤ b.1.1) ∧ (lt = false → b.1.1 ≤ x.1.1).
Proof.
  destruct x as [[v f] s], b as [[v' f'] s']. unfold worst_before. simpl.
  destruct (v <? v') eqn:E1; bool_prop; [intros [= <-]; split; [lia|done]|].
  destruct (v' <? v) eqn:E2; bool_prop; [intros [= <-]; split; [done|lia]|].
  intros _. split; lia.
Qed.

Section worst.
Context `{Sha256} (p : ArbitrageProblem) (m : gmap string Z).

(** [w] is a minimal element of the scenarios seen so far. *)
Definition is_worst (l : list SettlementScenario) (w : Z * string * SettlementScenario) : Prop :=
  w.2 ∈ l ∧ scenario_payout p m w.2 = Ok w.1.1 ∧
  ∀ s, s ∈ l → ∃ v, scenario_payout p m s = Ok v ∧ w.1.1 ≤ v.

Lemma worst_step_spec l w s out :
  is_worst l w → worst_step p m (Some w) s = Ok out → ∃ w', out = Some w' ∧ is_worst (l ++ [s]) w'.
Proof.
  intros (Hin & Hw & Hall) (v & Hv & (lt & Hlt & [= <-])%bind_Ok)%bind_Ok.
  apply worst_before_le in Hlt as [Hlt1 Hlt2]. simpl in *. eexists. split; [done|].
  destruct lt; (split_and!; [set_solver|done|]); simpl; intros s' [Hs'|Hs']%elem_of_app.
  - destruct (Hall s' Hs') as (v' & ? & ?). exists v'. split; [done|]. specialize (Hlt1 eq_refl). lia.
  - apply list_elem_of_singleton in Hs' as ->. eauto with lia.
  - destruct (Hall s' Hs') as (v' & ? & ?). exists v'. split; [done|]. lia.
  - apply list_elem_of_singleton in Hs' as ->. exists v. split; [done|]. by apply Hlt2.
Qed.

Lemma worst_fold_spec l l' w out :
  is_worst l w → foldM (worst_step p m) (Some w) l' = Ok out → ∃ w', out = Some w' ∧ is_worst (l ++ l') w'.
Proof.
  revert l w; induction l' as [|s l' IH]; intros l w Hw.
  - intros [= <-]. exists w. by rewrite app_nil_r.
  - intros (o & Ho & Hr)%bind_Ok. apply (worst_step_spec l) in Ho as (w' & -> & Hw'); [|done].
    destruct (IH _ _ Hw' Hr) as (w'' & -> & H''). exists w''. split; [done|]. by rewrite <- app_assoc in H''.
Qed.

Lemma worst_scenario_spec l w : worst_scenario p m l = Ok w → is_worst l w.
Proof.
  unfold worst_scenario. intros (o & Hf & Ho%of_option_Ok)%bind_Ok. subst o.
  destruct l as [|s l]; [done|]. simpl in Hf. apply bind_Ok in Hf as (o & (v & Hv & [= <-])%bind_Ok & Hf).
  apply (worst_fold_spec [s]) in Hf as (w' & [= ->] & Hw'); [done|].
  split_and!; simpl; [set_solver|done|]. intros s' ->%list_elem_of_singleton. eauto with lia.
Qed.
End worst.

(** ** Release times *)

Lemma max_datetime_fold d l : 
  let m := foldl (λ m d, if datetime_ltb m d then d else m) d l in
  m ∈ d :: l ∧ ∀ x, x ∈ d :: l → dt_us x ≤ dt_us m.
Proof.
  revert d; induction l as [|e l IH]; intros d; simpl.
  - split; [set_solver|]. intros x ->%list_elem_of_singleton. lia.
  - destruct (IH (if datetime_ltb d e then e else d)) as [H1 H2]. split.
    + destruct (datetime_ltb d e); set_solver.
    + assert (dt_us d ≤ dt_us (if datetime_ltb d e then e else d) ∧ dt_us e ≤ dt_us (if datetime_ltb d e then e else d)) as [? ?].
      { destruct (datetime_ltb d e) eqn:E; unfold datetime_ltb in E; bool_prop; lia. }
      pose proof (H2 _ ltac:(left)). intros x [->|[->|?]%elem_of_cons]%elem_of_cons; [lia|lia|]. apply H2. by right.
Qed.

Lemma max_datetime_Some l m :
  max_datetime l = Some m → m ∈ l ∧ ∀ x, x ∈ l → dt_us x ≤ dt_us m.
Proof. destruct l as [|d l]; [done|]. intros [= <-]. apply max_datetime_fold. Qed.

Lemma mapM_id_Some {A} (l : list (option A)) k :
  mapM (M:=option) id l = Some k ↔ l = Some <$> k.
Proof.
  rewrite mapM_Some. split.
  - induction 1 as [|x o l k E H IH]; csimpl; [done|]. unfold id in E. by subst.
  - intros ->. apply Forall2_fmap_l, Forall_Forall2_diag, Forall_forall. done.
Qed.

Section release.
Context `{Sha256} (p : ArbitrageProblem) (Hwf : wf_problem p).

Lemma atom_release_outcome ω s :
  outcome p ω → s ∈ pb_terminal_state_sets p →
  atom_release p (SelAtom (ts_market_contract_id s) (ta_atom_id (ω (ts_market_contract_id s))))
  = Ok (ta_capital_release_at (ω (ts_market_contract_id s))).
Proof.
  intros Ho Hs. unfold atom_release. simpl.
  rewrite (proj2 (index_by_lookup ts_market_contract_id _ _ s (wf_contracts _ Hwf))) by done. simpl.
  by rewrite (proj2 (index_by_lookup ta_atom_id (ts_atoms s) _ (ω (ts_market_contract_id s))
                      (state_atom_ids_NoDup p Hwf s Hs))) by auto.
Qed.

(** The release times of the selected contracts over all allowed outcomes. *)
Definition release_of (qs : list ActionQuantity) (o : option datetime) : Prop :=
  ∃ ω a, allowed p ω ∧ a ∈ pb_actions p ∧ ca_action_id a ∈ aq_action_id <$> qs ∧
         o = ta_capital_release_at (ω (ca_market_contract_id a)).

Lemma selected_atoms_elem qs x :
  x ∈ filter (λ a, sa_market_contract_id a ∈ selected_contract_ids p qs) (allowed_scenarios p ≫= sc_atoms) ↔
  ∃ ω s a, allowed p ω ∧ s ∈ pb_terminal_state_sets p ∧ a ∈ pb_actions p ∧
    ca_action_id a ∈ aq_action_id <$> qs ∧ ca_market_contract_id a = ts_market_contract_id s ∧
    x = SelAtom (ts_market_contract_id s) (ta_atom_id (ω (ts_market_contract_id s))).
Proof.
  rewrite list_elem_of_filter, list_elem_of_bind. unfold selected_contract_ids.
  setoid_rewrite (elem_of_allowed_scenarios p _ (wf_enumerable p Hwf)).
  rewrite list_elem_of_fmap. setoid_rewrite list_elem_of_filter. split.
  - intros ((a & Ea & Hid & Ha) & sc & Hx & ω & Hω & ->).
    apply list_elem_of_fmap in Hx as (s & -> & Hs%sorted_states_elem). naive_solver.
  - intros (ω & s & a & Hω & Hs & Ha & Hid & Ec & ->). split; [naive_solver|].
    exists (scenario p ω). split; [|eauto]. apply list_elem_of_fmap. exists s. split; [done|].
    by apply sorted_states_elem.
Qed.

Lemma conservative_release_spec qs r :
  conservative_release p qs (allowed_scenarios p) = Ok r →
  ∃ d, r = Some d ∧ release_of qs (Some d) ∧
    ∀ o, release_of qs o → ∃ t, o = Some t ∧ dt_us t ≤ dt_us d.
Proof.
  unfold conservative_release. intros (rels & Hrel & Hr)%bind_Ok.
  assert (Hmem : ∀ o, o ∈ rels ↔ release_of qs o).
  { intros o. transitivity (∃ x, x ∈ filter (λ a, sa_market_contract_id a ∈ selected_contract_ids p qs)
                                      (allowed_scenarios p ≫= sc_atoms) ∧ atom_release p x = Ok o).
    - by apply mapM_elem.
    - setoid_rewrite selected_atoms_elem. unfold release_of. split.
      + intros (x & (ω & s & a & Hω & Hs & Ha & Hid & Ec & ->) & E).
        rewrite atom_release_outcome in E by (try apply Hω; done). injection E as <-.
        exists ω, a. rewrite Ec. done.
      + intros (ω & a & Hω & Ha & Hid & ->).
        destruct (proj1 (elem_of_contracts p _) (wf_action_contracts _ Hwf a Ha)) as (s & Hs & Ec).
        eexists. split; [exists ω, s, a; split_and!; done|].
        rewrite atom_release_outcome by (try apply Hω; done). by rewrite Ec. }
  destruct (mapM id rels) as [ds|] eqn:Eds.
  - apply mapM_id_Some in Eds. subst rels. apply bind_Ok in Hr as (d & Hd%of_option_Ok & [= <-]).
    apply max_datetime_Some in Hd as [Hin Hmax]. exists d. split_and!; [done| |].
    + apply Hmem. apply list_elem_of_fmap. eauto.
    + intros o Ho%Hmem. apply list_elem_of_fmap in Ho as (t & -> & Ht). eauto.
  - exfalso. apply mapM_None, Exists_exists in Eds as (o & Ho & Hnone). unfold id in Hnone. subst o.
    apply Hmem in Ho as (ω & a & Hω & Ha & _ & Hno).
    destruct (proj1 (elem_of_contracts p _) (wf_action_contracts _ Hwf a Ha)) as (s & Hs & Ec).
    rewrite <- Ec in Hno. destruct (wt_release _ _ _ (wf_atom_in p Hwf s _ Hs (al_outcome _ _ Hω s Hs))) as (d & Hd & _).
    congruence.
Qed.
End release.
