(* ===== verification/OracleQualify.v ===== *)
(** * Qualification and soundness of portfolio evaluation

    The integer cross-multiplications of [_qualification_passes] decide the
    rational comparisons they stand for, on exact release delays; and a
    returned evaluation is sound.  Evaluation is also total: on a valid problem
    the only exception left is [OverflowError]. *)

From Stdlib Require Import QArith.
From S2P Require Import Prelude PyValue NLeg NLegForms NLegValidate NLegWf Oracle OracleScenario OracleEval.
Local Open Scope Z_scope.

(** ** Release delay and occupied days *)

Lemma release_delay_exact p d s :
  release_delay_seconds p (Some d) = Ok s → s = ceil_div (dt_us d - dt_us (pb_as_of p)) US_PER_SECOND.
Proof.
  unfold release_delay_seconds. set (us := dt_us d - dt_us (pb_as_of p)).
  intros (days & [-> _]%checked_Ok & (whole & [-> _]%checked_Ok & [-> _]%checked_Ok)%bind_Ok)%bind_Ok.
  destruct (delta_parts us) as (E & Hs & Hm).
  pose proof (ceil_div_spec us US_PER_SECOND eq_refl) as Hc. unfold US_PER_SECOND in *.
  destruct (delta_microseconds us =? 0) eqn:E0; bool_prop; lia.
Qed.

Lemma occupied_days_exact p d n :
  occupied_days p (Some d) = Ok n →
  n = Z.max 1 (ceil_div (ceil_div (dt_us d - dt_us (pb_as_of p)) US_PER_SECOND) 86400).
Proof.
  unfold occupied_days. intros (s & Hs%release_delay_exact & (t & [-> _]%checked_Ok & [= <-])%bind_Ok)%bind_Ok.
  rewrite <- Hs. unfold ceil_div. do 2 f_equal. lia.
Qed.

(** ** The rational meaning of a qualification *)

(** The metric of a portfolio, as a rational; the denominators are positive
    where [metric_defined] holds. *)
Definition metric_Q (p : ArbitrageProblem) (m : QualificationMetric) (payout cost profit : Z) (d : datetime) : Q :=
  let delay := ceil_div (dt_us d - dt_us (pb_as_of p)) US_PER_SECOND in
  match m with
  | GUARANTEED_PROFIT_UNITS => profit # 1
  | NET_MARGIN_PPM => (profit * 1000000) # Z.to_pos payout
  | RETURN_ON_COST_PPM => (profit * 1000000) # Z.to_pos cost
  | ANNUALIZED_RETURN_PPM => (profit * 365 * 1000000) # Z.to_pos (cost * Z.max 1 (ceil_div delay 86400))
  | MAX_CAPITAL_RELEASE_DELAY_SECONDS => delay # 1
  end.

Definition metric_defined (m : QualificationMetric) (payout cost : Z) : Prop :=
  match m with
  | NET_MARGIN_PPM => 0 < payout
  | RETURN_ON_COST_PPM | ANNUALIZED_RETURN_PPM => 0 < cost
  | _ => True
  end.

Definition meets (c : QualificationConstraint) (x : Q) : Prop :=
  let threshold := qc_threshold_numerator c # Z.to_pos (qc_threshold_denominator c) in
  match qc_comparison c with
  | GREATER_THAN_OR_EQUAL => (threshold <= x)%Q
  | LESS_THAN_OR_EQUAL => (x <= threshold)%Q
  end.

Lemma meets_compare c n m l r :
  0 < qc_threshold_denominator c → 0 < m →
  l = n * qc_threshold_denominator c → r = qc_threshold_numerator c * m →
  compare (qc_comparison c) l r = true ↔ meets c (n # Z.to_pos m).
Proof.
  intros Hd Hm -> ->. unfold compare, meets, Qle. simpl. rewrite !Z2Pos.id by done.
  destruct (qc_comparison c); by rewrite Z.leb_le.
Qed.

Lemma qualification_passes_exact p c payout cost profit d b :
  wf_qualification c → metric_defined (qc_metric c) payout cost →
  qualification_passes p c payout cost profit (Some d) = Ok b →
  b = true ↔ meets c (metric_Q p (qc_metric c) payout cost profit d).
Proof.
  intros [_ _ _ Hden] Hdef. unfold qualification_passes, metric_Q.
  destruct (qc_metric c); simpl in Hdef.
  - intros (l & [-> _]%checked_Ok & [= <-])%bind_Ok.
    apply (meets_compare c profit 1); lia.
  - rewrite (proj2 (Z.leb_gt payout 0)), andb_false_r by lia.
    intros (l & ->%checked_product_Ok & (r & [-> _]%checked_Ok & [= <-])%bind_Ok)%bind_Ok.
    apply (meets_compare c _ payout); simpl; lia.
  - rewrite (proj2 (Z.leb_gt cost 0)), andb_false_r by lia.
    intros (l & ->%checked_product_Ok & (r & [-> _]%checked_Ok & [= <-])%bind_Ok)%bind_Ok.
    apply (meets_compare c _ cost); simpl; lia.
  - intros (n & Hn%occupied_days_exact & (l & ->%checked_product_Ok & (r & ->%checked_product_Ok & [= <-])%bind_Ok)%bind_Ok)%bind_Ok.
    rewrite <- Hn. apply (meets_compare c _ (cost * n)); simpl; nia.
  - intros (s & Hs%release_delay_exact & (l & [-> _]%checked_Ok & [= <-])%bind_Ok)%bind_Ok.
    rewrite <- Hs. apply (meets_compare c s 1); lia.
Qed.

(** ** Soundness of a returned evaluation *)

Section soundness.
Context `{Sha256}.

Record evaluation_sound (p : ArbitrageProblem) (qs : list ActionQuantity) (ev : PortfolioEvaluation) : Prop := {
  es_wf : wf_problem p;
  es_nonempty : pe_quantities ev ≠ [];
  es_selection : selection p (pe_quantities ev);
  es_quantities : pe_quantities ev = sort_on aq_action_id (filter (λ q, aq_quantity_lots q ≠ 0) qs);
  es_cost : pe_cost_upper_bound_units ev = portfolio_cost p (pe_quantities ev);
  es_profit : pe_guaranteed_profit_units ev = pe_payout_lower_bound_units ev - pe_cost_upper_bound_units ev;
  es_profit_int64 : int64 (pe_guaranteed_profit_units ev);
  es_worst : ∃ ω, allowed p ω ∧ pe_worst_scenario ev = scenario p ω ∧
                  pe_payout_lower_bound_units ev = realized_payout p ω (pe_quantities ev);
  es_lower : ∀ ω, allowed p ω → pe_payout_lower_bound_units ev ≤ realized_payout p ω (pe_quantities ev);
  es_release : ∃ d, pe_conservative_capital_release_at ev = Some d ∧
     release_of p (pe_quantities ev) (Some d) ∧
     ∀ o, release_of p (pe_quantities ev) o → ∃ t, o = Some t ∧ dt_us t ≤ dt_us d;
  es_failed : ∀ c, c ∈ pb_qualification_constraints p →
     ∃ b, qualification_passes p c (pe_payout_lower_bound_units ev) (pe_cost_upper_bound_units ev)
            (pe_guaranteed_profit_units ev) (pe_conservative_capital_release_at ev) = Ok b ∧
          (b = true ↔ qc_constraint_id c ∉ pe_failed_qualification_ids ev);
  es_failed_known : ∀ i, i ∈ pe_failed_qualification_ids ev →
     i ∈ qc_constraint_id <$> pb_qualification_constraints p;
}.

Lemma rejects_strict issues : rejects_issues false issues = false ↔ issues = [].
Proof. destruct issues; done. Qed.

Lemma failed_ids_spec p payout cost profit d l :
  NoDup (qc_constraint_id <$> pb_qualification_constraints p) →
  filterM (qualification_fails p payout cost profit (Some d))
    (sort_on qc_constraint_id (pb_qualification_constraints p)) = Ok l →
  ∀ c, c ∈ pb_qualification_constraints p →
    ∃ b, qualification_passes p c payout cost profit (Some d) = Ok b ∧
         (b = true ↔ qc_constraint_id c ∉ qc_constraint_id <$> l).
Proof.
  intros Hnd Hl c Hc. apply filterM_Ok in Hl as [Hok Hl].
  destruct (Hok c) as [f Hf]; [by apply elem_of_sort_on|]. pose proof Hf as Hf'.
  unfold qualification_fails in Hf. rewrite bool_decide_eq_false_2 in Hf by done. simpl in Hf.
  apply bind_Ok in Hf as (b & Hb & [= <-]). exists b. split; [done|]. split.
  - intros -> (c' & E & Hc')%list_elem_of_fmap. apply Hl in Hc' as [Hc' Hfail].
    apply elem_of_sort_on in Hc'. assert (c = c') as <- by (by apply (NoDup_key_eq qc_constraint_id (pb_qualification_constraints p))).
    rewrite Hf' in Hfail. done.
  - intros Hn. destruct b; [done|]. exfalso. apply Hn. apply list_elem_of_fmap. exists c. split; [done|].
    apply Hl. split; [by apply elem_of_sort_on|done].
Qed.

Lemma evaluate_sound p qs budget ev :
  evaluate_fixed_portfolio p qs budget = Ok ev → evaluation_sound p qs ev.
Proof.
  unfold evaluate_fixed_portfolio, evaluate_portfolio.
  intros (? & Hv%require_Ok & (sel & Hsel & (? & Hne%require_Ok & (en & Hen & Hr)%bind_Ok)%bind_Ok)%bind_Ok)%bind_Ok.
  apply bind_Ok in Hr as (scs & Hscs%of_option_Ok & Hr). apply bind_Ok in Hr as ([[payout f] worst] & Hw & Hr).
  apply bind_Ok in Hr as (rel & Hrel & Hr). apply bind_Ok in Hr as (cost & Hcost & Hr).
  apply bind_Ok in Hr as (profit & [-> Hpi]%checked_Ok & Hr). apply bind_Ok in Hr as (cut & Hcut & Hr).
  apply bind_Ok in Hr as (failed & Hfailed & [= <-]).
  apply negb_true_iff in Hv. pose proof Hv as Hv'. apply rejects_strict, validate_problem_wf in Hv'. rename Hv' into Hwf.
  apply negb_true_iff, bool_decide_eq_false_1 in Hne.
  apply selected_quantities_spec in Hsel as [Hsel Eq].
  destruct (enumerate_scenarios_cases p budget false (wf_enumerable p Hwf) Hv) as (e & He & Hcase).
  rewrite Hen in He. injection He as <-. rewrite Hscs in Hcase. destruct Hcase as (-> & _).
  apply worst_scenario_spec in Hw as (Hin & Hwp & Hmin). simpl in *.
  apply elem_of_allowed_scenarios in Hin as (ω & Hω & ->); [|by apply wf_enumerable].
  apply conservative_release_spec in Hrel as (d & -> & Hd & Hmax); [|done].
  split; simpl; [done|done|done|done| |done|done| | |eauto| |].
  - by apply cost_for_selected_reference.
  - exists ω. split_and!; [done..|]. eapply scenario_payout_exact; [done|apply Hω|done|done].
  - intros ω' Hω'. destruct (Hmin (scenario p ω')) as (v & Hv2 & Hle).
    { apply elem_of_allowed_scenarios; [by apply wf_enumerable|eauto]. }
    apply scenario_payout_exact in Hv2; [by subst|done|apply Hω'|done].
  - apply failed_ids_spec; [apply Hwf|done].
  - intros i (c & -> & Hc)%list_elem_of_fmap. apply filterM_Ok in Hfailed as [_ Hl].
    apply Hl in Hc as [Hc%elem_of_sort_on _]. apply list_elem_of_fmap. eauto.
Qed.
End soundness.

(** ** Totality

    On a valid problem the evaluation raises nothing but [OverflowError], and
    [TypeError] when two scenarios share a fingerprint. *)

(** Scenarios of distinct outcomes have distinct fingerprints; Python would
    otherwise compare the scenarios themselves and raise [TypeError]. *)
Definition distinct_fingerprints `{Sha256} (p : ArbitrageProblem) : Prop :=
  ∀ ω ω', outcome p ω → outcome p ω' →
    fingerprint_scenario (scenario p ω) = fingerprint_scenario (scenario p ω') → scenario p ω = scenario p ω'.

Section totality.
Context `{Sha256} (E : list exn) (HE : OverflowError ∈ E).

Lemma safe_checked v : safe E (checked v).
Proof. unfold checked. by destruct (in_int64 v). Qed.

Lemma safe_checked_product l : safe E (checked_product l).
Proof. apply safe_foldM'. intros. apply safe_checked. Qed.

Lemma safe_slices_cost total n slices : safe E (slices_cost total n slices).
Proof.
  revert total; induction slices as [|c slices IH]; intros total; simpl; [done|].
  destruct (_ <? _); [done|]. repeat (apply safe_bind; [apply safe_checked|intros ??]). apply IH.
Qed.

Lemma safe_cost p qs : wf_problem p → selection p qs → safe E (cost_upper_bound_for_selected p qs).
Proof.
  intros Hwf [_ Hsel _]. apply safe_foldM'. intros total q Hq.
  destruct (proj1 (Forall_forall _ _) Hsel q Hq) as (a & Ha & [_ Hmax] & _). unfold quantity_cost. rewrite Ha. simpl.
  apply safe_bind; [apply safe_slices_cost|]. intros t _.
  apply index_by_elem in Ha as [Ha _].
  destruct (wa_covered _ _ (proj1 (Forall_forall _ _) (wf_actions _ Hwf) a Ha)) as (c & -> & Hc). simpl.
  apply safe_bind; [|done]. apply safe_require, Z.leb_le. lia.
Qed.

Lemma safe_release_delay p d : safe E (release_delay_seconds p (Some d)).
Proof. simpl. repeat (apply safe_bind; [apply safe_checked|intros ??]). apply safe_checked. Qed.

Lemma safe_occupied_days p d : safe E (occupied_days p (Some d)).
Proof.
  unfold occupied_days. apply safe_bind; [apply safe_release_delay|]. intros ??.
  by apply safe_bind; [apply safe_checked|].
Qed.

Hint Resolve safe_checked safe_checked_product safe_release_delay safe_occupied_days : safe.

Lemma safe_qualification p c payout cost profit d :
  safe E (qualification_passes p c payout cost profit (Some d)).
Proof.
  unfold qualification_passes, checked_multiply. destruct (qc_metric c); try destruct (_ && _); try done;
    repeat (apply safe_bind; [solve [auto with safe nocore]|intros ??]); done.
Qed.

Context (p : ArbitrageProblem) (Hwf : wf_problem p) (Hd : TypeError ∈ E ∨ distinct_fingerprints p).

Lemma safe_scenario_payout m ω : outcome p ω → safe E (scenario_payout p m (scenario p ω)).
Proof.
  intros Ho. unfold scenario_payout. rewrite cut_of_outcome by done. simpl. apply safe_foldM'.
  intros t y _. apply safe_bind; [apply safe_checked|]. intros ??. apply safe_checked.
Qed.

Lemma allowed_scenarios_outcome s : s ∈ allowed_scenarios p → ∃ ω, allowed p ω ∧ s = scenario p ω.
Proof. apply elem_of_allowed_scenarios. by apply wf_enumerable. Qed.

Lemma safe_worst_before v v' s s' :
  s ∈ allowed_scenarios p → s' ∈ allowed_scenarios p →
  safe E (worst_before (v, fingerprint_scenario s, s) (v', fingerprint_scenario s', s')).
Proof.
  intros (ω & [Hω _ _] & ->)%allowed_scenarios_outcome (ω' & [Hω' _ _] & ->)%allowed_scenarios_outcome.
  unfold worst_before. destruct (v <? v'); [done|]. destruct (v' <? v); [done|].
  destruct (_ =? _)%string eqn:Ef; [|done]. apply String.eqb_eq in Ef.
  case_decide as Hne; [done|]. destruct Hd as [?|Hdist]; [done|]. by destruct Hne; apply Hdist.
Qed.

Lemma safe_worst_fold m : safe E (foldM (worst_step p m) None (allowed_scenarios p)).
Proof.
  apply (safe_foldM _ _ (λ best, ∀ b, best = Some b → b.1.2 = fingerprint_scenario b.2 ∧ b.2 ∈ allowed_scenarios p)).
  - done.
  - intros best s Hs Hb. unfold worst_step. apply safe_bind.
    { destruct (allowed_scenarios_outcome s Hs) as (ω & Hω & ->). apply safe_scenario_payout, Hω. }
    intros v _. destruct best as [[[v' f'] s']|]; [|done].
    destruct (Hb _ eq_refl) as [Hf Hs']. cbn [fst snd] in *. rewrite Hf.
    apply safe_bind; [by apply safe_worst_before|done].
  - intros best s best' Hs Hb (v & _ & Hr)%bind_Ok b ->. destruct best as [b0|].
    + apply bind_Ok in Hr as (lt & _ & [= <-]). destruct lt; [done|by apply Hb].
    + by injection Hr as <-.
Qed.

Lemma worst_fold_Some m s l best out :
  foldM (worst_step p m) best (s :: l) = Ok out → ∃ w, out = Some w.
Proof.
  revert s best; induction l as [|s' l IH]; intros s best (b & Hb & Hr)%bind_Ok.
  - injection Hr as <-. apply bind_Ok in Hb as (v & _ & Hb). destruct best; [|injection Hb as <-; eauto].
    apply bind_Ok in Hb as (? & _ & [= <-]). eauto.
  - by apply IH in Hr.
Qed.

Lemma safe_worst_scenario m : allowed_scenarios p ≠ [] → safe E (worst_scenario p m (allowed_scenarios p)).
Proof.
  intros Hne. unfold worst_scenario. apply safe_bind; [by apply safe_worst_fold|].
  intros o Ho. destruct (allowed_scenarios p); [done|]. apply worst_fold_Some in Ho as [w ->]. done.
Qed.

Lemma safe_conservative_release qs :
  selection p qs → qs ≠ [] → allowed_scenarios p ≠ [] →
  safe E (conservative_release p qs (allowed_scenarios p)).
Proof.
  intros Hsel Hqs Hne. unfold conservative_release.
  apply safe_bind.
  { apply safe_mapM. intros x (ω & s & a & Hω & Hs & _ & _ & _ & ->)%selected_atoms_elem; [|done].
    rewrite atom_release_outcome; [done|done|apply Hω|done]. }
  intros rels Hrels. destruct (mapM id rels) as [ds|] eqn:Eds; [|done].
  apply safe_bind; [|done]. apply mapM_id_Some in Eds. destruct ds as [|d ds]; [|done]. exfalso.
  destruct qs as [|q qs]; [done|].
  destruct (proj1 (Forall_forall _ _) (sel_known _ _ Hsel) q ltac:(set_solver)) as (a & Ha & _).
  apply index_by_elem in Ha as [Ha Eid].
  destruct (allowed_scenarios p) as [|sc scs] eqn:Es; [done|].
  destruct (allowed_scenarios_outcome sc) as (ω & Hω & ->); [rewrite Es; set_solver|].
  destruct (proj1 (elem_of_contracts p _) (wf_action_contracts _ Hwf a Ha)) as (s & Hs & Ec).
  assert (Hx : ta_capital_release_at (ω (ts_market_contract_id s)) ∈ rels).
  { rewrite (mapM_elem _ _ _ _ Hrels). rewrite <- Es. eexists. split.
    - apply selected_atoms_elem; [done|]. exists ω, s, a. split_and!; [done..| |done|reflexivity]. set_solver.
    - apply atom_release_outcome; [done|apply Hω|done]. }
  rewrite Eds in Hx. by apply not_elem_of_nil in Hx.
Qed.
End totality.

Lemma raw_count_small p n :
  wf_problem p → Z.of_nat (length (joint_choices p)) ≤ n → n ≤ INT64_MAX →
  raw_joint_state_count (sorted_states p) = Ok (Z.of_nat (length (joint_choices p))).
Proof.
  intros Hwf Hn Hmax. rewrite joint_choices_length in *. unfold raw_joint_state_count.
  assert (Hpos : Forall (λ s, (0 < length (ts_atoms s))%nat) (sorted_states p)).
  { unfold sorted_states. rewrite sort_on_perm. eapply Forall_impl; [apply Hwf|]. intros s Hs.
    pose proof (ws_atoms _ _ Hs). destruct (ts_atoms s); [done|simpl; lia]. }
  set (f := λ s, Z.of_nat (length (ts_atoms s))) in *.
  enough (∀ a, 1 ≤ a → a * foldr Z.mul 1 (f <$> sorted_states p) ≤ INT64_MAX →
    foldM (λ n s, checked_multiply n (f s)) a (sorted_states p) = Ok (a * foldr Z.mul 1 (f <$> sorted_states p))) as Hgen.
  { rewrite Hgen by lia. f_equal. lia. }
  clear Hn. induction Hpos as [|s l Hs Hpos IH]; intros a Ha; csimpl; [intros; f_equal; lia|].
  intros Hle. assert (1 ≤ f s) by (unfold f; lia).
  assert (1 ≤ foldr Z.mul 1 (f <$> l)).
  { clear -Hpos. induction Hpos as [|s l Hs _ IH]; csimpl; [lia|]. unfold f at 1. nia. }
  assert (checked_multiply a (f s) = Ok (a * f s)) as ->.
  { apply checked_Ok. split; [done|]. unfold int64, INT64_MIN. nia. }
  simpl. rewrite IH by nia. f_equal. lia.
Qed.

Lemma enumerate_scenarios_total p budget n :
  wf_problem p → allowed_scenarios p ≠ [] →
  raw_joint_state_count (sorted_states p) = Ok n → n ≤ bg_max_joint_states budget →
  enumerate_scenarios p budget false
  = Ok {| se_scenarios := Some (allowed_scenarios p); se_raw_joint_state_count := n; se_unknown_reason := None |}.
Proof.
  intros Hwf Hne Hraw Hn. unfold enumerate_scenarios.
  rewrite (proj2 (rejects_strict _) (proj2 (validate_problem_wf p) Hwf)).
  rewrite Hraw, (proj2 (Z.ltb_ge _ _)) by lia.
  rewrite filterM_joint by by apply wf_enumerable. simpl. revert Hne. unfold allowed_scenarios.
  by destruct (filter _ (joint_choices p)).
Qed.

(** A valid problem with an allowed outcome, inside the state budget, is
    evaluated for every valid non-empty quantity vector, unless a checked
    64-bit operation overflows. *)
Lemma evaluate_total `{Sha256} E p qs sel budget n :
  OverflowError ∈ E → TypeError ∈ E ∨ distinct_fingerprints p →
  wf_problem p → allowed_scenarios p ≠ [] →
  raw_joint_state_count (sorted_states p) = Ok n → n ≤ bg_max_joint_states budget →
  selected_quantities p qs = Ok sel → sel ≠ [] →
  safe E (evaluate_fixed_portfolio p qs budget).
Proof.
  intros HE Hd Hwf Hne Hraw Hb Hsel Hsne. unfold evaluate_fixed_portfolio, evaluate_portfolio.
  rewrite (proj2 (rejects_strict _) (proj2 (validate_problem_wf p) Hwf)). simpl. rewrite Hsel. simpl.
  apply selected_quantities_spec in Hsel as [Hsel _].
  rewrite bool_decide_eq_false_2 by done. simpl. rewrite (enumerate_scenarios_total p budget n) by done. simpl.
  apply safe_bind; [by apply safe_worst_scenario|]. intros [[v f] w] Hw.
  apply worst_scenario_spec in Hw as (Hin & _). simpl in Hin.
  apply elem_of_allowed_scenarios in Hin as (ω & Hω & ->); [|by apply wf_enumerable].
  apply safe_bind; [by apply safe_conservative_release|]. intros r Hr.
  apply conservative_release_spec in Hr as (d & -> & _); [|done].
  apply safe_bind; [by apply safe_cost|]. intros c _. apply safe_bind; [by apply safe_checked|]. intros pr _.
  rewrite cut_of_outcome by (done || apply Hω). simpl. apply safe_bind; [|done].
  apply safe_filterM. intros q _. unfold qualification_fails. simpl.
  by apply safe_bind; [apply safe_qualification|].
Qed.
