(* ===== verification/Support.v ===== *)
(** * Support graph, splitting and the portfolio proof

    [derive_selected_support_graph], [split_disconnected_solution] and
    [build_portfolio_solution] of
    [src/open_trader/prediction_n_leg_oracle.py].  Python sets are [gset]s; the
    places that iterate over one sort the result first. *)

From S2P Require Import Prelude PyValue NLeg NLegForms NLegValidate Oracle UnionFind.
Local Open Scope Z_scope.

(** ** Constraints and their contracts *)

(** [{atom.atom_id: state.market_contract_id ...}] *)
Definition atoms_to_contract (p : ArbitrageProblem) : gmap string string :=
  py_dict (pb_terminal_state_sets p ≫= λ s, (λ t, (ta_atom_id t, ts_market_contract_id s)) <$> ts_atoms s).

(** [{atoms_to_contract[atom_id] for atom_id in forbidden.atom_ids}], sorted *)
Definition forbidden_contract_ids (p : ArbitrageProblem) (f : ForbiddenAtomCombination) : res (list string) :=
  ids ← mapM (λ a, of_option (KeyError a) (atoms_to_contract p !! a)) (fb_atom_ids f);
  Ok (sorted_set ids).

(** [_constraint_contract_ids] *)
Definition constraint_contract_ids (p : ArbitrageProblem) (constraint_id : string) : res (list string) :=
  match py_next (λ r, (rc_constraint_id r =? constraint_id)%string) (cm_relations (pb_constraint_model p)) with
  | Some r => Ok (sorted_strings (rc_contract_ids r))
  | None =>
      match py_next (λ f, (fb_constraint_id f =? constraint_id)%string)
              (cm_forbidden_atom_combinations (pb_constraint_model p)) with
      | Some f => forbidden_contract_ids p f
      | None => Err (ValueError ("unknown constraint: " +:+ constraint_id))
      end
  end.

Definition all_constraint_ids (p : ArbitrageProblem) : list string :=
  (rc_constraint_id <$> cm_relations (pb_constraint_model p)) ++
  (fb_constraint_id <$> cm_forbidden_atom_combinations (pb_constraint_model p)).

(** [_problem_with_active_support_constraints] *)
Definition problem_with_active (p : ArbitrageProblem) (active relevant : gset string) : ArbitrageProblem :=
  set_constraint_model p {|
    cm_relations := filter (λ r, rc_constraint_id r ∉ relevant ∨ rc_constraint_id r ∈ active)
                      (cm_relations (pb_constraint_model p));
    cm_forbidden_atom_combinations :=
      filter (λ f, fb_constraint_id f ∉ relevant ∨ fb_constraint_id f ∈ active)
        (cm_forbidden_atom_combinations (pb_constraint_model p)) |}.

(** ** The closure loop of [derive_selected_support_graph] *)

Definition touches (p : ArbitrageProblem) (connected : gset string) (constraint_id : string) : res bool :=
  ids ← constraint_contract_ids p constraint_id;
  Ok (existsb (λ c, bool_decide (c ∈ connected)) ids).

Definition newly_relevant (p : ArbitrageProblem) (connected : gset string) : res (list string) :=
  filterM (touches p connected) (all_constraint_ids p).

Fixpoint closure_loop (p : ArbitrageProblem) (fuel : nat) (relevant connected : gset string)
  : res (gset string * gset string) :=
  match fuel with
  | O => Err OutOfFuel
  | S fuel =>
      newly ← newly_relevant p connected;
      added ← mapM (constraint_contract_ids p) newly;
      let expanded := connected ∪ list_to_set (mjoin added) in
      if decide ((list_to_set newly : gset string) = relevant ∧ expanded = connected)
      then Ok (relevant, connected)
      else closure_loop p fuel (list_to_set newly) expanded
  end.

(** Every iteration but the last two adds a contract of a constraint. *)
Definition closure_fuel (p : ArbitrageProblem) : nat := 3 + length (pb_terminal_state_sets p).

Definition support_closure (p : ArbitrageProblem) (selected_contracts : gset string)
  : res (gset string * gset string) :=
  closure_loop p (closure_fuel p) ∅ selected_contracts.

Section support.
Context `{Sha256}.

(** [==] on the optional release times *)
Definition release_eqb (a b : option datetime) : bool :=
  match a, b with
  | None, None => true
  | Some x, Some y => datetime_eqb x y
  | _, _ => false
  end.

Definition same_conclusion (trial ev : PortfolioEvaluation) : bool :=
  (pe_payout_lower_bound_units trial =? pe_payout_lower_bound_units ev) &&
  release_eqb (pe_conservative_capital_release_at trial) (pe_conservative_capital_release_at ev) &&
  bool_decide (pe_failed_qualification_ids trial = pe_failed_qualification_ids ev).

(** The elimination loop: drop each constraint, from the last id to the
    first, when the evaluation does not need it. *)
Fixpoint eliminate (p : ArbitrageProblem) (ev : PortfolioEvaluation) (budget : OracleBudget)
    (relevant active : gset string) (rechecks : Z) (ids : list string)
  : res (UnknownReason + gset string) :=
  match ids with
  | [] => Ok (inr active)
  | i :: ids =>
      if bg_max_support_rechecks budget <=? rechecks
      then Ok (inl ORACLE_SUPPORT_LIMIT_EXCEEDED)
      else
        let trial := active ∖ {[i]} in
        trial_ev ← evaluate_fixed_portfolio (problem_with_active p trial relevant) (pe_quantities ev) budget;
        eliminate p ev budget relevant (if same_conclusion trial_ev ev then trial else active) (rechecks + 1) ids
  end.

Definition sorted_elements (s : gset string) : list string := sorted_strings (elements s).

Definition evaluation_contracts (p : ArbitrageProblem) (ev : PortfolioEvaluation) : gset string :=
  list_to_set (selected_contract_ids p (pe_quantities ev)).

Definition derive_selected_support_graph (p : ArbitrageProblem) (ev : PortfolioEvaluation) (budget : OracleBudget)
  : res (UnknownReason + SelectedSupportGraph) :=
  require_valid p;;
  let selected := evaluation_contracts p ev in
  '(relevant, _) ← support_closure p selected;
  outcome ← eliminate p ev budget relevant relevant 0 (reverse (sorted_elements relevant));
  match outcome with
  | inl reason => Ok (inl reason)
  | inr active =>
      let constraint_ids := sorted_elements active in
      edges ← mapM (constraint_contract_ids p) constraint_ids;
      Ok (inr {| sg_action_ids := aq_action_id <$> pe_quantities ev;
                 sg_contract_ids := sorted_elements (selected ∪ list_to_set (mjoin edges));
                 sg_constraint_ids := constraint_ids;
                 sg_hyperedges := zip constraint_ids edges |})
  end.

(** ** [split_disconnected_solution] *)

Definition quantity_contract (actions_by_id : gmap string CandidateAction) (q : ActionQuantity) : res string :=
  a ← of_option (KeyError (aq_action_id q)) (actions_by_id !! aq_action_id q);
  Ok (ca_market_contract_id a).

(** The local [join], which returns at once on an empty tuple. *)
Definition join_connected (m : parents) (ids : list string) : res parents :=
  match ids with [] => Ok m | _ => join_ids m ids end.

Definition join_hyperedge (m : parents) (edge : string * list string) : res parents :=
  join_connected m (filter (λ c, is_Some (m !! c)) edge.2).

Definition group_step (actions_by_id : gmap string CandidateAction)
    (acc : list (string * list ActionQuantity) * parents) (q : ActionQuantity)
  : res (list (string * list ActionQuantity) * parents) :=
  let '(groups, m) := acc in
  c ← quantity_contract actions_by_id q;
  '(r, m) ← find m c;
  Ok (group_append r q groups, m).

(** [sorted(c for c in parent if find(c) == root)] *)
Definition component_step (r : string) (acc : list string * parents) (c : string)
  : res (list string * parents) :=
  let '(ids, m) := acc in
  '(r', m) ← find m c;
  Ok (if decide (r' = r) then ids ++ [c] else ids, m).

Definition identify_step (actions_by_id : gmap string CandidateAction)
    (acc : list (string * list ActionQuantity) * parents) (group : string * list ActionQuantity)
  : res (list (string * list ActionQuantity) * parents) :=
  let '(out, m) := acc in
  let quantities := sort_on aq_action_id group.2 in
  q ← of_option IndexError (head quantities);
  c ← quantity_contract actions_by_id q;
  '(r, m) ← find m c;
  '(ids, m) ← foldM (component_step r) ([], m) (elements (dom m));
  Ok (out ++ [("component:" +:+ join ":" (sorted_strings ids), quantities)], m).

(** Sorting the pairs compares quantity tuples when two component ids tie,
    which raises [TypeError]. *)
Definition split_disconnected_solution (p : ArbitrageProblem) (ev : PortfolioEvaluation)
    (graph : SelectedSupportGraph) : res (list (list ActionQuantity)) :=
  let actions_by_id := index_by ca_action_id (pb_actions p) in
  selected ← mapM (quantity_contract actions_by_id) (pe_quantities ev);
  let parent := singletons (sg_contract_ids graph ++ selected) in
  m ← foldM join_hyperedge parent (sg_hyperedges graph);
  '(groups, m) ← foldM (group_step actions_by_id) ([], m) (pe_quantities ev);
  '(identified, _) ← foldM (identify_step actions_by_id) ([], m) groups;
  require (bool_decide (NoDup identified.*1)) TypeError;;
  Ok (sort_on fst identified).*2.

(** ** [build_portfolio_solution] *)

(** [a < b] on optional release times: [None] is not comparable, nor is a
    naive time with an aware one. *)
Definition release_ltb (a b : option datetime) : res bool :=
  match a, b with
  | Some x, Some y =>
      match dt_offset x, dt_offset y with
      | Some _, Some _ | None, None => Ok (datetime_ltb x y)
      | _, _ => Err TypeError
      end
  | _, _ => Err TypeError
  end.

(** [a or b] whose right operand may raise *)
Definition or_else (a : bool) (b : res bool) : res bool := if a then Ok true else b.

(** [max(...)] of optional release times; Python raises [TypeError] as soon as
    it compares a [None]. *)
Definition max_release (l : list (option datetime)) : res (option datetime) :=
  match l with
  | [] => Err (ValueError "max() iterable argument is empty")
  | o :: l => foldM (λ m o, lt ← release_ltb m o; Ok (if lt : bool then o else m)) o l
  end.

Definition selected_payout (payout_by_action : gmap string Z) (total : Z) (q : ActionQuantity) : res Z :=
  y ← of_option (KeyError (aq_action_id q)) (payout_by_action !! aq_action_id q);
  v ← checked_multiply y (aq_quantity_lots q);
  checked_add total v.

Definition proof_mismatch (p : ArbitrageProblem) (ev : PortfolioEvaluation) (cut : WorstStateCut)
    (payout : Z) (worst_release : option datetime) : res bool :=
  or_else (negb (bool_decide (cut = pe_worst_state_cut ev)))
  (or_else (negb (payout =? pe_payout_lower_bound_units ev))
  (d ← checked_subtract (pe_payout_lower_bound_units ev) (pe_cost_upper_bound_units ev);
   or_else (negb (pe_guaranteed_profit_units ev =? d))
  (b ← release_ltb (pe_conservative_capital_release_at ev) worst_release;
   or_else b
  (release_ltb (pe_conservative_capital_release_at ev) (Some (pb_as_of p)))))).

Definition portfolio_proof (p : ArbitrageProblem) (ev : PortfolioEvaluation) (graph : SelectedSupportGraph)
    (problem_fingerprint : string) : PayoutProof := {|
  pp_schema_version := PAYOUT_PROOF_SCHEMA_V1;
  pp_result_kind := KIND_PORTFOLIO;
  pp_problem_fingerprint := problem_fingerprint;
  pp_portfolio_fingerprint := Some (fingerprint_quantities (pe_quantities ev));
  pp_worst_scenario := Some (pe_worst_scenario ev);
  pp_worst_state_cut := Some (pe_worst_state_cut ev);
  pp_payout_lower_bound_units := Some (pe_payout_lower_bound_units ev);
  pp_cost_upper_bound_units := Some (pe_cost_upper_bound_units ev);
  pp_guaranteed_profit_units := Some (pe_guaranteed_profit_units ev);
  pp_conservative_capital_release_at := pe_conservative_capital_release_at ev;
  pp_selected_support_graph := Some graph;
  pp_proof_method := "BOUNDED_EXACT_ORACLE_V1";
  pp_request_fingerprint := None;
  pp_source_problem_fingerprint := None;
  pp_qualification_fingerprint := Some (qualification_fingerprint p);
  pp_quantity_vectors_total := None;
  pp_quantity_vectors_examined := None;
  pp_joint_states_per_vector := None;
  pp_rejection_counts := [] |}.

Definition build_portfolio_solution (p : ArbitrageProblem) (ev : PortfolioEvaluation)
    (graph : SelectedSupportGraph) : res PortfolioSolution :=
  require_valid p;;
  selected ← selected_quantities p (pe_quantities ev);
  require (bool_decide (aq_action_id <$> pe_quantities ev = sg_action_ids graph))
    (ValueError "support graph actions must match evaluated quantities");;
  groups ← split_disconnected_solution p ev graph;
  require (length groups <=? 1)%nat (ValueError "disconnected portfolio requires separate evaluation");;
  same_cost ← (if decide (selected = pe_quantities ev)
               then c ← cost_upper_bound_for_selected p selected; Ok (c =? pe_cost_upper_bound_units ev)
               else Ok false);
  require same_cost (ValueError "evaluation does not match problem quantities or costs");;
  cut ← cut_from_scenario p (pe_worst_scenario ev);
  let payout_by_action :=
    py_dict ((λ y, (ap_action_id y, payout_lower_bound_per_lot_units y)) <$> cut_payout_per_lot cut) in
  payout ← foldM (selected_payout payout_by_action) 0 selected;
  releases ← mapM (atom_release p)
    (filter (λ a, sa_market_contract_id a ∈ selected_contract_ids p selected) (sc_atoms (pe_worst_scenario ev)));
  worst_release ← max_release releases;
  mismatch ← proof_mismatch p ev cut payout worst_release;
  require (negb mismatch) (ValueError "evaluation does not match problem payout proof");;
  fp ← fingerprint_problem p;
  Ok {| ps_quantities := pe_quantities ev; ps_payout_proof := portfolio_proof p ev graph fp |}.

End support.
