(* ===== verification/Search.v ===== *)
(** * Exhaustive search

    [quantity_vector_count] .. [find_qualified] of
    [src/open_trader/prediction_n_leg_oracle.py]: the search over every
    quantity vector of the domain. *)

From S2P Require Import Prelude PyValue NLeg NLegForms NLegValidate Oracle UnionFind Support.
Local Open Scope Z_scope.

Record SearchAudit := {
  au_quantity_vectors_total : Z;
  au_quantity_vectors_examined : Z;
  au_joint_states_per_vector : Z;
  au_rejection_counts : list (string * Z);
}.

(** ** The quantity domain *)

Definition domain_size (a : CandidateAction) : res Z :=
  d ← checked_subtract (ca_max_quantity_lots a) (ca_min_quantity_lots a);
  checked_add d 2.

Definition quantity_vector_count (p : ArbitrageProblem) : res Z :=
  require_valid p;;
  foldM (λ total a, d ← domain_size a; checked_multiply total d) 1 (pb_actions p).

(** [chain((0,), range(min, max + 1))] *)
Definition quantity_range (a : CandidateAction) : list Z :=
  0 :: seqZ (ca_min_quantity_lots a) (ca_max_quantity_lots a + 1 - ca_min_quantity_lots a).

Definition sorted_actions (p : ArbitrageProblem) : list CandidateAction := sort_on ca_action_id (pb_actions p).

Definition quantity_vectors (p : ArbitrageProblem) : list (list Z) :=
  product (quantity_range <$> sorted_actions p).

(** The quantities of a vector: the zero entries are dropped. *)
Definition vector_quantities (p : ArbitrageProblem) (lots : list Z) : list ActionQuantity :=
  filter (λ q, aq_quantity_lots q ≠ 0) (zip_with (λ a n, AQ (ca_action_id a) n) (sorted_actions p) lots).

Definition any_lots (lots : list Z) : bool := existsb (λ n, negb (n =? 0)) lots.

Section search.
Context `{Sha256}.

(** ** Proofs and results *)

Definition negative_kind (conclusion : BusinessStatus) : option ProofResultKind :=
  match conclusion with
  | NO_QUALIFIED_OPPORTUNITY => Some KIND_NO_QUALIFIED_OPPORTUNITY
  | NO_ARBITRAGE => Some KIND_NO_ARBITRAGE
  | QUALIFIED_FEASIBLE | BUSINESS_UNKNOWN => None
  end.

Definition build_exhaustive_search_proof (rq : OracleRequest) (audit : SearchAudit)
    (conclusion : BusinessStatus) (source_problem_fingerprint : option string) : res PayoutProof :=
  kind ← of_option (ValueError "exhaustive proof requires a negative business conclusion")
           (negative_kind conclusion);
  problem_fingerprint ← fingerprint_problem (rq_problem rq);
  request_fingerprint ← fingerprint_request rq;
  Ok {| pp_schema_version := PAYOUT_PROOF_SCHEMA_V1;
        pp_result_kind := kind;
        pp_problem_fingerprint := problem_fingerprint;
        pp_portfolio_fingerprint := None;
        pp_worst_scenario := None;
        pp_worst_state_cut := None;
        pp_payout_lower_bound_units := None;
        pp_cost_upper_bound_units := None;
        pp_guaranteed_profit_units := None;
        pp_conservative_capital_release_at := None;
        pp_selected_support_graph := None;
        pp_proof_method := "EXHAUSTIVE_ORACLE_V1";
        pp_request_fingerprint := Some request_fingerprint;
        pp_source_problem_fingerprint := source_problem_fingerprint;
        pp_qualification_fingerprint := Some (qualification_fingerprint (rq_problem rq));
        pp_quantity_vectors_total := Some (au_quantity_vectors_total audit);
        pp_quantity_vectors_examined := Some (au_quantity_vectors_examined audit);
        pp_joint_states_per_vector := Some (au_joint_states_per_vector audit);
        pp_rejection_counts := au_rejection_counts audit |}.

Definition no_bounds : ObjectiveBounds := {|
  ob_lower_bound_units := None; ob_upper_bound_units := None; ob_gap_units := None; ob_closed := false |}.

Definition unknown_result (reason : UnknownReason) : OracleResult := {|
  or_solve_status := SOLVE_UNKNOWN; or_proof_status := PROOF_UNKNOWN;
  or_business_status := BUSINESS_UNKNOWN; or_optimality_status := NOT_APPLICABLE;
  or_objective_bounds := no_bounds; or_solution := None; or_negative_proof := None;
  or_unknown_reason := Some reason |}.

Definition negative_result (status : BusinessStatus) (bounds : ObjectiveBounds) (proof : PayoutProof)
  : OracleResult := {|
  or_solve_status := SOLVE_INFEASIBLE; or_proof_status := PROVEN;
  or_business_status := status; or_optimality_status := NOT_APPLICABLE;
  or_objective_bounds := bounds; or_solution := None; or_negative_proof := Some proof;
  or_unknown_reason := None |}.

Definition feasible_result (optimality : OptimalityStatus) (bounds : ObjectiveBounds) (s : PortfolioSolution)
  : OracleResult := {|
  or_solve_status := SOLVE_FEASIBLE; or_proof_status := PROVEN;
  or_business_status := QUALIFIED_FEASIBLE; or_optimality_status := optimality;
  or_objective_bounds := bounds; or_solution := Some s; or_negative_proof := None;
  or_unknown_reason := None |}.

(** ** Rejections *)

(** [_record_rejections] *)
Definition record_rejections (ids : gset string) (ev : PortfolioEvaluation) : gset string :=
  ids ∪ list_to_set (pe_failed_qualification_ids ev).

(** [_merge_rejections] *)
Definition merge_rejections (counts : gmap string Z) (ids : gset string) : gmap string Z :=
  foldl (λ m i, <[i := default 0 (m !! i) + 1]> m) counts (elements ids).

Definition sorted_items (counts : gmap string Z) : list (string * Z) := sort_on fst (map_to_list counts).

(** ** Connected solutions *)

(** [_connected_qualified_solutions]; [fuel] bounds the recursion, whose
    quantity vectors get strictly shorter. *)
Fixpoint connected_solutions (fuel : nat) (p : ArbitrageProblem) (budget : OracleBudget)
    (ev : PortfolioEvaluation) (rejections : gset string)
  : res ((UnknownReason + list PortfolioSolution) * gset string) :=
  match fuel with
  | O => Err OutOfFuel
  | S fuel =>
      match derive_selected_support_graph p ev budget with
      | Err OverflowError => Ok (inl NUMERIC_OVERFLOW, rejections)
      | Err e => Err e
      | Ok (inl reason) => Ok (inl reason, rejections)
      | Ok (inr graph) =>
          groups ← split_disconnected_solution p ev graph;
          if (length groups =? 1)%nat then
            s ← build_portfolio_solution p ev graph; Ok (inr [s], rejections)
          else
            children ← mapM (λ qs, evaluate_fixed_portfolio p qs budget) groups;
            foldM (λ acc child,
              match acc with
              | (inl reason, rejections) => Ok (inl reason, rejections)
              | (inr solutions, rejections) =>
                  match pe_failed_qualification_ids child with
                  | _ :: _ => Ok (inr solutions, record_rejections rejections child)
                  | [] =>
                      '(out, rejections) ← connected_solutions fuel p budget child rejections;
                      Ok (match out with
                          | inl reason => inl reason
                          | inr more => inr (solutions ++ more)
                          end, rejections)
                  end
              end) (inr [], rejections) children
      end
  end.

Definition connected_qualified_solutions (p : ArbitrageProblem) (ev : PortfolioEvaluation)
    (budget : OracleBudget) (rejections : gset string)
  : res ((UnknownReason + list PortfolioSolution) * gset string) :=
  connected_solutions (S (length (pe_quantities ev))) p budget ev rejections.

(** [_connected_qualified_solution] *)
Definition connected_qualified_solution (p : ArbitrageProblem) (ev : PortfolioEvaluation)
    (budget : OracleBudget) (rejections : gset string)
  : res ((UnknownReason + option PortfolioSolution) * gset string) :=
  '(out, rejections) ← connected_qualified_solutions p ev budget rejections;
  Ok (match out with inl reason => inl reason | inr solutions => inr (head solutions) end, rejections).

(** ** Request checks *)

(** [_numeric_domain_preflight] *)
Definition numeric_domain_preflight (p : ArbitrageProblem) (budget : OracleBudget) : res unit :=
  foldM (λ _ lots,
    if any_lots lots
    then evaluate_fixed_portfolio p (vector_quantities p lots) budget;; Ok tt
    else Ok tt) tt (quantity_vectors p).

(** [_search_request_unknown_reason] *)
Definition search_request_unknown_reason (rq : OracleRequest) (mode : SearchMode) : res (option UnknownReason) :=
  let budget := rq_budget rq in
  if negb (rq_schema_version rq =? REQUEST_SCHEMA_V1)%string || negb (bool_decide (rq_mode rq = mode))
     || (bg_max_quantity_vectors budget <=? 0) || (bg_max_joint_states budget <=? 0)
     || (bg_max_support_rechecks budget <=? 0)
  then Ok (Some INVALID_MODEL)
  else
    match input_unknown_reason (rq_problem rq) with
    | Some reason => Ok (Some reason)
    | None =>
        match quantity_vector_count (rq_problem rq) with
        | Err OverflowError => Ok (Some NUMERIC_OVERFLOW)
        | Err e => Err e
        | Ok total =>
            if bg_max_quantity_vectors budget <? total then Ok (Some ORACLE_DECISION_LIMIT_EXCEEDED)
            else
              enumeration ← enumerate_allowed_scenarios (rq_problem rq) budget;
              match se_unknown_reason enumeration with
              | Some reason => Ok (Some reason)
              | None =>
                  match numeric_domain_preflight (rq_problem rq) budget with
                  | Err OverflowError => Ok (Some NUMERIC_OVERFLOW)
                  | Err e => Err e
                  | Ok _ => Ok None
                  end
              end
        end
    end.

(** ** The objective order *)

(** The proof fields of a portfolio proof are integers; Python would raise
    [TypeError] on [-None]. *)
Definition solution_profit (s : PortfolioSolution) : res Z :=
  of_option TypeError (pp_guaranteed_profit_units (ps_payout_proof s)).
Definition solution_cost (s : PortfolioSolution) : res Z :=
  of_option TypeError (pp_cost_upper_bound_units (ps_payout_proof s)).

(** [<] on tuples of [(action_id, quantity_lots)] pairs *)
Fixpoint quantities_ltb (x y : list ActionQuantity) : bool :=
  match x, y with
  | _, [] => false
  | [], _ :: _ => true
  | a :: x, b :: y =>
      if (aq_action_id a =? aq_action_id b)%string then
        if aq_quantity_lots a =? aq_quantity_lots b then quantities_ltb x y
        else aq_quantity_lots a <? aq_quantity_lots b
      else String.leb (aq_action_id a) (aq_action_id b)
  end.

(** [_solution_objective(s) < _solution_objective(t)]: higher profit, lower
    cost, fewer legs, then the quantities themselves. *)
Definition better_solution (s t : PortfolioSolution) : res bool :=
  ps ← solution_profit s; cs ← solution_cost s;
  pt ← solution_profit t; ct ← solution_cost t;
  let ns := Z.of_nat (length (ps_quantities s)) in
  let nt := Z.of_nat (length (ps_quantities t)) in
  Ok (if - ps =? - pt then
        if cs =? ct then
          if ns =? nt then quantities_ltb (ps_quantities s) (ps_quantities t)
          else ns <? nt
        else cs <? ct
      else - ps <? - pt).

Definition keep_best (best : option PortfolioSolution) (s : PortfolioSolution)
  : res (option PortfolioSolution) :=
  match best with
  | None => Ok (Some s)
  | Some b => lt ← better_solution s b; Ok (if lt : bool then Some s else Some b)
  end.

(** ** [_solve_exhaustive] *)

Record SearchState := {
  st_best : option PortfolioSolution;
  st_rejections : gmap string Z;
  st_examined : Z;
}.

Definition all_zero_rejection : gset string := {["ALL_ZERO"]}.

(** One iteration of the loop over the vectors. *)
Definition solve_step (p : ArbitrageProblem) (budget : OracleBudget) (st : SearchState) (lots : list Z)
  : res (UnknownReason + SearchState) :=
  let examined := st_examined st + 1 in
  if negb (any_lots lots) then
    Ok (inr {| st_best := st_best st; st_examined := examined;
               st_rejections := merge_rejections (st_rejections st) all_zero_rejection |})
  else
    ev ← evaluate_fixed_portfolio p (vector_quantities p lots) budget;
    match pe_failed_qualification_ids ev with
    | _ :: _ =>
        Ok (inr {| st_best := st_best st; st_examined := examined;
                   st_rejections := merge_rejections (st_rejections st) (record_rejections ∅ ev) |})
    | [] =>
        '(out, rejections) ← connected_qualified_solutions p ev budget ∅;
        match out with
        | inl reason => Ok (inl reason)
        | inr solutions =>
            best ← foldM keep_best (st_best st) solutions;
            Ok (inr {| st_best := best; st_examined := examined;
                       st_rejections := merge_rejections (st_rejections st) rejections |})
        end
    end.

Fixpoint solve_loop (p : ArbitrageProblem) (budget : OracleBudget) (st : SearchState) (vectors : list (list Z))
  : res (UnknownReason + SearchState) :=
  match vectors with
  | [] => Ok (inr st)
  | lots :: vectors =>
      out ← solve_step p budget st lots;
      match out with
      | inl reason => Ok (inl reason)
      | inr st => solve_loop p budget st vectors
      end
  end.

Definition initial_state : SearchState := {| st_best := None; st_rejections := ∅; st_examined := 0 |}.

Definition joint_states_product (p : ArbitrageProblem) : res Z :=
  checked_product ((λ s, Z.of_nat (length (ts_atoms s))) <$> pb_terminal_state_sets p).

Definition solve_exhaustive (rq : OracleRequest) (mode : SearchMode) : res OracleResult :=
  reason ← search_request_unknown_reason rq mode;
  match reason with
  | Some r => Ok (unknown_result r)
  | None =>
      let p := rq_problem rq in
      out ← solve_loop p (rq_budget rq) initial_state (quantity_vectors p);
      match out with
      | inl r => Ok (unknown_result r)
      | inr st =>
          total ← quantity_vector_count p;
          joint ← joint_states_product p;
          let audit := {| au_quantity_vectors_total := total;
                          au_quantity_vectors_examined := st_examined st;
                          au_joint_states_per_vector := joint;
                          au_rejection_counts := sorted_items (st_rejections st) |} in
          match st_best st with
          | None =>
              proof ← build_exhaustive_search_proof rq audit NO_QUALIFIED_OPPORTUNITY None;
              Ok (negative_result NO_QUALIFIED_OPPORTUNITY no_bounds proof)
          | Some s =>
              let profit := pp_guaranteed_profit_units (ps_payout_proof s) in
              Ok (feasible_result OPTIMAL
                    {| ob_lower_bound_units := profit; ob_upper_bound_units := profit;
                       ob_gap_units := Some 0; ob_closed := true |} s)
          end
      end
  end.

Definition solve_optimal (rq : OracleRequest) : res OracleResult := solve_exhaustive rq OPTIMIZATION.

(** ** [diagnose_raw_arbitrage] *)

Definition diagnostic_problem (p : ArbitrageProblem) : ArbitrageProblem := {|
  pb_schema_version := pb_schema_version p;
  pb_problem_id := pb_problem_id p +:+ ":raw-arbitrage-diagnostic";
  pb_as_of := pb_as_of p; pb_valuation_unit_id := pb_valuation_unit_id p;
  pb_actions := pb_actions p; pb_terminal_state_sets := pb_terminal_state_sets p;
  pb_constraint_model := pb_constraint_model p;
  pb_qualification_constraints := [] |}.

Definition diagnostic_request (p : ArbitrageProblem) (budget : OracleBudget) : OracleRequest := {|
  rq_schema_version := REQUEST_SCHEMA_V1; rq_mode := RAW_ARBITRAGE_DIAGNOSTIC;
  rq_problem := diagnostic_problem p; rq_budget := budget |}.

Definition diagnose_raw_arbitrage (p : ArbitrageProblem) (budget : OracleBudget) : res OracleResult :=
  let request := diagnostic_request p budget in
  result ← solve_exhaustive request RAW_ARBITRAGE_DIAGNOSTIC;
  if negb (bool_decide (or_business_status result = QUALIFIED_FEASIBLE)) then Ok result
  else
    s ← of_option AssertionError (or_solution result);
    profit ← solution_profit s;
    if 0 <? profit then Ok result
    else
      total ← quantity_vector_count (rq_problem request);
      joint ← joint_states_product (rq_problem request);
      source ← fingerprint_problem p;
      proof ← build_exhaustive_search_proof request
                {| au_quantity_vectors_total := total; au_quantity_vectors_examined := total;
                   au_joint_states_per_vector := joint; au_rejection_counts := [("ALL_ZERO", 1)] |}
                NO_ARBITRAGE (Some source);
      Ok (negative_result NO_ARBITRAGE (or_objective_bounds result) proof).

(** ** [find_qualified] *)

Definition admission_bounds (s : PortfolioSolution) : ObjectiveBounds := {|
  ob_lower_bound_units := pp_guaranteed_profit_units (ps_payout_proof s);
  ob_upper_bound_units := None; ob_gap_units := None; ob_closed := false |}.

(** The loop returns either the answer or the rejection counts. *)
Fixpoint admission_loop (p : ArbitrageProblem) (budget : OracleBudget) (counts : gmap string Z) (examined : Z)
    (vectors : list (list Z)) : res (OracleResult + gmap string Z * Z) :=
  match vectors with
  | [] => Ok (inr (counts, examined))
  | lots :: vectors =>
      let examined := examined + 1 in
      if negb (any_lots lots) then
        admission_loop p budget (merge_rejections counts all_zero_rejection) examined vectors
      else
        ev ← evaluate_fixed_portfolio p (vector_quantities p lots) budget;
        match pe_failed_qualification_ids ev with
        | _ :: _ => admission_loop p budget (merge_rejections counts (record_rejections ∅ ev)) examined vectors
        | [] =>
            '(out, rejections) ← connected_qualified_solution p ev budget ∅;
            match out with
            | inl reason => Ok (inl (unknown_result reason))
            | inr (Some s) => Ok (inl (feasible_result NOT_PROVEN (admission_bounds s) s))
            | inr None => admission_loop p budget (merge_rejections counts rejections) examined vectors
            end
        end
  end.

Definition find_qualified (rq : OracleRequest) : res OracleResult :=
  reason ← search_request_unknown_reason rq ADMISSION;
  match reason with
  | Some r => Ok (unknown_result r)
  | None =>
      let p := rq_problem rq in
      total ← quantity_vector_count p;
      let joint := foldl (λ n s, n * Z.of_nat (length (ts_atoms s))) 1 (pb_terminal_state_sets p) in
      out ← admission_loop p (rq_budget rq) ∅ 0 (quantity_vectors p);
      match out with
      | inl result => Ok result
      | inr (counts, examined) =>
          proof ← build_exhaustive_search_proof rq
                    {| au_quantity_vectors_total := total; au_quantity_vectors_examined := examined;
                       au_joint_states_per_vector := joint; au_rejection_counts := sorted_items counts |}
                    NO_QUALIFIED_OPPORTUNITY None;
          Ok (negative_result NO_QUALIFIED_OPPORTUNITY no_bounds proof)
      end
  end.

End search.
