(* ===== verification/SupportCorrect.v ===== *)
(** * Correctness of the support graph and of the split

    The support graph keeps a set of constraints under which the portfolio's
    worst payout is unchanged; the split partitions the quantities by
    connectivity in that graph; and the parts are independent, so the profit
    of the whole is bounded by the sum of the profits of the parts. *)

From stdpp Require Import relations.
From S2P Require Import Prelude PyValue NLeg NLegForms NLegValidate NLegWf Oracle OracleScenario OracleEval OracleQualify UnionFind Support.
Local Open Scope Z_scope.

(** ** Contracts of a constraint *)

Lemma atoms_to_contract_lookup p s t :
  NoDup (atom_ids p) → s ∈ pb_terminal_state_sets p → t ∈ ts_atoms s →
  atoms_to_contract p !! ta_atom_id t = Some (ts_market_contract_id s).
Proof.
  intros Hnd Hs Ht. unfold atoms_to_contract. apply py_dict_lookup.
  - revert Hnd. unfold atom_ids. generalize (pb_terminal_state_sets p). clear.
    intros l. induction l as [|s l IH]; csimpl; [done|]. rewrite fmap_app, <- list_fmap_compose.
    intros (H1 & H2 & H3)%NoDup_app. apply NoDup_app. split_and!; [done| |by apply IH].
    intros i Hi Hi'. apply (H2 i Hi). clear -Hi'. induction l as [|s l IH]; csimpl in *; [done|].
    rewrite fmap_app, <- list_fmap_compose in Hi'. apply elem_of_app in Hi'. apply elem_of_app. naive_solver.
  - apply list_elem_of_bind. exists s. split; [|done]. apply list_elem_of_fmap. eauto.
Qed.

Lemma forbidden_contracts_Ok p f :
  wf_problem p → f ∈ cm_forbidden_atom_combinations (pb_constraint_model p) →
  ∃ l, forbidden_contract_ids p f = Ok l ∧ Forall (.∈ contracts p) l.
Proof.
  intros Hwf Hf. unfold forbidden_contract_ids.
  pose proof (proj1 (Forall_forall _ _) (wf_forbiddens _ Hwf) f Hf) as [_ _ Hat].
  assert (∃ ids, mapM (λ a, of_option (KeyError a) (atoms_to_contract p !! a)) (fb_atom_ids f) = Ok ids
                 ∧ Forall (.∈ contracts p) ids) as (ids & -> & Hids).
  { induction Hat as [|a l Ha Hl IH]; [exists []; split; [done|constructor]|]. destruct IH as (ids & E & Hids).
    apply list_elem_of_bind in Ha as (s & (t & -> & Ht)%list_elem_of_fmap & Hs).
    exists (ts_market_contract_id s :: ids). simpl. rewrite (atoms_to_contract_lookup p s t) by (apply Hwf || done).
    simpl. rewrite E. simpl. split; [done|]. constructor; [|done]. apply elem_of_contracts. eauto. }
  simpl. eexists. split; [done|]. rewrite Forall_forall in *. intros c Hc. apply Hids. by apply elem_of_sorted_set.
Qed.

Lemma py_next_is_Some {A} (f : A → bool) l x : x ∈ l → f x = true → is_Some (py_next f l).
Proof.
  intros Hx Hf. destruct (py_next f l) eqn:E; [eauto|]. rewrite py_next_None in E.
  rewrite (E x Hx) in Hf. done.
Qed.

Lemma constraint_contracts_Ok p i :
  wf_problem p → i ∈ all_constraint_ids p →
  ∃ l, constraint_contract_ids p i = Ok l ∧ Forall (.∈ contracts p) l.
Proof.
  intros Hwf Hi. unfold constraint_contract_ids.
  destruct (py_next _ (cm_relations _)) as [r|] eqn:Er.
  - apply py_next_Some in Er as [Hr _]. eexists. split; [done|].
    unfold sorted_strings. rewrite sort_on_perm.
    apply (proj1 (Forall_forall _ _) (wf_relations _ Hwf) r Hr).
  - unfold all_constraint_ids in Hi. apply elem_of_app in Hi as [Hi|Hi].
    + apply list_elem_of_fmap in Hi as (r & -> & Hr). rewrite py_next_None in Er.
      specialize (Er r Hr). by apply String.eqb_neq in Er.
    + apply list_elem_of_fmap in Hi as (f & -> & Hf).
      destruct (py_next_is_Some (λ f', (fb_constraint_id f' =? fb_constraint_id f)%string) _ f Hf) as [f' E];
        [by apply String.eqb_eq|].
      rewrite E. apply py_next_Some in E as [Hf' _]. by apply forbidden_contracts_Ok.
Qed.

Lemma constraint_contracts_relation p r :
  wf_problem p → r ∈ cm_relations (pb_constraint_model p) →
  constraint_contract_ids p (rc_constraint_id r) = Ok (sorted_strings (rc_contract_ids r)).
Proof.
  intros Hwf Hr. unfold constraint_contract_ids.
  destruct (py_next_is_Some (λ r', (rc_constraint_id r' =? rc_constraint_id r)%string) _ r Hr) as [r' E];
    [by apply String.eqb_eq|].
  rewrite E. apply py_next_Some in E as [Hr' E]. apply String.eqb_eq in E.
  pose proof (wf_constraint_ids _ Hwf) as Hnd. apply NoDup_app in Hnd as (Hnd & _ & _).
  by rewrite (NoDup_key_eq rc_constraint_id _ r' r Hnd Hr' Hr E).
Qed.

Lemma constraint_contracts_forbidden p f :
  wf_problem p → f ∈ cm_forbidden_atom_combinations (pb_constraint_model p) →
  constraint_contract_ids p (fb_constraint_id f) = forbidden_contract_ids p f.
Proof.
  intros Hwf Hf. unfold constraint_contract_ids.
  pose proof (wf_constraint_ids _ Hwf) as Hnd. apply NoDup_app in Hnd as (_ & Hdisj & Hnd).
  destruct (py_next _ (cm_relations _)) as [r|] eqn:Er.
  - apply py_next_Some in Er as [Hr E]. apply String.eqb_eq in E. exfalso.
    apply (Hdisj (rc_constraint_id r)); apply list_elem_of_fmap; eauto.
  - destruct (py_next_is_Some (λ f', (fb_constraint_id f' =? fb_constraint_id f)%string) _ f Hf) as [f' E];
      [by apply String.eqb_eq|].
    rewrite E. apply py_next_Some in E as [Hf' E]. apply String.eqb_eq in E.
    by rewrite (NoDup_key_eq fb_constraint_id _ f' f Hnd Hf' Hf E).
Qed.

(** ** Constraints depend only on their contracts *)

Lemma relation_sat_agree ω ω' r :
  (∀ c, c ∈ rc_contract_ids r → ω c = ω' c) → relation_sat ω r → relation_sat ω' r.
Proof.
  intros H. unfold relation_sat. replace (kinds ω' (rc_contract_ids r)) with (kinds ω (rc_contract_ids r)); [done|].
  unfold kinds. apply list_fmap_ext. intros i c Hc. f_equal. apply H. by eapply list_elem_of_lookup_2.
Qed.

Lemma forbidden_sat_agree p ω ω' f l :
  wf_problem p → outcome p ω → outcome p ω' → forbidden_contract_ids p f = Ok l →
  (∀ c, c ∈ l → ω c = ω' c) → forbidden_sat p ω f → forbidden_sat p ω' f.
Proof.
  intros Hwf Ho Ho' (ids & Hids & [= <-])%bind_Ok Hag Hsat Hall. apply Hsat. clear Hsat.
  rewrite Forall_forall in *. intros a Ha. destruct (Hall a Ha) as (s & Hs & E). exists s. split; [done|].
  rewrite Hag; [done|]. apply elem_of_sorted_set. rewrite (mapM_elem _ _ _ _ Hids).
  exists a. split; [done|]. rewrite <- E. by rewrite (atoms_to_contract_lookup p s) by (auto || apply Hwf).
Qed.

(** ** The closure loop *)

Definition scope (p : ArbitrageProblem) (i : string) : list string :=
  match constraint_contract_ids p i with Ok l => l | Err _ => [] end.

Definition touching (p : ArbitrageProblem) (C : gset string) (i : string) : bool :=
  existsb (λ c, bool_decide (c ∈ C)) (scope p i).

Lemma touching_spec p C i : touching p C i = true ↔ ∃ c, c ∈ scope p i ∧ c ∈ C.
Proof.
  unfold touching. rewrite existsb_exists. setoid_rewrite <- list_elem_of_In.
  by setoid_rewrite bool_decide_eq_true.
Qed.

Section closure.
Context (p : ArbitrageProblem) (Hwf : wf_problem p).

Lemma scope_Ok i : i ∈ all_constraint_ids p → constraint_contract_ids p i = Ok (scope p i).
Proof. intros Hi. unfold scope. by destruct (constraint_contracts_Ok p i Hwf Hi) as (l & -> & _). Qed.

Lemma scope_contracts i c : i ∈ all_constraint_ids p → c ∈ scope p i → c ∈ contracts p.
Proof.
  intros Hi. unfold scope. destruct (constraint_contracts_Ok p i Hwf Hi) as (l & -> & Hl).
  rewrite Forall_forall in Hl. auto.
Qed.

Definition newly (C : gset string) : list string :=
  filter (λ i, touching p C i = true) (all_constraint_ids p).

Lemma newly_relevant_Ok C : newly_relevant p C = Ok (newly C).
Proof.
  apply filterM_pure. intros i Hi. unfold touches. rewrite scope_Ok by done. done.
Qed.

Lemma newly_elem C i : i ∈ newly C ↔ i ∈ all_constraint_ids p ∧ ∃ c, c ∈ scope p i ∧ c ∈ C.
Proof. unfold newly. rewrite list_elem_of_filter, touching_spec. tauto. Qed.

Lemma scopes_Ok l : Forall (.∈ all_constraint_ids p) l → mapM (constraint_contract_ids p) l = Ok (scope p <$> l).
Proof.
  intros Hl. apply mapM_Ok, Forall2_fmap_r, Forall_Forall2_diag. eapply Forall_impl; [exact Hl|].
  intros i Hi. by apply scope_Ok.
Qed.

Definition expand (C : gset string) : gset string := C ∪ list_to_set (newly C ≫= scope p).

Lemma closure_loop_S fuel R C :
  closure_loop p (S fuel) R C
  = if decide ((list_to_set (newly C) : gset string) = R ∧ expand C = C) then Ok (R, C)
    else closure_loop p fuel (list_to_set (newly C)) (expand C).
Proof.
  simpl. rewrite newly_relevant_Ok. simpl. rewrite scopes_Ok.
  2: { apply Forall_forall. intros i [? _]%newly_elem. done. }
  simpl. by rewrite mjoin_fmap.
Qed.

Lemma expand_elem C c : c ∈ expand C ↔ c ∈ C ∨ ∃ i, i ∈ newly C ∧ c ∈ scope p i.
Proof.
  unfold expand. rewrite elem_of_union, elem_of_list_to_set, list_elem_of_bind.
  split; (intros [?|(i & ? & ?)]; [by left|right; eauto]).
Qed.

Let universe : gset string := list_to_set (contracts p).

(** The fuel is enough: each round but two adds a contract. *)
Lemma closure_loop_total fuel R C :
  (size (universe ∖ C) + 2 ≤ fuel)%nat → ∃ out, closure_loop p fuel R C = Ok out.
Proof.
  revert R C; induction fuel as [|fuel IH]; intros R C Hfuel; [lia|]. rewrite closure_loop_S.
  case_decide as Hd; [eauto|]. destruct (decide (expand C = C)) as [E|E].
  - rewrite E. destruct fuel as [|fuel]; [lia|]. rewrite closure_loop_S, E. rewrite decide_True by done. eauto.
  - apply IH. enough (size (universe ∖ expand C) < size (universe ∖ C))%nat by lia.
    apply subset_size. split.
    + intros c. rewrite !elem_of_difference, expand_elem. naive_solver.
    + intros Hsub. apply E. apply set_eq. intros c. split; [|rewrite expand_elem; auto].
      intros Hc. destruct (decide (c ∈ C)); [done|]. exfalso.
      assert (c ∈ universe ∖ C) as Hu.
      { apply elem_of_difference. split; [|done]. unfold universe. apply elem_of_list_to_set.
        apply expand_elem in Hc as [?|(i & Hi & Hc)]; [done|].
        apply newly_elem in Hi as [Hi _]. by eapply scope_contracts. }
      apply Hsub, elem_of_difference in Hu as [_ ?]. done.
Qed.

Record closed_support (R C : gset string) : Prop := {
  cs_relevant : ∀ i, i ∈ R ↔ i ∈ all_constraint_ids p ∧ ∃ c, c ∈ scope p i ∧ c ∈ C;
  cs_closed : ∀ i c, i ∈ R → c ∈ scope p i → c ∈ C;
}.

Lemma closure_loop_spec fuel R C R' C' :
  closure_loop p fuel R C = Ok (R', C') → C ⊆ C' ∧ closed_support R' C'.
Proof.
  revert R C; induction fuel as [|fuel IH]; intros R C; [done|]. rewrite closure_loop_S.
  case_decide as Hd.
  - intros [= <- <-]. destruct Hd as [E1 E2]. split; [done|]. split.
    + intros i. rewrite <- E1, elem_of_list_to_set. apply newly_elem.
    + intros i c Hi Hc. rewrite <- E2. apply expand_elem. right. exists i. split; [|done].
      rewrite <- E1, elem_of_list_to_set in Hi. done.
  - intros H%IH. destruct H as [Hsub Hcl]. split; [|done].
    intros c Hc. apply Hsub, expand_elem. by left.
Qed.

Lemma support_closure_correct (S : gset string) :
  ∃ R C, support_closure p S = Ok (R, C) ∧ S ⊆ C ∧ closed_support R C.
Proof.
  destruct (closure_loop_total (closure_fuel p) ∅ S) as [[R C] E].
  - unfold closure_fuel. assert (size (universe ∖ S) ≤ length (pb_terminal_state_sets p))%nat; [|lia].
    trans (size universe); [apply subseteq_size; set_solver|].
    unfold universe. rewrite size_list_to_set by apply Hwf. unfold contracts. by rewrite length_fmap.
  - exists R, C. split; [done|]. by apply closure_loop_spec in E.
Qed.
End closure.

(** ** Eliminating constraints keeps the conclusion *)

Lemma problem_with_active_self p R :
  problem_with_active p R R = p.
Proof.
  destruct p as [? ? ? ? ? ? [rs fs] ?]. unfold problem_with_active, set_constraint_model. simpl. f_equal. f_equal.
  - induction rs as [|r rs IH]; [done|]. rewrite filter_cons, IH. rewrite decide_True; [done|].
    destruct (decide (rc_constraint_id r ∈ R)); auto.
  - induction fs as [|f fs IH]; [done|]. rewrite filter_cons, IH. rewrite decide_True; [done|].
    destruct (decide (fb_constraint_id f ∈ R)); auto.
Qed.

Lemma eliminate_spec `{Sha256} p ev budget R A n ids A' :
  (∃ ev', evaluate_fixed_portfolio (problem_with_active p A R) (pe_quantities ev) budget = Ok ev' ∧
          same_conclusion ev' ev = true) →
  eliminate p ev budget R A n ids = Ok (inr A') →
  A' ⊆ A ∧
  ∃ ev', evaluate_fixed_portfolio (problem_with_active p A' R) (pe_quantities ev) budget = Ok ev' ∧
         same_conclusion ev' ev = true.
Proof.
  revert A n; induction ids as [|i ids IH]; intros A n Hev; simpl.
  - intros [= <-]. done.
  - destruct (_ <=? _); [done|]. intros (tev & Ht & Hr)%bind_Ok.
    destruct (same_conclusion tev ev) eqn:E; [|by eapply IH].
    apply IH in Hr as [Hsub Hev']; [|eauto]. split; [set_solver|done].
Qed.

(** ** Re-evaluating a canonical quantity vector *)

Lemma select_quantity_all p qs acc :
  wf_problem p → NoDup (aq_action_id <$> qs) → (∀ q, q ∈ qs → aq_action_id q ∉ acc.2) →
  Forall (λ q, ∃ a, index_by ca_action_id (pb_actions p) !! aq_action_id q = Some a
                    ∧ in_range a (aq_quantity_lots q) ∧ 0 < aq_quantity_lots q) qs →
  ∃ seen, foldM (select_quantity (index_by ca_action_id (pb_actions p))) acc qs = Ok (acc.1 ++ qs, seen).
Proof.
  intros Hwf. revert acc; induction qs as [|q qs IH]; intros [sel seen]; cbn [foldM fst snd]; rewrite ?fmap_cons.
  { intros _ _ _. rewrite app_nil_r. eauto. }
  intros [Hq Hnd]%NoDup_cons Hseen ((a & Ha & [Hmin Hmax] & Hpos) & Hall)%Forall_cons.
  assert (select_quantity (index_by ca_action_id (pb_actions p)) (sel, seen) q
          = Ok (sel ++ [q], aq_action_id q :: seen)) as ->.
  { unfold select_quantity. rewrite Ha. apply index_by_elem in Ha as [Ha _].
    pose proof (proj1 (Forall_forall _ _) (wf_actions _ Hwf) a Ha) as Hwa.
    destruct (wa_bounds_int64 _ _ Hwa) as [_ [_ Hint]].
    rewrite (proj2 (Z.leb_le 0 _)), (proj2 (Z.leb_le _ INT64_MAX)) by lia. simpl.
    rewrite bool_decide_eq_false_2 by (apply Hseen; set_solver). simpl.
    rewrite (proj2 (Z.leb_le (ca_min_quantity_lots a) _)), (proj2 (Z.leb_le _ (ca_max_quantity_lots a))) by lia.
    rewrite orb_true_r. simpl. by rewrite (proj2 (Z.eqb_neq _ 0)) by lia. }
  destruct (IH (sel ++ [q], aq_action_id q :: seen)) as [seen' E]; [done| |done|].
  - intros q' Hq'. simpl. rewrite elem_of_cons. intros [E|?].
    + apply Hq. rewrite <- E. apply list_elem_of_fmap. eauto.
    + apply (Hseen q'); [set_solver|done].
  - exists seen'. simpl. rewrite E. simpl. by rewrite <- app_assoc.
Qed.

Lemma selected_quantities_id p qs : wf_problem p → selection p qs → selected_quantities p qs = Ok qs.
Proof.
  intros Hwf [Hnd Hk Hs]. unfold selected_quantities.
  destruct (select_quantity_all p qs ([], []) Hwf Hnd) as [seen ->]; [set_solver|done|]. simpl.
  by rewrite sort_on_sorted_id.
Qed.

Lemma evaluate_canonical `{Sha256} p qs budget ev :
  evaluate_fixed_portfolio p qs budget = Ok ev →
  evaluate_fixed_portfolio p (pe_quantities ev) budget = Ok ev.
Proof.
  intros Hev. pose proof (evaluate_sound _ _ _ _ Hev) as Hs. revert Hev.
  unfold evaluate_fixed_portfolio, evaluate_portfolio.
  rewrite (selected_quantities_id p (pe_quantities ev)) by apply Hs.
  destruct (require _ _); [simpl|done]. destruct (selected_quantities p qs) as [sel|] eqn:Es; [simpl|done].
  apply selected_quantities_spec in Es as [_ Es]. rewrite <- (es_quantities _ _ _ Hs) in Es. by subst.
Qed.

Lemma same_conclusion_refl ev : same_conclusion ev ev = true.
Proof.
  unfold same_conclusion, release_eqb. rewrite Z.eqb_refl, bool_decide_eq_true_2 by done.
  destruct (pe_conservative_capital_release_at ev); simpl; [|done]. by rewrite datetime_eqb_refl.
Qed.

(** ** The derived support graph *)

Record support_graph_spec `{Sha256} (p : ArbitrageProblem) (ev : PortfolioEvaluation) (budget : OracleBudget)
    (graph : SelectedSupportGraph) (A R C : gset string) : Prop := {
  sp_selected : evaluation_contracts p ev ⊆ C;
  sp_closed : closed_support p R C;
  sp_active : A ⊆ R;
  sp_constraints : ∀ i, i ∈ sg_constraint_ids graph ↔ i ∈ A;
  sp_actions : sg_action_ids graph = aq_action_id <$> pe_quantities ev;
  sp_edges : (sg_hyperedges graph).*2 = scope p <$> sg_constraint_ids graph;
  sp_contracts : ∀ c, c ∈ sg_contract_ids graph ↔
     c ∈ evaluation_contracts p ev ∨ ∃ i, i ∈ A ∧ c ∈ scope p i;
  sp_preserved : ∃ ev', evaluate_fixed_portfolio (problem_with_active p A R) (pe_quantities ev) budget = Ok ev' ∧
     same_conclusion ev' ev = true;
}.

Lemma elem_of_sorted_elements (s : gset string) x : x ∈ sorted_elements s ↔ x ∈ s.
Proof. unfold sorted_elements, sorted_strings. by rewrite elem_of_sort_on, elem_of_elements. Qed.

Lemma derive_support_graph_spec `{Sha256} p qs ev budget graph :
  evaluate_fixed_portfolio p qs budget = Ok ev →
  derive_selected_support_graph p ev budget = Ok (inr graph) →
  ∃ A R C, support_graph_spec p ev budget graph A R C.
Proof.
  intros Hev. pose proof (es_wf _ _ _ (evaluate_sound _ _ _ _ Hev)) as Hwf. apply evaluate_canonical in Hev.
  unfold derive_selected_support_graph. intros (? & _ & Hd)%bind_Ok.
  destruct (support_closure_correct p Hwf (evaluation_contracts p ev)) as (R & C & Ec & Hsub & Hcl).
  rewrite Ec in Hd. simpl in Hd. apply bind_Ok in Hd as ([r|A] & He & Hd); [done|].
  apply eliminate_spec in He as [HA Hpres].
  2: { exists ev. rewrite problem_with_active_self. auto using same_conclusion_refl. }
  assert (Hall : Forall (.∈ all_constraint_ids p) (sorted_elements A)).
  { apply Forall_forall. intros i Hi%elem_of_sorted_elements. apply (cs_relevant _ _ _ Hcl). by apply HA. }
  rewrite scopes_Ok in Hd by done. simpl in Hd. injection Hd as <-.
  exists A, R, C. split; simpl; try done.
  - apply elem_of_sorted_elements.
  - rewrite snd_zip; [done|]. by rewrite length_fmap.
  - intros c. rewrite elem_of_sorted_elements, elem_of_union, elem_of_list_to_set, mjoin_fmap, list_elem_of_bind.
    setoid_rewrite elem_of_sorted_elements.
    split; (intros [?|(i & ? & ?)]; [by left|right; eauto]).
Qed.

(** ** Independent parts *)

(** Outcomes allowed by the whole problem stay allowed with fewer constraints. *)
Lemma allowed_with_active p A R ω : allowed p ω → allowed (problem_with_active p A R) ω.
Proof.
  intros [Ho Hr Hf]. split; [exact Ho| |]; simpl; apply Forall_forall; intros x [_ Hx]%list_elem_of_filter.
  - exact (proj1 (Forall_forall _ _) Hr x Hx).
  - exact (proj1 (Forall_forall _ _) Hf x Hx).
Qed.

(** Outcomes chosen independently for each class of contracts combine into an
    allowed outcome when no kept constraint crosses two classes. *)
Lemma allowed_merge p A R C (cls : string → string) (Ω : string → string → TerminalAtom) ω0 K :
  wf_problem p → closed_support p R C → A ⊆ R →
  (∀ c, c ∈ K → c ∈ C) →
  (∀ i c, i ∈ A → c ∈ scope p i → c ∈ K) →
  (∀ i c c', i ∈ A → c ∈ scope p i → c' ∈ scope p i → cls c = cls c') →
  allowed p ω0 → (∀ k, allowed p (Ω k)) →
  allowed (problem_with_active p A R) (λ c, if decide (c ∈ (K : gset string)) then Ω (cls c) c else ω0 c).
Proof.
  intros Hwf Hcl HA HKC HsK Hcls H0 HΩ. set (ω := λ c, _).
  assert (Ho : outcome p ω).
  { intros s Hs. unfold ω. case_decide; [by apply HΩ|by apply H0]. }
  (* a constraint sees one outcome *)
  assert (Hone : ∀ i, i ∈ all_constraint_ids p → i ∉ R ∨ i ∈ A →
    ∃ ω', allowed p ω' ∧ ∀ c, c ∈ scope p i → ω' c = ω c).
  { intros i Hi [HR|HiA].
    - exists ω0. split; [done|]. intros c Hc. unfold ω. rewrite decide_False; [done|]. intros HK.
      apply HR, (cs_relevant _ _ _ Hcl). split; [done|]. exists c. auto.
    - destruct (scope p i) as [|c0 l] eqn:Es; [exists ω0; split; [done|]; set_solver|].
      exists (Ω (cls c0)). split; [done|]. intros c Hc. unfold ω. rewrite decide_True by (apply (HsK i); [done|by rewrite Es]).
      rewrite (Hcls i c0 c); [done|done|rewrite Es; set_solver|by rewrite Es]. }
  split; [exact Ho| |]; simpl; apply Forall_forall.
  - intros r [Hact Hr]%list_elem_of_filter.
    destruct (Hone (rc_constraint_id r)) as (ω' & Hω' & Hag); [|done|].
    { apply elem_of_app. left. apply list_elem_of_fmap. eauto. }
    apply (relation_sat_agree ω').
    + intros c Hc. apply Hag. unfold scope. rewrite constraint_contracts_relation by done.
      by apply elem_of_sort_on.
    + apply (proj1 (Forall_forall _ _) (al_relations _ _ Hω') r Hr).
  - intros f [Hact Hf]%list_elem_of_filter.
    destruct (Hone (fb_constraint_id f)) as (ω' & Hω' & Hag); [|done|].
    { apply elem_of_app. right. apply list_elem_of_fmap. eauto. }
    destruct (forbidden_contracts_Ok p f Hwf Hf) as (l & El & _).
    apply (forbidden_sat_agree p ω' ω f l); [done|apply Hω'|exact Ho|done| |].
    + intros c Hc. apply Hag. unfold scope. rewrite constraint_contracts_forbidden, El by done. done.
    + apply (proj1 (Forall_forall _ _) (al_forbidden _ _ Hω') f Hf).
Qed.
