(* ===== verification/SplitCorrect.v ===== *)
(** * The split of a portfolio into connected parts

    [split_disconnected_solution] partitions the quantities of an evaluation:
    two quantities share a part exactly when a chain of support hyperedges
    connects their contracts.  Two component ids can only tie through a [":"]
    inside a contract id; Python then raises [TypeError]. *)

From stdpp Require Import relations.
From S2P Require Import Prelude PyValue NLeg NLegForms NLegValidate NLegWf UnionFind Oracle OracleScenario OracleEval OracleQualify Support SupportCorrect.

(** ** Grouping *)

Section group_by.
Context {A : Type} (key : A → string).
Implicit Types (l : list A) (gs : list (string * list A)).

Lemma group_append_keys k x gs j :
  j ∈ (group_append k x gs).*1 ↔ j = k ∨ j ∈ gs.*1.
Proof.
  induction gs as [|[k' xs] gs IH]; csimpl; [set_solver|].
  destruct (k =? k')%string eqn:E; csimpl; bool_prop; [set_solver|]. rewrite elem_of_cons, IH. set_solver.
Qed.

Lemma group_append_NoDup k x gs : NoDup gs.*1 → NoDup (group_append k x gs).*1.
Proof.
  induction gs as [|[k' xs] gs IH]; csimpl; [intros _; apply NoDup_singleton|].
  intros [Hk Hnd]%NoDup_cons. destruct (k =? k')%string eqn:E; csimpl; bool_prop.
  - by constructor.
  - constructor; [|by apply IH]. rewrite group_append_keys. naive_solver.
Qed.

Lemma group_append_perm k x gs : mjoin (group_append k x gs).*2 ≡ₚ mjoin gs.*2 ++ [x].
Proof.
  induction gs as [|[k' xs] gs IH]; csimpl; [done|].
  destruct (k =? k')%string; csimpl.
  - rewrite <- !app_assoc. apply Permutation_app_head, Permutation_app_comm.
  - by rewrite IH, app_assoc.
Qed.

Lemma group_append_member k x gs g :
  key x = k → Forall (λ g, g.2 ≠ [] ∧ Forall (λ y, key y = g.1) g.2) gs →
  g ∈ group_append k x gs → g.2 ≠ [] ∧ Forall (λ y, key y = g.1) g.2.
Proof.
  intros Hk. induction gs as [|[k' xs] gs IH]; csimpl.
  - intros _ ->%list_elem_of_singleton. simpl. split; [done|]. by repeat constructor.
  - intros [[Hne Hxs] Hgs]%Forall_cons. destruct (k =? k')%string eqn:E; bool_prop.
    + intros [->|Hg]%elem_of_cons; simpl in *.
      * split; [by destruct xs|]. apply Forall_app. split; [done|]. repeat constructor. congruence.
      * by apply (proj1 (Forall_forall _ _) Hgs g).
    + intros [->|Hg]%elem_of_cons; [done|auto].
Qed.

Lemma group_by_snoc l x : group_by key (l ++ [x]) = group_append (key x) x (group_by key l).
Proof. unfold group_by. by rewrite foldl_app. Qed.

Lemma group_by_keys l : NoDup (group_by key l).*1.
Proof.
  induction l as [|x l IH] using rev_ind; [constructor|]. rewrite group_by_snoc. by apply group_append_NoDup.
Qed.

Lemma group_by_perm l : mjoin (group_by key l).*2 ≡ₚ l.
Proof.
  induction l as [|x l IH] using rev_ind; [done|]. rewrite group_by_snoc, group_append_perm. by rewrite IH.
Qed.

Lemma group_by_member l : Forall (λ g, g.2 ≠ [] ∧ Forall (λ y, key y = g.1) g.2) (group_by key l).
Proof.
  induction l as [|x l IH] using rev_ind; [constructor|]. rewrite group_by_snoc.
  apply Forall_forall. intros g. by apply group_append_member.
Qed.

Lemma group_by_nonempty l : l ≠ [] → group_by key l ≠ [].
Proof. intros Hl E. pose proof (group_by_perm l) as Hp. rewrite E in Hp. csimpl in Hp. by apply Permutation_nil_l in Hp. Qed.
End group_by.

(** ** Joining the hyperedges *)

Lemma join_hyperedges_correct K pairs edges m :
  uf_spec m K pairs → Forall (λ e, Forall (.∈ K) e) edges.*2 →
  ∃ m', foldM join_hyperedge m edges = Ok m' ∧ uf_spec m' K (pairs ++ (edges.*2 ≫= star)).
Proof.
  revert m pairs; induction edges as [|[i e] edges IH]; intros m pairs Hu; cbn [foldM]; rewrite ?fmap_cons, ?bind_cons.
  - intros _. exists m. by rewrite app_nil_r.
  - intros [He Hes]%Forall_cons. simpl in He.
    assert (join_hyperedge m (i, e) = join_connected m e) as ->.
    { unfold join_hyperedge. simpl. f_equal. apply filter_all, Forall_forall. intros c Hc. apply (uf_dom _ _ _ Hu).
      exact (proj1 (Forall_forall _ _) He c Hc). }
    destruct e as [|c cs].
    + simpl. by apply IH.
    + cbn [join_connected]. destruct (join_ids_correct m K pairs (c :: cs) Hu) as (m1 & -> & Hu1); [done|done|].
      simpl. destruct (IH m1 _ Hu1 Hes) as (m2 & -> & Hu2). exists m2. split; [done|].
      by rewrite <- app_assoc in Hu2.
Qed.

(** ** Looking up roots *)

(** The root of a node, as a function. *)
Definition root_of (m : parents) (c : string) : string :=
  match find m c with Ok (r, _) => r | Err _ => ""%string end.

Lemma root_of_spec m c : forest m → is_Some (m !! c) → root m c (root_of m c).
Proof.
  intros Hf Hc. unfold root_of. by destruct (find_correct m c Hf Hc) as (r & m' & Hr & -> & _).
Qed.

Lemma find_same m0 m c :
  forest m0 → same_forest m0 m → is_Some (m0 !! c) →
  ∃ m', find m c = Ok (root_of m0 c, m') ∧ same_forest m0 m'.
Proof.
  intros Hf Hs Hc.
  destruct (find_correct m c) as (r & m' & Hr & E & Hs'); [by eapply same_forest_forest|by apply Hs|].
  exists m'. assert (r = root_of m0 c) as <-.
  { apply (root_fun m0 c); [by apply Hs|by apply root_of_spec]. }
  split; [done|]. by etrans.
Qed.

(** The contract of an action. *)
Definition contract_of (p : ArbitrageProblem) (q : ActionQuantity) : string :=
  match index_by ca_action_id (pb_actions p) !! aq_action_id q with
  | Some a => ca_market_contract_id a
  | None => ""%string
  end.

Lemma quantity_contract_Ok p qs q :
  selection p qs → q ∈ qs →
  quantity_contract (index_by ca_action_id (pb_actions p)) q = Ok (contract_of p q).
Proof.
  intros Hsel Hq. destruct (proj1 (Forall_forall _ _) (sel_known _ _ Hsel) q Hq) as (a & Ha & _).
  unfold quantity_contract, contract_of. by rewrite Ha.
Qed.

Section split.
Context (p : ArbitrageProblem) (m0 : parents) (Hf : forest m0).
Implicit Types (m : parents) (qs : list ActionQuantity).

Let acts := index_by ca_action_id (pb_actions p).
Let key q := root_of m0 (contract_of p q).

Definition node (q : ActionQuantity) : Prop :=
  quantity_contract acts q = Ok (contract_of p q) ∧ is_Some (m0 !! contract_of p q).

Lemma group_fold_correct qs done_ m :
  Forall node qs → same_forest m0 m →
  ∃ m', foldM (group_step acts) (group_by key done_, m) qs = Ok (group_by key (done_ ++ qs), m')
        ∧ same_forest m0 m'.
Proof.
  intros Hqs. revert done_ m; induction Hqs as [|q qs [Hq Hn] Hqs IH]; intros done_ m Hs; simpl.
  - exists m. by rewrite app_nil_r.
  - rewrite Hq. simpl. destruct (find_same m0 m (contract_of p q) Hf Hs Hn) as (m1 & -> & Hs1). simpl.
    change (root_of m0 (contract_of p q)) with (key q). rewrite <- group_by_snoc.
    destruct (IH (done_ ++ [q]) m1 Hs1) as (m2 & E & Hs2). exists m2.
    rewrite <- app_assoc in E. done.
Qed.

Lemma component_fold_total r cs ids m :
  Forall (λ c, is_Some (m0 !! c)) cs → same_forest m0 m →
  ∃ ids' m', foldM (component_step r) (ids, m) cs = Ok (ids', m') ∧ same_forest m0 m'.
Proof.
  intros Hcs. revert ids m; induction Hcs as [|c cs Hc Hcs IH]; intros ids m Hs; simpl; [eauto|].
  destruct (find_same m0 m c Hf Hs Hc) as (m1 & -> & Hs1). simpl. by apply IH.
Qed.

Lemma identify_fold_correct groups out m :
  Forall (λ g, g.2 ≠ [] ∧ Forall node g.2) groups → same_forest m0 m →
  ∃ out' m', foldM (identify_step acts) (out, m) groups = Ok (out', m')
    ∧ out'.*2 = out.*2 ++ (sort_on aq_action_id <$> groups.*2).
Proof.
  intros Hgs. revert out m; induction Hgs as [|[k qs] groups [Hne Hn] Hgs IH]; intros out m Hs; csimpl.
  - exists out, m. by rewrite app_nil_r.
  - simpl in *. assert (Forall node (sort_on aq_action_id qs)) as Hn' by (by rewrite sort_on_perm).
    destruct (sort_on aq_action_id qs) as [|q qs'] eqn:Eq.
    { pose proof (sort_on_perm aq_action_id qs) as Hp. rewrite Eq in Hp. by apply Permutation_nil_l in Hp. }
    simpl. apply Forall_cons in Hn' as [[Hq Hqn] _]. rewrite Hq. simpl.
    destruct (find_same m0 m (contract_of p q) Hf Hs Hqn) as (m1 & -> & Hs1). simpl.
    destruct (component_fold_total (root_of m0 (contract_of p q)) (elements (dom m1)) [] m1) as (ids & m2 & -> & Hs2);
      [|done|].
    { apply Forall_forall. intros c Hc%elem_of_elements. apply elem_of_dom in Hc. by apply Hs1. }
    simpl. destruct (IH (out ++ [("component:" +:+ join ":" (sorted_strings ids), q :: qs')%string]) m2 Hs2)
      as (out' & m3 & -> & E). exists out', m3. split; [done|]. rewrite E, fmap_app. csimpl. by rewrite <- app_assoc.
Qed.
End split.

(** ** The partition *)

Record split_spec (p : ArbitrageProblem) (qs : list ActionQuantity) (graph : SelectedSupportGraph)
    (cls : string → string) (groups : list (list ActionQuantity)) : Prop := {
  sl_perm : mjoin groups ≡ₚ qs;
  sl_selection : Forall (λ g, g ≠ [] ∧ selection p g) groups;
  sl_classes : ∃ keys, NoDup keys ∧ Forall2 (λ k g, Forall (λ q, cls (contract_of p q) = k) g) keys groups;
  sl_connected : ∀ x y, x ∈ sg_contract_ids graph ++ (contract_of p <$> qs) →
    y ∈ sg_contract_ids graph ++ (contract_of p <$> qs) →
    cls x = cls y ↔ connected (sg_hyperedges graph).*2 x y;
}.

Lemma sublist_selection p qs g :
  selection p qs → NoDup (aq_action_id <$> g) → (∀ q, q ∈ g → q ∈ qs) →
  selection p (sort_on aq_action_id g).
Proof.
  intros Hsel Hnd Hsub. split.
  - by rewrite sort_on_perm.
  - rewrite sort_on_perm. apply Forall_forall. intros q Hq.
    exact (proj1 (Forall_forall _ _) (sel_known _ _ Hsel) q (Hsub q Hq)).
  - apply sort_on_sorted.
Qed.

Lemma NoDup_mjoin_member {A} (f : A → string) (ls : list (list A)) l :
  NoDup (f <$> mjoin ls) → l ∈ ls → NoDup (f <$> l).
Proof.
  induction ls as [|l' ls IH]; csimpl; [set_solver|]. rewrite fmap_app.
  intros (H1 & _ & H2)%NoDup_app [->|Hl]%elem_of_cons; auto.
Qed.

Lemma elem_of_mjoin_intro {A} (ls : list (list A)) l x : l ∈ ls → x ∈ l → x ∈ mjoin ls.
Proof. intros. apply list_elem_of_join. eauto. Qed.

Lemma mjoin_perm_sort {A} (key : A → string) (ls : list (list A)) :
  mjoin (sort_on key <$> ls) ≡ₚ mjoin ls.
Proof. induction ls as [|l ls IH]; csimpl; [done|]. by rewrite IH, sort_on_perm. Qed.

Lemma Permutation_mjoin {A} (ls ks : list (list A)) : ls ≡ₚ ks → mjoin ls ≡ₚ mjoin ks.
Proof.
  induction 1 as [|x ls ks _ IH|x y ls|? ? ? _ IH1 _ IH2]; csimpl; [done|by rewrite IH| |by rewrite IH1].
  rewrite !app_assoc. apply Permutation_app_tail, Permutation_app_comm.
Qed.

(** The parts, before they are ordered by component id. *)
Lemma raw_groups_spec p qs m0 (key := λ q, root_of m0 (contract_of p q)) :
  selection p qs →
  let groups := sort_on aq_action_id <$> (group_by key qs).*2 in
  mjoin groups ≡ₚ qs ∧ Forall (λ g, g ≠ [] ∧ selection p g) groups ∧
  ∃ keys, NoDup keys ∧ Forall2 (λ k g, Forall (λ q, key q = k) g) keys groups.
Proof.
  intros Hsel groups. unfold groups. clear groups.
  pose proof (group_by_perm key qs) as Hperm. pose proof (group_by_member key qs) as Hmem.
  split_and!.
  - by rewrite mjoin_perm_sort.
  - apply Forall_fmap, Forall_fmap. apply Forall_forall. intros g Hg. simpl.
    destruct (proj1 (Forall_forall _ _) Hmem g Hg) as [Hne _]. split.
    + intros E. pose proof (sort_on_perm aq_action_id g.2) as Hp. rewrite E in Hp. by apply Permutation_nil_l in Hp.
    + apply (sublist_selection p qs); [done| |].
      * apply (NoDup_mjoin_member _ (group_by key qs).*2); [rewrite Hperm; apply Hsel|].
        apply list_elem_of_fmap. eauto.
      * intros q Hq. rewrite <- Hperm. eapply elem_of_mjoin_intro; [|done]. apply list_elem_of_fmap. eauto.
  - exists (group_by key qs).*1. split; [apply group_by_keys|].
    rewrite <- list_fmap_compose. apply Forall2_fmap, Forall_Forall2_diag. eapply Forall_impl; [exact Hmem|].
    intros g [_ Hg]. simpl. by rewrite sort_on_perm.
Qed.

(** Reordering parts keeps their classes. *)
Lemma Forall2_perm_r {A B} (R : A → B → Prop) xs ys ys' :
  ys ≡ₚ ys' → Forall2 R xs ys → ∃ xs', xs ≡ₚ xs' ∧ Forall2 R xs' ys'.
Proof.
  intros Hp. revert xs; induction Hp as [|y ys ys' _ IH|y z ys|ys1 ys2 ys3 _ IH1 _ IH2]; intros xs H2.
  - inversion H2; subst. exists []. split; [done|constructor].
  - inversion H2 as [|x ? xs' ? Hx H2']; subst. destruct (IH _ H2') as (xs'' & ? & ?).
    exists (x :: xs''). split; [by constructor|by constructor].
  - inversion H2 as [|x ? xs' ? Hx H2']; subst. inversion H2' as [|x' ? xs'' ? Hx' H2'']; subst.
    exists (x' :: x :: xs''). split; [constructor|by repeat constructor].
  - destruct (IH1 _ H2) as (xs1 & ? & H3). destruct (IH2 _ H3) as (xs2 & ? & ?).
    exists xs2. split; [by etrans|done].
Qed.

Lemma split_correct p ev graph :
  selection p (pe_quantities ev) →
  Forall (λ e, Forall (.∈ sg_contract_ids graph) e) (sg_hyperedges graph).*2 →
  (∃ groups cls, split_disconnected_solution p ev graph = Ok groups ∧
                 split_spec p (pe_quantities ev) graph cls groups) ∨
  split_disconnected_solution p ev graph = Err TypeError.
Proof.
  intros Hsel Hedges. set (qs := pe_quantities ev) in *. unfold split_disconnected_solution. fold qs.
  rewrite (proj2 (mapM_Ok _ qs (contract_of p <$> qs))).
  2: { apply Forall2_fmap_r, Forall_Forall2_diag, Forall_forall. intros q Hq. by apply (quantity_contract_Ok p qs). }
  simpl. set (K := sg_contract_ids graph ++ (contract_of p <$> qs)).
  destruct (join_hyperedges_correct K [] (sg_hyperedges graph) (singletons K)) as (m0 & -> & [Hd Hf Hr]);
    [apply uf_spec_init| |].
  { eapply Forall_impl; [exact Hedges|]. intros e He. eapply Forall_impl; [exact He|]. intros c Hc.
    apply elem_of_app. by left. }
  simpl in Hr. simpl.
  assert (Hnode : Forall (node p m0) qs).
  { apply Forall_forall. intros q Hq. split; [by apply (quantity_contract_Ok p qs)|]. apply Hd, elem_of_app. right.
    apply list_elem_of_fmap. eauto. }
  destruct (group_fold_correct p m0 Hf qs [] m0 Hnode) as (m1 & E1 & Hs1); [reflexivity|].
  change (group_by _ []) with (@nil (string * list ActionQuantity)) in E1. rewrite E1. simpl.
  set (key := λ q, root_of m0 (contract_of p q)) in *.
  destruct (identify_fold_correct p m0 Hf (group_by key qs) [] m1) as (out & m2 & -> & Eout); [|done|].
  { pose proof (group_by_perm key qs) as Hperm. apply Forall_forall. intros g Hg.
    destruct (proj1 (Forall_forall _ _) (group_by_member key qs) g Hg) as [Hne _]. split; [done|].
    apply Forall_forall. intros q Hq. apply (proj1 (Forall_forall _ _) Hnode).
    rewrite <- Hperm. eapply elem_of_mjoin_intro; [|done]. apply list_elem_of_fmap. eauto. }
  simpl in *. destruct (bool_decide (NoDup out.*1)); [left|by right]. simpl.
  destruct (raw_groups_spec p qs m0 Hsel) as (Hperm & Hgs & keys & Hnd & Hkeys). fold key in Hperm, Hgs, Hkeys. rewrite <- Eout in Hperm, Hgs, Hkeys.
  assert (Hp : out.*2 ≡ₚ (sort_on fst out).*2) by (by rewrite sort_on_perm).
  destruct (Forall2_perm_r _ _ _ _ Hp Hkeys) as (keys' & Hk & Hkeys').
  eexists _, (root_of m0). split; [done|]. split.
  - by rewrite <- (Permutation_mjoin _ _ Hp).
  - by rewrite <- Hp.
  - exists keys'. split; [by rewrite <- Hk|done].
  - intros x y Hx Hy. rewrite <- star_connected. apply Hr; by apply root_of_spec; [|apply Hd].
Qed.

(** * Disconnected parts are independent

    When the support graph of a portfolio splits into several parts, the worst
    outcomes of the parts can happen together: the guaranteed profit of the
    whole portfolio is at most the sum of the guaranteed profits of its parts.
    This is what makes it sound to search connected portfolios only. *)
Local Open Scope Z_scope.

(** ** Sums over parts *)

Lemma sumZ_mjoin {A} (f : A → Z) (ls : list (list A)) :
  sumZ (f <$> mjoin ls) = sumZ ((λ l, sumZ (f <$> l)) <$> ls).
Proof. induction ls as [|l ls IH]; csimpl; [done|]. rewrite fmap_app, sumZ_app, IH. done. Qed.

Lemma realized_payout_parts p ω groups qs :
  mjoin groups ≡ₚ qs → realized_payout p ω qs = sumZ (realized_payout p ω <$> groups).
Proof.
  intros Hp. unfold realized_payout at 1.
  rewrite (sumZ_perm _ _ (fmap_Permutation _ _ _ (symmetry Hp))), sumZ_mjoin. done.
Qed.

Lemma portfolio_cost_parts p groups qs :
  mjoin groups ≡ₚ qs → portfolio_cost p qs = sumZ (portfolio_cost p <$> groups).
Proof.
  intros Hp. unfold portfolio_cost at 1.
  rewrite (sumZ_perm _ _ (fmap_Permutation _ _ _ (symmetry Hp))), sumZ_mjoin. done.
Qed.

(** A portfolio's payout only depends on the outcome of its own contracts. *)
Lemma realized_payout_agree p ω ω' qs :
  (∀ q, q ∈ qs → ω (contract_of p q) = ω' (contract_of p q)) →
  realized_payout p ω qs = realized_payout p ω' qs.
Proof.
  intros H. apply sumZ_fmap_ext. intros q Hq. f_equal. specialize (H q Hq).
  unfold payout_of, contract_of in *. destruct (index_by ca_action_id (pb_actions p) !! aq_action_id q); [|done].
  by rewrite H.
Qed.

(** One outcome per class. *)
Lemma choose_outcomes {B} (P : B → (string → TerminalAtom) → Prop) p keys (groups : list B) ω0 :
  allowed p ω0 → NoDup keys →
  Forall2 (λ _ g, ∃ ω, allowed p ω ∧ P g ω) keys groups →
  ∃ Ω : string → string → TerminalAtom, (∀ k, allowed p (Ω k)) ∧ Forall2 (λ k g, P g (Ω k)) keys groups.
Proof.
  intros H0 Hnd H2. induction H2 as [|k g keys groups (ω & Hω & HP) H2 IH].
  - exists (λ _, ω0). split; [done|constructor].
  - apply NoDup_cons in Hnd as [Hk Hnd]. destruct (IH Hnd) as (Ω & HΩ & HP2).
    exists (λ k', if decide (k' = k) then ω else Ω k'). split; [intros k'; by case_decide|].
    constructor; [by rewrite decide_True|]. rewrite Forall2_lookup in *. intros i.
    specialize (HP2 i). destruct (keys !! i) as [k'|] eqn:Ek; inversion HP2 as [? ? HPi E1 E2|]; constructor.
    rewrite decide_False; [congruence|]. intros ->. apply Hk. by eapply list_elem_of_lookup_2.
Qed.

Lemma Forall2_with_l {A B} (R : A → B → Prop) (P : A → Prop) l k :
  Forall2 R l k → Forall P l → Forall2 (λ x y, R x y ∧ P x) l k.
Proof. induction 1 as [|x y l k Hxy _ IH]; inversion 1; subst; constructor; auto. Qed.

Section independence.
Context `{Sha256} (p : ArbitrageProblem) (budget : OracleBudget).

Definition evaluates (qs : list ActionQuantity) (ev : PortfolioEvaluation) : Prop :=
  evaluate_fixed_portfolio p qs budget = Ok ev.

Lemma evaluates_selection qs ev : evaluates qs ev → selection p qs → pe_quantities ev = qs.
Proof.
  intros Hev Hsel. rewrite (es_quantities _ _ _ (evaluate_sound _ _ _ _ Hev)).
  rewrite filter_all; [by apply sort_on_sorted_id; apply Hsel|].
  eapply Forall_impl; [apply Hsel|]. intros q (a & _ & _ & ?). simpl. lia.
Qed.

Lemma contract_of_selected qs q :
  selection p qs → q ∈ qs → contract_of p q ∈ selected_contract_ids p qs.
Proof.
  intros Hsel Hq. destruct (proj1 (Forall_forall _ _) (sel_known _ _ Hsel) q Hq) as (a & Ha & _).
  unfold contract_of, selected_contract_ids. rewrite Ha. apply index_by_elem in Ha as [Ha E].
  apply list_elem_of_fmap. exists a. split; [done|]. apply list_elem_of_filter. split; [|done].
  rewrite E. apply list_elem_of_fmap. eauto.
Qed.

Context (qs : list ActionQuantity) (ev : PortfolioEvaluation) (graph : SelectedSupportGraph)
  (groups : list (list ActionQuantity)) (children : list PortfolioEvaluation).
Context (Hev : evaluates qs ev)
  (Hgraph : derive_selected_support_graph p ev budget = Ok (inr graph))
  (Hsplit : split_disconnected_solution p ev graph = Ok groups)
  (Hchildren : Forall2 evaluates groups children).

Let Hs : evaluation_sound p qs ev := evaluate_sound _ _ _ _ Hev.

Lemma graph_edges_known A R C :
  support_graph_spec p ev budget graph A R C →
  Forall (λ e, Forall (.∈ sg_contract_ids graph) e) (sg_hyperedges graph).*2.
Proof.
  intros Hg. rewrite (sp_edges _ _ _ _ _ _ _ Hg). apply Forall_fmap, Forall_forall. intros i Hi. simpl.
  apply Forall_forall. intros c Hc. apply (sp_contracts _ _ _ _ _ _ _ Hg). right. exists i.
  split; [|done]. by apply (sp_constraints _ _ _ _ _ _ _ Hg).
Qed.

Lemma split_groups_spec : ∃ cls, split_spec p (pe_quantities ev) graph cls groups.
Proof.
  destruct (derive_support_graph_spec p qs ev budget graph Hev Hgraph) as (A & R & C & Hg).
  destruct (split_correct p ev graph) as [(gs & cls & E & Hsp)|E];
    [apply Hs|by eapply graph_edges_known| |]; rewrite Hsplit in E; [|done].
  injection E as <-. eauto.
Qed.

Lemma children_quantities : Forall2 (λ g child, pe_quantities child = g) groups children.
Proof.
  destruct split_groups_spec as [cls Hsp]. pose proof (sl_selection _ _ _ _ _ Hsp) as Hsel.
  eapply Forall2_impl; [by apply Forall2_with_l|]. intros g child [Hc [_ Hg]]. by apply evaluates_selection.
Qed.

(** The worst outcomes of the parts happen together. *)
Lemma parts_payout : pe_payout_lower_bound_units ev ≤ sumZ (pe_payout_lower_bound_units <$> children).
Proof.
  destruct (derive_support_graph_spec p qs ev budget graph Hev Hgraph) as (A & R & C & Hg).
  destruct split_groups_spec as [cls Hsp]. destruct (sl_classes _ _ _ _ _ Hsp) as (keys & Hnd & Hkeys).
  destruct (es_worst _ _ _ Hs) as (ω0 & H0 & _).
  set (P := λ (gc : list ActionQuantity * PortfolioEvaluation) ω,
    pe_payout_lower_bound_units gc.2 = realized_payout p ω gc.1).
  destruct (choose_outcomes P p keys (zip groups children) ω0 H0 Hnd) as (Ω & HΩ & HP).
  { apply Forall2_same_length_lookup_2; [rewrite length_zip, <- (Forall2_length _ _ _ Hchildren), (Forall2_length _ _ _ Hkeys); lia|].
    intros i k [g child] _ Hi. apply lookup_zip_with_Some in Hi as (g' & c' & [= <- <-] & Hgi & Hci).
    pose proof (Forall2_lookup_lr _ _ _ _ _ _ Hchildren Hgi Hci) as Hc.
    destruct (es_worst _ _ _ (evaluate_sound _ _ _ _ Hc)) as (ω & Hω & _ & E). exists ω. split; [done|].
    unfold P. simpl. by rewrite E, (Forall2_lookup_lr _ _ _ _ _ _ children_quantities Hgi Hci). }
  set (K := list_to_set (sg_contract_ids graph) : gset string).
  set (ω := λ c, if decide (c ∈ K) then Ω (cls c) c else ω0 c).
  assert (Hallowed : allowed (problem_with_active p A R) ω).
  { apply (allowed_merge p A R C cls Ω ω0 K); try done; try apply Hg; try apply Hs.
    - intros c Hc%elem_of_list_to_set. apply (sp_contracts _ _ _ _ _ _ _ Hg) in Hc as [Hc|(i & Hi & Hc)].
      + by apply (sp_selected _ _ _ _ _ _ _ Hg).
      + eapply (cs_closed _ _ _ (sp_closed _ _ _ _ _ _ _ Hg)); [by apply (sp_active _ _ _ _ _ _ _ Hg)|done].
    - intros i c Hi Hc. apply elem_of_list_to_set, (sp_contracts _ _ _ _ _ _ _ Hg). eauto.
    - intros i c c' Hi Hc Hc'.
      apply (sl_connected _ _ _ _ _ Hsp);
        [apply elem_of_app; left; apply (sp_contracts _ _ _ _ _ _ _ Hg); eauto..|].
      apply rtc_once. left. exists (scope p i). split; [|done]. rewrite (sp_edges _ _ _ _ _ _ _ Hg).
      apply list_elem_of_fmap. exists i. split; [done|]. by apply (sp_constraints _ _ _ _ _ _ _ Hg). }
  destruct (sp_preserved _ _ _ _ _ _ _ Hg) as (ev' & Hev' & Hsame).
  unfold same_conclusion in Hsame. bool_prop.
  pose proof (evaluate_sound _ _ _ _ Hev') as Hs'. pose proof (es_lower _ _ _ Hs' ω Hallowed) as Hle.
  assert (Eq : pe_quantities ev' = pe_quantities ev).
  { rewrite (es_quantities _ _ _ Hs'), filter_all; [by apply sort_on_sorted_id; apply Hs|].
    eapply Forall_impl; [apply (es_selection _ _ _ Hs)|]. intros q (a & _ & _ & ?). simpl. lia. }
  change (realized_payout (problem_with_active p A R)) with (realized_payout p) in Hle. rewrite Eq in Hle.
  rewrite (realized_payout_parts p ω groups) in Hle by apply Hsp.
  enough (realized_payout p ω <$> groups = pe_payout_lower_bound_units <$> children) as <- by lia.
  apply list_eq_Forall2, Forall2_fmap, Forall2_same_length_lookup_2; [by eapply Forall2_length|].
  intros i g child Hgi Hci.
  assert (∃ k, keys !! i = Some k) as [k Hk].
  { apply lookup_lt_is_Some. rewrite (Forall2_length _ _ _ Hkeys). apply lookup_lt_is_Some. eauto. }
  pose proof (Forall2_lookup_lr _ _ _ _ _ (g, child) HP Hk) as HPi. unfold P in HPi. simpl in HPi.
  rewrite HPi by (rewrite lookup_zip_with, Hgi; simpl; by rewrite Hci).
  apply realized_payout_agree. intros q Hq. unfold ω.
  assert (q ∈ pe_quantities ev) as Hqe.
  { rewrite <- (sl_perm _ _ _ _ _ Hsp). eapply elem_of_mjoin_intro; [|done]. by eapply list_elem_of_lookup_2. }
  rewrite decide_True.
  - f_equal. exact (proj1 (Forall_forall _ _) (Forall2_lookup_lr _ _ _ _ _ _ Hkeys Hk Hgi) q Hq).
  - apply elem_of_list_to_set, (sp_contracts _ _ _ _ _ _ _ Hg). left. apply elem_of_list_to_set.
    by apply contract_of_selected; [apply Hs|].
Qed.

Lemma parts_cost : pe_cost_upper_bound_units ev = sumZ (pe_cost_upper_bound_units <$> children).
Proof.
  destruct split_groups_spec as [cls Hsp].
  rewrite (es_cost _ _ _ Hs), (portfolio_cost_parts p groups) by apply Hsp. f_equal.
  apply list_eq_Forall2, Forall2_fmap.
  eapply Forall2_impl; [exact (Forall2_with_l _ _ _ _ Hchildren (sl_selection _ _ _ _ _ Hsp))|].
  intros g child [Hc [_ Hg]]. rewrite (es_cost _ _ _ (evaluate_sound _ _ _ _ Hc)).
  by rewrite (evaluates_selection g child).
Qed.

Lemma parts_profit : pe_guaranteed_profit_units ev ≤ sumZ (pe_guaranteed_profit_units <$> children).
Proof.
  assert (sumZ (pe_guaranteed_profit_units <$> children)
    = sumZ (pe_payout_lower_bound_units <$> children) - sumZ (pe_cost_upper_bound_units <$> children)) as ->.
  { revert Hchildren. generalize groups. clear. induction children as [|c cs IH]; intros gs Hcs; csimpl; [done|].
    inversion Hcs as [|g ? gs' ? Hc Hcs']; subst. rewrite (IH _ Hcs').
    pose proof (es_profit _ _ _ (evaluate_sound _ _ _ _ Hc)). lia. }
  rewrite (es_profit _ _ _ Hs). pose proof parts_payout. pose proof parts_cost. lia.
Qed.
End independence.
