(* ===== verification/SearchCorrect.v ===== *)
(** * Soundness of the exhaustive search

    What a search answer proves about the problem: a returned solution is a
    certified portfolio, an optimal one earns at least as much as every
    connected qualified portfolio, a negative answer excludes all of them, and
    the no-arbitrage answer excludes every portfolio of the domain, connected
    or not. *)

From S2P Require Import Prelude PyValue NLeg NLegForms NLegValidate NLegWf Oracle OracleScenario OracleEval OracleQualify UnionFind Support SupportCorrect SplitCorrect Search.
Local Open Scope Z_scope.

(** ** The quantity domain *)

Lemma quantity_range_elem a n :
  n ∈ quantity_range a ↔ n = 0 ∨ ca_min_quantity_lots a ≤ n ≤ ca_max_quantity_lots a.
Proof. unfold quantity_range. rewrite elem_of_cons, elem_of_seqZ. lia. Qed.

Lemma sorted_actions_elem p a : a ∈ sorted_actions p ↔ a ∈ pb_actions p.
Proof. apply elem_of_sort_on. Qed.

Lemma quantity_vectors_elem p lots :
  lots ∈ quantity_vectors p ↔
  Forall2 (λ n a, n = 0 ∨ ca_min_quantity_lots a ≤ n ≤ ca_max_quantity_lots a) lots (sorted_actions p).
Proof.
  unfold quantity_vectors. rewrite elem_of_product, Forall2_fmap_r.
  split; intros H; (eapply Forall2_impl; [exact H|]); intros n a; apply quantity_range_elem.
Qed.

Lemma domain_size_exact p a d :
  wf_action p a → domain_size a = Ok d → d = Z.of_nat (length (quantity_range a)).
Proof.
  intros Hwa (x & [-> _]%checked_Ok & [-> _]%checked_Ok)%bind_Ok. destruct (wa_bounds _ _ Hwa).
  unfold quantity_range. simpl. rewrite length_seqZ. lia.
Qed.

Lemma foldr_mul_perm (l k : list Z) : l ≡ₚ k → foldr Z.mul 1 l = foldr Z.mul 1 k.
Proof. induction 1; simpl; [done|congruence|ring|congruence]. Qed.

(** The number of vectors examined is the size of the domain. *)
Lemma quantity_vector_count_exact p n :
  quantity_vector_count p = Ok n → n = Z.of_nat (length (quantity_vectors p)).
Proof.
  unfold quantity_vector_count. intros (? & Hv%require_valid_Ok & Hf)%bind_Ok.
  unfold quantity_vectors. rewrite length_product, <- list_fmap_compose.
  assert (Hperm : sorted_actions p ≡ₚ pb_actions p) by apply sort_on_perm.
  rewrite (foldr_mul_perm _ _ (fmap_Permutation _ _ _ Hperm)). clear Hperm.
  enough (∀ t, foldM (λ total a, d ← domain_size a; checked_multiply total d) t (pb_actions p) = Ok n →
    n = t * foldr Z.mul 1 ((λ a, Z.of_nat (length (quantity_range a))) <$> pb_actions p)) as Hg
    by (rewrite (Hg 1 Hf), Z.mul_1_l; done).
  clear Hf. pose proof (wf_actions _ Hv) as Hwa. induction Hwa as [|a l Ha _ IH]; intros t; cbn [foldM]; [intros [= <-]; csimpl; lia|].
  intros (b & (d & Hd & [-> _]%checked_Ok)%bind_Ok & Hr)%bind_Ok. apply (domain_size_exact p) in Hd; [|done].
  rewrite (IH _ Hr). subst. csimpl. ring.
Qed.

Lemma zip_with_id_fmap {A} (key : A → string) (l : list A) (lots : list Z) :
  length l = length lots → aq_action_id <$> zip_with (λ a n, AQ (key a) n) l lots = key <$> l.
Proof.
  revert lots; induction l as [|a l IH]; intros [|n lots] E; csimpl; try done. f_equal. apply IH. csimpl in E. lia.
Qed.

Lemma StronglySorted_filter {A} (R : relation A) (P : A → Prop) `{∀ x, Decision (P x)} (l : list A) :
  StronglySorted R l → StronglySorted R (filter P l).
Proof.
  induction 1 as [|x l Hl IH Hx]; [constructor|]. rewrite filter_cons. case_decide; [|done].
  constructor; [done|]. rewrite Forall_forall in *. intros y [_ Hy]%list_elem_of_filter. auto.
Qed.

(** Every vector of the domain is a canonical quantity vector, and every
    canonical quantity vector is in the domain. *)
Lemma vector_selection p lots :
  wf_problem p → lots ∈ quantity_vectors p → selection p (vector_quantities p lots).
Proof.
  intros Hwf Hl%quantity_vectors_elem. unfold vector_quantities.
  pose proof (Forall2_length _ _ _ Hl) as Hlen.
  set (zs := zip_with _ _ _). assert (Hids : aq_action_id <$> zs = ca_action_id <$> sorted_actions p)
    by (apply zip_with_id_fmap; done).
  split.
  - apply NoDup_fmap_filter. rewrite Hids. unfold sorted_actions. rewrite sort_on_perm. apply Hwf.
  - apply Forall_forall. intros q [Hq (i & Hi)%list_elem_of_lookup]%list_elem_of_filter.
    apply lookup_zip_with_Some in Hi as (a & n & -> & Ha & Hn). exists a. simpl in *.
    pose proof (Forall2_lookup_lr _ _ _ _ _ _ Hl Hn Ha) as Hr. simpl in Hr.
    apply list_elem_of_lookup_2, elem_of_sort_on in Ha.
    pose proof (wa_bounds _ _ (proj1 (Forall_forall _ _) (wf_actions _ Hwf) a Ha)).
    split_and!; [by apply index_by_lookup; [apply Hwf|]|unfold in_range; lia|lia].
  - apply StronglySorted_filter.
    assert (Hss : StronglySorted (λ x y, String.leb (ca_action_id x) (ca_action_id y) = true) (sorted_actions p))
      by apply sort_on_sorted.
    clear -Hss Hlen. revert lots Hlen zs; induction Hss as [|a l Hss IH Ha]; intros [|n lots] Hlen; csimpl; try constructor.
    + apply IH. csimpl in Hlen. lia.
    + apply Forall_forall. intros q (i & Hi)%list_elem_of_lookup.
      apply lookup_zip_with_Some in Hi as (a' & n' & -> & Ha' & _). simpl.
      apply (proj1 (Forall_forall _ _) Ha). by eapply list_elem_of_lookup_2.
Qed.

Definition lots_of (sel : list ActionQuantity) (a : CandidateAction) : Z :=
  match index_by aq_action_id sel !! ca_action_id a with Some q => aq_quantity_lots q | None => 0 end.

Lemma selection_vector p sel :
  wf_problem p → selection p sel →
  ∃ lots, lots ∈ quantity_vectors p ∧ vector_quantities p lots = sel.
Proof.
  intros Hwf Hsel. exists (lots_of sel <$> sorted_actions p).
  assert (Hknown : ∀ q, q ∈ sel → ∃ a, a ∈ pb_actions p ∧ ca_action_id a = aq_action_id q ∧
     in_range a (aq_quantity_lots q) ∧ 0 < aq_quantity_lots q ∧ lots_of sel a = aq_quantity_lots q).
  { intros q Hq. destruct (proj1 (Forall_forall _ _) (sel_known _ _ Hsel) q Hq) as (a & Ha & Hr & Hpos).
    apply index_by_elem in Ha as [Ha E]. exists a. split_and!; [done..|]. unfold lots_of.
    by rewrite (proj2 (index_by_lookup aq_action_id sel _ q (sel_unique _ _ Hsel))). }
  assert (Hin : lots_of sel <$> sorted_actions p ∈ quantity_vectors p).
  { apply quantity_vectors_elem, Forall2_fmap_l, Forall_Forall2_diag, Forall_forall. intros a Ha.
    apply sorted_actions_elem in Ha. simpl. unfold lots_of. destruct (index_by aq_action_id sel !! ca_action_id a) as [q|] eqn:E; [right|by left].
    apply index_by_elem in E as [Hq E]. destruct (Hknown q Hq) as (a' & Ha' & E' & Hr & _).
    assert (a = a') as <- by (apply (NoDup_key_eq ca_action_id (pb_actions p)); [apply Hwf|done|done|congruence]).
    exact Hr. }
  split; [done|]. pose proof (vector_selection p _ Hwf Hin) as Hv.
  apply (StronglySorted_unique aq_action_id); [apply Hv|apply Hsel|apply Hv|].
  apply NoDup_Permutation; [eapply NoDup_fmap_1, Hv|eapply NoDup_fmap_1, Hsel|].
  intros q. unfold vector_quantities. rewrite list_elem_of_filter, zip_with_fmap_r.
  rewrite list_elem_of_lookup. setoid_rewrite lookup_zip_with_Some. split.
  - intros (Hnz & i & a & a' & -> & Ha & Ha'). rewrite Ha in Ha'. injection Ha' as <-. simpl in *. unfold lots_of in *.
    destruct (index_by aq_action_id sel !! ca_action_id a) as [q|] eqn:E; [|done].
    apply index_by_elem in E as [Hq E]. rewrite <- E. by destruct q.
  - intros Hq. destruct (Hknown q Hq) as (a & Ha & E & _ & Hpos & El). split; [lia|].
    apply sorted_actions_elem, list_elem_of_lookup in Ha as [i Hi].
    exists i, a, a. split_and!; [|exact Hi|exact Hi]. rewrite El, E. by destruct q.
Qed.

Lemma any_lots_false lots : any_lots lots = false → Forall (λ n, n = 0) lots.
Proof.
  unfold any_lots. induction lots as [|n lots IH]; simpl; [constructor|].
  intros [H1 H2]%orb_false_iff. bool_prop. constructor; auto.
Qed.

Lemma vector_quantities_nil p lots : any_lots lots = false → vector_quantities p lots = [].
Proof.
  intros H%any_lots_false. unfold vector_quantities.
  revert H. generalize (sorted_actions p). intros l. revert l; induction lots as [|n lots IH]; intros [|a l]; csimpl; try done.
  intros [-> H]%Forall_cons. rewrite filter_cons, decide_False by (simpl; lia). by apply IH.
Qed.

(** ** Certified solutions *)

Section certified.
Context `{Sha256} (p : ArbitrageProblem) (budget : OracleBudget).

(** An evaluated portfolio that passes every qualification and whose support
    graph does not split: what the search accepts. *)
Record certifies (ev : PortfolioEvaluation) (s : PortfolioSolution) : Prop := {
  ct_evaluated : ∃ qs, evaluates p budget qs ev;
  ct_qualified : pe_failed_qualification_ids ev = [];
  ct_connected : ∃ graph groups fp, derive_selected_support_graph p ev budget = Ok (inr graph) ∧
     split_disconnected_solution p ev graph = Ok groups ∧ length groups = 1%nat ∧
     ps_payout_proof s = portfolio_proof p ev graph fp;
  ct_quantities : ps_quantities s = pe_quantities ev;
}.

Definition certified (s : PortfolioSolution) : Prop := ∃ ev, certifies ev s.

Lemma certifies_profit ev s :
  certifies ev s → pp_guaranteed_profit_units (ps_payout_proof s) = Some (pe_guaranteed_profit_units ev).
Proof. intros [_ _ (graph & groups & fp & _ & _ & _ & ->) _]. done. Qed.

Lemma certifies_cost ev s :
  certifies ev s → pp_cost_upper_bound_units (ps_payout_proof s) = Some (pe_cost_upper_bound_units ev).
Proof. intros [_ _ (graph & groups & fp & _ & _ & _ & ->) _]. done. Qed.

Lemma build_solution_inv ev graph s :
  build_portfolio_solution p ev graph = Ok s →
  ps_quantities s = pe_quantities ev ∧ ∃ fp, ps_payout_proof s = portfolio_proof p ev graph fp.
Proof.
  unfold build_portfolio_solution.
  intros (? & _ & (? & _ & (? & _ & (? & _ & (? & _ & (? & _ & (? & _ & (? & _ & Hr)%bind_Ok)%bind_Ok)%bind_Ok)%bind_Ok)%bind_Ok)%bind_Ok)%bind_Ok)%bind_Ok.
  apply bind_Ok in Hr as (? & _ & Hr). apply bind_Ok in Hr as (? & _ & Hr). apply bind_Ok in Hr as (? & _ & Hr).
  apply bind_Ok in Hr as (? & _ & Hr). apply bind_Ok in Hr as (? & _ & Hr). apply bind_Ok in Hr as (fp & _ & [= <-]).
  eauto.
Qed.

(** The profit a solution claims; 0 if it claims none. *)
Definition claimed_profit (s : PortfolioSolution) : Z :=
  default 0 (pp_guaranteed_profit_units (ps_payout_proof s)).

Lemma no_constraints_qualified qs ev :
  evaluates p budget qs ev → pb_qualification_constraints p = [] → pe_failed_qualification_ids ev = [].
Proof.
  intros Hev E. destruct (pe_failed_qualification_ids ev) as [|i l] eqn:Ef; [done|].
  pose proof (es_failed_known _ _ _ (evaluate_sound _ _ _ _ Hev) i) as Hi. rewrite Ef, E in Hi.
  exfalso. eapply not_elem_of_nil, Hi. set_solver.
Qed.

(** What a successful call on [ev] returned. *)
Record solutions_spec (ev : PortfolioEvaluation) (sols : list PortfolioSolution) : Prop := {
  so_certified : Forall certified sols;
  so_profit : pb_qualification_constraints p = [] →
    pe_guaranteed_profit_units ev ≤ sumZ (claimed_profit <$> sols);
  so_connected : ∀ graph groups, derive_selected_support_graph p ev budget = Ok (inr graph) →
    split_disconnected_solution p ev graph = Ok groups → length groups = 1%nat →
    ∃ s, s ∈ sols ∧ certifies ev s;
  so_derived : ∃ graph, derive_selected_support_graph p ev budget = Ok (inr graph);
}.

(** The loop over the parts, for any treatment [rec] of one part. *)
Definition part_step (rec : PortfolioEvaluation → gset string → res ((UnknownReason + list PortfolioSolution) * gset string))
    (acc : (UnknownReason + list PortfolioSolution) * gset string) (child : PortfolioEvaluation) :=
  match acc with
  | (inl reason, rejections) => Ok (inl reason, rejections)
  | (inr solutions, rejections) =>
      match pe_failed_qualification_ids child with
      | _ :: _ => Ok (inr solutions, record_rejections rejections child)
      | [] =>
          '(out, rejections) ← rec child rejections;
          Ok (match out with
              | inl reason => inl reason
              | inr more => inr (solutions ++ more)
              end, rejections)
      end
  end.

Lemma part_fold_inl rec r rej children out : foldM (part_step rec) (inl r, rej) children = Ok out → out.1 = inl r.
Proof. revert rej; induction children as [|c cs IH]; intros rej; simpl; [intros [= <-]; done|apply IH]. Qed.

Lemma part_fold_spec rec sols0 rej0 groups children sols rej :
  (∀ qs ev rej sols rej', evaluates p budget qs ev → pe_failed_qualification_ids ev = [] →
     rec ev rej = Ok (inr sols, rej') → solutions_spec ev sols) →
  Forall2 (evaluates p budget) groups children →
  foldM (part_step rec) (inr sols0, rej0) children = Ok (inr sols, rej) →
  ∃ more, sols = sols0 ++ more ∧ Forall certified more ∧
    (pb_qualification_constraints p = [] →
     sumZ (pe_guaranteed_profit_units <$> children) ≤ sumZ (claimed_profit <$> more)).
Proof.
  intros Hrec Hch. revert sols0 rej0; induction Hch as [|g child groups children Hg _ IH]; intros sols0 rej0;
    cbn [foldM].
  - intros [= <- <-]. exists []. rewrite app_nil_r. split_and!; [done|constructor|done].
  - intros ([out rej1] & Hstep & Hr)%bind_Ok. unfold part_step in Hstep.
    destruct (pe_failed_qualification_ids child) as [|i l] eqn:Ef.
    + apply bind_Ok in Hstep as ([o rej2] & Ho & [= <- <-]).
      destruct o as [r|more1]; [by apply part_fold_inl in Hr|].
      pose proof (Hrec _ _ _ _ _ Hg Ef Ho) as [H1 H2 _].
      destruct (IH _ _ Hr) as (more2 & -> & H3 & H4). exists (more1 ++ more2).
      rewrite app_assoc. split_and!; [done|by apply Forall_app|].
      intros E. csimpl. rewrite fmap_app, sumZ_app. specialize (H2 E). specialize (H4 E). lia.
    + injection Hstep as <- <-. destruct (IH _ _ Hr) as (more & -> & H3 & _). exists more.
      split_and!; [done..|]. intros E. pose proof (no_constraints_qualified _ _ Hg E). congruence.
Qed.

Lemma connected_solutions_spec fuel qs ev rej sols rej' :
  evaluates p budget qs ev → pe_failed_qualification_ids ev = [] →
  connected_solutions fuel p budget ev rej = Ok (inr sols, rej') → solutions_spec ev sols.
Proof.
  revert qs ev rej sols rej'; induction fuel as [|fuel IH]; intros qs ev rej sols rej' Hev Hf; [done|].
  cbn [connected_solutions].
  destruct (derive_selected_support_graph p ev budget) as [[r|graph]|e] eqn:Eg; [done| |by destruct e].
  intros (groups & Hsplit & Hr)%bind_Ok. destruct (length groups =? 1)%nat eqn:El.
  - apply Nat.eqb_eq in El. apply bind_Ok in Hr as (s & Hs & [= <- <-]). apply build_solution_inv in Hs as [Hq [fp Hp]].
    assert (Hc : certifies ev s) by (split; eauto 10). split.
    + constructor; [by exists ev|constructor].
    + intros _. csimpl. unfold claimed_profit. rewrite (certifies_profit ev) by done. simpl. lia.
    + intros. exists s. split; [set_solver|done].
    + by exists graph.
  - apply bind_Ok in Hr as (children & Hch%mapM_Ok & Hr).
    change (foldM (part_step (connected_solutions fuel p budget)) (inr [], rej) children = Ok (inr sols, rej')) in Hr.
    destruct (part_fold_spec (connected_solutions fuel p budget) [] rej groups children sols rej' IH Hch Hr)
      as (more & -> & H1 & H2). split; [done| | |by exists graph].
    + intros E. etrans; [exact (parts_profit p budget qs ev graph groups children Hev Eg Hsplit Hch)|]. by apply H2.
    + intros graph' groups' E1 E2 E3. rewrite Eg in E1. simplify_eq. rewrite Hsplit in E2. simplify_eq.
      apply Nat.eqb_neq in El. done.
Qed.
End certified.

(** ** The objective is a total preorder *)

Lemma quantities_ltb_split x y z :
  quantities_ltb x z = true → quantities_ltb x y = true ∨ quantities_ltb y z = true.
Proof.
  revert y z; induction x as [|a x IH]; intros y z; destruct z as [|c z]; simpl; try done.
  - destruct y as [|b y]; simpl; auto.
  - destruct y as [|b y]; simpl; [auto|].
    destruct (aq_action_id a =? aq_action_id c)%string eqn:Eac; bool_prop.
    + destruct (aq_action_id a =? aq_action_id b)%string eqn:Eab; bool_prop.
      * rewrite (proj2 (String.eqb_eq (aq_action_id b) (aq_action_id c))) by congruence.
        destruct (aq_quantity_lots a =? aq_quantity_lots c) eqn:E1; bool_prop.
        { intros Hx. destruct (aq_quantity_lots a =? aq_quantity_lots b) eqn:E2; bool_prop.
          - rewrite (proj2 (Z.eqb_eq (aq_quantity_lots b) (aq_quantity_lots c))) by congruence. by apply IH.
          - rewrite (proj2 (Z.eqb_neq (aq_quantity_lots b) (aq_quantity_lots c))) by congruence.
            destruct (Z.lt_total (aq_quantity_lots a) (aq_quantity_lots b)) as [?|[?|?]];
              [left; by apply Z.ltb_lt|lia|right; apply Z.ltb_lt; lia]. }
        intros Hlt. bool_prop. destruct (aq_quantity_lots a =? aq_quantity_lots b) eqn:E2; bool_prop.
        { right. rewrite (proj2 (Z.eqb_neq (aq_quantity_lots b) (aq_quantity_lots c))) by lia. apply Z.ltb_lt. lia. }
        destruct (Z.ltb_spec (aq_quantity_lots a) (aq_quantity_lots b)); [by left|right].
        rewrite (proj2 (Z.eqb_neq (aq_quantity_lots b) (aq_quantity_lots c))) by lia. apply Z.ltb_lt. lia.
      * intros _. rewrite (proj2 (String.eqb_neq (aq_action_id b) (aq_action_id c))) by congruence.
        rewrite <- Eac. destruct (String.leb_total (aq_action_id a) (aq_action_id b)); auto.
    + intros Hac. destruct (aq_action_id a =? aq_action_id b)%string eqn:Eab; bool_prop.
      * right. rewrite <- Eab. by rewrite (proj2 (String.eqb_neq (aq_action_id a) (aq_action_id c))).
      * destruct (String.leb_total (aq_action_id a) (aq_action_id b)) as [?|Hba]; [auto|right].
        destruct (aq_action_id b =? aq_action_id c)%string eqn:Ebc; bool_prop.
        { exfalso. apply Eac, leb_antisym'; [done|by rewrite <- Ebc]. }
        by eapply leb_trans.
Qed.

Definition claimed_cost (s : PortfolioSolution) : Z := default 0 (pp_cost_upper_bound_units (ps_payout_proof s)).

(** [_solution_objective] as a pure comparison. *)
Definition better (s t : PortfolioSolution) : bool :=
  let ns := Z.of_nat (length (ps_quantities s)) in
  let nt := Z.of_nat (length (ps_quantities t)) in
  if - claimed_profit s =? - claimed_profit t then
    if claimed_cost s =? claimed_cost t then
      if ns =? nt then quantities_ltb (ps_quantities s) (ps_quantities t) else ns <? nt
    else claimed_cost s <? claimed_cost t
  else - claimed_profit s <? - claimed_profit t.

Lemma better_split s t u : better s u = true → better s t = true ∨ better t u = true.
Proof.
  unfold better.
  set (ps := - claimed_profit s). set (pt := - claimed_profit t). set (pu := - claimed_profit u).
  set (ns := Z.of_nat (length (ps_quantities s))). set (nt := Z.of_nat (length (ps_quantities t))).
  set (nu := Z.of_nat (length (ps_quantities u))). generalize ns nt nu ps pt pu. clear. intros ns nt nu ps pt pu.
  pose proof (quantities_ltb_split (ps_quantities s) (ps_quantities t) (ps_quantities u)) as Hq.
  destruct (Z.eqb_spec ps pu), (Z.eqb_spec ps pt), (Z.eqb_spec pt pu); try lia;
  destruct (Z.eqb_spec (claimed_cost s) (claimed_cost u)), (Z.eqb_spec (claimed_cost s) (claimed_cost t)),
    (Z.eqb_spec (claimed_cost t) (claimed_cost u)); try lia;
  destruct (Z.eqb_spec ns nu), (Z.eqb_spec ns nt), (Z.eqb_spec nt nu); try lia; auto.
Qed.

Lemma better_profit s t : better s t = false → claimed_profit s ≤ claimed_profit t.
Proof.
  unfold better. destruct (Z.eqb_spec (- claimed_profit s) (- claimed_profit t)); [lia|]. intros. bool_prop. lia.
Qed.

Lemma better_irrefl s : better s s = false.
Proof.
  unfold better. rewrite !Z.eqb_refl. induction (ps_quantities s) as [|q qs IH]; simpl; [done|].
  by rewrite String.eqb_refl, Z.eqb_refl.
Qed.

Lemma quantities_ltb_asym x y : quantities_ltb x y = true → quantities_ltb y x = false.
Proof.
  revert y; induction x as [|a x IH]; intros [|b y]; simpl; try done.
  rewrite (String.eqb_sym (aq_action_id b)), (Z.eqb_sym (aq_quantity_lots b)).
  destruct (aq_action_id a =? aq_action_id b)%string eqn:E; bool_prop.
  - destruct (aq_quantity_lots a =? aq_quantity_lots b); [apply IH|]. intros. bool_prop. apply Z.ltb_ge. lia.
  - intros H1. destruct (String.leb (aq_action_id b) (aq_action_id a)) eqn:H2; [|done].
    exfalso. by apply E, leb_antisym'.
Qed.

Lemma better_asym s t : better s t = true → better t s = false.
Proof.
  unfold better. rewrite (Z.eqb_sym (- claimed_profit t)), (Z.eqb_sym (claimed_cost t)), (Z.eqb_sym (Z.of_nat (length (ps_quantities t)))).
  destruct (_ =? _); [|intros; bool_prop; apply Z.ltb_ge; lia].
  destruct (_ =? _); [|intros; bool_prop; apply Z.ltb_ge; lia].
  destruct (_ =? _); [apply quantities_ltb_asym|intros; bool_prop; apply Z.ltb_ge; lia].
Qed.

(** [b] is at least as good as every solution of [l]. *)
Definition best_of (best : option PortfolioSolution) (l : list PortfolioSolution) : Prop :=
  ∀ s, s ∈ l → ∃ b, best = Some b ∧ better s b = false.

(** The best so far never gets worse. *)
Definition improves (best best' : option PortfolioSolution) : Prop :=
  ∀ s, (∃ b, best = Some b ∧ better s b = false) → ∃ b', best' = Some b' ∧ better s b' = false.

Lemma better_solution_Ok s t lt : better_solution s t = Ok lt → lt = better s t.
Proof.
  unfold better_solution, solution_profit, solution_cost, better, claimed_profit, claimed_cost.
  intros (ps & Hps%of_option_Ok & (cs & Hcs%of_option_Ok & (pt & Hpt%of_option_Ok & (ct & Hct%of_option_Ok & [= <-])%bind_Ok)%bind_Ok)%bind_Ok)%bind_Ok.
  by rewrite Hps, Hcs, Hpt, Hct.
Qed.

Lemma keep_best_spec best s best' :
  keep_best best s = Ok best' → best_of best' [s] ∧ improves best best' ∧ (best' = best ∨ best' = Some s).
Proof.
  unfold keep_best, best_of, improves. destruct best as [b|].
  - intros (lt & ->%better_solution_Ok & [= <-])%bind_Ok. destruct (better s b) eqn:E; split_and!; auto.
    + intros s' ->%list_elem_of_singleton. eauto using better_irrefl.
    + intros x (b' & [= <-] & Hx). exists s. split; [done|]. destruct (better x s) eqn:Exs; [|done].
      destruct (better_split x b s Exs) as [?|Hbs]; [congruence|]. apply better_asym in E. congruence.
    + intros s' ->%list_elem_of_singleton. eauto.
  - intros [= <-]. split_and!; auto.
    + intros s' ->%list_elem_of_singleton. eauto using better_irrefl.
    + intros x (b & ? & _). done.
Qed.

Lemma keep_best_fold best sols best' :
  foldM keep_best best sols = Ok best' →
  best_of best' sols ∧ improves best best' ∧ (best' = best ∨ ∃ s, best' = Some s ∧ s ∈ sols).
Proof.
  revert best; induction sols as [|s sols IH]; intros best; cbn [foldM].
  - intros [= <-]. split_and!; [intros s ?%not_elem_of_nil; done|by intros s|by left].
  - intros (b1 & (H1 & H2 & H3)%keep_best_spec & (H4 & H5 & H6)%IH)%bind_Ok. split_and!.
    + intros x [->|Hx]%elem_of_cons; [apply H5, H1; set_solver|by apply H4].
    + intros x Hx. by apply H5, H2.
    + destruct H6 as [->|(s' & -> & ?)]; [|right; exists s'; set_solver].
      destruct H3 as [->| ->]; [by left|right; exists s; set_solver].
Qed.

(** ** The loop over the vectors *)

Section solve.
Context `{Sha256} (p : ArbitrageProblem) (budget : OracleBudget).

(** A vector has been examined: it was evaluated, and when it qualifies the
    solutions found in it are no better than the best one kept. *)
Definition covered (best : option PortfolioSolution) (lots : list Z) : Prop :=
  any_lots lots = true →
  ∃ ev, evaluates p budget (vector_quantities p lots) ev ∧
    (pe_failed_qualification_ids ev = [] → ∃ sols, solutions_spec p budget ev sols ∧ best_of best sols).

Lemma covered_improves best best' lots : improves best best' → covered best lots → covered best' lots.
Proof.
  intros Hi Hc Ha. destruct (Hc Ha) as (ev & Hev & Hq). exists ev. split; [done|]. intros Hf.
  destruct (Hq Hf) as (sols & Hs & Hb). exists sols. split; [done|]. intros s Hin. by apply Hi, Hb.
Qed.

Definition certified_best (best : option PortfolioSolution) : Prop :=
  ∀ s, best = Some s → certified p budget s.

Lemma solve_step_spec st lots st' :
  solve_step p budget st lots = Ok (inr st') →
  st_examined st' = st_examined st + 1 ∧ covered (st_best st') lots ∧ improves (st_best st) (st_best st') ∧
  (certified_best (st_best st) → certified_best (st_best st')).
Proof.
  unfold solve_step. destruct (any_lots lots) eqn:Ea; simpl.
  2: { intros [= <-]. simpl. split_and!; [done|intros ?; congruence|by intros s|done]. }
  intros (ev & Hev & Hr)%bind_Ok. destruct (pe_failed_qualification_ids ev) as [|i l] eqn:Ef.
  2: { injection Hr as <-. simpl. split_and!; [done| |by intros s|done]. intros _. exists ev. split; [done|]. congruence. }
  apply bind_Ok in Hr as ([[r|sols] rej] & Hc & Hr); [done|].
  apply bind_Ok in Hr as (best & (Hb & Hi & Hor)%keep_best_fold & [= <-]). simpl.
  pose proof (connected_solutions_spec p budget _ _ _ _ _ _ Hev Ef Hc) as Hs.
  split_and!; [done| |done|].
  - intros _. exists ev. split; [done|]. intros _. by exists sols.
  - intros Hcb s E. destruct Hor as [->|(s' & -> & Hin)]; [by apply Hcb|]. simplify_eq.
    exact (proj1 (Forall_forall _ _) (so_certified _ _ _ _ Hs) s Hin).
Qed.

Lemma solve_loop_spec st vectors st' :
  solve_loop p budget st vectors = Ok (inr st') → certified_best (st_best st) →
  st_examined st' = st_examined st + Z.of_nat (length vectors) ∧ certified_best (st_best st') ∧
  improves (st_best st) (st_best st') ∧ Forall (covered (st_best st')) vectors.
Proof.
  revert st; induction vectors as [|lots vectors IH]; intros st; cbn [solve_loop].
  - intros [= <-] Hc. split_and!; [simpl; lia|done|by intros s|constructor].
  - intros ([r|st1] & Hs & Hr)%bind_Ok Hc; [done|]. apply solve_step_spec in Hs as (He & Hcov & Hi & Hc1).
    destruct (IH st1 Hr (Hc1 Hc)) as (He' & Hc' & Hi' & Hall). split_and!; [simpl length; lia|done| |].
    + intros s Hs. by apply Hi', Hi.
    + constructor; [by eapply covered_improves|done].
Qed.

Lemma initial_certified : certified_best (st_best initial_state).
Proof. done. Qed.
End solve.

(** ** What a request check established *)

Lemma search_request_valid `{Sha256} rq mode :
  search_request_unknown_reason rq mode = Ok None → wf_problem (rq_problem rq).
Proof.
  unfold search_request_unknown_reason. destruct (_ || _); [done|].
  destruct (input_unknown_reason (rq_problem rq)); [done|].
  destruct (quantity_vector_count (rq_problem rq)) as [n|e] eqn:E; [|by destruct e].
  intros _. unfold quantity_vector_count in E. by apply bind_Ok in E as (? & ?%require_valid_Ok & _).
Qed.

Lemma search_proof_inv `{Sha256} rq audit conclusion source proof :
  build_exhaustive_search_proof rq audit conclusion source = Ok proof →
  pp_quantity_vectors_total proof = Some (au_quantity_vectors_total audit) ∧
  pp_quantity_vectors_examined proof = Some (au_quantity_vectors_examined audit).
Proof.
  unfold build_exhaustive_search_proof. intros (kind & _ & Hr)%bind_Ok. apply bind_Ok in Hr as (fp & _ & Hr).
  apply bind_Ok in Hr as (rf & _ & Hr). injection Hr as <-. done.
Qed.

(** Both kinds of answers of the exhaustive search. *)
Lemma solve_exhaustive_spec `{Sha256} rq mode r :
  solve_exhaustive rq mode = Ok r → or_unknown_reason r = None →
  let p := rq_problem rq in
  wf_problem p ∧
  ∃ best, certified_best p (rq_budget rq) best ∧
    (∀ lots, lots ∈ quantity_vectors p → covered p (rq_budget rq) best lots) ∧
    match best with
    | Some s => r = feasible_result OPTIMAL
        {| ob_lower_bound_units := pp_guaranteed_profit_units (ps_payout_proof s);
           ob_upper_bound_units := pp_guaranteed_profit_units (ps_payout_proof s);
           ob_gap_units := Some 0; ob_closed := true |} s
    | None => ∃ proof, r = negative_result NO_QUALIFIED_OPPORTUNITY no_bounds proof ∧
        pp_quantity_vectors_total proof = Some (Z.of_nat (length (quantity_vectors p))) ∧
        pp_quantity_vectors_examined proof = Some (Z.of_nat (length (quantity_vectors p)))
    end.
Proof.
  intros Hr Hu p. unfold solve_exhaustive in Hr. apply bind_Ok in Hr as ([u|] & Hreq & Hr).
  { injection Hr as <-. done. }
  apply search_request_valid in Hreq. split; [done|]. fold p in Hr.
  apply bind_Ok in Hr as ([u|st] & Hloop & Hr); [injection Hr as <-; done|].
  apply solve_loop_spec in Hloop as (He & Hc & _ & Hall); [|apply initial_certified].
  apply bind_Ok in Hr as (total & Htot%quantity_vector_count_exact & Hr). apply bind_Ok in Hr as (joint & _ & Hr).
  exists (st_best st). split; [done|]. split; [by rewrite Forall_forall in Hall|].
  destruct (st_best st) as [s|]; [by injection Hr as <-|].
  apply bind_Ok in Hr as (proof & [Ht He']%search_proof_inv & [= <-]).
  exists proof. rewrite Ht, He'. split; [done|]. simpl in *. rewrite He, Htot. split; do 2 f_equal; lia.
Qed.

(** ** Consequences, in terms of outcomes *)

(** The portfolio earns at least [profit] whatever settles, and [profit] is
    the exact guarantee. *)
Definition guarantees (p : ArbitrageProblem) (qs : list ActionQuantity) (profit : Z) : Prop :=
  (∀ ω, allowed p ω → profit ≤ realized_payout p ω qs - portfolio_cost p qs) ∧
  ∃ ω, allowed p ω ∧ profit = realized_payout p ω qs - portfolio_cost p qs.

(** A portfolio the search would accept. *)
Definition acceptable `{Sha256} (p : ArbitrageProblem) (budget : OracleBudget) (ev : PortfolioEvaluation) : Prop :=
  (∃ qs, evaluates p budget qs ev) ∧ pe_failed_qualification_ids ev = [] ∧
  ∃ graph groups, derive_selected_support_graph p ev budget = Ok (inr graph) ∧
    split_disconnected_solution p ev graph = Ok groups ∧ length groups = 1%nat.

Section consequences.
Context `{Sha256} (p : ArbitrageProblem) (budget : OracleBudget).

Lemma evaluates_guarantees qs ev :
  evaluates p budget qs ev → guarantees p (pe_quantities ev) (pe_guaranteed_profit_units ev).
Proof.
  intros Hs%evaluate_sound. unfold guarantees. rewrite (es_profit _ _ _ Hs), (es_cost _ _ _ Hs). split.
  - intros ω Hω. pose proof (es_lower _ _ _ Hs ω Hω). lia.
  - destruct (es_worst _ _ _ Hs) as (ω & Hω & _ & ->). eauto.
Qed.

Lemma certified_guarantees s :
  certified p budget s →
  ∃ profit, pp_guaranteed_profit_units (ps_payout_proof s) = Some profit ∧
    guarantees p (ps_quantities s) profit ∧ selection p (ps_quantities s) ∧ ps_quantities s ≠ [].
Proof.
  intros [ev Hc]. destruct (ct_evaluated _ _ _ _ Hc) as [qs Hev].
  exists (pe_guaranteed_profit_units ev). rewrite (certifies_profit _ _ _ _ Hc), (ct_quantities _ _ _ _ Hc).
  pose proof (evaluate_sound _ _ _ _ Hev) as Hs.
  split_and!; [done|by eapply evaluates_guarantees|apply Hs|apply Hs].
Qed.

Lemma certified_acceptable s : certified p budget s → ∃ ev, acceptable p budget ev ∧ ps_quantities s = pe_quantities ev.
Proof.
  intros [ev [? ? (graph & groups & fp & ? & ? & ? & _) ?]]. exists ev. split; [|done]. split_and!; eauto 10.
Qed.

(** Every evaluation appears among the vectors of the domain. *)
Lemma covered_evaluation best qs ev :
  (∀ lots, lots ∈ quantity_vectors p → covered p budget best lots) →
  evaluates p budget qs ev → pe_failed_qualification_ids ev = [] →
  ∃ sols, solutions_spec p budget ev sols ∧ best_of best sols.
Proof.
  intros Hcov Hev Hf. pose proof (evaluate_sound _ _ _ _ Hev) as Hs. apply evaluate_canonical in Hev.
  destruct (selection_vector p (pe_quantities ev)) as (lots & Hin & E); [apply Hs|apply Hs|].
  destruct (any_lots lots) eqn:Ea.
  2: { rewrite (vector_quantities_nil p lots Ea) in E. by destruct (es_nonempty _ _ _ Hs). }
  destruct (Hcov lots Hin Ea) as (ev' & Hev' & Hq). rewrite E in Hev'. unfold evaluates in Hev'.
  rewrite Hev in Hev'. injection Hev' as <-. auto.
Qed.

Lemma covered_acceptable best ev :
  (∀ lots, lots ∈ quantity_vectors p → covered p budget best lots) → acceptable p budget ev →
  ∃ s b, certifies p budget ev s ∧ best = Some b ∧ better s b = false.
Proof.
  intros Hcov ((qs & Hev) & Hf & graph & groups & Hg & Hsp & Hl).
  destruct (covered_evaluation best qs ev Hcov Hev Hf) as (sols & Hs & Hb).
  destruct (so_connected _ _ _ _ Hs graph groups Hg Hsp Hl) as (s & Hin & Hc).
  destruct (Hb s Hin) as (b & -> & Hb'). eauto.
Qed.

Lemma sumZ_all_le {A} (f : A → Z) l : (∀ x, x ∈ l → f x ≤ 0) → sumZ (f <$> l) ≤ 0.
Proof. intros Hf. etrans; [by apply (sumZ_fmap_le f (λ _, 0))|]. rewrite (sumZ_const (λ _, 0) 0); done. Qed.

(** With no qualification, the best solution bounds every portfolio. *)
Lemma covered_no_profit s :
  wf_problem p → pb_qualification_constraints p = [] →
  (∀ lots, lots ∈ quantity_vectors p → covered p budget (Some s) lots) → claimed_profit s ≤ 0 →
  ∀ sel, selection p sel → sel ≠ [] → ∃ ω, allowed p ω ∧ realized_payout p ω sel ≤ portfolio_cost p sel.
Proof.
  intros Hwf Hq Hcov Hp sel Hsel Hne.
  destruct (selection_vector p sel Hwf Hsel) as (lots & Hin & E).
  destruct (any_lots lots) eqn:Ea; [|by rewrite (vector_quantities_nil p lots Ea) in E; subst].
  destruct (Hcov lots Hin Ea) as (ev & Hev & Hs). rewrite E in Hev.
  destruct Hs as (sols & Hs & Hb); [by eapply no_constraints_qualified|].
  pose proof (so_profit _ _ _ _ Hs Hq) as Hle.
  assert (sumZ (claimed_profit <$> sols) ≤ 0).
  { apply sumZ_all_le. intros x Hx. destruct (Hb x Hx) as (b & [= <-] & Hxb). apply better_profit in Hxb. lia. }
  pose proof (evaluates_guarantees _ _ Hev) as [_ (ω & Hω & Eω)].
  rewrite (evaluates_selection p budget sel ev Hev Hsel) in Eω. exists ω. split; [done|]. lia.
Qed.
End consequences.

(** ** The answers *)

Lemma solve_exhaustive_unknown `{Sha256} rq mode r :
  solve_exhaustive rq mode = Ok r → is_Some (or_unknown_reason r) → ∃ u, r = unknown_result u.
Proof.
  unfold solve_exhaustive. intros ([u'|] & _ & Hr)%bind_Ok [u Hu]; [injection Hr as <-; eauto|].
  apply bind_Ok in Hr as ([u'|st] & _ & Hr); [injection Hr as <-; eauto|].
  apply bind_Ok in Hr as (? & _ & Hr). apply bind_Ok in Hr as (? & _ & Hr).
  destruct (st_best st); [injection Hr as <-; done|]. by apply bind_Ok in Hr as (? & _ & [= <-]).
Qed.

Lemma solve_exhaustive_feasible `{Sha256} rq mode r s :
  solve_exhaustive rq mode = Ok r → or_solution r = Some s →
  certified (rq_problem rq) (rq_budget rq) s ∧ or_optimality_status r = OPTIMAL ∧
  ∀ ev, acceptable (rq_problem rq) (rq_budget rq) ev →
    ∃ s', certifies (rq_problem rq) (rq_budget rq) ev s' ∧ better s' s = false.
Proof.
  intros Hr Hs. destruct (or_unknown_reason r) eqn:Eu.
  { apply solve_exhaustive_unknown in Hr; [|by eauto]. destruct Hr as [? ->]. done. }
  destruct (solve_exhaustive_spec rq mode r Hr Eu) as (_ & best & Hc & Hcov & Hm).
  destruct best as [b|].
  - subst r. simpl in *. injection Hs as <-. split_and!; [by apply Hc|done|].
    intros ev Hev. destruct (covered_acceptable _ _ _ _ Hcov Hev) as (s' & b' & Hs' & [= <-] & ?). eauto.
  - destruct Hm as (proof & -> & _). done.
Qed.

Lemma solve_exhaustive_negative `{Sha256} rq mode r :
  solve_exhaustive rq mode = Ok r → or_business_status r = NO_QUALIFIED_OPPORTUNITY →
  ∀ ev, ¬ acceptable (rq_problem rq) (rq_budget rq) ev.
Proof.
  intros Hr Hb ev Hev. destruct (or_unknown_reason r) eqn:Eu.
  { apply solve_exhaustive_unknown in Hr; [|by eauto]. destruct Hr as [? ->]. done. }
  destruct (solve_exhaustive_spec rq mode r Hr Eu) as (_ & best & Hc & Hcov & Hm).
  destruct (covered_acceptable _ _ _ _ Hcov Hev) as (s' & b' & Hs' & -> & ?). subst r. done.
Qed.

Lemma diagnose_no_arbitrage `{Sha256} p budget r :
  diagnose_raw_arbitrage p budget = Ok r → or_business_status r = NO_ARBITRAGE →
  ∀ sel, selection p sel → sel ≠ [] → ∃ ω, allowed p ω ∧ realized_payout p ω sel ≤ portfolio_cost p sel.
Proof.
  unfold diagnose_raw_arbitrage. intros (r0 & Hr0 & Hr)%bind_Ok Hb.
  destruct (or_unknown_reason r0) eqn:Eu.
  { apply solve_exhaustive_unknown in Hr0; [|by eauto]. destruct Hr0 as [? ->]. injection Hr as <-. done. }
  destruct (solve_exhaustive_spec _ _ _ Hr0 Eu) as (Hwf & best & _ & Hcov & Hm). simpl in Hwf, Hcov.
  destruct best as [s|].
  2: { destruct Hm as (proof & -> & _). simpl in Hr. injection Hr as <-. done. }
  subst r0. simpl in Hr. apply bind_Ok in Hr as (profit & Hp%of_option_Ok & Hr).
  destruct (0 <? profit) eqn:E0; [injection Hr as <-; done|]. bool_prop.
  intros sel Hsel Hne.
  destruct (covered_no_profit (diagnostic_problem p) budget s Hwf eq_refl Hcov) with sel as (ω & [? ? ?] & Hle);
    [unfold claimed_profit; by rewrite Hp|by destruct Hsel|done|].
  exists ω. split; [by split|exact Hle].
Qed.

(** ** Admission search *)

Lemma admission_loop_spec `{Sha256} p budget counts n vectors out :
  admission_loop p budget counts n vectors = Ok out →
  match out with
  | inl r => (∃ u, r = unknown_result u) ∨
             ∃ s, certified p budget s ∧ r = feasible_result NOT_PROVEN (admission_bounds s) s
  | inr (_, n') => n' = n + Z.of_nat (length vectors) ∧ Forall (covered p budget None) vectors
  end.
Proof.
  revert counts n; induction vectors as [|lots vectors IH]; intros counts n; cbn [admission_loop].
  - intros [= <-]. split; [simpl; lia|constructor].
  - assert (Hnext : ∀ counts, covered p budget None lots →
      admission_loop p budget counts (n + 1) vectors = Ok out →
      match out with
      | inl r => (∃ u, r = unknown_result u) ∨
                 ∃ s, certified p budget s ∧ r = feasible_result NOT_PROVEN (admission_bounds s) s
      | inr (_, n') => n' = n + Z.of_nat (length (lots :: vectors)) ∧ Forall (covered p budget None) (lots :: vectors)
      end).
    { intros c Hc Hr. specialize (IH c (n + 1) Hr). destruct out as [|[]]; [done|]. destruct IH as [-> ?].
      split; [simpl length; lia|by constructor]. }
    destruct (any_lots lots) eqn:Ea; cbn [negb].
    2: { apply Hnext. intros ?. congruence. }
    intros (ev & Hev & Hr)%bind_Ok. destruct (pe_failed_qualification_ids ev) as [|i l] eqn:Ef.
    2: { revert Hr. apply Hnext. intros _. exists ev. split; [done|]. congruence. }
    apply bind_Ok in Hr as ([o rej] & Ho & Hr). unfold connected_qualified_solution in Ho.
    apply bind_Ok in Ho as ([[u|sols] rej'] & Hs & [= <- <-]); [injection Hr as <-; left; eauto|].
    apply (connected_solutions_spec p budget _ _ _ _ _ _ Hev Ef) in Hs.
    destruct sols as [|s sols]; simpl in Hr.
    + revert Hr. apply Hnext. intros _. exists ev. split; [done|]. intros _. exists [].
      split; [done|]. intros s ?%not_elem_of_nil. done.
    + injection Hr as <-. right. exists s. split; [|done].
      exact (proj1 (proj1 (Forall_cons _ _ _) (so_certified _ _ _ _ Hs))).
Qed.

Lemma find_qualified_spec `{Sha256} rq r :
  find_qualified rq = Ok r →
  (∃ u, r = unknown_result u) ∨
  (∃ s, certified (rq_problem rq) (rq_budget rq) s ∧ r = feasible_result NOT_PROVEN (admission_bounds s) s) ∨
  (∃ proof, r = negative_result NO_QUALIFIED_OPPORTUNITY no_bounds proof ∧
    pp_quantity_vectors_total proof = Some (Z.of_nat (length (quantity_vectors (rq_problem rq)))) ∧
    pp_quantity_vectors_examined proof = Some (Z.of_nat (length (quantity_vectors (rq_problem rq)))) ∧
    ∀ ev, ¬ acceptable (rq_problem rq) (rq_budget rq) ev).
Proof.
  unfold find_qualified. intros ([u|] & _ & Hr)%bind_Ok; [injection Hr as <-; eauto|].
  apply bind_Ok in Hr as (total & Htot%quantity_vector_count_exact & Hr).
  apply bind_Ok in Hr as (out & Hl%admission_loop_spec & Hr). destruct out as [r'|[counts n]].
  - injection Hr as <-. destruct Hl; auto.
  - destruct Hl as [-> Hall]. apply bind_Ok in Hr as (proof & Hp & [= <-]).
    apply search_proof_inv in Hp as [Ht He]. simpl in Ht, He.
    right. right. exists proof. split_and!; [done|by rewrite Ht, Htot|done|].
    intros ev Hev. destruct (covered_acceptable (rq_problem rq) (rq_budget rq) None ev) as (s & b & _ & ? & _); [|done..].
    by rewrite Forall_forall in Hall.
Qed.
