(* ===== verification/SearchTotal.v ===== *)
(** * The search terminates and does not crash

    For every request, [solve_exhaustive] returns a result; the one exception
    it can raise is the [TypeError] of comparing two records whose identifiers
    collide (equal fingerprints of distinct scenarios, or component ids that
    tie because a contract id contains [":"]).  In particular no fuel of the
    model runs out: the [while] loops and the recursion of the source end. *)

From S2P Require Import Prelude PyValue NLeg NLegForms NLegValidate NLegWf Oracle OracleScenario OracleEval OracleQualify UnionFind Support SupportCorrect SplitCorrect Search SearchCorrect.
Local Open Scope Z_scope.

(** ** Fewer constraints keep a problem valid *)

Lemma filter_app_NoDup {A B} (f : A → string) (g : B → string) (P : A → Prop) (Q : B → Prop)
    `{∀ x, Decision (P x)} `{∀ x, Decision (Q x)} l k :
  NoDup ((f <$> l) ++ (g <$> k)) → NoDup ((f <$> filter P l) ++ (g <$> filter Q k)).
Proof.
  intros (H1 & H2 & H3)%NoDup_app. apply NoDup_app. split_and!; [by apply NoDup_fmap_filter| |by apply NoDup_fmap_filter].
  intros i (x & -> & [_ Hx]%list_elem_of_filter)%list_elem_of_fmap (y & E & [_ Hy]%list_elem_of_filter)%list_elem_of_fmap.
  apply (H2 (f x)); [|rewrite E]; apply list_elem_of_fmap; eauto.
Qed.

Lemma Forall_filter_sub {A} (P Q : A → Prop) `{∀ x, Decision (Q x)} l : Forall P l → Forall P (filter Q l).
Proof. rewrite !Forall_forall. intros Hf x [_ Hx]%list_elem_of_filter. auto. Qed.

Lemma wf_with_active p A R : wf_problem p → wf_problem (problem_with_active p A R).
Proof.
  intros Hwf. destruct Hwf. split; try assumption.
  - eapply Forall_impl; [exact wf_actions|]. intros a []. by split.
  - eapply Forall_impl; [exact wf_states|]. intros s [? ? ? ? ? ? Hat]. split; try assumption.
    eapply Forall_impl; [exact Hat|]. intros t []. by split.
  - apply Forall_filter_sub. eapply Forall_impl; [exact wf_relations|]. intros r []. by split.
  - apply Forall_filter_sub. eapply Forall_impl; [exact wf_forbiddens|]. intros f []. by split.
  - by apply filter_app_NoDup.
Qed.

(** ** Fingerprints of a valid problem *)

(** The windows of the state sets are UTC.  Validation compares them with the
    actions' UTC windows as instants, which does not give this. *)
Definition utc_states (p : ArbitrageProblem) : Prop :=
  ∀ s, s ∈ pb_terminal_state_sets p →
    forallb is_utc (key_datetimes (ts_settlement_observation_key s)) = true.

Lemma fingerprint_problem_total `{Sha256} p : wf_problem p → utc_states p → ∃ fp, fingerprint_problem p = Ok fp.
Proof.
  intros Hwf Hs. unfold fingerprint_problem.
  assert (forallb is_utc (problem_datetimes p) = true) as ->; [|by eexists].
  apply forallb_forall. intros d Hd%list_elem_of_In. unfold problem_datetimes in Hd.
  apply elem_of_cons in Hd as [->|[Hd|Hd]%elem_of_app]; [apply Hwf| |].
  - apply list_elem_of_bind in Hd as (a & Hd & Ha).
    destruct (wa_window _ _ (proj1 (Forall_forall _ _) (wf_actions _ Hwf) a Ha)) as (? & ? & _). set_solver.
  - apply list_elem_of_bind in Hd as (s & Hd & Hin). apply elem_of_app in Hd as [Hd|Hd].
    + specialize (Hs s Hin). rewrite forallb_forall in Hs. apply Hs. by apply list_elem_of_In.
    + apply list_elem_of_omap in Hd as (t & Ht & Ed).
      destruct (wt_release _ _ _ (wf_atom_in p Hwf s t Hin Ht)) as (d' & Ed' & ? & _). congruence.
Qed.

Lemma fingerprint_request_total `{Sha256} rq :
  wf_problem (rq_problem rq) → utc_states (rq_problem rq) → ∃ fp, fingerprint_request rq = Ok fp.
Proof.
  intros Hwf Hs. destruct (fingerprint_problem_total _ Hwf Hs) as [fp Hfp].
  unfold fingerprint_problem in Hfp. apply bind_Ok in Hfp as ([] & Hr & _). unfold fingerprint_request. rewrite Hr. by eexists.
Qed.

Lemma search_proof_total `{Sha256} E rq audit conclusion source :
  wf_problem (rq_problem rq) → utc_states (rq_problem rq) → is_Some (negative_kind conclusion) →
  safe E (build_exhaustive_search_proof rq audit conclusion source).
Proof.
  intros Hwf Hs [k Hk]. unfold build_exhaustive_search_proof. rewrite Hk. simpl.
  destruct (fingerprint_problem_total _ Hwf Hs) as [fp ->]. simpl.
  by destruct (fingerprint_request_total _ Hwf Hs) as [rf ->].
Qed.

(** ** Parts of a finished evaluation *)

Lemma evaluate_inv `{Sha256} p qs budget ev :
  evaluate_fixed_portfolio p qs budget = Ok ev →
  cost_upper_bound_for_selected p (pe_quantities ev) = Ok (pe_cost_upper_bound_units ev) ∧
  checked_subtract (pe_payout_lower_bound_units ev) (pe_cost_upper_bound_units ev) = Ok (pe_guaranteed_profit_units ev) ∧
  cut_from_scenario_unchecked p (pe_worst_scenario ev) = Ok (pe_worst_state_cut ev) ∧
  scenario_payout p (py_dict ((λ q, (aq_action_id q, aq_quantity_lots q)) <$> pe_quantities ev)) (pe_worst_scenario ev)
  = Ok (pe_payout_lower_bound_units ev).
Proof.
  unfold evaluate_fixed_portfolio, evaluate_portfolio.
  intros (? & _ & (sel & _ & (? & _ & (en & _ & Hr)%bind_Ok)%bind_Ok)%bind_Ok)%bind_Ok.
  apply bind_Ok in Hr as (scs & _ & Hr). apply bind_Ok in Hr as ([[payout f] worst] & Hw%worst_scenario_spec & Hr).
  apply bind_Ok in Hr as (rel & _ & Hr). apply bind_Ok in Hr as (cost & Hcost & Hr).
  apply bind_Ok in Hr as (profit & Hp & Hr). apply bind_Ok in Hr as (cut & Hcut & Hr).
  apply bind_Ok in Hr as (failed & _ & [= <-]). destruct Hw as (_ & Hw & _). done.
Qed.

(** ** Summing the selected payouts only *)

Section payout_fold.
Context (m : gmap string Z).

Let step (total : Z) (y : ActionPayout) : res Z :=
  v ← checked_multiply (payout_lower_bound_per_lot_units y) (default 0 (m !! ap_action_id y));
  checked_add total v.

Lemma payout_step_int64 t y r : step t y = Ok r → int64 r.
Proof. intros (v & _ & [-> ?]%checked_Ok)%bind_Ok. done. Qed.

Lemma int64_0 : int64 0.
Proof. done. Qed.

Lemma payout_skip t l r :
  int64 t → foldM step t l = Ok r → foldM step t (filter (λ y, is_Some (m !! ap_action_id y)) l) = Ok r.
Proof.
  revert t; induction l as [|y l IH]; intros t Ht; [done|]. rewrite filter_cons.
  intros (t' & Hy & Hr)%bind_Ok. case_decide as Hm.
  - apply bind_Ok. exists t'. split; [done|]. apply IH; [by eapply payout_step_int64|done].
  - apply eq_None_not_Some in Hm. unfold step in Hy. rewrite Hm in Hy. simpl in Hy.
    apply bind_Ok in Hy as (v & [-> _]%checked_Ok & [-> _]%checked_Ok).
    rewrite Z.mul_0_r, Z.add_0_r in Hr. by apply IH.
Qed.

Lemma payout_selected (D : gmap string Z) t l qs r :
  Forall2 (λ y q, ap_action_id y = aq_action_id q ∧ m !! aq_action_id q = Some (aq_quantity_lots q) ∧
                  D !! aq_action_id q = Some (payout_lower_bound_per_lot_units y)) l qs →
  foldM step t l = Ok r → foldM (selected_payout D) t qs = Ok r.
Proof.
  intros Hl. revert t; induction Hl as [|y q l qs (Ei & Em & ED) _ IH]; intros t; [done|].
  intros (t' & Hy & Hr)%bind_Ok. apply bind_Ok. exists t'. split; [|by apply IH].
  unfold selected_payout. rewrite ED. simpl. unfold step in Hy. rewrite Ei, Em in Hy. done.
Qed.
End payout_fold.

(** Two sorted lists with the same distinct keys are aligned. *)
Lemma sorted_aligned {A B} (f : A → string) (g : B → string) (l : list A) (k : list B) :
  StronglySorted (λ x y, String.leb (f x) (f y) = true) l → NoDup (f <$> l) →
  StronglySorted (λ x y, String.leb (g x) (g y) = true) k → NoDup (g <$> k) →
  (∀ i, i ∈ f <$> l ↔ i ∈ g <$> k) → Forall2 (λ x y, f x = g y) l k.
Proof.
  intros Hl Hnl Hk Hnk Heq.
  assert (Hs : ∀ C (h : C → string) (xs : list C), StronglySorted (λ x y, String.leb (h x) (h y) = true) xs →
    StronglySorted (λ x y : string, String.leb (id x) (id y) = true) (h <$> xs)).
  { intros C h xs. induction 1 as [|x xs _ IH Hx]; csimpl; constructor; [done|]. by apply Forall_fmap. }
  assert (E : f <$> l = g <$> k).
  { apply (StronglySorted_unique id); [by apply Hs..|by rewrite list_fmap_id|]. by apply NoDup_Permutation. }
  assert (Forall2 eq (f <$> l) (g <$> k)) as H2 by (rewrite E; by apply list_eq_Forall2).
  rewrite Forall2_fmap in H2. done.
Qed.

Lemma sort_on_NoDup {A} (key : A → string) l : NoDup (key <$> l) → NoDup (key <$> sort_on key l).
Proof. by rewrite sort_on_perm. Qed.

Lemma selected_payout_total `{Sha256} p ω qs v :
  wf_problem p → outcome p ω → selection p qs →
  scenario_payout p (py_dict ((λ q, (aq_action_id q, aq_quantity_lots q)) <$> qs)) (scenario p ω) = Ok v →
  foldM (selected_payout (py_dict ((λ y, (ap_action_id y, payout_lower_bound_per_lot_units y))
           <$> sort_on ap_action_id (outcome_payouts p ω)))) 0 qs = Ok v.
Proof.
  intros Hwf Ho Hsel. set (m := py_dict _). unfold scenario_payout. rewrite cut_of_outcome by done. simpl.
  intros Hf%payout_skip; [|done]. eapply payout_selected, Hf.
  set (l := sort_on ap_action_id (outcome_payouts p ω)).
  assert (Hnd : NoDup (ap_action_id <$> l)) by (apply sort_on_NoDup, outcome_payouts_NoDup; done).
  assert (Hm : ∀ q, q ∈ qs → m !! aq_action_id q = Some (aq_quantity_lots q)).
  { intros q Hq. apply py_dict_lookup; [rewrite <- list_fmap_compose; apply Hsel|]. apply list_elem_of_fmap. eauto. }
  assert (Hdom : ∀ i, is_Some (m !! i) ↔ i ∈ aq_action_id <$> qs).
  { intros i. unfold m. rewrite py_dict_is_Some, <- list_fmap_compose. done. }
  pose proof (sorted_aligned ap_action_id aq_action_id (filter (λ y, is_Some (m !! ap_action_id y)) l) qs) as Hal.
  assert (Hal' : Forall2 (λ x y, ap_action_id x = aq_action_id y) (filter (λ y, is_Some (m !! ap_action_id y)) l) qs).
  { apply Hal; [apply StronglySorted_filter, sort_on_sorted|by apply NoDup_fmap_filter|apply Hsel|apply Hsel|].
    intros i. rewrite <- Hdom. split.
    - intros (y & -> & [Hy _]%list_elem_of_filter)%list_elem_of_fmap. done.
    - intros Hi. assert (i ∈ ap_action_id <$> l) as (y & -> & Hy)%list_elem_of_fmap.
      { unfold l. rewrite sort_on_perm. apply Hdom, list_elem_of_fmap in Hi as (q & -> & Hq).
        by apply (selection_payout_id p Hwf ω Ho qs). }
      apply list_elem_of_fmap. exists y. split; [done|]. by apply list_elem_of_filter. }
  apply Forall2_same_length_lookup_2; [by eapply Forall2_length|]. intros i y q Hy Hq.
  pose proof (Forall2_lookup_lr _ _ _ _ _ _ Hal' Hy Hq) as E.
  apply list_elem_of_lookup_2, list_elem_of_filter in Hy as [_ Hy]. apply list_elem_of_lookup_2 in Hq.
  split_and!; [done|by apply Hm|]. rewrite <- E. apply py_dict_lookup; [by rewrite <- list_fmap_compose|].
  apply list_elem_of_fmap. eauto.
Qed.

(** ** Building the proof of an evaluation *)

Lemma release_ltb_utc a b :
  is_utc a = true → is_utc b = true → release_ltb (Some a) (Some b) = Ok (datetime_ltb a b).
Proof.
  intros Ha%bool_decide_eq_true_1 Hb%bool_decide_eq_true_1. unfold release_ltb. by rewrite Ha, Hb.
Qed.

Lemma max_release_total (P : datetime → Prop) l :
  l ≠ [] → Forall (λ o, ∃ d, o = Some d ∧ is_utc d = true ∧ P d) l →
  ∃ d, max_release l = Ok (Some d) ∧ is_utc d = true ∧ P d.
Proof.
  destruct l as [|o l]; [done|]. intros _ [(d & -> & Hu & HP) Hl]%Forall_cons. simpl.
  revert d Hu HP; induction Hl as [|o l (e & -> & He & HPe) _ IH]; intros d Hu HP; cbn [foldM]; [eauto|].
  rewrite release_ltb_utc by done. cbn [mbind res_bind]. destruct (datetime_ltb d e); by apply IH.
Qed.

Section build.
Context `{Sha256} (p : ArbitrageProblem) (budget : OracleBudget).

Lemma release_of_utc qs d :
  wf_problem p → release_of p qs (Some d) → is_utc d = true ∧ dt_us (pb_as_of p) ≤ dt_us d.
Proof.
  intros Hwf (ω & a & Hω & Ha & _ & E).
  destruct (proj1 (elem_of_contracts p _) (wf_action_contracts _ Hwf a Ha)) as (s & Hs & Ec).
  destruct (wt_release _ _ _ (wf_atom_in p Hwf s _ Hs (al_outcome _ _ Hω s Hs))) as (d' & Hd' & ? & ?).
  rewrite Ec in Hd'. rewrite <- E in Hd'. by injection Hd' as <-.
Qed.

Lemma worst_releases qs ω sc d :
  sc = scenario p ω → wf_problem p → selection p qs → qs ≠ [] → allowed p ω →
  (∀ o, release_of p qs o → ∃ t, o = Some t ∧ dt_us t ≤ dt_us d) →
  ∃ rels t, mapM (atom_release p)
    (filter (λ a, sa_market_contract_id a ∈ selected_contract_ids p qs) (sc_atoms sc)) = Ok rels ∧
    max_release rels = Ok (Some t) ∧ is_utc t = true ∧ dt_us t ≤ dt_us d.
Proof.
  intros -> Hwf Hsel Hne Hω Hmax.
  set (l := filter _ (sc_atoms (scenario p ω))).
  assert (Hl : ∀ x, x ∈ l → ∃ o, atom_release p x = Ok o ∧ release_of p qs o).
  { intros x [Hx (s & -> & Hs)%list_elem_of_fmap]%list_elem_of_filter. simpl in Hx.
    apply sorted_states_elem in Hs. eexists. split; [apply atom_release_outcome; [done|apply Hω|done]|].
    unfold selected_contract_ids in Hx. apply list_elem_of_fmap in Hx as (a & Ec & [Hid Ha]%list_elem_of_filter).
    exists ω, a. split_and!; [done..|]. by rewrite Ec. }
  destruct (safe_Ok (mapM (atom_release p) l)) as [rels Hrels].
  { apply safe_mapM. intros x Hx. destruct (Hl x Hx) as (o & -> & _). done. }
  exists rels. destruct (max_release_total (λ t, dt_us t ≤ dt_us d) rels) as (t & Ht & Hu & Hle).
  - destruct qs as [|q qs]; [done|].
    destruct (proj1 (Forall_forall _ _) (sel_known _ _ Hsel) q ltac:(set_solver)) as (a & Ha & _).
    apply index_by_elem in Ha as [Ha Eid].
    destruct (proj1 (elem_of_contracts p _) (wf_action_contracts _ Hwf a Ha)) as (s & Hs & Ec).
    assert (Hx : SelAtom (ts_market_contract_id s) (ta_atom_id (ω (ts_market_contract_id s))) ∈ l).
    { apply list_elem_of_filter. split; simpl.
      - rewrite Ec. apply list_elem_of_fmap. exists a. split; [done|]. apply list_elem_of_filter. set_solver.
      - apply list_elem_of_fmap. exists s. split; [done|]. by apply sorted_states_elem. }
    destruct (Hl _ Hx) as (o & Ho & _). intros ->.
    pose proof (proj2 (mapM_elem _ _ _ o Hrels) (ex_intro _ _ (conj Hx Ho))) as Hin. by apply not_elem_of_nil in Hin.
  - apply Forall_forall. intros o Ho. rewrite (mapM_elem _ _ _ _ Hrels) in Ho. destruct Ho as (x & Hx & Ex).
    destruct (Hl x Hx) as (o' & Ho' & Hrel). rewrite Ex in Ho'. injection Ho' as <-.
    destruct (Hmax _ Hrel) as (t & -> & Hle). exists t. split; [done|]. by destruct (release_of_utc qs t Hwf Hrel).
  - exists t. done.
Qed.

Lemma build_total qs ev graph groups :
  utc_states p → evaluates p budget qs ev → derive_selected_support_graph p ev budget = Ok (inr graph) →
  split_disconnected_solution p ev graph = Ok groups → length groups = 1%nat →
  ∃ s, build_portfolio_solution p ev graph = Ok s.
Proof.
  intros Hutc Hev Hg Hsp Hl. pose proof (evaluate_sound _ _ _ _ Hev) as Hs.
  destruct (derive_support_graph_spec p qs ev budget graph Hev Hg) as (A & R & C & Hspec).
  destruct (evaluate_inv p qs budget ev Hev) as (Hcost & Hprofit & Hcut & Hpay).
  destruct (es_worst _ _ _ Hs) as (ω & Hω & Eω & _). destruct (es_release _ _ _ Hs) as (d & Hd & Hdrel & Hdmax).
  pose proof (es_wf _ _ _ Hs) as Hwf.
  destruct (worst_releases (pe_quantities ev) ω _ d Eω Hwf (es_selection _ _ _ Hs) (es_nonempty _ _ _ Hs) Hω Hdmax)
    as (rels & t & Hrels & Ht & Htu & Htle).
  destruct (release_of_utc _ _ Hwf Hdrel) as [Hdu Hdas].
  unfold build_portfolio_solution. rewrite (proj2 (require_valid_Ok p tt) Hwf). simpl.
  rewrite (selected_quantities_id p (pe_quantities ev) Hwf) by apply Hs. simpl.
  rewrite (sp_actions _ _ _ _ _ _ _ Hspec), bool_decide_eq_true_2 by done. simpl.
  rewrite Hsp. simpl. rewrite Hl. simpl. rewrite decide_True by done. rewrite Hcost. simpl.
  rewrite Z.eqb_refl. simpl. unfold cut_from_scenario. rewrite (proj2 (require_valid_Ok p tt) Hwf). simpl.
  rewrite Hcut. simpl. rewrite Eω in Hcut, Hpay.
  rewrite cut_of_outcome in Hcut by (done || apply Hω). injection Hcut as Ecut.
  pose proof (selected_payout_total p ω _ _ Hwf (al_outcome _ _ Hω) (es_selection _ _ _ Hs) Hpay) as Hpay'.
  assert (Epay : cut_payout_per_lot (pe_worst_state_cut ev) = sort_on ap_action_id (outcome_payouts p ω)) by (by rewrite <- Ecut).
  rewrite Epay, Hpay'. simpl. rewrite Hrels. simpl. rewrite Ht. simpl.
  unfold proof_mismatch. rewrite bool_decide_eq_true_2 by done. simpl. rewrite Z.eqb_refl. simpl.
  rewrite Hprofit. simpl. rewrite Z.eqb_refl. cbn [negb or_else]. rewrite Hd, (release_ltb_utc d t Hdu Htu),
    (release_ltb_utc d (pb_as_of p) Hdu (wf_as_of _ Hwf)).
  unfold datetime_ltb. rewrite !(proj2 (Z.ltb_ge _ _)) by lia. simpl.
  destruct (fingerprint_problem_total p Hwf Hutc) as [fp ->]. by eexists.
Qed.
End build.

(** ** Inside the search *)

Section search_total.
Context `{Sha256} (p : ArbitrageProblem) (budget : OracleBudget) (states : Z).
Context (Hwf : wf_problem p) (Hne : allowed_scenarios p ≠ [])
  (Hraw : raw_joint_state_count (sorted_states p) = Ok states) (Hstates : states ≤ bg_max_joint_states budget).

Let E2 : list exn := [OverflowError; TypeError].

Lemma safe_evaluate_selection sel :
  selection p sel → sel ≠ [] → safe E2 (evaluate_fixed_portfolio p sel budget).
Proof.
  intros Hsel Hs. apply (evaluate_total E2 p sel sel budget states); try done; [set_solver|left; set_solver|].
  by apply selected_quantities_id.
Qed.

Lemma allowed_with_active_nonempty A R : allowed_scenarios (problem_with_active p A R) ≠ [].
Proof.
  destruct (allowed_scenarios p) as [|sc l] eqn:Es; [done|].
  assert (sc ∈ allowed_scenarios p) as Hsc by (rewrite Es; set_solver).
  apply elem_of_allowed_scenarios in Hsc as (ω & Hω & ->); [|by apply wf_enumerable].
  assert (scenario p ω ∈ allowed_scenarios (problem_with_active p A R)) as Hin.
  { apply elem_of_allowed_scenarios; [by apply wf_enumerable, wf_with_active|]. exists ω.
    split; [by apply allowed_with_active|done]. }
  intros E. rewrite E in Hin. by apply not_elem_of_nil in Hin.
Qed.

Lemma safe_eliminate qs ev R A n ids :
  evaluates p budget qs ev → safe E2 (eliminate p ev budget R A n ids).
Proof.
  intros Hev. pose proof (evaluate_sound _ _ _ _ Hev) as Hs.
  revert A n; induction ids as [|i ids IH]; intros A n; cbn [eliminate]; [done|].
  destruct (_ <=? _); [done|]. apply safe_bind; [|intros ? _; apply IH].
  apply (evaluate_total E2 _ _ (pe_quantities ev) budget states); try done.
  - set_solver.
  - left. set_solver.
  - by apply wf_with_active.
  - apply allowed_with_active_nonempty.
  - exact (selected_quantities_id p _ Hwf (es_selection _ _ _ Hs)).
  - apply Hs.
Qed.

Lemma safe_derive qs ev : evaluates p budget qs ev → safe E2 (derive_selected_support_graph p ev budget).
Proof.
  intros Hev. unfold derive_selected_support_graph. rewrite (proj2 (require_valid_Ok p tt) Hwf). simpl.
  destruct (support_closure_correct p Hwf (evaluation_contracts p ev)) as (R & C & -> & Hsub & Hcl). simpl.
  apply safe_bind; [by eapply safe_eliminate|]. intros [u|A] He; [done|].
  apply eliminate_spec in He as [HA _].
  2: { exists ev. rewrite problem_with_active_self. split; [by eapply evaluate_canonical|apply same_conclusion_refl]. }
  rewrite scopes_Ok; [done|done|]. apply Forall_forall. intros i Hi%elem_of_sorted_elements.
  apply (cs_relevant _ _ _ Hcl). by apply HA.
Qed.

(** Every canonical quantity vector has been evaluated by the preflight. *)
Context (Hutc : utc_states p) (Hpre : ∀ sel, selection p sel → sel ≠ [] → ∃ ev, evaluates p budget sel ev).

Let E1 : list exn := [TypeError].

Lemma safe_part_fold rec acc children :
  Forall (λ child, ∀ rej, pe_failed_qualification_ids child = [] → safe E1 (rec child rej)) children →
  safe E1 (foldM (part_step rec) acc children).
Proof.
  intros Hch. revert acc; induction Hch as [|child children Hrec _ IH]; intros acc; cbn [foldM]; [done|].
  apply safe_bind; [|intros ? _; apply IH]. unfold part_step. destruct acc as [[u|sols] rej]; [done|].
  destruct (pe_failed_qualification_ids child) eqn:Ef; [|done].
  apply safe_bind; [by apply Hrec|]. by intros [].
Qed.

(** Parts of a disconnected portfolio are shorter. *)
Lemma part_shorter (groups : list (list ActionQuantity)) qs g :
  mjoin groups ≡ₚ qs → Forall (λ g, g ≠ []) groups → length groups ≠ 1%nat → g ∈ groups →
  (length g < length qs)%nat.
Proof.
  intros Hp Hnil Hl Hg. rewrite <- Hp. apply list_elem_of_split in Hg as (l1 & l2 & ->).
  assert (∃ g', g' ∈ l1 ++ l2) as [g' Hg'].
  { rewrite length_app in Hl. simpl in Hl. destruct l1 as [|x l1]; [destruct l2 as [|x l2]|]; [done|exists x; set_solver..]. }
  assert (g' ≠ []) as Hne'.
  { rewrite Forall_forall in Hnil. apply Hnil. set_solver. }
  rewrite join_app, length_app. csimpl. rewrite length_app.
  apply elem_of_app in Hg' as [Hg'|Hg']; apply list_elem_of_split in Hg' as (k1 & k2 & ->);
    rewrite join_app, length_app; csimpl; rewrite length_app; destruct g'; try done; simpl; lia.
Qed.

Lemma safe_connected_solutions fuel qs ev rej :
  evaluates p budget qs ev → (length (pe_quantities ev) < fuel)%nat →
  safe E1 (connected_solutions fuel p budget ev rej).
Proof.
  revert qs ev rej; induction fuel as [|fuel IH]; intros qs ev rej Hev Hfuel; [lia|].
  cbn [connected_solutions]. pose proof (safe_derive qs ev Hev) as Hd. pose proof (evaluate_sound _ _ _ _ Hev) as Hs.
  destruct (derive_selected_support_graph p ev budget) as [[u|graph]|e] eqn:Eg; [done| |].
  2: { simpl in Hd. apply elem_of_cons in Hd as [->|Hd]; [done|]. apply list_elem_of_singleton in Hd as ->. simpl. unfold E1. set_solver. }
  destruct (split_disconnected_solution p ev graph) as [groups|e] eqn:Esp.
  2: { destruct (derive_support_graph_spec p qs ev budget graph Hev Eg) as (A & R & C & Hspec).
       destruct (split_correct p ev graph) as [(gs & cls & E & _)|E];
         [apply Hs|by eapply graph_edges_known|congruence|]. rewrite Esp in E. injection E as ->. simpl. unfold E1. set_solver. }
  simpl. destruct (length groups =? 1)%nat eqn:El.
  - apply Nat.eqb_eq in El. destruct (build_total p budget qs ev graph groups Hutc Hev Eg Esp El) as [s ->]. done.
  - apply Nat.eqb_neq in El.
    destruct (split_groups_spec p budget qs ev graph groups Hev Eg Esp) as [cls [Hperm Hsel _ _]].
    destruct (safe_Ok (mapM (λ qs, evaluate_fixed_portfolio p qs budget) groups)) as [children Hch].
    { apply safe_mapM. intros g Hg. destruct (proj1 (Forall_forall _ _) Hsel g Hg) as [Hgn Hgs].
      by destruct (Hpre g Hgs Hgn) as [ev' ->]. }
    rewrite Hch. apply mapM_Ok in Hch. cbn [mbind res_bind].
    change (safe E1 (foldM (part_step (connected_solutions fuel p budget)) (inr [], rej) children)).
    apply safe_part_fold.
    apply Forall_forall. intros child (i & Hc)%list_elem_of_lookup rej' _.
    destruct (Forall2_lookup_r _ _ _ _ _ Hch Hc) as (g & Hg & Hgc). apply list_elem_of_lookup_2 in Hg.
    destruct (proj1 (Forall_forall _ _) Hsel g Hg) as [_ Hgs].
    apply (IH g); [done|]. rewrite (evaluates_selection p budget g child Hgc Hgs).
    enough (length g < length (pe_quantities ev))%nat by lia.
    eapply part_shorter; [done| |done|done]. eapply Forall_impl; [exact Hsel|]. by intros ? [].
Qed.
End search_total.

(** ** The request checks *)

Lemma preflight_spec `{Sha256} p budget u :
  numeric_domain_preflight p budget = Ok u →
  ∀ lots, lots ∈ quantity_vectors p → any_lots lots = true → ∃ ev, evaluates p budget (vector_quantities p lots) ev.
Proof.
  unfold numeric_domain_preflight. induction (quantity_vectors p) as [|lots l IH]; [by intros _ ? ?%not_elem_of_nil|].
  intros ([] & Hs & Hr)%bind_Ok lots' [->|Hin]%elem_of_cons Ha; [|by apply IH].
  rewrite Ha in Hs. apply bind_Ok in Hs as (ev & Hev & _). by exists ev.
Qed.

Record search_ready `{Sha256} (p : ArbitrageProblem) (budget : OracleBudget) : Prop := {
  sr_wf : wf_problem p;
  sr_nonempty : allowed_scenarios p ≠ [];
  sr_states : ∃ n, raw_joint_state_count (sorted_states p) = Ok n ∧ n ≤ bg_max_joint_states budget;
  sr_count : ∃ n, quantity_vector_count p = Ok n;
  sr_evaluated : ∀ sel, selection p sel → sel ≠ [] → ∃ ev, evaluates p budget sel ev;
}.

Lemma enumerate_ready p budget e :
  wf_problem p → enumerate_allowed_scenarios p budget = Ok e → se_unknown_reason e = None →
  allowed_scenarios p ≠ [] ∧
  ∃ n, raw_joint_state_count (sorted_states p) = Ok n ∧ n ≤ bg_max_joint_states budget.
Proof.
  intros Hwf He Hu. unfold enumerate_allowed_scenarios, enumerate_scenarios in He.
  rewrite (proj2 (rejects_strict _) (proj2 (validate_problem_wf p) Hwf)) in He.
  destruct (raw_joint_state_count (sorted_states p)) as [n|]; [|injection He as <-; done].
  destruct (_ <? _) eqn:El; [injection He as <-; done|]. bool_prop.
  rewrite filterM_joint in He by by apply wf_enumerable. simpl in He. unfold allowed_scenarios.
  destruct (filter _ (joint_choices p)); [injection He as <-; done|]. split; [done|]. eauto.
Qed.

Lemma search_request_ready `{Sha256} rq mode :
  search_request_unknown_reason rq mode = Ok None → search_ready (rq_problem rq) (rq_budget rq).
Proof.
  intros Hr. pose proof (search_request_valid rq mode Hr) as Hwf. revert Hr.
  unfold search_request_unknown_reason. destruct (_ || _); [done|].
  destruct (input_unknown_reason (rq_problem rq)); [done|].
  destruct (quantity_vector_count (rq_problem rq)) as [n|e] eqn:En; [|by destruct e].
  destruct (_ <? _); [done|]. intros (e & He & Hr)%bind_Ok.
  destruct (se_unknown_reason e) eqn:Eu; [done|].
  destruct (numeric_domain_preflight (rq_problem rq) (rq_budget rq)) as [u|x] eqn:Ep; [|by destruct x].
  destruct (enumerate_ready _ _ _ Hwf He Eu) as [Hne Hst]. split; [done..|eauto|].
  intros sel Hsel Hs. destruct (selection_vector _ sel Hwf Hsel) as (lots & Hin & E).
  destruct (any_lots lots) eqn:Ea; [|by rewrite (vector_quantities_nil _ lots Ea) in E; subst].
  destruct (preflight_spec _ _ _ Ep lots Hin Ea) as [ev Hev]. exists ev. by rewrite <- E.
Qed.

Lemma quantity_vector_count_safe p : wf_problem p → safe [OverflowError] (quantity_vector_count p).
Proof.
  intros Hwf. unfold quantity_vector_count. rewrite (proj2 (require_valid_Ok p tt) Hwf). simpl.
  apply safe_foldM'. intros t a _. unfold domain_size.
  repeat (apply safe_bind; [|intros ? _]); apply safe_checked; set_solver.
Qed.

Lemma input_reason_None p : input_unknown_reason p = None → wf_problem p.
Proof.
  unfold input_unknown_reason. destruct (existsb _ _); [done|]. destruct (_ || _); [done|].
  intros Hv. apply validate_problem_wf. by destruct (validate_problem p).
Qed.

Lemma any_lots_nonempty p lots :
  Forall2 (λ n a, n = 0 ∨ ca_min_quantity_lots a ≤ n ≤ ca_max_quantity_lots a) lots (sorted_actions p) →
  any_lots lots = true → vector_quantities p lots ≠ [].
Proof.
  unfold any_lots. intros Hl (n & Hn%list_elem_of_In & Hnz)%existsb_exists E.
  apply list_elem_of_lookup in Hn as [i Hi]. destruct (Forall2_lookup_l _ _ _ _ _ Hl Hi) as (a & Ha & _).
  bool_prop. assert (AQ (ca_action_id a) n ∈ vector_quantities p lots) as Hin.
  { apply list_elem_of_filter. split; [done|]. apply list_elem_of_lookup. exists i.
    by rewrite lookup_zip_with, Ha; simpl; rewrite Hi. }
  rewrite E in Hin. by apply not_elem_of_nil in Hin.
Qed.

Lemma safe_search_request `{Sha256} rq mode : safe [TypeError] (search_request_unknown_reason rq mode).
Proof.
  unfold search_request_unknown_reason. destruct (_ || _); [done|].
  destruct (input_unknown_reason (rq_problem rq)) eqn:Ei; [done|]. apply input_reason_None in Ei as Hwf.
  pose proof (quantity_vector_count_safe _ Hwf) as Hc.
  destruct (quantity_vector_count (rq_problem rq)) as [n|e]; [|by apply list_elem_of_singleton in Hc as ->].
  destruct (_ <? _); [done|].
  destruct (enumerate_scenarios_cases (rq_problem rq) (rq_budget rq) false (wf_enumerable _ Hwf)) as (e & He & _).
  { apply rejects_strict. by apply validate_problem_wf. }
  unfold enumerate_allowed_scenarios. rewrite He. simpl. destruct (se_unknown_reason e) eqn:Eu; [done|].
  destruct (enumerate_ready _ _ _ Hwf He Eu) as [Hne (k & Hraw & Hk)].
  assert (Hp : safe [OverflowError; TypeError] (numeric_domain_preflight (rq_problem rq) (rq_budget rq))).
  { apply safe_foldM'. intros _ lots Hl. destruct (any_lots lots) eqn:Ea; [|done]. apply safe_bind; [|done].
    apply (safe_evaluate_selection _ _ k); try done; [by apply vector_selection|].
    apply quantity_vectors_elem in Hl. by apply any_lots_nonempty. }
  destruct (numeric_domain_preflight _ _) as [u|x]; [done|]. simpl in Hp.
  apply elem_of_cons in Hp as [->|Hp]; [done|]. apply list_elem_of_singleton in Hp as ->. by left.
Qed.

(** ** The search *)

Lemma keep_best_total `{Sha256} p budget best sols :
  certified_best p budget best → Forall (certified p budget) sols → ∃ best', foldM keep_best best sols = Ok best'.
Proof.
  intros Hb Hs. revert best Hb; induction Hs as [|s sols [ev Hc] Hs IH]; intros best Hb; [by exists best|].
  assert (∃ best1, keep_best best s = Ok best1 ∧ certified_best p budget best1) as (b1 & E & Hb1).
  { destruct best as [b|]; simpl; [|eexists; split; [done|]; intros s' [= <-]; by exists ev].
    destruct (Hb b eq_refl) as [evb Hcb]. unfold better_solution, solution_profit, solution_cost.
    rewrite (certifies_profit _ _ _ _ Hc), (certifies_cost _ _ _ _ Hc), (certifies_profit _ _ _ _ Hcb), (certifies_cost _ _ _ _ Hcb).
    simpl. eexists. split; [done|]. intros s'. case_match; intros [= <-]; [by exists ev|by exists evb]. }
  destruct (IH b1 Hb1) as [b2 E2]. exists b2. cbn [foldM]. by rewrite E.
Qed.

Lemma safe_solve_loop `{Sha256} p budget st vectors :
  search_ready p budget → utc_states p → certified_best p budget (st_best st) → Forall (.∈ quantity_vectors p) vectors →
  safe [TypeError] (solve_loop p budget st vectors).
Proof.
  intros Hready Hutc Hb Hv. revert st Hb; induction Hv as [|lots vectors Hl Hv IH]; intros st Hb; cbn [solve_loop]; [done|].
  apply safe_bind.
  - unfold solve_step. destruct (any_lots lots) eqn:Ea; [|done]. simpl.
    assert (∃ ev, evaluates p budget (vector_quantities p lots) ev) as [ev Hev].
    { apply (sr_evaluated _ _ Hready); [apply vector_selection; [apply Hready|done]|].
      apply quantity_vectors_elem in Hl. by apply any_lots_nonempty. }
    unfold evaluates in Hev. rewrite Hev. simpl. destruct (pe_failed_qualification_ids ev) eqn:Ef; [|done].
    destruct (sr_states _ _ Hready) as (n & Hraw & Hn).
    apply safe_bind.
    + apply (safe_connected_solutions p budget n) with (qs := vector_quantities p lots); try apply Hready; try done. lia.
    + intros [[u|sols] rej] Hs; [done|]. apply (connected_solutions_spec p budget _ _ _ _ _ _ Hev Ef) in Hs.
      destruct (keep_best_total p budget (st_best st) sols Hb (so_certified _ _ _ _ Hs)) as [b ->]. done.
  - intros [u|st1] Hs; [done|]. apply solve_step_spec in Hs as (_ & _ & _ & Hc). auto.
Qed.

Lemma joint_product_total p n :
  wf_problem p → raw_joint_state_count (sorted_states p) = Ok n → ∃ m, joint_states_product p = Ok m.
Proof.
  intros Hwf Hraw. apply raw_count_exact in Hraw as En.
  assert (Hle : n ≤ INT64_MAX).
  { enough (∀ l t, t ≤ INT64_MAX →
      foldM (λ n s, checked_multiply n (Z.of_nat (length (ts_atoms s)))) t l = Ok n → n ≤ INT64_MAX) as Hg
      by (by apply (Hg (sorted_states p) 1)).
    induction l as [|s l IH]; intros t Ht; [by intros [= <-]|].
    intros (t' & [-> [_ ?]]%checked_Ok & Hr)%bind_Ok. by eapply IH. }
  rewrite (foldr_mul_perm _ ((λ s, Z.of_nat (length (ts_atoms s))) <$> pb_terminal_state_sets p)) in En.
  2: { by apply fmap_Permutation, sort_on_perm. }
  unfold joint_states_product, checked_product.
  assert (Hpos : Forall (λ x, 1 ≤ x) ((λ s, Z.of_nat (length (ts_atoms s))) <$> pb_terminal_state_sets p)).
  { apply Forall_fmap. eapply Forall_impl; [apply Hwf|]. intros s Hs. simpl.
    pose proof (ws_atoms _ _ Hs). destruct (ts_atoms s); [done|simpl; lia]. }
  rewrite En in Hle. revert Hle.
  enough (∀ a, 1 ≤ a → a * foldr Z.mul 1 ((λ s, Z.of_nat (length (ts_atoms s))) <$> pb_terminal_state_sets p) ≤ INT64_MAX →
    ∃ m, foldM checked_multiply a ((λ s, Z.of_nat (length (ts_atoms s))) <$> pb_terminal_state_sets p) = Ok m) as Hg
    by (intros; apply Hg; lia).
  clear -Hpos. induction Hpos as [|x l Hx Hl IH]; intros a Ha Hle; cbn [foldM foldr] in *; [eauto|].
  assert (1 ≤ foldr Z.mul 1 l) by (clear -Hl; induction Hl; simpl; nia).
  assert (checked_multiply a x = Ok (a * x)) as ->.
  { apply checked_Ok. split; [done|]. unfold int64, INT64_MIN. nia. }
  simpl. apply IH; nia.
Qed.

Lemma solve_exhaustive_total `{Sha256} rq mode :
  utc_states (rq_problem rq) → safe [TypeError] (solve_exhaustive rq mode).
Proof.
  intros Hutc.
  unfold solve_exhaustive. apply safe_bind; [apply safe_search_request|]. intros [u|] Hr; [done|].
  apply search_request_ready in Hr as Hready. apply safe_bind.
  - apply safe_solve_loop; [done|done|apply initial_certified|]. by apply Forall_forall.
  - intros [u|st] _; [done|]. destruct (sr_count _ _ Hready) as [n ->]. cbn [mbind res_bind].
    destruct (sr_states _ _ Hready) as (k & Hraw & _).
    destruct (joint_product_total _ _ (sr_wf _ _ Hready) Hraw) as [m ->]. cbn [mbind res_bind].
    destruct (st_best st); [done|].
    apply safe_bind; [|done]. apply search_proof_total; [apply Hready|done|by eexists].
Qed.

Lemma safe_admission_loop `{Sha256} p budget counts n vectors :
  search_ready p budget → utc_states p → Forall (.∈ quantity_vectors p) vectors →
  safe [TypeError] (admission_loop p budget counts n vectors).
Proof.
  intros Hready Hutc Hv. revert counts n; induction Hv as [|lots vectors Hl Hv IH]; intros counts n; cbn [admission_loop]; [done|].
  destruct (any_lots lots) eqn:Ea; cbn [negb]; [|apply IH].
  destruct (sr_evaluated _ _ Hready (vector_quantities p lots)) as [ev Hev].
  { apply vector_selection; [apply Hready|done]. }
  { apply quantity_vectors_elem in Hl. by apply any_lots_nonempty. }
  unfold evaluates in Hev. rewrite Hev. cbn [mbind res_bind]. destruct (pe_failed_qualification_ids ev) eqn:Ef; [|apply IH].
  destruct (sr_states _ _ Hready) as (k & Hraw & Hk). unfold connected_qualified_solution.
  apply safe_bind; [apply safe_bind; [|by intros [[] ?] _]|].
  - apply (safe_connected_solutions p budget k) with (qs := vector_quantities p lots); try apply Hready; try done. lia.
  - intros [[u|[s|]] rej] _; [done|done|apply IH].
Qed.

Lemma find_qualified_total `{Sha256} rq : utc_states (rq_problem rq) → safe [TypeError] (find_qualified rq).
Proof.
  intros Hutc. unfold find_qualified. apply safe_bind; [apply safe_search_request|]. intros [u|] Hr; [done|].
  apply search_request_ready in Hr as Hready. destruct (sr_count _ _ Hready) as [n ->]. cbn [mbind res_bind].
  apply safe_bind; [apply safe_admission_loop; [done|done|by apply Forall_forall]|]. intros [r|[c m]] _; [done|].
  apply safe_bind; [|done]. apply search_proof_total; [apply Hready|done|by eexists].
Qed.

Lemma diagnose_total `{Sha256} p budget : utc_states p → safe [TypeError] (diagnose_raw_arbitrage p budget).
Proof.
  intros Hutc. unfold diagnose_raw_arbitrage. apply safe_bind; [by apply solve_exhaustive_total|]. intros r Hr.
  destruct (bool_decide _) eqn:Eb; [|done]. bool_prop. cbn [negb].
  unfold solve_exhaustive in Hr. apply bind_Ok in Hr as ([u|] & Hreq & Hr); [by injection Hr as <-|].
  apply search_request_ready in Hreq as Hready. cbn [diagnostic_request rq_problem rq_budget] in *.
  apply bind_Ok in Hr as ([u|st] & Hl & Hr); [by injection Hr as <-|].
  apply solve_loop_spec in Hl as (_ & Hc & _); [|apply initial_certified].
  apply bind_Ok in Hr as (n & Hn & Hr). apply bind_Ok in Hr as (m & Hm & Hr).
  destruct (st_best st) as [s|]; [|by apply bind_Ok in Hr as (? & _ & [= <-])].
  injection Hr as <-. cbn [feasible_result or_solution of_option mbind res_bind].
  destruct (Hc s eq_refl) as [ev Hs]. unfold solution_profit. rewrite (certifies_profit _ _ _ _ Hs). cbn [of_option mbind res_bind].
  destruct (0 <? _); [done|]. rewrite Hn. cbn [mbind res_bind]. rewrite Hm. cbn [mbind res_bind].
  assert (∃ fp, fingerprint_problem p = Ok fp) as [fp ->].
  { destruct (fingerprint_problem_total (diagnostic_problem p)) as [fp Hfp]; [apply Hready|exact Hutc|].
    unfold fingerprint_problem in *. apply bind_Ok in Hfp as ([] & Hreq' & _).
    change (problem_datetimes (diagnostic_problem p)) with (problem_datetimes p) in Hreq'. rewrite Hreq'. by eexists. }
  cbn [mbind res_bind]. apply safe_bind; [|done]. apply search_proof_total; [apply Hready|exact Hutc|by eexists].
Qed.
