(* ===== verification/Components.v ===== *)
(** * Relation components

    [build_relation_components] and [_component_slice] of
    [src/open_trader/prediction_n_leg_oracle.py]: contracts joined by a shared
    settlement observation, a forbidden combination or a relation form one
    component, validated on its own timeline. *)

From S2P Require Import Prelude PyValue NLeg NLegForms NLegValidate Oracle UnionFind Support.
Local Open Scope Z_scope.

Record RelationComponent := {
  rl_component_id : string;
  rl_action_ids : list string;
  rl_contract_ids : list string;
  rl_constraint_ids : list string;
  rl_as_of : datetime;
}.

(** [_component_slice] *)
Definition component_slice (p : ArbitrageProblem) (c : RelationComponent) (as_of : datetime) : ArbitrageProblem := {|
  pb_schema_version := pb_schema_version p;
  pb_problem_id := pb_problem_id p +:+ ":" +:+ rl_component_id c;
  pb_as_of := as_of;
  pb_valuation_unit_id := pb_valuation_unit_id p;
  pb_actions := filter (λ a, ca_action_id a ∈ rl_action_ids c) (pb_actions p);
  pb_terminal_state_sets :=
    filter (λ s, ts_market_contract_id s ∈ rl_contract_ids c) (pb_terminal_state_sets p);
  pb_constraint_model := {|
    cm_relations := filter (λ r, rc_constraint_id r ∈ rl_constraint_ids c) (cm_relations (pb_constraint_model p));
    cm_forbidden_atom_combinations :=
      filter (λ f, fb_constraint_id f ∈ rl_constraint_ids c)
        (cm_forbidden_atom_combinations (pb_constraint_model p)) |};
  pb_qualification_constraints := pb_qualification_constraints p |}.

Section components.
Context `{Sha256}.

(** [identity_contracts]: contracts by observation fingerprint, in order. *)
Definition identity_step (groups : list (string * list string)) (s : TerminalStateSet)
  : res (list (string * list string)) :=
  fp ← fingerprint_observation_key (ts_settlement_observation_key s);
  Ok (group_append ("identity:" +:+ fp) (ts_market_contract_id s) groups).

Definition identity_contracts (p : ArbitrageProblem) : res (list (string * list string)) :=
  foldM identity_step [] (pb_terminal_state_sets p).

(** [if len(contracts) > 1: join(tuple(sorted(contracts)))] *)
Definition identity_edges (groups : list (string * list string)) : list (list string) :=
  sorted_strings <$> filter (λ cs, (1 < length cs)%nat) groups.*2.

Definition join_forbidden (p : ArbitrageProblem) (m : parents) (f : ForbiddenAtomCombination) : res parents :=
  ids ← forbidden_contract_ids p f; join_ids m ids.

(** [actions_by_contract[action.market_contract_id].append(action.action_id)] *)
Definition add_action (m : gmap string (list string)) (a : CandidateAction) : res (gmap string (list string)) :=
  l ← of_option (KeyError (ca_market_contract_id a)) (m !! ca_market_contract_id a);
  Ok (<[ca_market_contract_id a := l ++ [ca_action_id a]]> m).

(** [contracts_by_root.setdefault(find(contract_id), []).append(contract_id)] *)
Definition root_step (acc : list (string * list string) * parents) (c : string)
  : res (list (string * list string) * parents) :=
  let '(groups, m) := acc in
  '(r, m) ← find m c;
  Ok (group_append r c groups, m).

Definition subset_of (ids component_contracts : list string) : bool :=
  forallb (λ c, bool_decide (c ∈ component_contracts)) ids.

Definition component_relations (p : ArbitrageProblem) (contracts : list string) : list string :=
  rc_constraint_id <$>
    filter (λ r, subset_of (rc_contract_ids r) contracts = true) (cm_relations (pb_constraint_model p)).

Definition forbidden_inside (p : ArbitrageProblem) (contracts : list string) (f : ForbiddenAtomCombination)
  : res bool :=
  ids ← mapM (λ a, of_option (KeyError a) (atoms_to_contract p !! a)) (fb_atom_ids f);
  Ok (subset_of ids contracts).

Definition component_forbidden (p : ArbitrageProblem) (contracts : list string) : res (list string) :=
  fs ← filterM (forbidden_inside p contracts) (cm_forbidden_atom_combinations (pb_constraint_model p));
  Ok (map fb_constraint_id fs).

Definition component_as_of (p : ArbitrageProblem) (as_of_by_contract : option (gmap string datetime))
    (contracts : list string) : res datetime :=
  match as_of_by_contract with
  | None => Ok (pb_as_of p)
  | Some m =>
      match omap (λ c, m !! c) contracts with
      | [] => Ok (pb_as_of p)
      | mapped => o ← max_release (Some <$> mapped); of_option TypeError o
      end
  end.

Definition make_component (p : ArbitrageProblem) (as_of_by_contract : option (gmap string datetime))
    (actions_by_contract : gmap string (list string)) (contracts : list string) : res RelationComponent :=
  let component_contracts := sorted_strings contracts in
  actions ← mapM (λ c, of_option (KeyError c) (actions_by_contract !! c)) component_contracts;
  forbidden ← component_forbidden p component_contracts;
  as_of ← component_as_of p as_of_by_contract component_contracts;
  Ok {| rl_component_id := "component:" +:+ join ":" component_contracts;
        rl_action_ids := sorted_strings (mjoin actions);
        rl_contract_ids := component_contracts;
        rl_constraint_ids := sorted_strings (component_relations p component_contracts ++ forbidden);
        rl_as_of := as_of |}.

Definition no_issues (issues : list ModelIssue) : bool :=
  match issues with [] => true | _ => false end.

(** A component is validated on its own timeline. *)
Definition require_component (p : ArbitrageProblem) (c : RelationComponent) : res unit :=
  let issues := validate_problem (component_slice p c (rl_as_of c)) in
  require (no_issues issues) (ValueError ("invalid problem: " +:+ issue_codes issues)).

Definition build_relation_components (p : ArbitrageProblem) (as_of_by_contract : option (gmap string datetime))
  : res (list RelationComponent) :=
  let contract_ids := sorted_strings (ts_market_contract_id <$> pb_terminal_state_sets p) in
  identities ← identity_contracts p;
  m ← foldM join_ids (singletons contract_ids) (identity_edges identities);
  m ← foldM (join_forbidden p) m (cm_forbidden_atom_combinations (pb_constraint_model p));
  m ← foldM join_ids m (rc_contract_ids <$> cm_relations (pb_constraint_model p));
  actions_by_contract ← foldM add_action (py_dict ((λ c, (c, [])) <$> contract_ids)) (pb_actions p);
  '(groups, _) ← foldM root_step ([], m) contract_ids;
  components ← mapM (make_component p as_of_by_contract actions_by_contract) groups.*2;
  let ordered := sort_on rl_component_id components in
  mapM (require_component p) ordered;;
  Ok ordered.

End components.
