(* ===== verification/ComponentsCorrect.v ===== *)
(** * Correctness of the relation components

    The components partition the contracts by connectivity; a component of a
    valid problem is a valid problem; and an outcome of the whole problem is
    allowed exactly when every component allows it, so solving the components
    separately loses nothing. *)

From stdpp Require Import relations.
From S2P Require Import Prelude PyValue NLeg NLegForms NLegValidate NLegWf Oracle OracleScenario OracleEval OracleQualify UnionFind Support SupportCorrect SplitCorrect SearchCorrect SearchTotal Components.
Local Open Scope Z_scope.

(** ** Slices *)

(** The component holds the actions of its contracts, and constraints that
    stay inside it. *)
Record closed_component (p : ArbitrageProblem) (c : RelationComponent) : Prop := {
  cc_actions : ∀ a, a ∈ pb_actions p →
    ca_action_id a ∈ rl_action_ids c ↔ ca_market_contract_id a ∈ rl_contract_ids c;
  cc_relations : ∀ r, r ∈ cm_relations (pb_constraint_model p) →
    rc_constraint_id r ∈ rl_constraint_ids c ↔ Forall (.∈ rl_contract_ids c) (rc_contract_ids r);
  cc_forbidden : ∀ f l, f ∈ cm_forbidden_atom_combinations (pb_constraint_model p) →
    forbidden_contract_ids p f = Ok l →
    fb_constraint_id f ∈ rl_constraint_ids c ↔ Forall (.∈ rl_contract_ids c) l;
}.

Section slice.
Context (p : ArbitrageProblem) (Hwf : wf_problem p) (c : RelationComponent) (Hc : closed_component p c).
Let q := component_slice p c (pb_as_of p).

Lemma slice_actions_of i : i ∈ rl_contract_ids c → actions_of q i = actions_of p i.
Proof.
  intros Hi. unfold actions_of. simpl. rewrite list_filter_filter.
  apply filter_ext. intros a Ha. rewrite (cc_actions _ _ Hc a Ha). split; [tauto|].
  intros E. rewrite E. tauto.
Qed.

Lemma slice_contracts i : i ∈ contracts q ↔ i ∈ contracts p ∧ i ∈ rl_contract_ids c.
Proof.
  rewrite !elem_of_contracts. simpl. setoid_rewrite list_elem_of_filter. split.
  - intros (s & [H1 H2] & <-). eauto.
  - intros [(s & Hs & <-) Hi]. eauto.
Qed.

Lemma slice_state s : s ∈ pb_terminal_state_sets q → s ∈ pb_terminal_state_sets p ∧ ts_market_contract_id s ∈ rl_contract_ids c.
Proof. simpl. rewrite list_elem_of_filter. tauto. Qed.

Lemma wf_slice_state s : s ∈ pb_terminal_state_sets q → wf_state q s.
Proof.
  intros [Hs Hin]%slice_state. destruct (wf_state_in p Hwf s Hs).
  split; try assumption; rewrite ?slice_actions_of by done; try assumption.
  eapply Forall_impl; [exact ws_wf_atoms|]. intros t []. split; try assumption.
  by rewrite slice_actions_of.
Qed.

Lemma slice_atom_ids : NoDup (atom_ids q).
Proof.
  pose proof (wf_atom_ids _ Hwf) as Hnd. revert Hnd. unfold atom_ids. simpl.
  generalize (pb_terminal_state_sets p). intros l. induction l as [|s l IH]; [done|].
  rewrite filter_cons. csimpl. intros (H1 & H2 & H3)%NoDup_app. case_decide; csimpl; [|auto].
  apply NoDup_app. split_and!; [done| |auto]. intros i Hi Hi'. apply (H2 i Hi).
  apply list_elem_of_bind in Hi' as (s' & Hi' & [_ Hs']%list_elem_of_filter).
  apply list_elem_of_bind. eauto.
Qed.

Lemma slice_atom a l :
  a ∈ atom_ids p → atoms_to_contract p !! a = Some l → l ∈ rl_contract_ids c → a ∈ atom_ids q.
Proof.
  intros (s & (t & -> & Ht)%list_elem_of_fmap & Hs)%list_elem_of_bind Ha Hl.
  rewrite (atoms_to_contract_lookup p s t) in Ha by (done || apply Hwf). injection Ha as <-.
  apply list_elem_of_bind. exists s. split; [|by apply list_elem_of_filter]. apply list_elem_of_fmap. eauto.
Qed.

Lemma wf_slice_native c1 c2 :
  c1 ∈ rl_contract_ids c → c2 ∈ rl_contract_ids c → wf_native p c1 c2 → wf_native q c1 c2.
Proof.
  intros H1 H2 (Hne & Ha & s1 & s2 & Hs1 & Hs2 & E1 & E2 & Hr). split; [done|].
  rewrite !slice_actions_of by done. split; [done|]. exists s1, s2. simpl. rewrite !list_elem_of_filter.
  rewrite E1, E2. split_and!; try done; apply Hr.
Qed.

Lemma wf_slice : wf_problem q.
Proof.
  pose proof Hwf as [].
  split; try assumption.
  - simpl. unfold usable. rewrite is_blank_app. by rewrite wf_problem_id.
  - apply Forall_filter_sub. eapply Forall_impl; [exact wf_actions|]. intros a []. by split.
  - by apply NoDup_fmap_filter.
  - apply Forall_forall. apply wf_slice_state.
  - by apply NoDup_fmap_filter.
  - apply slice_atom_ids.
  - intros a [Hid Ha]%list_elem_of_filter. apply slice_contracts. split; [by apply wf_action_contracts|].
    by apply (cc_actions _ _ Hc).
  - apply Forall_forall. intros r [Hid Hr]%list_elem_of_filter. apply (cc_relations _ _ Hc r Hr) in Hid.
    destruct (proj1 (Forall_forall _ _) wf_relations r Hr). split; try assumption.
    + rewrite Forall_forall in *. intros i Hi. apply slice_contracts. auto.
    + intros c1 c2 Hk E. rewrite E in Hid. apply Forall_cons in Hid as [? [? _]%Forall_cons].
      apply wf_slice_native; auto.
  - apply Forall_forall. intros f [Hid Hf]%list_elem_of_filter.
    destruct (forbidden_contracts_Ok p f Hwf Hf) as (l & El & _). apply (cc_forbidden _ _ Hc f l Hf El) in Hid.
    destruct (proj1 (Forall_forall _ _) wf_forbiddens f Hf). split; try assumption.
    apply bind_Ok in El as (ids & Hids & [= <-]). rewrite Forall_forall in *. intros a Ha.
    assert (∃ i, atoms_to_contract p !! a = Some i ∧ i ∈ ids) as (i & Ei & Hi).
    { apply mapM_Ok in Hids. apply list_elem_of_lookup in Ha as [n Ha].
      destruct (Forall2_lookup_l _ _ _ _ _ Hids Ha) as (i & Hi & Ei%of_option_Ok). exists i.
      split; [done|]. by eapply list_elem_of_lookup_2. }
    eapply slice_atom; [by apply wb_atoms|done|]. apply Hid. by apply elem_of_sorted_set.
  - by apply filter_app_NoDup.
Qed.
End slice.

(** ** The union-find phase *)

Definition forbidden_scope (p : ArbitrageProblem) (f : ForbiddenAtomCombination) : list string :=
  match forbidden_contract_ids p f with Ok l => l | Err _ => [] end.

(** [identity_contracts] without the datetime check. *)
Definition identity_key `{Sha256} (s : TerminalStateSet) : string :=
  "identity:" +:+ fingerprint_json (observation_key_json (ts_settlement_observation_key s)).

Definition identity_groups `{Sha256} (p : ArbitrageProblem) : list (string * list string) :=
  foldl (λ groups s, group_append (identity_key s) (ts_market_contract_id s) groups) [] (pb_terminal_state_sets p).

Lemma identity_contracts_Ok `{Sha256} p : utc_states p → identity_contracts p = Ok (identity_groups p).
Proof.
  intros Hutc. apply foldM_pure. intros groups s Hs. unfold identity_step, fingerprint_observation_key.
  by rewrite (Hutc s Hs).
Qed.

Lemma identity_groups_perm `{Sha256} p : mjoin (identity_groups p).*2 ≡ₚ contracts p.
Proof.
  unfold identity_groups, contracts. induction (pb_terminal_state_sets p) as [|s l IH] using rev_ind; [done|].
  rewrite foldl_app, fmap_app. simpl. by rewrite group_append_perm, IH.
Qed.

(** The hyperedges that join contracts. *)
Definition component_edges `{Sha256} (p : ArbitrageProblem) : list (list string) :=
  identity_edges (identity_groups p) ++ (forbidden_scope p <$> cm_forbidden_atom_combinations (pb_constraint_model p)) ++
  (rc_contract_ids <$> cm_relations (pb_constraint_model p)).

(** No forbidden combination is empty; the source indexes [contract_ids[0]]. *)
Definition no_empty_forbidden (p : ArbitrageProblem) : Prop :=
  Forall (λ f, fb_atom_ids f ≠ []) (cm_forbidden_atom_combinations (pb_constraint_model p)).

Lemma group_by_subset {A} (key : A → string) l g x : g ∈ group_by key l → x ∈ g.2 → x ∈ l.
Proof.
  intros Hg Hx. rewrite <- (group_by_perm key l). eapply elem_of_mjoin_intro; [|done].
  apply list_elem_of_fmap. eauto.
Qed.

Lemma sort_on_nil {A} (key : A → string) l : sort_on key l = [] → l = [].
Proof. intros E. pose proof (sort_on_perm key l) as Hp. rewrite E in Hp. by apply Permutation_nil_l in Hp. Qed.

Section union.
Context `{Sha256} (p : ArbitrageProblem) (Hwf : wf_problem p) (Hnf : no_empty_forbidden p).

Let K := sorted_strings (ts_market_contract_id <$> pb_terminal_state_sets p).

Lemma K_contracts i : i ∈ K ↔ i ∈ contracts p.
Proof. unfold K, sorted_strings. by rewrite elem_of_sort_on. Qed.

Lemma identity_edges_ok : Forall (λ e, e ≠ [] ∧ Forall (.∈ K) e) (identity_edges (identity_groups p)).
Proof.
  unfold identity_edges. apply Forall_fmap, Forall_forall. intros cs [Hlen Hcs]%list_elem_of_filter. simpl. split.
  - intros E%sort_on_nil. subst. simpl in Hlen. lia.
  - unfold sorted_strings. rewrite sort_on_perm. apply Forall_forall. intros c Hc. apply K_contracts.
    rewrite <- identity_groups_perm. by eapply elem_of_mjoin_intro.
Qed.

Lemma forbidden_scope_Ok f :
  f ∈ cm_forbidden_atom_combinations (pb_constraint_model p) → forbidden_contract_ids p f = Ok (forbidden_scope p f).
Proof. intros Hf. unfold forbidden_scope. by destruct (forbidden_contracts_Ok p f Hwf Hf) as (l & -> & _). Qed.

Lemma forbidden_edges_ok :
  Forall (λ e, e ≠ [] ∧ Forall (.∈ K) e) (forbidden_scope p <$> cm_forbidden_atom_combinations (pb_constraint_model p)).
Proof.
  apply Forall_fmap, Forall_forall. intros f Hf. simpl.
  destruct (forbidden_contracts_Ok p f Hwf Hf) as (l & El & Hl). unfold forbidden_scope. rewrite El. split.
  - apply bind_Ok in El as (ids & Hids%mapM_Ok & [= <-]). unfold sorted_set, sorted_strings. intros E%sort_on_nil.
    pose proof (proj1 (Forall_forall _ _) Hnf f Hf) as Hne. simpl in Hne.
    destruct (fb_atom_ids f); [done|]. inversion Hids as [|? i ? ids' ? ?]; subst.
    assert (i ∈ remove_dups (i :: ids')) as Hi by (apply elem_of_remove_dups; set_solver).
    rewrite E in Hi. by apply not_elem_of_nil in Hi.
  - eapply Forall_impl; [exact Hl|]. intros i. apply K_contracts.
Qed.

Lemma relation_edges_ok :
  Forall (λ e, e ≠ [] ∧ Forall (.∈ K) e) (rc_contract_ids <$> cm_relations (pb_constraint_model p)).
Proof.
  apply Forall_fmap. eapply Forall_impl; [apply Hwf|]. intros r Hr. simpl. split.
  - pose proof (wr_arity _ _ Hr) as Ha. intros E. rewrite E in Ha. destruct (rc_kind r); simpl in Ha; lia.
  - eapply Forall_impl; [apply Hr|]. intros i. apply K_contracts.
Qed.

Lemma join_forbidden_fold m fs :
  Forall (.∈ cm_forbidden_atom_combinations (pb_constraint_model p)) fs →
  foldM (join_forbidden p) m fs = foldM join_ids m (forbidden_scope p <$> fs).
Proof.
  intros Hfs. revert m; induction Hfs as [|f fs Hf _ IH]; intros m; [done|]. rewrite fmap_cons. cbn [foldM].
  assert (join_forbidden p m f = join_ids m (forbidden_scope p f)) as ->
    by (unfold join_forbidden; by rewrite (forbidden_scope_Ok f Hf)).
  destruct (join_ids m _); [apply IH|done].
Qed.

(** The three loops of joins together. *)
Lemma components_union :
  ∃ m1 m2 m, foldM join_ids (singletons K) (identity_edges (identity_groups p)) = Ok m1 ∧
    foldM (join_forbidden p) m1 (cm_forbidden_atom_combinations (pb_constraint_model p)) = Ok m2 ∧
    foldM join_ids m2 (rc_contract_ids <$> cm_relations (pb_constraint_model p)) = Ok m ∧
    forest m ∧ (∀ x, is_Some (m !! x) ↔ x ∈ K) ∧
    ∀ x y, x ∈ K → y ∈ K → root_of m x = root_of m y ↔ connected (component_edges p) x y.
Proof.
  destruct (join_all_correct (singletons K) K [] (identity_edges (identity_groups p))) as (m1 & E1 & Hu1);
    [apply uf_spec_init|apply identity_edges_ok|].
  destruct (join_all_correct m1 K _ (forbidden_scope p <$> cm_forbidden_atom_combinations (pb_constraint_model p)) Hu1)
    as (m2 & E2 & Hu2); [apply forbidden_edges_ok|].
  destruct (join_all_correct m2 K _ (rc_contract_ids <$> cm_relations (pb_constraint_model p)) Hu2)
    as (m & E3 & [Hd Hf Hr]); [apply relation_edges_ok|].
  exists m1, m2, m. split_and!; [done| |done|done|done|].
  - rewrite join_forbidden_fold; [done|]. by apply Forall_forall.
  - intros x y Hx Hy. rewrite (Hr x y); [|by apply root_of_spec; [|apply Hd]..].
    rewrite <- star_connected. unfold component_edges. by rewrite !bind_app, app_assoc.
Qed.

(** ** Actions by contract *)

Lemma add_action_fold m l :
  (∀ a, a ∈ l → is_Some (m !! ca_market_contract_id a)) →
  ∃ m', foldM add_action m l = Ok m' ∧
    ∀ c ids, m !! c = Some ids → m' !! c = Some (ids ++ (ca_action_id <$> filter (λ a, ca_market_contract_id a = c) l)).
Proof.
  revert m; induction l as [|a l IH]; intros m Hm; cbn [foldM].
  - exists m. split; [done|]. intros c ids Hc. by rewrite app_nil_r.
  - destruct (Hm a ltac:(left)) as [ids0 E0]. assert (add_action m a = Ok (<[ca_market_contract_id a := ids0 ++ [ca_action_id a]]> m)) as ->
      by (unfold add_action; by rewrite E0).
    cbn [mbind res_bind].
    destruct (IH (<[ca_market_contract_id a := ids0 ++ [ca_action_id a]]> m)) as (m' & E & Hm').
    { intros b Hb. destruct (decide (ca_market_contract_id b = ca_market_contract_id a)) as [->|].
      - rewrite lookup_insert_eq. eauto.
      - rewrite lookup_insert_ne by done. apply Hm. by right. }
    exists m'. split; [done|]. intros c ids Hc. rewrite filter_cons. case_decide as Hca.
    + subst c. rewrite E0 in Hc. injection Hc as <-. rewrite (Hm' _ (ids0 ++ [ca_action_id a])) by apply lookup_insert_eq.
      csimpl. by rewrite <- app_assoc.
    + apply Hm'. by rewrite lookup_insert_ne.
Qed.

Lemma actions_by_contract_spec :
  ∃ m, foldM add_action (py_dict ((λ c, (c, [])) <$> K)) (pb_actions p) = Ok m ∧
    ∀ c, c ∈ K → m !! c = Some (ca_action_id <$> actions_of p c).
Proof.
  assert (Hinit : ∀ c, c ∈ K → py_dict ((λ c, (c, [])) <$> K) !! c = Some ([] : list string)).
  { intros c Hc. destruct (py_dict _ !! c) as [v|] eqn:Ev.
    - apply py_dict_elem, list_elem_of_fmap in Ev as (? & [= -> ->] & _). done.
    - apply py_dict_None in Ev. destruct Ev. rewrite <- list_fmap_compose. apply list_elem_of_fmap. by exists c. }
  destruct (add_action_fold (py_dict ((λ c, (c, [])) <$> K)) (pb_actions p)) as (m & E & Hm).
  - intros a Ha. exists []. apply Hinit, K_contracts. by apply Hwf.
  - exists m. split; [done|]. intros c Hc. by rewrite (Hm c [] (Hinit c Hc)).
Qed.

(** ** Grouping by root *)

Lemma root_fold m0 m cs done_ :
  forest m0 → same_forest m0 m → Forall (λ c, is_Some (m0 !! c)) cs →
  ∃ m', foldM root_step (group_by (root_of m0) done_, m) cs = Ok (group_by (root_of m0) (done_ ++ cs), m').
Proof.
  intros Hf Hs Hcs. revert done_ m Hs; induction Hcs as [|c cs Hc _ IH]; intros done_ m Hs; cbn [foldM].
  - exists m. by rewrite app_nil_r.
  - destruct (find_same m0 m c Hf Hs Hc) as (m1 & Ef & Hs1).
    assert (root_step (group_by (root_of m0) done_, m) c = Ok (group_by (root_of m0) (done_ ++ [c]), m1)) as ->
      by (unfold root_step; rewrite Ef; simpl; by rewrite group_by_snoc).
    cbn [mbind res_bind]. destruct (IH (done_ ++ [c]) m1 Hs1) as (m2 & E). exists m2.
    by rewrite <- app_assoc in E.
Qed.
End union.

(** ** One component *)

Lemma subset_of_spec ids S : subset_of ids S = true ↔ Forall (.∈ S) ids.
Proof.
  unfold subset_of. rewrite forallb_forall, Forall_forall. setoid_rewrite <- list_elem_of_In.
  by setoid_rewrite bool_decide_eq_true.
Qed.

Section component.
Context `{Sha256} (p : ArbitrageProblem) (Hwf : wf_problem p).

Definition component_inside (S : list string) (f : ForbiddenAtomCombination) : bool :=
  subset_of (forbidden_scope p f) S.

Lemma forbidden_inside_Ok S f :
  f ∈ cm_forbidden_atom_combinations (pb_constraint_model p) → forbidden_inside p S f = Ok (component_inside S f).
Proof.
  intros Hf. pose proof (forbidden_scope_Ok p Hwf f Hf) as Hs. unfold forbidden_inside, component_inside.
  apply bind_Ok in Hs as (ids & Hids & E). rewrite Hids. simpl. injection E as <-. f_equal.
  apply Bool.eq_iff_eq_true. rewrite !subset_of_spec, !Forall_forall. by setoid_rewrite elem_of_sorted_set.
Qed.

Lemma component_forbidden_Ok S :
  component_forbidden p S = Ok (fb_constraint_id <$>
    filter (λ f, component_inside S f = true) (cm_forbidden_atom_combinations (pb_constraint_model p))).
Proof.
  unfold component_forbidden. rewrite (filterM_pure _ (component_inside S)); [done|].
  intros f Hf. by apply forbidden_inside_Ok.
Qed.

Lemma make_component_spec as_of abc cs comp :
  (∀ c, c ∈ cs → abc !! c = Some (ca_action_id <$> actions_of p c)) →
  make_component p as_of abc cs = Ok comp →
  closed_component p comp ∧ rl_contract_ids comp = sorted_strings cs ∧
  component_as_of p as_of (sorted_strings cs) = Ok (rl_as_of comp).
Proof.
  intros Habc. unfold make_component. set (S := sorted_strings cs).
  assert (HS : ∀ c, c ∈ S ↔ c ∈ cs) by (intros; apply elem_of_sort_on).
  rewrite component_forbidden_Ok.
  intros (acts & Hacts & Hr)%bind_Ok. simpl in Hr. apply bind_Ok in Hr as (t & Ht & [= <-]).
  pose proof (wf_constraint_ids _ Hwf) as (Hrn & Hdisj & Hfn)%NoDup_app.
  split_and!; [|done|done]. split; simpl.
  - intros a Ha. unfold sorted_strings. rewrite elem_of_sort_on, list_elem_of_join. split.
    + intros (l & Hal & Hl). rewrite (mapM_elem _ _ _ _ Hacts) in Hl. destruct Hl as (c & Hc & El%of_option_Ok).
      rewrite Habc in El by (by apply HS). injection El as <-.
      apply list_elem_of_fmap in Hal as (b & E & [Ec Hb]%list_elem_of_filter).
      rewrite (NoDup_key_eq ca_action_id (pb_actions p) a b (wf_action_ids _ Hwf)) by done. by rewrite Ec.
    + intros Hc. exists (ca_action_id <$> actions_of p (ca_market_contract_id a)). split.
      * apply list_elem_of_fmap. exists a. split; [done|]. by apply list_elem_of_filter.
      * rewrite (mapM_elem _ _ _ _ Hacts). exists (ca_market_contract_id a). split; [done|].
        by rewrite Habc by (by apply HS).
  - intros r Hr. unfold sorted_strings. rewrite elem_of_sort_on, elem_of_app, <- subset_of_spec. split.
    + intros [(r' & E & [Hs Hr']%list_elem_of_filter)%list_elem_of_fmap|(f & E & [_ Hf]%list_elem_of_filter)%list_elem_of_fmap].
      * by rewrite (NoDup_key_eq rc_constraint_id _ r r' Hrn Hr Hr' E).
      * exfalso. apply (Hdisj (rc_constraint_id r)); [|rewrite E]; apply list_elem_of_fmap; eauto.
    + intros Hs. left. apply list_elem_of_fmap. exists r. split; [done|]. by apply list_elem_of_filter.
  - intros f l Hf Hl. rewrite (forbidden_scope_Ok p Hwf f Hf) in Hl. injection Hl as <-.
    unfold sorted_strings. rewrite elem_of_sort_on, elem_of_app, <- subset_of_spec. split.
    + intros [(r & E & [_ Hr]%list_elem_of_filter)%list_elem_of_fmap|(f' & E & [Hs Hf']%list_elem_of_filter)%list_elem_of_fmap].
      * exfalso. apply (Hdisj (fb_constraint_id f)); [rewrite E|]; apply list_elem_of_fmap; eauto.
      * by rewrite (NoDup_key_eq fb_constraint_id _ f f' Hfn Hf Hf' E).
    + intros Hs. right. apply list_elem_of_fmap. exists f. split; [done|]. by apply list_elem_of_filter.
Qed.

Lemma make_component_total abc cs :
  (∀ c, c ∈ cs → abc !! c = Some (ca_action_id <$> actions_of p c)) →
  ∃ comp, make_component p None abc cs = Ok comp.
Proof.
  intros Habc. unfold make_component. rewrite component_forbidden_Ok.
  rewrite (proj2 (mapM_Ok _ _ ((λ c, ca_action_id <$> actions_of p c) <$> sorted_strings cs))); [by eexists|].
  apply Forall2_fmap_r, Forall_Forall2_diag, Forall_forall. intros c Hc%elem_of_sort_on. by rewrite Habc.
Qed.
End component.

(** ** The components *)

Record components_spec `{Sha256} (p : ArbitrageProblem) (comps : list RelationComponent) : Prop := {
  cp_partition : mjoin (rl_contract_ids <$> comps) ≡ₚ contracts p;
  cp_closed : Forall (closed_component p) comps;
  cp_connected : ∀ c x y, c ∈ comps → x ∈ rl_contract_ids c → y ∈ contracts p →
    y ∈ rl_contract_ids c ↔ connected (component_edges p) x y;
  cp_valid : Forall (λ c, wf_problem (component_slice p c (rl_as_of c))) comps;
}.

Lemma components_core `{Sha256} p as_of :
  wf_problem p → no_empty_forbidden p → utc_states p →
  ∃ abc groups,
    build_relation_components p as_of
    = (components ← mapM (make_component p as_of abc) groups;
       mapM (require_component p) (sort_on rl_component_id components);;
       Ok (sort_on rl_component_id components)) ∧
    mjoin groups ≡ₚ contracts p ∧
    (∀ cs c, cs ∈ groups → c ∈ cs → abc !! c = Some (ca_action_id <$> actions_of p c)) ∧
    (∀ cs x y, cs ∈ groups → x ∈ cs → y ∈ contracts p → y ∈ cs ↔ connected (component_edges p) x y).
Proof.
  intros Hwf Hnf Hutc. unfold build_relation_components. rewrite identity_contracts_Ok by done. cbn [mbind res_bind].
  set (K := sorted_strings (ts_market_contract_id <$> pb_terminal_state_sets p)).
  assert (HK : ∀ i, i ∈ K ↔ i ∈ contracts p) by apply K_contracts.
  destruct (components_union p Hwf Hnf) as (m1 & m2 & m & E1 & E2 & E3 & Hf & Hd & Hr). fold K in E1, Hd, Hr.
  rewrite E1.   cbn [mbind res_bind]. rewrite E2. cbn [mbind res_bind]. rewrite E3. cbn [mbind res_bind].
  destruct (actions_by_contract_spec p Hwf) as (abc & Eabc & Habc). fold K in Eabc, Habc. rewrite Eabc. cbn [mbind res_bind].
  destruct (root_fold m m K []) as (m3 & E4); [done|reflexivity|by apply Forall_forall; intros c Hc; apply Hd|].
  change (group_by (root_of m) []) with (@nil (string * list string)) in E4. rewrite E4. cbn [mbind res_bind].
  exists abc, (group_by (root_of m) K).*2. simpl app.
  assert (Hin : ∀ cs c, cs ∈ (group_by (root_of m) K).*2 → c ∈ cs → c ∈ K).
  { intros cs c Hcs Hc. rewrite <- (group_by_perm (root_of m) K). by eapply elem_of_mjoin_intro. }
  split_and!; [done| | |].
  - rewrite group_by_perm. apply sort_on_perm.
  - intros cs c Hcs Hc. apply Habc. eauto.
  - intros cs x y Hcs Hx Hy. rewrite <- (Hr x y) by (eauto || by apply HK).
    apply list_elem_of_fmap in Hcs as (g & -> & Hg).
    pose proof (proj1 (Forall_forall _ _) (group_by_member (root_of m) K) g Hg) as [_ Hm]. rewrite Forall_forall in Hm.
    rewrite (Hm x Hx). split; [intros Hy'; by rewrite (Hm y Hy')|]. intros E.
    assert (y ∈ mjoin (group_by (root_of m) K).*2) as Hj by (rewrite group_by_perm; by apply HK).
    apply list_elem_of_join in Hj as (cs' & Hy' & Hcs'). apply list_elem_of_fmap in Hcs' as (g' & -> & Hg').
    pose proof (proj1 (Forall_forall _ _) (group_by_member (root_of m) K) g' Hg') as [_ Hm']. rewrite Forall_forall in Hm'.
    rewrite (Hm' y Hy') in E. by rewrite (NoDup_key_eq fst _ g g' (group_by_keys (root_of m) K) Hg Hg' E).
Qed.

Lemma no_issues_spec l : no_issues l = true ↔ l = [].
Proof. by destruct l. Qed.

Lemma components_correct `{Sha256} p as_of comps :
  wf_problem p → no_empty_forbidden p → utc_states p →
  build_relation_components p as_of = Ok comps → components_spec p comps.
Proof.
  intros Hwf Hnf Hutc. destruct (components_core p as_of Hwf Hnf Hutc) as (abc & groups & -> & Hperm & Habc & Hcon).
  intros (cs & Hcs%mapM_Ok & (us & Hval%mapM_Ok & [= <-])%bind_Ok)%bind_Ok.
  assert (Hspec : Forall2 (λ g c, closed_component p c ∧ rl_contract_ids c = sorted_strings g) groups cs).
  { apply Forall2_same_length_lookup_2; [by eapply Forall2_length|]. intros i g c Hg Hc.
    pose proof (Forall2_lookup_lr _ _ _ _ _ _ Hcs Hg Hc) as Hm. apply list_elem_of_lookup_2 in Hg.
    apply make_component_spec in Hm as (? & ? & _); [done|done|]. intros x Hx. by eapply Habc. }
  assert (Hpair : ∀ c, c ∈ cs → closed_component p c ∧ ∃ g, g ∈ groups ∧ rl_contract_ids c = sorted_strings g).
  { intros c (i & Hc)%list_elem_of_lookup. destruct (Forall2_lookup_r _ _ _ _ _ Hspec Hc) as (g & Hg & ? & ?).
    split; [done|]. exists g. split; [by eapply list_elem_of_lookup_2|done]. }
  split.
  - rewrite sort_on_perm. etrans; [|exact Hperm]. clear -Hspec.
    induction Hspec as [|g c gs cs [_ E] _ IH]; csimpl; [done|]. rewrite E, IH.
    unfold sorted_strings. by rewrite sort_on_perm.
  - rewrite sort_on_perm. apply Forall_forall. intros c Hc. by apply Hpair.
  - intros c x y Hc%elem_of_sort_on. destruct (Hpair c Hc) as (_ & g & Hg & ->).
    unfold sorted_strings. rewrite !elem_of_sort_on. by apply Hcon.
  - apply Forall_forall. intros c (i & Hc)%list_elem_of_lookup.
    destruct (Forall2_lookup_l _ _ _ _ _ Hval Hc) as (u & _ & Hu%require_Ok). by apply validate_problem_wf, no_issues_spec.
Qed.

(** Without a per-contract timeline the split of a valid problem succeeds. *)
Lemma components_total `{Sha256} p :
  wf_problem p → no_empty_forbidden p → utc_states p →
  ∃ comps, build_relation_components p None = Ok comps.
Proof.
  intros Hwf Hnf Hutc. destruct (components_core p None Hwf Hnf Hutc) as (abc & groups & -> & _ & Habc & _).
  destruct (safe_Ok (mapM (make_component p None abc) groups)) as [cs Hcs].
  { apply safe_mapM. intros g Hg. destruct (make_component_total p Hwf abc g) as [c ->]; [|done]. intros x. by apply Habc. }
  rewrite Hcs. cbn [mbind res_bind].
  destruct (safe_Ok (mapM (require_component p) (sort_on rl_component_id cs))) as [us ->]; [|by eexists].
  apply safe_mapM. intros c Hc%elem_of_sort_on. rewrite (mapM_elem _ _ _ _ Hcs) in Hc. destruct Hc as (g & Hg & Hc).
  apply make_component_spec in Hc as (Hcl & _ & Ht); [|done|intros x; by apply Habc]. injection Ht as Ht.
  unfold require_component. rewrite <- Ht. apply safe_require, no_issues_spec, validate_problem_wf. by apply wf_slice.
Qed.

(** ** Independence of the components *)

Lemma components_relation_home `{Sha256} p comps e :
  components_spec p comps → e ∈ component_edges p → e ≠ [] → Forall (.∈ contracts p) e →
  ∃ c, c ∈ comps ∧ Forall (.∈ rl_contract_ids c) e.
Proof.
  intros Hsp He Hne Hin. destruct e as [|x e]; [done|]. apply Forall_cons in Hin as [Hx Hin].
  pose proof Hx as Hx'. rewrite <- (cp_partition _ _ Hsp) in Hx'. apply list_elem_of_join in Hx' as (l & Hxl & Hl).
  apply list_elem_of_fmap in Hl as (c & -> & Hc). exists c. split; [done|]. constructor; [done|].
  eapply Forall_impl; [apply Forall_forall; intros y Hy; exact (conj Hy (proj1 (Forall_forall _ _) Hin y Hy))|].
  intros y [Hy Hyc]. apply (cp_connected _ _ Hsp c x y Hc Hxl Hyc). apply rtc_once. left. exists (x :: e).
  split_and!; [done|by left|by right].
Qed.

Lemma forbidden_sat_slice p c t ω f :
  wf_problem p → outcome p ω → f ∈ cm_forbidden_atom_combinations (pb_constraint_model p) →
  Forall (.∈ rl_contract_ids c) (forbidden_scope p f) →
  forbidden_sat (component_slice p c t) ω f ↔ forbidden_sat p ω f.
Proof.
  intros Hwf Ho Hf Hin. pose proof (forbidden_scope_Ok p Hwf f Hf) as Hs.
  apply bind_Ok in Hs as (ids & Hids & [= E]). rewrite <- E in Hin. clear E.
  unfold forbidden_sat. enough (∀ a, a ∈ fb_atom_ids f → selects (component_slice p c t) ω a ↔ selects p ω a) as Hsel
    by (rewrite !Forall_forall; naive_solver).
  intros a Ha. split; [intros (s & [_ Hs]%list_elem_of_filter & E); by exists s|].
  intros (s & Hs & E). exists s. split; [|done]. apply list_elem_of_filter. split; [|done].
  rewrite Forall_forall in Hin. apply Hin, elem_of_sorted_set. rewrite (mapM_elem _ _ _ _ Hids).
  exists a. split; [done|]. rewrite <- E. by rewrite (atoms_to_contract_lookup p s) by (apply Hwf || auto).
Qed.

(** An outcome is allowed exactly when every component allows it. *)
Lemma components_allowed `{Sha256} p comps ω :
  wf_problem p → no_empty_forbidden p → components_spec p comps →
  allowed p ω ↔ outcome p ω ∧ ∀ c, c ∈ comps → allowed (component_slice p c (rl_as_of c)) ω.
Proof.
  intros Hwf Hnf Hsp. split.
  - intros [Ho Hr Hf]. split; [done|]. intros c Hc. pose proof (proj1 (Forall_forall _ _) (cp_closed _ _ Hsp) c Hc) as Hcl.
    split; simpl.
    + intros s [_ Hs]%list_elem_of_filter. by apply Ho.
    + by apply Forall_filter_sub.
    + apply Forall_forall. intros f [Hid Hin]%list_elem_of_filter.
      apply (forbidden_sat_slice p c _ ω f Hwf Ho Hin).
      * apply (cc_forbidden _ _ Hcl f); [done|by apply forbidden_scope_Ok|done].
      * exact (proj1 (Forall_forall _ _) Hf f Hin).
  - intros [Ho Hall]. split; [done| |]; apply Forall_forall.
    + intros r Hr. pose proof (relation_edges_ok p Hwf) as He. rewrite Forall_fmap, Forall_forall in He.
      destruct (He r Hr) as [Hne HK].
      destruct (components_relation_home p comps (rc_contract_ids r) Hsp) as (c & Hc & Hin); [|done| |].
      { unfold component_edges. apply elem_of_app. right. apply elem_of_app. right. apply list_elem_of_fmap. eauto. }
      { eapply Forall_impl; [exact HK|]. intros i. apply K_contracts. }
      pose proof (proj1 (Forall_forall _ _) (cp_closed _ _ Hsp) c Hc) as Hcl.
      apply (proj1 (Forall_forall _ _) (al_relations _ _ (Hall c Hc)) r). apply list_elem_of_filter.
      split; [|done]. by apply (cc_relations _ _ Hcl).
    + intros f Hf. pose proof (forbidden_edges_ok p Hwf Hnf) as He. rewrite Forall_fmap, Forall_forall in He.
      destruct (He f Hf) as [Hne HK].
      destruct (components_relation_home p comps (forbidden_scope p f) Hsp) as (c & Hc & Hin); [|done| |].
      { unfold component_edges. apply elem_of_app. right. apply elem_of_app. left. apply list_elem_of_fmap. eauto. }
      { eapply Forall_impl; [exact HK|]. intros i. apply K_contracts. }
      pose proof (proj1 (Forall_forall _ _) (cp_closed _ _ Hsp) c Hc) as Hcl.
      apply (forbidden_sat_slice p c (rl_as_of c) ω f Hwf Ho Hf Hin).
      apply (proj1 (Forall_forall _ _) (al_forbidden _ _ (Hall c Hc)) f). apply list_elem_of_filter.
      split; [|done]. apply (cc_forbidden _ _ Hcl f _ Hf (forbidden_scope_Ok p Hwf f Hf)). done.
Qed.
