(* ===== verification/LinearModel.v ===== *)
(** * Integer linear models and the checker of backend answers

    [src/open_trader/prediction_solver.py]: [IntVariable] .. [BackendResult],
    [validate_linear_model], [validate_backend_result].  The solver backends
    are outside the model; what they return passes through
    [validate_backend_result]. *)

From S2P Require Import Prelude PyValue NLeg.
Local Open Scope Z_scope.

Abbreviation term := (string * Z)%type.

Record IntVariable := { iv_name : string; iv_lower : Z; iv_upper : Z; iv_integer : bool }.

Record LinearConstraint := {
  lc_name : string;
  lc_coefficients : list term;
  lc_lower : option Z;
  lc_upper : option Z;
}.

Inductive Sense := MAX | MIN.

Record LinearObjective := { lo_sense : Sense; lo_coefficients : list term }.

Record LinearModel := {
  lm_variables : list IntVariable;
  lm_constraints : list LinearConstraint;
  lm_objective : option LinearObjective;
}.

Inductive NativeSolveStatus := NATIVE_OPTIMAL | NATIVE_FEASIBLE | NATIVE_INFEASIBLE | NATIVE_UNKNOWN.

#[export] Instance NativeSolveStatus_eq_dec : EqDecision NativeSolveStatus.
Proof. solve_decision. Defined.

#[export] Instance LinearModel_eq_dec : EqDecision LinearModel.
Proof.
  assert (EqDecision IntVariable) by solve_decision. assert (EqDecision LinearConstraint) by solve_decision.
  assert (EqDecision Sense) by solve_decision. assert (EqDecision LinearObjective) by solve_decision.
  solve_decision.
Defined.

Record BackendResult := {
  br_status : NativeSolveStatus;
  br_values : list (string * Z);
  br_objective_value : option Z;
  br_objective_bound : option Z;
  br_native_status : string;
  br_solve_ns : Z;
}.

(** The [__post_init__] methods sort what they hold. *)
Definition int_variable (name : string) (lower upper : Z) : IntVariable :=
  {| iv_name := name; iv_lower := lower; iv_upper := upper; iv_integer := true |}.
Definition linear_constraint (name : string) (coefficients : list term) (lower upper : option Z) : LinearConstraint :=
  {| lc_name := name; lc_coefficients := sort_on fst coefficients; lc_lower := lower; lc_upper := upper |}.
Definition linear_objective (sense : Sense) (coefficients : list term) : LinearObjective :=
  {| lo_sense := sense; lo_coefficients := sort_on fst coefficients |}.
Definition linear_model (variables : list IntVariable) (constraints : list LinearConstraint)
    (objective : option LinearObjective) : LinearModel :=
  {| lm_variables := sort_on iv_name variables; lm_constraints := sort_on lc_name constraints;
     lm_objective := objective |}.

(** [replace(model, objective=...)] *)
Definition set_objective (m : LinearModel) (o : LinearObjective) : LinearModel :=
  linear_model (lm_variables m) (lm_constraints m) (Some o).

(** ** Checks *)

Definition int64_or (value : Z) (name : string) : res unit :=
  require (in_int64 value) (NumericUnsafe (name +:+ " must fit signed int64")).

Definition optional_int64 (value : option Z) (name : string) : res unit :=
  match value with Some v => int64_or v name | None => Ok tt end.

Definition nonempty_string (value name : string) : res unit :=
  require (negb (is_blank value)) (ValueError (name +:+ " must be a nonempty string")).

(** One iteration over the variables; the state is [(names, variables)]. *)
Definition validate_variable (variables : gmap string IntVariable) (v : IntVariable)
  : res (gmap string IntVariable) :=
  nonempty_string (iv_name v) "variable name";;
  require (bool_decide (variables !! iv_name v = None)) (ValueError ("duplicate variable name: " +:+ iv_name v));;
  int64_or (iv_lower v) (iv_name v +:+ ".lower");;
  int64_or (iv_upper v) (iv_name v +:+ ".upper");;
  require (iv_lower v <=? iv_upper v) (ValueError ("variable lower bound exceeds upper bound: " +:+ iv_name v));;
  require (iv_integer v) (ValueError ("variable must be integer: " +:+ iv_name v));;
  Ok (<[iv_name v := v]> variables).

Definition validate_term (owner : string) (variables : gmap string IntVariable)
    (names : gset string) (t : term) : res (gset string) :=
  let '(name, coefficient) := t in
  nonempty_string name (owner +:+ " coefficient name");;
  require (bool_decide (is_Some (variables !! name))) (ValueError ("unknown variable reference: " +:+ name));;
  require (bool_decide (name ∉ names)) (ValueError ("duplicate coefficient variable: " +:+ name));;
  int64_or coefficient (owner +:+ "." +:+ name);;
  Ok (names ∪ {[name]}).

(** [_validate_terms] returns the coefficients themselves. *)
Definition validate_terms (owner : string) (coefficients : list term) (variables : gmap string IntVariable)
  : res (list term) :=
  foldM (validate_term owner variables) ∅ coefficients;;
  Ok coefficients.

Definition activity_step (variables : gmap string IntVariable) (acc : Z * Z) (t : term) : res (Z * Z) :=
  let '(minimum, maximum) := acc in
  let '(name, k) := t in
  v ← of_option (KeyError name) (variables !! name);
  Ok (minimum + k * (if 0 <=? k then iv_lower v else iv_upper v),
      maximum + k * (if 0 <=? k then iv_upper v else iv_lower v)).

(** [_expression_activity_fits_int64] *)
Definition activity_fits (terms : list term) (variables : gmap string IntVariable) : res bool :=
  '(minimum, maximum) ← foldM (activity_step variables) (0, 0) terms;
  Ok (in_int64 minimum && in_int64 maximum).

Definition bounds_ordered (lower upper : option Z) : bool :=
  match lower, upper with Some l, Some u => l <=? u | _, _ => true end.

(** [_validate_row] *)
Definition validate_row (name : string) (coefficients : list term) (lower upper : option Z)
    (variables : gmap string IntVariable) : res unit :=
  terms ← validate_terms name coefficients variables;
  optional_int64 lower (name +:+ ".lower");;
  optional_int64 upper (name +:+ ".upper");;
  require (bounds_ordered lower upper) (ValueError ("constraint lower bound exceeds upper bound: " +:+ name));;
  fits ← activity_fits terms variables;
  require fits (NumericUnsafe ("possible row activity exceeds signed int64: " +:+ name)).

Definition validate_constraint (variables : gmap string IntVariable) (names : gset string) (c : LinearConstraint)
  : res (gset string) :=
  nonempty_string (lc_name c) "constraint name";;
  require (bool_decide (lc_name c ∉ names)) (ValueError ("duplicate constraint name: " +:+ lc_name c));;
  validate_row (lc_name c) (lc_coefficients c) (lc_lower c) (lc_upper c) variables;;
  Ok (names ∪ {[lc_name c]}).

Definition validate_linear_model (m : LinearModel) : res unit :=
  variables ← foldM validate_variable ∅ (lm_variables m);
  foldM (validate_constraint variables) ∅ (lm_constraints m);;
  match lm_objective m with
  | None => Ok tt
  | Some o =>
      terms ← validate_terms "objective" (lo_coefficients o) variables;
      fits ← activity_fits terms variables;
      require fits (NumericUnsafe "possible objective activity exceeds signed int64")
  end.

(** ** [validate_backend_result] *)

(** The message of the exception, as [str(exc)]. *)
Definition exn_message (e : exn) : string :=
  match e with ValueError m | NumericUnsafe m | UnsafeSolverResult m => m | _ => "" end.

(** [try: ... except (OverflowError, ValueError) as exc: raise UnsafeSolverResult] *)
Definition as_unsafe {A} (m : res A) : res A :=
  match m with
  | Ok a => Ok a
  | Err e => Err (UnsafeSolverResult (exn_message e))
  end.

Definition result_fields (r : BackendResult) : res unit :=
  nonempty_string (br_native_status r) "native_status";;
  require (0 <=? br_solve_ns r) (ValueError "solve_ns must be nonnegative");;
  optional_int64 (br_objective_value r) "objective_value";;
  optional_int64 (br_objective_bound r) "objective_bound".

Definition add_value (values : gmap string Z) (item : string * Z) : res (gmap string Z) :=
  let '(name, value) := item in
  require (negb (name =? "")%string && bool_decide (values !! name = None))
    (UnsafeSolverResult "backend values have duplicate or invalid names");;
  as_unsafe (int64_or value name);;
  Ok (<[name := value]> values).

Definition row_activity (values : gmap string Z) (coefficients : list term) : res Z :=
  foldM (λ total t, v ← of_option (KeyError t.1) (values !! t.1); Ok (total + v * t.2)) 0 coefficients.

Definition check_variable (values : gmap string Z) (v : IntVariable) : res unit :=
  x ← of_option (KeyError (iv_name v)) (values !! iv_name v);
  require ((iv_lower v <=? x) && (x <=? iv_upper v))
    (UnsafeSolverResult ("variable outside bounds: " +:+ iv_name v)).

Definition row_violated (lower upper : option Z) (activity : Z) : bool :=
  (match lower with Some l => activity <? l | None => false end) ||
  (match upper with Some u => u <? activity | None => false end).

Definition check_row (values : gmap string Z) (c : LinearConstraint) : res unit :=
  activity ← row_activity values (lc_coefficients c);
  require (negb (row_violated (lc_lower c) (lc_upper c) activity))
    (UnsafeSolverResult ("constraint violated: " +:+ lc_name c)).

Definition check_objective (values : gmap string Z) (m : LinearModel) (objective_value : option Z) : res unit :=
  match objective_value, lm_objective m with
  | Some v, Some o =>
      activity ← row_activity values (lo_coefficients o);
      require (activity =? v) (UnsafeSolverResult "objective value does not match exact integer activity")
  | _, _ => Ok tt
  end.

Definition claims_point (s : NativeSolveStatus) : bool :=
  match s with NATIVE_OPTIMAL | NATIVE_FEASIBLE => true | _ => false end.

Definition validate_backend_result (m : LinearModel) (r : BackendResult) : res unit :=
  validate_linear_model m;;
  as_unsafe (result_fields r);;
  values ← foldM add_value ∅ (br_values r);
  let names : gset string := list_to_set (iv_name <$> lm_variables m) in
  require (bool_decide (values = ∅) || bool_decide (dom values = names))
    (UnsafeSolverResult "backend result has missing or extra variables");;
  require (negb (claims_point (br_status r)) || bool_decide (dom values = names))
    (UnsafeSolverResult "feasible backend result requires every variable");;
  if bool_decide (values = ∅) then Ok tt
  else
    mapM (check_variable values) (lm_variables m);;
    mapM (check_row values) (lm_constraints m);;
    check_objective values m (br_objective_value r).

(** ** What an accepted answer is *)

(** Exact activity of a row at a point. *)
Definition activity (x : string → Z) (coefficients : list term) : Z :=
  sumZ ((λ t, x t.1 * t.2) <$> coefficients).

Definition within (lower upper : option Z) (a : Z) : Prop :=
  (∀ l, lower = Some l → l ≤ a) ∧ (∀ u, upper = Some u → a ≤ u).

Record feasible (m : LinearModel) (x : string → Z) : Prop := {
  fe_bounds : Forall (λ v, iv_lower v ≤ x (iv_name v) ≤ iv_upper v) (lm_variables m);
  fe_rows : Forall (λ c, within (lc_lower c) (lc_upper c) (activity x (lc_coefficients c))) (lm_constraints m);
}.

(** The point a backend returned. *)
Definition result_point (r : BackendResult) (name : string) : Z := default 0 (py_dict (br_values r) !! name).

Lemma row_violated_spec lower upper a : row_violated lower upper a = false ↔ within lower upper a.
Proof.
  unfold row_violated, within. rewrite orb_false_iff. destruct lower as [l|], upper as [u|];
    rewrite ?Z.ltb_ge; naive_solver.
Qed.

Lemma row_activity_exact values coefficients a :
  row_activity values coefficients = Ok a → a = activity (λ n, default 0 (values !! n)) coefficients.
Proof.
  unfold row_activity, activity.
  enough (∀ t0, foldM (λ total t, v ← of_option (KeyError t.1) (values !! t.1); Ok (total + v * t.2)) t0 coefficients = Ok a →
    a = t0 + sumZ ((λ t, default 0 (values !! t.1) * t.2) <$> coefficients)) as Hg by (intros Ha; rewrite (Hg 0 Ha); lia).
  induction coefficients as [|t l IH]; intros t0; csimpl; [intros [= <-]; lia|].
  intros (b & (v & Hv%of_option_Ok & [= <-])%bind_Ok & Hr)%bind_Ok. rewrite (IH _ Hr), Hv. simpl. lia.
Qed.

Lemma add_values_dict values items out :
  foldM add_value values items = Ok out → out = foldl (λ m p, <[p.1 := p.2]> m) values items.
Proof.
  revert values; induction items as [|[n v] items IH]; intros values; cbn [foldM foldl]; [by intros [= <-]|].
  intros (m & Hm & Hr)%bind_Ok. apply IH in Hr. unfold add_value in Hm.
  apply bind_Ok in Hm as (? & _ & (? & _ & [= <-])%bind_Ok). done.
Qed.

(** An answer that passes the check and claims a point is an exact integer
    point of the model with the objective value it reports. *)
Lemma validate_backend_result_sound m r u :
  validate_backend_result m r = Ok u → claims_point (br_status r) = true → lm_variables m ≠ [] →
  feasible m (result_point r) ∧
  (∀ v o, br_objective_value r = Some v → lm_objective m = Some o → v = activity (result_point r) (lo_coefficients o)) ∧
  ∀ n, n ∈ iv_name <$> lm_variables m ↔ is_Some (py_dict (br_values r) !! n).
Proof.
  unfold validate_backend_result. intros (? & _ & (? & _ & (values & Hv & Hr)%bind_Ok)%bind_Ok)%bind_Ok Hc Hne.
  apply add_values_dict in Hv. change (values = py_dict (br_values r)) in Hv.
  apply bind_Ok in Hr as (? & _ & (? & Hd%require_Ok & Hr)%bind_Ok). rewrite Hc in Hd. cbn [negb orb] in Hd. bool_prop.
  destruct (bool_decide (values = ∅)) eqn:E0; bool_prop.
  { exfalso. rewrite E0, dom_empty_L in Hd. destruct (lm_variables m) as [|v l]; [done|].
    assert (iv_name v ∈ (∅ : gset string)) as Hin by (rewrite Hd; csimpl; set_solver). set_solver. }
  apply bind_Ok in Hr as (us & Hvars%mapM_Ok & (ws & Hrows%mapM_Ok & Hobj)%bind_Ok).
  assert (Epoint : ∀ n, default 0 (values !! n) = result_point r n) by (intros n; unfold result_point; by rewrite Hv).
  assert (Hact : ∀ l, activity (λ n, default 0 (values !! n)) l = activity (result_point r) l).
  { intros l. unfold activity. apply sumZ_fmap_ext. intros t _. by rewrite Epoint. }
  split_and!.
  - split.
    + apply Forall_forall. intros v (i & Hi)%list_elem_of_lookup.
      destruct (Forall2_lookup_l _ _ _ _ _ Hvars Hi) as (w & _ & Hw). unfold check_variable in Hw.
      apply bind_Ok in Hw as (val & Hx%of_option_Ok & Hw%require_Ok). bool_prop.
      rewrite <- Epoint, Hx. simpl. lia.
    + apply Forall_forall. intros c (i & Hi)%list_elem_of_lookup.
      destruct (Forall2_lookup_l _ _ _ _ _ Hrows Hi) as (w & _ & Hw). unfold check_row in Hw.
      apply bind_Ok in Hw as (a & ->%row_activity_exact & Hw%require_Ok). bool_prop. rewrite <- Hact.
      by apply row_violated_spec.
  - intros v o Hv' Ho. unfold check_objective in Hobj. rewrite Hv', Ho in Hobj.
    apply bind_Ok in Hobj as (a & ->%row_activity_exact & Hw%require_Ok). bool_prop. by rewrite <- Hact.
  - intros n. rewrite <- Hv, <- elem_of_dom, Hd. by rewrite elem_of_list_to_set.
Qed.
