(* ===== verification/TerminalModel.v ===== *)
(** * Compiling terminal states to an integer program

    [_compile_terminal_model] and [compile_adversary] of
    [src/open_trader/prediction_solver.py]: one binary variable per atom, one
    row per contract, relation and forbidden combination. *)

From S2P Require Import Prelude PyValue NLeg NLegForms NLegValidate Oracle LinearModel.
Local Open Scope Z_scope.

(** [f"z:{atom_id}"] *)
Definition z (atom_id : string) : string := "z:" +:+ atom_id.

Definition terminal_variables (p : ArbitrageProblem) : list IntVariable :=
  pb_terminal_state_sets p ≫= λ s, (λ t, int_variable (z (ta_atom_id t)) 0 1) <$> ts_atoms s.

Definition exactly_one_row (s : TerminalStateSet) : LinearConstraint :=
  linear_constraint ("terminal:exactly-one:" +:+ ts_market_contract_id s)
    ((λ t, (z (ta_atom_id t), 1)) <$> ts_atoms s) (Some 1) (Some 1).

(** [{atom.kind: atom for atom in state.atoms}[kind]]: the last atom of the kind. *)
Definition atom_of_kind (s : TerminalStateSet) (k : TerminalKind) : res TerminalAtom :=
  of_option (KeyError (terminal_kind_value k)) (last (filter (λ t, ta_kind t = k) (ts_atoms s))).

Definition native_row (relation_id : string) (left_state right_state : TerminalStateSet)
    (spec : TerminalKind * TerminalKind * string) : res LinearConstraint :=
  let '(left_kind, right_kind, suffix) := spec in
  l ← atom_of_kind left_state left_kind;
  r ← atom_of_kind right_state right_kind;
  Ok (linear_constraint ("relation:" +:+ relation_id +:+ ":" +:+ suffix)
        [(z (ta_atom_id l), 1); (z (ta_atom_id r), -1)] (Some 0) (Some 0)).

Definition native_specs : list (TerminalKind * TerminalKind * string) :=
  [(NORMAL_YES, NORMAL_NO, "yes-no"); (NORMAL_NO, NORMAL_YES, "no-yes"); (SPLIT, SPLIT, "split-split")].

(** Terms over the atoms of a state that satisfy a test. *)
Definition kind_terms (test : TerminalKind → bool) (k : Z) (states : list TerminalStateSet) : list term :=
  states ≫= λ s, (λ t, (z (ta_atom_id t), k)) <$> filter (λ t, test (ta_kind t) = true) (ts_atoms s).

Definition is_exceptional (k : TerminalKind) : bool := negb (is_normal k).
Definition is_kind (k k' : TerminalKind) : bool := bool_decide (k' = k).

Definition relation_rows (states_by_contract : gmap string TerminalStateSet) (r : RelationConstraint)
  : res (list LinearConstraint) :=
  states ← mapM (λ c, of_option (KeyError c) (states_by_contract !! c)) (rc_contract_ids r);
  let name := "relation:" +:+ rc_constraint_id r in
  let yes_terms := kind_terms (is_kind NORMAL_YES) 1 states in
  let big_m := Z.of_nat (length (rc_contract_ids r)) - 1 in
  match rc_kind r with
  | NATIVE_COMPLEMENT =>
      match states with
      | [left_state; right_state] => mapM (native_row (rc_constraint_id r) left_state right_state) native_specs
      | _ => Err (ValueError "too many values to unpack")
      end
  | IMPLIES =>
      antecedent ← of_option IndexError (states !! 0%nat);
      consequent ← of_option IndexError (states !! 1%nat);
      Ok [linear_constraint name
            (kind_terms (is_kind NORMAL_YES) 1 [antecedent] ++ kind_terms (is_kind NORMAL_NO) 1 [consequent] ++
             kind_terms is_exceptional (-1) states) None (Some 1)]
  | MUTUALLY_EXCLUSIVE =>
      Ok [linear_constraint name (yes_terms ++ kind_terms is_exceptional (- big_m) states) None (Some 1)]
  | EXACTLY_ONE =>
      Ok [linear_constraint (name +:+ ":lower") (yes_terms ++ kind_terms is_exceptional 1 states) (Some 1) None;
          linear_constraint (name +:+ ":upper") (yes_terms ++ kind_terms is_exceptional (- big_m) states) None (Some 1)]
  end.

Definition forbidden_row (f : ForbiddenAtomCombination) : LinearConstraint :=
  linear_constraint ("forbidden:" +:+ fb_constraint_id f)
    ((λ a, (z a, 1)) <$> fb_atom_ids f) None (Some (Z.of_nat (length (fb_atom_ids f)) - 1)).

(** [active_constraint_ids is None or id in active_constraint_ids] *)
Definition is_active (active : option (gset string)) (i : string) : bool :=
  match active with None => true | Some s => bool_decide (i ∈ s) end.

Definition compile_terminal (p : ArbitrageProblem) (active : option (gset string)) : res LinearModel :=
  require_valid p;;
  let states_by_contract := index_by ts_market_contract_id (pb_terminal_state_sets p) in
  relations ← mapM (relation_rows states_by_contract)
    (filter (λ r, is_active active (rc_constraint_id r) = true) (cm_relations (pb_constraint_model p)));
  let forbidden := forbidden_row <$>
    filter (λ f, is_active active (fb_constraint_id f) = true)
      (cm_forbidden_atom_combinations (pb_constraint_model p)) in
  let model := linear_model (terminal_variables p)
    ((exactly_one_row <$> pb_terminal_state_sets p) ++ mjoin relations ++ forbidden) None in
  validate_linear_model model;;
  Ok model.

Definition compile_terminal_model (p : ArbitrageProblem) : res LinearModel := compile_terminal p None.

(** ** [compile_adversary] *)

Record CompiledAdversary := {
  ad_model : LinearModel;
  ad_quantities : list ActionQuantity;
  ad_atom_variables : list (SelectedAtom * string);
}.

(** [_canonical_quantities] of [prediction_solver.py] *)
Definition canonical_step (actions_by_id : gmap string CandidateAction)
    (acc : list ActionQuantity * list string) (q : ActionQuantity) : res (list ActionQuantity * list string) :=
  let '(selected, seen) := acc in
  match actions_by_id !! aq_action_id q with
  | None => Err (ValueError "quantities contain an invalid or duplicate action")
  | Some action =>
      require (negb (bool_decide (aq_action_id q ∈ seen)))
        (ValueError "quantities contain an invalid or duplicate action");;
      let quantity := aq_quantity_lots q in
      require (negb ((quantity <? 0) || (negb (quantity =? 0) &&
                 negb ((ca_min_quantity_lots action <=? quantity) && (quantity <=? ca_max_quantity_lots action)))))
        (ValueError ("quantity outside action domain: " +:+ aq_action_id q));;
      Ok (if quantity =? 0 then selected else selected ++ [q], aq_action_id q :: seen)
  end.

Definition canonical_quantities (p : ArbitrageProblem) (quantities : list ActionQuantity) : res (list ActionQuantity) :=
  '(selected, _) ← foldM (canonical_step (index_by ca_action_id (pb_actions p))) ([], []) quantities;
  Ok (sort_on aq_action_id selected).

(** [actions_by_contract.get(contract_id, ())] for the selected actions *)
Definition selected_actions_of (p : ArbitrageProblem) (quantities : gmap string Z) (contract_id : string) : list string :=
  ca_action_id <$>
    filter (λ a, ca_market_contract_id a = contract_id)
      (filter (λ a, is_Some (quantities !! ca_action_id a)) (pb_actions p)).

Definition coefficient_step (payouts quantities : gmap string Z) (k : Z) (action_id : string) : res Z :=
  y ← of_option (KeyError action_id) (payouts !! action_id);
  n ← of_option (KeyError action_id) (quantities !! action_id);
  int64_or (y * n) "adversary payout product";;
  int64_or (k + y * n) "adversary payout coefficient";;
  Ok (k + y * n).

Definition atom_coefficient (action_ids : list string) (quantities : gmap string Z) (t : TerminalAtom) : res Z :=
  let payouts := py_dict ((λ y, (ap_action_id y, payout_lower_bound_per_lot_units y)) <$> ta_payouts t) in
  foldM (coefficient_step payouts quantities) 0 action_ids.

Definition state_terms (p : ArbitrageProblem) (quantities : gmap string Z) (s : TerminalStateSet)
  : res (list term) :=
  mapM (λ t, k ← atom_coefficient (selected_actions_of p quantities (ts_market_contract_id s)) quantities t;
             Ok (z (ta_atom_id t), k)) (sort_on ta_atom_id (ts_atoms s)).

Definition known_constraints (p : ArbitrageProblem) : gset string :=
  list_to_set ((rc_constraint_id <$> cm_relations (pb_constraint_model p)) ++
               (fb_constraint_id <$> cm_forbidden_atom_combinations (pb_constraint_model p))).

Definition compile_adversary (p : ArbitrageProblem) (quantities : list ActionQuantity)
    (active : option (gset string)) : res CompiledAdversary :=
  selected ← canonical_quantities p quantities;
  require (negb (bool_decide (selected = []))) (ValueError "adversary requires at least one selected action");;
  require (match active with None => true | Some s => bool_decide (s ⊆ known_constraints p) end)
    (ValueError "active_constraint_ids contains an unknown constraint");;
  terminal ← compile_terminal p active;
  let by_action := py_dict ((λ q, (aq_action_id q, aq_quantity_lots q)) <$> selected) in
  let states := sort_on ts_market_contract_id (pb_terminal_state_sets p) in
  terms ← mapM (state_terms p by_action) states;
  let model := set_objective terminal (linear_objective MIN (mjoin terms)) in
  validate_linear_model model;;
  Ok {| ad_model := model; ad_quantities := selected;
        ad_atom_variables := states ≫= λ s,
          (λ t, (SelAtom (ts_market_contract_id s) (ta_atom_id t), z (ta_atom_id t))) <$> sort_on ta_atom_id (ts_atoms s) |}.
