(* ===== verification/TerminalCorrect.v ===== *)
(** * The integer program is exact

    The integer points of the compiled terminal model are exactly the allowed
    outcomes, and the adversary's objective at such a point is the payout the
    outcome realizes.  Together with the checker of [LinearModel], an optimal
    answer of the backend is the oracle's worst payout. *)

From S2P Require Import Prelude PyValue NLeg NLegForms NLegValidate NLegWf Oracle OracleScenario OracleEval OracleQualify LinearModel TerminalModel SupportCorrect.
Local Open Scope Z_scope.

Lemma z_inj a b : z a = z b → a = b.
Proof. unfold z. cbn. intros E. by injection E. Qed.

(** ** Atoms and their owners *)

Lemma atom_owner p s s' t t' :
  wf_problem p → s ∈ pb_terminal_state_sets p → s' ∈ pb_terminal_state_sets p →
  t ∈ ts_atoms s → t' ∈ ts_atoms s' → ta_atom_id t = ta_atom_id t' → s = s' ∧ t = t'.
Proof.
  intros Hwf Hs Hs' Ht Ht' E.
  pose proof (atoms_to_contract_lookup p s t (wf_atom_ids _ Hwf) Hs Ht) as H1.
  pose proof (atoms_to_contract_lookup p s' t' (wf_atom_ids _ Hwf) Hs' Ht') as H2.
  rewrite E in H1. rewrite H1 in H2. injection H2 as H2.
  assert (s = s') as <- by (by apply (NoDup_key_eq ts_market_contract_id (pb_terminal_state_sets p)); [apply Hwf|..]).
  split; [done|]. by apply (NoDup_key_eq ta_atom_id (ts_atoms s)); [apply (state_atom_ids_NoDup p)|..].
Qed.

(** The 0/1 point of an outcome. *)
Definition indicator (p : ArbitrageProblem) (ω : string → TerminalAtom) (name : string) : Z :=
  if decide (name ∈ (λ s, z (ta_atom_id (ω (ts_market_contract_id s)))) <$> pb_terminal_state_sets p) then 1 else 0.

(** [x] is the point of [ω] on the atoms of the problem. *)
Definition represents (p : ArbitrageProblem) (x : string → Z) (ω : string → TerminalAtom) : Prop :=
  ∀ s t, s ∈ pb_terminal_state_sets p → t ∈ ts_atoms s →
    x (z (ta_atom_id t)) = if (ta_atom_id t =? ta_atom_id (ω (ts_market_contract_id s)))%string then 1 else 0.

Lemma indicator_represents p ω : wf_problem p → outcome p ω → represents p (indicator p ω) ω.
Proof.
  intros Hwf Ho s t Hs Ht. unfold indicator. case_decide as Hin.
  - apply list_elem_of_fmap in Hin as (s' & E%z_inj & Hs').
    destruct (atom_owner p s s' t (ω (ts_market_contract_id s')) Hwf Hs Hs' Ht (Ho s' Hs') E) as [<- _].
    by rewrite E, String.eqb_refl.
  - destruct (_ =? _)%string eqn:E; [|done]. apply String.eqb_eq in E. destruct Hin.
    apply list_elem_of_fmap. exists s. by rewrite E.
Qed.

(** ** Counting terms *)

Lemma activity_app x l k : activity x (l ++ k) = activity x l + activity x k.
Proof. unfold activity. by rewrite fmap_app, sumZ_app. Qed.

Lemma activity_perm x l k : l ≡ₚ k → activity x l = activity x k.
Proof. intros Hp. apply sumZ_perm. by apply fmap_Permutation. Qed.

Lemma activity_sorted x l : activity x (sort_on fst l) = activity x l.
Proof. apply activity_perm, sort_on_perm. Qed.

Definition count (test : TerminalKind → bool) (ks : list TerminalKind) : Z :=
  Z.of_nat (length (filter (λ k, test k = true) ks)).

Lemma count_cons test k ks : count test (k :: ks) = (if test k then 1 else 0) + count test ks.
Proof.
  unfold count. rewrite filter_cons. destruct (test k).
  - rewrite decide_True by done. simpl length. lia.
  - rewrite decide_False by done. lia.
Qed.

Section rows.
Context (p : ArbitrageProblem) (Hwf : wf_problem p) (x : string → Z) (ω : string → TerminalAtom).
Context (Ho : outcome p ω) (Hx : represents p x ω).

Lemma state_activity (P : TerminalAtom → bool) (f : TerminalAtom → Z) s :
  s ∈ pb_terminal_state_sets p →
  activity x ((λ t, (z (ta_atom_id t), f t)) <$> filter (λ t, P t = true) (ts_atoms s))
  = if P (ω (ts_market_contract_id s)) then f (ω (ts_market_contract_id s)) else 0.
Proof.
  intros Hs. set (w := ω (ts_market_contract_id s)).
  assert (Hw : w ∈ ts_atoms s) by (by apply Ho).
  pose proof (state_atom_ids_NoDup p Hwf s Hs) as Hnd.
  unfold activity. rewrite <- list_fmap_compose. simpl.
  rewrite (sumZ_fmap_ext _ (λ t, if (ta_atom_id t =? ta_atom_id w)%string then f t else 0)).
  2: { intros t [_ Ht]%list_elem_of_filter. simpl. rewrite (Hx s t Hs Ht). fold w. destruct (_ =? _)%string; lia. }
  clear Hs. induction (ts_atoms s) as [|t l IH]; [by apply not_elem_of_nil in Hw|].
  csimpl in Hnd. apply NoDup_cons in Hnd as [Ht Hnd].
  assert (Hz : ∀ l, ta_atom_id w ∉ ta_atom_id <$> l →
    sumZ ((λ t, if (ta_atom_id t =? ta_atom_id w)%string then f t else 0) <$> filter (λ t, P t = true) l) = 0).
  { clear. intros l Hn. rewrite (sumZ_const _ 0); [lia|]. intros t [_ Hin]%list_elem_of_filter.
    destruct (_ =? _)%string eqn:E; [|done]. apply String.eqb_eq in E. destruct Hn. rewrite <- E. by apply list_elem_of_fmap_2. }
  rewrite filter_cons. apply elem_of_cons in Hw as [<-|Hw].
  - destruct (P w) eqn:EP; [rewrite decide_True by done|rewrite decide_False by done]; csimpl;
      rewrite ?String.eqb_refl, Hz by done; lia.
  - specialize (IH Hw Hnd). assert (E : (ta_atom_id t =? ta_atom_id w)%string = false).
    { apply String.eqb_neq. intros E. apply Ht. rewrite E. by apply list_elem_of_fmap_2. }
    case_decide; csimpl; rewrite ?E, IH; lia.
Qed.

Lemma kind_terms_activity test k states :
  Forall (.∈ pb_terminal_state_sets p) states →
  activity x (kind_terms test k states) = k * count test (kinds ω (ts_market_contract_id <$> states)).
Proof.
  unfold kind_terms, kinds. induction 1 as [|s l Hs _ IH]; csimpl; [unfold activity, count; simpl; lia|].
  rewrite activity_app, IH, count_cons. rewrite (state_activity (λ t, test (ta_kind t)) (λ _, k) s Hs).
  destruct (test _); lia.
Qed.
End rows.

(** ** One relation *)

Definition row_ok (x : string → Z) (c : LinearConstraint) : Prop :=
  within (lc_lower c) (lc_upper c) (activity x (lc_coefficients c)).

Lemma row_ok_constraint x name l lower upper :
  row_ok x (linear_constraint name l lower upper) ↔ within lower upper (activity x l).
Proof. unfold row_ok. simpl. by rewrite activity_sorted. Qed.

Lemma within_upper a u : within None (Some u) a ↔ a ≤ u.
Proof. unfold within. naive_solver. Qed.
Lemma within_lower a l : within (Some l) None a ↔ l ≤ a.
Proof. unfold within. naive_solver. Qed.
Lemma within_exact a v : within (Some v) (Some v) a ↔ a = v.
Proof. unfold within. split; [intros [H1 H2]; specialize (H1 v eq_refl); specialize (H2 v eq_refl); lia|naive_solver]. Qed.

Lemma is_yes_kind k : is_kind NORMAL_YES k = match k with NORMAL_YES => true | _ => false end.
Proof. by destruct k. Qed.
Lemma is_no_kind k : is_kind NORMAL_NO k = match k with NORMAL_NO => true | _ => false end.
Proof. by destruct k. Qed.

Lemma counts_bound ks :
  0 ≤ count (is_kind NORMAL_YES) ks ∧ 0 ≤ count is_exceptional ks ∧
  count (is_kind NORMAL_YES) ks + count is_exceptional ks ≤ Z.of_nat (length ks).
Proof.
  induction ks as [|k ks IH]; [unfold count; simpl; lia|]. rewrite !count_cons. simpl length.
  rewrite is_yes_kind. destruct k; simpl; lia.
Qed.

Lemma all_normal_count ks : all_normal ks ↔ count is_exceptional ks = 0.
Proof.
  pose proof (counts_bound ks) as (_ & _ & _). unfold all_normal. induction ks as [|k ks IH].
  - split; [done|constructor].
  - rewrite Forall_cons, IH, count_cons. pose proof (counts_bound ks). destruct k; simpl; naive_solver lia.
Qed.

Lemma yes_count_count ks : Z.of_nat (yes_count ks) = count (is_kind NORMAL_YES) ks.
Proof.
  unfold yes_count, count, is_kind. do 2 f_equal. apply filter_ext. intros k _. by rewrite bool_decide_eq_true.
Qed.

(** The arithmetic of the big-M rows. *)
Lemma exclusive_row ks :
  (2 ≤ length ks)%nat →
  count (is_kind NORMAL_YES) ks + - (Z.of_nat (length ks) - 1) * count is_exceptional ks ≤ 1
  ↔ (all_normal ks → (yes_count ks ≤ 1)%nat).
Proof.
  intros Hn. rewrite all_normal_count. pose proof (yes_count_count ks). pose proof (counts_bound ks).
  set (y := count (is_kind NORMAL_YES) ks) in *. set (e := count is_exceptional ks) in *.
  split; [intros; nia|]. intros Hs. destruct (decide (e = 0)) as [E|E]; [specialize (Hs E); nia|nia].
Qed.

Lemma exactly_one_rows ks :
  (2 ≤ length ks)%nat →
  1 ≤ count (is_kind NORMAL_YES) ks + 1 * count is_exceptional ks ∧
  count (is_kind NORMAL_YES) ks + - (Z.of_nat (length ks) - 1) * count is_exceptional ks ≤ 1
  ↔ (all_normal ks → yes_count ks = 1%nat).
Proof.
  intros Hn. rewrite all_normal_count. pose proof (yes_count_count ks). pose proof (counts_bound ks).
  set (y := count (is_kind NORMAL_YES) ks) in *. set (e := count is_exceptional ks) in *.
  split; [intros; nia|]. intros Hs. destruct (decide (e = 0)) as [E|E]; [specialize (Hs E); nia|nia].
Qed.

Lemma implies_row k1 k2 :
  1 * count (is_kind NORMAL_YES) [k1] + (1 * count (is_kind NORMAL_NO) [k2] + -1 * count is_exceptional [k1; k2]) ≤ 1
  ↔ (all_normal [k1; k2] → [k1; k2] ≠ [NORMAL_YES; NORMAL_NO]).
Proof.
  rewrite !count_cons. change (count _ []) with 0. rewrite is_yes_kind, is_no_kind. unfold all_normal.
  rewrite !Forall_cons. destruct k1, k2; simpl; split; try lia; try naive_solver.
Qed.

(** ** Native complements *)

Lemma native_kinds_perm s :
  native_kinds s = true → ta_kind <$> ts_atoms s ≡ₚ [NORMAL_YES; NORMAL_NO; SPLIT].
Proof.
  unfold native_kinds. intros H. bool_prop. apply Nat.eqb_eq in H. symmetry.
  apply submseteq_length_Permutation; [|by rewrite H].
  apply NoDup_submseteq; [by repeat (constructor; [set_solver|]); constructor|].
  intros k. rewrite !elem_of_cons. intros [->|[->|[->|[]%not_elem_of_nil]]]; done.
Qed.

Lemma atom_of_kind_spec s k :
  native_kinds s = true → k ∈ [NORMAL_YES; NORMAL_NO; SPLIT] →
  ∃ t, atom_of_kind s k = Ok t ∧ t ∈ ts_atoms s ∧ ∀ t', t' ∈ ts_atoms s → ta_kind t' = k ↔ t' = t.
Proof.
  intros Hn%native_kinds_perm Hk.
  assert (Hnd : NoDup (ta_kind <$> ts_atoms s)).
  { rewrite Hn. repeat (constructor; [set_solver|]). constructor. }
  assert (∃ t, t ∈ ts_atoms s ∧ ta_kind t = k) as (t & Ht & Ek).
  { rewrite <- Hn in Hk. apply list_elem_of_fmap in Hk as (t & -> & ?). eauto. }
  assert (Huniq : ∀ t', t' ∈ ts_atoms s → ta_kind t' = k → t' = t).
  { intros t' Ht' Ek'. apply list_elem_of_lookup in Ht as [i Hi]. apply list_elem_of_lookup in Ht' as [j Hj].
    assert (i = j) as <-; [|congruence].
    apply (NoDup_lookup (ta_kind <$> ts_atoms s) i j k Hnd); rewrite list_lookup_fmap; [rewrite Hi|rewrite Hj]; simpl; congruence. }
  unfold atom_of_kind. destruct (last (filter (λ t, ta_kind t = k) (ts_atoms s))) as [t'|] eqn:El.
  - exists t'. assert (t' ∈ filter (λ t, ta_kind t = k) (ts_atoms s)) as [Ek' Ht']%list_elem_of_filter.
    { apply last_Some in El as [l ->]. set_solver. }
    split; [done|]. split; [done|]. intros t'' Ht''. split; [|by intros ->]. intros E. rewrite (Huniq t'), (Huniq t''); done.
  - apply last_None in El. assert (t ∈ filter (λ t, ta_kind t = k) (ts_atoms s)) as Hin by (by apply list_elem_of_filter).
    rewrite El in Hin. by apply not_elem_of_nil in Hin.
Qed.

Section relation.
Context (p : ArbitrageProblem) (Hwf : wf_problem p) (x : string → Z) (ω : string → TerminalAtom).
Context (Ho : outcome p ω) (Hx : represents p x ω).

Lemma native_row_spec id s1 s2 k1 k2 suffix :
  s1 ∈ pb_terminal_state_sets p → s2 ∈ pb_terminal_state_sets p →
  native_kinds s1 = true → native_kinds s2 = true →
  k1 ∈ [NORMAL_YES; NORMAL_NO; SPLIT] → k2 ∈ [NORMAL_YES; NORMAL_NO; SPLIT] →
  ∃ c, native_row id s1 s2 (k1, k2, suffix) = Ok c ∧
    (row_ok x c ↔ (ta_kind (ω (ts_market_contract_id s1)) = k1 ↔ ta_kind (ω (ts_market_contract_id s2)) = k2)).
Proof.
  intros Hs1 Hs2 Hn1 Hn2 Hk1 Hk2.
  destruct (atom_of_kind_spec s1 k1 Hn1 Hk1) as (t1 & E1 & Ht1 & Hu1).
  destruct (atom_of_kind_spec s2 k2 Hn2 Hk2) as (t2 & E2 & Ht2 & Hu2).
  unfold native_row. rewrite E1. simpl. rewrite E2. simpl. eexists. split; [done|].
  rewrite row_ok_constraint, within_exact. unfold activity. csimpl. rewrite (Hx s1 t1), (Hx s2 t2) by done.
  rewrite (Hu1 _ (Ho s1 Hs1)), (Hu2 _ (Ho s2 Hs2)).
  assert (Hid : ∀ s t, s ∈ pb_terminal_state_sets p → t ∈ ts_atoms s →
    (ta_atom_id t =? ta_atom_id (ω (ts_market_contract_id s)))%string = true ↔ ω (ts_market_contract_id s) = t).
  { intros s t Hs Ht. rewrite String.eqb_eq. split; [|by intros ->]. intros E. symmetry.
    exact (NoDup_key_eq ta_atom_id (ts_atoms s) _ _ (state_atom_ids_NoDup p Hwf s Hs) Ht (Ho s Hs) E). }
  rewrite <- (Hid s1 t1), <- (Hid s2 t2) by done.
  destruct (_ =? _)%string, (_ =? _)%string; simpl; naive_solver lia.
Qed.

Lemma native_rows_spec id s1 s2 :
  s1 ∈ pb_terminal_state_sets p → s2 ∈ pb_terminal_state_sets p →
  native_kinds s1 = true → native_kinds s2 = true →
  ∃ rows, mapM (native_row id s1 s2) native_specs = Ok rows ∧
    (Forall (row_ok x) rows ↔
     let ks := [ta_kind (ω (ts_market_contract_id s1)); ta_kind (ω (ts_market_contract_id s2))] in
     ks = [NORMAL_YES; NORMAL_NO] ∨ ks = [NORMAL_NO; NORMAL_YES] ∨ ks = [SPLIT; SPLIT]).
Proof.
  intros Hs1 Hs2 Hn1 Hn2.
  destruct (native_row_spec id s1 s2 NORMAL_YES NORMAL_NO "yes-no") as (c1 & E1 & H1); [done..|set_solver|set_solver|].
  destruct (native_row_spec id s1 s2 NORMAL_NO NORMAL_YES "no-yes") as (c2 & E2 & H2); [done..|set_solver|set_solver|].
  destruct (native_row_spec id s1 s2 SPLIT SPLIT "split-split") as (c3 & E3 & H3); [done..|set_solver|set_solver|].
  exists [c1; c2; c3]. unfold native_specs. cbn [mapM]. rewrite E1. cbn [mbind res_bind]. rewrite E2. cbn [mbind res_bind].
  rewrite E3. cbn [mbind res_bind mret res_ret]. split; [done|]. rewrite !Forall_cons, H1, H2, H3.
  assert (Hk : ∀ s, s ∈ pb_terminal_state_sets p → native_kinds s = true →
    ta_kind (ω (ts_market_contract_id s)) ∈ [NORMAL_YES; NORMAL_NO; SPLIT]).
  { intros s Hs Hn%native_kinds_perm. rewrite <- Hn. apply list_elem_of_fmap. exists (ω (ts_market_contract_id s)). auto. }
  pose proof (Hk s1 Hs1 Hn1) as K1. pose proof (Hk s2 Hs2 Hn2) as K2. simpl.
  revert K1 K2. generalize (ta_kind (ω (ts_market_contract_id s1))), (ta_kind (ω (ts_market_contract_id s2))).
  clear. intros k1 k2 K1 K2.
  rewrite !elem_of_cons, elem_of_nil in K1, K2. rewrite Forall_nil. destruct k1, k2; intuition congruence.
Qed.

Lemma relation_rows_spec r :
  r ∈ cm_relations (pb_constraint_model p) →
  ∃ rows, relation_rows (index_by ts_market_contract_id (pb_terminal_state_sets p)) r = Ok rows ∧
    (Forall (row_ok x) rows ↔ relation_sat ω r).
Proof.
  intros Hr. pose proof (proj1 (Forall_forall _ _) (wf_relations _ Hwf) r Hr) as Hwr.
  assert (∃ states, mapM (λ c, of_option (KeyError c)
      (index_by ts_market_contract_id (pb_terminal_state_sets p) !! c)) (rc_contract_ids r) = Ok states ∧
    Forall (.∈ pb_terminal_state_sets p) states ∧ ts_market_contract_id <$> states = rc_contract_ids r)
    as (states & Es & Hst & Eids).
  { pose proof (wr_contracts _ _ Hwr) as Hc. clear -Hwf Hc. induction Hc as [|c cs Hc _ IH].
    - exists []. split; [done|]. split; [constructor|done].
    - destruct IH as (states & E & Hst & Eids). apply elem_of_contracts in Hc as (s & Hs & <-).
      exists (s :: states). cbn [mapM].
      rewrite (proj2 (index_by_lookup ts_market_contract_id _ _ s (wf_contracts _ Hwf))) by done.
      cbn [of_option mbind res_bind]. rewrite E. cbn. split; [done|]. split; [by constructor|by rewrite Eids]. }
  unfold relation_rows, relation_sat. rewrite Es. cbn [mbind res_bind]. clear Es.
  pose proof (wr_arity _ _ Hwr) as Har.
  assert (Hlen : length (kinds ω (rc_contract_ids r)) = length (rc_contract_ids r)) by (unfold kinds; by rewrite length_fmap).
  pose proof (λ test k, kind_terms_activity p Hwf x ω Ho Hx test k states Hst) as Hact. rewrite Eids in Hact.
  destruct (rc_kind r) eqn:Ek; simpl in Har.
  - destruct states as [|s1 [|s2 [|]]]; csimpl in Eids; rewrite <- Eids in Har; try done.
    apply Forall_cons in Hst as [Hs1 [Hs2 _]%Forall_cons]. cbn [lookup list_lookup of_option mbind res_bind].
    eexists. split; [done|]. rewrite Forall_singleton, row_ok_constraint, within_upper, !activity_app, Hact.
    rewrite !(kind_terms_activity p Hwf x ω Ho Hx) by (repeat constructor; done). rewrite <- Eids. unfold kinds. csimpl.
    apply implies_row.
  - eexists. split; [done|]. rewrite Forall_singleton, row_ok_constraint, within_upper, activity_app, !Hact.
    rewrite <- Hlen, Z.mul_1_l. apply exclusive_row. by rewrite Hlen.
  - eexists. split; [done|]. rewrite !Forall_cons, !row_ok_constraint, within_upper, within_lower, !activity_app, !Hact.
    rewrite <- Hlen, Z.mul_1_l. rewrite <- exactly_one_rows by (by rewrite Hlen). naive_solver.
  - destruct states as [|s1 [|s2 [|]]]; csimpl in Eids; rewrite <- Eids in Har; try done.
    apply Forall_cons in Hst as [Hs1 [Hs2 _]%Forall_cons].
    destruct (wr_native _ _ Hwr (ts_market_contract_id s1) (ts_market_contract_id s2) Ek (eq_sym Eids))
      as (_ & _ & s1' & s2' & Hs1' & Hs2' & E1 & E2 & _ & Hn1 & Hn2).
    rewrite (NoDup_key_eq ts_market_contract_id _ s1' s1 (wf_contracts _ Hwf) Hs1' Hs1 E1) in Hn1.
    rewrite (NoDup_key_eq ts_market_contract_id _ s2' s2 (wf_contracts _ Hwf) Hs2' Hs2 E2) in Hn2.
    destruct (native_rows_spec (rc_constraint_id r) s1 s2 Hs1 Hs2 Hn1 Hn2) as (rows & E & Hrows).
    exists rows. split; [done|]. rewrite Hrows. unfold kinds. by rewrite <- Eids.
Qed.

Lemma forbidden_row_spec f :
  f ∈ cm_forbidden_atom_combinations (pb_constraint_model p) → row_ok x (forbidden_row f) ↔ forbidden_sat p ω f.
Proof.
  intros Hf. pose proof (wb_atoms _ _ (proj1 (Forall_forall _ _) (wf_forbiddens _ Hwf) f Hf)) as Hat.
  unfold forbidden_row, forbidden_sat. rewrite row_ok_constraint, within_upper. unfold activity.
  rewrite <- list_fmap_compose. simpl. clear Hf.
  enough (sumZ ((λ a, x (z a) * 1) <$> fb_atom_ids f) ≤ Z.of_nat (length (fb_atom_ids f)) ∧
    (sumZ ((λ a, x (z a) * 1) <$> fb_atom_ids f) = Z.of_nat (length (fb_atom_ids f)) ↔ Forall (selects p ω) (fb_atom_ids f))) as [Hle Hiff].
  { rewrite <- Hiff. change (((λ t : string * Z, x t.1 * t.2) ∘ (λ a : string, (z a, 1)))) with (λ a, x (z a) * 1). lia. }
  induction Hat as [|a l Ha Hl IH]; csimpl; [split; [lia|split; [constructor|done]]|].
  destruct IH as [Hle Hiff].
  apply list_elem_of_bind in Ha as (s & (t & -> & Ht)%list_elem_of_fmap & Hs). rewrite (Hx s t Hs Ht).
  assert (Hsel : selects p ω (ta_atom_id t) ↔ (ta_atom_id t =? ta_atom_id (ω (ts_market_contract_id s)))%string = true).
  { rewrite String.eqb_eq. split.
    - intros (s' & Hs' & E). destruct (atom_owner p s' s _ t Hwf Hs' Hs (Ho s' Hs') Ht E) as [-> Et]. by rewrite <- Et.
    - intros E. exists s. by rewrite E. }
  rewrite Forall_cons, Hsel, <- Hiff. destruct (_ =? _)%string; simpl; split; try lia; naive_solver lia.
Qed.
End relation.

(** ** The whole model *)

(** The problem with only the active constraints. *)
Definition restrict (p : ArbitrageProblem) (active : option (gset string)) : ArbitrageProblem :=
  set_constraint_model p {|
    cm_relations := filter (λ r, is_active active (rc_constraint_id r) = true) (cm_relations (pb_constraint_model p));
    cm_forbidden_atom_combinations :=
      filter (λ f, is_active active (fb_constraint_id f) = true)
        (cm_forbidden_atom_combinations (pb_constraint_model p)) |}.

Lemma restrict_None p : restrict p None = p.
Proof.
  destruct p as [? ? ? ? ? ? [rs fs] ?]. unfold restrict, set_constraint_model. simpl.
  rewrite !filter_all by (apply Forall_forall; done). done.
Qed.

Lemma compile_terminal_inv p active m :
  compile_terminal p active = Ok m →
  wf_problem p ∧ validate_linear_model m = Ok tt ∧
  ∃ rows, mapM (relation_rows (index_by ts_market_contract_id (pb_terminal_state_sets p)))
            (cm_relations (pb_constraint_model (restrict p active))) = Ok rows ∧
    m = linear_model (terminal_variables p)
          ((exactly_one_row <$> pb_terminal_state_sets p) ++ mjoin rows ++
           (forbidden_row <$> cm_forbidden_atom_combinations (pb_constraint_model (restrict p active)))) None.
Proof.
  unfold compile_terminal. intros (? & Hv%require_valid_Ok & (rows & Hrows & ([] & Hval & [= <-])%bind_Ok)%bind_Ok)%bind_Ok.
  split_and!; [done|done|]. exists rows. done.
Qed.

Lemma represents_binary p x ω s t :
  represents p x ω → s ∈ pb_terminal_state_sets p → t ∈ ts_atoms s → 0 ≤ x (z (ta_atom_id t)) ≤ 1.
Proof. intros Hx Hs Ht. rewrite (Hx s t Hs Ht). destruct (_ =? _)%string; lia. Qed.

Lemma terminal_rows_spec p active x ω rows :
  wf_problem p → outcome p ω → represents p x ω →
  mapM (relation_rows (index_by ts_market_contract_id (pb_terminal_state_sets p)))
    (cm_relations (pb_constraint_model (restrict p active))) = Ok rows →
  Forall (row_ok x) (mjoin rows) ↔ Forall (relation_sat ω) (cm_relations (pb_constraint_model (restrict p active))).
Proof.
  intros Hwf Ho Hx. simpl.
  assert (Hsub : Forall (.∈ cm_relations (pb_constraint_model p))
    (filter (λ r, is_active active (rc_constraint_id r) = true) (cm_relations (pb_constraint_model p)))).
  { apply Forall_forall. by intros r [_ ?]%list_elem_of_filter. }
  revert rows. induction Hsub as [|r l Hr _ IH]; intros rows; cbn [mapM].
  - intros [= <-]. csimpl. by rewrite !Forall_nil.
  - intros (rs & Hrs & (rows' & Hrows' & [= <-])%bind_Ok)%bind_Ok. csimpl. rewrite Forall_app, Forall_cons, (IH rows' Hrows').
    destruct (relation_rows_spec p Hwf x ω Ho Hx r Hr) as (rs' & E & Hiff). rewrite Hrs in E. injection E as <-. by rewrite Hiff.
Qed.

Lemma exactly_one_spec p x ω s :
  wf_problem p → outcome p ω → represents p x ω → s ∈ pb_terminal_state_sets p → row_ok x (exactly_one_row s).
Proof.
  intros Hwf Ho Hx Hs. unfold exactly_one_row. rewrite row_ok_constraint, within_exact.
  pose proof (state_activity p Hwf x ω Ho Hx (λ _, true) (λ _, 1) s Hs) as E.
  rewrite filter_all in E by (apply Forall_forall; done). exact E.
Qed.

(** A represented point is feasible exactly when its outcome is allowed. *)
Lemma terminal_feasible p active m x ω :
  compile_terminal p active = Ok m → outcome p ω → represents p x ω →
  feasible m x ↔ allowed (restrict p active) ω.
Proof.
  intros (Hwf & _ & rows & Hrows & ->)%compile_terminal_inv Ho Hx.
  pose proof (terminal_rows_spec p active x ω rows Hwf Ho Hx Hrows) as Hrel.
  assert (Hforb : Forall (row_ok x) (forbidden_row <$> cm_forbidden_atom_combinations (pb_constraint_model (restrict p active))) ↔
    Forall (forbidden_sat p ω) (cm_forbidden_atom_combinations (pb_constraint_model (restrict p active)))).
  { rewrite Forall_fmap, !Forall_forall. simpl. split; intros Hall f Hf;
      (apply forbidden_row_spec || apply (forbidden_row_spec p Hwf x ω)); auto; by apply list_elem_of_filter in Hf as [_ ?]. }
  split.
  - intros [_ Hr]. simpl in Hr. rewrite sort_on_perm in Hr. apply Forall_app in Hr as [_ [Hr1 Hr2]%Forall_app].
    split; [exact Ho|by apply Hrel|by apply Hforb].
  - intros [_ Hr Hf]. split; simpl; rewrite sort_on_perm.
    + apply Forall_forall. intros v Hv. apply list_elem_of_bind in Hv as (s & (t & -> & Ht)%list_elem_of_fmap & Hs).
      simpl. by eapply represents_binary.
    + apply Forall_app. split; [|apply Forall_app; split; [by apply Hrel|by apply Hforb]].
      apply Forall_fmap, Forall_forall. intros s Hs. by eapply exactly_one_spec.
Qed.

(** ** Every feasible point is an outcome *)

Lemma sum_binary_one {A} (f : A → Z) l :
  Forall (λ a, 0 ≤ f a ≤ 1) l → sumZ (f <$> l) = 1 →
  ∃ l1 a l2, l = l1 ++ a :: l2 ∧ f a = 1 ∧ Forall (λ b, f b = 0) (l1 ++ l2).
Proof.
  intros Hl. induction Hl as [|a l Ha Hl IH]; csimpl; [lia|]. intros Hs.
  assert (Hnn : 0 ≤ sumZ (f <$> l)).
  { apply sumZ_nonneg, Forall_fmap. eapply Forall_impl; [exact Hl|]. simpl. lia. }
  destruct (decide (f a = 1)) as [E|E].
  - exists [], a, l. split_and!; [done..|]. simpl. assert (sumZ (f <$> l) = 0) as Hz by lia. clear -Hl Hz.
    induction Hl as [|b l Hb Hl IH]; [constructor|]. csimpl in Hz.
    assert (0 ≤ sumZ (f <$> l)) by (apply sumZ_nonneg, Forall_fmap; eapply Forall_impl; [exact Hl|]; simpl; lia).
    constructor; [lia|]. apply IH. lia.
  - destruct IH as (l1 & b & l2 & -> & Hb & Hz); [lia|]. exists (a :: l1), b, l2. split_and!; [done..|].
    simpl. constructor; [lia|done].
Qed.

(** The outcome a point selects. *)
Definition outcome_at (p : ArbitrageProblem) (x : string → Z) (c : string) : TerminalAtom :=
  match index_by ts_market_contract_id (pb_terminal_state_sets p) !! c with
  | Some s => default dummy_atom (py_next (λ t, x (z (ta_atom_id t)) =? 1) (ts_atoms s))
  | None => dummy_atom
  end.

Lemma feasible_represents p active m x :
  compile_terminal p active = Ok m → feasible m x → outcome p (outcome_at p x) ∧ represents p x (outcome_at p x).
Proof.
  intros (Hwf & _ & rows & _ & ->)%compile_terminal_inv [Hb Hr]. simpl in Hb, Hr. rewrite sort_on_perm in Hb. rewrite sort_on_perm in Hr.
  apply Forall_app in Hr as [Hone _]. rewrite Forall_fmap, Forall_forall in Hone. rewrite Forall_forall in Hb.
  assert (Hst : ∀ s, s ∈ pb_terminal_state_sets p →
    ∃ l1 a l2, ts_atoms s = l1 ++ a :: l2 ∧ x (z (ta_atom_id a)) = 1 ∧
      Forall (λ b, x (z (ta_atom_id b)) = 0) (l1 ++ l2) ∧ outcome_at p x (ts_market_contract_id s) = a).
  { intros s Hs. pose proof (Hone s Hs) as Hrow. unfold compose in Hrow.
    apply row_ok_constraint, within_exact in Hrow. unfold activity in Hrow. rewrite <- list_fmap_compose in Hrow.
    destruct (sum_binary_one (λ t, x (z (ta_atom_id t))) (ts_atoms s)) as (l1 & a & l2 & E & Ha & Hz).
    { apply Forall_forall. intros t Ht. specialize (Hb (int_variable (z (ta_atom_id t)) 0 1)). apply Hb.
      apply list_elem_of_bind. exists s. split; [|done]. apply list_elem_of_fmap. eauto. }
    { rewrite <- Hrow. apply sumZ_fmap_ext. intros t _. simpl. lia. }
    exists l1, a, l2. split_and!; [done..|]. unfold outcome_at.
    rewrite (proj2 (index_by_lookup ts_market_contract_id _ _ s (wf_contracts _ Hwf))) by done.
    rewrite E. unfold py_next. apply Forall_app in Hz as [Hz1 _]. clear -Ha Hz1.
    induction Hz1 as [|b l1 Hb _ IH]; simpl; [by rewrite Ha|]. by rewrite Hb. }
  split.
  - intros s Hs. destruct (Hst s Hs) as (l1 & a & l2 & E & _ & _ & ->). rewrite E. set_solver.
  - intros s t Hs Ht. destruct (Hst s Hs) as (l1 & a & l2 & E & Ha & Hz & ->).
    pose proof (state_atom_ids_NoDup p Hwf s Hs) as Hnd. rewrite E in Ht, Hnd. rewrite fmap_app in Hnd. csimpl in Hnd.
    apply elem_of_app in Ht as [Ht|[->|Ht]%elem_of_cons].
    + rewrite (proj1 (Forall_forall _ _) Hz t) by set_solver. rewrite (proj2 (String.eqb_neq _ _)); [done|].
      intros Eid. apply NoDup_app in Hnd as (_ & Hd & _). apply (Hd (ta_atom_id t)); [by apply list_elem_of_fmap_2|].
      rewrite Eid. by left.
    + by rewrite Ha, String.eqb_refl.
    + rewrite (proj1 (Forall_forall _ _) Hz t) by set_solver. rewrite (proj2 (String.eqb_neq _ _)); [done|].
      intros Eid. apply NoDup_app in Hnd as (_ & _ & Hd). apply NoDup_cons in Hd as [Hd _]. apply Hd.
      rewrite <- Eid. by apply list_elem_of_fmap_2.
Qed.

(** ** The adversary's objective *)

Lemma canonical_step_select p acc q out :
  wf_problem p → canonical_step (index_by ca_action_id (pb_actions p)) acc q = Ok out →
  select_quantity (index_by ca_action_id (pb_actions p)) acc q = Ok out.
Proof.
  intros Hwf. unfold canonical_step, select_quantity. destruct acc as [sel seen].
  destruct (index_by ca_action_id (pb_actions p) !! aq_action_id q) as [a|] eqn:Ea; [|done].
  intros (? & Hs%require_Ok & (? & Hq%require_Ok & [= <-])%bind_Ok)%bind_Ok.
  apply index_by_elem in Ea as [Ha _].
  destruct (wa_bounds_int64 _ _ (proj1 (Forall_forall _ _) (wf_actions _ Hwf) a Ha)) as [_ [_ Hmax]].
  apply negb_true_iff, orb_false_iff in Hq as [H0%Z.ltb_ge Hq]. rewrite Hs.
  assert (Hr : (aq_quantity_lots q =? 0)
    || (ca_min_quantity_lots a <=? aq_quantity_lots q) && (aq_quantity_lots q <=? ca_max_quantity_lots a) = true)
    by (destruct (aq_quantity_lots q =? 0); [done|]; by apply negb_false_iff in Hq).
  rewrite Hr, (proj2 (Z.leb_le 0 _)) by done. rewrite (proj2 (Z.leb_le _ INT64_MAX)); [done|].
  apply orb_true_iff in Hr as [Hr|Hr]; bool_prop; [|lia]. rewrite Hr. done.
Qed.

Lemma canonical_quantities_select p qs sel :
  wf_problem p → canonical_quantities p qs = Ok sel → selected_quantities p qs = Ok sel.
Proof.
  intros Hwf. unfold canonical_quantities, selected_quantities. intros ([l seen] & Hf & [= <-])%bind_Ok.
  apply bind_Ok. exists (l, seen). split; [|done]. revert Hf.
  generalize (@nil ActionQuantity, @nil string). induction qs as [|q qs IH]; intros acc; [done|].
  intros (acc' & Ha%(canonical_step_select p _ _ _ Hwf) & Hr)%bind_Ok. apply bind_Ok. exists acc'. auto.
Qed.

Lemma bind_filter_perm {A} (f : A → string) (keys : list string) (l : list A) :
  NoDup keys → (∀ a, a ∈ l → f a ∈ keys) → (keys ≫= λ c, filter (λ a, f a = c) l) ≡ₚ l.
Proof.
  intros Hnd. revert l; induction Hnd as [|c keys Hc Hnd IH]; intros l Hl; csimpl.
  - destruct l as [|a l]; [done|]. exfalso. by eapply not_elem_of_nil, (Hl a ltac:(left)).
  - assert (E : (keys ≫= λ c', filter (λ a, f a = c') l) = (keys ≫= λ c', filter (λ a, f a = c') (filter (λ a, f a ≠ c) l))).
    { clear -Hc. induction keys as [|k keys IH]; csimpl; [done|]. rewrite IH by set_solver. f_equal.
      rewrite list_filter_filter. apply filter_ext. intros a _. set_solver. }
    rewrite E, IH.
    + apply (filter_app_complement (λ a, f a = c)).
    + intros a [Hne Ha]%list_elem_of_filter. specialize (Hl a Ha). set_solver.
Qed.

Lemma py_dict_fmap_lookup {A B} (f : A → string) (g : A → B) (l : list A) a :
  NoDup (f <$> l) → a ∈ l → py_dict ((λ x, (f x, g x)) <$> l) !! f a = Some (g a).
Proof.
  intros Hnd Ha. apply py_dict_lookup; [by rewrite <- list_fmap_compose|]. apply list_elem_of_fmap. by exists a.
Qed.

Section objective.
Context (p : ArbitrageProblem) (Hwf : wf_problem p) (sel : list ActionQuantity) (Hsel : selection p sel).
Context (ω : string → TerminalAtom) (Ho : outcome p ω).

Let by_action := py_dict ((λ q, (aq_action_id q, aq_quantity_lots q)) <$> sel).

Definition atom_payout (t : TerminalAtom) (i : string) : Z :=
  default 0 (py_dict ((λ y, (ap_action_id y, payout_lower_bound_per_lot_units y)) <$> ta_payouts t) !! i).

Definition coefficient (s : TerminalStateSet) (t : TerminalAtom) : Z :=
  sumZ ((λ i, atom_payout t i * default 0 (by_action !! i)) <$> selected_actions_of p by_action (ts_market_contract_id s)).

Lemma atom_coefficient_exact s t k :
  atom_coefficient (selected_actions_of p by_action (ts_market_contract_id s)) by_action t = Ok k → k = coefficient s t.
Proof.
  unfold atom_coefficient, coefficient, atom_payout. set (D := py_dict _). generalize (selected_actions_of p by_action (ts_market_contract_id s)).
  intros l. enough (∀ k0, foldM (coefficient_step D by_action) k0 l = Ok k →
    k = k0 + sumZ ((λ i, default 0 (D !! i) * default 0 (by_action !! i)) <$> l)) as Hg by (intros Hk; rewrite (Hg 0 Hk); lia).
  induction l as [|i l IH]; intros k0; csimpl; [intros [= <-]; lia|].
  intros (k1 & Hk1 & Hr)%bind_Ok. rewrite (IH _ Hr). unfold coefficient_step in Hk1.
  apply bind_Ok in Hk1 as (y & Hy%of_option_Ok & (n & Hn%of_option_Ok & (? & _ & (? & _ & [= <-])%bind_Ok)%bind_Ok)%bind_Ok).
  rewrite Hy, Hn. simpl. lia.
Qed.

Lemma state_terms_exact s terms :
  state_terms p by_action s = Ok terms →
  terms = (λ t, (z (ta_atom_id t), coefficient s t)) <$> sort_on ta_atom_id (ts_atoms s).
Proof.
  unfold state_terms. intros H%mapM_Ok. symmetry. apply list_eq_Forall2, Forall2_fmap_l.
  eapply Forall2_impl; [exact H|]. intros t y (k & ->%atom_coefficient_exact & [= <-])%bind_Ok. done.
Qed.

(** The payout of a selected action, read off the settled atom. *)
Lemma atom_payout_of s i :
  s ∈ pb_terminal_state_sets p → i ∈ ca_action_id <$> actions_of p (ts_market_contract_id s) →
  atom_payout (ω (ts_market_contract_id s)) i = payout_of p ω i.
Proof.
  intros Hs Hi. pose proof (wf_atom_in p Hwf s _ Hs (Ho s Hs)) as Hat.
  apply (wt_payout_ids _ _ _ Hat), list_elem_of_fmap in Hi as (y & -> & Hy).
  rewrite (payout_of_spec p Hwf ω Ho y) by (apply outcome_payouts_elem; eauto). unfold atom_payout.
  by rewrite (py_dict_fmap_lookup ap_action_id _ _ y) by (done || apply Hat).
Qed.

Lemma selected_action_ids_perm :
  (sorted_states p ≫= λ s, selected_actions_of p by_action (ts_market_contract_id s)) ≡ₚ aq_action_id <$> sel.
Proof.
  set (S := filter (λ a, is_Some (by_action !! ca_action_id a)) (pb_actions p)).
  assert (E : (sorted_states p ≫= λ s, selected_actions_of p by_action (ts_market_contract_id s))
    = ca_action_id <$> ((ts_market_contract_id <$> sorted_states p) ≫= λ c, filter (λ a, ca_market_contract_id a = c) S)).
  { unfold selected_actions_of. fold S. induction (sorted_states p) as [|s l IH]; csimpl; [done|]. by rewrite IH, fmap_app. }
  rewrite E, bind_filter_perm.
  - apply NoDup_Permutation; [apply NoDup_fmap_filter, Hwf|apply Hsel|]. intros i.
    assert (Hdom : ∀ i, is_Some (by_action !! i) ↔ i ∈ aq_action_id <$> sel).
    { intros j. unfold by_action. rewrite py_dict_is_Some, <- list_fmap_compose. done. }
    split.
    + intros (a & -> & [Ha _]%list_elem_of_filter)%list_elem_of_fmap. by apply Hdom.
    + intros Hi. apply Hdom in Hi as Hi'. apply list_elem_of_fmap in Hi as (q & -> & Hq).
      destruct (proj1 (Forall_forall _ _) (sel_known _ _ Hsel) q Hq) as (a & Ha & _). apply index_by_elem in Ha as [Ha Ei].
      apply list_elem_of_fmap. exists a. split; [done|]. apply list_elem_of_filter. by rewrite Ei.
  - apply sorted_states_NoDup, Hwf.
  - intros a [_ Ha]%list_elem_of_filter. apply (wf_action_contracts _ Hwf) in Ha as (s & Hs & <-)%elem_of_contracts.
    apply list_elem_of_fmap_2. by apply sorted_states_elem.
Qed.

Lemma objective_payout x terms :
  represents p x ω → mapM (state_terms p by_action) (sorted_states p) = Ok terms →
  activity x (mjoin terms) = realized_payout p ω sel.
Proof.
  intros Hx Hterms%mapM_Ok.
  assert (E : activity x (mjoin terms) = sumZ ((λ i, payout_of p ω i * default 0 (by_action !! i)) <$>
    (sorted_states p ≫= λ s, selected_actions_of p by_action (ts_market_contract_id s)))).
  { assert (Hin : Forall (.∈ pb_terminal_state_sets p) (sorted_states p))
      by (apply Forall_forall; intros s; apply sorted_states_elem).
    induction Hterms as [|s t states terms Ht Hterms IH]; csimpl; [done|].
    apply Forall_cons in Hin as [Hs Hin]. rewrite activity_app, fmap_app, sumZ_app, (IH Hin). f_equal.
    apply state_terms_exact in Ht as ->. rewrite (activity_perm x _ _ (fmap_Permutation _ _ _ (sort_on_perm ta_atom_id (ts_atoms s)))).
    pose proof (state_activity p Hwf x ω Ho Hx (λ _, true) (coefficient s) s Hs) as Ea.
    rewrite filter_all in Ea by (apply Forall_forall; done). rewrite Ea. unfold coefficient.
    apply sumZ_fmap_ext. intros i Hi. rewrite (atom_payout_of s i Hs); [done|].
    unfold selected_actions_of in Hi. apply list_elem_of_fmap in Hi as (a & -> & [Ec [_ Ha]%list_elem_of_filter]%list_elem_of_filter).
    apply list_elem_of_fmap_2. by apply list_elem_of_filter. }
  rewrite E, (sumZ_perm _ _ (fmap_Permutation _ _ _ selected_action_ids_perm)), <- list_fmap_compose.
  unfold realized_payout. apply sumZ_fmap_ext. intros q Hq. simpl. f_equal. unfold by_action.
  by rewrite (py_dict_fmap_lookup aq_action_id _ _ q) by (done || apply Hsel).
Qed.
End objective.

Lemma compile_adversary_inv p qs active ad :
  compile_adversary p qs active = Ok ad →
  wf_problem p ∧ selected_quantities p qs = Ok (ad_quantities ad) ∧
  ∃ m terms, compile_terminal p active = Ok m ∧
    mapM (state_terms p (py_dict ((λ q, (aq_action_id q, aq_quantity_lots q)) <$> ad_quantities ad))) (sorted_states p) = Ok terms ∧
    ad_model ad = set_objective m (linear_objective MIN (mjoin terms)).
Proof.
  unfold compile_adversary. intros (sel & Hsel & (? & _ & (? & _ & Hr)%bind_Ok)%bind_Ok)%bind_Ok.
  apply bind_Ok in Hr as (m & Hm & Hr). apply bind_Ok in Hr as (terms & Ht & Hr). apply bind_Ok in Hr as (? & _ & [= <-]).
  pose proof (compile_terminal_inv p active m Hm) as (Hwf & _). split_and!; [done|by apply canonical_quantities_select|].
  exists m, terms. done.
Qed.

Lemma set_objective_feasible m o x : feasible (set_objective m o) x ↔ feasible m x.
Proof.
  split; intros [Hb Hr]; (split; [revert Hb|revert Hr]); unfold set_objective; simpl; by rewrite sort_on_perm.
Qed.

(** The adversary model, exactly: its integer points are the allowed outcomes
    and its objective is their payout. *)
Lemma adversary_exact p qs active ad o :
  compile_adversary p qs active = Ok ad → lm_objective (ad_model ad) = Some o →
  (∀ ω, allowed (restrict p active) ω →
     feasible (ad_model ad) (indicator p ω) ∧
     activity (indicator p ω) (lo_coefficients o) = realized_payout p ω (ad_quantities ad)) ∧
  (∀ x, feasible (ad_model ad) x →
     allowed (restrict p active) (outcome_at p x) ∧
     activity x (lo_coefficients o) = realized_payout p (outcome_at p x) (ad_quantities ad)).
Proof.
  intros (Hwf & Hsel & m & terms & Hm & Hterms & ->)%compile_adversary_inv [= <-].
  apply selected_quantities_spec in Hsel as [Hsel _]. simpl. split.
  - intros ω Hω. pose proof (al_outcome _ _ Hω : outcome p ω) as Ho.
    pose proof (indicator_represents p ω Hwf Ho) as Hx. split.
    + apply set_objective_feasible. by apply (terminal_feasible p active m _ ω).
    + rewrite activity_sorted. by apply objective_payout.
  - intros x Hx%set_objective_feasible. destruct (feasible_represents p active m x Hm Hx) as [Ho Hrep]. split.
    + by apply (terminal_feasible p active m x).
    + rewrite activity_sorted. by apply objective_payout.
Qed.
