(* ===== verification/PartialFill.v ===== *)
(** * The partial-fill adversary

    [src/open_trader/prediction_partial_fill.py]: the frozen legs and their
    order semantics, the canonical adversary problem, its compilation to an
    integer program, the solver-free recomputation of a loss and the bounded
    exhaustive oracle.  Evidence, verification and the three-state proof are
    in [FillProof]. *)

From S2P Require Import Prelude PyValue NLeg NLegForms NLegValidate Oracle LinearModel TerminalModel.
Local Open Scope Z_scope.

Definition FILL_ADVERSARY_SCHEMA_V1 := "open_trader.prediction_partial_fill.fill_adversary.v1".
Definition ORDER_SEMANTICS_SCHEMA_V1 := "open_trader.prediction_partial_fill.order_semantics.v1".
Definition FILL_ADVERSARY_PROBLEM_KIND := "FILL_ADVERSARY".

(** ** Order semantics *)

Inductive FillSemantics := ATOMIC | PARTIAL | SEMANTICS_UNKNOWN.

#[export] Instance FillSemantics_eq_dec : EqDecision FillSemantics.
Proof. solve_decision. Defined.

Definition semantics_value (s : FillSemantics) : string :=
  match s with ATOMIC => "ATOMIC" | PARTIAL => "PARTIAL" | SEMANTICS_UNKNOWN => "UNKNOWN" end.

Definition ORDER_SEMANTICS_TABLE_V1 : list (string * string * FillSemantics) :=
  [("polymarket", "FOK", ATOMIC); ("predict.fun", "LIMIT", PARTIAL)].

Definition DEFAULT_ORDER_TYPES_V1 : list (string * string) :=
  [("polymarket", "FOK"); ("predict.fun", "LIMIT")].

Definition order_semantics_lookup (venue_id order_type : string) : FillSemantics :=
  match py_next (λ row, (row.1.1 =? venue_id)%string && (row.1.2 =? order_type)%string) ORDER_SEMANTICS_TABLE_V1 with
  | Some row => row.2
  | None => SEMANTICS_UNKNOWN
  end.

Definition default_order_type (venue_id : string) : option string :=
  snd <$> py_next (λ row, (row.1 =? venue_id)%string) DEFAULT_ORDER_TYPES_V1.

Definition order_semantics_fingerprint_for `{Sha256} (legs : list (string * string * string * string)) : string :=
  fingerprint_json (JObj
    [ ("order_semantics_version", JStr ORDER_SEMANTICS_SCHEMA_V1);
      ("legs", JArr ((λ l, json_strings [l.1.1.1; l.1.1.2; l.1.2; l.2]) <$> legs)) ]).

(** ** Frozen legs *)

(** [semantics] is a string in the source, checked to be the value of a
    [FillSemantics] member. *)
Record FillLeg := {
  fl_action_id : string;
  fl_venue_id : string;
  fl_quantity_lots : Z;
  fl_order_type : string;
  fl_semantics : FillSemantics;
  fl_max_cost_units : Z;
  fl_max_fee_units : Z;
}.

(** [FillLeg.__post_init__] *)
Definition check_fill_leg (leg : FillLeg) : res unit :=
  require (negb (fl_action_id leg =? "")%string) (ValueError "fill leg action_id must be a non-empty string");;
  require (negb (fl_venue_id leg =? "")%string) (ValueError "fill leg venue_id must be a non-empty string");;
  require (negb (fl_order_type leg =? "")%string) (ValueError "fill leg order_type must be a non-empty string");;
  require (0 <? fl_quantity_lots leg) (ValueError "fill leg quantity_lots must be a positive integer");;
  require (0 <=? fl_max_cost_units leg) (ValueError "fill leg max_cost_units must be a non-negative integer");;
  require (0 <=? fl_max_fee_units leg) (ValueError "fill leg max_fee_units must be a non-negative integer").

Record FillAdversaryProblem := {
  fa_schema_version : string;
  fa_problem_kind : string;
  fa_execution_solution_fingerprint : string;
  fa_execution_solution_payload_fingerprint : string;
  fa_model_fingerprint : string;
  fa_quote_fingerprint : string;
  fa_cost_fingerprint : string;
  fa_order_semantics_fingerprint : string;
  fa_order_semantics_version : string;
  fa_cap_config_version : string;
  fa_max_partial_fill_loss : Z;
  fa_max_auto_repair_loss : Z;
  fa_legs : list FillLeg;
  fa_source_problem : ArbitrageProblem;
  fa_fingerprint : string;
}.

(** ** [canonical_payload(asdict(...))]

    [asdict] turns nested dataclasses into dicts, whose lists
    [_canonical_value] leaves in place: nothing is sorted. *)

Definition raw_atom_json (t : TerminalAtom) : json := JObj
  [ ("atom_id", JStr (ta_atom_id t)); ("kind", JStr (terminal_kind_value (ta_kind t)));
    ("rule_version", jopt JStr (ta_rule_version t));
    ("payouts", JArr (payout_json <$> ta_payouts t));
    ("capital_release_at", jopt json_datetime (ta_capital_release_at t)) ].

Definition raw_state_set_json (s : TerminalStateSet) : json := JObj
  [ ("market_contract_id", JStr (ts_market_contract_id s));
    ("settlement_observation_key", observation_key_json (ts_settlement_observation_key s));
    ("rule_version", JStr (ts_rule_version s));
    ("atoms", JArr (raw_atom_json <$> ts_atoms s)) ].

Definition raw_relation_json (r : RelationConstraint) : json := JObj
  [ ("constraint_id", JStr (rc_constraint_id r)); ("kind", JStr (relation_kind_value (rc_kind r)));
    ("contract_ids", json_strings (rc_contract_ids r)); ("rule_version", JStr (rc_rule_version r)) ].

Definition raw_forbidden_json (f : ForbiddenAtomCombination) : json := JObj
  [ ("constraint_id", JStr (fb_constraint_id f)); ("atom_ids", json_strings (fb_atom_ids f));
    ("rule_version", JStr (fb_rule_version f)) ].

Definition raw_problem_json (p : ArbitrageProblem) : json := JObj
  [ ("schema_version", JStr (pb_schema_version p)); ("problem_id", JStr (pb_problem_id p));
    ("as_of", json_datetime (pb_as_of p)); ("valuation_unit_id", JStr (pb_valuation_unit_id p));
    ("actions", JArr (action_json <$> pb_actions p));
    ("terminal_state_sets", JArr (raw_state_set_json <$> pb_terminal_state_sets p));
    ("constraint_model", JObj
       [ ("relations", JArr (raw_relation_json <$> cm_relations (pb_constraint_model p)));
         ("forbidden_atom_combinations",
            JArr (raw_forbidden_json <$> cm_forbidden_atom_combinations (pb_constraint_model p))) ]);
    ("qualification_constraints", JArr (qualification_json <$> pb_qualification_constraints p)) ].

Definition fill_leg_json (leg : FillLeg) : json := JObj
  [ ("action_id", JStr (fl_action_id leg)); ("venue_id", JStr (fl_venue_id leg));
    ("quantity_lots", JInt (fl_quantity_lots leg)); ("order_type", JStr (fl_order_type leg));
    ("semantics", JStr (semantics_value (fl_semantics leg)));
    ("max_cost_units", JInt (fl_max_cost_units leg)); ("max_fee_units", JInt (fl_max_fee_units leg)) ].

(** Every field but the fingerprint. *)
Definition fill_problem_fields (fp : FillAdversaryProblem) : list (string * json) :=
  [ ("schema_version", JStr (fa_schema_version fp)); ("problem_kind", JStr (fa_problem_kind fp));
    ("execution_solution_fingerprint", JStr (fa_execution_solution_fingerprint fp));
    ("execution_solution_payload_fingerprint", JStr (fa_execution_solution_payload_fingerprint fp));
    ("model_fingerprint", JStr (fa_model_fingerprint fp));
    ("quote_fingerprint", JStr (fa_quote_fingerprint fp));
    ("cost_fingerprint", JStr (fa_cost_fingerprint fp));
    ("order_semantics_fingerprint", JStr (fa_order_semantics_fingerprint fp));
    ("order_semantics_version", JStr (fa_order_semantics_version fp));
    ("cap_config_version", JStr (fa_cap_config_version fp));
    ("max_partial_fill_loss", JInt (fa_max_partial_fill_loss fp));
    ("max_auto_repair_loss", JInt (fa_max_auto_repair_loss fp));
    ("legs", JArr (fill_leg_json <$> fa_legs fp));
    ("source_problem", raw_problem_json (fa_source_problem fp)) ].

Section problem.
Context `{Sha256}.

(** [_problem_fingerprint] *)
Definition problem_fingerprint (fp : FillAdversaryProblem) : res string :=
  require (forallb is_utc (problem_datetimes (fa_source_problem fp))) not_canonical;;
  Ok (fingerprint_json (JObj (fill_problem_fields fp))).

(** One turn of the loop over the legs; the state is the set [seen]. *)
Definition check_leg_binding (actions : gmap string CandidateAction) (seen : gset string) (leg : FillLeg)
  : res (gset string) :=
  require (bool_decide (fl_action_id leg ∉ seen)) (ValueError ("duplicate fill leg: " +:+ fl_action_id leg));;
  action ← of_option (ValueError ("fill leg references unknown action: " +:+ fl_action_id leg))
             (actions !! fl_action_id leg);
  require (fl_venue_id leg =? ca_venue_id action)%string
    (ValueError ("fill leg venue does not match action venue: " +:+ fl_action_id leg));;
  require (bool_decide (fl_semantics leg = order_semantics_lookup (fl_venue_id leg) (fl_order_type leg)))
    (ValueError ("fill leg semantics contradicts the versioned semantics table: " +:+ fl_action_id leg));;
  Ok (seen ∪ {[fl_action_id leg]}).

(** [FillAdversaryProblem.__post_init__] *)
Definition check_fill_problem (fp : FillAdversaryProblem) : res unit :=
  require (fa_schema_version fp =? FILL_ADVERSARY_SCHEMA_V1)%string (ValueError "unsupported fill-adversary schema");;
  require (fa_problem_kind fp =? FILL_ADVERSARY_PROBLEM_KIND)%string (ValueError "unexpected fill-adversary problem kind");;
  require (fa_order_semantics_version fp =? ORDER_SEMANTICS_SCHEMA_V1)%string
    (ValueError "unsupported order-semantics schema");;
  require (negb (Nat.eqb (length (fa_legs fp)) 0)) (ValueError "fill adversary requires at least one leg");;
  mapM (λ f, require (negb (f.2 =? "")%string) (ValueError (f.1 +:+ " must be a non-empty string")))
    [ ("execution_solution_fingerprint", fa_execution_solution_fingerprint fp);
      ("execution_solution_payload_fingerprint", fa_execution_solution_payload_fingerprint fp);
      ("model_fingerprint", fa_model_fingerprint fp); ("quote_fingerprint", fa_quote_fingerprint fp);
      ("cost_fingerprint", fa_cost_fingerprint fp);
      ("order_semantics_fingerprint", fa_order_semantics_fingerprint fp);
      ("cap_config_version", fa_cap_config_version fp) ];;
  mapM (λ f, require (0 <=? f.2) (ValueError (f.1 +:+ " must be a non-negative integer")))
    [ ("max_partial_fill_loss", fa_max_partial_fill_loss fp);
      ("max_auto_repair_loss", fa_max_auto_repair_loss fp) ];;
  foldM (check_leg_binding (index_by ca_action_id (pb_actions (fa_source_problem fp)))) ∅ (fa_legs fp);;
  expected ← problem_fingerprint fp;
  require (fa_fingerprint fp =? expected)%string (ValueError "fill-adversary problem fingerprint mismatch").

Definition set_fill_fingerprint (fp : FillAdversaryProblem) (s : string) : FillAdversaryProblem := {|
  fa_schema_version := fa_schema_version fp; fa_problem_kind := fa_problem_kind fp;
  fa_execution_solution_fingerprint := fa_execution_solution_fingerprint fp;
  fa_execution_solution_payload_fingerprint := fa_execution_solution_payload_fingerprint fp;
  fa_model_fingerprint := fa_model_fingerprint fp; fa_quote_fingerprint := fa_quote_fingerprint fp;
  fa_cost_fingerprint := fa_cost_fingerprint fp;
  fa_order_semantics_fingerprint := fa_order_semantics_fingerprint fp;
  fa_order_semantics_version := fa_order_semantics_version fp;
  fa_cap_config_version := fa_cap_config_version fp;
  fa_max_partial_fill_loss := fa_max_partial_fill_loss fp;
  fa_max_auto_repair_loss := fa_max_auto_repair_loss fp;
  fa_legs := fa_legs fp; fa_source_problem := fa_source_problem fp; fa_fingerprint := s |}.

Definition fill_adversary_problem (execution_solution_fingerprint execution_solution_payload_fingerprint
    model_fingerprint quote_fingerprint cost_fingerprint order_semantics_fingerprint cap_config_version : string)
    (max_partial_fill_loss max_auto_repair_loss : Z) (legs : list FillLeg) (source_problem : ArbitrageProblem)
  : res FillAdversaryProblem :=
  let fields := {|
    fa_schema_version := FILL_ADVERSARY_SCHEMA_V1; fa_problem_kind := FILL_ADVERSARY_PROBLEM_KIND;
    fa_execution_solution_fingerprint := execution_solution_fingerprint;
    fa_execution_solution_payload_fingerprint := execution_solution_payload_fingerprint;
    fa_model_fingerprint := model_fingerprint; fa_quote_fingerprint := quote_fingerprint;
    fa_cost_fingerprint := cost_fingerprint; fa_order_semantics_fingerprint := order_semantics_fingerprint;
    fa_order_semantics_version := ORDER_SEMANTICS_SCHEMA_V1; fa_cap_config_version := cap_config_version;
    fa_max_partial_fill_loss := max_partial_fill_loss; fa_max_auto_repair_loss := max_auto_repair_loss;
    fa_legs := legs; fa_source_problem := sorted_problem source_problem; fa_fingerprint := "" |} in
  own ← problem_fingerprint fields;
  let fp := set_fill_fingerprint fields own in
  check_fill_problem fp;;
  Ok fp.
End problem.

(** ** Compilation *)

Record CompiledFillAdversary := {
  cf_model : LinearModel;
  cf_legs : list FillLeg;
  cf_fill_variables : list (string * string);
}.

(** [_ceil_div] *)
Definition checked_ceil_div (numerator denominator : Z) : res Z :=
  require (0 <? denominator) (ValueError "ceil division requires an integer over a positive integer");;
  Ok (- ((- numerator) `div` denominator)).

Definition fill_name (action_id : string) : string := "fill:" +:+ action_id.
Definition selector_name (action_id : string) : string := "fill-b:" +:+ action_id.
Definition payout_name (action_id atom_id : string) : string := "fill-payout:" +:+ action_id +:+ ":" +:+ atom_id.

(** What one leg adds in the first loop: variables, rows, objective term. *)
Record FillBlock := { bk_variables : list IntVariable; bk_rows : list LinearConstraint; bk_terms : list term }.

Definition unit_loss (leg : FillLeg) : res Z :=
  unit_cost ← checked_ceil_div (fl_max_cost_units leg) (fl_quantity_lots leg);
  unit_fee ← checked_ceil_div (fl_max_fee_units leg) (fl_quantity_lots leg);
  Ok (unit_cost + unit_fee).

Definition fill_block (leg : FillLeg) : res FillBlock :=
  let i := fl_action_id leg in
  let fill := int_variable (fill_name i) 0 (fl_quantity_lots leg) in
  '(variables, rows) ←
    match fl_semantics leg with
    | SEMANTICS_UNKNOWN => Err (ValueError "cannot compile fill adversary with unknown order semantics")
    | ATOMIC =>
        Ok ([int_variable (selector_name i) 0 1; fill],
            [linear_constraint ("fill:atomic:" +:+ i)
               [(fill_name i, 1); (selector_name i, - fl_quantity_lots leg)] (Some 0) (Some 0)])
    | PARTIAL => Ok ([fill], [])
    end;
  u ← unit_loss leg;
  Ok {| bk_variables := variables; bk_rows := rows; bk_terms := [(fill_name i, u)] |}.

(** [next((payout... for payout in atom.payouts if payout.action_id == i), None)] *)
Definition atom_payout_for (t : TerminalAtom) (action_id : string) : option Z :=
  payout_lower_bound_per_lot_units <$> py_next (λ y, (ap_action_id y =? action_id)%string) (ta_payouts t).

(** What one leg and one atom of its contract add in the second loop. *)
Definition payout_block (leg : FillLeg) (t : TerminalAtom) : res FillBlock :=
  let i := fl_action_id leg in
  let a := ta_atom_id t in
  let q := fl_quantity_lots leg in
  payout ← of_option (ValueError ("leg " +:+ i +:+ " has no payout in atom " +:+ a)) (atom_payout_for t i);
  let y := payout_name i a in
  let row := "payout:" +:+ i +:+ ":" +:+ a in
  Ok {| bk_variables := [int_variable y 0 q];
        bk_rows := [ linear_constraint (row +:+ ":upper-fill") [(y, 1); (fill_name i, -1)] None (Some 0);
                     linear_constraint (row +:+ ":upper-atom") [(y, 1); (z a, - q)] None (Some 0);
                     linear_constraint (row +:+ ":lower") [(y, 1); (fill_name i, -1); (z a, - q)] (Some (- q)) None ];
        bk_terms := if 0 <? payout then [(y, - payout)] else [] |}.

Definition leg_payout_blocks (p : ArbitrageProblem) (leg : FillLeg) : res (list FillBlock) :=
  contract_id ← of_option (KeyError (fl_action_id leg))
    (py_dict ((λ a, (ca_action_id a, ca_market_contract_id a)) <$> pb_actions p) !! fl_action_id leg);
  atoms ← of_option (KeyError contract_id)
    (py_dict ((λ s, (ts_market_contract_id s, ts_atoms s)) <$> pb_terminal_state_sets p) !! contract_id);
  mapM (payout_block leg) atoms.

Definition compile_fill_adversary (fp : FillAdversaryProblem) : res CompiledFillAdversary :=
  let p := fa_source_problem fp in
  terminal ← compile_terminal_model p;
  fills ← mapM fill_block (fa_legs fp);
  payouts ← mapM (leg_payout_blocks p) (fa_legs fp);
  let blocks := fills ++ mjoin payouts in
  let model := linear_model (lm_variables terminal ++ (blocks ≫= bk_variables))
                 (lm_constraints terminal ++ (blocks ≫= bk_rows))
                 (Some (linear_objective MAX (blocks ≫= bk_terms))) in
  validate_linear_model model;;
  Ok {| cf_model := model; cf_legs := fa_legs fp;
        cf_fill_variables := (λ leg, (fl_action_id leg, fill_name (fl_action_id leg))) <$> fa_legs fp |}.

(** ** Loss of one outcome, without a solver *)

Definition leg_loss (p : ArbitrageProblem) (fills : gmap string Z) (scenario_atoms : gmap string string)
    (total : Z) (leg : FillLeg) : res Z :=
  let filled := default 0 (fills !! fl_action_id leg) in
  if filled =? 0 then Ok total
  else
    require ((0 <? filled) && (filled <=? fl_quantity_lots leg))
      (ValueError ("invalid fill quantity for " +:+ fl_action_id leg));;
    action ← of_option (ValueError ("unknown action in counterexample: " +:+ fl_action_id leg))
               (index_by ca_action_id (pb_actions p) !! fl_action_id leg);
    atom ← of_option (ValueError "scenario is missing the atom for a filled leg")
      (index_by ts_market_contract_id (pb_terminal_state_sets p) !! ca_market_contract_id action ≫= λ s,
         index_by ta_atom_id (ts_atoms s) !! default "" (scenario_atoms !! ca_market_contract_id action));
    payout ← of_option (ValueError ("atom " +:+ ta_atom_id atom +:+ " has no payout for " +:+ fl_action_id leg))
               (atom_payout_for atom (fl_action_id leg));
    u ← unit_loss leg;
    Ok (total + (filled * u - filled * payout)).

Definition counterexample_loss_units (fp : FillAdversaryProblem) (fill_quantities : list ActionQuantity)
    (sc : SettlementScenario) : res Z :=
  let fills := py_dict ((λ q, (aq_action_id q, aq_quantity_lots q)) <$> fill_quantities) in
  let scenario_atoms := py_dict ((λ a, (sa_market_contract_id a, sa_atom_id a)) <$> sc_atoms sc) in
  require (Nat.eqb (size scenario_atoms) (length (sc_atoms sc)))
    (ValueError "scenario selects a contract more than once");;
  foldM (leg_loss (fa_source_problem fp) fills scenario_atoms) 0 (fa_legs fp).

(** ** The bounded oracle *)

Record FillAdversaryOracleResult := {
  fo_closed : bool;
  fo_unknown_reason : option string;
  fo_worst_loss_units : option Z;
  fo_worst_fill_quantities : option (list ActionQuantity);
  fo_worst_scenario : option SettlementScenario;
}.

Definition open_fill_result (reason : string) : FillAdversaryOracleResult := {|
  fo_closed := false; fo_unknown_reason := Some reason; fo_worst_loss_units := None;
  fo_worst_fill_quantities := None; fo_worst_scenario := None |}.

(** [(0, q)] or [range(0, q + 1)] *)
Definition fill_domain (leg : FillLeg) : list Z :=
  match fl_semantics leg with
  | ATOMIC => [0; fl_quantity_lots leg]
  | _ => Z.of_nat <$> seq 0 (Z.to_nat (fl_quantity_lots leg + 1))
  end.

(** The loop that builds the domains, with its early return. *)
Fixpoint fill_domains (budget vector_count : Z) (legs : list FillLeg) : option (list (list Z)) :=
  match legs with
  | [] => Some []
  | leg :: legs =>
      let count := vector_count * Z.of_nat (length (fill_domain leg)) in
      if budget <? count then None
      else cons (fill_domain leg) <$> fill_domains budget count legs
  end.

Definition fill_best := (Z * list ActionQuantity * option SettlementScenario)%type.

Definition fill_step (fp : FillAdversaryProblem) (fill_quantities : list ActionQuantity)
    (best : fill_best) (sc : SettlementScenario) : res fill_best :=
  loss ← counterexample_loss_units fp fill_quantities sc;
  Ok (if best.1.1 <? loss then (loss, fill_quantities, Some sc) else best).

Definition zip_fills (legs : list FillLeg) (fills : list Z) : list ActionQuantity :=
  zip_with (λ leg filled, AQ (fl_action_id leg) filled) legs fills.

Definition enumerate_fill_adversary (fp : FillAdversaryProblem) (budget : OracleBudget)
  : res FillAdversaryOracleResult :=
  if existsb (λ leg, bool_decide (fl_semantics leg = SEMANTICS_UNKNOWN)) (fa_legs fp)
  then Ok (open_fill_result "UNKNOWN_ORDER_SEMANTICS")
  else
    enumeration ← enumerate_allowed_scenarios (fa_source_problem fp) budget;
    match se_scenarios enumeration with
    | None =>
        Ok (open_fill_result (from_option unknown_reason_value "SCENARIO_ENUMERATION_FAILED"
                                (se_unknown_reason enumeration)))
    | Some scenarios =>
        match fill_domains (bg_max_quantity_vectors budget) 1 (fa_legs fp) with
        | None => Ok (open_fill_result "ORACLE_FILL_VECTOR_LIMIT_EXCEEDED")
        | Some domains =>
            '(best, best_fills, best_scenario) ←
              foldM (λ best fills, foldM (fill_step fp (zip_fills (fa_legs fp) fills)) best scenarios)
                (0, [], None) (product domains);
            Ok {| fo_closed := true; fo_unknown_reason := None; fo_worst_loss_units := Some best;
                  fo_worst_fill_quantities := Some best_fills; fo_worst_scenario := best_scenario |}
        end
    end.
