(* ===== verification/NLegFormsCorrect.v ===== *)
(** * Laws of the normal forms

    Sorting is idempotent and changes neither what is valid nor the canonical
    payload; the legacy-unit normalization is idempotent and multiplies every
    cost, payout and profit threshold by the same factor. *)

From S2P Require Import Prelude PyValue NLeg NLegForms NLegValidate NLegWf Oracle OracleScenario OracleEval PartialFill.
Local Open Scope Z_scope.

(** ** The sorted form *)

Section sorting.
Context {A : Type} (key : A → string).

Lemma sort_on_id l : StronglySorted (λ x y, String.leb (key x) (key y) = true) l → sort_on key l = l.
Proof.
  induction 1 as [|x l Hl IH Hx]; [done|]. unfold sort_on, sort in *. simpl. rewrite IH.
  destruct Hx as [|y l Hy Hx]; simpl; [done|]. by rewrite Hy.
Qed.

Lemma sort_on_idemp l : sort_on key (sort_on key l) = sort_on key l.
Proof. apply sort_on_id, sort_on_sorted. Qed.

Lemma insert_sorted_fmap (f : A → A) x l : (∀ x, key (f x) = key x) →
  f <$> insert_sorted (λ x y, String.leb (key x) (key y)) x l = insert_sorted (λ x y, String.leb (key x) (key y)) (f x) (f <$> l).
Proof.
  intros Hk. induction l as [|y l IH]; csimpl; [done|]. rewrite !Hk. destruct (String.leb _ _); csimpl; [done|]. by rewrite IH.
Qed.

(** Sorting commutes with a map that keeps the key. *)
Lemma sort_on_fmap (f : A → A) l : (∀ x, key (f x) = key x) → f <$> sort_on key l = sort_on key (f <$> l).
Proof.
  intros Hk. induction l as [|x l IH]; [done|]. unfold sort_on, sort in *. csimpl. by rewrite insert_sorted_fmap, IH.
Qed.

Lemma sort_map_idemp (f : A → A) l : (∀ x, key (f x) = key x) → (∀ x, f (f x) = f x) →
  sort_on key (f <$> sort_on key (f <$> l)) = sort_on key (f <$> l).
Proof.
  intros Hk Hf. rewrite sort_on_fmap by done. rewrite <- list_fmap_compose.
  rewrite (list_fmap_ext (f ∘ f) f l) by (intros; simpl; auto). apply sort_on_idemp.
Qed.
End sorting.

Lemma sorted_atom_idemp t : sorted_atom (sorted_atom t) = sorted_atom t.
Proof. unfold sorted_atom, set_atom_payouts. simpl. by rewrite sort_on_idemp. Qed.

Lemma sorted_state_set_idemp s : sorted_state_set (sorted_state_set s) = sorted_state_set s.
Proof.
  unfold sorted_state_set, set_state_atoms. simpl. f_equal. apply sort_map_idemp; [done|apply sorted_atom_idemp].
Qed.

Lemma sorted_relation_idemp r : sorted_relation (sorted_relation r) = sorted_relation r.
Proof.
  unfold sorted_relation. destruct (decide (rc_kind r = IMPLIES)) as [E|E].
  all: unfold set_relation_contracts; simpl; repeat case_decide; try done. f_equal. apply sort_on_idemp.
Qed.

Lemma sorted_forbidden_idemp f : sorted_forbidden (sorted_forbidden f) = sorted_forbidden f.
Proof. unfold sorted_forbidden, set_forbidden_atoms. simpl. f_equal. apply sort_on_idemp. Qed.

Lemma sorted_problem_idemp p : sorted_problem (sorted_problem p) = sorted_problem p.
Proof.
  unfold sorted_problem. simpl. f_equal.
  - apply sort_on_idemp.
  - apply sort_map_idemp; [done|apply sorted_state_set_idemp].
  - f_equal; (apply sort_map_idemp; [|apply sorted_relation_idemp || apply sorted_forbidden_idemp]); [|done].
    intros r. unfold sorted_relation. by case_decide.
  - apply sort_on_idemp.
Qed.

(** ** Canonical payloads *)

Lemma raw_sorted_state s : raw_state_set_json (sorted_state_set s) = state_set_json s.
Proof.
  unfold raw_state_set_json, state_set_json, sorted_state_set. simpl.
  rewrite <- (sort_on_fmap ta_atom_id sorted_atom) by done. by rewrite <- list_fmap_compose.
Qed.

Lemma raw_sorted_relation r : raw_relation_json (sorted_relation r) = relation_json r.
Proof. done. Qed.

(** The canonical payload of a problem is the plain dump of its sorted form. *)
Lemma problem_json_sorted p : problem_json p = raw_problem_json (sorted_problem p).
Proof.
  unfold problem_json, raw_problem_json, constraint_model_json, sorted_problem. simpl.
  rewrite <- (sort_on_fmap ts_market_contract_id sorted_state_set),
    <- (sort_on_fmap rc_constraint_id sorted_relation), <- (sort_on_fmap fb_constraint_id sorted_forbidden), <- !list_fmap_compose
    by done.
  rewrite (list_fmap_ext (raw_state_set_json ∘ sorted_state_set) state_set_json _ (λ _ s _, raw_sorted_state s)). done.
Qed.

(** Sorting twice prints the same payload. *)
Lemma problem_json_sorted_idemp p : problem_json (sorted_problem p) = problem_json p.
Proof. by rewrite !problem_json_sorted, sorted_problem_idemp. Qed.

Lemma Forall_is_utc_perm (l k : list datetime) : l ≡ₚ k → forallb is_utc l = forallb is_utc k.
Proof.
  induction 1; simpl; [done|congruence| |congruence]. destruct (is_utc x), (is_utc y); done.
Qed.

Lemma bind_perm {A B} (f : A → list B) (l k : list A) : l ≡ₚ k → (l ≫= f) ≡ₚ (k ≫= f).
Proof. intros Hp. by rewrite Hp. Qed.

Lemma bind_fmap_compose {A B C} (f : A → B) (g : B → list C) (l : list A) : (f <$> l) ≫= g = l ≫= g ∘ f.
Proof. induction l as [|x l IH]; csimpl; [done|]. by rewrite IH. Qed.

Lemma problem_datetimes_sorted p : problem_datetimes (sorted_problem p) ≡ₚ problem_datetimes p.
Proof.
  unfold problem_datetimes, sorted_problem. simpl. constructor. apply Permutation_app.
  - apply bind_perm, sort_on_perm.
  - rewrite (bind_perm _ _ _ (sort_on_perm ts_market_contract_id _)), bind_fmap_compose.
    induction (pb_terminal_state_sets p) as [|s l IH]; csimpl; [done|]. do 2 constructor. apply Permutation_app; [|done].
    rewrite sort_on_perm. clear. induction (ts_atoms s) as [|t ts IH]; csimpl; [done|].
    destruct (ta_capital_release_at t); [by constructor|done].
Qed.

(** The fingerprint identifies a problem up to the order of its parts. *)
Lemma fingerprint_problem_sorted `{Sha256} p : fingerprint_problem (sorted_problem p) = fingerprint_problem p.
Proof.
  unfold fingerprint_problem. by rewrite (Forall_is_utc_perm _ _ (problem_datetimes_sorted p)), problem_json_sorted_idemp.
Qed.

(** ** Legacy units *)

Lemma normalize_legacy_payout_value y y' :
  normalize_legacy_payout y = Ok y' →
  ap_action_id y' = ap_action_id y ∧
  payout_lower_bound_per_lot_units y' = payout_lower_bound_per_lot_units y * USD_UNITS_PER_DOLLAR ∧
  (payout_lower_bound_per_lot_units y = 0 ∨ payout_lower_bound_per_lot_units y = 1).
Proof.
  intros (v & Hv & [= <-])%bind_Ok. simpl.
  destruct (_ =? 0) eqn:E0; [|destruct (_ =? 1) eqn:E1]; bool_prop; simplify_eq; rewrite ?E0, ?E1; split_and!; auto.
Qed.

Lemma normalize_legacy_atom_payout t t' i :
  normalize_legacy_atom t = Ok t' →
  payout_lower_bound_per_lot_units <$> py_next (λ y, (ap_action_id y =? i)%string) (ta_payouts t')
  = (λ y, payout_lower_bound_per_lot_units y * USD_UNITS_PER_DOLLAR) <$> py_next (λ y, (ap_action_id y =? i)%string) (ta_payouts t).
Proof.
  intros (ys & Hys%mapM_Ok & [= <-])%bind_Ok. simpl.
  induction Hys as [|y y' l l' (Ei & Ev & _)%normalize_legacy_payout_value _ IH]; [done|].
  unfold py_next in *. simpl. rewrite Ei. destruct (ap_action_id y =? i)%string; simpl; [by rewrite Ev|done].
Qed.

Lemma normalize_problem_legacy p p' :
  normalize_problem p = Ok p' → pb_valuation_unit_id p ≠ MICRO_VALUATION_UNIT →
  pb_actions p' = normalize_legacy_action <$> pb_actions p ∧ pb_valuation_unit_id p' = MICRO_VALUATION_UNIT ∧
  is_legacy_unit (pb_valuation_unit_id p) = true.
Proof.
  unfold normalize_problem. intros Hn Hu. rewrite (proj2 (String.eqb_neq _ _) Hu) in Hn.
  destruct (is_legacy_unit _); [|done]. simpl in Hn. apply bind_Ok in Hn as (sts & _ & [= <-]). done.
Qed.

Lemma index_by_fmap {A} (key : A → string) (f : A → A) l i :
  (∀ a, key (f a) = key a) → index_by key (f <$> l) !! i = f <$> (index_by key l !! i).
Proof.
  intros Hk. unfold index_by, py_dict. rewrite <- list_fmap_compose.
  enough (∀ m m' : gmap string A, m' = f <$> m →
    foldl (λ (m : gmap string A) q, <[q.1 := q.2]> m) m' (((λ x, (key x, x)) ∘ f) <$> l)
    = f <$> foldl (λ (m : gmap string A) q, <[q.1 := q.2]> m) m ((λ x, (key x, x)) <$> l)) as Hg.
  { rewrite (Hg ∅ ∅); [by rewrite lookup_fmap|by rewrite fmap_empty]. }
  induction l as [|a l IH]; intros m m' E; csimpl; [done|]. apply IH. by rewrite E, Hk, fmap_insert.
Qed.

Lemma lot_cost_scaled slices lot :
  lot_cost (scale_cost_slice <$> slices) lot = lot_cost slices lot * USD_UNITS_PER_DOLLAR.
Proof.
  unfold lot_cost, py_next. induction slices as [|c l IH]; csimpl; [done|].
  destruct (_ && _); [done|exact IH].
Qed.

Lemma sumZ_scaled {A} (f g : A → Z) k l : (∀ x, x ∈ l → g x = f x * k) → sumZ (g <$> l) = sumZ (f <$> l) * k.
Proof.
  induction l as [|x l IH]; intros Hx; csimpl; [done|]. rewrite Hx by set_solver. rewrite IH; [lia|]. set_solver.
Qed.

(** Costs of a normalized problem are the legacy costs in micro-dollars. *)
Lemma normalize_cost p p' qs :
  normalize_problem p = Ok p' → pb_valuation_unit_id p ≠ MICRO_VALUATION_UNIT →
  portfolio_cost p' qs = portfolio_cost p qs * USD_UNITS_PER_DOLLAR.
Proof.
  intros Hn Hu. destruct (normalize_problem_legacy p p' Hn Hu) as (E & _ & _). apply sumZ_scaled. intros q _.
  rewrite E, index_by_fmap by done. destruct (index_by ca_action_id (pb_actions p) !! aq_action_id q) as [a|]; simpl; [|done].
  apply sumZ_scaled. intros lot _. apply lot_cost_scaled.
Qed.

(** So are payouts, outcome by outcome. *)
Lemma normalize_payout p p' ω ω' qs :
  normalize_problem p = Ok p' → pb_valuation_unit_id p ≠ MICRO_VALUATION_UNIT →
  (∀ a, a ∈ pb_actions p → normalize_legacy_atom (ω (ca_market_contract_id a)) = Ok (ω' (ca_market_contract_id a))) →
  realized_payout p' ω' qs = realized_payout p ω qs * USD_UNITS_PER_DOLLAR.
Proof.
  intros Hn Hu Hω. destruct (normalize_problem_legacy p p' Hn Hu) as (E & _ & _). apply sumZ_scaled. intros q _.
  unfold payout_of. rewrite E, index_by_fmap by done.
  destruct (index_by ca_action_id (pb_actions p) !! aq_action_id q) as [a|] eqn:Ea; simpl; [|done].
  apply index_by_elem in Ea as [Ha _]. pose proof (normalize_legacy_atom_payout _ _ (aq_action_id q) (Hω a Ha)) as Ey.
  destruct (py_next _ (ta_payouts (ω' _))), (py_next _ (ta_payouts (ω _))); try discriminate Ey; [|done].
  injection Ey as Ey. lia.
Qed.

Lemma normalize_idempotent p p' : normalize_problem p = Ok p' → normalize_problem p' = Ok p'.
Proof.
  intros Hn. destruct (decide (pb_valuation_unit_id p = MICRO_VALUATION_UNIT)) as [E|E].
  - unfold normalize_problem in Hn. rewrite E, String.eqb_refl in Hn. injection Hn as <-.
    unfold normalize_problem. by rewrite E, String.eqb_refl.
  - destruct (normalize_problem_legacy p p' Hn E) as (_ & Eu & _). unfold normalize_problem. by rewrite Eu, String.eqb_refl.
Qed.
