(* ===== verification/DecodeCorrect.v ===== *)
(** * Decoding inverts the canonical payload

    On a well-formed problem whose datetimes are representable the decoders
    read the canonical payload back as the sorted form of the problem, which
    is well formed again.  On other fields they accept exactly what is well
    formed, or well formed once unknown data is filled in. *)

From Stdlib Require Import Ascii.
From S2P Require Import Prelude PyValue NLeg NLegForms NLegValidate NLegWf NLegFormsCorrect IsoFormat IsoFormatCorrect Decode.
Local Open Scope Z_scope.

(** ** Values *)

Lemma object_of_keys fields name required :
  same_keys fields.*1 required = true → object_of (JObj fields) name required = Ok fields.
Proof. unfold object_of. by intros ->. Qed.

Lemma string_of_usable s name : usable s → string_of (JStr s) name = Ok s.
Proof. unfold usable, string_of. by intros ->. Qed.

Lemma integer_of_int64 z name : int64 z → integer_of (JInt z) name = Ok z.
Proof. unfold integer_of. intros H. by rewrite (proj2 (in_int64_spec z) H). Qed.

Lemma char_at_last s c : char_at (s +:+ String c EmptyString) (String.length s) = Some c.
Proof. unfold char_at. induction s as [|x s IH]; [done|]. simpl. exact IH. Qed.

Lemma datetime_of_json d name : valid_datetime d → datetime_of (json_datetime d) name = Ok d.
Proof.
  intros Hd. destruct (isoformat_text d Hd) as (text & E & Hp). unfold json_datetime, datetime_of. rewrite E.
  rewrite string_of_usable by (unfold usable; rewrite is_blank_app; by rewrite andb_false_r). simpl.
  assert (Hl : String.length (text +:+ "Z") = S (String.length text)) by (rewrite length_append; simpl; lia).
  unfold ends_with_z, without_last. rewrite Hl. rewrite char_at_last. simpl.
  rewrite Nat.sub_0_r, slice_prefix, Hp by done. simpl.
  destruct Hd as [Ho _]. unfold is_utc. by rewrite Ho.
Qed.

Lemma optional_datetime_json d name :
  valid_datetime d → optional_of (λ p, datetime_of p name) (json_datetime d) = Ok (Some d).
Proof. intros Hd. apply bind_Ok. exists d. split; [by apply datetime_of_json|done]. Qed.

Lemma array_with_Ok {A B} (decode : json → res B) (encode : A → json) (f : A → B) l fields k :
  get fields k = JArr (encode <$> l) → (∀ x, x ∈ l → decode (encode x) = Ok (f x)) →
  array_with decode fields k = Ok (f <$> l).
Proof.
  unfold array_with. intros -> H. apply bind_Ok. exists (encode <$> l). split; [done|].
  apply mapM_Ok, Forall2_fmap_2, Forall_Forall2_diag, Forall_forall. exact H.
Qed.

Lemma strings_with_Ok l fields k :
  get fields k = json_strings l → Forall usable l → strings_with fields k = Ok l.
Proof.
  intros Hg Hl. rewrite Forall_forall in Hl. unfold strings_with. rewrite (array_with_Ok _ JStr id _ _ _ Hg).
  - by rewrite list_fmap_id.
  - intros s Hs. apply string_of_usable. auto.
Qed.

Lemma side_of_json s n : side_of (JStr (side_value s)) n = Ok s.
Proof. by destruct s. Qed.
Lemma terminal_kind_of_json s n : terminal_kind_of (JStr (terminal_kind_value s)) n = Ok s.
Proof. by destruct s. Qed.
Lemma relation_kind_of_json s n : relation_kind_of (JStr (relation_kind_value s)) n = Ok s.
Proof. by destruct s. Qed.
Lemma metric_of_json s n : metric_of (JStr (metric_value s)) n = Ok s.
Proof. by destruct s. Qed.
Lemma comparison_of_json s n : comparison_of (JStr (comparison_value s)) n = Ok s.
Proof. by destruct s. Qed.
Lemma mode_of_json s n : mode_of (JStr (mode_value s)) n = Ok s.
Proof. by destruct s. Qed.

Lemma text_of_json s n : text_of (JStr s) n = Ok s.
Proof. done. Qed.

Create HintDb decode.
#[export] Hint Resolve side_of_json terminal_kind_of_json relation_kind_of_json metric_of_json comparison_of_json
  mode_of_json text_of_json string_of_usable integer_of_int64 datetime_of_json : decode.

Lemma bind_step {A B} (m : res A) (f : A → res B) a r : m = Ok a → f a = r → m ≫= f = r.
Proof. by intros ->. Qed.

Lemma require_true b e : b = true → require b e = Ok tt.
Proof. by intros ->. Qed.
#[export] Hint Resolve require_true : decode.

Lemma usable_name s t : s = t → is_blank t = false → usable s.
Proof. by intros ->. Qed.

(** [open_object]: a decoder applied to a payload with the right keys. *)
Ltac open_object := eapply bind_step; [apply object_of_keys; reflexivity|]; cbv beta.

(** [field_value]: the value the first decoder of the goal reads. *)
Ltac field_value :=
  match goal with
  | |- context [get ?v ?k] => let x := eval lazy [get fst snd String.eqb Ascii.eqb Bool.eqb] in (get v k) in change (get v k) with x
  end.

(** [field_is H]: one field, read as [H] says; [decode_fields]: every field
    whose facts are in the context. *)
Ltac field_is H := eapply bind_step; [try field_value; solve [apply H; eauto with decode]|]; cbv beta.
Ltac decode_fields := repeat (eapply bind_step; [try field_value; solve [eauto with decode nocore]|]; cbv beta).

(** ** Components of a problem *)

Definition valid_key (k : SettlementObservationKey) : Prop := Forall valid_datetime (key_datetimes k).

Lemma observation_decode k : wf_key k → valid_key k → observation_from_payload (observation_key_json k) = Ok k.
Proof.
  intros (Es & ?&?&?&?) [? [? _]%Forall_cons]%Forall_cons. unfold observation_from_payload, observation_key_json. open_object.
  pose proof (usable_name _ _ Es eq_refl). apply String.eqb_eq in Es. decode_fields. by destruct k.
Qed.

Lemma cost_slice_decode c : slice_int64 c → cost_slice_from_payload (cost_slice_json c) = Ok c.
Proof.
  intros (?&?&?&_). unfold cost_slice_from_payload, cost_slice_json. open_object. decode_fields. by destruct c.
Qed.

Lemma payout_decode y : usable (ap_action_id y) → int64 (payout_lower_bound_per_lot_units y) →
  payout_from_payload (payout_json y) = Ok y.
Proof. intros. unfold payout_from_payload, payout_json. open_object. decode_fields. by destruct y. Qed.

#[export] Hint Resolve observation_decode : decode.

Lemma action_decode p a : wf_action p a → usable (pb_valuation_unit_id p) → valid_key (ca_settlement_observation_key a) →
  action_from_payload (action_json a) = Ok a.
Proof.
  intros [?? Hn Hunit [? _] [? _] _ [? ?] _ ??? Hs _] Hu Hk. rewrite <- Hunit in Hu. rewrite !Forall_cons in Hn.
  destruct Hn as (?&?&?&?&?&_).
  unfold action_from_payload, action_json. open_object. decode_fields.
  eapply bind_step; [apply (array_with_Ok _ cost_slice_json id); [reflexivity|]|].
  - rewrite Forall_forall in Hs. intros c Hc. by apply cost_slice_decode, Hs.
  - rewrite list_fmap_id. by destruct a.
Qed.

Lemma elem_of_contracts_action p s i :
  Forall (wf_action p) (pb_actions p) → i ∈ ca_action_id <$> actions_of p (ts_market_contract_id s) → usable i.
Proof.
  intros Ha (a & -> & Hin)%list_elem_of_fmap. apply elem_of_actions_of in Hin as [_ Hin].
  rewrite Forall_forall in Ha. by apply Ha.
Qed.

Lemma atom_decode p s t : Forall (wf_action p) (pb_actions p) → wf_atom p s t →
  (∀ d, ta_capital_release_at t = Some d → valid_datetime d) →
  atom_from_payload (atom_json t) = Ok (sorted_atom t).
Proof.
  intros Ha [? Hr (d & Ed & _) Hy _ Hi] Hd. apply Hd in Ed as Hv. clear Hd.
  unfold atom_from_payload, atom_json. cbv zeta.
  eapply bind_step; [apply require_true; reflexivity|]. cbv beta. decode_fields. rewrite Hr, Ed.
  eapply bind_step; [reflexivity|]; cbv beta.
  eapply bind_step; [apply (array_with_Ok _ payout_json id); [reflexivity|]|].
  - rewrite Forall_forall in Hy. intros y Hin%elem_of_sort_on. apply payout_decode; [|by apply Hy].
    eapply elem_of_contracts_action; [done|]. apply Hi, list_elem_of_fmap. eauto.
  - rewrite list_fmap_id. eapply bind_step; [by apply (optional_datetime_json d)|].
    unfold sorted_atom, set_atom_payouts. by rewrite Hr, Ed.
Qed.

Lemma state_set_decode p s : Forall (wf_action p) (pb_actions p) → wf_state p s →
  Forall valid_datetime (key_datetimes (ts_settlement_observation_key s) ++ omap ta_capital_release_at (ts_atoms s)) →
  state_set_from_payload (state_set_json s) = Ok (sorted_state_set s).
Proof.
  intros Ha [?? Hk ? _ _ Hat] [Hkd Hd]%Forall_app. change (valid_key (ts_settlement_observation_key s)) in Hkd.
  unfold state_set_from_payload, state_set_json. open_object. decode_fields.
  eapply bind_step; [apply (array_with_Ok _ atom_json sorted_atom); [reflexivity|]|].
  - rewrite Forall_forall in Hat. intros t Ht%elem_of_sort_on. apply (atom_decode p s); [done|by apply Hat|].
    intros d E. rewrite Forall_forall in Hd. apply Hd, list_elem_of_omap. eauto.
  - unfold sorted_state_set. by rewrite sort_on_fmap.
Qed.

Lemma relation_decode p r : Forall (wf_state p) (pb_terminal_state_sets p) → wf_relation p r →
  relation_from_payload (relation_json r) = Ok (sorted_relation r).
Proof.
  intros Hs [?? _ Hc _]. unfold relation_from_payload, relation_json. open_object. decode_fields.
  eapply bind_step; [apply strings_with_Ok; [reflexivity|]|].
  - assert (Hu : Forall usable (rc_contract_ids r)).
    { eapply Forall_impl; [exact Hc|]. intros i (s & Hin & <-)%elem_of_contracts. rewrite Forall_forall in Hs. by apply Hs. }
    case_decide; [done|]. by apply Forall_sort.
  - decode_fields. done.
Qed.

Lemma forbidden_decode p f : Forall (wf_state p) (pb_terminal_state_sets p) → wf_forbidden p f →
  forbidden_from_payload (forbidden_json f) = Ok (sorted_forbidden f).
Proof.
  intros Hs [?? Ha]. unfold forbidden_from_payload, forbidden_json. open_object. decode_fields.
  eapply bind_step; [apply strings_with_Ok; [reflexivity|]|].
  - apply Forall_sort. eapply Forall_impl; [exact Ha|]. apply (usable_state_atoms p Hs).
  - decode_fields. done.
Qed.

Lemma qualification_decode q : wf_qualification q → qualification_from_payload (qualification_json q) = Ok q.
Proof.
  intros [?? Hn Hd]. assert (int64 (qc_threshold_denominator q)) by (unfold int64, INT64_MIN in *; lia).
  unfold qualification_from_payload, qualification_json. open_object. decode_fields. by destruct q.
Qed.

(** ** The sorted form of a well-formed problem is well formed *)

Lemma observation_key_eqb_sym j k : observation_key_eqb j k = observation_key_eqb k j.
Proof.
  assert (Hd : ∀ d e, datetime_eqb d e = datetime_eqb e d).
  { intros d e. unfold datetime_eqb. destruct (dt_offset d), (dt_offset e); try done; by rewrite Z.eqb_sym. }
  unfold observation_key_eqb. by repeat (f_equal; [|first [apply Hd | apply String.eqb_sym]]); apply String.eqb_sym.
Qed.

Section sorted.
Context (p : ArbitrageProblem).
Abbreviation q := (sorted_problem p).

Lemma sorted_actions a : a ∈ pb_actions q ↔ a ∈ pb_actions p.
Proof. apply elem_of_sort_on. Qed.

Lemma sorted_states s : s ∈ pb_terminal_state_sets q ↔ ∃ t, s = sorted_state_set t ∧ t ∈ pb_terminal_state_sets p.
Proof. simpl. by rewrite elem_of_sort_on, list_elem_of_fmap. Qed.

Lemma sorted_actions_of c : actions_of q c ≡ₚ actions_of p c.
Proof. unfold actions_of. simpl. by rewrite sort_on_perm. Qed.

Lemma sorted_contracts : contracts q ≡ₚ contracts p.
Proof. unfold contracts. simpl. by rewrite sort_on_perm, <- list_fmap_compose. Qed.

Lemma sorted_state_ids s : ta_atom_id <$> ts_atoms (sorted_state_set s) ≡ₚ ta_atom_id <$> ts_atoms s.
Proof. simpl. by rewrite sort_on_perm, <- list_fmap_compose. Qed.

Lemma sorted_atom_ids : atom_ids q ≡ₚ atom_ids p.
Proof.
  unfold atom_ids. simpl. rewrite (bind_perm _ _ _ (sort_on_perm ts_market_contract_id _)), bind_fmap_compose.
  induction (pb_terminal_state_sets p) as [|s l IH]; csimpl; [done|]. apply Permutation_app; [apply sorted_state_ids|done].
Qed.

Lemma sorted_native_kinds s : native_kinds (sorted_state_set s) = native_kinds s.
Proof.
  assert (E : ta_kind <$> ts_atoms (sorted_state_set s) ≡ₚ ta_kind <$> ts_atoms s)
    by (simpl; by rewrite sort_on_perm, <- list_fmap_compose).
  unfold native_kinds. rewrite (Permutation_length E). f_equal; [f_equal; [f_equal|]|]; apply bool_decide_ext; by rewrite E.
Qed.

Lemma sorted_wf_action a : wf_action p a → wf_action q a.
Proof. by intros []; constructor. Qed.

Lemma sorted_wf_atom s t : wf_atom p s t → wf_atom q (sorted_state_set s) (sorted_atom t).
Proof.
  intros [?? Hd Hy Hnd Hi]. constructor; [done|done|done| | |]; simpl.
  - by apply Forall_sort.
  - by rewrite sort_on_perm.
  - intros i. by rewrite sort_on_perm, sorted_actions_of, Hi.
Qed.

Lemma sorted_wf_state s : wf_state p s → wf_state q (sorted_state_set s).
Proof.
  intros [? Ha ?? Hne Hk Hat]. constructor; [done| |done|done| | |]; simpl.
  - intros E. apply Ha, Permutation_nil_r. by rewrite <- (sorted_actions_of (ts_market_contract_id s)), E.
  - intros E. apply Hne. apply (f_equal length) in E. unfold sort_on in E. rewrite length_sort, length_fmap in E.
    by apply nil_length_inv.
  - intros a. rewrite sorted_actions_of. apply Hk.
  - apply Forall_sort, Forall_fmap. eapply Forall_impl; [exact Hat|]. apply sorted_wf_atom.
Qed.

Lemma sorted_native c1 c2 : wf_native p c1 c2 → wf_native q c1 c2.
Proof.
  intros (Hne & (a1 & a2 & E1 & E2 & Hs) & (s1 & s2 & H1 & H2 & <- & <- & Ho & K1 & K2)). split_and!; [done| |].
  - exists a1, a2. split_and!; [| |done]; apply Permutation_singleton_r; by rewrite sorted_actions_of, ?E1, ?E2.
  - exists (sorted_state_set s1), (sorted_state_set s2). rewrite !sorted_native_kinds, !sorted_states. split_and!; eauto.
Qed.

Lemma wf_native_sym c1 c2 : wf_native p c1 c2 → wf_native p c2 c1.
Proof.
  intros (Hne & (a1 & a2 & ? & ? & Hs) & (s1 & s2 & ? & ? & <- & <- & Ho & ? & ?)). split_and!; [done| |].
  - exists a2, a1. split_and!; auto.
  - exists s2, s1. rewrite observation_key_eqb_sym. split_and!; auto.
Qed.

Lemma sorted_wf_relation r : wf_relation p r → wf_relation q (sorted_relation r).
Proof.
  intros [?? Har Hc Hn].
  assert (Hp : rc_contract_ids (sorted_relation r) ≡ₚ rc_contract_ids r).
  { simpl. case_decide; [done|]. apply sort_on_perm. }
  constructor; [done|done| | |].
  - unfold wf_arity in *. change (rc_kind (sorted_relation r)) with (rc_kind r). by rewrite (Permutation_length Hp).
  - rewrite Hp. eapply Forall_impl; [exact Hc|]. intros c. by rewrite sorted_contracts.
  - intros c1 c2 Ek E. apply sorted_native. rewrite E in Hp. apply Permutation_length_2_inv in Hp as [E'|E']; [by apply Hn|]. by apply wf_native_sym, Hn.
Qed.

Lemma sorted_wf_forbidden f : wf_forbidden p f → wf_forbidden q (sorted_forbidden f).
Proof.
  intros [?? Ha]. constructor; [done|done|]. apply Forall_sort. eapply Forall_impl; [exact Ha|]. intros i. by rewrite sorted_atom_ids.
Qed.

Lemma Forall_sorted {A} (key : A → string) (f : A → A) (P Q : A → Prop) l :
  (∀ x, P x → Q (f x)) → Forall P l → Forall Q (sort_on key (f <$> l)).
Proof. intros H Hl. apply Forall_sort, Forall_fmap. by eapply Forall_impl. Qed.

Lemma sorted_keys {A} (key : A → string) (f : A → A) l :
  (∀ x, key (f x) = key x) → key <$> sort_on key (f <$> l) ≡ₚ key <$> l.
Proof. intros H. rewrite sort_on_perm, <- list_fmap_compose. by rewrite (list_fmap_ext _ key l) by (intros; apply H). Qed.

Lemma sorted_problem_wf : wf_problem p → wf_problem q.
Proof.
  intros [??? ? Ha Hai Hs Hc Ht Hac Hr Hf Hid Hq Hqi]. constructor; try done.
  - apply Forall_sort. eapply Forall_impl; [exact Ha|]. apply sorted_wf_action.
  - simpl. by rewrite sort_on_perm.
  - by apply (Forall_sorted _ _ (wf_state p)); [apply sorted_wf_state|].
  - by rewrite sorted_contracts.
  - by rewrite sorted_atom_ids.
  - intros a Hin%sorted_actions. rewrite sorted_contracts. auto.
  - by apply (Forall_sorted _ _ (wf_relation p)); [apply sorted_wf_relation|].
  - by apply (Forall_sorted _ _ (wf_forbidden p)); [apply sorted_wf_forbidden|].
  - simpl. by rewrite !sorted_keys.
  - by apply Forall_sort.
  - simpl. by rewrite sort_on_perm.
Qed.
End sorted.

(** ** Round trips *)

Lemma problem_fields_decode p : wf_problem p → Forall valid_datetime (problem_datetimes p) →
  problem_fields (problem_json p) = Ok (sorted_problem p).
Proof.
  intros [? Esch Hid Hu Ha _ Hs _ _ _ Hr Hf _ Hq _] [Has [Hak Hsk]%Forall_app]%Forall_cons.
  rewrite Forall_forall in Hak, Hsk.
  pose proof (usable_name _ _ Esch eq_refl). apply String.eqb_eq in Esch.
  unfold problem_fields, problem_json. open_object. decode_fields.
  eapply bind_step; [field_value; by apply object_of_keys|]. cbv beta. decode_fields.
  eapply bind_step; [apply (array_with_Ok _ action_json id); [reflexivity|]|].
  { intros a Hin%elem_of_sort_on. rewrite Forall_forall in Ha. apply (action_decode p); [by apply Ha|done|].
    apply Forall_forall. intros d Hd. apply Hak, list_elem_of_bind. eauto. }
  eapply bind_step; [apply (array_with_Ok _ state_set_json sorted_state_set); [reflexivity|]|].
  { intros s Hin%elem_of_sort_on. rewrite Forall_forall in Hs. apply (state_set_decode p); [done|by apply Hs|].
    apply Forall_forall. intros d Hd. apply Hsk, list_elem_of_bind. eauto. }
  eapply bind_step; [apply (array_with_Ok _ relation_json sorted_relation); [reflexivity|]|].
  { intros r Hin%elem_of_sort_on. rewrite Forall_forall in Hr. apply (relation_decode p); auto. }
  eapply bind_step; [apply (array_with_Ok _ forbidden_json sorted_forbidden); [reflexivity|]|].
  { intros f Hin%elem_of_sort_on. rewrite Forall_forall in Hf. apply (forbidden_decode p); auto. }
  eapply bind_step; [apply (array_with_Ok _ qualification_json id); [reflexivity|]|].
  { intros c Hin%elem_of_sort_on. rewrite Forall_forall in Hq. by apply qualification_decode, Hq. }
  rewrite !list_fmap_id, !sort_on_fmap by done. done.
Qed.

Lemma problem_decode p allow : wf_problem p → Forall valid_datetime (problem_datetimes p) →
  problem_from_payload (problem_json p) allow = Ok (sorted_problem p).
Proof.
  intros Hwf Hd. unfold problem_from_payload. eapply bind_step; [by apply problem_fields_decode|]. cbv beta zeta.
  rewrite (proj2 (validate_problem_wf _) (sorted_problem_wf p Hwf)). simpl. by rewrite sorted_problem_idemp.
Qed.

Definition wf_budget (b : OracleBudget) : Prop :=
  0 < bg_max_quantity_vectors b ≤ INT64_MAX ∧ 0 < bg_max_joint_states b ≤ INT64_MAX ∧
  0 < bg_max_support_rechecks b ≤ INT64_MAX.

Lemma budget_decode b : wf_budget b → budget_from_payload (budget_json b) = Ok b.
Proof.
  intros (H1 & H2 & H3). unfold budget_from_payload, budget_json. open_object.
  assert (Hi : ∀ z, 0 < z ≤ INT64_MAX → int64 z) by (intros z; unfold int64, INT64_MIN; lia).
  pose proof (Hi _ H1). pose proof (Hi _ H2). pose proof (Hi _ H3). decode_fields.
  rewrite (proj2 (Z.ltb_lt _ _) (proj1 H1)), (proj2 (Z.ltb_lt _ _) (proj1 H2)), (proj2 (Z.ltb_lt _ _) (proj1 H3)).
  by destruct b.
Qed.

Lemma request_decode r : rq_schema_version r = REQUEST_SCHEMA_V1 → wf_problem (rq_problem r) → wf_budget (rq_budget r) →
  Forall valid_datetime (problem_datetimes (rq_problem r)) →
  request_from_payload (request_json r) =
  Ok {| rq_schema_version := rq_schema_version r; rq_mode := rq_mode r; rq_problem := sorted_problem (rq_problem r);
        rq_budget := rq_budget r |}.
Proof.
  intros Es Hwf Hb Hd. pose proof (usable_name _ _ Es eq_refl). apply String.eqb_eq in Es.
  unfold request_from_payload, request_json. open_object. decode_fields.
  eapply bind_step; [field_value; by apply object_of_keys|]. cbv beta.
  field_is problem_decode. field_is budget_decode. done.
Qed.

(** ** Unknown data

    [problem_from_payload] with [allow_unknown_data] lets issues of the codes
    [UNKNOWN_DATA_CODES] pass.  What that means is said without the validator:
    the problem becomes well formed once its unknown data is filled in — the
    rule of the contract for an atom without rule, a release at [as_of] for an
    atom without release, and a payout of zero for every action of the contract
    that has none. *)

Definition missing_payouts (p : ArbitrageProblem) (s : TerminalStateSet) (t : TerminalAtom) : list string :=
  remove_dups (filter (.∉ ap_action_id <$> ta_payouts t) (ca_action_id <$> actions_of p (ts_market_contract_id s))).

Definition rule_known (t : TerminalAtom) : bool :=
  match ta_rule_version t with Some v => negb (is_blank v) | None => false end.

Definition complete_atom (p : ArbitrageProblem) (s : TerminalStateSet) (t : TerminalAtom) : TerminalAtom := {|
  ta_atom_id := ta_atom_id t; ta_kind := ta_kind t;
  ta_rule_version := if rule_known t then ta_rule_version t else Some (ts_rule_version s);
  ta_payouts := ta_payouts t ++
    ((λ i, {| ap_action_id := i; payout_lower_bound_per_lot_units := 0 |}) <$> missing_payouts p s t);
  ta_capital_release_at := Some (default (pb_as_of p) (ta_capital_release_at t)) |}.

Definition complete_state (p : ArbitrageProblem) (s : TerminalStateSet) : TerminalStateSet := {|
  ts_market_contract_id := ts_market_contract_id s; ts_settlement_observation_key := ts_settlement_observation_key s;
  ts_rule_version := ts_rule_version s; ts_atoms := complete_atom p s <$> ts_atoms s |}.

Definition complete_problem (p : ArbitrageProblem) : ArbitrageProblem := {|
  pb_schema_version := pb_schema_version p; pb_problem_id := pb_problem_id p; pb_as_of := pb_as_of p;
  pb_valuation_unit_id := pb_valuation_unit_id p; pb_actions := pb_actions p;
  pb_terminal_state_sets := complete_state p <$> pb_terminal_state_sets p; pb_constraint_model := pb_constraint_model p;
  pb_qualification_constraints := pb_qualification_constraints p |}.

(** *** Tolerated and hard issues *)

Definition tolerated (i : ModelIssue) : Prop := mi_code i ∈ UNKNOWN_DATA_CODES.

(** No issue of [l] is tolerated on its own. *)
Definition hard (l : list ModelIssue) : Prop := Forall tolerated l → l = [].

Lemma hard_iff l : hard l → Forall tolerated l ↔ l = [].
Proof. intros Hh. split; [done|]. intros ->. constructor. Qed.

Lemma hard_app l k : hard l → hard k → hard (l ++ k).
Proof. intros Hl Hk [H1 H2]%Forall_app. by rewrite (Hl H1), (Hk H2). Qed.

Lemma hard_nil : hard [].
Proof. done. Qed.

Lemma hard_cons code path message l : code ∉ UNKNOWN_DATA_CODES → hard (Issue code path message :: l).
Proof. by intros Hc [? _]%Forall_cons. Qed.

Lemma hard_when b code path message : code ∉ UNKNOWN_DATA_CODES → hard (when b (Issue code path message)).
Proof. destruct b; [by apply hard_cons|done]. Qed.

Lemma hard_bind {A} (l : list A) f : (∀ x, x ∈ l → hard (f x)) → hard (l ≫= f).
Proof.
  induction l as [|x l IH]; intros Hf; [done|]. csimpl. apply hard_app; [apply Hf; left|]. apply IH. intros y Hy. apply Hf. by right.
Qed.

Ltac hard :=
  repeat first
    [ apply hard_app | apply hard_when; compute_done | apply hard_cons; compute_done | apply hard_nil
    | apply hard_bind; intros ? _
    | progress unfold validate_observation_key, observation_window_issues, identifier_issues, validate_int, validate_product
    | case_match ].

Lemma validate_datetime_hard d path : hard (validate_datetime d path).
Proof. unfold validate_datetime. hard. Qed.

Lemma cost_slice_hard prefix idx prev l : hard (cost_slice_issues prefix idx prev l).
Proof. revert idx prev. induction l as [|c l IH]; intros idx prev; [done|]. cbn [cost_slice_issues]. hard; apply IH. Qed.

(** A blank valuation rule is refused as an identifier too. *)
Lemma action_hard p idx dup a : hard (action_issues p idx dup a).
Proof.
  destruct (is_blank (ca_asset_valuation_rule_id a)) eqn:E.
  - intros Hall. exfalso. unfold action_issues in Hall. rewrite !Forall_app in Hall. destruct_and! Hall.
    match goal with Hr : Forall tolerated (identifier_issues (ca_asset_valuation_rule_id a) _) |- _ =>
      unfold identifier_issues in Hr; rewrite E in Hr; apply Forall_cons in Hr as [Hc _]; revert Hc end.
    change ("INVALID_IDENTIFIER" ∉ UNKNOWN_DATA_CODES). compute_done.
  - unfold action_issues. rewrite E, andb_false_r. hard; first [apply validate_datetime_hard|apply cost_slice_hard].
Qed.

Lemma payout_hard p required path idx l : hard (payout_issues p required path idx l).
Proof. revert idx. induction l as [|y l IH]; intros idx; [done|]. cbn [payout_issues]. hard; apply IH. Qed.

Lemma reference_hard known code message path field idx ids :
  code ∉ UNKNOWN_DATA_CODES → hard (reference_issues known code message path field idx ids).
Proof.
  intros Hc. revert idx. induction ids as [|c ids IH]; intros idx; [done|]. cbn [reference_issues].
  apply hard_app; [hard|]. apply hard_app; [by apply hard_when|apply IH].
Qed.

Lemma relation_hard p idx dup r : hard (relation_issues p idx dup r).
Proof.
  unfold relation_issues, relation_arity_issues, native_complement_issues.
  repeat apply hard_app; try (apply reference_hard; compute_done); hard.
Qed.

Lemma forbidden_hard p idx dup f : hard (forbidden_issues p idx dup f).
Proof. unfold forbidden_issues. repeat apply hard_app; try (apply reference_hard; compute_done); hard. Qed.

Lemma qualification_hard idx dup q : hard (qualification_issues idx dup q).
Proof. unfold qualification_issues. hard. Qed.

Lemma missing_state_hard p : hard (missing_state_issues p).
Proof. unfold missing_state_issues. hard. Qed.

Lemma loop_hard {A} (key : A → string) body idx seen l :
  (∀ idx dup x, hard (body idx dup x)) → hard (loop_seen key body idx seen l).
Proof. intros Hb. revert idx seen. induction l as [|x l IH]; intros idx seen; [done|]. cbn [loop_seen]. by apply hard_app. Qed.

(** A loop over nodes, and the same loop over completed nodes. *)
Lemma loop_completes {A} (key : A → string) (f : A → A) body body' idx seen l :
  (∀ x, key (f x) = key x) → (∀ idx dup x, Forall tolerated (body idx dup x) ↔ body' idx dup (f x) = []) →
  Forall tolerated (loop_seen key body idx seen l) ↔ loop_seen key body' idx seen (f <$> l) = [].
Proof.
  intros Hk Hb. revert idx seen. induction l as [|x l IH]; intros idx seen; [by split|]. csimpl. cbn [loop_seen].
  by rewrite Forall_app, app_nil, Hk, Hb, IH.
Qed.

Lemma loop_seen_ext {A} (key : A → string) body body' idx seen l :
  (∀ idx dup x, body idx dup x = body' idx dup x) → loop_seen key body idx seen l = loop_seen key body' idx seen l.
Proof. intros Hb. revert idx seen. induction l as [|x l IH]; intros idx seen; [done|]. cbn [loop_seen]. by rewrite Hb, IH. Qed.

(** *** Atoms *)

Lemma rule_completes p s t path : usable (ts_rule_version s) →
  Forall tolerated (atom_rule_issues s t path) ↔ ta_rule_version (complete_atom p s t) = Some (ts_rule_version s).
Proof.
  intros Hs. unfold atom_rule_issues. simpl. unfold rule_known. destruct (ta_rule_version t) as [v|].
  - destruct (is_blank v); simpl.
    + split; [done|]. intros _. apply Forall_singleton. compute_done.
    + rewrite hard_iff by hard. rewrite when_nil, negb_false_iff, String.eqb_eq. naive_solver.
  - split; [done|]. intros _. apply Forall_singleton. compute_done.
Qed.

Lemma release_completes p s t path : is_utc (pb_as_of p) = true →
  Forall tolerated (atom_release_issues p t path) ↔
  ∃ d, ta_capital_release_at (complete_atom p s t) = Some d ∧ is_utc d = true ∧ dt_us (pb_as_of p) ≤ dt_us d.
Proof.
  intros Hp. destruct (ta_capital_release_at t) as [d|] eqn:E.
  - rewrite hard_iff, atom_release_issues_nil by (done || (unfold atom_release_issues; rewrite E; hard; apply validate_datetime_hard)).
    simpl. by rewrite E.
  - unfold atom_release_issues. simpl. rewrite E. split; [|intros _; apply Forall_singleton; compute_done].
    intros _. exists (pb_as_of p). split_and!; [done..|lia].
Qed.

Lemma complete_payout_ids p s t :
  ap_action_id <$> ta_payouts (complete_atom p s t) = (ap_action_id <$> ta_payouts t) ++ missing_payouts p s t.
Proof. simpl. rewrite fmap_app, <- list_fmap_compose. f_equal. apply list_fmap_id. Qed.

Lemma elem_of_missing p s t i :
  i ∈ missing_payouts p s t ↔
  (i ∉ ap_action_id <$> ta_payouts t) ∧ i ∈ ca_action_id <$> actions_of p (ts_market_contract_id s).
Proof. unfold missing_payouts. by rewrite elem_of_remove_dups, list_elem_of_filter. Qed.

Lemma complete_payouts p s t :
  let required := ca_action_id <$> actions_of p (ts_market_contract_id s) in
  let ids := ap_action_id <$> ta_payouts t in
  let ids' := ap_action_id <$> ta_payouts (complete_atom p s t) in
  (NoDup ids' ↔ NoDup ids) ∧ ((∀ i, i ∈ ids' ↔ i ∈ required) ↔ ∀ i, i ∈ ids → i ∈ required) ∧
  (Forall (λ y, int64 (payout_lower_bound_per_lot_units y)) (ta_payouts (complete_atom p s t)) ↔
   Forall (λ y, int64 (payout_lower_bound_per_lot_units y)) (ta_payouts t)).
Proof.
  intros required ids ids'. subst ids'. rewrite complete_payout_ids. split_and!.
  - rewrite NoDup_app. split; [by intros []|]. intros Hn. split_and!; [done| |apply NoDup_remove_dups].
    intros i Hi [Hni _]%elem_of_missing. done.
  - split; [intros Hall i Hi; apply Hall; set_solver|]. intros Hall i. rewrite elem_of_app, elem_of_missing.
    fold required ids. split; [naive_solver|]. intros Hi. destruct (decide (i ∈ ids)); auto.
  - simpl. rewrite Forall_app, Forall_fmap. split; [by intros []|]. intros Hf. split; [done|]. apply Forall_true. done.
Qed.

Lemma complete_atom_ids p s : ta_atom_id <$> (complete_atom p s <$> ts_atoms s) = ta_atom_id <$> ts_atoms s.
Proof. by rewrite <- list_fmap_compose. Qed.

Section completes.
Context (p : ArbitrageProblem).
Context (Hwf : Forall (wf_action p) (pb_actions p)) (Hp : is_utc (pb_as_of p) = true).

Lemma complete_wf_actions : Forall (wf_action (complete_problem p)) (pb_actions p).
Proof. eapply Forall_impl; [exact Hwf|]. intros a []. by constructor. Qed.

Lemma payout_ids_usable s t : (∀ i, i ∈ ap_action_id <$> ta_payouts t → i ∈ ca_action_id <$> actions_of p (ts_market_contract_id s)) →
  Forall (λ y, usable (ap_action_id y) ∧ ap_action_id y ∈ ca_action_id <$> actions_of p (ts_market_contract_id s)) (ta_payouts t).
Proof.
  intros Hall. apply Forall_forall. intros y Hy. assert (Hi := Hall _ (list_elem_of_fmap_2 ap_action_id _ _ Hy)). split; [|done].
  apply list_elem_of_fmap in Hi as (a & -> & [_ Ha]%elem_of_actions_of). rewrite Forall_forall in Hwf. by apply Hwf.
Qed.

Lemma atom_completes s prefix idx dup t : usable (ts_rule_version s) →
  let required := ca_action_id <$> actions_of p (ts_market_contract_id s) in
  Forall tolerated (atom_issues p s prefix required idx dup t) ↔
  atom_issues (complete_problem p) (complete_state p s) prefix required idx dup (complete_atom p s t) = [].
Proof.
  intros Hs required. etrans;
    [|symmetry; exact (atom_issues_nil (complete_problem p) (complete_state p s) prefix idx dup (complete_atom p s t) complete_wf_actions Hp Hs)].
  destruct (complete_payouts p s t) as (Hnd & Hids & Hint). fold required in Hids.
  assert (Hreq : ∀ i, i ∈ required → i ∈ ca_action_id <$> pb_actions p).
  { intros i (a & -> & [_ Ha]%elem_of_actions_of)%list_elem_of_fmap. by apply list_elem_of_fmap_2. }
  unfold atom_issues. rewrite !Forall_app, (rule_completes p), (release_completes p s) by done.
  rewrite !(hard_iff (identifier_issues _ _)), !(hard_iff (when _ (Issue "DUPLICATE_ID" _ _))), (hard_iff (_ ≫= _)),
    (hard_iff (payout_issues _ _ _ _ _)) by (apply payout_hard || hard).
  rewrite identifier_issues_nil, !when_nil, payout_issues_nil by done. split.
  - intros (Hid & -> & Hrule & Hrel & _ & _ & Hlen & Hz & Hall). split; [|done]. rewrite Forall_forall in Hall.
    assert (Hu : Forall usable (ap_action_id <$> ta_payouts t)) by (apply Forall_fmap, Forall_forall; intros y Hy; by apply Hall).
    rewrite usable_ids_all, negb_false_iff, Nat.eqb_eq, <- (length_fmap ap_action_id (ta_payouts t)), remove_dups_length_NoDup in Hlen by done.
    constructor; [done|done|done|by apply Hint|by apply Hnd|]. apply Hids. intros i (y & -> & Hy)%list_elem_of_fmap. by apply Hall.
  - intros [[Hid Hrule Hrel Hz Hn Hi] ->]. apply Hint in Hz. apply Hnd in Hn. pose proof (proj1 Hids Hi) as Hsub.
    pose proof (payout_ids_usable s t Hsub) as Hall.
    assert (Hu : Forall usable (ap_action_id <$> ta_payouts t)) by (apply Forall_fmap; eapply Forall_impl; [exact Hall|naive_solver]).
    split_and!; try done.
    + apply list_bind_nil. intros y Hy. apply identifier_issues_nil. rewrite Forall_fmap, Forall_forall in Hu. by apply Hu.
    + unfold when. destruct (negb _); [|done]. apply Forall_singleton. compute_done.
    + rewrite usable_ids_all, negb_false_iff, Nat.eqb_eq, <- (length_fmap ap_action_id (ta_payouts t)) by done.
      by apply remove_dups_length_NoDup.
Qed.

(** *** Terminal states *)

Lemma state_completes idx dup seen s :
  Forall tolerated (state_issues p idx dup seen s) ↔ state_issues (complete_problem p) idx dup seen (complete_state p s) = [].
Proof.
  unfold state_issues. rewrite !Forall_app, !app_nil.
  change (ts_market_contract_id (complete_state p s)) with (ts_market_contract_id s).
  change (ts_rule_version (complete_state p s)) with (ts_rule_version s).
  change (ts_settlement_observation_key (complete_state p s)) with (ts_settlement_observation_key s).
  change (actions_on (complete_problem p)) with (actions_on p).
  assert (Ha : ts_atoms (complete_state p s) = [] ↔ ts_atoms s = []) by (simpl; by destruct (ts_atoms s)).
  rewrite (bool_decide_ext _ _ Ha), !(hard_iff (identifier_issues _ _)), !(hard_iff (when _ _)), (hard_iff (validate_observation_key _ _)),
    (hard_iff (_ ≫= _)) by hard.
  set (prefix := "terminal_state_sets[" +:+ str_nat idx +:+ "]").
  set (required := ca_action_id <$> (if is_blank (ts_market_contract_id s) then [] else actions_on p (ts_market_contract_id s))).
  assert (Hl : identifier_issues (ts_market_contract_id s) (prefix +:+ ".market_contract_id") = [] →
    identifier_issues (ts_rule_version s) (prefix +:+ ".rule_version") = [] →
    Forall tolerated (loop_seen ta_atom_id (atom_issues p s prefix required) 0 seen (ts_atoms s)) ↔
    loop_seen ta_atom_id (atom_issues (complete_problem p) (complete_state p s) prefix required) 0 seen
      (ts_atoms (complete_state p s)) = []).
  { intros Hid%identifier_issues_nil Hr%identifier_issues_nil. unfold usable in Hid. subst required. rewrite Hid, actions_on_wf by done.
    apply loop_completes; [done|]. intros. by apply atom_completes. }
  tauto.
Qed.

Lemma state_loop_completes idx seen_c seen_a l :
  Forall tolerated (state_loop p idx seen_c seen_a l) ↔ state_loop (complete_problem p) idx seen_c seen_a (complete_state p <$> l) = [].
Proof.
  revert idx seen_c seen_a. induction l as [|s l IH]; intros idx seen_c seen_a; [by split|]. csimpl. cbn [state_loop].
  by rewrite Forall_app, app_nil, state_completes, IH, complete_atom_ids.
Qed.
End completes.

(** *** Problems *)

Lemma complete_contracts p : state_contracts (complete_problem p) = state_contracts p.
Proof. unfold state_contracts. simpl. by rewrite <- list_fmap_compose. Qed.

Lemma complete_state_atom_ids p : state_atom_ids (complete_problem p) = state_atom_ids p.
Proof.
  unfold state_atom_ids. f_equal. simpl. induction (pb_terminal_state_sets p) as [|s l IH]; [done|]. csimpl.
  by rewrite IH, complete_atom_ids.
Qed.

Lemma complete_state_on p c : state_on (complete_problem p) c = complete_state p <$> state_on p c.
Proof.
  unfold state_on. simpl. induction (pb_terminal_state_sets p) as [|s l IH]; [done|]. csimpl. unfold py_next in *. csimpl.
  destruct (ts_market_contract_id s =? c)%string; [done|exact IH].
Qed.

Lemma complete_native_kinds p s : native_kinds (complete_state p s) = native_kinds s.
Proof. unfold native_kinds. simpl. by rewrite <- list_fmap_compose. Qed.

Lemma complete_relation p idx dup r : relation_issues (complete_problem p) idx dup r = relation_issues p idx dup r.
Proof.
  unfold relation_issues. rewrite complete_contracts. do 5 f_equal.
  destruct (rc_kind r); [done..|]. destruct (rc_contract_ids r) as [|c1 [|c2 [|]]]; try done.
  unfold native_complement_issues. rewrite !complete_state_on. do 2 f_equal.
  destruct (state_on p c1), (state_on p c2); try done. csimpl. by rewrite !complete_native_kinds.
Qed.

Lemma problem_completes p : Forall tolerated (validate_problem p) ↔ wf_problem (complete_problem p).
Proof.
  rewrite <- validate_problem_wf. unfold validate_problem. rewrite !Forall_app, !app_nil.
  rewrite !(hard_iff (identifier_issues _ _)), (hard_iff (when _ _)), (hard_iff (validate_datetime _ _)) by (apply validate_datetime_hard || hard).
  rewrite (hard_iff (loop_seen _ _ _ _ (pb_actions p))) by (apply loop_hard; intros; apply action_hard).
  rewrite (hard_iff (missing_state_issues p)) by apply missing_state_hard.
  rewrite (hard_iff (loop_seen rc_constraint_id _ _ _ _)) by (apply loop_hard; intros; apply relation_hard).
  rewrite (hard_iff (loop_seen fb_constraint_id _ _ _ _)) by (apply loop_hard; intros; apply forbidden_hard).
  rewrite (hard_iff (loop_seen qc_constraint_id _ _ _ _)) by (apply loop_hard; intros; apply qualification_hard).
  assert (Hm : missing_state_issues (complete_problem p) = missing_state_issues p) by (unfold missing_state_issues; by rewrite complete_contracts).
  assert (Hr : ∀ idx seen l, loop_seen rc_constraint_id (relation_issues (complete_problem p)) idx seen l =
    loop_seen rc_constraint_id (relation_issues p) idx seen l) by (intros; apply loop_seen_ext; intros; apply complete_relation).
  assert (Hf : ∀ idx seen l, loop_seen fb_constraint_id (forbidden_issues (complete_problem p)) idx seen l =
    loop_seen fb_constraint_id (forbidden_issues p) idx seen l)
    by (intros; apply loop_seen_ext; intros; unfold forbidden_issues; by rewrite complete_state_atom_ids).
  simpl pb_constraint_model. rewrite Hm, Hr, Hf.
  change (action_issues (complete_problem p)) with (action_issues p). simpl pb_as_of. simpl pb_actions. simpl pb_schema_version.
  assert (Hs : validate_datetime (pb_as_of p) "as_of" = [] → identifier_issues (pb_valuation_unit_id p) "valuation_unit_id" = [] →
    loop_seen ca_action_id (action_issues p) 0 [] (pb_actions p) = [] →
    Forall tolerated (state_loop p 0 [] [] (pb_terminal_state_sets p)) ↔
    state_loop (complete_problem p) 0 [] [] (pb_terminal_state_sets (complete_problem p)) = []).
  { intros Hd%validate_datetime_nil Hu%identifier_issues_nil Ha. apply state_loop_completes; [|done].
    by apply (loop_seen_nil _ _ (wf_action p)) in Ha as (? & _ & _); [|intros; by apply action_issues_nil|intros ? Hx; apply Hx]. }
  tauto.
Qed.

Lemma codes_tolerated issues :
  forallb (λ i, in_list (mi_code i) UNKNOWN_DATA_CODES) issues = true ↔ Forall tolerated issues.
Proof.
  rewrite forallb_forall, Forall_forall. unfold tolerated. split; intros Hall i Hi.
  - apply list_elem_of_In, Hall, existsb_exists in Hi as (c & Hc & ->%String.eqb_eq). by apply list_elem_of_In.
  - apply existsb_exists. exists (mi_code i). split; [apply list_elem_of_In, Hall; by apply list_elem_of_In|]. apply String.eqb_refl.
Qed.

(** What the decoder asks of the fields it read. *)
Definition admitted_problem (allow : bool) (p : ArbitrageProblem) : Prop :=
  if allow then wf_problem (complete_problem p) else wf_problem p.

#[export] Instance wf_problem_dec p : Decision (wf_problem p).
Proof. refine (cast_if (decide (length (validate_problem p) = 0%nat))); by rewrite <- validate_problem_wf, <- length_zero_iff_nil. Defined.

#[export] Instance admitted_problem_dec allow p : Decision (admitted_problem allow p).
Proof. destruct allow; apply wf_problem_dec. Defined.

Lemma problem_from_payload_fields payload allow fields : problem_fields payload = Ok fields →
  problem_from_payload payload allow =
    if decide (admitted_problem allow fields) then Ok (sorted_problem fields) else Err (invalid_problem (validate_problem fields)).
Proof.
  intros Hf. unfold problem_from_payload. rewrite Hf. cbn [mbind res_bind].
  assert (Hb : Nat.eqb (length (validate_problem fields)) 0 ||
    (allow && forallb (λ i, in_list (mi_code i) UNKNOWN_DATA_CODES) (validate_problem fields)) = true ↔ admitted_problem allow fields).
  { rewrite orb_true_iff, Nat.eqb_eq, length_zero_iff_nil. unfold admitted_problem. destruct allow; simpl.
    - rewrite codes_tolerated, problem_completes. split; [|by right]. intros [Hn|]; [|done]. apply problem_completes. rewrite Hn. constructor.
    - rewrite validate_problem_wf. split; [by intros [|]|by left]. }
  destruct (_ || _); destruct (decide (admitted_problem allow fields)) as [Ha|Ha]; try done; [destruct Ha; by apply Hb|by apply Hb in Ha].
Qed.
