(* ===== verification/FillCorrect.v ===== *)
(** * The fill adversary is exact

    The integer points of the compiled fill adversary are exactly the pairs of
    an admissible fill vector and an allowed settlement outcome; the
    objective at such a point is the loss of the pair with negative payouts
    counted as zero, which is the loss itself when the legs' payouts are
    non-negative.  The solver-free recomputation and the bounded oracle
    compute the same loss. *)

From S2P Require Import Prelude PyValue NLeg NLegForms NLegValidate NLegWf Oracle OracleScenario OracleEval OracleQualify LinearModel TerminalModel SupportCorrect TerminalCorrect PartialFill.
Local Open Scope Z_scope.

(** ** Specification *)

(** What a leg can fill. *)
Definition admissible_fill (leg : FillLeg) (n : Z) : Prop :=
  match fl_semantics leg with
  | ATOMIC => n = 0 ∨ n = fl_quantity_lots leg
  | PARTIAL => 0 ≤ n ≤ fl_quantity_lots leg
  | SEMANTICS_UNKNOWN => False
  end.

Definition admissible (legs : list FillLeg) (f : string → Z) : Prop :=
  Forall (λ leg, admissible_fill leg (f (fl_action_id leg))) legs.

(** Cost and fee of one filled lot, each rounded up. *)
Definition unit_price (leg : FillLeg) : Z :=
  ceil_div (fl_max_cost_units leg) (fl_quantity_lots leg) + ceil_div (fl_max_fee_units leg) (fl_quantity_lots leg).

(** Loss when the legs fill [f] and [ω] settles. *)
Definition fill_loss (fp : FillAdversaryProblem) (f : string → Z) (ω : string → TerminalAtom) : Z :=
  sumZ ((λ leg, f (fl_action_id leg) * (unit_price leg - payout_of (fa_source_problem fp) ω (fl_action_id leg)))
          <$> fa_legs fp).

(** The same with negative payouts counted as zero. *)
Definition objective_loss (fp : FillAdversaryProblem) (f : string → Z) (ω : string → TerminalAtom) : Z :=
  sumZ ((λ leg, f (fl_action_id leg) * (unit_price leg - Z.max 0 (payout_of (fa_source_problem fp) ω (fl_action_id leg))))
          <$> fa_legs fp).

(** No leg pays a negative amount in any atom of its contract. *)
Definition payouts_nonneg (fp : FillAdversaryProblem) : Prop :=
  ∀ s t y, s ∈ pb_terminal_state_sets (fa_source_problem fp) → t ∈ ts_atoms s → y ∈ ta_payouts t →
    ap_action_id y ∈ fl_action_id <$> fa_legs fp → 0 ≤ payout_lower_bound_per_lot_units y.

(** Nothing fills. *)
Lemma fill_loss_zero fp ω : fill_loss fp (λ _, 0) ω = 0.
Proof. unfold fill_loss. generalize (fa_legs fp). intros l. induction l as [|leg l IH]; csimpl; [done|]. lia. Qed.

Lemma zero_admissible legs : Forall (λ leg, fl_semantics leg ≠ SEMANTICS_UNKNOWN ∧ 0 < fl_quantity_lots leg) legs → admissible legs (λ _, 0).
Proof.
  intros H. eapply Forall_impl; [exact H|]. intros leg [Hs Hq]. unfold admissible_fill. destruct (fl_semantics leg); [by left|lia|done].
Qed.

(** What the constructors of [FillLeg] and [FillAdversaryProblem] establish. *)
Record wf_fill (fp : FillAdversaryProblem) : Prop := {
  wl_unique : NoDup (fl_action_id <$> fa_legs fp);
  wl_known : Forall (λ leg, fl_action_id leg ∈ ca_action_id <$> pb_actions (fa_source_problem fp)) (fa_legs fp);
  wl_positive : Forall (λ leg, 0 < fl_quantity_lots leg) (fa_legs fp);
  wl_nonempty : fa_legs fp ≠ [];
}.

Lemma check_legs_inv actions seen legs out :
  foldM (check_leg_binding actions) seen legs = Ok out →
  NoDup (fl_action_id <$> legs) ∧ Forall (λ leg, fl_action_id leg ∉ seen ∧ is_Some (actions !! fl_action_id leg)) legs.
Proof.
  revert seen. induction legs as [|leg legs IH]; intros seen; [split; constructor|].
  cbn [foldM]. intros (seen' & Hs & Hr)%bind_Ok. unfold check_leg_binding in Hs.
  apply bind_Ok in Hs as (? & Hn%require_Ok & (a & Ha%of_option_Ok & (? & _ & (? & _ & [= <-])%bind_Ok)%bind_Ok)%bind_Ok).
  apply bool_decide_eq_true_1 in Hn. destruct (IH _ Hr) as [Hnd Hall]. csimpl. rewrite Forall_forall in Hall. split.
  - apply NoDup_cons. split; [|done]. intros (l & E & Hl)%list_elem_of_fmap. apply (proj1 (Hall l Hl)). set_solver.
  - constructor; [eauto|]. apply Forall_forall. intros l Hl. destruct (Hall l Hl). set_solver.
Qed.

Lemma check_wf_fill `{Sha256} fp u :
  Forall (λ leg, check_fill_leg leg = Ok tt) (fa_legs fp) → check_fill_problem fp = Ok u → wf_fill fp.
Proof.
  intros Hlegs. unfold check_fill_problem.
  intros (? & _ & (? & _ & (? & _ & (? & Hne%require_Ok & (? & _ & (? & _ & (seen & Hb & _)%bind_Ok)%bind_Ok)%bind_Ok)%bind_Ok)%bind_Ok)%bind_Ok)%bind_Ok.
  apply check_legs_inv in Hb as [Hnd Hk]. split; [done| | |].
  - eapply Forall_impl; [exact Hk|]. intros leg [_ Hs]. by apply index_by_is_Some.
  - eapply Forall_impl; [exact Hlegs|]. intros leg Hl. unfold check_fill_leg in Hl.
    apply bind_Ok in Hl as (? & _ & (? & _ & (? & _ & (? & Hq%require_Ok & _)%bind_Ok)%bind_Ok)%bind_Ok).
    by apply Z.ltb_lt in Hq.
  - intros E. by rewrite E in Hne.
Qed.

(** ** Checked models have distinct variables *)

Lemma validate_variables_NoDup vars m out :
  foldM validate_variable m vars = Ok out →
  NoDup (iv_name <$> vars) ∧ Forall (λ v, m !! iv_name v = None) vars.
Proof.
  revert m. induction vars as [|v vars IH]; intros m; [split; constructor|]. cbn [foldM].
  intros (m' & Hm & Hr)%bind_Ok. unfold validate_variable in Hm.
  apply bind_Ok in Hm as (? & _ & (? & Hn%require_Ok & (? & _ & (? & _ & (? & _ & (? & _ & [= <-])%bind_Ok)%bind_Ok)%bind_Ok)%bind_Ok)%bind_Ok).
  apply bool_decide_eq_true_1 in Hn. destruct (IH _ Hr) as [Hnd Hall]. csimpl. rewrite Forall_forall in Hall. split.
  - apply NoDup_cons. split; [|done]. intros (w & E & Hw)%list_elem_of_fmap. specialize (Hall w Hw).
    rewrite E, lookup_insert_eq in Hall. done.
  - constructor; [done|]. apply Forall_forall. intros w Hw. specialize (Hall w Hw).
    apply lookup_insert_None in Hall. tauto.
Qed.

Lemma validate_linear_model_NoDup m u : validate_linear_model m = Ok u → NoDup (iv_name <$> lm_variables m).
Proof. intros (vars & Hv & _)%bind_Ok. by apply validate_variables_NoDup in Hv as [? _]. Qed.

(** ** The three big-M rows *)

Lemma big_m y f b q : 0 ≤ f ≤ q → b = 0 ∨ b = 1 →
  (0 ≤ y ≤ q ∧ y - f ≤ 0 ∧ y - q * b ≤ 0 ∧ - q ≤ y - f - q * b) ↔ y = f * b.
Proof. intros Hf [-> | ->]; split; lia. Qed.

Lemma unit_loss_exact leg u : unit_loss leg = Ok u → u = unit_price leg.
Proof.
  unfold unit_loss, checked_ceil_div, unit_price.
  intros (c & (? & Hq%require_Ok & [= <-])%bind_Ok & (f & (? & _ & [= <-])%bind_Ok & [= <-])%bind_Ok)%bind_Ok.
  apply Z.ltb_lt in Hq. by rewrite !ceil_div_opp.
Qed.

Lemma unit_loss_Ok leg : 0 < fl_quantity_lots leg → unit_loss leg = Ok (unit_price leg).
Proof.
  intros Hq. unfold unit_loss, checked_ceil_div, unit_price. rewrite (proj2 (Z.ltb_lt _ _) Hq). simpl.
  by rewrite !ceil_div_opp.
Qed.

Lemma admissible_bounds leg n : 0 < fl_quantity_lots leg → admissible_fill leg n → 0 ≤ n ≤ fl_quantity_lots leg.
Proof. intros Hq. unfold admissible_fill. destruct (fl_semantics leg); lia. Qed.

Definition bounds_ok (x : string → Z) (v : IntVariable) : Prop := iv_lower v ≤ x (iv_name v) ≤ iv_upper v.

Definition block_ok (x : string → Z) (b : FillBlock) : Prop :=
  Forall (bounds_ok x) (bk_variables b) ∧ Forall (row_ok x) (bk_rows b).

(** A point satisfies the rows of a leg when its fill is admissible and the
    selector of an atomic leg tells whether it fills. *)
Lemma fill_block_ok x leg b :
  fill_block leg = Ok b → 0 < fl_quantity_lots leg →
  let n := x (fill_name (fl_action_id leg)) in
  (block_ok x b → admissible_fill leg n) ∧
  (admissible_fill leg n →
   (fl_semantics leg = ATOMIC → x (selector_name (fl_action_id leg)) = if n =? 0 then 0 else 1) → block_ok x b) ∧
  activity x (bk_terms b) = n * unit_price leg.
Proof.
  intros Hb Hq n. unfold fill_block in Hb. apply bind_Ok in Hb as ([vars rows] & Hv & (u & ->%unit_loss_exact & [= <-])%bind_Ok).
  unfold block_ok, admissible_fill. simpl. split_and!; [..|unfold activity; simpl; fold n; lia].
  - destruct (fl_semantics leg); [|injection Hv as <- <-..|done].
    + injection Hv as <- <-. intros [Hvars Hrows]. apply Forall_cons in Hvars as [Hs _]. apply Forall_cons in Hrows as [Hr _].
      apply row_ok_constraint, within_exact in Hr. unfold activity in Hr. unfold bounds_ok in Hs. simpl in Hr, Hs. fold n in Hr.
      assert (x (selector_name (fl_action_id leg)) = 0 ∨ x (selector_name (fl_action_id leg)) = 1) as [E|E] by lia;
        rewrite E in Hr; lia.
    + intros [Hvars _]. apply Forall_cons in Hvars as [Hs _]. exact Hs.
  - destruct (fl_semantics leg); [|injection Hv as <- <-..|done].
    + injection Hv as <- <-. intros Hn Hsel. specialize (Hsel eq_refl). split.
      * unfold bounds_ok. repeat constructor; simpl; fold n; rewrite ?Hsel; destruct (n =? 0); lia.
      * constructor; [|constructor]. apply row_ok_constraint, within_exact. unfold activity. simpl. fold n. rewrite Hsel.
        destruct (n =? 0) eqn:E; bool_prop; lia.
    + intros Hn _. split; [|constructor]. unfold bounds_ok. repeat constructor; simpl; fold n; lia.
Qed.

Lemma payout_block_ok x leg t b :
  payout_block leg t = Ok b →
  let n := x (fill_name (fl_action_id leg)) in
  let bit := x (z (ta_atom_id t)) in
  0 ≤ n ≤ fl_quantity_lots leg → bit = 0 ∨ bit = 1 →
  (block_ok x b ↔ x (payout_name (fl_action_id leg) (ta_atom_id t)) = n * bit) ∧
  ∃ payout, atom_payout_for t (fl_action_id leg) = Some payout ∧
    activity x (bk_terms b) = x (payout_name (fl_action_id leg) (ta_atom_id t)) * - Z.max 0 payout.
Proof.
  intros (payout & Hp%of_option_Ok & [= <-])%bind_Ok n bit Hn Hbit. unfold block_ok. simpl. split.
  - rewrite <- (big_m _ n bit (fl_quantity_lots leg)) by done.
    rewrite Forall_cons, Forall_nil, !Forall_cons, Forall_nil, !row_ok_constraint, !within_upper, within_lower.
    unfold activity, bounds_ok. simpl. fold n bit. split; lia.
  - exists payout. split; [done|]. destruct (0 <? payout) eqn:E; bool_prop; unfold activity; simpl; lia.
Qed.

(** ** One leg over the atoms of its contract *)

Lemma leg_payout_blocks_inv p leg bs :
  leg_payout_blocks p leg = Ok bs →
  ∃ a s, a ∈ pb_actions p ∧ ca_action_id a = fl_action_id leg ∧
    s ∈ pb_terminal_state_sets p ∧ ts_market_contract_id s = ca_market_contract_id a ∧
    Forall2 (λ t b, payout_block leg t = Ok b) (ts_atoms s) bs.
Proof.
  intros (c & Hc%of_option_Ok & (atoms & Ha%of_option_Ok & Hbs%mapM_Ok)%bind_Ok)%bind_Ok.
  apply py_dict_elem, list_elem_of_fmap in Hc as (a & [= Ei ->] & Hin).
  apply py_dict_elem, list_elem_of_fmap in Ha as (s & [= Es ->] & Hs).
  exists a, s. done.
Qed.

Section leg.
Context (p : ArbitrageProblem) (Hwf : wf_problem p) (x : string → Z) (ω : string → TerminalAtom).
Context (Ho : outcome p ω) (Hx : represents p x ω).
Context (leg : FillLeg) (a : CandidateAction) (s : TerminalStateSet).
Context (Ha : a ∈ pb_actions p) (Ei : ca_action_id a = fl_action_id leg).
Context (Hs : s ∈ pb_terminal_state_sets p) (Es : ts_market_contract_id s = ca_market_contract_id a).

Let n := x (fill_name (fl_action_id leg)).

Lemma atom_bits : Forall (λ t, x (z (ta_atom_id t)) = 0 ∨ x (z (ta_atom_id t)) = 1) (ts_atoms s).
Proof. apply Forall_forall. intros t Ht. rewrite (Hx s t Hs Ht). destruct (_ =? _)%string; auto. Qed.

Lemma settled_payout payout :
  atom_payout_for (ω (ts_market_contract_id s)) (fl_action_id leg) = Some payout →
  payout = payout_of p ω (fl_action_id leg).
Proof.
  unfold atom_payout_for, payout_of. rewrite <- Ei.
  rewrite (proj2 (index_by_lookup ca_action_id (pb_actions p) _ a (wf_action_ids _ Hwf))) by done.
  rewrite <- Es. destruct (py_next _ _); simpl; congruence.
Qed.

(** The payout variables of the leg multiply its fill with the atoms. *)
Lemma leg_blocks_ok bs :
  Forall2 (λ t b, payout_block leg t = Ok b) (ts_atoms s) bs → 0 ≤ n ≤ fl_quantity_lots leg →
  Forall (block_ok x) bs ↔
  Forall (λ t, x (payout_name (fl_action_id leg) (ta_atom_id t)) = n * x (z (ta_atom_id t))) (ts_atoms s).
Proof.
  intros Hbs Hn. pose proof atom_bits as Hsub.
  induction Hbs as [|t b l bs Hb Hbs IH] in Hsub |- *; [split; constructor|].
  apply Forall_cons in Hsub as [Ht Hsub]. rewrite !Forall_cons, (IH Hsub).
  by destruct (payout_block_ok x leg t b Hb Hn Ht) as [-> _].
Qed.

Lemma leg_blocks_activity bs :
  Forall2 (λ t b, payout_block leg t = Ok b) (ts_atoms s) bs → 0 ≤ n ≤ fl_quantity_lots leg →
  Forall (block_ok x) bs →
  activity x (bs ≫= bk_terms) = n * - Z.max 0 (payout_of p ω (fl_action_id leg)).
Proof.
  intros Hbs Hn Hok. apply (leg_blocks_ok bs Hbs Hn) in Hok.
  set (c t := n * - Z.max 0 (default 0 (atom_payout_for t (fl_action_id leg)))).
  assert (E : activity x (bs ≫= bk_terms) = activity x ((λ t, (z (ta_atom_id t), c t)) <$> ts_atoms s)).
  { pose proof atom_bits as Hsub.
    induction Hbs as [|t b l bs Hb Hbs IH] in Hsub, Hok |- *; [done|].
    apply Forall_cons in Hsub as [Ht Hsub]. apply Forall_cons in Hok as [Hy Hok].
    destruct (payout_block_ok x leg t b Hb Hn Ht) as (_ & payout & Hp & Hact).
    csimpl. rewrite activity_app, Hact, (IH Hok Hsub). unfold activity. csimpl. unfold c. rewrite Hp, Hy. simpl. fold n. lia. }
  rewrite E. pose proof (state_activity p Hwf x ω Ho Hx (λ _, true) c s Hs) as Ea.
  rewrite filter_all in Ea by (apply Forall_forall; done). rewrite Ea. unfold c. f_equal. f_equal. f_equal.
  assert (Hin : ω (ts_market_contract_id s) ∈ ts_atoms s) by (by apply Ho).
  apply list_elem_of_lookup in Hin as (k & Hk). destruct (Forall2_lookup_l _ _ _ _ _ Hbs Hk) as (b & _ & Hb).
  apply bind_Ok in Hb as (payout & Hp%of_option_Ok & _). rewrite Hp. simpl. by apply settled_payout.
Qed.
End leg.

(** ** The whole model *)

Lemma compile_fill_inv fp c :
  compile_fill_adversary fp = Ok c →
  ∃ m fills payouts,
    compile_terminal (fa_source_problem fp) None = Ok m ∧
    Forall2 (λ leg b, fill_block leg = Ok b) (fa_legs fp) fills ∧
    Forall2 (λ leg bs, leg_payout_blocks (fa_source_problem fp) leg = Ok bs) (fa_legs fp) payouts ∧
    cf_model c = linear_model (lm_variables m ++ ((fills ++ mjoin payouts) ≫= bk_variables))
                   (lm_constraints m ++ ((fills ++ mjoin payouts) ≫= bk_rows))
                   (Some (linear_objective MAX ((fills ++ mjoin payouts) ≫= bk_terms))) ∧
    validate_linear_model (cf_model c) = Ok tt ∧
    cf_fill_variables c = (λ leg, (fl_action_id leg, fill_name (fl_action_id leg))) <$> fa_legs fp.
Proof.
  unfold compile_fill_adversary, compile_terminal_model.
  intros (m & Hm & (fills & Hf%mapM_Ok & (payouts & Hp%mapM_Ok & ([] & Hv & [= <-])%bind_Ok)%bind_Ok)%bind_Ok)%bind_Ok.
  by exists m, fills, payouts.
Qed.

Lemma settled_known fp c :
  wf_fill fp → compile_fill_adversary fp = Ok c →
  Forall (λ leg, fl_semantics leg ≠ SEMANTICS_UNKNOWN ∧ 0 < fl_quantity_lots leg) (fa_legs fp).
Proof.
  intros Hfp (m & fills & payouts & _ & Hf & _)%compile_fill_inv. apply Forall_forall. intros leg Hl. split.
  - apply list_elem_of_lookup in Hl as (i & Hi). destruct (Forall2_lookup_l _ _ _ _ _ Hf Hi) as (b & _ & Hb).
    unfold fill_block in Hb. by destruct (fl_semantics leg).
  - exact (proj1 (Forall_forall _ _) (wl_positive _ Hfp) leg Hl).
Qed.

Lemma blocks_feasible m blocks x :
  feasible (linear_model (lm_variables m ++ (blocks ≫= bk_variables)) (lm_constraints m ++ (blocks ≫= bk_rows))
              (Some (linear_objective MAX (blocks ≫= bk_terms)))) x
  ↔ feasible m x ∧ Forall (block_ok x) blocks.
Proof.
  assert (E : Forall (block_ok x) blocks ↔
    Forall (bounds_ok x) (blocks ≫= bk_variables) ∧ Forall (row_ok x) (blocks ≫= bk_rows)).
  { induction blocks as [|b l IH]; csimpl; [rewrite !Forall_nil; tauto|].
    rewrite Forall_cons, !Forall_app, IH. unfold block_ok. tauto. }
  rewrite E. split.
  - intros [Hb Hr]. simpl in Hb, Hr. rewrite sort_on_perm in Hb. rewrite sort_on_perm in Hr.
    apply Forall_app in Hb as [Hb1 Hb2]. apply Forall_app in Hr as [Hr1 Hr2]. done.
  - intros [[Hb1 Hr1] [Hb2 Hr2]]. split; simpl; rewrite sort_on_perm; apply Forall_app; done.
Qed.

Lemma activity_bind x (blocks : list FillBlock) :
  activity x (blocks ≫= bk_terms) = sumZ ((λ b, activity x (bk_terms b)) <$> blocks).
Proof. induction blocks as [|b l IH]; csimpl; [done|]. by rewrite activity_app, IH. Qed.

(** The fill vector of a point. *)
Definition fills_at (x : string → Z) (action_id : string) : Z := x (fill_name action_id).

Lemma fills_admissible x legs fills :
  Forall2 (λ leg b, fill_block leg = Ok b) legs fills → Forall (λ leg, 0 < fl_quantity_lots leg) legs →
  Forall (block_ok x) fills → admissible legs (fills_at x).
Proof.
  unfold admissible. induction 1 as [|leg b l bs Hb Hr IH]; [constructor|].
  intros [Hq Hpos]%Forall_cons [Hk Hok]%Forall_cons. constructor; [by apply (fill_block_ok x leg b)|auto].
Qed.

Lemma fills_activity x legs fills :
  Forall2 (λ leg b, fill_block leg = Ok b) legs fills → Forall (λ leg, 0 < fl_quantity_lots leg) legs →
  activity x (fills ≫= bk_terms) = sumZ ((λ leg, fills_at x (fl_action_id leg) * unit_price leg) <$> legs).
Proof.
  induction 1 as [|leg b l bs Hb Hr IH]; [done|]. intros [Hq Hpos]%Forall_cons.
  csimpl. rewrite activity_app, (IH Hpos). f_equal. by apply (fill_block_ok x leg b).
Qed.

Lemma payouts_activity p x ω legs payouts :
  wf_problem p → outcome p ω → represents p x ω →
  Forall2 (λ leg bs, leg_payout_blocks p leg = Ok bs) legs payouts → Forall (λ leg, 0 < fl_quantity_lots leg) legs →
  admissible legs (fills_at x) → Forall (block_ok x) (mjoin payouts) →
  activity x (mjoin payouts ≫= bk_terms)
  = sumZ ((λ leg, fills_at x (fl_action_id leg) * - Z.max 0 (payout_of p ω (fl_action_id leg))) <$> legs).
Proof.
  intros Hwf Ho Hx. unfold admissible. induction 1 as [|leg bs l bss Hb Hr IH]; [done|].
  intros [Hq Hpos]%Forall_cons [Hn Had]%Forall_cons. csimpl. intros [Hk Hok]%Forall_app.
  rewrite bind_app, activity_app, (IH Hpos Had Hok). f_equal.
  apply leg_payout_blocks_inv in Hb as (a & s & Ha & Ei & Hs & Es & Hbs).
  apply (leg_blocks_activity p Hwf x ω Ho Hx leg a s Ha Ei Hs Es bs Hbs); [by apply admissible_bounds|done].
Qed.

Lemma blocks_objective fp x ω fills payouts :
  wf_fill fp → wf_problem (fa_source_problem fp) → outcome (fa_source_problem fp) ω → represents (fa_source_problem fp) x ω →
  Forall2 (λ leg b, fill_block leg = Ok b) (fa_legs fp) fills →
  Forall2 (λ leg bs, leg_payout_blocks (fa_source_problem fp) leg = Ok bs) (fa_legs fp) payouts →
  Forall (block_ok x) (fills ++ mjoin payouts) →
  activity x ((fills ++ mjoin payouts) ≫= bk_terms) = objective_loss fp (fills_at x) ω.
Proof.
  intros Hfp Hwf Ho Hx Hf Hp [Hk1 Hk2]%Forall_app. pose proof (wl_positive _ Hfp) as Hpos.
  rewrite bind_app, activity_app, (fills_activity x _ _ Hf Hpos),
    (payouts_activity _ x ω _ _ Hwf Ho Hx Hp Hpos (fills_admissible x _ _ Hf Hpos Hk1) Hk2).
  unfold objective_loss. clear. induction (fa_legs fp) as [|leg l IH]; csimpl; lia.
Qed.

(** Every integer point is an admissible fill of an allowed outcome. *)
Lemma fill_point_sound fp c x o :
  wf_fill fp → compile_fill_adversary fp = Ok c → feasible (cf_model c) x → lm_objective (cf_model c) = Some o →
  admissible (fa_legs fp) (fills_at x) ∧ allowed (fa_source_problem fp) (outcome_at (fa_source_problem fp) x) ∧
  activity x (lo_coefficients o) = objective_loss fp (fills_at x) (outcome_at (fa_source_problem fp) x).
Proof.
  intros Hfp (m & fills & payouts & Hm & Hf & Hp & E & _ & _)%compile_fill_inv. rewrite E.
  intros [Hx Hok]%blocks_feasible [= <-]. pose proof (compile_terminal_inv _ _ _ Hm) as (Hwf & _).
  destruct (feasible_represents _ None m x Hm Hx) as [Ho Hrep]. apply Forall_app in Hok as Hok'. destruct Hok' as [Hk1 Hk2].
  split_and!.
  - by apply (fills_admissible x _ fills Hf); [apply wl_positive|].
  - rewrite <- (restrict_None (fa_source_problem fp)) at 1. by apply (terminal_feasible _ None m x).
  - simpl. rewrite activity_sorted. by apply blocks_objective.
Qed.

(** ** The point of a fill vector and an outcome *)

Definition leg_atoms (p : ArbitrageProblem) (leg : FillLeg) : list TerminalAtom :=
  match py_dict ((λ a, (ca_action_id a, ca_market_contract_id a)) <$> pb_actions p) !! fl_action_id leg with
  | Some c => default [] (py_dict ((λ s, (ts_market_contract_id s, ts_atoms s)) <$> pb_terminal_state_sets p) !! c)
  | None => []
  end.

Definition leg_assignment (f : string → Z) (leg : FillLeg) : list (string * Z) :=
  let i := fl_action_id leg in
  match fl_semantics leg with
  | ATOMIC => [(selector_name i, if f i =? 0 then 0 else 1); (fill_name i, f i)]
  | _ => [(fill_name i, f i)]
  end.

Definition payout_assignment (p : ArbitrageProblem) (f : string → Z) (ω : string → TerminalAtom) (leg : FillLeg)
  : list (string * Z) :=
  (λ t, (payout_name (fl_action_id leg) (ta_atom_id t), f (fl_action_id leg) * indicator p ω (z (ta_atom_id t))))
    <$> leg_atoms p leg.

Definition fill_assignment (fp : FillAdversaryProblem) (f : string → Z) (ω : string → TerminalAtom) : list (string * Z) :=
  let p := fa_source_problem fp in
  ((λ v, (iv_name v, indicator p ω (iv_name v))) <$> terminal_variables p) ++
  (fa_legs fp ≫= leg_assignment f) ++ (fa_legs fp ≫= payout_assignment p f ω).

Definition fill_point (fp : FillAdversaryProblem) (f : string → Z) (ω : string → TerminalAtom) (name : string) : Z :=
  default 0 (py_dict (fill_assignment fp f ω) !! name).

Lemma leg_payout_blocks_atoms p leg bs :
  leg_payout_blocks p leg = Ok bs → Forall2 (λ t b, payout_block leg t = Ok b) (leg_atoms p leg) bs.
Proof.
  intros (c & Hc%of_option_Ok & (atoms & Ha%of_option_Ok & Hbs%mapM_Ok)%bind_Ok)%bind_Ok.
  unfold leg_atoms. by rewrite Hc, Ha.
Qed.

Lemma fmap_bind_fst {A} (g : A → list (string * Z)) (l : list A) : (l ≫= g).*1 = l ≫= λ x, (g x).*1.
Proof. induction l as [|x l IH]; csimpl; [done|]. by rewrite fmap_app, IH. Qed.

Lemma fill_names_match f legs fills :
  Forall2 (λ leg b, fill_block leg = Ok b) legs fills →
  (legs ≫= leg_assignment f).*1 = iv_name <$> (fills ≫= bk_variables).
Proof.
  induction 1 as [|leg b l bs Hb _ IH]; [done|]. csimpl. rewrite !fmap_app, IH. f_equal.
  unfold fill_block in Hb. apply bind_Ok in Hb as ([vars rows] & Hv & (u & _ & [= <-])%bind_Ok). unfold leg_assignment.
  by destruct (fl_semantics leg); [injection Hv as <- <-|injection Hv as <- <-|].
Qed.

Lemma payout_names_match p f ω legs payouts :
  Forall2 (λ leg bs, leg_payout_blocks p leg = Ok bs) legs payouts →
  (legs ≫= payout_assignment p f ω).*1 = iv_name <$> (mjoin payouts ≫= bk_variables).
Proof.
  induction 1 as [|leg bs l bss Hb _ IH]; [done|]. csimpl. rewrite bind_app, !fmap_app, IH. f_equal.
  apply leg_payout_blocks_atoms in Hb. unfold payout_assignment.
  induction Hb as [|t b ts bs (y & _ & [= <-])%bind_Ok _ IHb]; [done|]. csimpl. by rewrite IHb.
Qed.

Lemma assignment_NoDup fp c f ω :
  compile_fill_adversary fp = Ok c → NoDup (fill_assignment fp f ω).*1.
Proof.
  intros (m & fills & payouts & Hm & Hf & Hp & E & Hv & _)%compile_fill_inv.
  apply compile_terminal_inv in Hm as (_ & _ & rows & _ & ->).
  apply validate_linear_model_NoDup in Hv. rewrite E in Hv. simpl in Hv. rewrite sort_on_perm, fmap_app, sort_on_perm in Hv.
  unfold fill_assignment. rewrite !fmap_app, (fill_names_match f _ _ Hf), (payout_names_match _ f ω _ _ Hp), <- list_fmap_compose.
  by rewrite bind_app, fmap_app in Hv.
Qed.

Lemma objective_loss_ext fp f g ω :
  (∀ leg, leg ∈ fa_legs fp → f (fl_action_id leg) = g (fl_action_id leg)) → objective_loss fp f ω = objective_loss fp g ω.
Proof. intros E. apply sumZ_fmap_ext. intros leg Hl. by rewrite E. Qed.

Section point.
Context (fp : FillAdversaryProblem) (f : string → Z) (ω : string → TerminalAtom).
Let p := fa_source_problem fp.
Let x := fill_point fp f ω.
Context (Hnd : NoDup (fill_assignment fp f ω).*1) (Hwf : wf_problem p) (Ho : outcome p ω).

Lemma fill_point_lookup k v : (k, v) ∈ fill_assignment fp f ω → x k = v.
Proof. intros Hin. unfold x, fill_point. by rewrite (proj2 (py_dict_lookup _ k v Hnd) Hin). Qed.

Lemma fill_point_indicator s t : s ∈ pb_terminal_state_sets p → t ∈ ts_atoms s →
  x (z (ta_atom_id t)) = indicator p ω (z (ta_atom_id t)).
Proof.
  intros Hs Ht. apply fill_point_lookup. unfold fill_assignment. apply elem_of_app. left.
  apply list_elem_of_fmap. exists (int_variable (z (ta_atom_id t)) 0 1). split; [done|].
  apply list_elem_of_bind. exists s. split; [|done]. apply list_elem_of_fmap. eauto.
Qed.

Lemma fill_point_represents : represents p x ω.
Proof. intros s t Hs Ht. rewrite (fill_point_indicator s t Hs Ht). by apply indicator_represents. Qed.

Lemma fill_point_leg leg kv : leg ∈ fa_legs fp → kv ∈ leg_assignment f leg → x kv.1 = kv.2.
Proof.
  intros Hl Hin. apply fill_point_lookup. unfold fill_assignment. rewrite !elem_of_app. right; left.
  apply list_elem_of_bind. exists leg. by destruct kv.
Qed.

Lemma fill_point_fill leg : leg ∈ fa_legs fp → fills_at x (fl_action_id leg) = f (fl_action_id leg).
Proof.
  intros Hl. unfold fills_at. apply (fill_point_leg leg (fill_name (fl_action_id leg), f (fl_action_id leg)) Hl).
  unfold leg_assignment. destruct (fl_semantics leg); set_solver.
Qed.

Lemma fill_point_selector leg : leg ∈ fa_legs fp → fl_semantics leg = ATOMIC →
  x (selector_name (fl_action_id leg)) = if f (fl_action_id leg) =? 0 then 0 else 1.
Proof.
  intros Hl E. apply (fill_point_leg leg (selector_name (fl_action_id leg), if f (fl_action_id leg) =? 0 then 0 else 1) Hl).
  unfold leg_assignment. rewrite E. set_solver.
Qed.

Lemma fill_point_payout leg t : leg ∈ fa_legs fp → t ∈ leg_atoms p leg →
  x (payout_name (fl_action_id leg) (ta_atom_id t)) = f (fl_action_id leg) * indicator p ω (z (ta_atom_id t)).
Proof.
  intros Hl Ht. apply fill_point_lookup. unfold fill_assignment. rewrite !elem_of_app. right; right.
  apply list_elem_of_bind. exists leg. split; [|done]. apply list_elem_of_fmap. eauto.
Qed.

Lemma fill_blocks_point fills legs :
  Forall2 (λ leg b, fill_block leg = Ok b) legs fills → Forall (λ leg, 0 < fl_quantity_lots leg) legs →
  Forall (.∈ fa_legs fp) legs → admissible legs f → Forall (block_ok x) fills.
Proof.
  induction 1 as [|leg b l bs Hb _ IH]; [constructor|].
  intros [Hq Hpos]%Forall_cons [Hl Hsub]%Forall_cons [Had Hads]%Forall_cons. constructor; [|by apply IH].
  pose proof (fill_point_fill leg Hl) as Ef. unfold fills_at in Ef.
  apply (fill_block_ok x leg b Hb Hq); rewrite Ef; [done|]. by apply fill_point_selector.
Qed.

Lemma payout_blocks_point payouts legs :
  Forall2 (λ leg bs, leg_payout_blocks p leg = Ok bs) legs payouts → Forall (λ leg, 0 < fl_quantity_lots leg) legs →
  Forall (.∈ fa_legs fp) legs → admissible legs f → Forall (block_ok x) (mjoin payouts).
Proof.
  induction 1 as [|leg bs l bss Hb _ IH]; [constructor|].
  intros [Hq Hpos]%Forall_cons [Hl Hsub]%Forall_cons [Had Hads]%Forall_cons. csimpl. apply Forall_app. split; [|by apply IH].
  pose proof (leg_payout_blocks_atoms p leg bs Hb) as Hat.
  apply leg_payout_blocks_inv in Hb as (a & s & Ha & Ei & Hs & Es & Hbs).
  assert (E : leg_atoms p leg = ts_atoms s).
  { unfold leg_atoms. rewrite <- Ei.
    rewrite (py_dict_fmap_lookup ca_action_id ca_market_contract_id _ a (wf_action_ids _ Hwf) Ha).
    rewrite <- Es. by rewrite (py_dict_fmap_lookup ts_market_contract_id ts_atoms _ s (wf_contracts _ Hwf) Hs). }
  apply (leg_blocks_ok p x ω fill_point_represents leg s Hs bs Hbs).
  - rewrite (fill_point_fill leg Hl : x (fill_name (fl_action_id leg)) = _). by apply admissible_bounds.
  - apply Forall_forall. intros t Ht. rewrite (fill_point_payout leg t Hl ltac:(by rewrite E)).
    rewrite (fill_point_fill leg Hl : x (fill_name (fl_action_id leg)) = _). by rewrite (fill_point_indicator s t Hs Ht).
Qed.
End point.

(** Every admissible fill of an allowed outcome is an integer point. *)
Lemma fill_point_complete fp c f ω o :
  wf_fill fp → compile_fill_adversary fp = Ok c → admissible (fa_legs fp) f → allowed (fa_source_problem fp) ω →
  lm_objective (cf_model c) = Some o →
  feasible (cf_model c) (fill_point fp f ω) ∧
  activity (fill_point fp f ω) (lo_coefficients o) = objective_loss fp f ω.
Proof.
  intros Hfp Hc Had Hω Ho'. pose proof (assignment_NoDup fp c f ω Hc) as Hnd.
  apply compile_fill_inv in Hc as (m & fills & payouts & Hm & Hf & Hp & E & _ & _).
  pose proof (compile_terminal_inv _ _ _ Hm) as (Hwf & _). pose proof (al_outcome _ _ Hω) as Ho.
  pose proof (fill_point_represents fp f ω Hnd Hwf Ho) as Hrep. pose proof (wl_positive _ Hfp) as Hpos.
  assert (Hsub : Forall (.∈ fa_legs fp) (fa_legs fp)) by (apply Forall_forall; auto).
  assert (Hok : Forall (block_ok (fill_point fp f ω)) (fills ++ mjoin payouts)).
  { apply Forall_app. split; [by eapply fill_blocks_point|by eapply payout_blocks_point]. }
  rewrite E in Ho' |- *. injection Ho' as <-. split.
  - apply blocks_feasible. split; [|done]. apply (terminal_feasible _ None m _ ω Hm Ho Hrep). by rewrite restrict_None.
  - simpl. rewrite activity_sorted, (blocks_objective fp _ ω fills payouts) by done.
    apply objective_loss_ext. intros leg Hl. by apply fill_point_fill.
Qed.

(** ** Objective and loss *)

Lemma leg_payout_in fp ω leg :
  wf_fill fp → wf_problem (fa_source_problem fp) → outcome (fa_source_problem fp) ω → leg ∈ fa_legs fp →
  ∃ s y, s ∈ pb_terminal_state_sets (fa_source_problem fp) ∧ y ∈ ta_payouts (ω (ts_market_contract_id s)) ∧
    ap_action_id y = fl_action_id leg ∧
    payout_of (fa_source_problem fp) ω (fl_action_id leg) = payout_lower_bound_per_lot_units y.
Proof.
  intros Hfp Hwf Ho Hl. set (p := fa_source_problem fp) in *.
  pose proof (proj1 (Forall_forall _ _) (wl_known _ Hfp) leg Hl) as (a & Ei & Ha)%list_elem_of_fmap.
  pose proof (wf_action_contracts _ Hwf a Ha) as (s & Es & Hs)%list_elem_of_fmap.
  pose proof (wf_atom_in p Hwf s _ Hs (Ho s Hs)) as Hat.
  assert (Hin : fl_action_id leg ∈ ap_action_id <$> ta_payouts (ω (ts_market_contract_id s))).
  { apply (wt_payout_ids _ _ _ Hat). rewrite Ei. apply list_elem_of_fmap_2. by apply list_elem_of_filter. }
  apply list_elem_of_fmap in Hin as (y & E & Hy). exists s, y. split_and!; [done..|].
  rewrite E. apply (payout_of_spec p Hwf ω Ho). apply outcome_payouts_elem. eauto.
Qed.

Lemma objective_is_loss fp f ω :
  wf_fill fp → wf_problem (fa_source_problem fp) → outcome (fa_source_problem fp) ω → payouts_nonneg fp →
  objective_loss fp f ω = fill_loss fp f ω.
Proof.
  intros Hfp Hwf Ho Hnn. apply sumZ_fmap_ext. intros leg Hl.
  destruct (leg_payout_in fp ω leg Hfp Hwf Ho Hl) as (s & y & Hs & Hy & Ey & ->).
  rewrite Z.max_r; [done|]. apply (Hnn s (ω (ts_market_contract_id s)) y Hs (Ho s Hs) Hy). rewrite Ey. by apply list_elem_of_fmap_2.
Qed.

(** The objective never exceeds the loss: an accepted worst case is a real one. *)
Lemma objective_le_loss fp f ω :
  wf_fill fp → admissible (fa_legs fp) f → objective_loss fp f ω ≤ fill_loss fp f ω.
Proof.
  intros Hfp Had. apply sumZ_fmap_le. intros leg Hl.
  pose proof (admissible_bounds leg (f (fl_action_id leg)) (proj1 (Forall_forall _ _) (wl_positive _ Hfp) leg Hl)
    (proj1 (Forall_forall _ _) Had leg Hl)). nia.
Qed.

(** ** The solver-free recomputation *)

(** The quantities a fill vector reports, one per leg. *)
Definition leg_quantities (legs : list FillLeg) (f : string → Z) : list ActionQuantity :=
  (λ leg, AQ (fl_action_id leg) (f (fl_action_id leg))) <$> legs.

(** [sc] selects the atoms of [ω], each contract once. *)
Definition selects (p : ArbitrageProblem) (sc : SettlementScenario) (ω : string → TerminalAtom) : Prop :=
  NoDup (sa_market_contract_id <$> sc_atoms sc) ∧
  ∀ s, s ∈ pb_terminal_state_sets p → SelAtom (ts_market_contract_id s) (ta_atom_id (ω (ts_market_contract_id s))) ∈ sc_atoms sc.

Lemma selects_scenario p ω : wf_problem p → selects p (scenario p ω) ω.
Proof.
  intros Hwf. unfold scenario. split; simpl.
  - rewrite <- list_fmap_compose. by apply sorted_states_NoDup, Hwf.
  - intros s Hs. apply list_elem_of_fmap. exists s. split; [done|]. by apply sorted_states_elem.
Qed.

Lemma leg_loss_exact fp f ω sc qs total leg :
  wf_fill fp → wf_problem (fa_source_problem fp) → outcome (fa_source_problem fp) ω → selects (fa_source_problem fp) sc ω →
  leg ∈ fa_legs fp → 0 ≤ f (fl_action_id leg) ≤ fl_quantity_lots leg →
  qs !! fl_action_id leg = Some (f (fl_action_id leg)) →
  leg_loss (fa_source_problem fp) qs (py_dict ((λ a, (sa_market_contract_id a, sa_atom_id a)) <$> sc_atoms sc)) total leg
  = Ok (total + f (fl_action_id leg) * (unit_price leg - payout_of (fa_source_problem fp) ω (fl_action_id leg))).
Proof.
  intros Hfp Hwf Ho [Hnd Hsel] Hl Hf Hq. set (p := fa_source_problem fp) in *. unfold leg_loss. rewrite Hq. simpl.
  destruct (_ =? 0) eqn:E0; bool_prop; [rewrite E0; f_equal; lia|].
  rewrite (proj2 (Z.ltb_lt 0 _)), (proj2 (Z.leb_le _ (fl_quantity_lots leg))) by lia. cbn [andb require mbind res_bind].
  pose proof (proj1 (Forall_forall _ _) (wl_known _ Hfp) leg Hl) as (a & Ei & Ha)%list_elem_of_fmap.
  pose proof (wf_action_contracts _ Hwf a Ha) as (s & Es & Hs)%list_elem_of_fmap.
  rewrite (proj2 (index_by_lookup ca_action_id (pb_actions p) _ a (wf_action_ids _ Hwf))) by done.
  cbn [of_option mbind res_bind]. rewrite Es.
  rewrite (proj2 (index_by_lookup ts_market_contract_id (pb_terminal_state_sets p) _ s (wf_contracts _ Hwf))) by done.
  pose proof (py_dict_fmap_lookup sa_market_contract_id sa_atom_id (sc_atoms sc) _ Hnd (Hsel s Hs)) as El. simpl in El.
  cbn [mbind option_bind]. rewrite El. simpl default. pose proof (Ho s Hs) as Hw.
  rewrite (proj2 (index_by_lookup ta_atom_id (ts_atoms s) _ _ (state_atom_ids_NoDup p Hwf s Hs)) (conj Hw eq_refl)).
  cbn [of_option mbind res_bind].
  destruct (leg_payout_in fp ω leg Hfp Hwf Ho Hl) as (s' & y & Hs' & Hy & Ey & Epay). fold p in Hs', Epay.
  assert (Ep : atom_payout_for (ω (ts_market_contract_id s)) (fl_action_id leg) = Some (payout_of p ω (fl_action_id leg))).
  { destruct (atom_payout_for (ω (ts_market_contract_id s)) (fl_action_id leg)) as [w|] eqn:Ew.
    - f_equal. exact (settled_payout p Hwf ω leg a s Ha (eq_sym Ei) (eq_sym Es) w Ew).
    - exfalso. unfold atom_payout_for in Ew. destruct (py_next _ _) eqn:En in Ew; [done|].
      pose proof (wf_atom_in p Hwf s _ Hs Hw) as Hat.
      assert (Hin : fl_action_id leg ∈ ap_action_id <$> ta_payouts (ω (ts_market_contract_id s))).
      { apply (wt_payout_ids _ _ _ Hat). rewrite Ei. apply list_elem_of_fmap_2. by apply list_elem_of_filter. }
      apply list_elem_of_fmap in Hin as (y' & E' & Hy'). apply (proj1 (py_next_None _ _) En) in Hy'.
      apply String.eqb_neq in Hy'. congruence. }
  rewrite Ep. cbn [of_option mbind res_bind].
  rewrite (unit_loss_Ok leg (proj1 (Forall_forall _ _) (wl_positive _ Hfp) leg Hl)). cbn [mbind res_bind]. f_equal. lia.
Qed.

(** The recomputation returns the loss of the outcome. *)
Lemma counterexample_exact fp f ω sc :
  wf_fill fp → wf_problem (fa_source_problem fp) → outcome (fa_source_problem fp) ω → selects (fa_source_problem fp) sc ω →
  admissible (fa_legs fp) f →
  counterexample_loss_units fp (leg_quantities (fa_legs fp) f) sc = Ok (fill_loss fp f ω).
Proof.
  intros Hfp Hwf Ho Hsel Had. unfold counterexample_loss_units.
  rewrite size_py_dict by (rewrite <- list_fmap_compose; apply Hsel).
  rewrite length_fmap, Nat.eqb_refl. cbn [require mbind res_bind].
  set (qs := py_dict _). assert (Hqs : ∀ leg, leg ∈ fa_legs fp → qs !! fl_action_id leg = Some (f (fl_action_id leg))).
  { intros leg Hl. unfold qs, leg_quantities. rewrite <- list_fmap_compose.
    by apply (py_dict_fmap_lookup fl_action_id (λ leg, f (fl_action_id leg))); [apply Hfp|]. }
  clearbody qs. unfold fill_loss.
  rewrite (foldM_pure _ (λ total leg, total + f (fl_action_id leg) * (unit_price leg - payout_of (fa_source_problem fp) ω (fl_action_id leg)))).
  - by rewrite foldl_add_sumZ.
  - intros total leg Hl. apply leg_loss_exact; try done; [|by apply Hqs].
    apply admissible_bounds; [apply (proj1 (Forall_forall _ _) (wl_positive _ Hfp) leg Hl)|].
    exact (proj1 (Forall_forall _ _) Had leg Hl).
Qed.

(** ** The bounded oracle *)

Lemma fill_domain_spec leg n :
  0 < fl_quantity_lots leg → fl_semantics leg ≠ SEMANTICS_UNKNOWN → n ∈ fill_domain leg ↔ admissible_fill leg n.
Proof.
  intros Hq Hs. unfold fill_domain, admissible_fill. destruct (fl_semantics leg); [set_solver| |done].
  rewrite list_elem_of_fmap. setoid_rewrite elem_of_seq. split.
  - intros (k & -> & Hk). lia.
  - intros Hn. exists (Z.to_nat n). lia.
Qed.

Lemma fill_domains_Some budget c legs ds : fill_domains budget c legs = Some ds → ds = fill_domain <$> legs.
Proof.
  revert c ds. induction legs as [|leg legs IH]; intros c ds; simpl; [by intros [= <-]|].
  destruct (budget <? _); [done|]. destruct (fill_domains _ _ legs) eqn:E; simpl; [|done]. intros [= <-]. csimpl. f_equal. eauto.
Qed.

(** Vectors of the product are admissible fills, and conversely. *)
Lemma fill_vector_sound legs vs :
  NoDup (fl_action_id <$> legs) → Forall (λ leg, 0 < fl_quantity_lots leg ∧ fl_semantics leg ≠ SEMANTICS_UNKNOWN) legs →
  vs ∈ product (fill_domain <$> legs) → ∃ f, admissible legs f ∧ zip_fills legs vs = leg_quantities legs f.
Proof.
  intros Hnd Hpos Hvs%elem_of_product. exists (λ i, default 0 (py_dict (zip (fl_action_id <$> legs) vs) !! i)).
  assert (Hl : length vs = length legs) by (apply Forall2_length in Hvs; by rewrite length_fmap in Hvs).
  assert (Hlook : ∀ k leg v, legs !! k = Some leg → vs !! k = Some v →
    py_dict (zip (fl_action_id <$> legs) vs) !! fl_action_id leg = Some v).
  { intros k leg v Hk Hv. apply py_dict_lookup; [rewrite fst_zip; [done|rewrite length_fmap; lia]|].
    apply list_elem_of_lookup. exists k. by rewrite lookup_zip_with, list_lookup_fmap, Hk, Hv. }
  split.
  - apply Forall_lookup. intros k leg Hk. destruct (lookup_lt_is_Some_2 vs k) as [v Hv]; [apply lookup_lt_Some in Hk; lia|].
    rewrite (Hlook k leg v Hk Hv). simpl. destruct (proj1 (Forall_lookup _ _) Hpos k leg Hk) as [Hq Hs].
    apply fill_domain_spec; [done|done|]. apply (Forall2_lookup_lr _ _ _ k _ _ Hvs Hv). by rewrite list_lookup_fmap, Hk.
  - unfold zip_fills, leg_quantities. apply list_eq. intros k. rewrite lookup_zip_with, list_lookup_fmap.
    destruct (legs !! k) as [leg|] eqn:Hk; [|done]. simpl.
    destruct (lookup_lt_is_Some_2 vs k) as [v Hv]; [apply lookup_lt_Some in Hk; lia|].
    by rewrite Hv, (Hlook k leg v Hk Hv).
Qed.

Lemma fill_vector_complete legs f :
  Forall (λ leg, 0 < fl_quantity_lots leg ∧ fl_semantics leg ≠ SEMANTICS_UNKNOWN) legs → admissible legs f →
  ∃ vs, vs ∈ product (fill_domain <$> legs) ∧ zip_fills legs vs = leg_quantities legs f.
Proof.
  intros Hpos Had. exists ((λ leg, f (fl_action_id leg)) <$> legs). split.
  - apply elem_of_product. unfold admissible in Had. induction Hpos as [|leg l [Hq Hs] _ IH]; csimpl; [constructor|].
    apply Forall_cons in Had as [Hd Had]. constructor; [by apply fill_domain_spec|auto].
  - unfold zip_fills, leg_quantities. clear. induction legs as [|leg l IH]; csimpl; [done|]. by rewrite IH.
Qed.

(** The two nested loops keep the first largest loss. *)
Section maximum.
Context (fp : FillAdversaryProblem).
Let loss qs sc := counterexample_loss_units fp qs sc.

Definition improves (best best' : fill_best) (pairs : list (list ActionQuantity * SettlementScenario)) : Prop :=
  best.1.1 ≤ best'.1.1 ∧ (∀ q, q ∈ pairs → ∃ l, loss q.1 q.2 = Ok l ∧ l ≤ best'.1.1) ∧
  (best' = best ∨ ∃ q, q ∈ pairs ∧ loss q.1 q.2 = Ok best'.1.1 ∧ best' = (best'.1.1, q.1, Some q.2)).

Lemma improves_app b1 b2 b3 l k : improves b1 b2 l → improves b2 b3 k → improves b1 b3 (l ++ k).
Proof.
  intros (H1 & A1 & C1) (H2 & A2 & C2). split_and!; [lia| |].
  - intros q [Hq|Hq]%elem_of_app; [|by apply A2]. destruct (A1 q Hq) as (v & ? & ?). exists v. split; [done|lia].
  - destruct C2 as [->|(q & Hq & ? & ?)]; [|right; exists q; set_solver].
    destruct C1 as [->|(q & Hq & ? & ?)]; [by left|right; exists q; set_solver].
Qed.

Lemma inner_max qs best scs best' :
  foldM (fill_step fp qs) best scs = Ok best' → improves best best' (pair qs <$> scs).
Proof.
  revert best. induction scs as [|sc scs IH]; intros best; cbn [foldM].
  - intros [= <-]. split_and!; [lia| |by left]. by intros q ?%not_elem_of_nil.
  - intros (b & (v & Hv & [= <-])%bind_Ok & Hr)%bind_Ok. apply IH in Hr. csimpl.
    refine (improves_app _ _ _ [_] _ _ Hr). destruct (best.1.1 <? v) eqn:E; bool_prop; (split_and!; simpl; [lia| |]).
    + intros q ->%list_elem_of_singleton. exists v. split; [done|lia].
    + right. exists (qs, sc). set_solver.
    + intros q ->%list_elem_of_singleton. exists v. split; [done|lia].
    + by left.
Qed.

Lemma outer_max legs vectors scs best best' :
  foldM (λ best fills, foldM (fill_step fp (zip_fills legs fills)) best scs) best vectors = Ok best' →
  improves best best' (vectors ≫= λ vs, pair (zip_fills legs vs) <$> scs).
Proof.
  revert best. induction vectors as [|vs vectors IH]; intros best; cbn [foldM].
  - intros [= <-]. split_and!; [lia| |by left]. by intros q ?%not_elem_of_nil.
  - intros (b & Hb%inner_max & Hr)%bind_Ok. csimpl. by eapply improves_app, IH.
Qed.
End maximum.

(** A closed oracle run returns the largest loss over every admissible fill
    and allowed outcome, with a pair that attains it unless it is zero. *)
Record fill_oracle_spec (fp : FillAdversaryProblem) (w : Z) (r : FillAdversaryOracleResult) : Prop := {
  os_nonneg : 0 ≤ w;
  os_upper : ∀ f ω, admissible (fa_legs fp) f → allowed (fa_source_problem fp) ω → fill_loss fp f ω ≤ w;
  os_attained : w = 0 ∨ ∃ f ω, admissible (fa_legs fp) f ∧ allowed (fa_source_problem fp) ω ∧ fill_loss fp f ω = w ∧
    fo_worst_fill_quantities r = Some (leg_quantities (fa_legs fp) f) ∧
    fo_worst_scenario r = Some (scenario (fa_source_problem fp) ω);
}.

Lemma enumerate_fill_spec fp budget :
  wf_fill fp →
  ∃ r, enumerate_fill_adversary fp budget = Ok r ∧
    (fo_closed r = true → ∃ w, fo_worst_loss_units r = Some w ∧ fill_oracle_spec fp w r) ∧
    (fo_closed r = false → fo_worst_loss_units r = None ∧ is_Some (fo_unknown_reason r)).
Proof.
  intros Hfp. unfold enumerate_fill_adversary.
  destruct (existsb _ _) eqn:Ex; [by eexists; split; [done|]|].
  assert (Hpos : Forall (λ leg, 0 < fl_quantity_lots leg ∧ fl_semantics leg ≠ SEMANTICS_UNKNOWN) (fa_legs fp)).
  { apply Forall_forall. intros leg Hl. split; [apply (proj1 (Forall_forall _ _) (wl_positive _ Hfp) leg Hl)|].
    intros E. apply not_true_iff_false in Ex. apply Ex, existsb_exists. exists leg. rewrite <- list_elem_of_In.
    by rewrite bool_decide_eq_true_2. }
  unfold enumerate_allowed_scenarios.
  destruct (rejects_issues false (validate_problem (fa_source_problem fp))) eqn:Erej.
  { unfold enumerate_scenarios. rewrite Erej. by eexists; split; [done|]. }
  assert (Hwf : wf_problem (fa_source_problem fp)) by (by apply validate_problem_wf, rejects_strict).
  destruct (enumerate_scenarios_cases (fa_source_problem fp) budget false) as (e & -> & He); [by apply wf_enumerable|done|].
  cbn [mbind res_bind]. destruct (se_scenarios e) as [scs|]; [|by eexists; split; [done|]]. destruct He as (-> & _ & _).
  destruct (fill_domains _ _ _) as [ds|] eqn:Ed; [|by eexists; split; [done|]].
  apply fill_domains_Some in Ed as ->.
  assert (Hcex : ∀ vs sc, vs ∈ product (fill_domain <$> fa_legs fp) → sc ∈ allowed_scenarios (fa_source_problem fp) →
    ∃ f ω, admissible (fa_legs fp) f ∧ allowed (fa_source_problem fp) ω ∧ sc = scenario (fa_source_problem fp) ω ∧
      zip_fills (fa_legs fp) vs = leg_quantities (fa_legs fp) f ∧
      counterexample_loss_units fp (zip_fills (fa_legs fp) vs) sc = Ok (fill_loss fp f ω)).
  { intros vs sc Hvs (ω & Hω & ->)%elem_of_allowed_scenarios; [|by apply wf_enumerable].
    destruct (fill_vector_sound (fa_legs fp) vs (wl_unique _ Hfp) Hpos Hvs) as (f & Had & Ef).
    exists f, ω. split_and!; [done..|]. rewrite Ef. apply counterexample_exact; [done|done|apply Hω|by apply selects_scenario|done]. }
  edestruct (safe_Ok (foldM (λ best fills, foldM (fill_step fp (zip_fills (fa_legs fp) fills)) best
    (allowed_scenarios (fa_source_problem fp))) (0, [], None) (product (fill_domain <$> fa_legs fp)))) as (best & Hbest).
  { apply safe_foldM'. intros b vs Hvs. apply safe_foldM'. intros b' sc Hsc. unfold fill_step.
    destruct (Hcex vs sc Hvs Hsc) as (f & ω & _ & _ & _ & _ & ->). done. }
  rewrite Hbest. destruct best as [[w bf] bs]. cbn [mbind res_bind]. eexists. split; [done|]. simpl. split; [|done].
  intros _. exists w. split; [done|]. apply outer_max in Hbest as (H0 & Hall & Hatt). simpl in H0, Hall, Hatt. split; simpl.
  - done.
  - intros f ω Had Hω. destruct (fill_vector_complete (fa_legs fp) f Hpos Had) as (vs & Hvs & Ef).
    destruct (Hall (zip_fills (fa_legs fp) vs, scenario (fa_source_problem fp) ω)) as (l & Hl & Hle).
    { apply list_elem_of_bind. exists vs. split; [|done]. apply list_elem_of_fmap. eexists. split; [done|].
      apply elem_of_allowed_scenarios; [by apply wf_enumerable|eauto]. }
    simpl in Hl. rewrite Ef, (counterexample_exact fp f ω) in Hl; [by injection Hl as <-|done|done|apply Hω|by apply selects_scenario|done].
  - destruct Hatt as [[= -> _ _]|([qs sc] & Hin & Hl & [= -> ->])]; [by left|right]. simpl in Hl.
    apply list_elem_of_bind in Hin as (vs & (sc' & [= -> ->] & Hsc)%list_elem_of_fmap & Hvs).
    destruct (Hcex vs sc' Hvs Hsc) as (f & ω & Had & Hω & -> & Ef & E). exists f, ω. rewrite E in Hl. injection Hl as <-.
    by rewrite Ef.
Qed.
