(* ===== verification/FillProof.v ===== *)
(** * The three-state partial-fill proof

    [src/open_trader/prediction_partial_fill.py]: solver evidence, the
    independent verification and [prove_partial_fill], with the proof record
    of [src/open_trader/prediction_n_leg_execution.py].

    The solver backend is a parameter: [sb_solve k m t] is what the [k]-th
    call of [backend.solve(m, time_limit_ms=t)] returns or raises.  The
    evidence goes through [canonical_payload] and back: [read_back] is the
    composition, since the payload of a record carries every field of it and
    the decoder of the embedded problem validates and sorts it. *)

From S2P Require Import Prelude PyValue NLeg NLegForms NLegValidate Oracle LinearModel TerminalModel PartialFill.
Local Open Scope Z_scope.

Definition FILL_ADVERSARY_EVIDENCE_SCHEMA_V1 := "open_trader.prediction_partial_fill.fill_adversary_evidence.v1".
Definition FILL_ADVERSARY_VERIFICATION_SCHEMA_V1 := "open_trader.prediction_partial_fill.fill_adversary_verification.v1".
Definition PARTIAL_FILL_PROOF_SCHEMA_V1 := "open_trader.prediction_n_leg.partial_fill_proof.v1".
Definition PARTIAL_FILL_SAFE := "PARTIAL_FILL_SAFE".
Definition PARTIAL_FILL_UNSAFE := "PARTIAL_FILL_UNSAFE".
Definition PARTIAL_FILL_UNKNOWN := "UNKNOWN".
Definition VERIFIER_QUALIFIED := "QUALIFIED_VERIFIED".
Definition VERIFIER_NOT_APPLICABLE := "NOT_APPLICABLE".
Definition TERMINATION_CLOSED := "CLOSED".

Record SolverBackend := {
  sb_name : string;
  sb_version : string;
  sb_solve : nat → LinearModel → Z → res BackendResult;
}.

Definition native_status_value (s : NativeSolveStatus) : string :=
  match s with
  | NATIVE_OPTIMAL => "OPTIMAL" | NATIVE_FEASIBLE => "FEASIBLE"
  | NATIVE_INFEASIBLE => "INFEASIBLE" | NATIVE_UNKNOWN => "UNKNOWN"
  end.

(** ** Evidence and verification *)

Record FillAdversaryEvidence := {
  ev_schema_version : string;
  ev_problem : FillAdversaryProblem;
  ev_solver_name : string;
  ev_solver_version : string;
  ev_termination : string;
  ev_worst_loss_units : option Z;
  ev_worst_fill_quantities : list ActionQuantity;
  ev_worst_scenario : option SettlementScenario;
}.

(** [FillAdversaryEvidence.__post_init__] *)
Definition check_evidence (e : FillAdversaryEvidence) : res unit :=
  require (ev_schema_version e =? FILL_ADVERSARY_EVIDENCE_SCHEMA_V1)%string (ValueError "invalid fill adversary evidence");;
  mapM (λ f, require (negb (f.2 =? "")%string) (ValueError ("evidence " +:+ f.1 +:+ " must be a non-empty string")))
    [("solver_name", ev_solver_name e); ("solver_version", ev_solver_version e); ("termination", ev_termination e)];;
  let none := match ev_worst_loss_units e with None => true | Some _ => false end in
  let no_fills := Nat.eqb (length (ev_worst_fill_quantities e)) 0 in
  let no_scenario := match ev_worst_scenario e with None => true | Some _ => false end in
  if (ev_termination e =? TERMINATION_CLOSED)%string
  then require (negb (none || no_fills || no_scenario)) (ValueError "closed evidence requires worst loss, fills, atoms")
  else require (none && no_fills && no_scenario) (ValueError "unclosed evidence must not carry worst values").

Record FillAdversaryVerification := {
  vf_schema_version : string;
  vf_status : string;
  vf_problem_fingerprint : string;
  vf_solver_termination : string;
  vf_solver_worst_loss_units : option Z;
  vf_verifier_termination : string;
  vf_verifier_worst_loss_units : option Z;
  vf_counterexample_loss_units : option Z;
  vf_worst_fill_quantities : list ActionQuantity;
  vf_worst_scenario : option SettlementScenario;
  vf_reason : option string;
}.

Record PartialFillProofRecord := {
  pr_execution_solution_fingerprint : string;
  pr_execution_solution_payload_fingerprint : string;
  pr_model_fingerprint : string;
  pr_quote_fingerprint : string;
  pr_cost_fingerprint : string;
  pr_order_semantics_fingerprint : string;
  pr_cap_config_version : string;
  pr_max_partial_fill_loss : Z;
  pr_max_auto_repair_loss : Z;
  pr_solver_lower_bound : Z;
  pr_solver_upper_bound : Z;
  pr_solver_termination : string;
  pr_solver_evidence_fingerprint : string;
  pr_verifier_status : string;
  pr_verifier_fingerprint : string;
  pr_verifier_evidence_fingerprint : string;
  pr_status : string;
  pr_fingerprint : string;
  pr_schema_version : string;
}.

(** ** Payloads *)

Definition raw_scenario_json (s : SettlementScenario) : json := JObj
  [ ("atoms", JArr (selected_atom_json <$> sc_atoms s)) ].

Definition evidence_json (e : FillAdversaryEvidence) : json := JObj
  [ ("schema_version", JStr (ev_schema_version e));
    ("problem", JObj (fill_problem_fields (ev_problem e) ++ [("fingerprint", JStr (fa_fingerprint (ev_problem e)))]));
    ("solver_name", JStr (ev_solver_name e)); ("solver_version", JStr (ev_solver_version e));
    ("termination", JStr (ev_termination e)); ("worst_loss_units", jopt JInt (ev_worst_loss_units e));
    ("worst_fill_quantities", JArr (quantity_json <$> ev_worst_fill_quantities e));
    ("worst_scenario", jopt raw_scenario_json (ev_worst_scenario e)) ].

Definition verification_json (v : FillAdversaryVerification) : json := JObj
  [ ("schema_version", JStr (vf_schema_version v)); ("status", JStr (vf_status v));
    ("problem_fingerprint", JStr (vf_problem_fingerprint v));
    ("solver_termination", JStr (vf_solver_termination v));
    ("solver_worst_loss_units", jopt JInt (vf_solver_worst_loss_units v));
    ("verifier_termination", JStr (vf_verifier_termination v));
    ("verifier_worst_loss_units", jopt JInt (vf_verifier_worst_loss_units v));
    ("counterexample_loss_units", jopt JInt (vf_counterexample_loss_units v));
    ("worst_fill_quantities", JArr (quantity_json <$> vf_worst_fill_quantities v));
    ("worst_scenario", jopt scenario_json (vf_worst_scenario v)); ("reason", jopt JStr (vf_reason v)) ].

Definition record_fields (r : PartialFillProofRecord) : list (string * json) :=
  [ ("execution_solution_fingerprint", JStr (pr_execution_solution_fingerprint r));
    ("execution_solution_payload_fingerprint", JStr (pr_execution_solution_payload_fingerprint r));
    ("model_fingerprint", JStr (pr_model_fingerprint r)); ("quote_fingerprint", JStr (pr_quote_fingerprint r));
    ("cost_fingerprint", JStr (pr_cost_fingerprint r));
    ("order_semantics_fingerprint", JStr (pr_order_semantics_fingerprint r));
    ("cap_config_version", JStr (pr_cap_config_version r));
    ("max_partial_fill_loss", JInt (pr_max_partial_fill_loss r));
    ("max_auto_repair_loss", JInt (pr_max_auto_repair_loss r));
    ("solver_lower_bound", JInt (pr_solver_lower_bound r)); ("solver_upper_bound", JInt (pr_solver_upper_bound r));
    ("solver_termination", JStr (pr_solver_termination r));
    ("solver_evidence_fingerprint", JStr (pr_solver_evidence_fingerprint r));
    ("verifier_status", JStr (pr_verifier_status r)); ("verifier_fingerprint", JStr (pr_verifier_fingerprint r));
    ("verifier_evidence_fingerprint", JStr (pr_verifier_evidence_fingerprint r));
    ("status", JStr (pr_status r)); ("schema_version", JStr (pr_schema_version r)) ].

(** ** Checks of the record *)

(** [value and value.strip() == value] *)
Definition is_text (s : string) : bool :=
  match s with
  | EmptyString => false
  | String c _ => negb (is_space c) &&
      match String.get (String.length s - 1) s with Some d => negb (is_space d) | None => false end
  end.

Definition check_text (f : string * string) : res unit :=
  require (is_text f.2) (ValueError (f.1 +:+ " must be non-empty text")).

Definition check_nonnegative (f : string * Z) : res unit :=
  require (0 <=? f.2) (ValueError (f.1 +:+ " must be a non-negative integer")).

(** [except (TypeError, ValueError, OverflowError)]; [UnsafeSolverResult] and
    the numeric error of the solver module derive from [ValueError]. *)
Definition is_caught (e : exn) : bool :=
  match e with
  | ValueError _ | OverflowError | NumericUnsafe _ | UnsafeSolverResult _ | TypeError => true
  | _ => false
  end.

Section proof.
Context `{Sha256}.

(** [PartialFillProofRecord.__post_init__] *)
Definition check_proof_record (r : PartialFillProofRecord) : res unit :=
  require (pr_schema_version r =? PARTIAL_FILL_PROOF_SCHEMA_V1)%string (ValueError "unsupported partial-fill proof schema");;
  mapM check_text
    [ ("execution_solution_fingerprint", pr_execution_solution_fingerprint r);
      ("execution_solution_payload_fingerprint", pr_execution_solution_payload_fingerprint r);
      ("model_fingerprint", pr_model_fingerprint r); ("quote_fingerprint", pr_quote_fingerprint r);
      ("cost_fingerprint", pr_cost_fingerprint r);
      ("order_semantics_fingerprint", pr_order_semantics_fingerprint r);
      ("cap_config_version", pr_cap_config_version r); ("solver_termination", pr_solver_termination r);
      ("verifier_status", pr_verifier_status r);
      ("solver_evidence_fingerprint", pr_solver_evidence_fingerprint r);
      ("verifier_fingerprint", pr_verifier_fingerprint r);
      ("verifier_evidence_fingerprint", pr_verifier_evidence_fingerprint r);
      ("status", pr_status r); ("fingerprint", pr_fingerprint r) ];;
  mapM check_nonnegative
    [ ("max_partial_fill_loss", pr_max_partial_fill_loss r); ("max_auto_repair_loss", pr_max_auto_repair_loss r);
      ("solver_lower_bound", pr_solver_lower_bound r); ("solver_upper_bound", pr_solver_upper_bound r) ];;
  require (pr_solver_lower_bound r <=? pr_solver_upper_bound r) (ValueError "solver bounds are inverted");;
  require (pr_fingerprint r =? fingerprint_json (JObj (record_fields r)))%string
    (ValueError "partial-fill proof fingerprint mismatch").

Definition seal_record (r : PartialFillProofRecord) (s : string) : PartialFillProofRecord := {|
  pr_execution_solution_fingerprint := pr_execution_solution_fingerprint r;
  pr_execution_solution_payload_fingerprint := pr_execution_solution_payload_fingerprint r;
  pr_model_fingerprint := pr_model_fingerprint r; pr_quote_fingerprint := pr_quote_fingerprint r;
  pr_cost_fingerprint := pr_cost_fingerprint r;
  pr_order_semantics_fingerprint := pr_order_semantics_fingerprint r;
  pr_cap_config_version := pr_cap_config_version r;
  pr_max_partial_fill_loss := pr_max_partial_fill_loss r;
  pr_max_auto_repair_loss := pr_max_auto_repair_loss r;
  pr_solver_lower_bound := pr_solver_lower_bound r; pr_solver_upper_bound := pr_solver_upper_bound r;
  pr_solver_termination := pr_solver_termination r;
  pr_solver_evidence_fingerprint := pr_solver_evidence_fingerprint r;
  pr_verifier_status := pr_verifier_status r; pr_verifier_fingerprint := pr_verifier_fingerprint r;
  pr_verifier_evidence_fingerprint := pr_verifier_evidence_fingerprint r;
  pr_status := pr_status r; pr_fingerprint := s; pr_schema_version := pr_schema_version r |}.

(** [_proof_record], with the fields [_unknown_record] and
    [prove_partial_fill] pass to it. *)
Definition proof_record (fp : FillAdversaryProblem) (bound : Z) (termination evidence_fingerprint verifier_status
    verifier_fingerprint verifier_evidence_fingerprint status : string) : res PartialFillProofRecord :=
  let fields := {|
    pr_execution_solution_fingerprint := fa_execution_solution_fingerprint fp;
    pr_execution_solution_payload_fingerprint := fa_execution_solution_payload_fingerprint fp;
    pr_model_fingerprint := fa_model_fingerprint fp; pr_quote_fingerprint := fa_quote_fingerprint fp;
    pr_cost_fingerprint := fa_cost_fingerprint fp;
    pr_order_semantics_fingerprint := fa_order_semantics_fingerprint fp;
    pr_cap_config_version := fa_cap_config_version fp;
    pr_max_partial_fill_loss := fa_max_partial_fill_loss fp;
    pr_max_auto_repair_loss := fa_max_auto_repair_loss fp;
    pr_solver_lower_bound := bound; pr_solver_upper_bound := bound;
    pr_solver_termination := termination;
    pr_solver_evidence_fingerprint := evidence_fingerprint;
    pr_verifier_status := verifier_status; pr_verifier_fingerprint := verifier_fingerprint;
    pr_verifier_evidence_fingerprint := verifier_evidence_fingerprint;
    pr_status := status; pr_fingerprint := ""; pr_schema_version := PARTIAL_FILL_PROOF_SCHEMA_V1 |} in
  let r := seal_record fields (fingerprint_json (JObj (record_fields fields))) in
  check_proof_record r;;
  Ok r.

(** [_unknown_record] *)
Definition unknown_record (fp : FillAdversaryProblem) (reason : string) : res PartialFillProofRecord :=
  let termination := "UNKNOWN:" +:+ reason in
  let evidence := {|
    ev_schema_version := FILL_ADVERSARY_EVIDENCE_SCHEMA_V1; ev_problem := fp;
    ev_solver_name := "cp_sat"; ev_solver_version := "unavailable"; ev_termination := termination;
    ev_worst_loss_units := None; ev_worst_fill_quantities := []; ev_worst_scenario := None |} in
  let verification := {|
    vf_schema_version := FILL_ADVERSARY_VERIFICATION_SCHEMA_V1; vf_status := VERIFIER_NOT_APPLICABLE;
    vf_problem_fingerprint := fa_fingerprint fp; vf_solver_termination := termination;
    vf_solver_worst_loss_units := None; vf_verifier_termination := ""; vf_verifier_worst_loss_units := None;
    vf_counterexample_loss_units := None; vf_worst_fill_quantities := []; vf_worst_scenario := None;
    vf_reason := Some reason |} in
  check_evidence evidence;;
  let verification_fingerprint := fingerprint_json (verification_json verification) in
  proof_record fp 0 termination (fingerprint_json (evidence_json evidence)) VERIFIER_NOT_APPLICABLE
    verification_fingerprint verification_fingerprint PARTIAL_FILL_UNKNOWN.

(** ** Solving and verifying *)

(** [_checked_backend_solve] *)
Definition checked_backend_solve (backend : SolverBackend) (call : nat) (m : LinearModel) (time_limit_ms : Z)
  : res BackendResult :=
  result ← sb_solve backend call m time_limit_ms;
  validate_backend_result m result;;
  Ok result.

(** [_scenario_from_values] *)
Definition scenario_from_values (p : ArbitrageProblem) (values : gmap string Z) : res SettlementScenario :=
  states ← mapM (λ s,
    atoms ← mapM (λ t,
      v ← of_option (KeyError (z (ta_atom_id t))) (values !! z (ta_atom_id t));
      Ok (if v =? 1 then [SelAtom (ts_market_contract_id s) (ta_atom_id t)] else [])) (ts_atoms s);
    Ok (mjoin atoms)) (pb_terminal_state_sets p);
  Ok (Scenario (mjoin states)).

(** [tuple(ActionQuantity(action_id, values[name]) for ...)] *)
Definition fills_from_values (fill_variables : list (string * string)) (values : gmap string Z)
  : res (list ActionQuantity) :=
  mapM (λ f, v ← of_option (KeyError f.2) (values !! f.2); Ok (AQ f.1 v)) fill_variables.

Definition set_source_problem (fp : FillAdversaryProblem) (p : ArbitrageProblem) : FillAdversaryProblem := {|
  fa_schema_version := fa_schema_version fp; fa_problem_kind := fa_problem_kind fp;
  fa_execution_solution_fingerprint := fa_execution_solution_fingerprint fp;
  fa_execution_solution_payload_fingerprint := fa_execution_solution_payload_fingerprint fp;
  fa_model_fingerprint := fa_model_fingerprint fp; fa_quote_fingerprint := fa_quote_fingerprint fp;
  fa_cost_fingerprint := fa_cost_fingerprint fp;
  fa_order_semantics_fingerprint := fa_order_semantics_fingerprint fp;
  fa_order_semantics_version := fa_order_semantics_version fp;
  fa_cap_config_version := fa_cap_config_version fp;
  fa_max_partial_fill_loss := fa_max_partial_fill_loss fp;
  fa_max_auto_repair_loss := fa_max_auto_repair_loss fp;
  fa_legs := fa_legs fp; fa_source_problem := p; fa_fingerprint := fa_fingerprint fp |}.

(** [fill_adversary_problem_from_payload(fp.to_payload())]: the leg and
    problem checks run again on the validated, sorted source problem. *)
Definition read_back (fp : FillAdversaryProblem) : res FillAdversaryProblem :=
  mapM check_fill_leg (fa_legs fp);;
  require (bool_decide (length (validate_problem (fa_source_problem fp)) = 0%nat)) (ValueError "invalid problem");;
  let fp' := set_source_problem fp (sorted_problem (fa_source_problem fp)) in
  check_fill_problem fp';;
  Ok fp'.

Definition termination_of (r : BackendResult) : string :=
  if decide (br_status r = NATIVE_OPTIMAL) then TERMINATION_CLOSED
  else "UNCLOSED:" +:+ native_status_value (br_status r).

Definition objective_of (r : BackendResult) : option Z :=
  if decide (br_status r = NATIVE_OPTIMAL) then br_objective_value r else None.

(** The [try] block of [verify_fill_adversary]. *)
Definition verify_steps (e : FillAdversaryEvidence) (backend : SolverBackend) (call : nat) (time_limit_ms : Z)
  : res FillAdversaryVerification :=
  fp ← read_back (ev_problem e);
  check_evidence e;;
  compiled ← compile_fill_adversary fp;
  result ← checked_backend_solve backend call (cf_model compiled) time_limit_ms;
  let closed := (ev_termination e =? TERMINATION_CLOSED)%string in
  counterexample_loss ←
    (if closed then
       sc ← of_option (ValueError "invalid fill adversary counterexample input") (ev_worst_scenario e);
       loss ← counterexample_loss_units fp (ev_worst_fill_quantities e) sc;
       Ok (Some loss)
     else Ok None);
  let '(status, reason) :=
    if negb (ev_termination e =? termination_of result)%string
       || negb (bool_decide (ev_worst_loss_units e = objective_of result))
    then ("MISMATCH", Some "verifier and solver disagree on the worst loss")
    else if negb closed then (VERIFIER_QUALIFIED, None)
    else if negb (bool_decide (counterexample_loss = ev_worst_loss_units e))
    then ("MISMATCH", Some "counterexample fixed-point recomputation disagrees")
    else (VERIFIER_QUALIFIED, None) in
  Ok {| vf_schema_version := FILL_ADVERSARY_VERIFICATION_SCHEMA_V1; vf_status := status;
        vf_problem_fingerprint := fa_fingerprint fp; vf_solver_termination := ev_termination e;
        vf_solver_worst_loss_units := ev_worst_loss_units e;
        vf_verifier_termination := termination_of result; vf_verifier_worst_loss_units := objective_of result;
        vf_counterexample_loss_units := counterexample_loss;
        vf_worst_fill_quantities := ev_worst_fill_quantities e;
        vf_worst_scenario := (λ sc, Scenario (sort_on sa_market_contract_id (sc_atoms sc))) <$> ev_worst_scenario e;
        vf_reason := reason |}.

Definition invalid_verification (message : string) : FillAdversaryVerification := {|
  vf_schema_version := FILL_ADVERSARY_VERIFICATION_SCHEMA_V1; vf_status := "INVALID";
  vf_problem_fingerprint := ""; vf_solver_termination := ""; vf_solver_worst_loss_units := None;
  vf_verifier_termination := ""; vf_verifier_worst_loss_units := None; vf_counterexample_loss_units := None;
  vf_worst_fill_quantities := []; vf_worst_scenario := None; vf_reason := Some message |}.

(** [verify_fill_adversary], its payload decoded. *)
Definition verify_fill_adversary (e : FillAdversaryEvidence) (backend : SolverBackend) (call : nat)
    (time_limit_ms : Z) : res FillAdversaryVerification :=
  match verify_steps e backend call time_limit_ms with
  | Ok v => Ok v
  | Err ex => if is_caught ex then Ok (invalid_verification (exn_message ex)) else Err ex
  end.

(** ** [prove_partial_fill] *)

Record FillCounterexample := {
  fc_fill_quantities : list ActionQuantity;
  fc_scenario : SettlementScenario;
  fc_loss_units : Z;
  fc_cap_units : Z;
  fc_fingerprint : string;
}.

Definition proof_result := (PartialFillProofRecord * option FillCounterexample)%type.

Definition unknown_result (fp : FillAdversaryProblem) (reason : string) : res proof_result :=
  r ← unknown_record fp reason; Ok (r, None).

Definition counterexample_of (filled : list ActionQuantity) (sc : SettlementScenario) (loss cap : Z)
  : FillCounterexample := {|
    fc_fill_quantities := filled; fc_scenario := sc; fc_loss_units := loss; fc_cap_units := cap;
    fc_fingerprint := fingerprint_json (JObj
      [ ("fill_quantities", JArr (quantity_json <$> filled)); ("scenario", scenario_json sc);
        ("loss_units", JInt loss); ("cap_units", JInt cap) ]) |}.

Definition verifier_evidence_json (v : FillAdversaryVerification) : json := JObj
  [ ("termination", JStr (vf_verifier_termination v));
    ("worst_loss_units", jopt JInt (vf_verifier_worst_loss_units v));
    ("counterexample_loss_units", jopt JInt (vf_counterexample_loss_units v));
    ("fills", JArr (quantity_json <$> vf_worst_fill_quantities v));
    ("scenario", jopt scenario_json (vf_worst_scenario v)) ].

(** The part after the adversary closed: evidence, verification, status. *)
Definition conclude (fp : FillAdversaryProblem) (compiled : CompiledFillAdversary) (backend : SolverBackend)
    (time_limit_ms : Z) (result : BackendResult) : res proof_result :=
  let values := py_dict (br_values result) in
  let worst_loss := br_objective_value result in
  fills ← fills_from_values (cf_fill_variables compiled) values;
  sc ← scenario_from_values (fa_source_problem fp) values;
  let evidence := {|
    ev_schema_version := FILL_ADVERSARY_EVIDENCE_SCHEMA_V1; ev_problem := fp;
    ev_solver_name := sb_name backend; ev_solver_version := sb_version backend;
    ev_termination := TERMINATION_CLOSED; ev_worst_loss_units := worst_loss;
    ev_worst_fill_quantities := fills; ev_worst_scenario := Some sc |} in
  check_evidence evidence;;
  verification ← verify_fill_adversary evidence backend 1 time_limit_ms;
  if negb (vf_status verification =? VERIFIER_QUALIFIED)%string then unknown_result fp "VERIFIER_MISMATCH"
  else
    match worst_loss, vf_counterexample_loss_units verification with
    | Some worst, Some loss =>
        let cap := fa_max_partial_fill_loss fp in
        if (cap <? worst) && (loss <=? cap) then unknown_result fp "VERIFIER_MISMATCH"
        else
          let safe := worst <=? cap in
          let counterexample :=
            if safe then None
            else Some (counterexample_of (filter (λ q, 0 < aq_quantity_lots q) fills) sc loss cap) in
          r ← proof_record fp worst TERMINATION_CLOSED (fingerprint_json (evidence_json evidence)) VERIFIER_QUALIFIED
                (fingerprint_json (verification_json verification))
                (fingerprint_json (verifier_evidence_json verification))
                (if safe then PARTIAL_FILL_SAFE else PARTIAL_FILL_UNSAFE);
          Ok (r, counterexample)
    | _, _ => unknown_result fp "VERIFIER_MISMATCH"
    end.

(** [prove_partial_fill] on a [FillAdversaryProblem]; [None] is the default
    backend when its module is not installed. *)
Definition prove_partial_fill (fp : FillAdversaryProblem) (backend : option SolverBackend) (time_limit_ms : Z)
  : res proof_result :=
  require (0 <? time_limit_ms) (ValueError "time_limit_ms must be a positive integer");;
  if existsb (λ leg, bool_decide (fl_semantics leg = SEMANTICS_UNKNOWN)) (fa_legs fp)
  then unknown_result fp "UNKNOWN_ORDER_SEMANTICS"
  else
    match compile_fill_adversary fp with
    | Err e => if is_caught e then unknown_result fp ("INVALID_INPUT:" +:+ exn_message e) else Err e
    | Ok compiled =>
        match backend with
        | None => unknown_result fp "BACKEND_UNAVAILABLE"
        | Some backend =>
            match checked_backend_solve backend 0 (cf_model compiled) time_limit_ms with
            | Err ModuleNotFoundError => unknown_result fp "BACKEND_UNAVAILABLE"
            | Err e => if is_caught e then unknown_result fp ("INVALID_INPUT:" +:+ exn_message e) else Err e
            | Ok result =>
                if decide (br_status result = NATIVE_OPTIMAL) then conclude fp compiled backend time_limit_ms result
                else unknown_result fp
                  (if decide (br_status result = NATIVE_UNKNOWN) then "TIMEOUT" else "UNCLOSED")
            end
        end
    end.
End proof.
