(* ===== verification/FillProofCorrect.v ===== *)
(** * What a partial-fill proof record means

    An UNSAFE record carries a real counterexample, whatever the backend does;
    a SAFE record bounds the loss of every admissible fill and allowed outcome
    when the backend's OPTIMAL answers are optimal and the legs' payouts are
    non-negative; every other path ends in UNKNOWN. *)

From S2P Require Import Prelude PyValue NLeg NLegForms NLegValidate NLegWf Oracle OracleScenario OracleEval OracleQualify LinearModel TerminalModel SupportCorrect TerminalCorrect PartialFill NLegFormsCorrect FillCorrect FillProof.
Local Open Scope Z_scope.

(** A problem object the public constructor returned. *)
Record constructed `{Sha256} (fp : FillAdversaryProblem) : Prop := {
  co_legs : Forall (λ leg, check_fill_leg leg = Ok tt) (fa_legs fp);
  co_checked : check_fill_problem fp = Ok tt;
  co_sorted : sorted_problem (fa_source_problem fp) = fa_source_problem fp;
}.

Lemma fill_adversary_problem_constructed `{Sha256} e1 e2 m q c o v l1 l2 legs p fp :
  Forall (λ leg, check_fill_leg leg = Ok tt) legs →
  fill_adversary_problem e1 e2 m q c o v l1 l2 legs p = Ok fp → constructed fp.
Proof.
  intros Hlegs (own & _ & ([] & Hc & [= <-])%bind_Ok)%bind_Ok. split; [done|done|]. simpl. apply sorted_problem_idemp.
Qed.

(** The answers the theorems about SAFE rely on: OPTIMAL means that no
    feasible point has a larger objective. *)
Definition optimal_is_optimal (b : SolverBackend) : Prop :=
  ∀ k m t r o v, sb_solve b k m t = Ok r → br_status r = NATIVE_OPTIMAL →
    lm_objective m = Some o → lo_sense o = MAX → br_objective_value r = Some v →
    ∀ x, feasible m x → activity x (lo_coefficients o) ≤ v.

Section records.
Context `{Sha256}.

Lemma proof_record_fields fp bound t e vs vf ve st r :
  proof_record fp bound t e vs vf ve st = Ok r →
  pr_status r = st ∧ pr_solver_upper_bound r = bound ∧ pr_solver_lower_bound r = bound ∧
  pr_max_partial_fill_loss r = fa_max_partial_fill_loss fp ∧ pr_solver_termination r = t ∧ pr_verifier_status r = vs.
Proof. intros (? & _ & [= <-])%bind_Ok. done. Qed.

Lemma unknown_result_fields fp reason r c :
  unknown_result fp reason = Ok (r, c) → pr_status r = PARTIAL_FILL_UNKNOWN ∧ c = None.
Proof.
  intros (r' & (? & _ & Hr%proof_record_fields)%bind_Ok & [= <- <-])%bind_Ok. by destruct Hr.
Qed.

Lemma read_back_id fp fp' : constructed fp → read_back fp = Ok fp' → fp' = fp.
Proof.
  intros Hc (? & _ & (? & _ & (? & _ & [= <-])%bind_Ok)%bind_Ok)%bind_Ok. rewrite (co_sorted _ Hc). by destruct fp.
Qed.
End records.

(** ** Reading a point *)

Section values.
Context (fp : FillAdversaryProblem) (values : gmap string Z).
Let p := fa_source_problem fp.
Let x n := default 0 (values !! n).

Lemma fills_from_values_spec fills :
  fills_from_values ((λ leg, (fl_action_id leg, fill_name (fl_action_id leg))) <$> fa_legs fp) values = Ok fills →
  fills = leg_quantities (fa_legs fp) (fills_at x).
Proof.
  unfold fills_from_values, leg_quantities. intros Hf%mapM_Ok. symmetry. apply list_eq_Forall2. rewrite Forall2_fmap_l in Hf.
  apply Forall2_fmap_l. eapply Forall2_impl; [exact Hf|]. intros leg q (v & Hv%of_option_Ok & [= <-])%bind_Ok.
  simpl in Hv. simpl. f_equal. unfold fills_at, x. by rewrite Hv.
Qed.

Lemma select_one (c : string) (ts : list TerminalAtom) (w : TerminalAtom) ls :
  NoDup (ta_atom_id <$> ts) → w ∈ ts →
  (∀ t, t ∈ ts → x (z (ta_atom_id t)) = if (ta_atom_id t =? ta_atom_id w)%string then 1 else 0) →
  Forall2 (λ t l, (v ← of_option (KeyError (z (ta_atom_id t))) (values !! z (ta_atom_id t));
                   Ok (if v =? 1 then [SelAtom c (ta_atom_id t)] else [])) = Ok l) ts ls →
  mjoin ls = [SelAtom c (ta_atom_id w)].
Proof.
  intros Hnd Hw Hx Hls. induction Hls as [|t l ts ls (v & Hv%of_option_Ok & [= <-])%bind_Ok Hls IH]; [by apply not_elem_of_nil in Hw|].
  csimpl in *. apply NoDup_cons in Hnd as [Ht Hnd]. pose proof (Hx t ltac:(by left)) as Et. unfold x in Et. rewrite Hv in Et. simpl in Et.
  assert (Hrest : ∀ t', t' ∈ ts → x (z (ta_atom_id t')) = if (ta_atom_id t' =? ta_atom_id w)%string then 1 else 0)
    by (intros; apply Hx; by right).
  destruct (ta_atom_id t =? ta_atom_id w)%string eqn:E; rewrite Et; simpl; bool_prop.
  - rewrite <- E. f_equal. assert (Hz : ∀ t', t' ∈ ts → x (z (ta_atom_id t')) = 0).
    { intros t' Ht'. rewrite Hrest by done. destruct (_ =? _)%string eqn:E'; [|done]. bool_prop. destruct Ht.
      rewrite E, <- E'. by apply list_elem_of_fmap_2. }
    clear -Hls Hz. induction Hls as [|t l ts ls (v & Hv%of_option_Ok & [= <-])%bind_Ok Hls IH]; [done|]. csimpl.
    pose proof (Hz t ltac:(by left)) as Et. unfold x in Et. rewrite Hv in Et. simpl in Et. rewrite Et. simpl. apply IH.
    intros. apply Hz. by right.
  - apply IH; [done| |done]. apply elem_of_cons in Hw as [->|Hw]; [done|done].
Qed.

(** The scenario read off a point is the outcome it represents. *)
Lemma scenario_from_values_spec ω sc :
  wf_problem p → outcome p ω → represents p x ω → scenario_from_values p values = Ok sc → selects p sc ω.
Proof.
  intros Hwf Ho Hx (states & Hst%mapM_Ok & [= <-])%bind_Ok.
  enough (mjoin states = (λ s, SelAtom (ts_market_contract_id s) (ta_atom_id (ω (ts_market_contract_id s)))) <$> pb_terminal_state_sets p) as E.
  { split; simpl; rewrite E.
    - rewrite <- list_fmap_compose. apply Hwf.
    - intros s Hs. apply list_elem_of_fmap. by exists s. }
  assert (Hsub : Forall (.∈ pb_terminal_state_sets p) (pb_terminal_state_sets p)) by (apply Forall_forall; auto).
  revert Hsub Hst. generalize (pb_terminal_state_sets p) at 2 3 4. intros l Hsub Hst.
  induction Hst as [|s k l states (ats & Hats%mapM_Ok & [= <-])%bind_Ok _ IH]; [done|].
  apply Forall_cons in Hsub as [Hs Hsub]. csimpl. rewrite (IH Hsub).
  rewrite (select_one (ts_market_contract_id s) (ts_atoms s) (ω (ts_market_contract_id s)) ats); [done|..|done].
  - by apply (state_atom_ids_NoDup p).
  - by apply Ho.
  - intros t Ht. by apply Hx.
Qed.
End values.

Section conclusions.
Context `{Sha256}.

(** A qualified verification of closed evidence recomputed its loss. *)
Lemma verify_qualified e b k t v :
  verify_fill_adversary e b k t = Ok v → vf_status v = VERIFIER_QUALIFIED → ev_termination e = TERMINATION_CLOSED →
  vf_counterexample_loss_units v = ev_worst_loss_units e ∧
  ∃ fp sc loss, read_back (ev_problem e) = Ok fp ∧ ev_worst_scenario e = Some sc ∧
    counterexample_loss_units fp (ev_worst_fill_quantities e) sc = Ok loss ∧ ev_worst_loss_units e = Some loss.
Proof.
  unfold verify_fill_adversary. intros Hv Hq Hc.
  destruct (verify_steps e b k t) as [v'|ex] eqn:Es; [|destruct (is_caught ex); [injection Hv as <-; discriminate Hq|done]].
  injection Hv as ->. unfold verify_steps in Es.
  apply bind_Ok in Es as (fp & Hfp & Es). apply bind_Ok in Es as (? & _ & Es). apply bind_Ok in Es as (cp & _ & Es).
  apply bind_Ok in Es as (r & _ & Es). rewrite Hc, String.eqb_refl in Es.
  apply bind_Ok in Es as (l & Hl & Es). apply bind_Ok in Hl as (sc & Hsc%of_option_Ok & (loss & Hloss & [= <-])%bind_Ok).
  destruct (negb _ || negb _); [injection Es as <-; discriminate Hq|]. cbn [negb] in Es.
  destruct (bool_decide (Some loss = ev_worst_loss_units e)) eqn:El; cbn [negb] in Es; [|injection Es as <-; discriminate Hq].
  injection Es as <-. bool_prop. simpl. split; [done|]. by exists fp, sc, loss.
Qed.

(** What a record that is not UNKNOWN rests on. *)
Record settled (fp : FillAdversaryProblem) (r : PartialFillProofRecord) (ce : option FillCounterexample)
    (c : CompiledFillAdversary) (result : BackendResult) (f : string → Z) (ω : string → TerminalAtom) : Prop := {
  st_admissible : admissible (fa_legs fp) f;
  st_allowed : allowed (fa_source_problem fp) ω;
  st_objective : br_objective_value result = Some (fill_loss fp f ω);
  st_lower : pr_solver_lower_bound r = fill_loss fp f ω;
  st_upper : pr_solver_upper_bound r = fill_loss fp f ω;
  st_cap : pr_max_partial_fill_loss r = fa_max_partial_fill_loss fp;
  st_closed : pr_solver_termination r = TERMINATION_CLOSED ∧ pr_verifier_status r = VERIFIER_QUALIFIED;
  st_verdict :
    (fill_loss fp f ω ≤ fa_max_partial_fill_loss fp ∧ pr_status r = PARTIAL_FILL_SAFE ∧ ce = None) ∨
    (fa_max_partial_fill_loss fp < fill_loss fp f ω ∧ pr_status r = PARTIAL_FILL_UNSAFE ∧
     ∃ cex, ce = Some cex ∧ fc_loss_units cex = fill_loss fp f ω ∧ fc_cap_units cex = fa_max_partial_fill_loss fp ∧
       fc_fill_quantities cex = filter (λ q, 0 < aq_quantity_lots q) (leg_quantities (fa_legs fp) f) ∧
       selects (fa_source_problem fp) (fc_scenario cex) ω);
}.

Lemma compile_variables_nonempty fp c : wf_fill fp → compile_fill_adversary fp = Ok c → lm_variables (cf_model c) ≠ [].
Proof.
  intros Hfp (m & fills & payouts & _ & Hf & _ & -> & _)%compile_fill_inv E. simpl in E.
  apply (f_equal length) in E. unfold sort_on in E. rewrite length_sort, length_app, bind_app, length_app in E. simpl in E.
  pose proof (wl_nonempty _ Hfp). destruct Hf as [|leg b l bs Hb _]; [done|]. unfold fill_block in Hb.
  apply bind_Ok in Hb as ([vars rows] & Hv & (u & _ & [= <-])%bind_Ok). csimpl in E. rewrite length_app in E.
  destruct (fl_semantics leg); [injection Hv as <- <-; simpl in E; lia..|done].
Qed.

Lemma conclude_spec fp c b t result r ce :
  constructed fp → compile_fill_adversary fp = Ok c → validate_backend_result (cf_model c) result = Ok tt →
  br_status result = NATIVE_OPTIMAL → conclude fp c b t result = Ok (r, ce) →
  (pr_status r = PARTIAL_FILL_UNKNOWN ∧ ce = None) ∨ ∃ f ω, settled fp r ce c result f ω.
Proof.
  intros Hco Hc Hval Hopt. pose proof (check_wf_fill fp tt (co_legs _ Hco) (co_checked _ Hco)) as Hfp.
  destruct (validate_backend_result_sound _ _ _ Hval) as (Hx & Hobj & _);
    [by rewrite Hopt|by apply (compile_variables_nonempty fp)|].
  pose proof (compile_fill_inv fp c Hc) as (m & fills & payouts & Hm & _ & _ & Em & _ & Evars).
  pose proof (compile_terminal_inv _ _ _ Hm) as (Hwf & _).
  assert (Ho : lm_objective (cf_model c) = Some (linear_objective MAX ((fills ++ mjoin payouts) ≫= bk_terms))) by (by rewrite Em).
  pose proof (fill_point_sound fp c _ _ Hfp Hc Hx Ho) as (Had & Hω & _).
  assert (Hrep : represents (fa_source_problem fp) (result_point result) (outcome_at (fa_source_problem fp) (result_point result))).
  { apply (feasible_represents _ None m _ Hm). rewrite Em in Hx. by apply blocks_feasible in Hx as [? _]. }
  set (f := fills_at (result_point result)) in *. set (ω := outcome_at (fa_source_problem fp) (result_point result)) in *.
  unfold conclude. intros (fs & Hfs & Hr)%bind_Ok. rewrite Evars in Hfs. apply fills_from_values_spec in Hfs.
  change (fs = leg_quantities (fa_legs fp) f) in Hfs.
  apply bind_Ok in Hr as (sc & Hsc & Hr). apply (scenario_from_values_spec fp _ ω) in Hsc; [|done|apply Hω|exact Hrep].
  apply bind_Ok in Hr as (? & _ & Hr). apply bind_Ok in Hr as (v & Hv & Hr).
  destruct (negb _) eqn:Eq; [left; by eapply unknown_result_fields|]. bool_prop.
  destruct (verify_qualified _ _ _ _ _ Hv Eq eq_refl) as (El & fp' & sc' & loss & Hrb & [= <-] & Hloss & Ew). simpl in El, Hloss, Ew.
  apply (read_back_id fp fp' Hco) in Hrb as ->. rewrite El, Ew in Hr. subst fs.
  rewrite (counterexample_exact fp f ω sc Hfp Hwf (al_outcome _ _ Hω) Hsc Had) in Hloss. injection Hloss as <-.
  destruct (_ && _) eqn:Ecap; [left; by eapply unknown_result_fields|].
  apply bind_Ok in Hr as (r' & (Hst & Hub & Hlb & Hcap & Hcl & Hvs)%proof_record_fields & [= <- <-]). right. exists f, ω.
  split; [done..|]. destruct (fill_loss fp f ω <=? fa_max_partial_fill_loss fp) eqn:E; bool_prop; [left; done|right].
  split_and!; [done|done|]. eexists. by split_and!.
Qed.

(** Every result of [prove_partial_fill] on a constructed problem. *)
Lemma prove_partial_fill_cases fp backend t r ce :
  constructed fp → prove_partial_fill fp backend t = Ok (r, ce) →
  (pr_status r = PARTIAL_FILL_UNKNOWN ∧ ce = None) ∨
  ∃ b c result f ω, backend = Some b ∧ compile_fill_adversary fp = Ok c ∧
    sb_solve b 0 (cf_model c) t = Ok result ∧ br_status result = NATIVE_OPTIMAL ∧ settled fp r ce c result f ω.
Proof.
  intros Hco (? & _ & Hr)%bind_Ok. destruct (existsb _ _); [left; by eapply unknown_result_fields|].
  destruct (compile_fill_adversary fp) as [c|e] eqn:Ec; [|destruct (is_caught e); [left; by eapply unknown_result_fields|done]].
  destruct backend as [b|]; [|left; by eapply unknown_result_fields].
  destruct (checked_backend_solve b 0 (cf_model c) t) as [result|e] eqn:Es.
  - apply bind_Ok in Es as (res' & Hs & ([] & Hval & [= ->])%bind_Ok). case_decide as Hopt; [|left; by eapply unknown_result_fields].
    destruct (conclude_spec fp c b t result r ce Hco Ec Hval Hopt Hr) as [?|(f & ω & Hset)]; [by left|right].
    by exists b, c, result, f, ω.
  - left. destruct e; simpl in Hr; try done; by eapply unknown_result_fields.
Qed.

(** With an honest backend a decided record carries the worst loss. *)
Lemma decided_worst fp b t r ce :
  constructed fp → payouts_nonneg fp → optimal_is_optimal b →
  prove_partial_fill fp (Some b) t = Ok (r, ce) → pr_status r ≠ PARTIAL_FILL_UNKNOWN →
  ∃ c result f ω, compile_fill_adversary fp = Ok c ∧ settled fp r ce c result f ω ∧
    ∀ g ν, admissible (fa_legs fp) g → allowed (fa_source_problem fp) ν → fill_loss fp g ν ≤ fill_loss fp f ω.
Proof.
  intros Hco Hnn Hopt Hp Hst. destruct (prove_partial_fill_cases fp (Some b) t r ce Hco Hp) as [[E _]|Hs]; [congruence|].
  destruct Hs as (b' & c & result & f & ω & [= <-] & Hc & Hsolve & Hopt' & Hset).
  exists c, result, f, ω. split_and!; [done..|]. intros g ν Hg Hν.
  pose proof (check_wf_fill fp tt (co_legs _ Hco) (co_checked _ Hco)) as Hfp.
  pose proof (compile_fill_inv fp c Hc) as (m & fills & payouts & Hm & _ & _ & Em & _).
  pose proof (compile_terminal_inv _ _ _ Hm) as (Hwf & _).
  assert (Ho : lm_objective (cf_model c) = Some (linear_objective MAX ((fills ++ mjoin payouts) ≫= bk_terms))) by (by rewrite Em).
  destruct (fill_point_complete fp c g ν _ Hfp Hc Hg Hν Ho) as [Hx Hv].
  rewrite <- (objective_is_loss fp g ν Hfp Hwf (al_outcome _ _ Hν) Hnn), <- Hv.
  eapply Hopt; [exact Hsolve|done|exact Ho|done|apply Hset|done].
Qed.
End conclusions.
