(* ===== verification/Master.v ===== *)
(** * The master problem of constraint generation

    [compile_master] of [src/open_trader/prediction_solver.py] and its
    helpers: quantities with ordered price slices, excluded vectors, known
    settlement cuts, qualifications and the release profile, as an integer
    program that maximizes the profit under the known cuts. *)

From S2P Require Import Prelude PyValue NLeg NLegForms NLegValidate Oracle Components LinearModel TerminalModel.
Local Open Scope Z_scope.

(** [_int64] *)
Definition int64_value (value : Z) (name : string) : res Z := int64_or value name;; Ok value.

(** ** Release profiles *)

Record ReleaseProfile := {
  rp_delay_seconds : Z;
  rp_occupied_days : Z;
  rp_release_at : datetime;
  rp_eligible_action_ids : list string;
  rp_exact_action_ids : list string;
}.

(** [_canonical_action_ids] *)
Definition canonical_action_ids (value : list string) (name : string) : res (list string) :=
  require (forallb (λ i, negb (i =? "")%string) value) (ValueError (name +:+ " must be a tuple of nonempty action IDs"));;
  require (bool_decide (NoDup value)) (ValueError (name +:+ " must not contain duplicate action IDs"));;
  Ok (sorted_strings value).

(** [ReleaseProfile.__post_init__] *)
Definition make_release_profile (delay_seconds occupied_days : Z) (release_at : datetime) (eligible exact : list string)
  : res ReleaseProfile :=
  require (0 <=? delay_seconds) (ValueError "delay_seconds must be nonnegative");;
  require (0 <? occupied_days) (ValueError "occupied_days must be positive");;
  eligible ← canonical_action_ids eligible "eligible_action_ids";
  exact ← canonical_action_ids exact "exact_action_ids";
  require (negb (bool_decide (exact = []))) (ValueError "exact_action_ids must not be empty");;
  require (forallb (λ i, bool_decide (i ∈ eligible)) exact)
    (ValueError "exact_action_ids must be a subset of eligible_action_ids");;
  Ok {| rp_delay_seconds := delay_seconds; rp_occupied_days := occupied_days; rp_release_at := release_at;
        rp_eligible_action_ids := eligible; rp_exact_action_ids := exact |}.

(** [_release_timing] *)
Definition release_timing (p : ArbitrageProblem) (release_at : datetime) : res (Z * Z) :=
  let delta := dt_us release_at - dt_us (pb_as_of p) in
  seconds ← int64_value (delta_days delta * 86400 + delta_seconds delta + (if delta_microseconds delta =? 0 then 0 else 1))
              "release delay";
  numerator ← int64_value (seconds + 86399) "occupied day numerator";
  Ok (seconds, Z.max 1 (numerator `div` 86400)).

(** [_release_profile] *)
Definition release_profile (p : ArbitrageProblem) (release_at : datetime) (eligible exact : list string)
  : res ReleaseProfile :=
  '(seconds, days) ← release_timing p release_at;
  make_release_profile seconds days release_at eligible exact.

(** ** Names *)

Definition quantity_name (i : string) : string := "q:" +:+ i.
Definition selected_name (i : string) : string := "b:" +:+ i.
Definition slice_fill (i : string) (n : nat) : string := "x:" +:+ i +:+ ":" +:+ str_nat n.
Definition slice_open (i : string) (n : nat) : string := "y:" +:+ i +:+ ":" +:+ str_nat n.
Definition cut_choice (n : nat) : string := "cut-choice:" +:+ str_nat n.

(** [((head, 1), *((name, -coefficient) for ...))] *)
Definition negated (terms : list term) : list term := (λ t, (t.1, - t.2)) <$> terms.

(** ** Quantities and their price slices *)

Definition slice_width (c : ExecutableCostSlice) : Z := last_lot c - first_lot c + 1.

(** The rows of slice [n]; [previous] is the slice before it. *)
Definition slice_rows (i : string) (n : nat) (previous : option ExecutableCostSlice) (c : ExecutableCostSlice)
  : list LinearConstraint :=
  linear_constraint ("slice:capacity:" +:+ i +:+ ":" +:+ str_nat n) [(slice_fill i n, 1); (slice_open i n, - slice_width c)] None (Some 0) ::
  match previous with
  | None => []
  | Some c' =>
      [ linear_constraint ("slice:fill-order:" +:+ i +:+ ":" +:+ str_nat n)
          [(slice_fill i (n - 1), 1); (slice_open i n, - slice_width c')] (Some 0) None;
        linear_constraint ("slice:open-order:" +:+ i +:+ ":" +:+ str_nat n)
          [(slice_open i n, 1); (slice_open i (n - 1), -1)] None (Some 0) ]
  end.

Fixpoint slices_block (i : string) (n : nat) (previous : option ExecutableCostSlice) (slices : list ExecutableCostSlice)
  : list IntVariable * list LinearConstraint :=
  match slices with
  | [] => ([], [])
  | c :: slices =>
      let '(variables, rows) := slices_block i (S n) (Some c) slices in
      (int_variable (slice_fill i n) 0 (slice_width c) :: int_variable (slice_open i n) 0 1 :: variables,
       slice_rows i n previous c ++ rows)
  end.

(** One term per slice, from slice [n] on. *)
Fixpoint fill_terms (i : string) (f : ExecutableCostSlice → Z) (n : nat) (slices : list ExecutableCostSlice) : list term :=
  match slices with
  | [] => []
  | c :: slices => (slice_fill i n, f c) :: fill_terms i f (S n) slices
  end.

Definition action_variables (a : CandidateAction) : list IntVariable :=
  let i := ca_action_id a in
  int_variable (quantity_name i) 0 (ca_max_quantity_lots a) :: int_variable (selected_name i) 0 1 ::
  (slices_block i 0 None (ca_cost_slices a)).1.

Definition action_rows (a : CandidateAction) : list LinearConstraint :=
  let i := ca_action_id a in
  [ linear_constraint ("quantity:min:" +:+ i) [(quantity_name i, 1); (selected_name i, - ca_min_quantity_lots a)] (Some 0) None;
    linear_constraint ("quantity:max:" +:+ i) [(quantity_name i, 1); (selected_name i, - ca_max_quantity_lots a)] None (Some 0) ] ++
  (slices_block i 0 None (ca_cost_slices a)).2 ++
  [ linear_constraint ("quantity:slices:" +:+ i) ((quantity_name i, 1) :: fill_terms i (λ _, -1) 0 (ca_cost_slices a)) (Some 0) (Some 0) ].

Definition cost_terms (actions : list CandidateAction) : list term :=
  actions ≫= λ a, fill_terms (ca_action_id a) incremental_cost_upper_bound_units 0 (ca_cost_slices a).

(** ** Excluded vectors *)

Definition nogood_witness (n : nat) (side i : string) : string :=
  "nogood:" +:+ str_nat n +:+ ":" +:+ side +:+ ":" +:+ i.

(** The witnesses that action [a] differs from its target: variable and row. *)
Definition nogood_action (n : nat) (targets : gmap string Z) (a : CandidateAction) : list (IntVariable * LinearConstraint) :=
  let i := ca_action_id a in
  let target := default 0 (targets !! i) in
  let high := ca_max_quantity_lots a in
  (if 0 <? target then
     let w := nogood_witness n "lower" i in
     let big_m := high - target + 1 in
     [(int_variable w 0 1, linear_constraint (w +:+ ":implies") [(quantity_name i, 1); (w, big_m)] None (Some (target - 1 + big_m)))]
   else []) ++
  (if target <? high then
     let w := nogood_witness n "higher" i in
     [(int_variable w 0 1, linear_constraint (w +:+ ":implies") [(quantity_name i, 1); (w, - (target + 1))] (Some 0) None)]
   else []).

Definition nogood_block (p : ArbitrageProblem) (actions : list CandidateAction) (entry : nat * list ActionQuantity)
  : res (list IntVariable * list LinearConstraint) :=
  let '(n, vector) := entry in
  canonical ← canonical_quantities p vector;
  require (forallb (λ item, bool_decide (aq_action_id item ∈ ca_action_id <$> actions)) canonical)
    (ValueError "excluded vector contains an action outside the component");;
  let targets := py_dict ((λ item, (aq_action_id item, aq_quantity_lots item)) <$> canonical) in
  let witnesses := actions ≫= nogood_action n targets in
  Ok (witnesses.*1,
      witnesses.*2 ++
      [linear_constraint ("nogood:" +:+ str_nat n +:+ ":different")
         ((λ v, (iv_name v, 1)) <$> witnesses.*1) (Some 1) None]).

(** ** Cuts *)

(** [_terms_bounds] *)
Definition terms_bounds (terms : list term) (variables : gmap string IntVariable) : res (Z * Z) :=
  '(minimum, maximum) ← foldM (activity_step variables) (0, 0) terms;
  int64_or minimum "expression minimum";;
  int64_or maximum "expression maximum";;
  Ok (minimum, maximum).

Definition cut_terms (actions : list CandidateAction) (cut : WorstStateCut) : res (list term) :=
  let payouts := py_dict ((λ y, (ap_action_id y, payout_lower_bound_per_lot_units y)) <$> cut_payout_per_lot cut) in
  mapM (λ a, k ← of_option (KeyError (ca_action_id a)) (payouts !! ca_action_id a); Ok (quantity_name (ca_action_id a), k)) actions.

Definition minimum_of (l : list Z) : Z := match l with [] => 0 | v :: l => foldl Z.min v l end.

(** The two rows of one cut. *)
Definition cut_rows (payout_minimum : Z) (entry : nat * (list term * (Z * Z))) : res (list LinearConstraint) :=
  let '(n, (terms, (_, expression_maximum))) := entry in
  let name := "cut:" +:+ str_nat n in
  big_m ← int64_value (expression_maximum - payout_minimum) (name +:+ ".big_m");
  Ok [ linear_constraint (name +:+ ":upper") (("payout", 1) :: negated terms) None (Some 0);
       linear_constraint (name +:+ ":selected-lower") (("payout", 1) :: negated terms ++ [(cut_choice n, - big_m)])
         (Some (- big_m)) None ].

(** ** Qualifications *)

Inductive Semantic := PROFIT | PAYOUT | COST.

Definition semantic_value (s : Semantic) : string :=
  match s with PROFIT => "profit" | PAYOUT => "payout" | COST => "cost" end.

Record QualificationFormula := {
  qf_left_coefficients : list (Semantic * Z);
  qf_right_coefficients : list (Semantic * Z);
  qf_left_constant : Z;
  qf_right_constant : Z;
  qf_positive_denominator : option Semantic;
}.

(** [_product64] *)
Definition product64 (values : list Z) : res Z :=
  foldM (λ result value, int64_value (result * value) "integer product") 1 values.

(** [_qualification_formula] *)
Definition qualification_formula (c : QualificationConstraint) (delay_seconds occupied_days : Z) : res QualificationFormula :=
  let num := qc_threshold_numerator c in
  let den := qc_threshold_denominator c in
  match qc_metric c with
  | GUARANTEED_PROFIT_UNITS =>
      Ok {| qf_left_coefficients := [(PROFIT, den)]; qf_right_coefficients := []; qf_left_constant := 0;
            qf_right_constant := num; qf_positive_denominator := None |}
  | NET_MARGIN_PPM =>
      k ← product64 [1000000; den];
      Ok {| qf_left_coefficients := [(PROFIT, k)]; qf_right_coefficients := [(PAYOUT, num)]; qf_left_constant := 0;
            qf_right_constant := 0; qf_positive_denominator := if 0 <? num then Some PAYOUT else None |}
  | RETURN_ON_COST_PPM =>
      k ← product64 [1000000; den];
      Ok {| qf_left_coefficients := [(PROFIT, k)]; qf_right_coefficients := [(COST, num)]; qf_left_constant := 0;
            qf_right_constant := 0; qf_positive_denominator := if 0 <? num then Some COST else None |}
  | ANNUALIZED_RETURN_PPM =>
      k ← product64 [365; 1000000; den];
      r ← product64 [num; occupied_days];
      Ok {| qf_left_coefficients := [(PROFIT, k)]; qf_right_coefficients := [(COST, r)]; qf_left_constant := 0;
            qf_right_constant := 0; qf_positive_denominator := None |}
  | MAX_CAPITAL_RELEASE_DELAY_SECONDS =>
      k ← product64 [delay_seconds; den];
      Ok {| qf_left_coefficients := []; qf_right_coefficients := []; qf_left_constant := k;
            qf_right_constant := num; qf_positive_denominator := None |}
  end.

(** [_comparison_row]; [_comparison_passes] is [compare]. *)
Definition comparison_row (name : string) (terms : list term) (right : Z) (c : Comparison) : LinearConstraint :=
  match c with
  | GREATER_THAN_OR_EQUAL => linear_constraint name terms (Some right) None
  | LESS_THAN_OR_EQUAL => linear_constraint name terms None (Some right)
  end.

(** The rows of one qualification; [variable] names the semantic values. *)
Definition qualification_rows (profile : ReleaseProfile) (variable : Semantic → string) (c : QualificationConstraint)
  : res (list LinearConstraint) :=
  let name := "qualification:" +:+ qc_constraint_id c in
  formula ← qualification_formula c (rp_delay_seconds profile) (rp_occupied_days profile);
  let positive := match qf_positive_denominator formula with
                  | Some s => [linear_constraint (name +:+ ":positive-" +:+ semantic_value s) [(variable s, 1)] (Some 1) None]
                  | None => [] end in
  right ← mapM (λ t, k ← int64_value (- t.2) (name +:+ "." +:+ semantic_value t.1); Ok (variable t.1, k))
            (qf_right_coefficients formula);
  let terms := ((λ t, (variable t.1, t.2)) <$> qf_left_coefficients formula) ++ right in
  match terms with
  | [] =>
      let passed := compare (qc_comparison c) (qf_left_constant formula) (qf_right_constant formula) in
      Ok (positive ++ [linear_constraint name [] (Some (if passed then 0 else 1)) None])
  | _ =>
      require (qf_left_constant formula =? 0) (ValueError "variable qualification formula cannot have a left constant");;
      Ok (positive ++ [comparison_row name terms (qf_right_constant formula) (qc_comparison c)])
  end.

(** [_minimum_action_payouts] *)
Definition minimum_action_payout (p : ArbitrageProblem) (a : CandidateAction) : res (string * Z) :=
  state ← of_option (KeyError (ca_market_contract_id a))
            (index_by ts_market_contract_id (pb_terminal_state_sets p) !! ca_market_contract_id a);
  payouts ← mapM (λ t, y ← of_option (RuntimeError "generator raised StopIteration") (py_next (λ y, (ap_action_id y =? ca_action_id a)%string) (ta_payouts t));
                       Ok (payout_lower_bound_per_lot_units y)) (ts_atoms state);
  require (negb (bool_decide (payouts = []))) (ValueError "min() iterable argument is empty");;
  Ok (ca_action_id a, minimum_of payouts).

(** The floor on the payout used by the qualifications: every action pays at
    least its minimum over the atoms of its contract. *)
Definition payout_floor (p : ArbitrageProblem) (actions : list CandidateAction) : res (list term) :=
  minimums ← mapM (minimum_action_payout p) (pb_actions p);
  let minimum_payouts := py_dict minimums in
  mapM (λ a, k ← of_option (KeyError (ca_action_id a)) (minimum_payouts !! ca_action_id a);
             Ok (quantity_name (ca_action_id a), k)) actions.

(** The variables and rows of the qualification payout and profit. *)
Definition qualification_block (p : ArbitrageProblem) (actions : list CandidateAction) (variables : gmap string IntVariable)
    (payout_maximum cost_minimum cost_maximum : Z) : res (list IntVariable * list LinearConstraint) :=
  floor_terms ← payout_floor p actions;
  '(floor_minimum, _) ← terms_bounds floor_terms variables;
  low ← int64_value (floor_minimum - cost_maximum) "qualification-profit.lower";
  high ← int64_value (payout_maximum - cost_minimum) "qualification-profit.upper";
  Ok ([ int_variable "qualification-payout" floor_minimum payout_maximum;
        int_variable "qualification-profit" low high ],
      [ linear_constraint "qualification-payout:known-cut-upper" [("qualification-payout", 1); ("payout", -1)] None (Some 0);
        linear_constraint "qualification-payout:terminal-floor" (("qualification-payout", 1) :: negated floor_terms) (Some 0) None;
        linear_constraint "qualification-profit:def"
          [("qualification-profit", 1); ("qualification-payout", -1); ("cost", 1)] (Some 0) (Some 0) ]).

Definition plain_variable (s : Semantic) : string := semantic_value s.
Definition qualified_variable (s : Semantic) : string :=
  match s with PROFIT => "qualification-profit" | PAYOUT => "qualification-payout" | COST => "cost" end.

(** ** Release *)

Definition release_rows (profile : ReleaseProfile) (actions : list CandidateAction) : list LinearConstraint :=
  linear_constraint "release:exact"
    ((λ a, (selected_name (ca_action_id a), 1)) <$>
       filter (λ a, ca_action_id a ∈ rp_exact_action_ids profile) actions) (Some 1) None ::
  ((λ a, linear_constraint ("release:ineligible:" +:+ ca_action_id a) [(selected_name (ca_action_id a), 1)] (Some 0) (Some 0)) <$>
     filter (λ a, ca_action_id a ∉ rp_eligible_action_ids profile) actions).

(** ** [compile_master] *)

Record CompiledMaster := {
  cm_model : LinearModel;
  cm_component : RelationComponent;
  cm_release_profile : ReleaseProfile;
  cm_quantity_variables : list (string * string);
  cm_selected_variables : list (string * string);
}.

#[export] Instance WorstStateCut_eq_dec : EqDecision WorstStateCut.
Proof. solve_decision. Defined.

Section master.
Context `{Sha256}.

Definition compile_master (p : ArbitrageProblem) (component : RelationComponent) (profile : ReleaseProfile)
    (cuts : list WorstStateCut) (excluded : list (list ActionQuantity)) : res CompiledMaster :=
  timing ← release_timing p (rp_release_at profile);
  require (bool_decide ((rp_delay_seconds profile, rp_occupied_days profile) = timing))
    (ValueError "release profile timing does not match release_at");;
  canonical ← mapM (λ cut, cut_from_scenario p (cut_scenario cut)) cuts;
  require (bool_decide (canonical = cuts)) (ValueError "master requires canonical settlement cuts");;
  require (bool_decide (NoDup (cut_id <$> cuts))) (ValueError "repeated settlement cut");;
  actions ← mapM (λ i, of_option (KeyError i) (index_by ca_action_id (pb_actions p) !! i)) (rl_action_ids component);
  require (forallb (λ i, bool_decide (i ∈ rl_action_ids component)) (rp_eligible_action_ids profile))
    (ValueError "release profile contains an eligible action outside the component");;
  require (forallb (λ i, bool_decide (i ∈ rl_action_ids component)) (rp_exact_action_ids profile))
    (ValueError "release profile contains an exact action outside the component");;
  nogoods ← mapM (nogood_block p actions) (imap pair excluded);
  let variables := (actions ≫= action_variables) ++ mjoin nogoods.*1 in
  let rows := (actions ≫= action_rows) ++ mjoin nogoods.*2 in
  '(cost_minimum, cost_maximum) ← terms_bounds (cost_terms actions) (index_by iv_name variables);
  let variables := variables ++ [int_variable "cost" cost_minimum cost_maximum] in
  terms ← mapM (cut_terms actions) cuts;
  require (negb (bool_decide (terms = []))) (ValueError "master requires at least one settlement cut");;
  let variable_map := index_by iv_name variables in
  bounds ← mapM (λ t, terms_bounds t variable_map) terms;
  let payout_minimum := minimum_of bounds.*1 in
  let payout_maximum := minimum_of bounds.*2 in
  cut_constraints ← mapM (cut_rows payout_minimum) (imap pair (zip terms bounds));
  profit_minimum ← int64_value (payout_minimum - cost_maximum) "profit.lower";
  profit_maximum ← int64_value (payout_maximum - cost_minimum) "profit.upper";
  let qualified := negb (bool_decide (pb_qualification_constraints p = [])) in
  '(extra_variables, extra_rows) ←
    (if qualified then qualification_block p actions variable_map payout_maximum cost_minimum cost_maximum
     else Ok ([], []));
  qualification ← mapM (qualification_rows profile (if qualified then qualified_variable else plain_variable))
                    (pb_qualification_constraints p);
  let choices := imap (λ n _, cut_choice n) cuts in
  let model := linear_model
    (variables ++ [int_variable "payout" payout_minimum payout_maximum] ++
     ((λ name, int_variable name 0 1) <$> choices) ++ [int_variable "profit" profit_minimum profit_maximum] ++ extra_variables)
    (rows ++ [linear_constraint "cost:def" (("cost", 1) :: negated (cost_terms actions)) (Some 0) (Some 0);
              linear_constraint "cut-choice:one" ((λ name, (name, 1)) <$> choices) (Some 1) (Some 1)] ++
     mjoin cut_constraints ++
     [linear_constraint "profit:def" [("profit", 1); ("payout", -1); ("cost", 1)] (Some 0) (Some 0)] ++
     extra_rows ++ mjoin qualification ++ release_rows profile actions)
    (Some (linear_objective MAX [("profit", 1)])) in
  validate_linear_model model;;
  Ok {| cm_model := model; cm_component := component; cm_release_profile := profile;
        cm_quantity_variables := (λ a, (ca_action_id a, quantity_name (ca_action_id a))) <$> actions;
        cm_selected_variables := (λ a, (ca_action_id a, selected_name (ca_action_id a))) <$> actions |}.
End master.
