(* ===== verification/Generation.v ===== *)
(** * Solving by constraint generation

    [solve_with_constraint_generation] of
    [src/open_trader/prediction_solver.py] and what it calls: the master
    problem proposes quantities under the settlement cuts known so far, the
    payout adversary answers with the worst settlement, and the cut it violates
    is added until payout and promise agree.

    The backend may answer differently at every call, so the calls are
    numbered: [solver] threads the number of the next call. *)

From S2P Require Import Prelude PyValue NLeg NLegForms NLegValidate IsoFormat Decode Oracle UnionFind Support Search Components LinearModel TerminalModel Master FillProof.
Local Open Scope Z_scope.

(** ** Computations that call the backend *)

Record solver (A : Type) : Type := Solver { run_from : nat → res (A * nat) }.
Arguments Solver {A} _.
Arguments run_from {A} _ _.

#[export] Instance solver_ret : MRet solver := λ A a, Solver (λ call, Ok (a, call)).
#[export] Instance solver_bind : MBind solver := λ A B f m,
  Solver (λ call, match run_from m call with Ok (a, call) => run_from (f a) call | Err e => Err e end).

Definition lift {A} (m : res A) : solver A := Solver (λ call, match m with Ok a => Ok (a, call) | Err e => Err e end).

(** A loop of backend calls. *)
Fixpoint solver_fold {A B} (f : B → A → solver B) (b : B) (l : list A) : solver B :=
  match l with
  | [] => mret b
  | x :: l => b ← f b x; solver_fold f b l
  end.

(** ** Outcomes *)

Inductive TerminationReason :=
  | COMPLETED | SOFT_TIMEOUT | HARD_TIMEOUT | MEMORY_LIMIT | CRASH | INVALID_OUTPUT | PROTOCOL_MISMATCH
  | NUMERIC_UNSAFE | PROOF_UNCLOSED | CLEANUP_UNPROVEN.

Definition termination_value (t : TerminationReason) : string :=
  match t with
  | COMPLETED => "COMPLETED" | SOFT_TIMEOUT => "SOFT_TIMEOUT" | HARD_TIMEOUT => "HARD_TIMEOUT"
  | MEMORY_LIMIT => "MEMORY_LIMIT" | CRASH => "CRASH" | INVALID_OUTPUT => "INVALID_OUTPUT"
  | PROTOCOL_MISMATCH => "PROTOCOL_MISMATCH" | NUMERIC_UNSAFE => "NUMERIC_UNSAFE"
  | PROOF_UNCLOSED => "PROOF_UNCLOSED" | CLEANUP_UNPROVEN => "CLEANUP_UNPROVEN"
  end.

(** [_SolveFailure] *)
Inductive SolveFailure := Unknown (r : UnknownReason) | Terminated (t : TerminationReason).

Definition failure_value (f : SolveFailure) : string :=
  match f with Unknown r => unknown_reason_value r | Terminated t => termination_value t end.

Record BenchmarkLimits := {
  bl_soft_time_limit_ms : Z;
  bl_hard_time_limit_ms : Z;
  bl_memory_limit_bytes : Z;
  bl_max_constraint_generation_rounds : Z;
}.

Record PortfolioCandidate := {
  pc_quantities : list ActionQuantity;
  pc_claimed_guaranteed_profit_units : Z;
}.

Record CertificateEvidence := {
  cf_certificate_sha256 : string;
  cf_certificate_size_bytes : Z;
  cf_completed_certificate_sha256 : option string;
  cf_completed_certificate_size_bytes : option Z;
  cf_checker_name : string;
  cf_checker_version : string;
  cf_checker_exit_code : Z;
  cf_checker_succeeded : bool;
  cf_generation_ns : Z;
  cf_completion_ns : Z;
  cf_check_ns : Z;
}.

(** [SolverEvidence].  The integers put into it here have been checked to fit
    64 bits, so [__post_init__] accepts it. *)
Record SolverEvidence := {
  se_native_status : string;
  se_candidate : option PortfolioCandidate;
  se_objective_bounds : ObjectiveBounds;
  se_worst_scenario : option SettlementScenario;
  se_payout_lower_bound_units : option Z;
  se_cost_upper_bound_units : option Z;
  se_guaranteed_profit_units : option Z;
  se_conservative_capital_release_at : option datetime;
  se_fixed_portfolio_closed : bool;
  se_global_search_closed : bool;
  se_master_rounds : Z;
  se_adversary_rounds : Z;
  se_cuts : list WorstStateCut;
  se_certificate : option CertificateEvidence;
}.

(** [_empty_evidence] *)
Definition empty_evidence (native_status : string) (global_search_closed : bool) (master_rounds adversary_rounds : Z)
    (cuts : list WorstStateCut) : SolverEvidence := {|
  se_native_status := native_status; se_candidate := None; se_objective_bounds := no_bounds;
  se_worst_scenario := None; se_payout_lower_bound_units := None; se_cost_upper_bound_units := None;
  se_guaranteed_profit_units := None; se_conservative_capital_release_at := None;
  se_fixed_portfolio_closed := false; se_global_search_closed := global_search_closed;
  se_master_rounds := master_rounds; se_adversary_rounds := adversary_rounds; se_cuts := cuts; se_certificate := None |}.

Definition failed_evidence (native_status : string) : SolverEvidence := empty_evidence native_status false 0 0 [].

(** ** Backend answers *)

Definition set_status (r : BackendResult) (s : NativeSolveStatus) : BackendResult := {|
  br_status := s; br_values := br_values r; br_objective_value := br_objective_value r;
  br_objective_bound := br_objective_bound r; br_native_status := br_native_status r; br_solve_ns := br_solve_ns r |}.

(** [dict(result.values)[name]] *)
Definition value_of (r : BackendResult) (name : string) : res Z :=
  of_option (KeyError name) (py_dict (br_values r) !! name).

(** [_objective_activity] *)
Definition objective_activity (m : LinearModel) (r : BackendResult) : res Z :=
  objective ← of_option AssertionError (lm_objective m);
  total ← row_activity (py_dict (br_values r)) (lo_coefficients objective);
  int64_value total "objective activity".

(** [_scenario_from_result] *)
Definition scenario_from_result (compiled : CompiledAdversary) (r : BackendResult) : res SettlementScenario :=
  atoms ← filterM (λ entry, v ← value_of r entry.2; Ok (v =? 1)) (ad_atom_variables compiled);
  Ok (Scenario (atoms : list (SelectedAtom * string)).*1).

(** [replace(model, constraints=...)] with one row appended. *)
Definition add_row (m : LinearModel) (row : LinearConstraint) : LinearModel :=
  linear_model (lm_variables m) (lm_constraints m ++ [row]) (lm_objective m).

(** ** Qualifications of a fixed portfolio *)

Definition semantic_of (payout cost profit : Z) (s : Semantic) : Z :=
  match s with PROFIT => profit | PAYOUT => payout | COST => cost end.

(** [_qualification_activity] *)
Definition qualification_activity (coefficients : list (Semantic * Z)) (constant : Z) (values : Semantic → Z) : res Z :=
  foldM (λ result t,
    v ← product64 [t.2; values t.1];
    int64_value (result + v) ("qualification " +:+ semantic_value t.1 +:+ " activity")) constant coefficients.

Definition formula_fails (values : Semantic → Z) (delay days : Z) (c : QualificationConstraint) : res bool :=
  formula ← qualification_formula c delay days;
  if match qf_positive_denominator formula with Some s => values s <=? 0 | None => false end then Ok true
  else
    left ← qualification_activity (qf_left_coefficients formula) (qf_left_constant formula) values;
    right ← qualification_activity (qf_right_coefficients formula) (qf_right_constant formula) values;
    Ok (negb (compare (qc_comparison c) left right)).

(** [_failed_qualification_ids] *)
Definition failed_qualification_ids (p : ArbitrageProblem) (payout cost : Z) (release_at : datetime) : res (list string) :=
  profit ← int64_value (payout - cost) "qualification profit";
  '(delay, days) ← release_timing p release_at;
  failed ← filterM (formula_fails (semantic_of payout cost profit) delay days)
             (sort_on qc_constraint_id (pb_qualification_constraints p));
  Ok (qc_constraint_id <$> (failed : list QualificationConstraint)).

(** [_release_profiles] *)
Fixpoint dedupe_datetimes (l : list datetime) : list datetime :=
  match l with
  | [] => []
  | d :: l => d :: filter (λ e, datetime_eqb e d = false) (dedupe_datetimes l)
  end.

Definition release_profiles (p : ArbitrageProblem) (component : RelationComponent) (releases : gmap string datetime)
  : res (list ReleaseProfile) :=
  dated ← mapM (λ i, d ← of_option (KeyError i) (releases !! i); Ok (i, d)) (rl_action_ids component);
  let sorted_ids := sort_on fst dated in
  let times := sort (λ d e, negb (datetime_ltb e d)) (dedupe_datetimes dated.*2) in
  mapM (λ release_at,
      release_profile p release_at
        (filter (λ e, datetime_ltb release_at e.2 = false) sorted_ids).*1
        (filter (λ e, datetime_eqb e.2 release_at = true) sorted_ids).*1) times.

(** [_evidence_key(evidence) < _evidence_key(best)] *)
Definition evidence_key (e : SolverEvidence) : res (Z * Z * list ActionQuantity) :=
  candidate ← of_option AssertionError (se_candidate e);
  profit ← of_option AssertionError (se_guaranteed_profit_units e);
  cost ← of_option AssertionError (se_cost_upper_bound_units e);
  Ok (- profit, cost, pc_quantities candidate).

Definition key_ltb (k l : Z * Z * list ActionQuantity) : bool :=
  let '(p, c, qs) := k in
  let '(p', c', qs') := l in
  if p =? p' then
    if c =? c' then
      if (length qs =? length qs')%nat then quantities_ltb qs qs' else (length qs <? length qs')%nat
    else c <? c'
  else p <? p'.

Definition evidence_ltb (e best : SolverEvidence) : res bool :=
  k ← evidence_key e; l ← evidence_key best; Ok (key_ltb k l).

Section backend.
Context `{Sha256} (backend : SolverBackend) (time_limit_ms : Z).

(** [_checked_backend_solve] *)
Definition solve_checked (m : LinearModel) : solver BackendResult :=
  Solver (λ call, match checked_backend_solve backend call m time_limit_ms with
                  | Ok r => Ok (r, S call) | Err e => Err e end).

(** ** The lexicographic optimum of the master *)

Record LockState := { lk_model : LinearModel; lk_index : nat }.

(** [solve_and_lock] *)
Definition solve_and_lock (st : LockState) (objective : LinearObjective) : solver (BackendResult * LockState) :=
  let solved_model := set_objective (lk_model st) objective in
  solved ← solve_checked solved_model;
  if bool_decide (br_status solved = NATIVE_OPTIMAL) then
    value ← lift (objective_activity solved_model solved);
    mret (solved, {| lk_model := add_row (lk_model st)
                       (linear_constraint ("objective-lock:" +:+ str_nat (lk_index st)) (lo_coefficients objective)
                          (Some value) (Some value));
                     lk_index := S (lk_index st) |})
  else mret (solved, st).

Definition master_objectives (compiled : CompiledMaster) : list LinearObjective :=
  [ linear_objective MAX [("profit", 1)]; linear_objective MIN [("cost", 1)];
    linear_objective MIN ((λ v, (v.2, 1)) <$> cm_selected_variables compiled) ].

(** The result of a phase: the answer to return, or the state to go on with. *)
Definition phase : Type := (BackendResult * bool) + (option BackendResult * LockState).

Definition leading_step (acc : phase) (objective : LinearObjective) : solver phase :=
  match acc with
  | inl answer => mret (inl answer)
  | inr (_, st) =>
      '(result, st') ← solve_and_lock st objective;
      if bool_decide (br_status result = NATIVE_OPTIMAL) then mret (inr (Some result, st'))
      else if (lk_index st =? 0)%nat then mret (inl (result, false))
      else mret (inl (set_status result NATIVE_UNKNOWN, false))
  end.

Definition tie_step (quantities selected : gmap string string) (acc : phase) (i : string) : solver phase :=
  match acc with
  | inl answer => mret (inl answer)
  | inr (_, st) =>
      selected_variable ← lift (of_option (KeyError i) (selected !! i));
      '(result, st) ← solve_and_lock st (linear_objective MAX [(selected_variable, 1)]);
      if negb (bool_decide (br_status result = NATIVE_OPTIMAL)) then mret (inl (set_status result NATIVE_UNKNOWN, false))
      else
        value ← lift (value_of result selected_variable);
        if value =? 0 then mret (inr (Some result, st))
        else
          quantity_variable ← lift (of_option (KeyError i) (quantities !! i));
          '(result, st) ← solve_and_lock st (linear_objective MIN [(quantity_variable, 1)]);
          if negb (bool_decide (br_status result = NATIVE_OPTIMAL)) then mret (inl (set_status result NATIVE_UNKNOWN, false))
          else mret (inr (Some result, st))
  end.

(** [_solve_master_lexicographically]; the ids of the compiled variables are
    unique, or [compile_master] would have raised. *)
Definition solve_master_lexicographically (compiled : CompiledMaster) : solver (BackendResult * bool) :=
  let selected := py_dict (cm_selected_variables compiled) in
  let quantities := py_dict (cm_quantity_variables compiled) in
  out ← solver_fold leading_step (inr (None, {| lk_model := cm_model compiled; lk_index := 0 |})) (master_objectives compiled);
  out ← solver_fold (tie_step quantities selected) out (sorted_strings (cm_selected_variables compiled).*1);
  match out with
  | inl answer => mret answer
  | inr (result, _) => result ← lift (of_option AssertionError result); mret (result, true)
  end.

(** ** Reachable settlements *)

Definition reachability_row (t : TerminalAtom) : LinearConstraint :=
  linear_constraint ("reachability:" +:+ ta_atom_id t) [(z (ta_atom_id t), 1)] (Some 1) (Some 1).

Record Reachability := { rb_reachable : gmap string (list datetime); rb_unknown : gmap string (list datetime) }.

(** [setdefault(key, []).append(value)] *)
Definition append_at (m : gmap string (list datetime)) (key : string) (d : datetime) : gmap string (list datetime) :=
  <[key := default [] (m !! key) ++ [d]]> m.

Definition reach_atom (terminal : LinearModel) (contract : string) (acc : Reachability) (t : TerminalAtom)
  : solver Reachability :=
  release ← lift (of_option AssertionError (ta_capital_release_at t));
  result ← solve_checked (add_row terminal (reachability_row t));
  mret (match br_status result with
        | NATIVE_OPTIMAL | NATIVE_FEASIBLE =>
            {| rb_reachable := append_at (rb_reachable acc) contract release; rb_unknown := rb_unknown acc |}
        | NATIVE_UNKNOWN =>
            {| rb_reachable := rb_reachable acc; rb_unknown := append_at (rb_unknown acc) contract release |}
        | NATIVE_INFEASIBLE => acc
        end).

Definition is_required (required : option (gset string)) (contract : string) : bool := is_active required contract.

Definition reach_state (terminal : LinearModel) (required : option (gset string)) (acc : Reachability) (s : TerminalStateSet)
  : solver Reachability :=
  let contract := ts_market_contract_id s in
  if negb (is_required required contract) then mret acc
  else solver_fold (reach_atom terminal contract) acc (sort_on ta_atom_id (ts_atoms s)).

(** The latest reachable release of a contract. *)
Definition release_step (required : option (gset string)) (found : Reachability)
    (acc : SolveFailure + gmap string datetime) (s : TerminalStateSet) : SolveFailure + gmap string datetime :=
  let contract := ts_market_contract_id s in
  match acc with
  | inl failure => inl failure
  | inr releases =>
      if negb (is_required required contract) then inr releases
      else
        let unknown := default [] (rb_unknown found !! contract) in
        match max_datetime (default [] (rb_reachable found !! contract)) with
        | None =>
            inl (match unknown with [] => Unknown CONTRADICTORY_CONSTRAINT_MODEL | _ => Terminated PROOF_UNCLOSED end)
        | Some release_at =>
            if existsb (datetime_ltb release_at) unknown then inl (Terminated PROOF_UNCLOSED)
            else inr (<[contract := release_at]> releases)
        end
  end.

(** [_reachable_action_releases] *)
Definition reachable_action_releases (p : ArbitrageProblem) (active required : option (gset string))
  : solver (SolveFailure + gmap string datetime) :=
  terminal ← lift (compile_terminal p active);
  found ← solver_fold (reach_state terminal required) {| rb_reachable := ∅; rb_unknown := ∅ |}
            (sort_on ts_market_contract_id (pb_terminal_state_sets p));
  mret (match foldl (release_step required found) (inr ∅) (pb_terminal_state_sets p) with
        | inl failure => inl failure
        | inr by_contract =>
            inr (py_dict (omap (λ a, (λ d, (ca_action_id a, d)) <$> by_contract !! ca_market_contract_id a) (pb_actions p)))
        end).

Definition seed_row (contract : string) (t : TerminalAtom) : LinearConstraint :=
  linear_constraint ("seed:" +:+ contract +:+ ":" +:+ ta_atom_id t) [(z (ta_atom_id t), 1)] (Some 1) (Some 1).

(** The first atom of a contract that the rows allow. *)
Fixpoint seed_atoms (m : LinearModel) (contract : string) (atoms : list TerminalAtom)
  : solver (SolveFailure + (TerminalAtom * LinearModel)) :=
  match atoms with
  | [] => mret (inl (Unknown CONTRADICTORY_CONSTRAINT_MODEL))
  | t :: atoms =>
      let trial := add_row m (seed_row contract t) in
      result ← solve_checked trial;
      match br_status result with
      | NATIVE_OPTIMAL | NATIVE_FEASIBLE => mret (inr (t, trial))
      | NATIVE_UNKNOWN => mret (inl (Terminated PROOF_UNCLOSED))
      | NATIVE_INFEASIBLE => seed_atoms m contract atoms
      end
  end.

Definition seed_state (acc : SolveFailure + (list SelectedAtom * LinearModel)) (s : TerminalStateSet)
  : solver (SolveFailure + (list SelectedAtom * LinearModel)) :=
  match acc with
  | inl failure => mret (inl failure)
  | inr (selected, m) =>
      out ← seed_atoms m (ts_market_contract_id s) (sort_on ta_atom_id (ts_atoms s));
      mret (match out with
            | inl failure => inl failure
            | inr (t, m) => inr (selected ++ [SelAtom (ts_market_contract_id s) (ta_atom_id t)], m)
            end)
  end.

(** [_deterministic_allowed_scenario] *)
Definition deterministic_allowed_scenario (p : ArbitrageProblem) : solver (SolveFailure + SettlementScenario) :=
  m ← lift (compile_terminal_model p);
  out ← solver_fold seed_state (inr ([], m)) (sort_on ts_market_contract_id (pb_terminal_state_sets p));
  mret (match out with inl failure => inl failure | inr (atoms, _) => inr (Scenario atoms) end).

(** ** The support of a portfolio *)

(** One constraint of the elimination loop of [_minimize_support]; the state is
    the active set and the number of rechecks. *)
Definition recheck (p : ArbitrageProblem) (quantities : list ActionQuantity) (payout cost : Z) (release_at : datetime)
    (max_rechecks : Z) (non_relevant selected : gset string) (base_failures : list string)
    (acc : TerminationReason + (gset string * Z)) (i : string) : solver (TerminationReason + (gset string * Z)) :=
  match acc with
  | inl reason => mret (inl reason)
  | inr (active, rechecks) =>
      if max_rechecks <=? rechecks then mret (inl PROOF_UNCLOSED)
      else
        let trial := active ∖ {[i]} in
        let active_global := non_relevant ∪ trial in
        adversary ← lift (compile_adversary p quantities (Some active_global));
        result ← solve_checked (ad_model adversary);
        if negb (bool_decide (br_status result = NATIVE_OPTIMAL)) then mret (inl PROOF_UNCLOSED)
        else
          trial_payout ← lift (objective_activity (ad_model adversary) result);
          releases ← reachable_action_releases p (Some active_global) (Some selected);
          match releases with
          | inl _ => mret (inl PROOF_UNCLOSED)
          | inr releases =>
              times ← lift (mapM (λ item, of_option (KeyError (aq_action_id item)) (releases !! aq_action_id item)) quantities);
              trial_release ← lift (of_option (ValueError "max() iterable argument is empty") (max_datetime times));
              same ← lift (if (trial_payout =? payout) && datetime_eqb trial_release release_at
                           then failures ← failed_qualification_ids p trial_payout cost trial_release;
                                Ok (bool_decide (failures = base_failures))
                           else Ok false);
              mret (inr (if same : bool then trial else active, rechecks + 1))
          end
  end.

(** [_minimize_support]; its closure loop is the one of
    [derive_selected_support_graph]. *)
Definition minimize_support (p : ArbitrageProblem) (quantities : list ActionQuantity) (payout cost : Z)
    (release_at : datetime) (max_rechecks : Z) : solver (TerminationReason + (SelectedSupportGraph * Z)) :=
  contracts ← lift (mapM (quantity_contract (index_by ca_action_id (pb_actions p))) quantities);
  let selected : gset string := list_to_set contracts in
  let all_ids : gset string := list_to_set (all_constraint_ids p) in
  closure ← lift (support_closure p selected);
  let relevant := closure.1 in
  base_failures ← lift (failed_qualification_ids p payout cost release_at);
  out ← solver_fold (recheck p quantities payout cost release_at max_rechecks (all_ids ∖ relevant) selected base_failures)
          (inr (relevant, 0)) (reverse (sorted_elements relevant));
  match out with
  | inl reason => mret (inl reason)
  | inr (active, rechecks) =>
      let constraint_ids := sorted_elements active in
      edges ← lift (mapM (constraint_contract_ids p) constraint_ids);
      mret (inr ({| sg_action_ids := aq_action_id <$> quantities;
                    sg_contract_ids := sorted_elements (selected ∪ list_to_set (mjoin edges));
                    sg_constraint_ids := constraint_ids;
                    sg_hyperedges := zip constraint_ids edges |}, rechecks))
  end.

(** ** The loop over masters and adversaries *)

Record GenState := {
  gs_cuts : list WorstStateCut;
  gs_best : option SolverEvidence;
  gs_master_rounds : Z;
  gs_adversary_rounds : Z;
  gs_all_closed : bool;
  gs_phases : list string;  (** what [phase_observer] was told *)
}.

Definition unclosed (st : GenState) : SolverEvidence :=
  empty_evidence (termination_value PROOF_UNCLOSED) false (gs_master_rounds st) (gs_adversary_rounds st) (gs_cuts st).

Definition add_round (st : GenState) : GenState := {|
  gs_cuts := gs_cuts st; gs_best := gs_best st; gs_master_rounds := gs_master_rounds st + 1;
  gs_adversary_rounds := gs_adversary_rounds st; gs_all_closed := gs_all_closed st; gs_phases := gs_phases st |}.

Definition and_closed (st : GenState) (closed : bool) : GenState := {|
  gs_cuts := gs_cuts st; gs_best := gs_best st; gs_master_rounds := gs_master_rounds st;
  gs_adversary_rounds := gs_adversary_rounds st; gs_all_closed := gs_all_closed st && closed; gs_phases := gs_phases st |}.

Definition add_adversary_rounds (st : GenState) (n : Z) : GenState := {|
  gs_cuts := gs_cuts st; gs_best := gs_best st; gs_master_rounds := gs_master_rounds st;
  gs_adversary_rounds := gs_adversary_rounds st + n; gs_all_closed := gs_all_closed st; gs_phases := gs_phases st |}.

Definition add_cut (st : GenState) (cut : WorstStateCut) : GenState := {|
  gs_cuts := gs_cuts st ++ [cut]; gs_best := gs_best st; gs_master_rounds := gs_master_rounds st;
  gs_adversary_rounds := gs_adversary_rounds st; gs_all_closed := gs_all_closed st; gs_phases := gs_phases st |}.

Definition set_best (st : GenState) (best : option SolverEvidence) (phases : list string) : GenState := {|
  gs_cuts := gs_cuts st; gs_best := best; gs_master_rounds := gs_master_rounds st;
  gs_adversary_rounds := gs_adversary_rounds st; gs_all_closed := gs_all_closed st; gs_phases := phases |}.

(** What an iteration of [while True] does next. *)
Inductive Next :=
  | Return (e : SolverEvidence) (phases : list string)
  | Again (st : GenState) (excluded : list (list ActionQuantity))
  | Leave (st : GenState).

(** The cuts, with [cut] appended when it is new. *)
Definition with_cut (cuts : list WorstStateCut) (cut : WorstStateCut) : list WorstStateCut :=
  if bool_decide (cut ∈ cuts) then cuts else cuts ++ [cut].

Definition master_quantities (compiled : CompiledMaster) (r : BackendResult) : res (list ActionQuantity) :=
  all ← mapM (λ v, n ← value_of r v.2; Ok (AQ v.1 n)) (cm_quantity_variables compiled);
  Ok (filter (λ item, aq_quantity_lots item ≠ 0) (all : list ActionQuantity)).

Definition found_evidence (mode : SearchMode) (status : NativeSolveStatus) (quantities : list ActionQuantity)
    (payout cost profit : Z) (scenario : SettlementScenario) (release_at : datetime) (st : GenState) (cut : WorstStateCut)
  : SolverEvidence :=
  let admission := bool_decide (mode = ADMISSION) in
  {| se_native_status := native_status_value status;
     se_candidate := Some {| pc_quantities := quantities; pc_claimed_guaranteed_profit_units := profit |};
     se_objective_bounds := {| ob_lower_bound_units := Some profit;
                               ob_upper_bound_units := if admission then None else Some profit;
                               ob_gap_units := if admission then None else Some 0; ob_closed := negb admission |};
     se_worst_scenario := Some scenario; se_payout_lower_bound_units := Some payout;
     se_cost_upper_bound_units := Some cost; se_guaranteed_profit_units := Some profit;
     se_conservative_capital_release_at := Some release_at; se_fixed_portfolio_closed := true;
     se_global_search_closed := false; se_master_rounds := gs_master_rounds st;
     se_adversary_rounds := gs_adversary_rounds st; se_cuts := with_cut (gs_cuts st) cut; se_certificate := None |}.

(** The payout of the adversary confirms the promise of the master: the checks
    of the qualifications and of the support, then the new best. *)
Definition confirmed (p : ArbitrageProblem) (mode : SearchMode) (max_rechecks : Z) (profile : ReleaseProfile)
    (st : GenState) (excluded : list (list ActionQuantity)) (status : NativeSolveStatus) (quantities : list ActionQuantity)
    (payout cost : Z) (scenario : SettlementScenario) : solver Next :=
  let release_at := rp_release_at profile in
  profit ← lift (int64_value (payout - cost) "guaranteed profit");
  failures ← lift (failed_qualification_ids p payout cost release_at);
  match failures with
  | _ :: _ => mret (Again st (excluded ++ [quantities]))
  | [] =>
      support ← minimize_support p quantities payout cost release_at max_rechecks;
      match support with
      | inl reason =>
          mret (Return (empty_evidence (termination_value reason) false (gs_master_rounds st) (gs_adversary_rounds st)
                          (gs_cuts st)) (gs_phases st))
      | inr (graph, rechecks) =>
          let st := add_adversary_rounds st rechecks in
          final_cut ← lift (cut_from_scenario p scenario);
          let evaluation := {|
            pe_quantities := quantities; pe_payout_lower_bound_units := payout; pe_cost_upper_bound_units := cost;
            pe_guaranteed_profit_units := profit; pe_worst_scenario := scenario; pe_worst_state_cut := final_cut;
            pe_conservative_capital_release_at := Some release_at; pe_failed_qualification_ids := [];
            pe_time_qualification := "KNOWN" |} in
          groups ← lift (split_disconnected_solution p evaluation graph);
          if (1 <? length groups)%nat then mret (Again st (excluded ++ [quantities]))
          else
            let evidence := found_evidence mode status quantities payout cost profit scenario release_at st final_cut in
            let phases := if bool_decide (gs_phases st = []) &&
                             (negb (bool_decide (mode = RAW_ARBITRAGE_DIAGNOSTIC)) || (0 <? profit))
                          then gs_phases st ++ ["first_qualified"] else gs_phases st in
            if bool_decide (mode = ADMISSION) then mret (Return evidence phases)
            else
              better ← lift (match gs_best st with
                             | None => Ok true
                             | Some best => evidence_ltb evidence best
                             end);
              mret (Leave (set_best st (if better : bool then Some evidence else gs_best st) phases))
      end
  end.

(** The master found a point: the adversary answers. *)
Definition challenge (p : ArbitrageProblem) (mode : SearchMode) (max_rechecks : Z) (profile : ReleaseProfile) (st : GenState)
    (excluded : list (list ActionQuantity)) (compiled : CompiledMaster) (master_result : BackendResult) (closed : bool)
  : solver Next :=
  let st := and_closed st closed in
  quantities ← lift (master_quantities compiled master_result);
  adversary ← lift (compile_adversary p quantities None);
  adversary_result ← solve_checked (ad_model adversary);
  let st := add_adversary_rounds st 1 in
  if negb (bool_decide (br_status adversary_result = NATIVE_OPTIMAL))
  then mret (Return (unclosed st) (gs_phases st))
  else
    scenario ← lift (scenario_from_result adversary adversary_result);
    payout ← lift (objective_activity (ad_model adversary) adversary_result);
    master_payout ← lift (value_of master_result "payout");
    if payout <? master_payout then
      cut ← lift (cut_from_scenario p scenario);
      if existsb (λ existing, (cut_id existing =? cut_id cut)%string) (gs_cuts st)
      then mret (Return (unclosed st) (gs_phases st))
      else mret (Again (add_cut st cut) excluded)
    else if negb (payout =? master_payout) then mret (Return (unclosed st) (gs_phases st))
    else
      cost ← lift (value_of master_result "cost");
      confirmed p mode max_rechecks profile st excluded (br_status master_result) quantities payout cost scenario.

(** One iteration of [while True]. *)
Definition generation_step (p : ArbitrageProblem) (mode : SearchMode) (max_rounds max_rechecks : Z)
    (component : RelationComponent) (profile : ReleaseProfile) (st : GenState) (excluded : list (list ActionQuantity))
  : solver Next :=
  if max_rounds <=? gs_master_rounds st then mret (Return (unclosed st) (gs_phases st))
  else
    compiled ← lift (compile_master p component profile (gs_cuts st) excluded);
    '(master_result, closed) ← solve_master_lexicographically compiled;
    let st := add_round st in
    match br_status master_result with
    | NATIVE_INFEASIBLE => mret (Leave st)
    | NATIVE_UNKNOWN => mret (Return (unclosed st) (gs_phases st))
    | NATIVE_OPTIMAL | NATIVE_FEASIBLE => challenge p mode max_rechecks profile st excluded compiled master_result closed
    end.

(** [while True] for one release profile: every repetition spends a round. *)
Fixpoint profile_loop (fuel : nat) (p : ArbitrageProblem) (mode : SearchMode) (max_rounds max_rechecks : Z)
    (component : RelationComponent) (profile : ReleaseProfile) (st : GenState) (excluded : list (list ActionQuantity))
  : solver ((SolverEvidence * list string) + GenState) :=
  match fuel with
  | O => lift (Err OutOfFuel)
  | S fuel =>
      next ← generation_step p mode max_rounds max_rechecks component profile st excluded;
      match next with
      | Return e phases => mret (inl (e, phases))
      | Again st excluded => profile_loop fuel p mode max_rounds max_rechecks component profile st excluded
      | Leave st => mret (inr st)
      end
  end.

Definition round_fuel (max_rounds : Z) (st : GenState) : nat := S (Z.to_nat (max_rounds - gs_master_rounds st)).

Definition profile_step (p : ArbitrageProblem) (mode : SearchMode) (max_rounds max_rechecks : Z) (component : RelationComponent)
    (acc : (SolverEvidence * list string) + GenState) (profile : ReleaseProfile)
  : solver ((SolverEvidence * list string) + GenState) :=
  match acc with
  | inl answer => mret (inl answer)
  | inr st => profile_loop (round_fuel max_rounds st) p mode max_rounds max_rechecks component profile st []
  end.

Definition component_search (p : ArbitrageProblem) (mode : SearchMode) (max_rounds max_rechecks : Z)
    (releases : gmap string datetime) (acc : (SolverEvidence * list string) + GenState) (component : RelationComponent)
  : solver ((SolverEvidence * list string) + GenState) :=
  match acc with
  | inl answer => mret (inl answer)
  | inr st =>
      profiles ← lift (release_profiles p component releases);
      solver_fold (profile_step p mode max_rounds max_rechecks component) (inr st) profiles
  end.

(** The part after the loops. *)
Definition finish (p : ArbitrageProblem) (mode : SearchMode) (st : GenState) : res (SolverEvidence * list string) :=
  match gs_best st with
  | None =>
      Ok (empty_evidence (business_status_value NO_QUALIFIED_OPPORTUNITY) true (gs_master_rounds st) (gs_adversary_rounds st)
            (gs_cuts st), gs_phases st)
  | Some best =>
      profit ← of_option AssertionError (se_guaranteed_profit_units best);
      scenario ← of_option AssertionError (se_worst_scenario best);
      final_cut ← cut_from_scenario p scenario;
      let completed := with_cut (gs_cuts st) final_cut in
      let counted status candidate bounds fixed closed rounds adversary_rounds cuts := {|
        se_native_status := status; se_candidate := candidate; se_objective_bounds := bounds;
        se_worst_scenario := se_worst_scenario best; se_payout_lower_bound_units := se_payout_lower_bound_units best;
        se_cost_upper_bound_units := se_cost_upper_bound_units best;
        se_guaranteed_profit_units := se_guaranteed_profit_units best;
        se_conservative_capital_release_at := se_conservative_capital_release_at best;
        se_fixed_portfolio_closed := fixed; se_global_search_closed := closed;
        se_master_rounds := rounds; se_adversary_rounds := adversary_rounds; se_cuts := cuts; se_certificate := se_certificate best |} in
      if negb (gs_all_closed st) then
        Ok (counted (termination_value PROOF_UNCLOSED) (se_candidate best)
              {| ob_lower_bound_units := Some profit; ob_upper_bound_units := None; ob_gap_units := None; ob_closed := false |}
              (se_fixed_portfolio_closed best) false (gs_master_rounds st) (gs_adversary_rounds st) completed, gs_phases st)
      else if bool_decide (mode = RAW_ARBITRAGE_DIAGNOSTIC) && (profit <=? 0) then
        Ok (counted (business_status_value NO_ARBITRAGE) None (se_objective_bounds best) false true
              (se_master_rounds best) (se_adversary_rounds best) (se_cuts best), gs_phases st)
      else
        Ok (counted (se_native_status best) (se_candidate best)
              {| ob_lower_bound_units := Some profit; ob_upper_bound_units := Some profit; ob_gap_units := Some 0; ob_closed := true |}
              (se_fixed_portfolio_closed best) true (gs_master_rounds st) (gs_adversary_rounds st) completed,
            gs_phases st ++ ["optimal"])
  end.

(** ** [solve_with_constraint_generation] *)

(** The problem a request of this mode is about. *)
Definition searched_problem (rq : OracleRequest) : ArbitrageProblem :=
  if decide (rq_mode rq = RAW_ARBITRAGE_DIAGNOSTIC) then diagnostic_problem (rq_problem rq) else rq_problem rq.

(** The early answers; an asset mismatch is reported before any issue. *)
Definition request_failure (rq : OracleRequest) : option UnknownReason :=
  let p := rq_problem rq in
  let issues := validate_problem p in
  let budget := rq_budget rq in
  if negb (rq_schema_version rq =? REQUEST_SCHEMA_V1)%string then Some INVALID_MODEL
  else if existsb (λ a, negb (ca_settlement_asset_id a =? pb_valuation_unit_id p)%string) (pb_actions p)
  then Some UNKNOWN_VALUATION
  else match issues with
       | _ :: _ =>
           Some (if existsb (has_code ["MISSING_ACTION_PAYOUT"; "MISSING_TERMINAL_RULE_IDENTITY"; "MISSING_CAPITAL_RELEASE_AT"]) issues
                 then UNKNOWN_TERMINAL_DATA
                 else if existsb (has_code ["MISSING_ASSET_VALUATION_RULE"]) issues then UNKNOWN_VALUATION else INVALID_MODEL)
       | [] =>
           if (bg_max_quantity_vectors budget <=? 0) || (bg_max_joint_states budget <=? 0) || (bg_max_support_rechecks budget <=? 0)
           then Some INVALID_MODEL else None
       end.

(** The body of the [try]. *)
Definition generate (rq : OracleRequest) (max_rounds : Z) : solver (SolverEvidence * list string) :=
  let p := searched_problem rq in
  releases ← reachable_action_releases p None None;
  match releases with
  | inl failure => mret (failed_evidence (failure_value failure), [])
  | inr releases =>
      seed ← deterministic_allowed_scenario p;
      match seed with
      | inl failure => mret (failed_evidence (failure_value failure), [])
      | inr seed =>
          cut ← lift (cut_from_scenario p seed);
          components ← lift (build_relation_components p None);
          out ← solver_fold (component_search p (rq_mode rq) max_rounds (bg_max_support_rechecks (rq_budget rq)) releases)
                  (inr {| gs_cuts := [cut]; gs_best := None; gs_master_rounds := 0; gs_adversary_rounds := 0;
                          gs_all_closed := true; gs_phases := [] |}) components;
          match out with
          | inl answer => mret answer
          | inr st => lift (finish p (rq_mode rq) st)
          end
      end
  end.
End backend.

(** The evidence, and what the observer was told, in order. *)
Definition solve_with_constraint_generation `{Sha256} (rq : OracleRequest) (backend : SolverBackend) (limits : BenchmarkLimits)
  : res (SolverEvidence * list string) :=
  match request_failure rq with
  | Some reason => Ok (failed_evidence (unknown_reason_value reason), [])
  | None =>
      match run_from (generate backend (bl_soft_time_limit_ms limits) rq (bl_max_constraint_generation_rounds limits)) 0 with
      | Ok (out, _) => Ok out
      | Err (UnsafeSolverResult _) => Ok (failed_evidence (termination_value INVALID_OUTPUT), [])
      | Err (NumericUnsafe _) => Ok (failed_evidence (termination_value NUMERIC_UNSAFE), [])
      | Err e => Err e
      end
  end.
