(* ===== verification/Evidence.v ===== *)
(** * Canonical payloads of proofs and of solver evidence

    The payloads of portfolio proofs ([canonical_payload] of
    [src/open_trader/prediction_n_leg.py]) and of [SolverEvidence]
    ([src/open_trader/prediction_solver.py]), and the evidence decoder. *)

From S2P Require Import Prelude PyValue NLeg NLegForms NLegValidate IsoFormat Decode Generation.
Local Open Scope Z_scope.

(** ** Proofs *)

Definition cut_json (c : WorstStateCut) : json := JObj
  [ ("cut_id", JStr (cut_id c)); ("scenario", scenario_json (cut_scenario c));
    ("payout_per_lot", JArr (payout_json <$> sort_on ap_action_id (cut_payout_per_lot c))) ].

Definition support_graph_json (g : SelectedSupportGraph) : json := JObj
  [ ("action_ids", json_strings (sorted_strings (sg_action_ids g)));
    ("contract_ids", json_strings (sorted_strings (sg_contract_ids g)));
    ("constraint_ids", json_strings (sorted_strings (sg_constraint_ids g)));
    ("hyperedges", JArr ((λ e, JArr [JStr e.1; json_strings e.2]) <$> sort_on fst (sg_hyperedges g))) ].

Definition payout_proof_json (p : PayoutProof) : json := JObj
  [ ("schema_version", JStr (pp_schema_version p)); ("result_kind", JStr (result_kind_value (pp_result_kind p)));
    ("problem_fingerprint", JStr (pp_problem_fingerprint p));
    ("portfolio_fingerprint", jopt JStr (pp_portfolio_fingerprint p));
    ("worst_scenario", jopt scenario_json (pp_worst_scenario p));
    ("worst_state_cut", jopt cut_json (pp_worst_state_cut p));
    ("payout_lower_bound_units", jopt JInt (pp_payout_lower_bound_units p));
    ("cost_upper_bound_units", jopt JInt (pp_cost_upper_bound_units p));
    ("guaranteed_profit_units", jopt JInt (pp_guaranteed_profit_units p));
    ("conservative_capital_release_at", jopt json_datetime (pp_conservative_capital_release_at p));
    ("selected_support_graph", jopt support_graph_json (pp_selected_support_graph p));
    ("proof_method", JStr (pp_proof_method p)); ("request_fingerprint", jopt JStr (pp_request_fingerprint p));
    ("source_problem_fingerprint", jopt JStr (pp_source_problem_fingerprint p));
    ("qualification_fingerprint", jopt JStr (pp_qualification_fingerprint p));
    ("quantity_vectors_total", jopt JInt (pp_quantity_vectors_total p));
    ("quantity_vectors_examined", jopt JInt (pp_quantity_vectors_examined p));
    ("joint_states_per_vector", jopt JInt (pp_joint_states_per_vector p));
    ("rejection_counts", JArr ((λ c, JArr [JStr c.1; JInt c.2]) <$> sort_on fst (pp_rejection_counts p))) ].

Definition solution_json (s : PortfolioSolution) : json := JObj
  [ ("quantities", JArr (quantity_json <$> sort_on aq_action_id (ps_quantities s)));
    ("payout_proof", payout_proof_json (ps_payout_proof s)) ].

Definition proof_datetimes (p : PayoutProof) : list datetime := option_list (pp_conservative_capital_release_at p).

Definition bounds_json (b : ObjectiveBounds) : json := JObj
  [ ("lower_bound_units", jopt JInt (ob_lower_bound_units b)); ("upper_bound_units", jopt JInt (ob_upper_bound_units b));
    ("gap_units", jopt JInt (ob_gap_units b)); ("closed", JBool (ob_closed b)) ].

(** ** Evidence *)

Definition candidate_json (c : PortfolioCandidate) : json := JObj
  [ ("quantities", JArr (quantity_json <$> sort_on aq_action_id (pc_quantities c)));
    ("claimed_guaranteed_profit_units", JInt (pc_claimed_guaranteed_profit_units c)) ].

Definition certificate_json (c : CertificateEvidence) : json := JObj
  [ ("certificate_sha256", JStr (cf_certificate_sha256 c)); ("certificate_size_bytes", JInt (cf_certificate_size_bytes c));
    ("completed_certificate_sha256", jopt JStr (cf_completed_certificate_sha256 c));
    ("completed_certificate_size_bytes", jopt JInt (cf_completed_certificate_size_bytes c));
    ("checker_name", JStr (cf_checker_name c)); ("checker_version", JStr (cf_checker_version c));
    ("checker_exit_code", JInt (cf_checker_exit_code c)); ("checker_succeeded", JBool (cf_checker_succeeded c));
    ("generation_ns", JInt (cf_generation_ns c)); ("completion_ns", JInt (cf_completion_ns c));
    ("check_ns", JInt (cf_check_ns c)) ].

Definition solver_evidence_json (e : SolverEvidence) : json := JObj
  [ ("native_status", JStr (se_native_status e)); ("candidate", jopt candidate_json (se_candidate e));
    ("objective_bounds", bounds_json (se_objective_bounds e)); ("worst_scenario", jopt scenario_json (se_worst_scenario e));
    ("payout_lower_bound_units", jopt JInt (se_payout_lower_bound_units e));
    ("cost_upper_bound_units", jopt JInt (se_cost_upper_bound_units e));
    ("guaranteed_profit_units", jopt JInt (se_guaranteed_profit_units e));
    ("conservative_capital_release_at", jopt json_datetime (se_conservative_capital_release_at e));
    ("fixed_portfolio_closed", JBool (se_fixed_portfolio_closed e));
    ("global_search_closed", JBool (se_global_search_closed e)); ("master_rounds", JInt (se_master_rounds e));
    ("adversary_rounds", JInt (se_adversary_rounds e)); ("cuts", JArr (cut_json <$> se_cuts e));
    ("certificate", jopt certificate_json (se_certificate e)) ].

Definition evidence_datetimes (e : SolverEvidence) : list datetime :=
  option_list (se_conservative_capital_release_at e).

(** ** Decoding *)

(** The same test as another decoder, with a message of its own. *)
Definition reworded {A} (msg : string) (m : res A) : res A :=
  match m with Ok a => Ok a | Err _ => Err (ValueError msg) end.

Definition payload_array (p : json) (name : string) : res (list json) := array_of p name.
Definition payload_string (p : json) (name : string) : res string :=
  reworded (name +:+ " must be a nonempty string") (string_of p name).
Definition payload_text (p : json) (name : string) : res string := reworded (name +:+ " must be text") (text_of p name).
Definition payload_bool (p : json) (name : string) : res bool := reworded (name +:+ " must be a bool") (boolean_of p name).

(** [_strict_int]; a Python integer has no bound. *)
Definition strict_int (p : json) (name : string) : res Z :=
  match p with JInt z => Ok z | _ => Err (ValueError (name +:+ " must be an integer")) end.

Definition payload_int64 (p : json) (name : string) : res Z :=
  z ← strict_int p name; require (in_int64 z) (ValueError (name +:+ " must fit signed int64"));; Ok z.
Definition payload_optional_int64 (p : json) (name : string) : res (option Z) := optional_of (λ p, payload_int64 p name) p.
Definition payload_nonnegative_int (p : json) (name : string) : res Z :=
  z ← strict_int p name; require (0 <=? z) (ValueError (name +:+ " must be nonnegative"));; Ok z.

(** [_payload_datetime] *)
Definition payload_datetime (p : json) (name : string) : res datetime :=
  let malformed := ValueError (name +:+ " must be a UTC timestamp ending in Z") in
  value ← payload_string p name;
  require (ends_with_z value) malformed;;
  decoded ← of_option malformed (fromisoformat (without_last value +:+ "+00:00"));
  require (is_utc decoded) (ValueError (name +:+ " must be UTC"));;
  Ok decoded.

Definition payload_array_with {A} (decode : json → res A) (fields : list (string * json)) (k : string) : res (list A) :=
  items ← payload_array (get fields k) k; mapM decode items.

(** [_quantity_from_payload] *)
Definition evidence_quantity (p : json) : res ActionQuantity :=
  v ← object_of p "quantity" ["action_id"; "quantity_lots"];
  quantity ← payload_int64 (get v "quantity_lots") "quantity_lots";
  require (0 <? quantity) (ValueError "quantity_lots must be positive");;
  action ← payload_string (get v "action_id") "action_id";
  Ok (AQ action quantity).

(** [_candidate_from_payload] *)
Definition candidate_from_payload (p : json) : res PortfolioCandidate :=
  v ← object_of p "candidate" ["quantities"; "claimed_guaranteed_profit_units"];
  quantities ← payload_array_with evidence_quantity v "quantities";
  require (negb (bool_decide (quantities = [])) && bool_decide (NoDup (aq_action_id <$> quantities)))
    (ValueError "candidate quantities must be nonempty and unique");;
  profit ← payload_int64 (get v "claimed_guaranteed_profit_units") "claimed_guaranteed_profit_units";
  Ok {| pc_quantities := quantities; pc_claimed_guaranteed_profit_units := profit |}.

(** The shape of objective bounds: closed on one value, or open with their gap. *)
Definition check_bounds (b : ObjectiveBounds) : res unit :=
  if ob_closed b then
    require (negb (is_none (ob_lower_bound_units b)) && bool_decide (ob_upper_bound_units b = ob_lower_bound_units b) &&
             bool_decide (ob_gap_units b = Some 0)) (ValueError "closed objective_bounds require equal bounds and zero gap")
  else match ob_lower_bound_units b, ob_upper_bound_units b with
       | Some lower, Some upper =>
           require ((lower <? upper) && bool_decide (ob_gap_units b = Some (upper - lower)))
             (ValueError "open objective_bounds require ordered bounds and their exact gap")
       | _, _ => require (is_none (ob_gap_units b)) (ValueError "objective_bounds gap requires both bounds")
       end.

(** [_bounds_from_payload] *)
Definition evidence_bounds (p : json) : res ObjectiveBounds :=
  v ← object_of p "objective_bounds" ["lower_bound_units"; "upper_bound_units"; "gap_units"; "closed"];
  lower ← payload_optional_int64 (get v "lower_bound_units") "lower_bound_units";
  upper ← payload_optional_int64 (get v "upper_bound_units") "upper_bound_units";
  gap ← payload_optional_int64 (get v "gap_units") "gap_units";
  closed ← payload_bool (get v "closed") "closed";
  let bounds := {| ob_lower_bound_units := lower; ob_upper_bound_units := upper; ob_gap_units := gap; ob_closed := closed |} in
  check_bounds bounds;;
  Ok bounds.

(** [_selected_atom_from_payload] *)
Definition evidence_atom (p : json) : res SelectedAtom :=
  v ← object_of p "selected atom" ["market_contract_id"; "atom_id"];
  contract ← payload_string (get v "market_contract_id") "market_contract_id";
  atom ← payload_string (get v "atom_id") "atom_id";
  Ok (SelAtom contract atom).

(** [_scenario_from_payload] *)
Definition evidence_scenario (p : json) : res SettlementScenario :=
  v ← object_of p "scenario" ["atoms"];
  atoms ← payload_array_with evidence_atom v "atoms";
  require (negb (bool_decide (atoms = [])) && bool_decide (NoDup (sa_market_contract_id <$> atoms)))
    (ValueError "scenario atoms must be nonempty with unique contracts");;
  Ok (Scenario atoms).

(** [_payout_from_payload] *)
Definition evidence_payout (p : json) : res ActionPayout :=
  v ← object_of p "payout" ["action_id"; "payout_lower_bound_per_lot_units"];
  action ← payload_string (get v "action_id") "action_id";
  payout ← payload_int64 (get v "payout_lower_bound_per_lot_units") "payout_lower_bound_per_lot_units";
  Ok {| ap_action_id := action; payout_lower_bound_per_lot_units := payout |}.

(** [_cut_from_payload] *)
Definition evidence_cut (p : json) : res WorstStateCut :=
  v ← object_of p "cut" ["cut_id"; "scenario"; "payout_per_lot"];
  payouts ← payload_array_with evidence_payout v "payout_per_lot";
  require (negb (bool_decide (payouts = [])) && bool_decide (NoDup (ap_action_id <$> payouts)))
    (ValueError "cut payouts must be nonempty and unique");;
  id ← payload_string (get v "cut_id") "cut_id";
  scenario ← evidence_scenario (get v "scenario");
  Ok {| cut_id := id; cut_scenario := scenario; cut_payout_per_lot := payouts |}.

(** A fingerprint: [sha256:] and 64 lowercase hexadecimal digits. *)
Definition is_hex (c : Ascii.ascii) : bool :=
  let n := Z.of_N (Ascii.N_of_ascii c) in ((48 <=? n) && (n <=? 57)) || ((97 <=? n) && (n <=? 102)).
Definition all_hex (s : string) : bool := forallb is_hex (String.list_ascii_of_string s).
Definition is_fingerprint (s : string) : bool :=
  Nat.eqb (String.length s) 71 && String.prefix "sha256:" s && all_hex (slice s 7 71).

(** [CertificateEvidence.__post_init__] *)
Definition check_certificate (c : CertificateEvidence) : res unit :=
  require (is_fingerprint (cf_certificate_sha256 c)) (ValueError "certificate_sha256 must be a sha256 fingerprint");;
  require (0 <=? cf_certificate_size_bytes c) (ValueError "certificate_size_bytes must be nonnegative");;
  require (Bool.eqb (is_none (cf_completed_certificate_sha256 c)) (is_none (cf_completed_certificate_size_bytes c)))
    (ValueError "completed certificate hash and size must both be present or absent");;
  match cf_completed_certificate_sha256 c with
  | Some s => require (is_fingerprint s) (ValueError "completed_certificate_sha256 must be a sha256 fingerprint")
  | None => Ok tt
  end;;
  match cf_completed_certificate_size_bytes c with
  | Some n => require (0 <=? n) (ValueError "completed_certificate_size_bytes must be nonnegative")
  | None => Ok tt
  end;;
  require (forallb (Z.leb 0) [cf_generation_ns c; cf_completion_ns c; cf_check_ns c])
    (ValueError "certificate times must be nonnegative");;
  require (negb (cf_checker_succeeded c) ||
           ((cf_checker_exit_code c =? 0) && negb (is_blank (cf_checker_name c)) && negb (is_blank (cf_checker_version c))))
    (ValueError "successful certificate checks require exit code zero and checker identity").

(** [_certificate_from_payload] *)
Definition certificate_from_payload (p : json) : res CertificateEvidence :=
  v ← object_of p "certificate"
        ["certificate_sha256"; "certificate_size_bytes"; "completed_certificate_sha256"; "completed_certificate_size_bytes";
         "checker_name"; "checker_version"; "checker_exit_code"; "checker_succeeded"; "generation_ns"; "completion_ns";
         "check_ns"];
  sha ← payload_string (get v "certificate_sha256") "certificate_sha256";
  size ← payload_nonnegative_int (get v "certificate_size_bytes") "certificate_size_bytes";
  completed ← optional_of (λ p, payload_string p "completed_certificate_sha256") (get v "completed_certificate_sha256");
  completed_size ← optional_of (λ p, payload_nonnegative_int p "completed_certificate_size_bytes")
                     (get v "completed_certificate_size_bytes");
  name ← payload_text (get v "checker_name") "checker_name";
  version ← payload_text (get v "checker_version") "checker_version";
  code ← payload_int64 (get v "checker_exit_code") "checker_exit_code";
  succeeded ← payload_bool (get v "checker_succeeded") "checker_succeeded";
  generation ← payload_nonnegative_int (get v "generation_ns") "generation_ns";
  completion ← payload_nonnegative_int (get v "completion_ns") "completion_ns";
  check ← payload_nonnegative_int (get v "check_ns") "check_ns";
  let certificate := {|
    cf_certificate_sha256 := sha; cf_certificate_size_bytes := size; cf_completed_certificate_sha256 := completed;
    cf_completed_certificate_size_bytes := completed_size; cf_checker_name := name; cf_checker_version := version;
    cf_checker_exit_code := code; cf_checker_succeeded := succeeded; cf_generation_ns := generation;
    cf_completion_ns := completion; cf_check_ns := check |} in
  check_certificate certificate;;
  Ok certificate.

(** [_validate_evidence_invariants] *)
Definition validate_evidence_invariants (e : SolverEvidence) : res unit :=
  require (bool_decide (NoDup (cut_id <$> se_cuts e))) (ValueError "solver evidence cuts must be unique");;
  match se_candidate e with
  | None => require (negb (se_fixed_portfolio_closed e)) (ValueError "fixed portfolio closure requires a candidate")
  | Some candidate =>
      match se_worst_scenario e, se_payout_lower_bound_units e, se_cost_upper_bound_units e, se_guaranteed_profit_units e,
            se_conservative_capital_release_at e, se_fixed_portfolio_closed e with
      | Some _, Some payout, Some cost, Some profit, Some _, true =>
          require ((pc_claimed_guaranteed_profit_units candidate =? profit) && (payout - cost =? profit) &&
                   bool_decide (ob_lower_bound_units (se_objective_bounds e) = Some profit) &&
                   Bool.eqb (se_global_search_closed e) (ob_closed (se_objective_bounds e)))
            (ValueError "candidate evidence is inconsistent")
      | _, _, _, _, _, _ => Err (ValueError "candidate evidence requires complete fixed-portfolio proof")
      end
  end.

(** [solver_evidence_from_payload] *)
Definition solver_evidence_from_payload (p : json) : res SolverEvidence :=
  v ← object_of p "solver evidence"
        ["native_status"; "candidate"; "objective_bounds"; "worst_scenario"; "payout_lower_bound_units";
         "cost_upper_bound_units"; "guaranteed_profit_units"; "conservative_capital_release_at"; "fixed_portfolio_closed";
         "global_search_closed"; "master_rounds"; "adversary_rounds"; "cuts"; "certificate"];
  status ← payload_string (get v "native_status") "native_status";
  candidate ← optional_of candidate_from_payload (get v "candidate");
  bounds ← evidence_bounds (get v "objective_bounds");
  scenario ← optional_of evidence_scenario (get v "worst_scenario");
  payout ← payload_optional_int64 (get v "payout_lower_bound_units") "payout_lower_bound_units";
  cost ← payload_optional_int64 (get v "cost_upper_bound_units") "cost_upper_bound_units";
  profit ← payload_optional_int64 (get v "guaranteed_profit_units") "guaranteed_profit_units";
  release ← optional_of (λ p, payload_datetime p "conservative_capital_release_at") (get v "conservative_capital_release_at");
  fixed ← payload_bool (get v "fixed_portfolio_closed") "fixed_portfolio_closed";
  closed ← payload_bool (get v "global_search_closed") "global_search_closed";
  master ← payload_nonnegative_int (get v "master_rounds") "master_rounds";
  adversary ← payload_nonnegative_int (get v "adversary_rounds") "adversary_rounds";
  cuts ← payload_array_with evidence_cut v "cuts";
  certificate ← optional_of certificate_from_payload (get v "certificate");
  let evidence := {|
    se_native_status := status; se_candidate := candidate; se_objective_bounds := bounds; se_worst_scenario := scenario;
    se_payout_lower_bound_units := payout; se_cost_upper_bound_units := cost; se_guaranteed_profit_units := profit;
    se_conservative_capital_release_at := release; se_fixed_portfolio_closed := fixed; se_global_search_closed := closed;
    se_master_rounds := master; se_adversary_rounds := adversary; se_cuts := cuts; se_certificate := certificate |} in
  validate_evidence_invariants evidence;;
  Ok evidence.
