(* ===== verification/Verified.v ===== *)
(** * The proof engine: solve, then verify

    [src/open_trader/prediction_solver_verified.py].  A proof input binds a
    request to its prices; [solve] turns its payload into the payload of the
    candidate evidence of a solver, [verify] re-checks evidence with the exact
    oracle, and [verification_result_from_payload] accepts a result only for
    the source it is about.  Payloads are JSON values, as between processes. *)

From S2P Require Import Prelude PyValue NLeg NLegForms NLegValidate IsoFormat Decode Oracle Support Search LinearModel FillProof Generation Evidence.
Local Open Scope Z_scope.

Definition PROOF_REQUEST_SCHEMA_V1 := "open_trader.prediction_solver_verified.request.v1".
Definition CANDIDATE_EVIDENCE_SCHEMA_V1 := "open_trader.prediction_solver_verified.candidate_evidence.v1".
Definition VERIFICATION_RESULT_SCHEMA_V1 := "open_trader.prediction_solver_verified.result.v1".

Inductive VerificationStatus :=
  | QUALIFIED_VERIFIED | NOT_QUALIFIED | VERIFICATION_UNKNOWN | VERIFIED_NO_QUALIFIED_OPPORTUNITY.
Inductive ProofLevel := SOLVER_VERIFIED | FORMALLY_VERIFIED | LEVEL_NONE.

#[export] Instance VerificationStatus_eq_dec : EqDecision VerificationStatus.
Proof. solve_decision. Defined.
#[export] Instance ProofLevel_eq_dec : EqDecision ProofLevel.
Proof. solve_decision. Defined.

Definition verification_status_value (s : VerificationStatus) : string :=
  match s with
  | QUALIFIED_VERIFIED => "QUALIFIED_VERIFIED" | NOT_QUALIFIED => "NOT_QUALIFIED" | VERIFICATION_UNKNOWN => "UNKNOWN"
  | VERIFIED_NO_QUALIFIED_OPPORTUNITY => "NO_QUALIFIED_OPPORTUNITY"
  end.

Definition proof_level_value (l : ProofLevel) : string :=
  match l with
  | SOLVER_VERIFIED => "SOLVER_VERIFIED" | FORMALLY_VERIFIED => "FORMALLY_VERIFIED" | LEVEL_NONE => "NONE"
  end.

Record ProofInput := {
  pi_schema_version : string;
  pi_request : OracleRequest;
  pi_limits : BenchmarkLimits;
  pi_quote_fingerprint : string;
  pi_current_generation : Z;
  pi_code_version : string;
}.

Record CandidateEvidence := {
  cv_schema_version : string;
  cv_proof_input : ProofInput;
  cv_solver_name : string;
  cv_solver_version : string;
  cv_model_fingerprint : string;
  cv_portfolio_fingerprint : option string;
  cv_solver_evidence : SolverEvidence;
}.

Record VerificationResult := {
  vr_schema_version : string;
  vr_status : VerificationStatus;
  vr_proof_level : ProofLevel;
  vr_model_fingerprint : string;
  vr_portfolio_fingerprint : option string;
  vr_quote_fingerprint : string;
  vr_current_generation : Z;
  vr_solution : option PortfolioSolution;
  vr_negative_proof : option PayoutProof;
  vr_unknown_reason : option string;
}.

(** ** Exceptions *)

(** [except ValueError]; [UnsafeSolverResult] and [_NumericUnsafeError] are
    [ValueError]s, like [ModelDecodeError]. *)
Definition is_value_error (e : exn) : bool :=
  match e with ValueError _ | UnsafeSolverResult _ | NumericUnsafe _ => true | _ => false end.
(** [except (ModelDecodeError, TypeError, ValueError)] *)
Definition is_value_or_type_error (e : exn) : bool := match e with TypeError => true | e => is_value_error e end.
(** [except (OverflowError, ValueError)] *)
Definition is_oracle_error (e : exn) : bool := match e with OverflowError => true | e => is_value_error e end.

(** [raise ValueError(f"{prefix}: {exc}") from exc] *)
Definition as_value_error {A} (prefix : string) (m : res A) : res A :=
  match m with
  | Ok a => Ok a
  | Err e => if is_value_or_type_error e then Err (ValueError (prefix +:+ ": " +:+ exn_message e)) else Err e
  end.

(** ** Values *)

(** [_string] *)
Definition plain_string (p : json) (name : string) : res string := string_of p name.

(** [_fingerprint] *)
Definition fingerprint_of (p : json) (name : string) : res string :=
  value ← plain_string p name;
  require (is_fingerprint value) (ValueError (name +:+ " must be a sha256 fingerprint"));;
  Ok value.

Definition check_fingerprint (value name : string) : res unit := fingerprint_of (JStr value) name;; Ok tt.

(** [_nonnegative_int], [_positive_int] *)
Definition nonnegative_of (p : json) (name : string) : res Z :=
  let wrong := ValueError (name +:+ " must be a non-negative integer") in
  match p with JInt z => require (0 <=? z) wrong;; Ok z | _ => Err wrong end.
Definition positive_of (p : json) (name : string) : res Z :=
  z ← nonnegative_of p name; require (negb (z =? 0)) (ValueError (name +:+ " must be positive"));; Ok z.

(** [BenchmarkLimits.__post_init__] and [_limits_from_payload] *)
Definition check_limits (l : BenchmarkLimits) : res unit :=
  require ((0 <? bl_soft_time_limit_ms l) && (0 <? bl_hard_time_limit_ms l) && (0 <? bl_memory_limit_bytes l) &&
           (0 <? bl_max_constraint_generation_rounds l)) (ValueError "limits must be positive");;
  require (bl_soft_time_limit_ms l <=? bl_hard_time_limit_ms l)
    (ValueError "hard_time_limit_ms must be at least soft_time_limit_ms").

Definition limits_from_payload (p : json) : res BenchmarkLimits :=
  v ← object_of p "limits"
        ["soft_time_limit_ms"; "hard_time_limit_ms"; "memory_limit_bytes"; "max_constraint_generation_rounds"];
  soft ← positive_of (get v "soft_time_limit_ms") "soft_time_limit_ms";
  hard ← positive_of (get v "hard_time_limit_ms") "hard_time_limit_ms";
  memory ← positive_of (get v "memory_limit_bytes") "memory_limit_bytes";
  rounds ← positive_of (get v "max_constraint_generation_rounds") "max_constraint_generation_rounds";
  let limits := {| bl_soft_time_limit_ms := soft; bl_hard_time_limit_ms := hard; bl_memory_limit_bytes := memory;
                   bl_max_constraint_generation_rounds := rounds |} in
  check_limits limits;;
  Ok limits.

(** ** Payloads *)

Definition limits_json (l : BenchmarkLimits) : json := JObj
  [ ("soft_time_limit_ms", JInt (bl_soft_time_limit_ms l)); ("hard_time_limit_ms", JInt (bl_hard_time_limit_ms l));
    ("memory_limit_bytes", JInt (bl_memory_limit_bytes l));
    ("max_constraint_generation_rounds", JInt (bl_max_constraint_generation_rounds l)) ].

Definition proof_input_json (i : ProofInput) : json := JObj
  [ ("schema_version", JStr (pi_schema_version i)); ("request", request_json (pi_request i));
    ("limits", limits_json (pi_limits i)); ("quote_fingerprint", JStr (pi_quote_fingerprint i));
    ("current_generation", JInt (pi_current_generation i)); ("code_version", JStr (pi_code_version i)) ].

Definition input_datetimes (i : ProofInput) : list datetime := problem_datetimes (rq_problem (pi_request i)).

Definition candidate_evidence_json (c : CandidateEvidence) : json := JObj
  [ ("schema_version", JStr (cv_schema_version c)); ("proof_input", proof_input_json (cv_proof_input c));
    ("solver_name", JStr (cv_solver_name c)); ("solver_version", JStr (cv_solver_version c));
    ("model_fingerprint", JStr (cv_model_fingerprint c)); ("portfolio_fingerprint", jopt JStr (cv_portfolio_fingerprint c));
    ("solver_evidence", solver_evidence_json (cv_solver_evidence c)) ].

Definition candidate_datetimes (c : CandidateEvidence) : list datetime :=
  input_datetimes (cv_proof_input c) ++ evidence_datetimes (cv_solver_evidence c).

Definition verification_json (r : VerificationResult) : json := JObj
  [ ("schema_version", JStr (vr_schema_version r)); ("status", JStr (verification_status_value (vr_status r)));
    ("proof_level", JStr (proof_level_value (vr_proof_level r))); ("model_fingerprint", JStr (vr_model_fingerprint r));
    ("portfolio_fingerprint", jopt JStr (vr_portfolio_fingerprint r));
    ("quote_fingerprint", JStr (vr_quote_fingerprint r)); ("current_generation", JInt (vr_current_generation r));
    ("solution", jopt solution_json (vr_solution r)); ("negative_proof", jopt payout_proof_json (vr_negative_proof r));
    ("unknown_reason", jopt JStr (vr_unknown_reason r)) ].

Definition verification_datetimes (r : VerificationResult) : list datetime :=
  (option_list (vr_solution r) ≫= λ s, proof_datetimes (ps_payout_proof s)) ++
  (option_list (vr_negative_proof r) ≫= proof_datetimes).

(** [canonical_payload] refuses a datetime that is not UTC. *)
Definition canonical (datetimes : list datetime) (payload : json) : res json :=
  require (forallb is_utc datetimes) not_canonical;; Ok payload.

Section verified.
Context `{Sha256}.

(** ** Fingerprints of the priced model *)

Definition is_object_with (keys : list string) (p : json) : bool :=
  match p with JObj fields => forallb (λ k, in_list k fields.*1) keys | _ => false end.

Definition field (p : json) (k : string) : json := match p with JObj fields => get fields k | _ => JNull end.

Definition canonical_actions (payload : json) (keys : list string) (msg : string) : res (list json) :=
  match field payload "actions" with
  | JArr actions => require (forallb (is_object_with keys) actions) (ValueError msg);; Ok actions
  | _ => Err (ValueError "problem actions must be canonical")
  end.

(** [quote_fingerprint] of a canonical payload: the cost slices only. *)
Definition quote_fingerprint_of (payload : json) : res string :=
  actions ← canonical_actions payload ["action_id"; "cost_slices"] "problem actions must embed canonical cost input";
  Ok (fingerprint_json (JObj [("actions", JArr ((λ a, JObj
    [("action_id", field a "action_id"); ("cost_slices", field a "cost_slices")]) <$> actions))])).

Definition without_field (k : string) (p : json) : json :=
  match p with JObj fields => JObj (filter (λ f, f.1 ≠ k) fields) | p => p end.

(** [model_fingerprint]: everything but the cost slices. *)
Definition model_fingerprint_of (payload : json) : res string :=
  actions ← canonical_actions payload ["cost_slices"] "problem actions must be canonical";
  match payload with
  | JObj fields =>
      Ok (fingerprint_json (JObj ((λ f, if (f.1 =? "actions")%string
        then (f.1, JArr (without_field "cost_slices" <$> actions)) else f) <$> fields)))
  | _ => Err (ValueError "canonical payload must be an object")
  end.

Definition quote_fingerprint (p : ArbitrageProblem) : res string :=
  payload ← canonical (problem_datetimes p) (problem_json p); quote_fingerprint_of payload.
Definition model_fingerprint (p : ArbitrageProblem) : res string :=
  payload ← canonical (problem_datetimes p) (problem_json p); model_fingerprint_of payload.

(** ** Proof inputs *)

(** [ProofInput(...)] *)
Definition proof_input (i : ProofInput) : res ProofInput :=
  require (pi_schema_version i =? PROOF_REQUEST_SCHEMA_V1)%string (ValueError "invalid proof input");;
  check_fingerprint (pi_quote_fingerprint i) "quote_fingerprint";;
  expected ← quote_fingerprint (rq_problem (pi_request i));
  require (pi_quote_fingerprint i =? expected)%string (ValueError "proof input quote fingerprint mismatch");;
  nonnegative_of (JInt (pi_current_generation i)) "current_generation";;
  plain_string (JStr (pi_code_version i)) "code_version";;
  Ok i.

Definition proof_input_from_payload (p : json) : res ProofInput :=
  v ← object_of p "proof input"
        ["schema_version"; "request"; "limits"; "quote_fingerprint"; "current_generation"; "code_version"];
  as_value_error "invalid proof input" (
    schema ← plain_string (get v "schema_version") "schema_version";
    request ← request_from_payload (get v "request");
    limits ← limits_from_payload (get v "limits");
    quote ← fingerprint_of (get v "quote_fingerprint") "quote_fingerprint";
    generation ← nonnegative_of (get v "current_generation") "current_generation";
    code ← plain_string (get v "code_version") "code_version";
    proof_input {| pi_schema_version := schema; pi_request := request; pi_limits := limits; pi_quote_fingerprint := quote;
                   pi_current_generation := generation; pi_code_version := code |}).

(** ** Candidate evidence *)

(** [CandidateEvidence(...)] *)
Definition candidate_evidence (c : CandidateEvidence) : res CandidateEvidence :=
  require (cv_schema_version c =? CANDIDATE_EVIDENCE_SCHEMA_V1)%string (ValueError "invalid candidate evidence");;
  plain_string (JStr (cv_solver_name c)) "solver_name";;
  plain_string (JStr (cv_solver_version c)) "solver_version";;
  check_fingerprint (cv_model_fingerprint c) "model_fingerprint";;
  expected ← model_fingerprint (rq_problem (pi_request (cv_proof_input c)));
  require (cv_model_fingerprint c =? expected)%string (ValueError "candidate evidence model fingerprint mismatch");;
  match se_candidate (cv_solver_evidence c) with
  | None => require (is_none (cv_portfolio_fingerprint c))
              (ValueError "candidate evidence without candidate cannot have portfolio fingerprint")
  | Some candidate =>
      require (bool_decide (cv_portfolio_fingerprint c = Some (fingerprint_quantities (pc_quantities candidate))))
        (ValueError "candidate evidence portfolio fingerprint mismatch")
  end;;
  Ok c.

Definition candidate_evidence_from_payload (p : json) : res CandidateEvidence :=
  v ← object_of p "candidate evidence"
        ["schema_version"; "proof_input"; "solver_name"; "solver_version"; "model_fingerprint"; "portfolio_fingerprint";
         "solver_evidence"];
  as_value_error "invalid candidate evidence" (
    schema ← plain_string (get v "schema_version") "schema_version";
    input ← proof_input_from_payload (get v "proof_input");
    name ← plain_string (get v "solver_name") "solver_name";
    version ← plain_string (get v "solver_version") "solver_version";
    model ← fingerprint_of (get v "model_fingerprint") "model_fingerprint";
    portfolio ← optional_of (λ p, fingerprint_of p "portfolio_fingerprint") (get v "portfolio_fingerprint");
    evidence ← solver_evidence_from_payload (get v "solver_evidence");
    candidate_evidence {| cv_schema_version := schema; cv_proof_input := input; cv_solver_name := name;
                          cv_solver_version := version; cv_model_fingerprint := model;
                          cv_portfolio_fingerprint := portfolio; cv_solver_evidence := evidence |}).

(** [_candidate_evidence] and its payload *)
Definition evidence_payload (i : ProofInput) (name version : string) (evidence : SolverEvidence) : res json :=
  model ← model_fingerprint (rq_problem (pi_request i));
  c ← candidate_evidence {|
    cv_schema_version := CANDIDATE_EVIDENCE_SCHEMA_V1; cv_proof_input := i; cv_solver_name := name;
    cv_solver_version := version; cv_model_fingerprint := model;
    cv_portfolio_fingerprint := (λ candidate, fingerprint_quantities (pc_quantities candidate)) <$> se_candidate evidence;
    cv_solver_evidence := evidence |};
  canonical (candidate_datetimes c) (candidate_evidence_json c).

(** ** [solve] *)

(** The direct call. *)
Definition solve (backend : SolverBackend) (payload : json) : res json :=
  i ← proof_input_from_payload payload;
  evidence ← match solve_with_constraint_generation (pi_request i) backend (pi_limits i) with
             | Ok out => Ok out.1
             | Err ModuleNotFoundError => Ok (failed_evidence "BACKEND_UNAVAILABLE")
             | Err e => Err e
             end;
  evidence_payload i (sb_name backend) (sb_version backend) evidence.

(** What the worker harness reports of one run. *)
Record WorkerOutcome := {
  wo_status : string;
  wo_termination : string;
  wo_solver_version : option string;
  wo_evidence : option json;
}.

(** [_solve_via_worker] *)
Definition solve_via_worker (harness : OracleRequest → BenchmarkLimits → WorkerOutcome) (payload : json) : res json :=
  i ← proof_input_from_payload payload;
  let outcome := harness (pi_request i) (pi_limits i) in
  let version := match wo_solver_version outcome with
                 | Some v => if is_blank v then "unavailable" else v | None => "unavailable" end in
  let failed reason :=
    nonempty_string reason "native_status";; evidence_payload i "cp_sat" version (failed_evidence reason) in
  match (wo_status outcome =? "OK")%string, wo_evidence outcome with
  | true, Some p =>
      match solver_evidence_from_payload p with
      | Ok evidence => evidence_payload i "cp_sat" version evidence
      | Err e => if is_value_error e then failed "INVALID_WORKER_EVIDENCE" else Err e
      end
  | _, _ => failed (wo_termination outcome)
  end.

(** ** Verification results *)

(** Which parts a status comes with. *)
Definition status_shape (r : VerificationResult) : bool :=
  let solved := negb (is_none (vr_solution r)) in
  let refuted := negb (is_none (vr_negative_proof r)) in
  let unknown := negb (is_none (vr_unknown_reason r)) in
  match vr_status r with
  | QUALIFIED_VERIFIED => bool_decide (vr_proof_level r = SOLVER_VERIFIED) && solved && negb refuted && negb unknown
  | NOT_QUALIFIED => bool_decide (vr_proof_level r = LEVEL_NONE) && solved && negb refuted && negb unknown
  | VERIFIED_NO_QUALIFIED_OPPORTUNITY =>
      bool_decide (vr_proof_level r = LEVEL_NONE) && negb solved && refuted && negb unknown
  | VERIFICATION_UNKNOWN => bool_decide (vr_proof_level r = LEVEL_NONE) && negb solved && negb refuted && unknown
  end.

(** [VerificationResult(...)] *)
Definition verification_result (r : VerificationResult) : res VerificationResult :=
  require (vr_schema_version r =? VERIFICATION_RESULT_SCHEMA_V1)%string (ValueError "invalid verification result");;
  check_fingerprint (vr_model_fingerprint r) "model_fingerprint";;
  match vr_portfolio_fingerprint r with Some f => check_fingerprint f "portfolio_fingerprint" | None => Ok tt end;;
  check_fingerprint (vr_quote_fingerprint r) "quote_fingerprint";;
  nonnegative_of (JInt (vr_current_generation r)) "current_generation";;
  require (status_shape r) (ValueError "verification status does not match its parts");;
  match vr_solution r with
  | None => Ok tt
  | Some s =>
      require (bool_decide (pp_portfolio_fingerprint (ps_payout_proof s) = vr_portfolio_fingerprint r) &&
               bool_decide (vr_portfolio_fingerprint r = Some (fingerprint_quantities (ps_quantities s))))
        (ValueError "verification result solution fingerprint mismatch")
  end;;
  Ok r.

Definition result_payload (r : VerificationResult) : res json :=
  r ← verification_result r; canonical (verification_datetimes r) (verification_json r).

(** A result about candidate evidence. *)
Definition about_candidate (c : CandidateEvidence) (status : VerificationStatus) (level : ProofLevel)
    (solution : option PortfolioSolution) (reason : option string) : VerificationResult := {|
  vr_schema_version := VERIFICATION_RESULT_SCHEMA_V1; vr_status := status; vr_proof_level := level;
  vr_model_fingerprint := cv_model_fingerprint c; vr_portfolio_fingerprint := cv_portfolio_fingerprint c;
  vr_quote_fingerprint := pi_quote_fingerprint (cv_proof_input c);
  vr_current_generation := pi_current_generation (cv_proof_input c); vr_solution := solution; vr_negative_proof := None;
  vr_unknown_reason := reason |}.

(** [_unknown] *)
Definition unknown_candidate (c : CandidateEvidence) (reason : string) : VerificationResult :=
  about_candidate c VERIFICATION_UNKNOWN LEVEL_NONE None (Some (if (reason =? "")%string then "UNKNOWN" else reason)).

(** The [try] of [_verify_candidate]: the evaluation and its proof, or why the
    support graph is unknown. *)
Definition check_candidate (c : CandidateEvidence) (candidate : PortfolioCandidate)
  : res (UnknownReason + PortfolioEvaluation * PortfolioSolution) :=
  let request := pi_request (cv_proof_input c) in
  evaluation ← evaluate_fixed_portfolio (rq_problem request) (pc_quantities candidate) (rq_budget request);
  support ← derive_selected_support_graph (rq_problem request) evaluation (rq_budget request);
  match support with
  | inl reason => Ok (inl reason)
  | inr graph => s ← build_portfolio_solution (rq_problem request) evaluation graph; Ok (inr (evaluation, s))
  end.

(** [_verify_candidate] *)
Definition verify_candidate (c : CandidateEvidence) : res json :=
  match se_candidate (cv_solver_evidence c) with
  | None => result_payload (unknown_candidate c "NO_CANDIDATE")
  | Some candidate =>
      match check_candidate c candidate with
      | Err e => if is_oracle_error e then result_payload (unknown_candidate c (exn_message e)) else Err e
      | Ok (inl reason) => result_payload (unknown_candidate c (unknown_reason_value reason))
      | Ok (inr (evaluation, s)) =>
          match pe_failed_qualification_ids evaluation with
          | _ :: _ => result_payload (about_candidate c NOT_QUALIFIED LEVEL_NONE (Some s) None)
          | [] => result_payload (about_candidate c QUALIFIED_VERIFIED SOLVER_VERIFIED (Some s) None)
          end
      end
  end.

(** [_verify_component] *)
Definition verify_component (i : ProofInput) : res json :=
  result ← find_qualified (pi_request i);
  model ← model_fingerprint (rq_problem (pi_request i));
  let about status negative reason := {|
    vr_schema_version := VERIFICATION_RESULT_SCHEMA_V1; vr_status := status; vr_proof_level := LEVEL_NONE;
    vr_model_fingerprint := model; vr_portfolio_fingerprint := None; vr_quote_fingerprint := pi_quote_fingerprint i;
    vr_current_generation := pi_current_generation i; vr_solution := None; vr_negative_proof := negative;
    vr_unknown_reason := reason |} in
  match or_negative_proof result with
  | Some proof => result_payload (about VERIFIED_NO_QUALIFIED_OPPORTUNITY (Some proof) None)
  | None =>
      result_payload (about VERIFICATION_UNKNOWN None (Some (match or_unknown_reason result with
                                                              | Some reason => unknown_reason_value reason
                                                              | None => "QUALIFIED_CANDIDATE_EXISTS" end)))
  end.

(** [type(payload).__name__] *)
Definition type_name (p : json) : string :=
  match p with
  | JNull => "NoneType" | JBool _ => "bool" | JInt _ => "int" | JStr _ => "str" | JArr _ => "list" | JObj _ => "dict"
  end.

Definition invalid_result (model quote : string) (portfolio : option string) (generation : Z) : VerificationResult := {|
  vr_schema_version := VERIFICATION_RESULT_SCHEMA_V1; vr_status := VERIFICATION_UNKNOWN; vr_proof_level := LEVEL_NONE;
  vr_model_fingerprint := model; vr_portfolio_fingerprint := portfolio; vr_quote_fingerprint := quote;
  vr_current_generation := generation; vr_solution := None; vr_negative_proof := None;
  vr_unknown_reason := Some "INVALID_CANONICAL_SEMANTICS" |}.

(** The [try] of [_invalid_unknown]: what can still be read of the payload. *)
Definition salvage (p : json) : res VerificationResult :=
  match p with
  | JObj _ => Ok tt
  | _ => Err (ValueError "canonical payload must be an object")
  end;;
  let source := match field p "schema_version" with
                | JStr s => if (s =? CANDIDATE_EVIDENCE_SCHEMA_V1)%string then field p "proof_input" else p
                | _ => p
                end in
  require (is_object_with [] source && is_object_with [] (field source "request")) (ValueError "proof input is unavailable");;
  let problem := field (field source "request") "problem" in
  require (is_object_with [] problem) (ValueError "problem is unavailable");;
  generation ← nonnegative_of (field source "current_generation") "generation";
  portfolio ← optional_of (λ f, fingerprint_of f "portfolio_fingerprint") (field p "portfolio_fingerprint");
  model ← model_fingerprint_of problem;
  quote ← quote_fingerprint_of problem;
  verification_result (invalid_result model quote portfolio generation).

(** [_invalid_unknown] *)
Definition invalid_unknown (p : json) : res VerificationResult :=
  match salvage p with
  | Ok r => Ok r
  | Err e =>
      if is_value_error e then
        let raw := JObj [("invalid_payload", JStr (type_name p))] in
        verification_result (invalid_result (fingerprint_json (JObj [("invalid_model", raw)]))
                               (fingerprint_json (JObj [("invalid_quote", raw)])) None 0)
      else Err e
  end.

(** [verify] *)
Definition verify (p : json) : res json :=
  let answer :=
    match field p "schema_version" with
    | JStr s => if (s =? PROOF_REQUEST_SCHEMA_V1)%string then i ← proof_input_from_payload p; verify_component i
                else c ← candidate_evidence_from_payload p; verify_candidate c
    | _ => c ← candidate_evidence_from_payload p; verify_candidate c
    end in
  match answer with
  | Ok payload => Ok payload
  | Err e =>
      if is_value_or_type_error e
      then r ← invalid_unknown p; canonical (verification_datetimes r) (verification_json r) else Err e
  end.

(** ** [verification_result_from_payload] *)

Inductive Source := InputSource (i : ProofInput) | CandidateSource (c : CandidateEvidence).

Definition source_input (s : Source) : ProofInput :=
  match s with InputSource i => i | CandidateSource c => cv_proof_input c end.

(** [source_type_matches] *)
Definition source_matches (r : VerificationResult) (s : Source) : bool :=
  match vr_status r, s with
  | QUALIFIED_VERIFIED, CandidateSource _ | NOT_QUALIFIED, CandidateSource _ => true
  | VERIFIED_NO_QUALIFIED_OPPORTUNITY, InputSource _ => true
  | VERIFICATION_UNKNOWN, CandidateSource _ => true
  | VERIFICATION_UNKNOWN, InputSource _ =>
      is_none (vr_portfolio_fingerprint r) && negb (bool_decide (vr_unknown_reason r = Some "NO_CANDIDATE"))
  | _, _ => false
  end.

(** The fields that bind a result to candidate evidence. *)
Definition candidate_bound (r : VerificationResult) (s : Source) : bool :=
  match s with
  | InputSource _ => true
  | CandidateSource c =>
      bool_decide (vr_portfolio_fingerprint r = cv_portfolio_fingerprint c) &&
      (negb (is_none (se_candidate (cv_solver_evidence c))) || negb (bool_decide (vr_status r = VERIFICATION_UNKNOWN)) ||
       bool_decide (vr_unknown_reason r = Some "NO_CANDIDATE"))
  end.

Definition result_bound (r : VerificationResult) (s : Source) : res bool :=
  let i := source_input s in
  if negb (source_matches r s) then Ok false
  else
    model ← model_fingerprint (rq_problem (pi_request i));
    if negb ((vr_model_fingerprint r =? model)%string && (vr_quote_fingerprint r =? pi_quote_fingerprint i)%string &&
             (vr_current_generation r =? pi_current_generation i) && candidate_bound r s) then Ok false
    else
      problem ← fingerprint_problem (rq_problem (pi_request i));
      request ← fingerprint_request (pi_request i);
      Ok (match vr_solution r with
          | Some sol => (pp_problem_fingerprint (ps_payout_proof sol) =? problem)%string | None => true end &&
          match vr_negative_proof r with
          | Some proof => (pp_problem_fingerprint proof =? problem)%string &&
                          bool_decide (pp_request_fingerprint proof = Some request)
          | None => true
          end).

Definition verification_status_of := enum_of "VerificationStatus" verification_status_value
  [QUALIFIED_VERIFIED; NOT_QUALIFIED; VERIFICATION_UNKNOWN; VERIFIED_NO_QUALIFIED_OPPORTUNITY].
Definition proof_level_of := enum_of "ProofLevel" proof_level_value [SOLVER_VERIFIED; FORMALLY_VERIFIED; LEVEL_NONE].

Definition verification_result_from_payload (p : json) (source : Source) : res VerificationResult :=
  v ← object_of p "verification result"
        ["schema_version"; "status"; "proof_level"; "model_fingerprint"; "portfolio_fingerprint"; "quote_fingerprint";
         "current_generation"; "solution"; "negative_proof"; "unknown_reason"];
  as_value_error "invalid verification result" (
    schema ← plain_string (get v "schema_version") "schema_version";
    status ← verification_status_of (get v "status") "status";
    level ← proof_level_of (get v "proof_level") "proof_level";
    model ← fingerprint_of (get v "model_fingerprint") "model_fingerprint";
    portfolio ← optional_of (λ f, fingerprint_of f "portfolio_fingerprint") (get v "portfolio_fingerprint");
    quote ← fingerprint_of (get v "quote_fingerprint") "quote_fingerprint";
    generation ← nonnegative_of (get v "current_generation") "current_generation";
    solution ← optional_of solution_from_payload (get v "solution");
    negative ← optional_of payout_proof_from_payload (get v "negative_proof");
    reason ← optional_of (λ f, plain_string f "unknown_reason") (get v "unknown_reason");
    r ← verification_result {|
      vr_schema_version := schema; vr_status := status; vr_proof_level := level; vr_model_fingerprint := model;
      vr_portfolio_fingerprint := portfolio; vr_quote_fingerprint := quote; vr_current_generation := generation;
      vr_solution := solution; vr_negative_proof := negative; vr_unknown_reason := reason |};
    bound ← result_bound r source;
    require bound (ValueError "verification result source binding mismatch");;
    Ok r).
End verified.
