(* ===== verification/DecodeInverse.v ===== *)
(** * What a decoded payload is

    Whatever the decoders accept of a canonical payload is the value it was
    written from, with its collections sorted.  Nothing is assumed of the value
    but that its datetimes are Python datetimes in UTC. *)

From Stdlib Require Import Ascii.
From S2P Require Import Prelude PyValue NLeg NLegForms NLegValidate NLegWf NLegFormsCorrect IsoFormat IsoFormatCorrect Decode DecodeCorrect Generation Evidence Verified.
Local Open Scope Z_scope.

(** ** Values *)

Lemma object_of_inv fields name required v : object_of (JObj fields) name required = Ok v → v = fields.
Proof. unfold object_of. by intros (_ & _ & [= <-])%bind_Ok. Qed.
Lemma string_of_inv s name v : string_of (JStr s) name = Ok v → v = s.
Proof. unfold string_of. by intros (_ & _ & [= <-])%bind_Ok. Qed.
Lemma text_of_inv s name v : text_of (JStr s) name = Ok v → v = s.
Proof. by intros [= <-]. Qed.
Lemma integer_of_inv z name v : integer_of (JInt z) name = Ok v → v = z.
Proof. unfold integer_of. by intros (_ & _ & [= <-])%bind_Ok. Qed.
Lemma datetime_of_inv d name v : valid_datetime d → datetime_of (json_datetime d) name = Ok v → v = d.
Proof. intros Hd. rewrite datetime_of_json by done. by intros [= <-]. Qed.
Lemma optional_inv {A B} (decode : json → res A) (encode : B → json) (f : B → A) o v :
  (∀ x, encode x ≠ JNull) → (∀ x y, o = Some x → decode (encode x) = Ok y → y = f x) →
  optional_of decode (jopt encode o) = Ok v → v = f <$> o.
Proof.
  intros Hn Hf. destruct o as [x|]; simpl; [|by intros [= <-]]. pose proof (Hn x). destruct (encode x) eqn:E; try done; simpl.
  all: intros (y & Hy & [= <-])%bind_Ok; f_equal; apply Hf; [done|by rewrite E].
Qed.
Lemma mapM_inv {A B} (decode : json → res B) (encode : A → json) (f : A → B) l v :
  (∀ x y, x ∈ l → decode (encode x) = Ok y → y = f x) → mapM decode (encode <$> l) = Ok v → v = f <$> l.
Proof.
  revert v; induction l as [|x l IH]; intros v Hf; csimpl; [by intros [= <-]|].
  intros (y & Hy & (k & Hk & [= <-])%bind_Ok)%bind_Ok. rewrite (Hf x y) by (done || set_solver).
  f_equal. apply IH; [|done]. intros z w Hz. apply Hf. set_solver.
Qed.
Lemma array_with_inv {A B} (decode : json → res B) (encode : A → json) (f : A → B) l fields k v :
  get fields k = JArr (encode <$> l) → (∀ x y, x ∈ l → decode (encode x) = Ok y → y = f x) →
  array_with decode fields k = Ok v → v = f <$> l.
Proof. unfold array_with. intros -> Hf (items & [= <-] & Hm)%bind_Ok. by eapply mapM_inv. Qed.
Lemma strings_with_inv l fields k v : get fields k = json_strings l → strings_with fields k = Ok v → v = l.
Proof.
  unfold strings_with, json_strings. intros Hg Hv. eapply (array_with_inv _ _ id) in Hv; [|exact Hg|].
  - by rewrite list_fmap_id in Hv.
  - intros x y _. apply string_of_inv.
Qed.
Lemma enum_inv {A} (decode : json → string → res A) (value : A → string) a name v :
  (∀ a name, decode (JStr (value a)) name = Ok a) → decode (JStr (value a)) name = Ok v → v = a.
Proof. intros ->. by intros [= <-]. Qed.

(** [undecode H]: open a decoder that succeeded, field by field; a value whose
    decoder is not known here stays as a hypothesis. *)
Ltac undecode_value Hv :=
  lazymatch type of Hv with
  | object_of _ _ _ = Ok _ => apply object_of_inv in Hv
  | string_of _ _ = Ok _ => apply string_of_inv in Hv
  | text_of _ _ = Ok _ => apply text_of_inv in Hv
  | integer_of _ _ = Ok _ => apply integer_of_inv in Hv
  | side_of _ _ = Ok _ => apply (enum_inv _ _ _ _ _ side_of_json) in Hv
  | terminal_kind_of _ _ = Ok _ => apply (enum_inv _ _ _ _ _ terminal_kind_of_json) in Hv
  | relation_kind_of _ _ = Ok _ => apply (enum_inv _ _ _ _ _ relation_kind_of_json) in Hv
  | metric_of _ _ = Ok _ => apply (enum_inv _ _ _ _ _ metric_of_json) in Hv
  | comparison_of _ _ = Ok _ => apply (enum_inv _ _ _ _ _ comparison_of_json) in Hv
  | mode_of _ _ = Ok _ => apply (enum_inv _ _ _ _ _ mode_of_json) in Hv
  | _ => idtac
  end.

Ltac field_compute Hv :=
  repeat match type of Hv with
  | context [get ?v ?k] => let x := eval lazy [get fst snd String.eqb Ascii.eqb Bool.eqb] in (get v k) in change (get v k) with x in Hv
  end.

Ltac undecode_with tac H :=
  lazymatch type of H with
  | (_ ≫= _) = Ok _ =>
      let v := fresh "v" in let Hv := fresh "Hv" in
      apply bind_Ok in H as (v & Hv & H); field_compute Hv; undecode_value Hv; try (tac Hv); try subst v; undecode_with tac H
  | Ok _ = Ok _ => injection H as H
  | _ => idtac
  end.
Ltac undecode H := undecode_with ltac:(fun Hv => idtac) H.

(** ** Components of a problem *)

Lemma observation_inv k v : valid_key k → observation_from_payload (observation_key_json k) = Ok v → v = k.
Proof.
  intros Hk HR. unfold valid_key, key_datetimes in Hk. rewrite !Forall_cons in Hk. destruct Hk as (Hs & He & _).
  unfold observation_from_payload in HR. undecode_with ltac:(fun Hv => apply datetime_of_inv in Hv; [|done]) HR. subst. by destruct k.
Qed.

Lemma cost_slice_inv c v : cost_slice_from_payload (cost_slice_json c) = Ok v → v = c.
Proof. intros HR. unfold cost_slice_from_payload in HR. undecode HR. subst. by destruct c. Qed.

Lemma payout_inv y v : payout_from_payload (payout_json y) = Ok v → v = y.
Proof. intros HR. unfold payout_from_payload in HR. undecode HR. subst. by destruct y. Qed.

Lemma action_inv a v : valid_key (ca_settlement_observation_key a) → action_from_payload (action_json a) = Ok v → v = a.
Proof.
  intros Hk HR. unfold action_from_payload in HR.
  undecode_with ltac:(fun Hv => (apply observation_inv in Hv; [|done]) ||
    (apply (array_with_inv _ cost_slice_json id (ca_cost_slices a)) in Hv; [|done|intros x y _; apply cost_slice_inv])) HR.
  rewrite list_fmap_id in HR. subst. by destruct a.
Qed.

Lemma atom_inv t v : (∀ d, ta_capital_release_at t = Some d → valid_datetime d) →
  atom_from_payload (atom_json t) = Ok v → v = sorted_atom t.
Proof.
  intros Hd HR. unfold atom_from_payload, atom_json in HR.
  undecode_with ltac:(fun Hv =>
    (apply (array_with_inv _ payout_json id (sort_on ap_action_id (ta_payouts t))) in Hv; [|done|intros x y _; apply payout_inv])) HR.
  rewrite list_fmap_id in HR. subst v.
  apply (optional_inv _ JStr id) in Hv0; [|done|intros x y _; apply text_of_inv].
  apply (optional_inv _ json_datetime id) in Hv1; [|done|intros x y Hx; by apply datetime_of_inv, Hd].
  rewrite option_fmap_id in Hv0. rewrite option_fmap_id in Hv1. by subst.
Qed.

Lemma state_set_inv s v :
  Forall valid_datetime (key_datetimes (ts_settlement_observation_key s) ++ omap ta_capital_release_at (ts_atoms s)) →
  state_set_from_payload (state_set_json s) = Ok v → v = sorted_state_set s.
Proof.
  intros [Hk Ha]%Forall_app HR. unfold state_set_from_payload in HR.
  undecode_with ltac:(fun Hv => (apply observation_inv in Hv; [|done]) ||
    (apply (array_with_inv _ atom_json sorted_atom (sort_on ta_atom_id (ts_atoms s))) in Hv; [|done|])) HR.
  2: { intros t y Ht%elem_of_sort_on. apply atom_inv. intros d Hd. rewrite Forall_forall in Ha. apply Ha, list_elem_of_omap. eauto. }
  rewrite sort_on_fmap in HR by done. subst v. by destruct s.
Qed.

Lemma relation_inv r v : relation_from_payload (relation_json r) = Ok v → v = sorted_relation r.
Proof.
  intros HR. unfold relation_from_payload in HR. undecode_with ltac:(fun Hv => eapply strings_with_inv in Hv; [|reflexivity]) HR.
  subst v. by destruct r.
Qed.

Lemma forbidden_inv f v : forbidden_from_payload (forbidden_json f) = Ok v → v = sorted_forbidden f.
Proof.
  intros HR. unfold forbidden_from_payload in HR. undecode_with ltac:(fun Hv => eapply strings_with_inv in Hv; [|reflexivity]) HR.
  subst v. by destruct f.
Qed.

Lemma qualification_inv q v : qualification_from_payload (qualification_json q) = Ok v → v = q.
Proof. intros HR. unfold qualification_from_payload in HR. undecode HR. subst. by destruct q. Qed.

(** ** Problems and requests *)

Lemma problem_fields_inv p v :
  Forall valid_datetime (problem_datetimes p) → problem_fields (problem_json p) = Ok v → v = sorted_problem p.
Proof.
  intros [Has [Hak Hsk]%Forall_app]%Forall_cons HR. rewrite Forall_forall in Hak, Hsk.
  assert (Hact : ∀ a v, a ∈ sort_on ca_action_id (pb_actions p) → action_from_payload (action_json a) = Ok v → v = id a).
  { intros a y Ha%elem_of_sort_on. apply action_inv, Forall_forall. intros d Hd. apply Hak, list_elem_of_bind. eauto. }
  assert (Hst : ∀ s v, s ∈ sort_on ts_market_contract_id (pb_terminal_state_sets p) →
    state_set_from_payload (state_set_json s) = Ok v → v = sorted_state_set s).
  { intros s y Hs%elem_of_sort_on. apply state_set_inv, Forall_forall. intros d Hd. apply Hsk, list_elem_of_bind. eauto. }
  unfold problem_fields in HR.
  undecode_with ltac:(fun Hv => (apply datetime_of_inv in Hv; [|done]) ||
    (apply (array_with_inv _ action_json id (sort_on ca_action_id (pb_actions p))) in Hv; [|done|exact Hact]) ||
    (apply (array_with_inv _ state_set_json sorted_state_set (sort_on ts_market_contract_id (pb_terminal_state_sets p))) in Hv; [|done|exact Hst]) ||
    (apply (array_with_inv _ relation_json sorted_relation (sort_on rc_constraint_id (cm_relations (pb_constraint_model p)))) in Hv;
       [|done|intros x y _; apply relation_inv]) ||
    (apply (array_with_inv _ forbidden_json sorted_forbidden
              (sort_on fb_constraint_id (cm_forbidden_atom_combinations (pb_constraint_model p)))) in Hv;
       [|done|intros x y _; apply forbidden_inv]) ||
    (apply (array_with_inv _ qualification_json id (sort_on qc_constraint_id (pb_qualification_constraints p))) in Hv;
       [|done|intros x y _; apply qualification_inv])) HR.
  rewrite !list_fmap_id, !sort_on_fmap in HR by done. subst v. by destruct p.
Qed.

Lemma problem_inv p allow v :
  Forall valid_datetime (problem_datetimes p) → problem_from_payload (problem_json p) allow = Ok v →
  v = sorted_problem p ∧ (allow = false → wf_problem (sorted_problem p)).
Proof.
  intros Hd. unfold problem_from_payload. intros (q & Hq%problem_fields_inv & (? & Hi%require_Ok & [= <-])%bind_Ok)%bind_Ok; [|done].
  subst q. rewrite sorted_problem_idemp. split; [done|]. intros ->. apply orb_prop in Hi as [Hi|Hi]; [|done].
  apply validate_problem_wf. by apply Nat.eqb_eq, nil_length_inv in Hi.
Qed.

Lemma budget_inv b v : budget_from_payload (budget_json b) = Ok v → v = b.
Proof. intros HR. unfold budget_from_payload in HR. undecode HR. subst. by destruct b. Qed.

Lemma request_inv r v : Forall valid_datetime (problem_datetimes (rq_problem r)) → request_from_payload (request_json r) = Ok v →
  v = {| rq_schema_version := rq_schema_version r; rq_mode := rq_mode r; rq_problem := sorted_problem (rq_problem r);
         rq_budget := rq_budget r |}.
Proof.
  intros Hd HR. unfold request_from_payload in HR.
  undecode_with ltac:(fun Hv => (apply budget_inv in Hv) || (apply problem_inv in Hv as [Hv _]; [|done])) HR. by subst v.
Qed.

(** ** Proofs and results *)

Lemma quantity_inv q v : quantity_from_payload (quantity_json q) = Ok v → v = q.
Proof. intros HR. unfold quantity_from_payload in HR. undecode HR. subst. by destruct q. Qed.

Lemma optional_integer_inv o name v : optional_integer_of (jopt JInt o) name = Ok v → v = o.
Proof.
  intros HR. apply (optional_inv _ JInt id) in HR; [by rewrite option_fmap_id in HR|done|]. intros x y _. apply integer_of_inv.
Qed.

Lemma optional_datetime_inv o name v :
  Forall valid_datetime (option_list o) → optional_of (λ p, datetime_of p name) (jopt json_datetime o) = Ok v → v = o.
Proof.
  intros Hd HR. apply (optional_inv _ json_datetime id) in HR; [by rewrite option_fmap_id in HR|done|].
  intros d y ->. apply datetime_of_inv. by apply Forall_cons in Hd as [? _].
Qed.

(** The numbers of a proof. *)
Record same_numbers (p v : PayoutProof) : Prop := {
  sn_payout : pp_payout_lower_bound_units v = pp_payout_lower_bound_units p;
  sn_cost : pp_cost_upper_bound_units v = pp_cost_upper_bound_units p;
  sn_profit : pp_guaranteed_profit_units v = pp_guaranteed_profit_units p;
  sn_release : pp_conservative_capital_release_at v = pp_conservative_capital_release_at p;
}.

Lemma payout_proof_inv p v :
  Forall valid_datetime (proof_datetimes p) → payout_proof_from_payload (payout_proof_json p) = Ok v → same_numbers p v.
Proof.
  intros Hd HR. unfold payout_proof_from_payload in HR.
  undecode_with ltac:(fun Hv => (apply optional_integer_inv in Hv) ||
    (apply optional_datetime_inv in Hv; [|done])) HR.
  subst v. by split.
Qed.

Lemma solution_inv s v :
  Forall valid_datetime (proof_datetimes (ps_payout_proof s)) → solution_from_payload (solution_json s) = Ok v →
  ps_quantities v = sort_on aq_action_id (ps_quantities s) ∧ same_numbers (ps_payout_proof s) (ps_payout_proof v).
Proof.
  intros Hd HR. unfold solution_from_payload in HR.
  undecode_with ltac:(fun Hv => (apply payout_proof_inv in Hv; [|done]) ||
    (apply (array_with_inv _ quantity_json id (sort_on aq_action_id (ps_quantities s))) in Hv; [|done|intros x y _; apply quantity_inv])) HR.
  subst v. simpl. by rewrite list_fmap_id.
Qed.
