(* ===== verification/Quotes.v ===== *)
(** * Prices from order books

    [src/open_trader/prediction_executable_cost.py]: the order book of every
    action is checked against the policy its component owns and turned into
    whole lots with a protected price and a cost upper bound; the priced
    problem carries these costs as its slices, and an execution leg records how
    a quantity walks them. *)

From S2P Require Import Prelude PyValue NLeg NLegForms NLegValidate IsoFormat Decimal Oracle Components.
Local Open Scope Z_scope.

Definition BOOK_FRESHNESS_SECONDS : Z := 10.
Definition PPM : Z := 1000000.
(** [_SEMANTIC_AS_OF] *)
Definition SEMANTIC_AS_OF : datetime := Datetime 0 (Some 0).

(** ** Books *)

Record BookLevel := { lv_price : decimal; lv_size : decimal }.

Record ThresholdOrderBook := {
  tb_token_id : string;
  tb_asks : list BookLevel;
  tb_bids : list BookLevel;
  tb_confirmed_at : datetime;
}.

Record PredictBook := {
  pk_market_id : string;
  pk_yes_asks : list BookLevel;
  pk_no_asks : list BookLevel;
  pk_source_timestamp : datetime;
  pk_received_at : datetime;
  pk_yes_token_id : string;
  pk_no_token_id : string;
}.

Inductive VenueBook := Threshold (b : ThresholdOrderBook) | Predict (b : PredictBook).

Record BookBinding := {
  bb_action_id : string;
  bb_venue_id : string;
  bb_native_id : string;
  bb_book_kind : string;
  bb_fee_rule_id : string;
  bb_fee_ppm : Z;
  bb_tick_units : Z;
  bb_haircut_ppm : Z;
  bb_price_units_per_quote_unit : Z;
  bb_market_id : string;
}.

#[export] Instance BookBinding_eq_dec : EqDecision BookBinding.
Proof. solve_decision. Defined.

Record ImmutableBook := {
  ib_action_id : string;
  ib_native_id : string;
  ib_book : VenueBook;
  ib_fee_ppm : Z;
  ib_tick_units : Z;
  ib_haircut_ppm : Z;
  ib_price_units_per_quote_unit : Z;
  ib_venue_id : string;
  ib_fee_rule_id : string;
}.

Record QuoteLevelEvidence := {
  ql_first_lot : Z;
  ql_last_lot : Z;
  ql_protected_price_units : Z;
  ql_max_fee_per_lot_units : Z;
  ql_max_cost_per_lot_units : Z;
}.

#[export] Instance QuoteLevelEvidence_eq_dec : EqDecision QuoteLevelEvidence.
Proof. solve_decision. Defined.

Record CanonicalQuoteEvidence := {
  cq_action_id : string;
  cq_venue_id : string;
  cq_account_id : string;
  cq_chain_id : string;
  cq_native_id : string;
  cq_book_kind : string;
  cq_binding : BookBinding;
  cq_source_fingerprint : string;
  cq_economic_fingerprint : string;
  cq_levels : list QuoteLevelEvidence;
}.

#[export] Instance CanonicalQuoteEvidence_eq_dec : EqDecision CanonicalQuoteEvidence.
Proof. solve_decision. Defined.

(** [CanonicalQuoteEvidence.cost_slices] *)
Definition level_slice (l : QuoteLevelEvidence) : ExecutableCostSlice := {|
  first_lot := ql_first_lot l; last_lot := ql_last_lot l;
  incremental_cost_upper_bound_units := ql_max_cost_per_lot_units l |}.
Definition cost_slices (q : CanonicalQuoteEvidence) : list ExecutableCostSlice := level_slice <$> cq_levels q.

Record ExecutionLegEvidence := {
  xl_action_id : string;
  xl_venue_id : string;
  xl_account_id : string;
  xl_chain_id : string;
  xl_native_id : string;
  xl_side : string;
  xl_quantity_lots : Z;
  xl_protected_price_units : Z;
  xl_price_units_per_quote_unit : Z;
  xl_max_fee_units : Z;
  xl_max_cost_units : Z;
  xl_settlement_asset_id : string;
  xl_valuation_unit_id : string;
  xl_source_fingerprint : string;
}.

#[export] Instance ExecutionLegEvidence_eq_dec : EqDecision ExecutionLegEvidence.
Proof. solve_decision. Defined.

(** ** The verified component *)

(** [BookBinding.__post_init__] *)
Definition valid_binding (b : BookBinding) : bool :=
  forallb (λ s, negb (s =? "")%string) [bb_action_id b; bb_venue_id b; bb_native_id b; bb_fee_rule_id b] &&
  ((bb_book_kind b =? "polymarket")%string || (bb_book_kind b =? "predict.fun")%string) &&
  (0 <=? bb_fee_ppm b) && (0 <=? bb_haircut_ppm b) && (0 <? bb_tick_units b) && (0 <? bb_price_units_per_quote_unit b).

Definition book_binding (b : BookBinding) : res BookBinding :=
  require (valid_binding b) (ValueError "invalid verified book binding");; Ok b.

Record VerifiedComponent := {
  vc_problem : ArbitrageProblem;
  vc_relation_fingerprint : string;
  vc_usd_units_per_dollar : Z;
  vc_book_bindings : list BookBinding;
}.

(** [replace(problem, as_of=...)] *)
Definition set_as_of (p : ArbitrageProblem) (d : datetime) : ArbitrageProblem := {|
  pb_schema_version := pb_schema_version p; pb_problem_id := pb_problem_id p; pb_as_of := d;
  pb_valuation_unit_id := pb_valuation_unit_id p; pb_actions := pb_actions p;
  pb_terminal_state_sets := pb_terminal_state_sets p; pb_constraint_model := pb_constraint_model p;
  pb_qualification_constraints := pb_qualification_constraints p |}.

(** [_semantic_problem] *)
Definition semantic_problem (p : ArbitrageProblem) : ArbitrageProblem := set_as_of p SEMANTIC_AS_OF.

Definition binding_json (b : BookBinding) : json := JObj
  [ ("action_id", JStr (bb_action_id b)); ("venue_id", JStr (bb_venue_id b)); ("native_id", JStr (bb_native_id b));
    ("book_kind", JStr (bb_book_kind b)); ("fee_rule_id", JStr (bb_fee_rule_id b)); ("fee_ppm", JInt (bb_fee_ppm b));
    ("tick_units", JInt (bb_tick_units b)); ("haircut_ppm", JInt (bb_haircut_ppm b));
    ("price_units_per_quote_unit", JInt (bb_price_units_per_quote_unit b)); ("market_id", JStr (bb_market_id b)) ].

Definition quote_level_json (l : QuoteLevelEvidence) : json := JObj
  [ ("first_lot", JInt (ql_first_lot l)); ("last_lot", JInt (ql_last_lot l));
    ("protected_price_units", JInt (ql_protected_price_units l));
    ("max_fee_per_lot_units", JInt (ql_max_fee_per_lot_units l));
    ("max_cost_per_lot_units", JInt (ql_max_cost_per_lot_units l)) ].

Definition canonical_quote_json (q : CanonicalQuoteEvidence) : json := JObj
  [ ("action_id", JStr (cq_action_id q)); ("venue_id", JStr (cq_venue_id q)); ("account_id", JStr (cq_account_id q));
    ("chain_id", JStr (cq_chain_id q)); ("native_id", JStr (cq_native_id q)); ("book_kind", JStr (cq_book_kind q));
    ("binding", binding_json (cq_binding q)); ("source_fingerprint", JStr (cq_source_fingerprint q));
    ("economic_fingerprint", JStr (cq_economic_fingerprint q)); ("levels", JArr (quote_level_json <$> cq_levels q)) ].

(** ** Levels *)

(** [_valid_level] *)
Definition valid_level (l : BookLevel) : res bool :=
  price ← positive (lv_price l);
  if negb price then Ok false
  else size ← positive (lv_size l);
       Ok (size && is_finite (lv_price l) && is_finite (lv_size l)).

(** The whole lots of a level. *)
Definition level_lots (a : CandidateAction) (l : BookLevel) : res Z :=
  x ← times (lv_size l) (ca_quantity_scale a);
  y ← divided x (ca_lot_step_units a);
  integer_floor y.

(** The protected price of a level, and the fee and the cost of one lot. *)
Definition level_price (source : ImmutableBook) (l : BookLevel) : res Z :=
  x ← times (lv_price l) (ib_price_units_per_quote_unit source);
  price ← integer_ceiling x;
  Ok (price + ib_tick_units source).

Definition lot_fee_and_cost (a : CandidateAction) (source : ImmutableBook) (common_units_per_dollar protected : Z) : Z * Z :=
  let venue_cost := ceil_div (protected * ca_lot_step_units a) (ca_quantity_scale a) in
  let common_cost := ceil_div (venue_cost * common_units_per_dollar) (ib_price_units_per_quote_unit source) in
  let fee := ceil_div (common_cost * ib_fee_ppm source) PPM in
  let haircut := ceil_div ((common_cost + fee) * ib_haircut_ppm source) PPM in
  (fee, common_cost + fee + haircut).

(** The loop over the visible asks; it stops at the action's maximum. *)
Fixpoint quote_levels (a : CandidateAction) (source : ImmutableBook) (usd first : Z) (asks : list BookLevel)
  : res (list QuoteLevelEvidence) :=
  match asks with
  | [] => Ok []
  | level :: asks =>
      valid ← valid_level level;
      require valid (ValueError "malformed visible ask");;
      lots ← level_lots a level;
      if lots <=? 0 then quote_levels a source usd first asks
      else
        protected ← level_price source level;
        let '(fee, cost) := lot_fee_and_cost a source usd protected in
        let last := Z.min (ca_max_quantity_lots a) (first + lots - 1) in
        let quoted := {| ql_first_lot := first; ql_last_lot := last; ql_protected_price_units := protected;
                         ql_max_fee_per_lot_units := fee; ql_max_cost_per_lot_units := cost |} in
        if last =? ca_max_quantity_lots a then Ok [quoted]
        else rest ← quote_levels a source usd (last + 1) asks; Ok (quoted :: rest)
  end.

(** [_book_asks]: the timestamps, the asks of the side, the market and the
    token they are for. *)
Definition book_asks (b : VenueBook) (a : CandidateAction) : list datetime * list BookLevel * string * string :=
  match b with
  | Threshold b => ([tb_confirmed_at b], tb_asks b, tb_token_id b, tb_token_id b)
  | Predict b =>
      let yes := (side_value (ca_side a) =? "BUY_YES")%string in
      ([pk_source_timestamp b; pk_received_at b], if yes then pk_yes_asks b else pk_no_asks b, pk_market_id b,
       if yes then pk_yes_token_id b else pk_no_token_id b)
  end.

(** [_economic_book] *)
Definition economic_book (b : ImmutableBook) (a : CandidateAction) : json :=
  let '(_, asks, market_id, actual_id) := book_asks (ib_book b) a in
  JObj
    [ ("action_id", JStr (ib_action_id b)); ("native_id", JStr actual_id); ("market_id", JStr market_id);
      ("fee_ppm", JInt (ib_fee_ppm b)); ("venue_id", JStr (ib_venue_id b)); ("fee_rule_id", JStr (ib_fee_rule_id b));
      ("tick_units", JInt (ib_tick_units b)); ("haircut_ppm", JInt (ib_haircut_ppm b));
      ("price_units_per_quote_unit", JInt (ib_price_units_per_quote_unit b));
      ("asks", JArr ((λ l, JArr [JStr (decimal_str (lv_price l)); JStr (decimal_str (lv_size l))]) <$> asks)) ].

(** No older than ten seconds, and not from the future. *)
Definition fresh (now t : datetime) : bool :=
  is_utc t && (0 <=? dt_us now - dt_us t) && (dt_us now - dt_us t <=? BOOK_FRESHNESS_SECONDS * US_PER_SECOND).

Definition is_threshold (b : VenueBook) : bool := match b with Threshold _ => true | Predict _ => false end.

(** The book is the one its binding owns. *)
Definition book_matches (a : CandidateAction) (source : ImmutableBook) (b : BookBinding) : bool :=
  (ib_action_id source =? ca_action_id a)%string && (bb_action_id b =? ca_action_id a)%string &&
  (bb_venue_id b =? ca_venue_id a)%string && (ib_venue_id source =? bb_venue_id b)%string &&
  (ib_native_id source =? bb_native_id b)%string && (ib_fee_rule_id source =? bb_fee_rule_id b)%string &&
  (ib_fee_ppm source =? bb_fee_ppm b) && (ib_tick_units source =? bb_tick_units b) &&
  (ib_haircut_ppm source =? bb_haircut_ppm b) &&
  (ib_price_units_per_quote_unit source =? bb_price_units_per_quote_unit b) &&
  Bool.eqb (bb_book_kind b =? "polymarket")%string (is_threshold (ib_book source)) &&
  Bool.eqb (bb_book_kind b =? "predict.fun")%string (negb (is_threshold (ib_book source))).

Definition valid_costs (source : ImmutableBook) : bool :=
  (0 <=? ib_fee_ppm source) && (0 <=? ib_haircut_ppm source) && (0 <? ib_tick_units source) &&
  (0 <? ib_price_units_per_quote_unit source).

Section quotes.
Context `{Sha256}.

(** [component_fingerprint] *)
Definition component_fingerprint (p : ArbitrageProblem) (bindings : list BookBinding) (usd : Z) : res string :=
  let semantic := semantic_problem p in
  require (forallb is_utc (problem_datetimes semantic)) not_canonical;;
  Ok (fingerprint_json (JObj
    [ ("problem", problem_json semantic); ("book_bindings", JArr (binding_json <$> bindings));
      ("usd_units_per_dollar", JInt usd) ])).

Definition same_set (l k : list string) : bool := bool_decide ((list_to_set l : gset string) = list_to_set k).

(** [VerifiedComponent(...)] *)
Definition verified_component (c : VerifiedComponent) : res VerifiedComponent :=
  let p := vc_problem c in
  let action_ids := ca_action_id <$> pb_actions p in
  let bound_ids := bb_action_id <$> vc_book_bindings c in
  require (0 <? vc_usd_units_per_dollar c) (ValueError "usd units per dollar must be positive");;
  expected ← component_fingerprint p (vc_book_bindings c) (vc_usd_units_per_dollar c);
  require (vc_relation_fingerprint c =? expected)%string (ValueError "component relation fingerprint mismatch");;
  require (same_set bound_ids action_ids && Nat.eqb (length bound_ids) (length action_ids))
    (ValueError "component must bind every action to verified book policy");;
  require (bool_decide (sorted_strings bound_ids = bound_ids)) (ValueError "component bindings must be sorted by action ID");;
  components ← build_relation_components p None;
  match components with
  | [component] =>
      require (same_set (rl_action_ids component) action_ids)
        (ValueError "component must contain exactly one connected support");;
      Ok c
  | _ => Err (ValueError "component must contain exactly one connected support")
  end.

(** ** [_normalize_quote] *)

Definition normalize_quote (a : CandidateAction) (source : ImmutableBook) (b : BookBinding) (usd : Z) (now : datetime)
  : res (option CanonicalQuoteEvidence) :=
  require (book_matches a source b) (ValueError "invalid book");;
  require (valid_costs source) (ValueError "missing cost facts");;
  let '(timestamps, asks, market_id, actual_id) := book_asks (ib_book source) a in
  require ((ib_native_id source =? actual_id)%string &&
           (negb (bb_book_kind b =? "predict.fun")%string ||
            (negb (bb_market_id b =? "")%string && (bb_market_id b =? market_id)%string)) &&
           forallb (fresh now) timestamps) (ValueError "stale or mismatched book");;
  levels ← quote_levels a source usd 1 asks;
  match last levels with
  | None => Ok None
  | Some final =>
      if ql_last_lot final <? ca_min_quantity_lots a then Ok None
      else
        require (forallb is_utc (key_datetimes (ca_settlement_observation_key a))) not_canonical;;
        let book := economic_book source a in
        Ok (Some {|
          cq_action_id := ca_action_id a; cq_venue_id := ca_venue_id a; cq_account_id := ca_account_id a;
          cq_chain_id := ca_chain_id a; cq_native_id := ib_native_id source; cq_book_kind := bb_book_kind b; cq_binding := b;
          cq_source_fingerprint := fingerprint_json (JObj
            [("binding", binding_json b); ("book", book); ("action", action_json a)]);
          cq_economic_fingerprint := fingerprint_json book; cq_levels := levels |})
  end.

(** ** The priced problem *)

(** [replace(action, max_quantity_lots=..., cost_slices=...)] *)
Definition priced_action (a : CandidateAction) (max_lots : Z) (slices : list ExecutableCostSlice) : CandidateAction := {|
  ca_action_id := ca_action_id a; ca_venue_id := ca_venue_id a; ca_account_id := ca_account_id a;
  ca_chain_id := ca_chain_id a; ca_market_contract_id := ca_market_contract_id a;
  ca_settlement_observation_key := ca_settlement_observation_key a; ca_side := ca_side a;
  ca_lot_step_units := ca_lot_step_units a; ca_quantity_scale := ca_quantity_scale a;
  ca_min_quantity_lots := ca_min_quantity_lots a; ca_max_quantity_lots := max_lots;
  ca_settlement_asset_id := ca_settlement_asset_id a; ca_valuation_unit_id := ca_valuation_unit_id a;
  ca_asset_valuation_rule_id := ca_asset_valuation_rule_id a; ca_cost_slices := slices |}.

(** [_qualification_constraints] *)
Definition qualification_constraints (c : VerifiedComponent) (rules : list TerminalStateSet)
  : res (list QualificationConstraint) :=
  let missing := ValueError "missing verified rule version" in
  rule ← of_option missing (ts_rule_version <$> head rules);
  require (negb (rule =? "")%string) missing;;
  let constraint id metric comparison threshold := {|
    qc_constraint_id := id; qc_rule_version := rule; qc_metric := metric; qc_comparison := comparison;
    qc_threshold_numerator := threshold; qc_threshold_denominator := 1 |} in
  Ok [ constraint "minimum-profit-usd" GUARANTEED_PROFIT_UNITS GREATER_THAN_OR_EQUAL (vc_usd_units_per_dollar c);
       constraint "minimum-return-on-cost" RETURN_ON_COST_PPM GREATER_THAN_OR_EQUAL 10000;
       constraint "minimum-annualized-return" ANNUALIZED_RETURN_PPM GREATER_THAN_OR_EQUAL 150000;
       constraint "maximum-release-delay" MAX_CAPITAL_RELEASE_DELAY_SECONDS LESS_THAN_OR_EQUAL (30 * 86400) ].

(** The quoted actions, with their quotes. *)
Definition price_action (c : VerifiedComponent) (by_action : gmap string ImmutableBook) (now : datetime) (a : CandidateAction)
  : res (option (CandidateAction * CanonicalQuoteEvidence)) :=
  book ← of_option (KeyError (ca_action_id a)) (by_action !! ca_action_id a);
  binding ← of_option (RuntimeError "StopIteration")
              (py_next (λ b, (bb_action_id b =? ca_action_id a)%string) (vc_book_bindings c));
  quote ← normalize_quote a book binding (vc_usd_units_per_dollar c) now;
  match quote with
  | None => Ok None
  | Some q =>
      final ← of_option IndexError (last (cq_levels q));
      Ok (Some (priced_action a (ql_last_lot final) (cost_slices q), q))
  end.

(** The payouts of the quoted actions only. *)
Definition restrict_payouts (available : list string) (s : TerminalStateSet) : TerminalStateSet :=
  set_state_atoms s
    ((λ t, set_atom_payouts t (filter (λ y, ap_action_id y ∈ available) (ta_payouts t))) <$> ts_atoms s).

(** [_problem_with_visible_asks]: [None] when nothing is deep enough. *)
Definition problem_with_visible_asks (c : VerifiedComponent) (books : list ImmutableBook) (now : datetime)
  : res (option (ArbitrageProblem * string * list CanonicalQuoteEvidence)) :=
  let p := vc_problem c in
  require (is_utc now) (ValueError "books must be an immutable tuple");;
  let by_action := index_by ib_action_id books in
  require (Nat.eqb (size by_action) (length books) && same_set (ib_action_id <$> books) (ca_action_id <$> pb_actions p))
    (ValueError "books must exactly cover component actions");;
  priced ← mapM (price_action c by_action now) (pb_actions p);
  let quoted := omap id priced in
  match quoted with
  | [] => Ok None
  | _ =>
      constraints ← qualification_constraints c (pb_terminal_state_sets p);
      let problem := {|
        pb_schema_version := pb_schema_version p; pb_problem_id := pb_problem_id p; pb_as_of := now;
        pb_valuation_unit_id := pb_valuation_unit_id p; pb_actions := quoted.*1;
        pb_terminal_state_sets := restrict_payouts (ca_action_id <$> quoted.*1) <$> pb_terminal_state_sets p;
        pb_constraint_model := pb_constraint_model p; pb_qualification_constraints := constraints |} in
      let quotes := quoted.*2 in
      Ok (Some (problem, fingerprint_json (JObj [("quotes", JArr (canonical_quote_json <$> quotes));
                                                 ("relation", JStr (vc_relation_fingerprint c))]), quotes))
  end.
End quotes.

(** ** [_execution_legs] *)

(** What is left of the quantity, the protected price and the fee so far. *)
Record Walk := { wk_remaining : Z; wk_protected_price : Z; wk_max_fee : Z }.

Fixpoint walk_levels (w : Walk) (levels : list QuoteLevelEvidence) : Walk :=
  match levels with
  | [] => w
  | l :: levels =>
      let take := Z.min (wk_remaining w) (ql_last_lot l - ql_first_lot l + 1) in
      if take <=? 0 then walk_levels w levels
      else
        let w := {| wk_remaining := wk_remaining w - take;
                    wk_protected_price := Z.max (wk_protected_price w) (ql_protected_price_units l);
                    wk_max_fee := wk_max_fee w + take * ql_max_fee_per_lot_units l |} in
        if wk_remaining w =? 0 then w else walk_levels w levels
  end.

Definition execution_leg (p : ArbitrageProblem) (actions : gmap string CandidateAction)
    (by_action : gmap string CanonicalQuoteEvidence) (q : ActionQuantity) : res ExecutionLegEvidence :=
  a ← of_option (KeyError (aq_action_id q)) (actions !! aq_action_id q);
  quote ← of_option (KeyError (aq_action_id q)) (by_action !! aq_action_id q);
  let w := walk_levels {| wk_remaining := aq_quantity_lots q; wk_protected_price := 0; wk_max_fee := 0 |} (cq_levels quote) in
  require (wk_remaining w =? 0) (ValueError "execution evidence exceeds visible asks");;
  cost ← cost_upper_bound p [q];
  Ok {| xl_action_id := ca_action_id a; xl_venue_id := ca_venue_id a; xl_account_id := ca_account_id a;
        xl_chain_id := ca_chain_id a; xl_native_id := cq_native_id quote; xl_side := side_value (ca_side a);
        xl_quantity_lots := aq_quantity_lots q; xl_protected_price_units := wk_protected_price w;
        xl_price_units_per_quote_unit := bb_price_units_per_quote_unit (cq_binding quote);
        xl_max_fee_units := wk_max_fee w; xl_max_cost_units := cost; xl_settlement_asset_id := ca_settlement_asset_id a;
        xl_valuation_unit_id := ca_valuation_unit_id a; xl_source_fingerprint := cq_source_fingerprint quote |}.

Definition execution_legs (p : ArbitrageProblem) (quantities : list ActionQuantity) (quotes : list CanonicalQuoteEvidence)
  : res (list ExecutionLegEvidence) :=
  mapM (execution_leg p (index_by ca_action_id (pb_actions p)) (index_by cq_action_id quotes)) quantities.
