(* ===== verification/QuotesCorrect.v ===== *)
(** * What a quote establishes

    The levels of a quote are contiguous lots backed by distinct visible asks;
    the cost of a lot covers its price, the tick, the fee and the haircut; the
    priced problem is well formed whenever every contract keeps a quoted
    action; an execution leg charges every lot its level. *)

From S2P Require Import Prelude PyValue NLeg NLegForms NLegValidate NLegWf Oracle OracleScenario IsoFormat Decimal DecimalCorrect Components Quotes.
Local Open Scope Z_scope.

(** ** Levels *)

(** A level of the quote and the ask it takes its lots from. *)
Record backed (a : CandidateAction) (source : ImmutableBook) (usd : Z) (ask : BookLevel) (l : QuoteLevelEvidence) : Prop := {
  bk_valid : valid_level ask = Ok true;
  bk_lots : ∃ n, level_lots a ask = Ok n ∧ ql_last_lot l - ql_first_lot l + 1 ≤ n ∧
    (ql_last_lot l - ql_first_lot l + 1 = n ∨ ql_last_lot l = ca_max_quantity_lots a);
  bk_price : level_price source ask = Ok (ql_protected_price_units l);
  bk_cost : lot_fee_and_cost a source usd (ql_protected_price_units l) = (ql_max_fee_per_lot_units l, ql_max_cost_per_lot_units l);
}.

(** The lots a quote offers end at the action's maximum, or every ask with a
    whole lot is used. *)
Definition exhausts (a : CandidateAction) (asks used : list BookLevel) (levels : list QuoteLevelEvidence) : Prop :=
  (∃ l, last levels = Some l ∧ ql_last_lot l = ca_max_quantity_lots a) ∨
  ∀ ask, ask ∈ asks → ask ∈ used ∨ ∃ n, level_lots a ask = Ok n ∧ n ≤ 0.

Lemma last_level_cons {A} (x : A) l y : last l = Some y → last (x :: l) = Some y.
Proof. destruct l; [done|]. by rewrite last_cons_cons. Qed.

Lemma quote_levels_spec a source usd first asks levels :
  quote_levels a source usd first asks = Ok levels → first ≤ ca_max_quantity_lots a →
  contiguous (first - 1) (level_slice <$> levels) ∧
  Forall (λ l, ql_last_lot l ≤ ca_max_quantity_lots a) levels ∧
  ∃ used, used `sublist_of` asks ∧ Forall2 (backed a source usd) used levels ∧ exhausts a asks used levels.
Proof.
  revert first levels; induction asks as [|ask asks IH]; intros first levels; cbn [quote_levels].
  { intros [= <-] _. split_and!; [done|constructor|]. exists []. split_and!; [constructor..|]. right. by intros ? ?%not_elem_of_nil. }
  intros (valid & Hv & (? & ->%require_Ok & (n & Hn & H)%bind_Ok)%bind_Ok)%bind_Ok Hfirst.
  destruct (Z.leb_spec n 0) as [Hz|Hz].
  { destruct (IH _ _ H Hfirst) as (Hc & Hm & used & Hs & Hb & He). split_and!; [done..|]. exists used.
    split_and!; [by constructor|done|]. destruct He as [He|He]; [by left|right].
    intros other [->|Ho]%elem_of_cons; eauto. }
  apply bind_Ok in H as (protected & Hp & H). destruct (lot_fee_and_cost _ _ _ _) as [fee cost] eqn:Ec.
  set (final := Z.min (ca_max_quantity_lots a) (first + n - 1)) in *.
  set (l := {| ql_first_lot := first; ql_last_lot := final; ql_protected_price_units := protected;
               ql_max_fee_per_lot_units := fee; ql_max_cost_per_lot_units := cost |}) in *.
  assert (Hl : backed a source usd ask l).
  { split; [done| |done|done]. exists n. simpl. split_and!; [done|lia|]. destruct (Z.min_spec (ca_max_quantity_lots a) (first + n - 1)); lia. }
  destruct (Z.eqb_spec final (ca_max_quantity_lots a)) as [Ef|Ef].
  - injection H as <-. csimpl. split_and!; [lia|lia|done|repeat constructor; simpl; lia|]. exists [ask].
    split_and!; [apply sublist_skip, sublist_nil_l|by constructor; [|constructor]|]. left. by exists l.
  - apply bind_Ok in H as (rest & Hr & [= <-]). destruct (IH _ _ Hr ltac:(lia)) as (Hc & Hm & used & Hs & Hb & He).
    replace (final + 1 - 1) with final in Hc by lia. csimpl.
    split_and!; [lia|lia|done|constructor; [simpl; lia|done]|]. exists (ask :: used).
    split_and!; [by apply sublist_skip|by constructor|]. destruct He as [(final_level & Hlast & Elast)|He].
    + left. exists final_level. split; [by apply last_level_cons|done].
    + right. intros other [->|Ho]%elem_of_cons; [left; set_solver|]. destruct (He other Ho) as [?|?]; [left; set_solver|by right].
Qed.

(** ** Money *)

(** The cost of a lot covers the protected price of its units, converted to
    the common unit, with the fee on top and the haircut on both. *)
Lemma lot_cost_covers a source usd protected fee cost :
  lot_fee_and_cost a source usd protected = (fee, cost) → valid_costs source = true → 0 < ca_quantity_scale a → 0 ≤ usd →
  protected * ca_lot_step_units a * usd * (PPM + ib_fee_ppm source) * (PPM + ib_haircut_ppm source)
  ≤ cost * (ca_quantity_scale a * ib_price_units_per_quote_unit source * PPM * PPM).
Proof.
  unfold lot_fee_and_cost, valid_costs. intros [= Hf Hc] Hv Hs Hu. bool_prop.
  set (venue := ceil_div (protected * ca_lot_step_units a) (ca_quantity_scale a)) in *.
  set (common := ceil_div (venue * usd) (ib_price_units_per_quote_unit source)) in *.
  set (haircut := ceil_div ((common + fee) * ib_haircut_ppm source) PPM) in *.
  assert (0 < PPM) by done.
  pose proof (ceil_div_spec (protected * ca_lot_step_units a) (ca_quantity_scale a) Hs) as [_ E1]. fold venue in E1.
  pose proof (ceil_div_spec (venue * usd) (ib_price_units_per_quote_unit source) ltac:(done)) as [_ E2]. fold common in E2.
  pose proof (ceil_div_spec (common * ib_fee_ppm source) PPM ltac:(done)) as [_ E3]. rewrite Hf in E3.
  pose proof (ceil_div_spec ((common + fee) * ib_haircut_ppm source) PPM ltac:(done)) as [_ E4]. fold haircut in E4.
  rewrite Hf in Hc. fold haircut in Hc.
  set (s := ca_quantity_scale a) in *. set (u := ib_price_units_per_quote_unit source) in *.
  set (f := ib_fee_ppm source) in *. set (h := ib_haircut_ppm source) in *.
  assert (F1 : protected * ca_lot_step_units a * usd ≤ s * venue * usd) by (apply Z.mul_le_mono_nonneg_r; lia).
  assert (F2 : s * (venue * usd) ≤ s * (u * common)) by (apply Z.mul_le_mono_nonneg_l; lia).
  assert (F3 : common * (PPM + f) ≤ PPM * (common + fee)) by lia.
  assert (F4 : (common + fee) * (PPM + h) ≤ PPM * cost) by lia.
  apply (Z.mul_le_mono_nonneg_r _ _ (PPM + h)) in F3; [|lia]. apply (Z.mul_le_mono_nonneg_l _ _ PPM) in F4; [|lia].
  assert (F5 : protected * ca_lot_step_units a * usd ≤ s * u * common) by lia.
  apply (Z.mul_le_mono_nonneg_r _ _ ((PPM + f) * (PPM + h))) in F5; [|apply Z.mul_nonneg_nonneg; lia].
  assert (F6 : common * (PPM + f) * (PPM + h) ≤ PPM * (PPM * cost)) by lia.
  apply (Z.mul_le_mono_nonneg_l _ _ (s * u)) in F6; [|apply Z.mul_nonneg_nonneg; lia]. lia.
Qed.

(** The arithmetic of prices and sizes is exact on this ask. *)
Definition ask_fits (a : CandidateAction) (source : ImmutableBook) (ask : BookLevel) : Prop :=
  ∀ np c e ns c' e', lv_price ask = Finite np c e → lv_size ask = Finite ns c' e' →
    price_fits c e (ib_price_units_per_quote_unit source) ∧ size_fits c' e' (ca_quantity_scale a) (ca_lot_step_units a).

(** The level [l] charges at least what the ask [c * 10^e] for
    [c' * 10^e'] contracts asks, and offers at most its size. *)
Record conservative (a : CandidateAction) (source : ImmutableBook) (usd : Z) (ask : BookLevel) (l : QuoteLevelEvidence) : Prop := {
  cs_ask : ∃ c e c' e', lv_price ask = Finite false c e ∧ lv_size ask = Finite false c' e' ∧
    (ql_last_lot l - ql_first_lot l + 1) * ca_lot_step_units a * down e' ≤ c' * up e' * ca_quantity_scale a ∧
    c * up e * ib_price_units_per_quote_unit source + ib_tick_units source * down e ≤ ql_protected_price_units l * down e;
  cs_cost : ql_protected_price_units l * ca_lot_step_units a * usd * (PPM + ib_fee_ppm source) * (PPM + ib_haircut_ppm source)
    ≤ ql_max_cost_per_lot_units l * (ca_quantity_scale a * ib_price_units_per_quote_unit source * PPM * PPM);
}.

Lemma valid_level_finite ask : valid_level ask = Ok true →
  ∃ c e c' e', lv_price ask = Finite false c e ∧ lv_size ask = Finite false c' e' ∧ 0 < c ∧ 0 < c'.
Proof.
  unfold valid_level. intros (price & Hp & H)%bind_Ok. destruct price; [|done]. cbn [negb] in H.
  apply bind_Ok in H as (size & Hs & [= H]). bool_prop. subst size.
  destruct (lv_price ask) as [[] c e|?|? ? ?]; try done. destruct (lv_size ask) as [[] c' e'|?|? ? ?]; try done.
  simpl in Hp, Hs. injection Hp as Hp. injection Hs as Hs. bool_prop. by eexists _, _, _, _.
Qed.

Lemma backed_conservative a source usd ask l :
  backed a source usd ask l → ask_fits a source ask → valid_costs source = true → 0 < ca_quantity_scale a → 0 ≤ usd →
  conservative a source usd ask l.
Proof.
  intros [Hv (n & Hn & Hle & _) Hp Hc] Hfit Hvc Hs Hu.
  destruct (valid_level_finite _ Hv) as (c & e & c' & e' & Epr & Esz & _). destruct (Hfit _ _ _ _ _ _ Epr Esz) as [Fp Fs].
  split; [|by apply lot_cost_covers with (fee := ql_max_fee_per_lot_units l)]. exists c, e, c', e'. split_and!; [done..| |].
  - unfold level_lots in Hn. rewrite Esz, (lots_exact _ _ _ _ Fs) in Hn. injection Hn as <-.
    destruct Fs as (_ & _ & Hst & _). pose proof (down_pos e'). assert (Hd : 0 < ca_lot_step_units a * down e') by (by apply Z.mul_pos_pos).
    apply (Z.mul_le_mono_nonneg_r _ _ (ca_lot_step_units a * down e')) in Hle; [|lia].
    pose proof (Z.mul_div_le (c' * ca_quantity_scale a * up e') (ca_lot_step_units a * down e') Hd). lia.
  - unfold level_price in Hp. apply bind_Ok in Hp as (x & Hx & (z & Hz & [= Ez])%bind_Ok).
    assert (E := protected_exact _ _ _ Fp). rewrite Epr in Hx. rewrite Hx in E. cbn [mbind res_bind] in E.
    rewrite Hz in E. injection E as ->. rewrite <- Ez. pose proof (down_pos e) as Hd.
    pose proof (ceil_div_spec (c * ib_price_units_per_quote_unit source * up e) (down e) Hd). lia.
Qed.

(** ** Quotes *)

Section quote.
Context `{Sha256}.

(** What a quote is: a fresh matching book, contiguous levels on distinct
    asks, at least the minimum quantity. *)
Record quote_ok (a : CandidateAction) (source : ImmutableBook) (b : BookBinding) (usd : Z) (now : datetime)
    (asks : list BookLevel) (q : CanonicalQuoteEvidence) : Prop := {
  qo_book : book_matches a source b = true ∧ valid_costs source = true;
  qo_asks : ∃ timestamps market native, book_asks (ib_book source) a = (timestamps, asks, market, native) ∧
    ib_native_id source = native ∧ Forall (λ t, fresh now t = true) timestamps;
  qo_names : cq_action_id q = ca_action_id a ∧ cq_native_id q = ib_native_id source ∧ cq_binding q = b;
  qo_contiguous : contiguous 0 (cost_slices q);
  qo_last : ∃ l, last (cq_levels q) = Some l ∧ ca_min_quantity_lots a ≤ ql_last_lot l ≤ ca_max_quantity_lots a;
  qo_backed : ∃ used, used `sublist_of` asks ∧ Forall2 (backed a source usd) used (cq_levels q) ∧
    exhausts a asks used (cq_levels q);
}.

Lemma normalize_quote_ok a source b usd now q :
  normalize_quote a source b usd now = Ok (Some q) → 1 ≤ ca_max_quantity_lots a →
  ∃ asks, quote_ok a source b usd now asks q.
Proof.
  unfold normalize_quote. intros (? & Hm%require_Ok & (? & Hc%require_Ok & HR)%bind_Ok)%bind_Ok Hmax.
  destruct (book_asks _ _) as [[[timestamps asks] market] native] eqn:Ea.
  apply bind_Ok in HR as (? & Hf%require_Ok & (levels & Hl & HR)%bind_Ok).
  destruct (quote_levels_spec _ _ _ _ _ _ Hl Hmax) as (Hcont & Hbound & Hused).
  destruct (last levels) as [final|] eqn:Elast; [|done]. destruct (Z.ltb_spec (ql_last_lot final) (ca_min_quantity_lots a)); [done|].
  apply bind_Ok in HR as (? & _ & [= <-]). exists asks. apply andb_prop in Hf as [[Hn _]%andb_prop Hf]. split; simpl; try done.
  - exists timestamps, market, native. split_and!; [done|by apply String.eqb_eq|]. apply Forall_forall. intros t Ht. apply forallb_forall with (x := t) in Hf; [done|].
    by apply list_elem_of_In.
  - exists final. split_and!; [done..|]. rewrite Forall_forall in Hbound. apply Hbound. by apply last_Some_elem_of.
Qed.

Lemma normalize_quote_none a source b usd now :
  normalize_quote a source b usd now = Ok None →
  ∃ timestamps asks market native levels, book_asks (ib_book source) a = (timestamps, asks, market, native) ∧
    quote_levels a source usd 1 asks = Ok levels ∧
    match last levels with None => levels = [] | Some l => ql_last_lot l < ca_min_quantity_lots a end.
Proof.
  unfold normalize_quote. intros (? & Hm%require_Ok & (? & Hc%require_Ok & HR)%bind_Ok)%bind_Ok.
  destruct (book_asks _ _) as [[[timestamps asks] market] native] eqn:Ea.
  apply bind_Ok in HR as (? & Hf%require_Ok & (levels & Hl & HR)%bind_Ok).
  exists timestamps, asks, market, native, levels. split_and!; [done..|].
  destruct (last levels) as [final|] eqn:Elast; [|by apply last_None].
  destruct (Z.ltb_spec (ql_last_lot final) (ca_min_quantity_lots a)); [done|]. by apply bind_Ok in HR as (? & _ & ?).
Qed.
End quote.

(** ** Execution legs *)

(** The fees of the levels, as slices. *)
Definition fee_slice (l : QuoteLevelEvidence) : ExecutableCostSlice := {|
  first_lot := ql_first_lot l; last_lot := ql_last_lot l; incremental_cost_upper_bound_units := ql_max_fee_per_lot_units l |}.

(** The highest protected price among the levels the first [n] lots reach. *)
Definition protects (levels : list QuoteLevelEvidence) (n price : Z) : Prop :=
  (∀ l, l ∈ levels → ql_first_lot l ≤ n → ql_protected_price_units l ≤ price) ∧
  ∃ l, l ∈ levels ∧ ql_first_lot l ≤ n ∧ ql_protected_price_units l = price.

Lemma contiguous_first prev slices : contiguous prev slices → ∀ x, x ∈ slices → prev < first_lot x.
Proof.
  revert prev; induction slices as [|c slices IH]; intros prev Hc x Hx; [by apply not_elem_of_nil in Hx|].
  destruct Hc as (Hf & Hle & Hc). apply elem_of_cons in Hx as [->|Hx]; [lia|]. pose proof (IH _ Hc x Hx). lia.
Qed.

Lemma walk_levels_spec prev levels w w' n :
  contiguous prev (level_slice <$> levels) → walk_levels w levels = w' → wk_remaining w = n - prev →
  0 < wk_remaining w → n ≤ final_lot prev (level_slice <$> levels) →
  wk_remaining w' = 0 ∧
  wk_max_fee w' = wk_max_fee w + sumZ (lot_cost (fee_slice <$> levels) <$> seqZ (prev + 1) (n - prev)) ∧
  (∀ l, l ∈ levels → ql_first_lot l ≤ n → ql_protected_price_units l ≤ wk_protected_price w') ∧
  wk_protected_price w ≤ wk_protected_price w' ∧
  (wk_protected_price w' = wk_protected_price w ∨
   ∃ l, l ∈ levels ∧ ql_first_lot l ≤ n ∧ ql_protected_price_units l = wk_protected_price w').
Proof.
  intros Hc <-. revert prev w Hc. induction levels as [|l levels IH]; intros prev w Hc Hr Hpos Hn.
  { unfold final_lot in Hn. simpl in Hn. lia. }
  csimpl in *. rewrite final_lot_cons in Hn. destruct Hc as (Hf & Hle & Hc). simpl in Hf, Hle, Hc, Hn.
  set (take := Z.min (wk_remaining w) (ql_last_lot l - ql_first_lot l + 1)).
  destruct (Z.leb_spec take 0); [lia|].
  set (w1 := {| wk_remaining := wk_remaining w - take; wk_protected_price := Z.max (wk_protected_price w) (ql_protected_price_units l);
                wk_max_fee := wk_max_fee w + take * ql_max_fee_per_lot_units l |}).
  assert (Hsum : sumZ (lot_cost (fee_slice l :: (fee_slice <$> levels)) <$> seqZ (prev + 1) take)
                 = take * ql_max_fee_per_lot_units l).
  { rewrite (sumZ_const _ (ql_max_fee_per_lot_units l)); [rewrite length_seqZ; lia|].
    intros lot Hlot%elem_of_seqZ. by rewrite lot_cost_here by (simpl; lia). }
  destruct (Z.eqb_spec (wk_remaining w - take) 0) as [Ez|Ez].
  - assert (take = n - prev) as <- by lia. rewrite Hsum. unfold w1; simpl. split_and!; [lia|lia| |lia|].
    + intros x [->|Hx]%elem_of_cons Hfirst; [lia|].
      pose proof (contiguous_first _ _ Hc (level_slice x) (list_elem_of_fmap_2 _ _ _ Hx)). simpl in *. lia.
    + destruct (Z.max_spec (wk_protected_price w) (ql_protected_price_units l)) as [[_ E]|[_ E]]; [right|by left].
      exists l. split_and!; [set_solver|lia|done].
  - destruct (IH (ql_last_lot l) w1 Hc) as (I1 & I2 & I3 & I4 & I5); [simpl; lia..|].
    change (wk_protected_price w1) with (Z.max (wk_protected_price w) (ql_protected_price_units l)) in I4, I5.
    change (wk_max_fee w1) with (wk_max_fee w + take * ql_max_fee_per_lot_units l) in I2.
    split_and!; [done| | | |].
    + rewrite I2. replace (n - prev) with (take + (n - ql_last_lot l)) by lia.
      rewrite seqZ_app, fmap_app, sumZ_app, Hsum by lia. replace (prev + 1 + take) with (ql_last_lot l + 1) by lia.
      rewrite (sumZ_fmap_ext (lot_cost (fee_slice l :: (fee_slice <$> levels))) (lot_cost (fee_slice <$> levels))); [lia|].
      intros lot Hlot%elem_of_seqZ. apply lot_cost_later. simpl. lia.
    + intros x [->|Hx]%elem_of_cons Hfirst; [lia|auto].
    + lia.
    + destruct I5 as [E|(x & Hx & Hfx & E)]; [|right; exists x; split_and!; [set_solver|done..]].
      rewrite E.
      destruct (Z.max_spec (wk_protected_price w) (ql_protected_price_units l)) as [[_ E']|[_ E']]; [right|by left].
      exists l. split_and!; [set_solver|lia|done].
Qed.

(** A walk from nothing: the lots are covered, every lot is charged its
    level's fee, the price protects exactly the levels reached. *)
Lemma walk_from_zero levels n :
  contiguous 0 (level_slice <$> levels) → 0 < n ≤ final_lot 0 (level_slice <$> levels) →
  Forall (λ l, 0 ≤ ql_protected_price_units l) levels →
  let w := walk_levels {| wk_remaining := n; wk_protected_price := 0; wk_max_fee := 0 |} levels in
  wk_remaining w = 0 ∧ wk_max_fee w = lots_cost (fee_slice <$> levels) n ∧ protects levels n (wk_protected_price w).
Proof.
  intros Hc Hn Hp w. destruct (walk_levels_spec 0 levels _ w n Hc eq_refl) as (I1 & I2 & I3 & I4 & I5); [simpl; lia..|].
  clearbody w. simpl in I2, I4, I5. rewrite Z.sub_0_r in I2. split_and!; [done|by rewrite I2|]. split; [done|].
  destruct I5 as [E|?]; [|done]. destruct levels as [|l levels]; [unfold final_lot in Hn; simpl in Hn; lia|].
  csimpl in Hc. destruct Hc as (Hf & _ & _). simpl in Hf. exists l. split_and!; [set_solver|lia|].
  apply Forall_cons in Hp as [Hl _]. pose proof (I3 l ltac:(set_solver) ltac:(lia)). lia.
Qed.

(** *** Protected prices are positive *)

Lemma half_even_nonneg n unit : 0 ≤ n → 0 < unit → 0 ≤ half_even n unit.
Proof. intros Hn Hu. pose proof (half_even_bound n unit Hu) as [Hle _]. pose proof (Z.div_pos n unit Hn Hu). lia. Qed.

Lemma fix_decimal_nonneg c e d : 0 ≤ c → fix_decimal false c e = Ok d → ∃ c' e', d = Finite false c' e' ∧ 0 ≤ c'.
Proof.
  intros Hc. unfold fix_decimal. destruct (Z.eqb_spec c 0) as [_|_]; [intros [= <-]; by eexists _, _|].
  set (drop := Z.max 0 (Z.max (digits c - PRECISION) (ETINY - e))).
  set (k := if drop =? 0 then c else half_even c (10 ^ drop)).
  assert (Hk : 0 ≤ k).
  { unfold k. destruct (drop =? 0); [done|]. apply half_even_nonneg; [done|]. apply Z.pow_pos_nonneg; lia. }
  destruct (k =? 10 ^ PRECISION).
  all: destruct (_ <? _); [done|]; intros [= <-]; eexists _, _; split; [done|]; try done.
  by apply Z.div_pos.
Qed.

Lemma level_price_pos source ask v :
  valid_level ask = Ok true → valid_costs source = true → level_price source ask = Ok v → 0 < v.
Proof.
  intros (c & e & c' & e' & Ep & _ & Hc & _)%valid_level_finite Hv. unfold level_price, valid_costs in *. bool_prop.
  rewrite Ep. intros (x & Hx & (z & Hz & [= <-])%bind_Ok)%bind_Ok. simpl in Hx.
  destruct (Z.ltb_spec (ib_price_units_per_quote_unit source) 0); [lia|]. cbn [xorb] in Hx.
  apply fix_decimal_nonneg in Hx as (k & e2 & -> & Hk); [|apply Z.mul_nonneg_nonneg; lia].
  injection Hz as <-. cbn [signed]. pose proof (down_pos e2) as Hd. pose proof (up_pos e2).
  pose proof (ceil_div_spec (k * up e2) (down e2) Hd) as [_ Hle].
  assert (0 ≤ k * up e2) by (apply Z.mul_nonneg_nonneg; lia).
  assert (0 ≤ ceil_div (k * up e2) (down e2)); [|lia]. apply (Z.mul_le_mono_pos_l _ _ (down e2)); lia.
Qed.

Lemma backed_prices a source usd used levels :
  Forall2 (backed a source usd) used levels → valid_costs source = true → Forall (λ l, 0 ≤ ql_protected_price_units l) levels.
Proof.
  intros Hb Hv. induction Hb as [|ask l used levels Hl _ IH]; constructor; [|done].
  pose proof (level_price_pos _ _ _ (bk_valid _ _ _ _ _ Hl) Hv (bk_price _ _ _ _ _ Hl)). lia.
Qed.
