(* ===== verification/Receipts.v ===== *)
(** * Receipt reduction of an execution batch

    [src/open_trader/prediction_n_leg_execution.py]: order receipts, the batch
    a set of legs is executed in, and [NLegExecutionService._reduce] with the
    conflict bookkeeping it performs.  A batch is stored as JSON between two
    transitions, so every reduction starts from a fresh copy.

    A receipt's timestamps are normalized to UTC text with six fractional
    digits when it is built; that text has a fixed width, so comparing two of
    them compares the instants, and the model keeps the instant in
    microseconds. *)

From S2P Require Import Prelude PyValue NLeg NLegForms FillProof.
Local Open Scope Z_scope.

Definition ORDER_RECEIPT_SCHEMA_V1 := "open_trader.prediction_n_leg.order_receipt.v1".

Inductive OrderState := ORDER_OPEN | FILLED | REJECTED | CANCELLED | ORDER_UNKNOWN.

#[export] Instance OrderState_eq_dec : EqDecision OrderState.
Proof. solve_decision. Defined.

Definition order_state_value (s : OrderState) : string :=
  match s with
  | ORDER_OPEN => "OPEN" | FILLED => "FILLED" | REJECTED => "REJECTED" | CANCELLED => "CANCELLED"
  | ORDER_UNKNOWN => "UNKNOWN"
  end.

(** [state in _TERMINAL] *)
Definition is_terminal (s : OrderState) : bool :=
  match s with FILLED | REJECTED | CANCELLED => true | _ => false end.

Record OrderReceipt := {
  rp_receipt_id : string;
  rp_execution_batch_id : string;
  rp_client_order_id : string;
  rp_venue_id : string;
  rp_account_id : string;
  rp_venue_order_id : option string;
  rp_submitted_quantity : Z;
  rp_cumulative_filled_quantity : Z;
  rp_cumulative_cost_units : Z;
  rp_cumulative_fee_units : Z;
  rp_state : OrderState;
  rp_sequence : option Z;
  rp_rest_confirmed : bool;
  rp_observed_at : Z;
  rp_venue_timestamp : Z;
  rp_rest_observation_version : option Z;
  rp_schema_version : string;
}.

#[export] Instance OrderReceipt_eq_dec : EqDecision OrderReceipt.
Proof. solve_decision. Defined.

Definition optional_nonnegative (o : option Z) : bool := match o with Some v => 0 <=? v | None => true end.

(** [OrderReceipt.__post_init__]; the timestamps are already normalized. *)
Definition check_order_receipt (r : OrderReceipt) : res unit :=
  require (rp_schema_version r =? ORDER_RECEIPT_SCHEMA_V1)%string (ValueError "unsupported order receipt schema");;
  mapM check_text
    [ ("receipt_id", rp_receipt_id r); ("execution_batch_id", rp_execution_batch_id r);
      ("client_order_id", rp_client_order_id r); ("venue_id", rp_venue_id r); ("account_id", rp_account_id r) ];;
  (match rp_venue_order_id r with Some v => check_text ("venue_order_id", v) | None => Ok tt end);;
  mapM check_nonnegative
    [ ("submitted_quantity", rp_submitted_quantity r);
      ("cumulative_filled_quantity", rp_cumulative_filled_quantity r);
      ("cumulative_cost_units", rp_cumulative_cost_units r); ("cumulative_fee_units", rp_cumulative_fee_units r) ];;
  require (negb ((rp_submitted_quantity r =? 0) || (rp_submitted_quantity r <? rp_cumulative_filled_quantity r)))
    (ValueError "invalid cumulative order receipt");;
  require (optional_nonnegative (rp_sequence r)) (ValueError "sequence must be a non-negative integer or null");;
  require (optional_nonnegative (rp_rest_observation_version r)) (ValueError "rest_confirmed must be boolean");;
  require (negb (is_none (rp_sequence r) && negb (rp_rest_confirmed r)))
    (ValueError "sequence-less receipt requires REST confirmation");;
  require (negb (rp_rest_confirmed r && is_none (rp_rest_observation_version r)))
    (ValueError "REST receipt requires observation version");;
  require (negb (negb (rp_rest_confirmed r) && negb (is_none (rp_rest_observation_version r))))
    (ValueError "non-REST receipt cannot carry observation version").

(** [moment.isoformat(timespec="microseconds")] with the trailing Z *)
Definition iso_micro (us : Z) : string :=
  let '(y, m, day) := civil_from_days (delta_days us) in
  let s := delta_seconds us in
  pad 4 y +:+ "-" +:+ pad 2 m +:+ "-" +:+ pad 2 day +:+ "T" +:+
  pad 2 (s `div` 3600) +:+ ":" +:+ pad 2 ((s `div` 60) `mod` 60) +:+ ":" +:+ pad 2 (s `mod` 60) +:+
  "." +:+ pad 6 (delta_microseconds us) +:+ "Z".

(** [receipt.to_payload()] *)
Definition receipt_json (r : OrderReceipt) : json := JObj
  [ ("receipt_id", JStr (rp_receipt_id r)); ("execution_batch_id", JStr (rp_execution_batch_id r));
    ("client_order_id", JStr (rp_client_order_id r)); ("venue_id", JStr (rp_venue_id r));
    ("account_id", JStr (rp_account_id r)); ("venue_order_id", jopt JStr (rp_venue_order_id r));
    ("submitted_quantity", JInt (rp_submitted_quantity r));
    ("cumulative_filled_quantity", JInt (rp_cumulative_filled_quantity r));
    ("cumulative_cost_units", JInt (rp_cumulative_cost_units r));
    ("cumulative_fee_units", JInt (rp_cumulative_fee_units r));
    ("state", JStr (order_state_value (rp_state r))); ("sequence", jopt JInt (rp_sequence r));
    ("rest_confirmed", JBool (rp_rest_confirmed r)); ("observed_at", JStr (iso_micro (rp_observed_at r)));
    ("venue_timestamp", JStr (iso_micro (rp_venue_timestamp r)));
    ("rest_observation_version", jopt JInt (rp_rest_observation_version r));
    ("schema_version", JStr (rp_schema_version r)) ].

(** [_semantic_payload(a) == _semantic_payload(b)]: everything but the receipt
    id and the two timestamps. *)
Definition semantic_eqb (a b : OrderReceipt) : bool :=
  (rp_execution_batch_id a =? rp_execution_batch_id b)%string && (rp_client_order_id a =? rp_client_order_id b)%string &&
  (rp_venue_id a =? rp_venue_id b)%string && (rp_account_id a =? rp_account_id b)%string &&
  bool_decide (rp_venue_order_id a = rp_venue_order_id b) && (rp_submitted_quantity a =? rp_submitted_quantity b) &&
  (rp_cumulative_filled_quantity a =? rp_cumulative_filled_quantity b) &&
  (rp_cumulative_cost_units a =? rp_cumulative_cost_units b) && (rp_cumulative_fee_units a =? rp_cumulative_fee_units b) &&
  bool_decide (rp_state a = rp_state b) && bool_decide (rp_sequence a = rp_sequence b) &&
  Bool.eqb (rp_rest_confirmed a) (rp_rest_confirmed b) &&
  bool_decide (rp_rest_observation_version a = rp_rest_observation_version b) &&
  (rp_schema_version a =? rp_schema_version b)%string.

(** ** The batch *)

Record BatchLeg := {
  bl_action_id : string;
  bl_client_order_id : string;
  bl_venue_id : string;
  bl_account_id : string;
  bl_asset_id : string;
  bl_settlement_asset_id : string;
  bl_side : string;
  bl_submitted_quantity : Z;
  bl_max_cost_units : Z;
  bl_max_fee_units : Z;
  bl_receipt : option OrderReceipt;
}.

(** (venue, account, asset) *)
Definition account_key := (string * string * string)%type.

(** [d[key] = d.get(key, 0) + units] along a list *)
Definition add_units (m : gmap account_key Z) (e : account_key * Z) : gmap account_key Z :=
  <[e.1 := default 0 (m !! e.1) + e.2]> m.
Definition totals (l : list (account_key * Z)) : gmap account_key Z := foldl add_units ∅ l.

(** Tuples of strings compare lexicographically. *)
Definition account_key_leb (a b : account_key) : bool :=
  let '(v, c, s) := a in
  let '(v', c', s') := b in
  if (v =? v')%string then if (c =? c')%string then String.leb s s' else String.leb c c' else String.leb v v'.

(** [sorted(totals.items())] *)
Definition sorted_totals (l : list (account_key * Z)) : list (account_key * Z) :=
  sort (λ a b, account_key_leb a.1 b.1) (map_to_list (totals l)).

Record ReservationRow := {
  rv_key : account_key;
  rv_original_units : Z;
  rv_remaining_units : Z;
  rv_holding_units : Z;
}.

Record Holding := { ho_key : account_key; ho_quantity : Z }.

(** (client order, venue order, venue, account, asset, settlement asset) *)
Definition identity := (string * option string * string * string * string * string)%type.

Inductive ConflictKind := SAME_PHYSICAL | DRIFT | UNBOUND.

#[export] Instance ConflictKind_eq_dec : EqDecision ConflictKind.
Proof. solve_decision. Defined.

Record Conflict := {
  cx_conflict_id : string;
  cx_physical_key : string;
  cx_physical_identity : identity;
  cx_intended_identity : option identity;
  cx_kind : ConflictKind;
  cx_reason : string;
  cx_max_sequence : option Z;
  cx_max_rest_observation_version : option Z;
  cx_max_source_timestamp : Z;
  cx_max_observed_at : Z;
  cx_max_actual_cash_units : Z;
  cx_max_actual_filled_quantity : Z;
  cx_conservative_max_units : Z;
  cx_submitted_quantity : Z;
}.

#[export] Instance Conflict_eq_dec : EqDecision Conflict.
Proof. solve_decision. Defined.

(** One entry of the append-only conflict log. *)
Record ReceiptConflict := {
  rx_transition_id : string;
  rx_reason : string;
  rx_old : option OrderReceipt;
  rx_new : OrderReceipt;
}.

Record LedgerEntry := {
  le_client_order_id : string;
  le_venue_order_id : option string;
  le_key : account_key;
  le_settlement_asset_id : string;
  le_cumulative_filled_quantity : Z;
  le_cumulative_cost_units : Z;
  le_cumulative_fee_units : Z;
  le_holding_capital_units : Z;
}.

(** [in_acknowledgement] is set when an operator acknowledges the incident:
    the acknowledgement and the time it was recorded. *)
Record Incident := {
  in_reason : string;
  in_repair_status : string;
  in_acknowledgement : option (json * Z);
}.

(** The facts a batch is entered with; no transition changes them. *)
Record BatchEntry := {
  en_opportunity_episode_id : string;
  en_episode_lineage_id : string;
  en_mode : string;
  en_execution_solution_fingerprint : string;
  en_model_fingerprint : string;
  en_quote_fingerprint : string;
  en_account_fingerprint : string;
  en_partial_fill_proof : PartialFillProofRecord;
  en_max_partial_fill_loss : Z;
  en_cap_config_version : string;
  en_reservation_units : Z;
  en_entry_fingerprint : string;
}.

Record RepairCandidate := {
  ra_family : string;
  ra_legs : list (string * Z);
  ra_conservative_total_loss_units : Z;
  ra_worst_terminal_payout_units : Z;
  ra_conservative_sell_proceeds_units : Z;
  ra_fingerprint : string;
}.

Record RepairPlan := {
  rl_schema_version : string;
  rl_family : string;
  rl_candidate : RepairCandidate;
  rl_fingerprint : string;
  rl_auto_eligible : bool;
  rl_reason : string;
}.

Record Batch := {
  ba_execution_batch_id : string;
  ba_entry : BatchEntry;
  ba_state : string;
  ba_frozen_problem : ArbitrageProblem;
  ba_frozen_budget : OracleBudget;
  ba_max_auto_repair_loss : Z;
  ba_reservation_version : string;
  ba_prior_unsettled_capital_units : Z;
  ba_total_unsettled_capital_units : Z;
  ba_reservations : list ReservationRow;
  ba_legs : list BatchLeg;
  ba_receipts : gmap string OrderReceipt;
  ba_confirmed_holdings : list Holding;
  ba_receipt_conflicts : list ReceiptConflict;
  ba_unresolved_conflicts : list Conflict;
  ba_conflict_exposure : gmap string Z;
  ba_capital_exposure_unknown : bool;
  ba_terminal_ledger : gmap string LedgerEntry;
  ba_incident : option Incident;
  ba_repair_plan : option RepairPlan;
  ba_execution_controls : list (string * string);
  ba_reconciliation : option json;
}.

(** The fields a reduction writes. *)
Definition set_legs (b : Batch) (legs : list BatchLeg) (receipts : gmap string OrderReceipt) : Batch := {|
  ba_execution_batch_id := ba_execution_batch_id b; ba_entry := ba_entry b; ba_state := ba_state b; ba_frozen_problem := ba_frozen_problem b;
  ba_frozen_budget := ba_frozen_budget b; ba_max_auto_repair_loss := ba_max_auto_repair_loss b;
  ba_reservation_version := ba_reservation_version b;
  ba_prior_unsettled_capital_units := ba_prior_unsettled_capital_units b;
  ba_total_unsettled_capital_units := ba_total_unsettled_capital_units b; ba_reservations := ba_reservations b;
  ba_legs := legs; ba_receipts := receipts; ba_confirmed_holdings := ba_confirmed_holdings b;
  ba_receipt_conflicts := ba_receipt_conflicts b; ba_unresolved_conflicts := ba_unresolved_conflicts b;
  ba_conflict_exposure := ba_conflict_exposure b; ba_capital_exposure_unknown := ba_capital_exposure_unknown b;
  ba_terminal_ledger := ba_terminal_ledger b; ba_incident := ba_incident b; ba_repair_plan := ba_repair_plan b;
  ba_execution_controls := ba_execution_controls b; ba_reconciliation := ba_reconciliation b |}.

Definition set_reservations (b : Batch) (rows : list ReservationRow) (total : Z) : Batch := {|
  ba_execution_batch_id := ba_execution_batch_id b; ba_entry := ba_entry b; ba_state := ba_state b; ba_frozen_problem := ba_frozen_problem b;
  ba_frozen_budget := ba_frozen_budget b; ba_max_auto_repair_loss := ba_max_auto_repair_loss b;
  ba_reservation_version := ba_reservation_version b;
  ba_prior_unsettled_capital_units := ba_prior_unsettled_capital_units b;
  ba_total_unsettled_capital_units := total; ba_reservations := rows;
  ba_legs := ba_legs b; ba_receipts := ba_receipts b; ba_confirmed_holdings := ba_confirmed_holdings b;
  ba_receipt_conflicts := ba_receipt_conflicts b; ba_unresolved_conflicts := ba_unresolved_conflicts b;
  ba_conflict_exposure := ba_conflict_exposure b; ba_capital_exposure_unknown := ba_capital_exposure_unknown b;
  ba_terminal_ledger := ba_terminal_ledger b; ba_incident := ba_incident b; ba_repair_plan := ba_repair_plan b;
  ba_execution_controls := ba_execution_controls b; ba_reconciliation := ba_reconciliation b |}.

Definition set_holdings (b : Batch) (holdings : list Holding) : Batch := {|
  ba_execution_batch_id := ba_execution_batch_id b; ba_entry := ba_entry b; ba_state := ba_state b; ba_frozen_problem := ba_frozen_problem b;
  ba_frozen_budget := ba_frozen_budget b; ba_max_auto_repair_loss := ba_max_auto_repair_loss b;
  ba_reservation_version := ba_reservation_version b;
  ba_prior_unsettled_capital_units := ba_prior_unsettled_capital_units b;
  ba_total_unsettled_capital_units := ba_total_unsettled_capital_units b; ba_reservations := ba_reservations b;
  ba_legs := ba_legs b; ba_receipts := ba_receipts b; ba_confirmed_holdings := holdings;
  ba_receipt_conflicts := ba_receipt_conflicts b; ba_unresolved_conflicts := ba_unresolved_conflicts b;
  ba_conflict_exposure := ba_conflict_exposure b; ba_capital_exposure_unknown := ba_capital_exposure_unknown b;
  ba_terminal_ledger := ba_terminal_ledger b; ba_incident := ba_incident b; ba_repair_plan := ba_repair_plan b;
  ba_execution_controls := ba_execution_controls b; ba_reconciliation := ba_reconciliation b |}.

Definition set_conflicts (b : Batch) (log : list ReceiptConflict) (unresolved : list Conflict) (exposure : gmap string Z)
    (unknown : bool) (plan : option RepairPlan) : Batch := {|
  ba_execution_batch_id := ba_execution_batch_id b; ba_entry := ba_entry b; ba_state := ba_state b; ba_frozen_problem := ba_frozen_problem b;
  ba_frozen_budget := ba_frozen_budget b; ba_max_auto_repair_loss := ba_max_auto_repair_loss b;
  ba_reservation_version := ba_reservation_version b;
  ba_prior_unsettled_capital_units := ba_prior_unsettled_capital_units b;
  ba_total_unsettled_capital_units := ba_total_unsettled_capital_units b; ba_reservations := ba_reservations b;
  ba_legs := ba_legs b; ba_receipts := ba_receipts b; ba_confirmed_holdings := ba_confirmed_holdings b;
  ba_receipt_conflicts := log; ba_unresolved_conflicts := unresolved;
  ba_conflict_exposure := exposure; ba_capital_exposure_unknown := unknown;
  ba_terminal_ledger := ba_terminal_ledger b; ba_incident := ba_incident b; ba_repair_plan := plan;
  ba_execution_controls := ba_execution_controls b; ba_reconciliation := ba_reconciliation b |}.

(** ** Capital *)

(** [_terminal_ledger_cost] *)
Definition terminal_ledger_cost (b : Batch) : Z :=
  sumZ ((λ e, le_holding_capital_units e.2) <$> map_to_list (ba_terminal_ledger b)).

Definition conflict_units (b : Batch) : Z :=
  sumZ ((λ e, if 0 <=? e.2 then e.2 else 0) <$> map_to_list (ba_conflict_exposure b)).

(** [_batch_occupancy] *)
Definition batch_occupancy (b : Batch) : Z :=
  sumZ ((λ row, rv_remaining_units row + rv_holding_units row) <$> ba_reservations b) + conflict_units b
  + terminal_ledger_cost b.

Definition leg_key (leg : BatchLeg) : account_key := (bl_venue_id leg, bl_account_id leg, bl_settlement_asset_id leg).

(** The dicts [protected] and [actual] of [_refresh_reservations]: sums over
    the legs of one account that have a receipt. *)
Definition leg_protected (leg : BatchLeg) : Z :=
  match bl_receipt leg with
  | Some r => (bl_max_cost_units leg * rp_cumulative_filled_quantity r + bl_submitted_quantity leg - 1)
                `div` bl_submitted_quantity leg
  | None => 0
  end.
Definition leg_actual (leg : BatchLeg) : Z :=
  match bl_receipt leg with
  | Some r => rp_cumulative_cost_units r + rp_cumulative_fee_units r
  | None => 0
  end.
Definition sum_on (f : BatchLeg → Z) (k : account_key) (legs : list BatchLeg) : Z :=
  sumZ (f <$> filter (λ leg, leg_key leg = k) legs).

Definition refresh_row (legs : list BatchLeg) (row : ReservationRow) : ReservationRow :=
  let protected_used := sum_on leg_protected (rv_key row) legs in
  {| rv_key := rv_key row; rv_original_units := rv_original_units row;
     rv_remaining_units := Z.max 0 (rv_original_units row - protected_used);
     rv_holding_units := Z.max (sum_on leg_actual (rv_key row) legs) protected_used |}.

(** [_refresh_reservations] *)
Definition refresh_reservations (b : Batch) : Batch :=
  let rows := refresh_row (ba_legs b) <$> ba_reservations b in
  set_reservations b rows (batch_occupancy (set_reservations b rows 0)).

(** ** Conflicts *)

(** [_physical_identity] and [_intended_identity] *)
Definition physical_identity (leg : option BatchLeg) (r : OrderReceipt) : identity :=
  (rp_client_order_id r, rp_venue_order_id r, rp_venue_id r, rp_account_id r,
   from_option bl_asset_id "UNBOUND" leg, from_option bl_settlement_asset_id "UNBOUND" leg).

Definition intended_identity (leg : BatchLeg) (prior : option OrderReceipt) : identity :=
  (bl_client_order_id leg, prior ≫= rp_venue_order_id, bl_venue_id leg, bl_account_id leg,
   bl_asset_id leg, bl_settlement_asset_id leg).

Definition identity_json (i : identity) : json :=
  let '(client, order, venue, account, asset, settlement) := i in
  JArr [JStr client; jopt JStr order; JStr venue; JStr account; JStr asset; JStr settlement].

Definition same_identity (a b : identity) : bool := bool_decide (a = b).

(** [max((... for item in related), default=...)] *)
Definition max_of (default : Z) (l : list Z) : Z :=
  match l with [] => default | x :: l => foldl Z.max x l end.

Definition max_int (f : Conflict → option Z) (related : list Conflict) : Z := max_of (-1) (omap f related).

(** [_monotonic_terminal] *)
Definition monotonic_terminal (prior : option OrderReceipt) (r : OrderReceipt) : bool :=
  match prior with
  | None => false
  | Some p =>
      is_terminal (rp_state r) && (rp_cumulative_filled_quantity p <=? rp_cumulative_filled_quantity r) &&
      (rp_cumulative_cost_units p <=? rp_cumulative_cost_units r) &&
      (rp_cumulative_fee_units p <=? rp_cumulative_fee_units r)
  end.

(** [_time_regressed] *)
Definition time_regressed (prior r : OrderReceipt) : bool :=
  (rp_observed_at r <? rp_observed_at prior) || (rp_venue_timestamp r <? rp_venue_timestamp prior).

Section reduce.
Context `{Sha256}.

(** [_physical_key] *)
Definition physical_key (i : identity) : string := fingerprint_json (JObj [("physical_identity", identity_json i)]).

(** The receipt supersedes every related conflict. *)
Definition dominates (related : list Conflict) (r : OrderReceipt) : bool :=
  let max_sequence := max_int cx_max_sequence related in
  let max_rest := max_int cx_max_rest_observation_version related in
  (max_of 0 (cx_max_actual_cash_units <$> related) <=? rp_cumulative_cost_units r + rp_cumulative_fee_units r) &&
  (max_of 0 (cx_max_actual_filled_quantity <$> related) <=? rp_cumulative_filled_quantity r) &&
  match rp_sequence r with
  | Some s =>
      (max_rest <? 0) && (max_sequence <? s) &&
      forallb (λ c, cx_max_observed_at c <=? rp_observed_at r) related &&
      forallb (λ c, cx_max_source_timestamp c <=? rp_venue_timestamp r) related
  | None =>
      match rp_rest_confirmed r, rp_rest_observation_version r with
      | true, Some v =>
          (max_sequence <? 0) && (max_rest <? v) &&
          forallb (λ c, cx_max_observed_at c <? rp_observed_at r) related &&
          forallb (λ c, cx_max_source_timestamp c <? rp_venue_timestamp r) related
      | _, _ => false
      end
  end.

(** [_resolve_conflicts] *)
Definition resolve_conflicts (b : Batch) (leg : BatchLeg) (r : OrderReceipt) : Batch :=
  let prior := bl_receipt leg in
  let intended := intended_identity leg prior in
  let physical := physical_identity (Some leg) r in
  let key := physical_key intended in
  let related := filter (λ c, cx_kind c = SAME_PHYSICAL ∧ cx_physical_key c = key) (ba_unresolved_conflicts b) in
  if negb (same_identity physical intended) || negb (is_terminal (rp_state r)) || Nat.eqb (length related) 0
     || negb (monotonic_terminal prior r) || negb (dominates related r)
  then b
  else set_conflicts b (ba_receipt_conflicts b)
         (filter (λ c, c ∉ related) (ba_unresolved_conflicts b))
         (delete key (ba_conflict_exposure b)) (ba_capital_exposure_unknown b) (ba_repair_plan b).

Definition find_leg (client_order_id : string) (legs : list BatchLeg) : option BatchLeg :=
  py_next (λ leg, (bl_client_order_id leg =? client_order_id)%string) legs.

(** [prior] of [_incident_copy]: the receipt of the first leg of that order
    that has one. *)
Definition prior_receipt (client_order_id : string) (legs : list BatchLeg) : option OrderReceipt :=
  head (omap (λ leg, if (bl_client_order_id leg =? client_order_id)%string then bl_receipt leg else None) legs).

(** [_incident_copy] *)
Definition incident_copy (b : Batch) (r : OrderReceipt) (reason : string) : Batch :=
  let legs := ba_legs b in
  let prior := prior_receipt (rp_client_order_id r) legs in
  let change := [("reason", JStr reason); ("old", jopt receipt_json prior); ("new", receipt_json r)] in
  let entry := {| rx_transition_id := fingerprint_json (JObj change); rx_reason := reason; rx_old := prior; rx_new := r |} in
  let matching := find_leg (rp_client_order_id r) legs in
  let intended := (λ leg, intended_identity leg prior) <$> matching in
  let physical := physical_identity matching r in
  let same_physical := bool_decide (intended = Some physical) in
  let key := physical_key physical in
  let reported := rp_cumulative_cost_units r + rp_cumulative_fee_units r in
  let known_max := match matching with
                   | Some leg => bl_max_cost_units leg
                   | None => max_of 0 (bl_max_cost_units <$> legs) end in
  let record := {|
    cx_conflict_id := fingerprint_json (JObj (change ++ [("physical_identity", identity_json physical)]));
    cx_physical_key := key; cx_physical_identity := physical; cx_intended_identity := intended;
    cx_kind := if same_physical then SAME_PHYSICAL else match matching with Some _ => DRIFT | None => UNBOUND end;
    cx_reason := reason; cx_max_sequence := rp_sequence r;
    cx_max_rest_observation_version := if rp_rest_confirmed r then rp_rest_observation_version r else None;
    cx_max_source_timestamp := rp_venue_timestamp r; cx_max_observed_at := rp_observed_at r;
    cx_max_actual_cash_units := reported;
    cx_max_actual_filled_quantity := rp_cumulative_filled_quantity r;
    cx_conservative_max_units := known_max;
    cx_submitted_quantity := match matching with
                             | Some leg => bl_submitted_quantity leg
                             | None => max_of 1 (bl_submitted_quantity <$> legs) end |} in
  let exposure := if same_physical then Z.max 0 (reported - known_max) else Z.max known_max reported in
  let exposures := <[key := Z.max (default 0 (ba_conflict_exposure b !! key)) exposure]> (ba_conflict_exposure b) in
  set_conflicts (set_legs b legs (<[rp_receipt_id r := r]> (ba_receipts b)))
    (ba_receipt_conflicts b ++ [entry]) (ba_unresolved_conflicts b ++ [record]) exposures
    (match matching with None => true | Some _ => ba_capital_exposure_unknown b end) None.

(** ** [_reduce] *)

Definition set_leg_receipt (client_order_id : string) (r : OrderReceipt) (leg : BatchLeg) : BatchLeg :=
  if (bl_client_order_id leg =? client_order_id)%string then {|
    bl_action_id := bl_action_id leg; bl_client_order_id := bl_client_order_id leg; bl_venue_id := bl_venue_id leg;
    bl_account_id := bl_account_id leg; bl_asset_id := bl_asset_id leg;
    bl_settlement_asset_id := bl_settlement_asset_id leg; bl_side := bl_side leg;
    bl_submitted_quantity := bl_submitted_quantity leg;
    bl_max_cost_units := bl_max_cost_units leg; bl_max_fee_units := bl_max_fee_units leg; bl_receipt := Some r |}
  else leg.

Definition leg_holdings (legs : list BatchLeg) : list Holding :=
  omap (λ leg, match bl_receipt leg with
               | Some r => if 0 <? rp_cumulative_filled_quantity r
                           then Some {| ho_key := (bl_venue_id leg, bl_account_id leg, bl_asset_id leg);
                                        ho_quantity := rp_cumulative_filled_quantity r |}
                           else None
               | None => None end) legs.

(** What the checks against the prior receipt of the leg decide. *)
Inductive PriorCheck := Accept | Ignore | Reject (reason : string).

Definition check_prior (prior r : OrderReceipt) : PriorCheck :=
  if negb (is_none (rp_venue_order_id prior)) && negb (bool_decide (rp_venue_order_id prior = rp_venue_order_id r))
  then Reject "VENUE_ORDER_ID_DRIFT"
  else
    let later :=
      if time_regressed prior r then Reject "RECEIPT_TIME_REGRESSION"
      else if (rp_cumulative_filled_quantity r <? rp_cumulative_filled_quantity prior)
              || (rp_cumulative_cost_units r <? rp_cumulative_cost_units prior)
              || (rp_cumulative_fee_units r <? rp_cumulative_fee_units prior)
      then Reject "CUMULATIVE_REGRESSION"
      else if is_terminal (rp_state prior) && negb (is_terminal (rp_state r)) then Reject "TERMINAL_REOPENED"
      else Accept in
    match rp_sequence prior, rp_sequence r with
    | Some ps, Some s =>
        if s <? ps then Ignore
        else if s =? ps then if semantic_eqb prior r then Ignore else Reject "SAME_SEQUENCE_CONFLICT"
        else later
    | None, None =>
        match rp_rest_observation_version prior, rp_rest_observation_version r with
        | Some pv, Some v =>
            if v <? pv then Ignore
            else if v =? pv then if semantic_eqb prior r then Ignore else Reject "REST_OBSERVATION_CONFLICT"
            else later
        | _, _ => Reject "REST_OBSERVATION_CONFLICT"
        end
    | _, _ => later
    end.

(** The reason an accepted receipt opens an incident, if any. *)
Definition incident_reason (leg : BatchLeg) (r : OrderReceipt) : option string :=
  if bl_max_cost_units leg <? rp_cumulative_cost_units r + rp_cumulative_fee_units r then Some "COST_RESERVATION_BREACH"
  else if (rp_cumulative_filled_quantity r =? 0) &&
          (negb (rp_cumulative_cost_units r =? 0) || negb (rp_cumulative_fee_units r =? 0))
  then Some "ZERO_FILL_CASH_BREACH"
  else if bool_decide (rp_state r = ORDER_UNKNOWN) then Some "UNKNOWN_ORDER_STATE"
  else if (0 <? rp_cumulative_filled_quantity r) && (rp_cumulative_filled_quantity r <? rp_submitted_quantity r)
  then Some "PARTIAL_FILL"
  else None.

Definition accept_receipt (b : Batch) (leg : BatchLeg) (r : OrderReceipt) : Batch :=
  let b := resolve_conflicts b leg r in
  let legs := set_leg_receipt (rp_client_order_id r) r <$> ba_legs b in
  let b := set_legs b legs (<[rp_receipt_id r := r]> (ba_receipts b)) in
  set_holdings (refresh_reservations b) (leg_holdings legs).

(** [(next_batch, incident_reason, changed)] *)
Definition reduce_result := (Batch * option string * bool)%type.

Definition reject (b : Batch) (r : OrderReceipt) (reason : string) : reduce_result :=
  (incident_copy b r reason, Some reason, true).

Definition reduce (b : Batch) (r : OrderReceipt) : res reduce_result :=
  require (rp_execution_batch_id r =? ba_execution_batch_id b)%string (ValueError "receipt batch mismatch");;
  Ok match ba_receipts b !! rp_receipt_id r with
  | Some known => if semantic_eqb known r then (b, None, false) else reject b r "RECEIPT_ID_CONFLICT"
  | None =>
      match filter (λ leg, bl_client_order_id leg = rp_client_order_id r) (ba_legs b) with
      | [leg] =>
          if negb (bl_venue_id leg =? rp_venue_id r)%string || negb (bl_account_id leg =? rp_account_id r)%string
             || negb (bl_submitted_quantity leg =? rp_submitted_quantity r)
          then reject b r "RECEIPT_IDENTITY_DRIFT"
          else
            match from_option (λ prior, check_prior prior r) Accept (bl_receipt leg) with
            | Ignore => (b, None, false)
            | Reject reason => reject b r reason
            | Accept => (accept_receipt b leg r, incident_reason leg r, true)
            end
      | _ => reject b r "RECEIPT_IDENTITY_DRIFT"
      end
  end.
End reduce.

(** ** Batch predicates *)

Definition all_legs (test : BatchLeg → OrderReceipt → bool) (b : Batch) : bool :=
  negb (Nat.eqb (length (ba_legs b)) 0) &&
  forallb (λ leg, match bl_receipt leg with Some r => test leg r | None => false end) (ba_legs b).

Definition all_terminal : Batch → bool := all_legs (λ _ r, is_terminal (rp_state r)).
Definition all_zero : Batch → bool := all_legs (λ _ r, rp_cumulative_filled_quantity r =? 0).
Definition all_full : Batch → bool := all_legs (λ leg r, rp_cumulative_filled_quantity r =? bl_submitted_quantity leg).

(** [_execution_controls] *)
Definition leg_intent (leg : BatchLeg) : string :=
  match bl_receipt leg with
  | None => "STOPPED_UNSENT"
  | Some r =>
      match rp_state r with
      | ORDER_UNKNOWN => "REST_CONFIRMATION_REQUIRED"
      | FILLED | REJECTED | CANCELLED => "TERMINAL"
      | ORDER_OPEN => "CANCEL_REQUIRED"
      end
  end.

Definition execution_controls (b : Batch) : list (string * string) :=
  (λ leg, (bl_client_order_id leg, leg_intent leg)) <$> ba_legs b.
