(* ===== verification/BatchStore.v ===== *)
(** * The store of execution batches

    The tables of [src/open_trader/prediction_arbitrage_store.py] that the
    N-leg service reads and writes, as a record, and the atomic transition
    [n_leg_reduce].  A payload is written through [_dump_execution_payload],
    which drops fields whose name looks like a credential; the names are dict
    keys, so keys that are data (receipt ids, client order ids) are filtered
    too, and [persist] models what comes back. *)

From S2P Require Import Prelude PyValue NLeg NLegForms FillProof Receipts.
Local Open Scope Z_scope.

(** ** Field names the store drops *)

Definition char_code (c : Ascii.ascii) : Z := Z.of_N (Ascii.N_of_ascii c).
Definition is_upper (c : Ascii.ascii) : bool := (65 <=? char_code c) && (char_code c <=? 90).
Definition is_lower_or_digit (c : Ascii.ascii) : bool :=
  ((97 <=? char_code c) && (char_code c <=? 122)) || ((48 <=? char_code c) && (char_code c <=? 57)).

Definition normalise_char (c : Ascii.ascii) : Ascii.ascii :=
  if is_upper c then Ascii.ascii_of_N (Z.to_N (char_code c + 32))
  else if char_code c =? 45 then Ascii.ascii_of_N 95 else c.

(** [_normalise_field_name]: an underscore at every camel-case boundary, then
    lower case, dashes as underscores. *)
Fixpoint normalise_from (after_low : bool) (s : string) : string :=
  match s with
  | EmptyString => EmptyString
  | String c s =>
      (if after_low && is_upper c then "_" else "") +:+
      String (normalise_char c) (normalise_from (is_lower_or_digit c) s)
  end.
Definition normalise_field_name : string → string := normalise_from false.

Definition contains (part s : string) : bool :=
  match String.index 0 part s with Some _ => true | None => false end.
Definition ends_with (suffix s : string) : bool :=
  (String.substring (String.length s - String.length suffix) (String.length suffix) s =? suffix)%string &&
  (String.length suffix <=? String.length s)%nat.

Definition PRIVATE_FIELD_PARTS : list string :=
  [ "api_key"; "apikey"; "api_token"; "access_token"; "refresh_token"; "auth_token"; "jwt"; "session_token";
    "builder_key"; "builder_secret"; "builder_passphrase"; "credential"; "private_key"; "privatekey"; "password";
    "passphrase"; "secret"; "signature"; "signed"; "raw_"; "raw_tick"; "ticks"; "websocket"; "order_payload" ].

Definition PUBLIC_RELATION_TOKEN_FIELDS : list string :=
  [ "token_id"; "yes_token_id"; "no_token_id"; "predict_yes_token_id"; "predict_no_token_id";
    "polymarket_yes_token_id"; "polymarket_no_token_id" ].

Definition PUBLIC_PREFLIGHT_STATUS_FIELDS : list string := [ "fok_pair_signed_not_submitted" ].

(** The test of [_safe_value] on a key, with [allow_public_token_ids]. *)
Definition dropped_field (key : string) : bool :=
  let normalized := normalise_field_name key in
  let token_name :=
    (normalized =? "token")%string || ends_with "_token" normalized || ends_with "_token_id" normalized ||
    ends_with "_token_ids" normalized || bool_decide (normalized ∈ ["token_id"; "token_ids"]) in
  let sensitive_name := bool_decide (normalized ∈ ["auth"; "authorization"; "bearer"]) in
  (token_name && negb (bool_decide (normalized ∈ PUBLIC_RELATION_TOKEN_FIELDS))) || sensitive_name ||
  (existsb (λ part, contains part normalized) PRIVATE_FIELD_PARTS &&
   negb (bool_decide (normalized ∈ PUBLIC_PREFLIGHT_STATUS_FIELDS))).

Example dropped_samples :
  (λ k, dropped_field k) <$> ["receipt_id"; "settlement_asset_id"; "yesTokenId"; "accessToken"; "raw_1"; "order-signed"]
  = [false; false; false; true; true; true].
Proof. vm_compute. reflexivity. Qed.

(** [_safe_value] on JSON data *)
Fixpoint safe_value (j : json) : json :=
  match j with
  | JArr l => JArr (safe_value <$> l)
  | JObj fields => JObj (omap (λ p, if dropped_field p.1 then None else Some (p.1, p.2))
                              ((λ p, (p.1, safe_value p.2)) <$> fields))
  | j => j
  end.

(** [_load_payload(_dump_execution_payload(batch))].  The keys of the conflict
    exposure and of the terminal ledger are fingerprints ([sha256:] and hex
    digits), which no private part matches. *)
Definition persist_candidate (c : RepairCandidate) : RepairCandidate := {|
  ra_family := ra_family c; ra_legs := filter (λ l, dropped_field l.1 = false) (ra_legs c);
  ra_conservative_total_loss_units := ra_conservative_total_loss_units c;
  ra_worst_terminal_payout_units := ra_worst_terminal_payout_units c;
  ra_conservative_sell_proceeds_units := ra_conservative_sell_proceeds_units c; ra_fingerprint := ra_fingerprint c |}.

Definition persist_plan (p : RepairPlan) : RepairPlan := {|
  rl_schema_version := rl_schema_version p; rl_family := rl_family p; rl_candidate := persist_candidate (rl_candidate p);
  rl_fingerprint := rl_fingerprint p; rl_auto_eligible := rl_auto_eligible p; rl_reason := rl_reason p |}.

Definition persist_incident (i : Incident) : Incident := {|
  in_reason := in_reason i; in_repair_status := in_repair_status i;
  in_acknowledgement := (λ a, (safe_value a.1, a.2)) <$> in_acknowledgement i |}.

Definition persist (b : Batch) : Batch := {|
  ba_execution_batch_id := ba_execution_batch_id b; ba_entry := ba_entry b; ba_state := ba_state b;
  ba_frozen_problem := ba_frozen_problem b; ba_frozen_budget := ba_frozen_budget b;
  ba_max_auto_repair_loss := ba_max_auto_repair_loss b; ba_reservation_version := ba_reservation_version b;
  ba_prior_unsettled_capital_units := ba_prior_unsettled_capital_units b;
  ba_total_unsettled_capital_units := ba_total_unsettled_capital_units b; ba_reservations := ba_reservations b;
  ba_legs := ba_legs b; ba_receipts := filter (λ e, dropped_field e.1 = false) (ba_receipts b);
  ba_confirmed_holdings := ba_confirmed_holdings b; ba_receipt_conflicts := ba_receipt_conflicts b;
  ba_unresolved_conflicts := ba_unresolved_conflicts b; ba_conflict_exposure := ba_conflict_exposure b;
  ba_capital_exposure_unknown := ba_capital_exposure_unknown b; ba_terminal_ledger := ba_terminal_ledger b;
  ba_incident := persist_incident <$> ba_incident b; ba_repair_plan := persist_plan <$> ba_repair_plan b;
  ba_execution_controls := ba_execution_controls b; ba_reconciliation := ba_reconciliation b |}.

(** ** The control row *)

Record Control := {
  ct_mode : string;
  ct_breaker_open : bool;
  ct_breaker_reason : option string;
  ct_active_batch_id : option string;
  ct_total_unsettled_capital_units : Z;
  ct_contract_generation : Z;
  ct_qualification_policy_version : Z;
  ct_safety_config_version : Z;
  ct_enabled_scopes : list (string * Z);
}.

(** [_n_leg_control_row(None)] *)
Definition initial_control : Control := {|
  ct_mode := "MANUAL"; ct_breaker_open := false; ct_breaker_reason := None; ct_active_batch_id := None;
  ct_total_unsettled_capital_units := 0; ct_contract_generation := 1; ct_qualification_policy_version := 1;
  ct_safety_config_version := 1; ct_enabled_scopes := [] |}.

Definition set_control (c : Control) (mode : string) (breaker_open : bool) (breaker_reason active : option string)
    (units : Z) : Control := {|
  ct_mode := mode; ct_breaker_open := breaker_open; ct_breaker_reason := breaker_reason; ct_active_batch_id := active;
  ct_total_unsettled_capital_units := units; ct_contract_generation := ct_contract_generation c;
  ct_qualification_policy_version := ct_qualification_policy_version c;
  ct_safety_config_version := ct_safety_config_version c; ct_enabled_scopes := ct_enabled_scopes c |}.

Definition open_breaker (c : Control) (reason : string) : Control :=
  set_control c (ct_mode c) true (Some reason) (ct_active_batch_id c) (ct_total_unsettled_capital_units c).

(** [control["mode"] = "MANUAL"; control["active_batch_id"] = ...] *)
Definition take_manual (c : Control) (b : Batch) : Control :=
  set_control c "MANUAL" (ct_breaker_open c) (ct_breaker_reason c) (Some (ba_execution_batch_id b))
    (ct_total_unsettled_capital_units c).

Definition set_unsettled (c : Control) (units : Z) : Control :=
  set_control c (ct_mode c) (ct_breaker_open c) (ct_breaker_reason c) (ct_active_batch_id c) units.

(** ** The tables *)

(** One row of [n_leg_episode_lineage]. *)
Record LineageRow := {
  lr_component_id : string;
  lr_lineage_id : string;
  lr_generation : Z;
  lr_active : bool;
  lr_predecessors : list string;
}.

(** One closed row of [opportunity_episodes]. *)
Record EpisodeClose := {
  ec_episode_lineage_id : string;
  ec_close_reason : string;
  ec_closed_at : Z;
}.

(** The latest row of [n_leg_safety_config]. *)
Record SafetyConfig := {
  sf_max_per_trade_cost_units : Z;
  sf_max_total_unsettled_capital_units : Z;
  sf_max_partial_fill_loss_units : Z;
  sf_max_auto_repair_loss_units : Z;
}.

(** [so_transitions] holds the pairs of the unique index; the payloads of the
    [INCIDENT_ACKNOWLEDGED] transitions, the only ones read back, are in
    [so_acknowledgements], newest last.  [so_graph] and [so_episodes] are
    [None] when the tables do not exist. *)
Record Store := {
  so_batches : gmap string Batch;
  so_control : Control;
  so_transitions : gset (string * string);
  so_acknowledgements : list (list (string * json));
  so_claims : gmap string Z;
  so_graph : option (list LineageRow);
  so_episodes : option (list EpisodeClose);
  so_active_lp : bool;
  so_safety_config : option SafetyConfig;
  so_scopes : gmap string (string * Z);
}.

Definition set_store (st : Store) (batches : gmap string Batch) (control : Control)
    (transitions : gset (string * string)) (acknowledgements : list (list (string * json))) (claims : gmap string Z)
  : Store := {|
  so_batches := batches; so_control := control; so_transitions := transitions;
  so_acknowledgements := acknowledgements; so_claims := claims; so_graph := so_graph st;
  so_episodes := so_episodes st; so_active_lp := so_active_lp st; so_safety_config := so_safety_config st;
  so_scopes := so_scopes st |}.

Definition not_found : exn := ValueError "N_LEG_BATCH_NOT_FOUND".

(** [n_leg_reduce]: one atomic read, reduce, log and write. *)
Definition n_leg_reduce (st : Store) (execution_batch_id idempotency_key : string)
    (reducer : Batch → Control → res (Batch * Control * bool)) : res (Store * Batch) :=
  batch ← of_option not_found (so_batches st !! execution_batch_id);
  if bool_decide ((execution_batch_id, idempotency_key) ∈ so_transitions st) then Ok (st, batch)
  else
    '(next, control, changed) ← reducer batch (so_control st);
    if negb changed then Ok (st, batch)
    else Ok (set_store st (<[execution_batch_id := persist next]> (so_batches st)) control
               ({[(execution_batch_id, idempotency_key)]} ∪ so_transitions st)
               (so_acknowledgements st) (so_claims st), persist next).
