(* ===== verification/Lineage.v ===== *)
(** * The executed lock of an opportunity lineage

    [src/open_trader/prediction_arbitrage_store.py]: a lineage that was
    executed once, or that descends from one that was, is not executed again
    unless a later close of its own episode re-arms it. *)

From S2P Require Import Prelude PyValue NLeg FillProof Receipts BatchStore.
Local Open Scope Z_scope.

(** ** Ancestors of a lineage *)

(** [predecessor not in ancestors: ancestors.add(...); frontier.append(...)] *)
Definition visit (acc : gset string * list string) (p : string) : gset string * list string :=
  if bool_decide (p ∈ acc.1) then acc else ({[p]} ∪ acc.1, acc.2 ++ [p]).

Definition predecessors_of (rows : list LineageRow) (frontier : list string) : list string :=
  filter (λ r, lr_lineage_id r ∈ frontier) rows ≫= lr_predecessors.

Fixpoint ancestors_loop (fuel : nat) (rows : list LineageRow) (ancestors : gset string) (frontier : list string)
  : res (gset string) :=
  match frontier with
  | [] => Ok ancestors
  | _ =>
      match fuel with
      | O => Err OutOfFuel
      | S fuel =>
          let '(ancestors, frontier) := foldl visit (ancestors, []) (predecessors_of rows frontier) in
          ancestors_loop fuel rows ancestors frontier
      end
  end.

(** Every round but the last adds a predecessor named in some row. *)
Definition all_predecessors (rows : list LineageRow) : gset string := list_to_set (rows ≫= lr_predecessors).

(** [_n_leg_lineage_ancestors] *)
Definition lineage_ancestors (rows : list LineageRow) (lineage_id : string) : res (gset string) :=
  ancestors ← ancestors_loop (S (size (all_predecessors rows))) rows ∅ [lineage_id];
  Ok (ancestors ∖ {[lineage_id]}).

(** ** Claims *)

Definition LINEAGE_PREFIX := "lineage:".

(** [s.startswith("lineage:")] and [s[len("lineage:"):]] *)
Definition has_prefix (s : string) : bool := String.prefix LINEAGE_PREFIX s.
Definition after_prefix (s : string) : string :=
  String.substring (String.length LINEAGE_PREFIX) (String.length s - String.length LINEAGE_PREFIX) s.

Definition lower_char (c : Ascii.ascii) : Ascii.ascii :=
  if is_upper c then Ascii.ascii_of_N (Z.to_N (char_code c + 32)) else c.
Fixpoint lower (s : string) : string :=
  match s with EmptyString => EmptyString | String c s => String (lower_char c) (lower s) end.

(** SQLite's [LIKE 'lineage:%'] ignores the case of ASCII letters. *)
Definition like_prefix (s : string) : bool := has_prefix (lower s).

Definition row_of_component (rows : list LineageRow) (c : string) : option LineageRow :=
  py_next (λ r, (lr_component_id r =? c)%string) rows.

(** [ORDER BY (status='ACTIVE') DESC, generation DESC LIMIT 1] *)
Definition row_before (a b : LineageRow) : bool :=
  if Bool.eqb (lr_active a) (lr_active b) then lr_generation b <? lr_generation a else lr_active a.
Definition row_of_lineage (rows : list LineageRow) (lineage : string) : option LineageRow :=
  match filter (λ r, lr_lineage_id r = lineage) rows with
  | [] => None
  | r :: rs => Some (foldl (λ best x, if row_before x best then x else best) r rs)
  end.

Definition CLOSE_NO_QUALIFIED_OPPORTUNITY := "NO_QUALIFIED_OPPORTUNITY".

(** [_n_leg_lineage_rearm_evidence] *)
Definition rearm_evidence (episodes : option (list EpisodeClose)) (current_lineage : string) (claimed_at : Z) : bool :=
  match episodes with
  | None => false
  | Some rows =>
      existsb (λ e, (ec_episode_lineage_id e =? current_lineage)%string &&
                    (ec_close_reason e =? CLOSE_NO_QUALIFIED_OPPORTUNITY)%string && (claimed_at <? ec_closed_at e)) rows
  end.

(** The graph row that decides, with the identity it was found by: [inl] is an
    early return of the source. *)
Definition resolve_row (graph : option (list LineageRow)) (component_id : option string) (frozen : string)
  : (option string * option string) + (LineageRow * string) :=
  match component_id, graph with
  | Some _, None => inl (None, Some "N_LEG_LINEAGE_UNKNOWN")
  | Some c, Some rows =>
      match row_of_component rows c with
      | None => inl (None, Some "N_LEG_LINEAGE_UNKNOWN")
      | Some r => inr (r, c)
      end
  | None, Some rows =>
      let row :=
        if (frozen =? "")%string then None
        else if has_prefix frozen
        then if (after_prefix frozen =? "")%string then None else row_of_component rows (after_prefix frozen)
        else row_of_lineage rows frozen in
      match row with None => inl (None, None) | Some r => inr (r, lr_component_id r) end
  | None, None => inl (None, None)
  end.

(** Legacy claims: the lineage of their component when the graph knows it,
    otherwise the component string itself. *)
Definition legacy_components (claims : gmap string Z) : list string :=
  after_prefix <$> filter (λ l, like_prefix l = true) (map_to_list claims).*1.
Definition legacy_blocked (rows : list LineageRow) (claims : gmap string Z) : gset string :=
  list_to_set (omap (λ c, lr_lineage_id <$> row_of_component rows c) (legacy_components claims)).
Definition legacy_exact (rows : list LineageRow) (claims : gmap string Z) : list string :=
  filter (λ c, row_of_component rows c = None) (legacy_components claims).

Definition newest_claim (hits : gmap string Z) : option Z :=
  match (map_to_list hits).*2 with [] => None | t :: ts => Some (foldl Z.max t ts) end.

(** [_n_leg_lineage_lock_decision]: [(claim_lineage, reason)] *)
Definition lineage_lock_decision (graph : option (list LineageRow)) (episodes : option (list EpisodeClose))
    (claims : gmap string Z) (component_id : option string) (frozen : string)
  : res (option string * option string) :=
  let component_id := c ← component_id; if (c =? "")%string then None else Some c in
  match resolve_row graph component_id frozen with
  | inl out => Ok out
  | inr (row, identity) =>
      let rows := default [] graph in
      let current_lineage := lr_lineage_id row in
      ancestors ← lineage_ancestors rows current_lineage;
      let blocked := {[current_lineage]} ∪ ancestors ∪ legacy_blocked rows claims in
      let hits := filter (λ c, c.1 ∈ blocked) claims in
      if bool_decide (is_Some (hits !! current_lineage)) || bool_decide (identity ∈ legacy_exact rows claims)
      then Ok (None, Some "N_LEG_LINEAGE_ALREADY_CLAIMED")
      else match newest_claim hits with
           | None => Ok (Some current_lineage, None)
           | Some newest =>
               if rearm_evidence episodes current_lineage newest then Ok (Some current_lineage, None)
               else Ok (None, Some "N_LEG_LINEAGE_INHERITED_CLAIMED")
           end
  end.
