(* ===== verification/Repair.v ===== *)
(** * Repair planning and receipt application

    [src/open_trader/prediction_n_leg_execution.py]: the fresh repair context,
    the two repair families and their conservative loss, opening an incident
    and [NLegExecutionService.apply_receipt]. *)

From S2P Require Import Prelude PyValue NLeg NLegForms NLegValidate Oracle FillProof Receipts BatchStore.
Local Open Scope Z_scope.

Definition REPAIR_PLAN_SCHEMA_V1 := "open_trader.prediction_n_leg.repair_plan.v1".

(** The bound of a repair or reconciliation source, and the bound of an
    account snapshot ([ACCOUNT_FRESHNESS_SECONDS]). *)
Definition SOURCE_FRESHNESS_SECONDS : Z := 10.
Definition ACCOUNT_FRESHNESS_SECONDS : Z := 60.

(** ** Fresh context *)

Record CanonicalBookLevel := {
  lv_first_lot : Z;
  lv_last_lot : Z;
  lv_buy_ask_units : Z;
  lv_sell_bid_units : Z;
}.

Definition check_level (l : CanonicalBookLevel) : res unit :=
  require (negb ((lv_first_lot l <=? 0) || (lv_last_lot l <? lv_first_lot l))) (ValueError "invalid canonical book range");;
  require (negb ((lv_buy_ask_units l <=? 0) || (lv_sell_bid_units l <=? 0)))
    (ValueError "canonical book prices must be positive").

Record RepairQuote := {
  qt_client_order_id : string;
  qt_asset_id : string;
  qt_venue_id : string;
  qt_account_id : string;
  qt_settlement_asset_id : string;
  qt_levels : list CanonicalBookLevel;
  qt_source_timestamp : datetime;
  qt_received_at : datetime;
  qt_fee_ppm : Z;
  qt_tick_units : Z;
  qt_slippage_units : Z;
}.

(** [level.last_lot + 1 == later.first_lot] along the book *)
Fixpoint contiguous_levels (prev : Z) (l : list CanonicalBookLevel) : bool :=
  match l with
  | [] => true
  | level :: l => (lv_first_lot level =? prev + 1) && contiguous_levels (lv_last_lot level) l
  end.

Definition is_aware (d : datetime) : bool := negb (is_none (dt_offset d)).

(** [RepairQuote.__post_init__] *)
Definition check_quote (q : RepairQuote) : res unit :=
  mapM check_text
    [ ("client_order_id", qt_client_order_id q); ("asset_id", qt_asset_id q); ("venue_id", qt_venue_id q);
      ("account_id", qt_account_id q); ("settlement_asset_id", qt_settlement_asset_id q) ];;
  mapM check_nonnegative [("fee_ppm", qt_fee_ppm q); ("slippage_units", qt_slippage_units q)];;
  require (0 <? qt_tick_units q) (ValueError "tick_units must be positive");;
  require (is_aware (qt_source_timestamp q) && is_aware (qt_received_at q))
    (ValueError "repair quote timestamps must be aware");;
  require (negb (Nat.eqb (length (qt_levels q)) 0) && contiguous_levels 0 (qt_levels q))
    (ValueError "canonical book levels must be contiguous").

Record ConfirmedHolding := {
  ch_key : account_key;
  ch_quantity : Z;
  ch_source_timestamp : datetime;
  ch_received_at : datetime;
}.

Record SettlementCashFlow := {
  fw_client_order_id : string;
  fw_venue_order_id : option string;
  fw_key : account_key;
  fw_cumulative_cost_units : Z;
  fw_cumulative_fee_units : Z;
  fw_source_timestamp : datetime;
  fw_observed_at : datetime;
  fw_observation_version : option Z;
  fw_rest_confirmed : bool;
}.

Record AccountBalance := { ab_key : account_key; ab_available_units : Z; ab_allowance_units : Z }.

Record AccountSnapshot := {
  as_captured_at : datetime;
  as_balances : list AccountBalance;
  as_max_per_trade_cost_units : Z;
  as_unsettled_capital_units : Z;
  as_max_total_unsettled_capital_units : Z;
}.

Record RepairContext := {
  kx_reservation_version : string;
  kx_quotes : list RepairQuote;
  kx_holdings : list ConfirmedHolding;
  kx_account_snapshot : AccountSnapshot;
  kx_cash_flows : list SettlementCashFlow;
  kx_now : datetime;
}.

(** [0 <= (now - t).total_seconds() <= seconds] *)
Definition fresh_within (seconds : Z) (now t : datetime) : bool :=
  (0 <=? dt_us now - dt_us t) && (dt_us now - dt_us t <=? seconds * US_PER_SECOND).

Definition fresh : datetime → datetime → bool := fresh_within SOURCE_FRESHNESS_SECONDS.

Definition unsigned63 (v : Z) : bool := (0 <=? v) && (v <=? INT64_MAX).

(** [_valid_account_snapshot] *)
Definition valid_account_snapshot (s : AccountSnapshot) (now : datetime) : bool :=
  is_utc now && is_utc (as_captured_at s) &&
  fresh_within ACCOUNT_FRESHNESS_SECONDS now (as_captured_at s) &&
  forallb unsigned63 [as_max_per_trade_cost_units s; as_unsettled_capital_units s; as_max_total_unsettled_capital_units s] &&
  forallb (λ b, negb ((ab_key b).1.1 =? "")%string && negb ((ab_key b).1.2 =? "")%string &&
                negb ((ab_key b).2 =? "")%string &&
                unsigned63 (ab_available_units b) && unsigned63 (ab_allowance_units b)) (as_balances s) &&
  bool_decide (NoDup (ab_key <$> as_balances s)).

(** [RepairContext.__post_init__] *)
Definition check_context (c : RepairContext) : res unit :=
  check_text ("reservation_version", kx_reservation_version c);;
  require (is_aware (kx_now c) && is_aware (as_captured_at (kx_account_snapshot c))) (ValueError "now must be aware");;
  require (valid_account_snapshot (kx_account_snapshot c) (kx_now c))
    (ValueError "repair account snapshot must be canonical and fresh");;
  require (negb (Nat.eqb (length (kx_quotes c)) 0) && bool_decide (NoDup (qt_client_order_id <$> kx_quotes c)))
    (ValueError "repair quotes must be complete and unique");;
  require (forallb (λ h, fresh (kx_now c) (ch_source_timestamp h) && fresh (kx_now c) (ch_received_at h)) (kx_holdings c))
    (ValueError "repair holdings must be fresh");;
  require (bool_decide (NoDup (ch_key <$> kx_holdings c))) (ValueError "repair holdings must be unique");;
  require (bool_decide (NoDup (fw_client_order_id <$> kx_cash_flows c)))
    (ValueError "repair cash flows must be unique per order");;
  require (forallb (λ q, fresh (kx_now c) (qt_received_at q) && fresh (kx_now c) (qt_source_timestamp q)) (kx_quotes c))
    (ValueError "repair quotes must be fresh");;
  require (forallb (λ f, fresh (kx_now c) (fw_source_timestamp f) && fresh (kx_now c) (fw_observed_at f)) (kx_cash_flows c))
    (ValueError "repair cash flows must be fresh").

(** ** [context.fingerprint] *)

Definition level_json (l : CanonicalBookLevel) : json := JObj
  [ ("first_lot", JInt (lv_first_lot l)); ("last_lot", JInt (lv_last_lot l));
    ("buy_ask_units", JInt (lv_buy_ask_units l)); ("sell_bid_units", JInt (lv_sell_bid_units l)) ].

Definition quote_json (q : RepairQuote) : json := JObj
  [ ("client_order_id", JStr (qt_client_order_id q)); ("asset_id", JStr (qt_asset_id q));
    ("venue_id", JStr (qt_venue_id q)); ("account_id", JStr (qt_account_id q));
    ("settlement_asset_id", JStr (qt_settlement_asset_id q)); ("levels", JArr (level_json <$> qt_levels q));
    ("source_timestamp", json_datetime (qt_source_timestamp q)); ("received_at", json_datetime (qt_received_at q));
    ("fee_ppm", JInt (qt_fee_ppm q)); ("tick_units", JInt (qt_tick_units q));
    ("slippage_units", JInt (qt_slippage_units q)) ].

Definition holding_json (h : ConfirmedHolding) : json := JObj
  [ ("venue_id", JStr (ch_key h).1.1); ("account_id", JStr (ch_key h).1.2); ("asset_id", JStr (ch_key h).2);
    ("quantity", JInt (ch_quantity h)); ("source_timestamp", json_datetime (ch_source_timestamp h));
    ("received_at", json_datetime (ch_received_at h)) ].

Definition cash_flow_json (f : SettlementCashFlow) : json := JObj
  [ ("client_order_id", JStr (fw_client_order_id f)); ("venue_order_id", jopt JStr (fw_venue_order_id f));
    ("venue_id", JStr (fw_key f).1.1); ("account_id", JStr (fw_key f).1.2); ("settlement_asset_id", JStr (fw_key f).2);
    ("cumulative_cost_units", JInt (fw_cumulative_cost_units f));
    ("cumulative_fee_units", JInt (fw_cumulative_fee_units f));
    ("source_timestamp", json_datetime (fw_source_timestamp f)); ("observed_at", json_datetime (fw_observed_at f));
    ("observation_version", jopt JInt (fw_observation_version f)); ("rest_confirmed", JBool (fw_rest_confirmed f)) ].

Definition snapshot_json (s : AccountSnapshot) : json := JObj
  [ ("captured_at", json_datetime (as_captured_at s));
    ("balances", JArr ((λ b, JObj
       [ ("venue_id", JStr (ab_key b).1.1); ("account_id", JStr (ab_key b).1.2); ("asset_id", JStr (ab_key b).2);
         ("available_units", JInt (ab_available_units b)); ("allowance_units", JInt (ab_allowance_units b)) ])
       <$> as_balances s));
    ("max_per_trade_cost_units", JInt (as_max_per_trade_cost_units s));
    ("unsettled_capital_units", JInt (as_unsettled_capital_units s));
    ("max_total_unsettled_capital_units", JInt (as_max_total_unsettled_capital_units s)) ].

Definition context_json (c : RepairContext) : json := JObj
  [ ("reservation_version", JStr (kx_reservation_version c)); ("quotes", JArr (quote_json <$> kx_quotes c));
    ("holdings", JArr (holding_json <$> kx_holdings c)); ("account_snapshot", snapshot_json (kx_account_snapshot c));
    ("cash_flows", JArr (cash_flow_json <$> kx_cash_flows c)); ("now", json_datetime (kx_now c)) ].

Definition context_datetimes (c : RepairContext) : list datetime :=
  (kx_quotes c ≫= λ q, [qt_source_timestamp q; qt_received_at q]) ++
  (kx_holdings c ≫= λ h, [ch_source_timestamp h; ch_received_at h]) ++
  [as_captured_at (kx_account_snapshot c)] ++
  (kx_cash_flows c ≫= λ f, [fw_source_timestamp f; fw_observed_at f]) ++ [kx_now c].

(** ** Walking the book *)

Definition no_depth : exn := ValueError "fresh book lacks required depth".

(** The loop of [_book_units]; the state is [(remaining, total)]. *)
Fixpoint book_loop (price : CanonicalBookLevel → Z) (remaining total : Z) (levels : list CanonicalBookLevel) : res Z :=
  match levels with
  | [] => Err no_depth
  | level :: levels =>
      let lots := Z.min remaining (lv_last_lot level - lv_first_lot level + 1) in
      if lots <=? 0 then book_loop price remaining total levels
      else
        let total := total + lots * price level in
        if remaining - lots =? 0 then Ok total else book_loop price (remaining - lots) total levels
  end.

Definition book_units (q : RepairQuote) (quantity : Z) (buy : bool) (protection : Z) : res Z :=
  book_loop (λ level, Z.max 0 ((if buy then lv_buy_ask_units level else lv_sell_bid_units level) + protection))
    quantity 0 (qt_levels q).

(** [(gross * fee_ppm + 999_999) // 1_000_000] *)
Definition fee_of (gross fee_ppm : Z) : Z := (gross * fee_ppm + 999999) `div` 1000000.

Definition buy_cost (q : RepairQuote) (quantity : Z) : res Z :=
  gross ← book_units q quantity true (qt_tick_units q + qt_slippage_units q);
  Ok (gross + fee_of gross (qt_fee_ppm q)).

Definition sell_proceeds (q : RepairQuote) (quantity : Z) : res Z :=
  gross ← book_units q quantity false (- (qt_tick_units q + qt_slippage_units q));
  Ok (Z.max 0 (gross - fee_of gross (qt_fee_ppm q))).

(** ** Cash flows bound to receipts *)

Definition flow_bound (now : datetime) (flow : SettlementCashFlow) (leg : BatchLeg) (r : OrderReceipt) : bool :=
  bool_decide (fw_key flow = leg_key leg) && bool_decide (fw_venue_order_id flow = rp_venue_order_id r) &&
  bool_decide (fw_observation_version flow
               = if rp_rest_confirmed r then rp_rest_observation_version r else rp_sequence r) &&
  Bool.eqb (fw_rest_confirmed flow) (rp_rest_confirmed r) &&
  (fw_cumulative_cost_units flow =? rp_cumulative_cost_units r) &&
  (fw_cumulative_fee_units flow =? rp_cumulative_fee_units r) &&
  (rp_venue_timestamp r <=? dt_us (fw_source_timestamp flow)) && (rp_observed_at r <=? dt_us (fw_observed_at flow)) &&
  fresh now (fw_source_timestamp flow) && fresh now (fw_observed_at flow).

Definition client_set (ids : list string) : gset string := list_to_set ids.

(** [_bound_cash_flows(...) is not None] *)
Definition bound_cash_flows (b : Batch) (flows : list SettlementCashFlow) (now : datetime) : bool :=
  forallb (λ leg, negb (is_none (bl_receipt leg))) (ba_legs b) &&
  bool_decide (NoDup (fw_client_order_id <$> flows)) &&
  bool_decide (client_set (fw_client_order_id <$> flows) = client_set (bl_client_order_id <$> ba_legs b)) &&
  forallb (λ leg,
    match index_by fw_client_order_id flows !! bl_client_order_id leg, bl_receipt leg with
    | Some flow, Some r => flow_bound now flow leg r
    | _, _ => false
    end) (ba_legs b).

(** ** Candidates *)

Definition set_candidate_fingerprint (c : RepairCandidate) (s : string) : RepairCandidate := {|
  ra_family := ra_family c; ra_legs := ra_legs c;
  ra_conservative_total_loss_units := ra_conservative_total_loss_units c;
  ra_worst_terminal_payout_units := ra_worst_terminal_payout_units c;
  ra_conservative_sell_proceeds_units := ra_conservative_sell_proceeds_units c; ra_fingerprint := s |}.

Definition candidate_fields (c : RepairCandidate) : list (string * json) :=
  [ ("family", JStr (ra_family c)); ("legs", JObj ((λ l, (l.1, JInt l.2)) <$> ra_legs c));
    ("conservative_total_loss_units", JInt (ra_conservative_total_loss_units c));
    ("worst_terminal_payout_units", JInt (ra_worst_terminal_payout_units c));
    ("conservative_sell_proceeds_units", JInt (ra_conservative_sell_proceeds_units c)) ].

Definition COMPLETE_REMAINING := "COMPLETE_REMAINING".
Definition EXIT_CONFIRMED := "EXIT_CONFIRMED".

(** [except (TypeError, ValueError): raise ValueError(...)] *)
Definition as_unavailable {A} (m : res A) : res A :=
  match m with
  | Err TypeError | Err (ValueError _) => Err (ValueError "frozen terminal valuation unavailable")
  | _ => m
  end.

Section planning.
Context `{Sha256}.

Definition context_fingerprint (c : RepairContext) : res string :=
  require (forallb is_utc (context_datetimes c)) not_canonical;;
  Ok (fingerprint_json (context_json c)).

(** [_candidate]: the decoder of the frozen problem validates and sorts it. *)
Definition candidate (b : Batch) (family : string) (legs : list (string * Z)) (spend proceeds : Z)
  : res RepairCandidate :=
  payout ← as_unavailable (
    require (bool_decide (length (validate_problem (ba_frozen_problem b)) = 0%nat)) (ValueError "invalid problem");;
    let problem := sorted_problem (ba_frozen_problem b) in
    let submitted := py_dict ((λ leg, (bl_action_id leg, bl_submitted_quantity leg)) <$> ba_legs b) in
    let quantities := omap (λ a, AQ (ca_action_id a) <$> submitted !! ca_action_id a) (pb_actions problem) in
    if (family =? EXIT_CONFIRMED)%string then Ok 0
    else pe_payout_lower_bound_units <$> evaluate_fixed_portfolio problem quantities (ba_frozen_budget b));
  Ok {| ra_family := family; ra_legs := legs;
        ra_conservative_total_loss_units := Z.max 0 (spend - proceeds - payout);
        ra_worst_terminal_payout_units := payout; ra_conservative_sell_proceeds_units := proceeds;
        ra_fingerprint := "" |}.

(** [{key: sum of f over the items of that key}] *)
Definition sums_by {A} (key : A → account_key) (f : A → Z) (l : list A) (k : account_key) : Z :=
  sumZ (f <$> filter (λ a, key a = k) l).

Definition quote_key (q : RepairQuote) : account_key := (qt_venue_id q, qt_account_id q, qt_settlement_asset_id q).

(** The quantities still to buy and those to sell, by client order. *)
Definition to_complete (b : Batch) : list (BatchLeg * Z) :=
  omap (λ leg, r ← bl_receipt leg;
    if rp_cumulative_filled_quantity r <? bl_submitted_quantity leg
    then Some (leg, bl_submitted_quantity leg - rp_cumulative_filled_quantity r) else None) (ba_legs b).

Definition to_exit (b : Batch) : list (BatchLeg * Z) :=
  omap (λ leg, r ← bl_receipt leg;
    if 0 <? rp_cumulative_filled_quantity r then Some (leg, rp_cumulative_filled_quantity r) else None) (ba_legs b).

Definition holding_key (leg : BatchLeg) : account_key := (bl_venue_id leg, bl_account_id leg, bl_asset_id leg).

Definition held (c : RepairContext) (k : account_key) : Z :=
  default 0 (ch_quantity <$> py_next (λ h, bool_decide (ch_key h = k)) (kx_holdings c)).

(** The confirmed holdings cover what the exit would sell. *)
Definition exit_covered (c : RepairContext) (exits : list (BatchLeg * Z)) : bool :=
  forallb (λ e, sums_by (λ e, holding_key e.1) snd exits (holding_key e.1) <=? held c (holding_key e.1)) exits.

Definition by_client (l : list (BatchLeg * Z)) : list (string * Z) := (λ e, (bl_client_order_id e.1, e.2)) <$> l.

(** Structural binding of the context to the batch. *)
Definition context_bound (b : Batch) (c : RepairContext) : bool :=
  let quotes := index_by qt_client_order_id (kx_quotes c) in
  (kx_reservation_version c =? ba_reservation_version b)%string &&
  bool_decide (client_set (qt_client_order_id <$> kx_quotes c) = client_set (bl_client_order_id <$> ba_legs b)) &&
  forallb (λ leg, match quotes !! bl_client_order_id leg with
    | Some q => (qt_asset_id q =? bl_asset_id leg)%string && bool_decide (quote_key q = leg_key leg)
    | None => false end) (ba_legs b) &&
  forallb (λ q, bool_decide (quote_key q ∈ ab_key <$> as_balances (kx_account_snapshot c))) (kx_quotes c) &&
  bool_decide ((list_to_set (fw_key <$> kx_cash_flows c) : gset account_key) = list_to_set (rv_key <$> ba_reservations b)).

Definition flow_units (f : SettlementCashFlow) : Z := fw_cumulative_cost_units f + fw_cumulative_fee_units f.

(** [remaining.get(key, -1)]: the last row of the key *)
Definition remaining_for (b : Batch) (c : RepairContext) (k : account_key) : Z :=
  match last (filter (λ row, rv_key row = k) (ba_reservations b)) with
  | Some row => Z.min (rv_remaining_units row) (Z.max 0 (rv_original_units row - sums_by fw_key flow_units (kx_cash_flows c) k))
  | None => -1
  end.

Definition balance_of (c : RepairContext) (k : account_key) : res AccountBalance :=
  of_option (KeyError k.2) (last (filter (λ x, ab_key x = k) (as_balances (kx_account_snapshot c)))).

(** The [try] block of the completion family: [None] when it does not fit. *)
Definition complete_candidate (b : Batch) (c : RepairContext) (complete : list (BatchLeg * Z)) : res (option RepairCandidate) :=
  let quotes := index_by qt_client_order_id (kx_quotes c) in
  costs ← mapM (λ e,
    q ← of_option (KeyError (bl_client_order_id e.1)) (quotes !! bl_client_order_id e.1);
    cost ← buy_cost q e.2;
    Ok (quote_key q, cost)) complete;
  fits ← mapM (λ e,
    balance ← balance_of c e.1;
    let cost := sums_by fst snd costs e.1 in
    Ok ((cost <=? remaining_for b c e.1) && (cost <=? ab_available_units balance) && (cost <=? ab_allowance_units balance)))
    costs;
  if forallb id fits
  then Some <$> candidate b COMPLETE_REMAINING (by_client complete)
         (sumZ (flow_units <$> kx_cash_flows c) + sumZ (snd <$> costs)) 0
  else Ok None.

Definition exit_candidate (b : Batch) (c : RepairContext) (exits : list (BatchLeg * Z)) : res (option RepairCandidate) :=
  let quotes := index_by qt_client_order_id (kx_quotes c) in
  proceeds ← mapM (λ e,
    q ← of_option (KeyError (bl_client_order_id e.1)) (quotes !! bl_client_order_id e.1);
    sell_proceeds q e.2) exits;
  Some <$> candidate b EXIT_CONFIRMED (by_client exits) (sumZ (flow_units <$> kx_cash_flows c)) (sumZ proceeds).

(** One family: its candidates, or the [ValueError] it failed with. *)
Definition try_family (skip : bool) (m : res (option RepairCandidate)) : res (list RepairCandidate * list exn) :=
  if skip then Ok ([], [])
  else match m with
       | Ok (Some x) => Ok ([x], [])
       | Ok None => Ok ([], [])
       | Err (ValueError msg) => Ok ([], [ValueError msg])
       | Err e => Err e
       end.

Definition seal_candidate (context : string) (x : RepairCandidate) : RepairCandidate :=
  set_candidate_fingerprint x (fingerprint_json (JObj
    [("context", JStr context); ("candidate", JObj (candidate_fields x))])).

(** [min(candidates, key=(loss, fingerprint))] *)
Definition candidate_before (x y : RepairCandidate) : bool :=
  if ra_conservative_total_loss_units x =? ra_conservative_total_loss_units y
  then negb (String.leb (ra_fingerprint y) (ra_fingerprint x))
  else ra_conservative_total_loss_units x <? ra_conservative_total_loss_units y.

Definition select_candidate (x : RepairCandidate) (l : list RepairCandidate) : RepairCandidate :=
  foldl (λ best y, if candidate_before y best then y else best) x l.

Definition plan_of (b : Batch) (selected : RepairCandidate) : RepairPlan := {|
  rl_schema_version := REPAIR_PLAN_SCHEMA_V1; rl_family := ra_family selected; rl_candidate := selected;
  rl_fingerprint := fingerprint_json (JObj (candidate_fields selected ++ [("fingerprint", JStr (ra_fingerprint selected))]));
  rl_auto_eligible := false;
  rl_reason := if ba_max_auto_repair_loss b <? ra_conservative_total_loss_units selected
               then "REPAIR_LOSS_CAP_EXCEEDED" else "REPAIR_PROOF_REQUIRED" |}.

(** [_repair_plan] *)
Definition repair_plan (b : Batch) (context : option RepairContext) : res (option RepairPlan) :=
  match ba_unresolved_conflicts b, context with
  | _ :: _, _ | _, None => Ok None
  | [], Some c =>
      if negb (context_bound b c) then Ok None
      else
        let complete := to_complete b in
        let exits := let e := to_exit b in if exit_covered c e then e else [] in
        if negb (bound_cash_flows b (kx_cash_flows c) (kx_now c)) then Ok None
        else
          '(cs, failures) ← try_family (Nat.eqb (length complete) 0) (complete_candidate b c complete);
          '(es, failures') ← try_family (Nat.eqb (length exits) 0) (exit_candidate b c exits);
          match cs ++ es with
          | [] => match failures ++ failures' with [] => Ok None | e :: _ => Err e end
          | x :: l =>
              context ← context_fingerprint c;
              Ok (Some (plan_of b (select_candidate (seal_candidate context x) (seal_candidate context <$> l))))
          end
  end.
End planning.

(** ** Incidents *)

Definition opened_incident (reason status : string) : Incident :=
  {| in_reason := reason; in_repair_status := status; in_acknowledgement := None |}.

Definition set_status (b : Batch) (state : string) (incident : option Incident) (plan : option RepairPlan)
    (controls : list (string * string)) (total : Z) : Batch := {|
  ba_execution_batch_id := ba_execution_batch_id b; ba_entry := ba_entry b; ba_state := state; ba_frozen_problem := ba_frozen_problem b;
  ba_frozen_budget := ba_frozen_budget b; ba_max_auto_repair_loss := ba_max_auto_repair_loss b;
  ba_reservation_version := ba_reservation_version b;
  ba_prior_unsettled_capital_units := ba_prior_unsettled_capital_units b;
  ba_total_unsettled_capital_units := total; ba_reservations := ba_reservations b;
  ba_legs := ba_legs b; ba_receipts := ba_receipts b; ba_confirmed_holdings := ba_confirmed_holdings b;
  ba_receipt_conflicts := ba_receipt_conflicts b; ba_unresolved_conflicts := ba_unresolved_conflicts b;
  ba_conflict_exposure := ba_conflict_exposure b; ba_capital_exposure_unknown := ba_capital_exposure_unknown b;
  ba_terminal_ledger := ba_terminal_ledger b; ba_incident := incident; ba_repair_plan := plan;
  ba_execution_controls := controls; ba_reconciliation := ba_reconciliation b |}.

(** [_prior_unsettled] *)
Definition prior_unsettled (b : Batch) : Z :=
  if 0 <=? ba_prior_unsettled_capital_units b then ba_prior_unsettled_capital_units b else 0.

Definition BREAKER_REASONS : list string :=
  [ "UNKNOWN_ORDER_STATE"; "COST_RESERVATION_BREACH"; "ZERO_FILL_CASH_BREACH"; "RECEIPT_ID_CONFLICT";
    "RECEIPT_IDENTITY_DRIFT"; "VENUE_ORDER_ID_DRIFT"; "SAME_SEQUENCE_CONFLICT"; "REST_OBSERVATION_CONFLICT";
    "RECEIPT_TIME_REGRESSION"; "CUMULATIVE_REGRESSION"; "TERMINAL_REOPENED" ].

Section apply.
Context `{Sha256}.

(** [_open_incident] *)
Definition open_incident (b : Batch) (control : Control) (reason : string) (context : option RepairContext)
  : res (Batch * Control) :=
  let total := batch_occupancy b in
  let controls := execution_controls b in
  let pending := Some (opened_incident reason "PENDING_RECONCILIATION") in
  let control := set_unsettled (take_manual control b) (prior_unsettled b + total) in
  let control := if bool_decide (reason ∈ BREAKER_REASONS) then open_breaker control reason else control in
  let keep := set_status b "INCIDENT" pending (ba_repair_plan b) controls total in
  if negb (Nat.eqb (length (ba_unresolved_conflicts b)) 0)
  then Ok (set_status b "INCIDENT" (Some (opened_incident reason "CONFLICT_UNRESOLVED"))
             None controls total, control)
  else if negb (all_terminal b) then Ok (keep, control)
  else
    match ba_repair_plan b with
    | Some _ => Ok (keep, control)
    | None =>
        let fail planning_reason :=
          Ok (set_status b "INCIDENT" (Some (opened_incident reason planning_reason))
                None controls total, open_breaker control planning_reason) in
        match repair_plan b context with
        | Ok None => fail "REPAIR_CONTEXT_REQUIRED"
        | Ok (Some plan) =>
            Ok (set_status b "INCIDENT" pending (Some plan) controls total,
                if (rl_reason plan =? "REPAIR_LOSS_CAP_EXCEEDED")%string
                then open_breaker control "REPAIR_LOSS_CAP_EXCEEDED" else control)
        | Err (ValueError msg) =>
            fail (if (msg =? "fresh book lacks required depth")%string
                  then "REPAIR_INSUFFICIENT_DEPTH" else "REPAIR_VALUATION_UNAVAILABLE")
        | Err e => Err e
        end
    end.

Definition set_state (b : Batch) (state : string) : Batch :=
  set_status b state (ba_incident b) (ba_repair_plan b) (ba_execution_controls b) (ba_total_unsettled_capital_units b).

(** The reducer of [apply_receipt]: [(next_batch, control, changed)]. *)
Definition apply_reduce (r : OrderReceipt) (context : option RepairContext) (b : Batch) (control : Control)
  : res (Batch * Control * bool) :=
  '(next, reason, changed) ← reduce b r;
  if negb changed then Ok (b, control, false)
  else
    '(next, control) ←
      match reason, ba_incident next with
      | Some reason, _ => open_incident next control reason context
      | None, Some existing =>
          let next := set_status next (ba_state next) (ba_incident next) (ba_repair_plan next)
                        (execution_controls next) (ba_total_unsettled_capital_units next) in
          if all_terminal next then
            if all_full next || all_zero next
            then Ok (set_state next "AWAITING_RECONCILIATION", take_manual control next)
            else open_incident next control (in_reason existing) context
          else Ok (next, take_manual control next)
      | None, None =>
          if all_terminal next then
            if all_full next || all_zero next then Ok (set_state next "AWAITING_RECONCILIATION", control)
            else open_incident next control "MIXED_TERMINAL_FILL" context
          else Ok (next, control)
      end;
    Ok (next, control, true).

(** ** Applying a receipt to the store *)

Definition semantic_json (r : OrderReceipt) : json :=
  match receipt_json r with
  | JObj fields => JObj (filter (λ f, f.1 ∉ ["receipt_id"; "observed_at"; "venue_timestamp"]) fields)
  | j => j
  end.

(** [apply_receipt] *)
Definition apply_receipt (st : Store) (r : OrderReceipt) (context : option RepairContext) : res (Store * Batch) :=
  n_leg_reduce st (rp_execution_batch_id r)
    ("receipt:" +:+ rp_receipt_id r +:+ ":" +:+ fingerprint_json (semantic_json r)) (apply_reduce r context).
End apply.
