(* ===== verification/Reconcile.v ===== *)
(** * Reconciliation of a finished batch

    [src/open_trader/prediction_n_leg_execution.py]: the evidence that closes
    an open conflict, the fresh reconciliation context, the resolution of
    conflicts with that evidence and
    [NLegExecutionService.complete_reconciliation], which releases the control
    and settles the capital of the batch. *)

From S2P Require Import Prelude PyValue NLeg NLegForms FillProof Receipts BatchStore Repair.
Local Open Scope Z_scope.

(** ** Fresh facts *)

(** [ConfirmedHolding.__post_init__] *)
Definition check_holding (h : ConfirmedHolding) : res unit :=
  mapM check_text [("venue_id", (ch_key h).1.1); ("account_id", (ch_key h).1.2); ("asset_id", (ch_key h).2)];;
  check_nonnegative ("quantity", ch_quantity h);;
  require (is_aware (ch_source_timestamp h) && is_aware (ch_received_at h)) (ValueError "holding timestamps must be aware").

(** [SettlementCashFlow.__post_init__] *)
Definition check_cash_flow (f : SettlementCashFlow) : res unit :=
  check_text ("client_order_id", fw_client_order_id f);;
  match fw_venue_order_id f with Some v => check_text ("venue_order_id", v) | None => Ok tt end;;
  mapM check_text [("venue_id", (fw_key f).1.1); ("account_id", (fw_key f).1.2); ("settlement_asset_id", (fw_key f).2)];;
  check_nonnegative ("cumulative_cost_units", fw_cumulative_cost_units f);;
  check_nonnegative ("cumulative_fee_units", fw_cumulative_fee_units f);;
  require (optional_nonnegative (fw_observation_version f)) (ValueError "cash flow observation version is invalid");;
  require (negb (is_none (fw_observation_version f) && negb (fw_rest_confirmed f)) &&
           is_aware (fw_source_timestamp f) && is_aware (fw_observed_at f))
    (ValueError "cash flow observation is invalid").

Inductive ResolutionOutcome := RESOLVED_TERMINAL | RESOLVED_NOT_FOUND.

#[export] Instance ResolutionOutcome_eq_dec : EqDecision ResolutionOutcome.
Proof. solve_decision. Defined.

Definition outcome_value (o : ResolutionOutcome) : string :=
  match o with RESOLVED_TERMINAL => "TERMINAL" | RESOLVED_NOT_FOUND => "NOT_FOUND" end.

Record ConflictResolutionEvidence := {
  cr_conflict_id : string;
  cr_client_order_id : string;
  cr_venue_order_id : option string;
  cr_venue_id : string;
  cr_account_id : string;
  cr_asset_id : string;
  cr_settlement_asset_id : string;
  cr_outcome : ResolutionOutcome;
  cr_terminal_state : option OrderState;
  cr_cumulative_filled_quantity : Z;
  cr_cumulative_cost_units : Z;
  cr_cumulative_fee_units : Z;
  cr_sequence : option Z;
  cr_rest_confirmed : bool;
  cr_observation_version : Z;
  cr_source_timestamp : datetime;
  cr_observed_at : datetime;
}.

Definition is_terminal_state (o : option OrderState) : bool :=
  match o with Some s => is_terminal s | None => false end.

(** [ConflictResolutionEvidence.__post_init__] *)
Definition check_resolution (e : ConflictResolutionEvidence) : res unit :=
  check_text ("conflict_id", cr_conflict_id e);;
  check_text ("client_order_id", cr_client_order_id e);;
  match cr_venue_order_id e with Some v => check_text ("venue_order_id", v) | None => Ok tt end;;
  mapM check_text
    [ ("venue_id", cr_venue_id e); ("account_id", cr_account_id e); ("asset_id", cr_asset_id e);
      ("settlement_asset_id", cr_settlement_asset_id e) ];;
  require match cr_outcome e with
          | RESOLVED_TERMINAL => is_terminal_state (cr_terminal_state e)
          | RESOLVED_NOT_FOUND => is_none (cr_terminal_state e) && cr_rest_confirmed e
          end (ValueError "conflict resolution outcome is invalid");;
  mapM check_nonnegative
    [ ("cumulative_filled_quantity", cr_cumulative_filled_quantity e);
      ("cumulative_cost_units", cr_cumulative_cost_units e); ("cumulative_fee_units", cr_cumulative_fee_units e);
      ("observation_version", cr_observation_version e) ];;
  require (optional_nonnegative (cr_sequence e)) (ValueError "conflict resolution sequence is invalid");;
  require (negb (bool_decide (cr_outcome e = RESOLVED_NOT_FOUND) &&
                 (negb (cr_cumulative_filled_quantity e =? 0) || negb (cr_cumulative_cost_units e =? 0) ||
                  negb (cr_cumulative_fee_units e =? 0) || negb (is_none (cr_sequence e)))))
    (ValueError "NOT_FOUND resolution must carry zero economics");;
  require (is_aware (cr_source_timestamp e) && is_aware (cr_observed_at e))
    (ValueError "conflict resolution observation is invalid").

Record ReconciliationContext := {
  rk_reservation_version : string;
  rk_account_snapshot : AccountSnapshot;
  rk_holdings : list ConfirmedHolding;
  rk_cash_flows : list SettlementCashFlow;
  rk_source_timestamp : datetime;
  rk_received_at : datetime;
  rk_now : datetime;
  rk_conflict_resolutions : list ConflictResolutionEvidence;
}.

(** [ReconciliationContext.__post_init__]; the parts are already checked. *)
Definition check_reconciliation_context (c : ReconciliationContext) : res unit :=
  let recent := fresh (rk_now c) in
  check_text ("reservation_version", rk_reservation_version c);;
  require (forallb is_aware [rk_source_timestamp c; rk_received_at c; rk_now c]) (ValueError "invalid reconciliation source");;
  require (recent (rk_source_timestamp c) && recent (rk_received_at c) &&
           valid_account_snapshot (rk_account_snapshot c) (rk_now c)) (ValueError "reconciliation source must be fresh");;
  require (bool_decide (NoDup (ch_key <$> rk_holdings c))) (ValueError "reconciliation holdings must be unique");;
  require (forallb (λ h, recent (ch_source_timestamp h) && recent (ch_received_at h)) (rk_holdings c))
    (ValueError "reconciliation holdings must be fresh");;
  require (bool_decide (NoDup (fw_client_order_id <$> rk_cash_flows c)))
    (ValueError "reconciliation cash flows must be per-order");;
  require (forallb (λ f, recent (fw_source_timestamp f) && recent (fw_observed_at f)) (rk_cash_flows c))
    (ValueError "reconciliation cash flows must be fresh");;
  require (bool_decide (NoDup (cr_conflict_id <$> rk_conflict_resolutions c)))
    (ValueError "reconciliation conflict resolutions must be exact");;
  require (forallb (λ e, recent (cr_source_timestamp e) && recent (cr_observed_at e)) (rk_conflict_resolutions c))
    (ValueError "reconciliation conflict resolutions must be fresh").

Definition resolution_json (e : ConflictResolutionEvidence) : json := JObj
  [ ("conflict_id", JStr (cr_conflict_id e)); ("client_order_id", JStr (cr_client_order_id e));
    ("venue_order_id", jopt JStr (cr_venue_order_id e)); ("venue_id", JStr (cr_venue_id e));
    ("account_id", JStr (cr_account_id e)); ("asset_id", JStr (cr_asset_id e));
    ("settlement_asset_id", JStr (cr_settlement_asset_id e)); ("outcome", JStr (outcome_value (cr_outcome e)));
    ("terminal_state", jopt (λ s, JStr (order_state_value s)) (cr_terminal_state e));
    ("cumulative_filled_quantity", JInt (cr_cumulative_filled_quantity e));
    ("cumulative_cost_units", JInt (cr_cumulative_cost_units e));
    ("cumulative_fee_units", JInt (cr_cumulative_fee_units e)); ("sequence", jopt JInt (cr_sequence e));
    ("rest_confirmed", JBool (cr_rest_confirmed e)); ("observation_version", JInt (cr_observation_version e));
    ("source_timestamp", json_datetime (cr_source_timestamp e)); ("observed_at", json_datetime (cr_observed_at e)) ].

Definition reconciliation_json (c : ReconciliationContext) : json := JObj
  [ ("reservation_version", JStr (rk_reservation_version c)); ("account_snapshot", snapshot_json (rk_account_snapshot c));
    ("holdings", JArr (holding_json <$> rk_holdings c)); ("cash_flows", JArr (cash_flow_json <$> rk_cash_flows c));
    ("source_timestamp", json_datetime (rk_source_timestamp c)); ("received_at", json_datetime (rk_received_at c));
    ("now", json_datetime (rk_now c)); ("conflict_resolutions", JArr (resolution_json <$> rk_conflict_resolutions c)) ].

Definition reconciliation_datetimes (c : ReconciliationContext) : list datetime :=
  [rk_source_timestamp c; rk_received_at c; rk_now c; as_captured_at (rk_account_snapshot c)] ++
  (rk_holdings c ≫= λ h, [ch_source_timestamp h; ch_received_at h]) ++
  (rk_cash_flows c ≫= λ f, [fw_source_timestamp f; fw_observed_at f]) ++
  (rk_conflict_resolutions c ≫= λ e, [cr_source_timestamp e; cr_observed_at e]).

(** ** Resolving conflicts *)

Definition resolution_identity (e : ConflictResolutionEvidence) : identity :=
  (cr_client_order_id e, cr_venue_order_id e, cr_venue_id e, cr_account_id e, cr_asset_id e, cr_settlement_asset_id e).

(** [_resolution_matches] *)
Definition resolution_matches (c : Conflict) (e : ConflictResolutionEvidence) : bool :=
  let max_sequence := default (-1) (cx_max_sequence c) in
  let max_rest := default (-1) (cx_max_rest_observation_version c) in
  same_identity (cx_physical_identity c) (resolution_identity e) &&
  negb (bool_decide (cx_kind c = UNBOUND) && negb (bool_decide (cr_outcome e = RESOLVED_NOT_FOUND))) &&
  (cx_max_source_timestamp c <? dt_us (cr_source_timestamp e)) && (cx_max_observed_at c <? dt_us (cr_observed_at e)) &&
  match cr_outcome e with
  | RESOLVED_TERMINAL =>
      is_terminal_state (cr_terminal_state e) &&
      (cx_max_actual_cash_units c <=? cr_cumulative_cost_units e + cr_cumulative_fee_units e) &&
      (cx_max_actual_filled_quantity c <=? cr_cumulative_filled_quantity e) &&
      (max_rest <? cr_observation_version e) &&
      (if 0 <=? max_rest then cr_rest_confirmed e && is_none (cr_sequence e)
       else if 0 <=? max_sequence
       then match cr_sequence e with Some s => (max_sequence <? s) && negb (cr_rest_confirmed e) | None => false end
       else cr_rest_confirmed e || negb (is_none (cr_sequence e)))
  | RESOLVED_NOT_FOUND => cr_rest_confirmed e && (max_rest <? cr_observation_version e)
  end.

(** The economic facts that have to agree for one physical order. *)
Definition resolution_facts (e : ConflictResolutionEvidence) :=
  (cr_outcome e, cr_terminal_state e, cr_cumulative_filled_quantity e, cr_cumulative_cost_units e,
   cr_cumulative_fee_units e, cr_sequence e, cr_rest_confirmed e, cr_observation_version e).

Definition resolved := (Conflict * ConflictResolutionEvidence)%type.

(** [(source_timestamp, observed_at)] compared as a tuple *)
Definition older (a b : resolved) : bool :=
  let s p := dt_us (cr_source_timestamp (snd p)) in
  let o p := dt_us (cr_observed_at (snd p)) in
  (s a <? s b) || ((s a =? s b) && (o a <? o b)).

(** [max(items, key=...)]: the first of the newest *)
Definition newest (x : resolved) (items : list resolved) : resolved :=
  foldl (λ best y, if older best y then y else best) x items.

(** One physical order: the chosen pair, or [None] when the evidence of its
    conflicts disagrees. *)
Definition choose (items : list resolved) : option resolved :=
  match items with
  | [] => None
  | x :: rest =>
      if forallb (λ y, bool_decide (resolution_facts y.2 = resolution_facts x.2)) rest
      then let chosen := newest x rest in
           if forallb (λ y, resolution_matches y.1 chosen.2) items then Some chosen else None
      else None
  end.

(** The evidence of every open conflict, in their order. *)
Definition pair_evidence (conflicts : list Conflict) (evidence : list ConflictResolutionEvidence) : option (list resolved) :=
  let actual := index_by cr_conflict_id evidence in
  if bool_decide ((list_to_set (cr_conflict_id <$> evidence) : gset string) = list_to_set (cx_conflict_id <$> conflicts)) &&
     bool_decide (NoDup (cx_conflict_id <$> conflicts))
  then mapM (λ c, e ← actual !! cx_conflict_id c; Some (c, e)) conflicts
  else None.

(** [selected]: the chosen evidence by physical key, [None] on any early
    return. *)
Definition select_resolutions (conflicts : list Conflict) (evidence : list ConflictResolutionEvidence)
  : option (list (string * resolved)) :=
  pairs ← pair_evidence conflicts evidence;
  if forallb (λ p, resolution_matches p.1 p.2) pairs
  then mapM (λ g, chosen ← choose g.2; Some (g.1, chosen)) (group_by (λ p, cx_physical_key p.1) pairs)
  else None.

(** [_merge_canonical_resolution] *)
Definition merged_receipt (e : ConflictResolutionEvidence) (r : OrderReceipt) : OrderReceipt := {|
  rp_receipt_id := rp_receipt_id r; rp_execution_batch_id := rp_execution_batch_id r;
  rp_client_order_id := rp_client_order_id r; rp_venue_id := rp_venue_id r; rp_account_id := rp_account_id r;
  rp_venue_order_id := cr_venue_order_id e; rp_submitted_quantity := rp_submitted_quantity r;
  rp_cumulative_filled_quantity := cr_cumulative_filled_quantity e;
  rp_cumulative_cost_units := cr_cumulative_cost_units e; rp_cumulative_fee_units := cr_cumulative_fee_units e;
  rp_state := default (rp_state r) (cr_terminal_state e); rp_sequence := cr_sequence e;
  rp_rest_confirmed := cr_rest_confirmed e; rp_observed_at := dt_us (cr_observed_at e);
  rp_venue_timestamp := dt_us (cr_source_timestamp e);
  rp_rest_observation_version := if cr_rest_confirmed e then Some (cr_observation_version e) else None;
  rp_schema_version := rp_schema_version r |}.

Fixpoint merge_resolution (e : ConflictResolutionEvidence) (legs : list BatchLeg) : list BatchLeg :=
  match legs with
  | [] => []
  | leg :: legs =>
      match bl_receipt leg with
      | Some r =>
          if (bl_client_order_id leg =? cr_client_order_id e)%string &&
             bool_decide ((bl_venue_id leg, bl_account_id leg, bl_asset_id leg, bl_settlement_asset_id leg)
                          = (cr_venue_id e, cr_account_id e, cr_asset_id e, cr_settlement_asset_id e))
          then set_leg_receipt (bl_client_order_id leg) (merged_receipt e r) leg :: legs
          else leg :: merge_resolution e legs
      | None => leg :: merge_resolution e legs
      end
  end.

Definition ledger_entry (c : Conflict) (e : ConflictResolutionEvidence) : LedgerEntry :=
  let submitted := Z.max 1 (cx_submitted_quantity c) in
  let protected := (cx_conservative_max_units c * cr_cumulative_filled_quantity e + submitted - 1) `div` submitted in
  {| le_client_order_id := cr_client_order_id e; le_venue_order_id := cr_venue_order_id e;
     le_key := (cr_venue_id e, cr_account_id e, cr_asset_id e); le_settlement_asset_id := cr_settlement_asset_id e;
     le_cumulative_filled_quantity := cr_cumulative_filled_quantity e;
     le_cumulative_cost_units := cr_cumulative_cost_units e; le_cumulative_fee_units := cr_cumulative_fee_units e;
     le_holding_capital_units := Z.max (cr_cumulative_cost_units e + cr_cumulative_fee_units e) protected |}.

(** What one chosen resolution does to the legs and the ledger. *)
Definition apply_resolution (acc : list BatchLeg * gmap string LedgerEntry) (s : string * resolved)
  : list BatchLeg * gmap string LedgerEntry :=
  let '(legs, ledger) := acc in
  let '(key, (c, e)) := s in
  match cr_outcome e, cx_kind c with
  | RESOLVED_NOT_FOUND, _ => (legs, ledger)
  | RESOLVED_TERMINAL, SAME_PHYSICAL => (merge_resolution e legs, ledger)
  | RESOLVED_TERMINAL, _ => (legs, <[key := ledger_entry c e]> ledger)
  end.

(** ** Positions *)

(** [expected_holding]: every reported fill, legs and ledger. *)
Definition filled_positions (legs : list BatchLeg) (ledger : gmap string LedgerEntry) : list (account_key * Z) :=
  omap (λ leg, r ← bl_receipt leg; Some (holding_key leg, rp_cumulative_filled_quantity r)) legs ++
  ((λ e, (le_key e.2, le_cumulative_filled_quantity e.2)) <$> map_to_list ledger).

Definition sorted_holdings (positions : list (account_key * Z)) : list Holding :=
  (λ e, {| ho_key := e.1; ho_quantity := e.2 |}) <$>
    filter (λ e, e.2 ≠ 0) (sorted_totals positions).

Definition set_ledger (b : Batch) (ledger : gmap string LedgerEntry) : Batch := {|
  ba_execution_batch_id := ba_execution_batch_id b; ba_entry := ba_entry b; ba_state := ba_state b;
  ba_frozen_problem := ba_frozen_problem b; ba_frozen_budget := ba_frozen_budget b;
  ba_max_auto_repair_loss := ba_max_auto_repair_loss b; ba_reservation_version := ba_reservation_version b;
  ba_prior_unsettled_capital_units := ba_prior_unsettled_capital_units b;
  ba_total_unsettled_capital_units := ba_total_unsettled_capital_units b; ba_reservations := ba_reservations b;
  ba_legs := ba_legs b; ba_receipts := ba_receipts b; ba_confirmed_holdings := ba_confirmed_holdings b;
  ba_receipt_conflicts := ba_receipt_conflicts b; ba_unresolved_conflicts := ba_unresolved_conflicts b;
  ba_conflict_exposure := ba_conflict_exposure b; ba_capital_exposure_unknown := ba_capital_exposure_unknown b;
  ba_terminal_ledger := ledger; ba_incident := ba_incident b; ba_repair_plan := ba_repair_plan b;
  ba_execution_controls := ba_execution_controls b; ba_reconciliation := ba_reconciliation b |}.

(** [_resolve_conflicts_with_evidence] *)
Definition resolve_with_evidence (b : Batch) (evidence : list ConflictResolutionEvidence) : Batch :=
  match ba_unresolved_conflicts b with
  | [] => b
  | conflicts =>
      match select_resolutions conflicts evidence with
      | None => b
      | Some selected =>
          let exposure := filter (λ e, e.1 ∉ selected.*1) (ba_conflict_exposure b) in
          let '(legs, ledger) := foldl apply_resolution (ba_legs b, ba_terminal_ledger b) selected in
          let b := set_conflicts b (ba_receipt_conflicts b) conflicts exposure (ba_capital_exposure_unknown b)
                     (ba_repair_plan b) in
          let b := refresh_reservations (set_ledger (set_legs b legs (ba_receipts b)) ledger) in
          let b := set_holdings b (sorted_holdings (filled_positions legs ledger)) in
          set_conflicts b (ba_receipt_conflicts b) [] (ba_conflict_exposure b) false (ba_repair_plan b)
      end
  end.

(** ** Completing a reconciliation *)

Definition proof_required : exn := ValueError "N_LEG_RECONCILIATION_PROOF_REQUIRED".

Definition actual_holding (c : ReconciliationContext) (k : account_key) : Z :=
  default 0 (ch_quantity <$> last (filter (λ h, ch_key h = k) (rk_holdings c))).

Definition settlement_keys (b : Batch) : list account_key :=
  (leg_key <$> ba_legs b) ++
  ((λ e, ((le_key e.2).1, le_settlement_asset_id e.2)) <$> map_to_list (ba_terminal_ledger b)).

(** Every settlement account is observed and every expected position held. *)
Definition positions_covered (b : Batch) (c : ReconciliationContext) : bool :=
  forallb (λ k, bool_decide (k ∈ ab_key <$> as_balances (rk_account_snapshot c))) (settlement_keys b) &&
  forallb (λ e, e.2 <=? actual_holding c e.1)
    (map_to_list (totals (filled_positions (ba_legs b) (ba_terminal_ledger b)))).

Definition ledger_empty_economics (b : Batch) : bool :=
  forallb (λ e, (le_cumulative_filled_quantity e.2 =? 0) && (le_cumulative_cost_units e.2 =? 0) &&
                (le_cumulative_fee_units e.2 =? 0)) (map_to_list (ba_terminal_ledger b)).

Definition RECONCILED_ZERO := "RECONCILED_ZERO".
Definition RECONCILED_FULL := "RECONCILED_FULL".

Definition set_reconciled (b : Batch) (state : string) (total : Z) (payload : json) : Batch := {|
  ba_execution_batch_id := ba_execution_batch_id b; ba_entry := ba_entry b; ba_state := state;
  ba_frozen_problem := ba_frozen_problem b; ba_frozen_budget := ba_frozen_budget b;
  ba_max_auto_repair_loss := ba_max_auto_repair_loss b; ba_reservation_version := ba_reservation_version b;
  ba_prior_unsettled_capital_units := ba_prior_unsettled_capital_units b;
  ba_total_unsettled_capital_units := total; ba_reservations := ba_reservations b;
  ba_legs := ba_legs b; ba_receipts := ba_receipts b; ba_confirmed_holdings := ba_confirmed_holdings b;
  ba_receipt_conflicts := ba_receipt_conflicts b; ba_unresolved_conflicts := ba_unresolved_conflicts b;
  ba_conflict_exposure := ba_conflict_exposure b; ba_capital_exposure_unknown := ba_capital_exposure_unknown b;
  ba_terminal_ledger := ba_terminal_ledger b; ba_incident := None; ba_repair_plan := ba_repair_plan b;
  ba_execution_controls := ba_execution_controls b; ba_reconciliation := Some payload |}.

(** The state the batch closes in and the capital that stays unsettled. *)
Definition closing_state (b : Batch) : string :=
  if all_zero b && ledger_empty_economics b then RECONCILED_ZERO else RECONCILED_FULL.
Definition closing_units (b : Batch) : Z :=
  if (closing_state b =? RECONCILED_ZERO)%string then 0
  else if all_zero b then terminal_ledger_cost b else batch_occupancy b.

Definition is_reconciled (b : Batch) : bool := bool_decide (ba_state b ∈ [RECONCILED_ZERO; RECONCILED_FULL]).

(** The reducer of [complete_reconciliation]. *)
Definition reconcile_reduce (execution_batch_id : string) (c : ReconciliationContext) (b : Batch) (control : Control)
  : res (Batch * Control * bool) :=
  if is_reconciled b then Ok (b, control, false)
  else
    require (all_terminal b) (ValueError "N_LEG_RECONCILIATION_NOT_READY");;
    require ((rk_reservation_version c =? ba_reservation_version b)%string && (all_full b || all_zero b)) proof_required;;
    require (bool_decide (ct_active_batch_id control = Some execution_batch_id))
      (ValueError "N_LEG_RECONCILIATION_OWNERSHIP_LOST");;
    let b := resolve_with_evidence b (rk_conflict_resolutions c) in
    require (Nat.eqb (length (ba_unresolved_conflicts b)) 0) (ValueError "N_LEG_RECONCILIATION_CONFLICT_UNRESOLVED");;
    require (positions_covered b c) proof_required;;
    require (bound_cash_flows b (rk_cash_flows c) (rk_now c)) proof_required;;
    require (negb (all_zero b && existsb (λ f, negb (fw_cumulative_cost_units f =? 0) ||
                                               negb (fw_cumulative_fee_units f =? 0)) (rk_cash_flows c))) proof_required;;
    let units := closing_units b in
    let mode := match ba_incident b with Some _ => "MANUAL" | None => ct_mode control end in
    Ok (set_reconciled b (closing_state b) units (reconciliation_json c),
        set_control control mode (ct_breaker_open control) (ct_breaker_reason control) None (prior_unsettled b + units),
        true).

Section reconcile.
Context `{Sha256}.

Definition reconciliation_fingerprint (c : ReconciliationContext) : res string :=
  require (forallb is_utc (reconciliation_datetimes c)) not_canonical;;
  Ok (fingerprint_json (reconciliation_json c)).

(** [complete_reconciliation] *)
Definition complete_reconciliation (st : Store) (execution_batch_id : string) (c : ReconciliationContext)
  : res (Store * Batch) :=
  fp ← reconciliation_fingerprint c;
  n_leg_reduce st execution_batch_id ("reconcile:" +:+ execution_batch_id +:+ ":" +:+ fp)
    (reconcile_reduce execution_batch_id c).
End reconcile.
