(* ===== verification/Entry.v ===== *)
(** * From a funded solution to an execution batch

    The hand-off between the resolver and the execution service: funding a
    fixed market solution ([src/open_trader/prediction_executable_cost.py]),
    the facts a partial-fill proof is bound to, and the batch
    [NLegExecutionService.enter] creates
    ([src/open_trader/prediction_n_leg_execution.py]). *)

From S2P Require Import Prelude PyValue NLeg NLegForms NLegValidate Oracle PartialFill FillProof Verified Quotes Receipts BatchStore Repair.
Local Open Scope Z_scope.

(** ** Solutions *)

Record ExecutionSolution := {
  xs_market_solution_fingerprint : string;
  xs_account_snapshot_fingerprint : string;
  xs_quantities : list ActionQuantity;
  xs_capital_use_units : Z;
  xs_execution_legs : list ExecutionLegEvidence;
  xs_order_ready : bool;
  xs_reason : string;
  xs_fingerprint : string;
}.

#[export] Instance ExecutionSolution_eq_dec : EqDecision ExecutionSolution.
Proof. solve_decision. Defined.

(** The amounts and the release are those of the verified payout proof. *)
Record MarketSolution := {
  ms_component_problem : ArbitrageProblem;
  ms_component_usd_units_per_dollar : Z;
  ms_component_bindings : list BookBinding;
  ms_problem : ArbitrageProblem;
  ms_quantities : list ActionQuantity;
  ms_bounded_cost_units : option Z;
  ms_bounded_payout_units : option Z;
  ms_guaranteed_profit_units : option Z;
  ms_capital_release_at : option datetime;
  ms_global_search_closed : bool;
  ms_relation_fingerprint : string;
  ms_economic_quote_fingerprint : string;
  ms_verification_fingerprint : string;
  ms_candidate_evidence : CandidateEvidence;
  ms_verification_result : VerificationResult;
  ms_quotes : list CanonicalQuoteEvidence;
  ms_execution_legs : list ExecutionLegEvidence;
  ms_fingerprint : string;
}.

(** [candidate_evidence.proof_input.request.budget] *)
Definition ms_budget (m : MarketSolution) : OracleBudget :=
  rq_budget (pi_request (cv_proof_input (ms_candidate_evidence m))).

Inductive ResolutionStatus :=
  | RESOLUTION_UNKNOWN | RESOLUTION_NO_QUALIFIED_OPPORTUNITY | EXECUTION_SOLUTION | INSUFFICIENT_FUNDS
  | PER_TRADE_CAP_EXCEEDED | UNSETTLED_CAP_EXCEEDED | ACCOUNT_STATE_UNKNOWN.

#[export] Instance ResolutionStatus_eq_dec : EqDecision ResolutionStatus.
Proof. solve_decision. Defined.

Record ResolutionResult := {
  rr_status : ResolutionStatus;
  rr_failure_reason : option string;
  rr_market_solution : option MarketSolution;
  rr_execution_solution : option ExecutionSolution;
}.

Definition execution_leg_json (l : ExecutionLegEvidence) : json := JObj
  [ ("action_id", JStr (xl_action_id l)); ("venue_id", JStr (xl_venue_id l)); ("account_id", JStr (xl_account_id l));
    ("chain_id", JStr (xl_chain_id l)); ("native_id", JStr (xl_native_id l)); ("side", JStr (xl_side l));
    ("quantity_lots", JInt (xl_quantity_lots l)); ("protected_price_units", JInt (xl_protected_price_units l));
    ("price_units_per_quote_unit", JInt (xl_price_units_per_quote_unit l)); ("max_fee_units", JInt (xl_max_fee_units l));
    ("max_cost_units", JInt (xl_max_cost_units l)); ("settlement_asset_id", JStr (xl_settlement_asset_id l));
    ("valuation_unit_id", JStr (xl_valuation_unit_id l)); ("source_fingerprint", JStr (xl_source_fingerprint l)) ].

(** [canonical_payload(solution)] sorts the quantities by action. *)
Definition execution_solution_json (s : ExecutionSolution) : json := JObj
  [ ("market_solution_fingerprint", JStr (xs_market_solution_fingerprint s));
    ("account_snapshot_fingerprint", JStr (xs_account_snapshot_fingerprint s));
    ("quantities", JArr (quantity_json <$> sort_on aq_action_id (xs_quantities s)));
    ("capital_use_units", JInt (xs_capital_use_units s));
    ("execution_legs", JArr (execution_leg_json <$> xs_execution_legs s)); ("order_ready", JBool (xs_order_ready s));
    ("reason", JStr (xs_reason s)); ("fingerprint", JStr (xs_fingerprint s)) ].

Definition PARTIAL_FILL_PROOF_REQUIRED := "PARTIAL_FILL_PROOF_REQUIRED".

Section entry.
Context `{Sha256}.

Definition solution_fingerprint (market account : string) (quantities : list ActionQuantity) (capital_use : Z)
    (legs : list ExecutionLegEvidence) : string :=
  fingerprint_json (JObj
    [ ("market", JStr market); ("account", JStr account); ("quantities", JArr (quantity_json <$> quantities));
      ("capital_use_units", JInt capital_use); ("execution_legs", JArr (execution_leg_json <$> legs)) ]).

(** ** [_fund_fixed_solution] *)

(** The market solution is kept with the reason it was not funded. *)
Definition failed (market : MarketSolution) (status : ResolutionStatus) (reason : string) : ResolutionResult :=
  {| rr_status := status; rr_failure_reason := Some reason; rr_market_solution := Some market;
     rr_execution_solution := None |}.

(** The account debited by one quantity, or [None] for an unknown action. *)
Definition debit_of (p : ArbitrageProblem) (q : ActionQuantity) : res (option (account_key * Z)) :=
  match index_by ca_action_id (pb_actions p) !! aq_action_id q with
  | None => Ok None
  | Some a =>
      debit ← cost_upper_bound p [q];
      Ok (Some ((ca_venue_id a, ca_account_id a, ca_settlement_asset_id a), debit))
  end.

(** The loop stops at the first unknown action. *)
Fixpoint debits_of (p : ArbitrageProblem) (qs : list ActionQuantity) : res (option (list (account_key * Z))) :=
  match qs with
  | [] => Ok (Some [])
  | q :: qs =>
      d ← debit_of p q;
      match d with
      | None => Ok None
      | Some d => ds ← debits_of p qs; Ok (match ds with Some ds => Some (d :: ds) | None => None end)
      end
  end.

Definition balance_for (account : AccountSnapshot) (k : account_key) : option AccountBalance :=
  last (filter (λ x, ab_key x = k) (as_balances account)).

Definition fund_fixed_solution (market : MarketSolution) (account : option AccountSnapshot) (now : datetime)
  : res ResolutionResult :=
  match account with
  | None => Ok (failed market ACCOUNT_STATE_UNKNOWN "ACCOUNT_STATE_UNKNOWN")
  | Some account =>
      if negb (valid_account_snapshot account now) then Ok (failed market ACCOUNT_STATE_UNKNOWN "ACCOUNT_STATE_UNKNOWN")
      else
        ds ← debits_of (ms_problem market) (ms_quantities market);
        match ds with
        | None => Ok (failed market RESOLUTION_UNKNOWN "MARKET_SOLUTION_INVALID")
        | Some ds =>
            let debits := map_to_list (totals ds) in
            let capital_use := sumZ (snd <$> debits) in
            if negb (forallb (λ d, negb (is_none (balance_for account d.1))) debits)
            then Ok (failed market ACCOUNT_STATE_UNKNOWN "ACCOUNT_STATE_UNKNOWN")
            else if negb (forallb (λ d, match balance_for account d.1 with
                                        | Some b => (d.2 <=? ab_available_units b) && (d.2 <=? ab_allowance_units b)
                                        | None => false end) debits)
            then Ok (failed market INSUFFICIENT_FUNDS "INSUFFICIENT_FUNDS")
            else if as_max_per_trade_cost_units account <? capital_use
            then Ok (failed market PER_TRADE_CAP_EXCEEDED "PER_TRADE_CAP_EXCEEDED")
            else if as_max_total_unsettled_capital_units account <? as_unsettled_capital_units account + capital_use
            then Ok (failed market UNSETTLED_CAP_EXCEEDED "UNSETTLED_CAP_EXCEEDED")
            else
              let account_fp := fingerprint_json (snapshot_json account) in
              Ok {| rr_status := EXECUTION_SOLUTION; rr_failure_reason := None; rr_market_solution := Some market;
                    rr_execution_solution := Some {|
                      xs_market_solution_fingerprint := ms_fingerprint market;
                      xs_account_snapshot_fingerprint := account_fp; xs_quantities := ms_quantities market;
                      xs_capital_use_units := capital_use; xs_execution_legs := ms_execution_legs market;
                      xs_order_ready := false; xs_reason := PARTIAL_FILL_PROOF_REQUIRED;
                      xs_fingerprint := solution_fingerprint (ms_fingerprint market) account_fp (ms_quantities market)
                                          capital_use (ms_execution_legs market) |} |}
        end
  end.

(** [execution_solution_from_payload] on a decoded payload *)
Definition check_execution_solution (market : MarketSolution) (account : AccountSnapshot) (now : datetime)
    (s : ExecutionSolution) : res unit :=
  let mismatch := ValueError "execution solution partial-fill or fingerprint mismatch" in
  let source := ValueError "execution solution source mismatch" in
  require (negb (xs_order_ready s)) mismatch;;
  require (xs_reason s =? PARTIAL_FILL_PROOF_REQUIRED)%string mismatch;;
  require (xs_fingerprint s =? solution_fingerprint (xs_market_solution_fingerprint s) (xs_account_snapshot_fingerprint s)
             (xs_quantities s) (xs_capital_use_units s) (xs_execution_legs s))%string mismatch;;
  require (bool_decide (sort_on aq_action_id (xs_quantities s) = xs_quantities s)) mismatch;;
  require (bool_decide (NoDup (aq_action_id <$> xs_quantities s))) mismatch;;
  require (bool_decide (xl_action_id <$> xs_execution_legs s = aq_action_id <$> xs_quantities s)) mismatch;;
  funded ← fund_fixed_solution market (Some account) now;
  require (bool_decide (rr_status funded = EXECUTION_SOLUTION) &&
           bool_decide (rr_execution_solution funded = Some s)) source;;
  require (xs_market_solution_fingerprint s =? ms_fingerprint market)%string source;;
  require (xs_account_snapshot_fingerprint s =? fingerprint_json (snapshot_json account))%string source;;
  require (xs_capital_use_units s =? sumZ (xl_max_cost_units <$> xs_execution_legs s)) source.

(** ** [execution_solution_binding] *)

Record SolutionBinding := {
  sb_execution_solution_fingerprint : string;
  sb_execution_solution_payload_fingerprint : string;
  sb_model_fingerprint : string;
  sb_quote_fingerprint : string;
  sb_cost_fingerprint : string;
  sb_order_semantics_fingerprint : string;
}.

Definition leg_semantics (l : ExecutionLegEvidence) : string * string * string * string :=
  let order_type := match default_order_type (xl_venue_id l) with Some "" | None => "UNKNOWN" | Some t => t end in
  (xl_action_id l, xl_venue_id l, order_type, semantics_value (order_semantics_lookup (xl_venue_id l) order_type)).

Definition execution_solution_binding (s : ExecutionSolution) : res SolutionBinding :=
  require (negb (xs_order_ready s) && (xs_reason s =? PARTIAL_FILL_PROOF_REQUIRED)%string)
    (ValueError "execution solution is not a no-submit partial-fill handoff");;
  require (xs_fingerprint s =? solution_fingerprint (xs_market_solution_fingerprint s) (xs_account_snapshot_fingerprint s)
             (xs_quantities s) (xs_capital_use_units s) (xs_execution_legs s))%string
    (ValueError "execution solution fingerprint mismatch");;
  Ok {| sb_execution_solution_fingerprint := xs_fingerprint s;
        sb_execution_solution_payload_fingerprint := fingerprint_json (execution_solution_json s);
        sb_model_fingerprint := xs_market_solution_fingerprint s;
        sb_quote_fingerprint := fingerprint_json (JObj [("sources", json_strings (xl_source_fingerprint <$> xs_execution_legs s))]);
        sb_cost_fingerprint := fingerprint_json (JObj
          [ ("capital_use_units", JInt (xs_capital_use_units s));
            ("legs", JArr ((λ l, JArr [JStr (xl_action_id l); JInt (xl_max_cost_units l); JInt (xl_max_fee_units l)])
                             <$> xs_execution_legs s)) ]);
        sb_order_semantics_fingerprint := order_semantics_fingerprint_for (leg_semantics <$> xs_execution_legs s) |}.

(** [_proof_is_bound_status] *)
Definition proof_is_bound_status (proof : PartialFillProofRecord) (s : ExecutionSolution) (status : string) : bool :=
  match execution_solution_binding s with
  | Err _ => false
  | Ok b =>
      (pr_status proof =? status)%string && (pr_verifier_status proof =? VERIFIER_QUALIFIED)%string &&
      (pr_solver_termination proof =? TERMINATION_CLOSED)%string &&
      (pr_execution_solution_fingerprint proof =? sb_execution_solution_fingerprint b)%string &&
      (pr_execution_solution_payload_fingerprint proof =? sb_execution_solution_payload_fingerprint b)%string &&
      (pr_model_fingerprint proof =? sb_model_fingerprint b)%string &&
      (pr_quote_fingerprint proof =? sb_quote_fingerprint b)%string &&
      (pr_cost_fingerprint proof =? sb_cost_fingerprint b)%string &&
      (pr_order_semantics_fingerprint proof =? sb_order_semantics_fingerprint b)%string
  end.

(** ** The batch of an entry *)

Definition entry_leg (execution_batch_id : string) (l : ExecutionLegEvidence) : BatchLeg := {|
  bl_action_id := xl_action_id l; bl_client_order_id := execution_batch_id +:+ ":" +:+ xl_action_id l;
  bl_venue_id := xl_venue_id l; bl_account_id := xl_account_id l; bl_asset_id := xl_native_id l;
  bl_settlement_asset_id := xl_settlement_asset_id l; bl_side := xl_side l; bl_submitted_quantity := xl_quantity_lots l;
  bl_max_cost_units := xl_max_cost_units l; bl_max_fee_units := xl_max_fee_units l; bl_receipt := None |}.

Definition entry_row (e : account_key * Z) : ReservationRow :=
  {| rv_key := e.1; rv_original_units := e.2; rv_remaining_units := e.2; rv_holding_units := 0 |}.

Record EntryIds := {
  ei_opportunity_episode_id : string;
  ei_episode_lineage_id : string;
  ei_execution_batch_id : string;
}.

Definition entry_fingerprint (ids : EntryIds) (s : ExecutionSolution) (proof : PartialFillProofRecord)
    (mode cap_config_version : string) : string :=
  fingerprint_json (JObj
    [ ("opportunity_episode_id", JStr (ei_opportunity_episode_id ids));
      ("episode_lineage_id", JStr (ei_episode_lineage_id ids));
      ("execution_batch_id", JStr (ei_execution_batch_id ids)); ("execution_solution", JStr (xs_fingerprint s));
      ("proof", JStr (pr_fingerprint proof)); ("mode", JStr mode); ("cap_config_version", JStr cap_config_version) ]).

(** The payload of [enter], once the identifiers are checked and the solution is
    decoded; the prior unsettled capital is written by the store. *)
Definition enter_payload (ids : EntryIds) (market : MarketSolution) (s : ExecutionSolution)
    (proof : PartialFillProofRecord) (mode cap_config_version : string) : res Batch :=
  (* the status is bound and the caps are the configured ones, evaluated from left to right *)
  let capped status :=
    if proof_is_bound_status proof s status
    then check_text ("cap_config_version", cap_config_version);; Ok (pr_cap_config_version proof =? cap_config_version)%string
    else Ok false in
  unsafe ← capped PARTIAL_FILL_UNSAFE;
  require (negb unsafe) (ValueError "PARTIAL_FILL_UNSAFE");;
  bound ← capped PARTIAL_FILL_SAFE;
  require bound (ValueError "PARTIAL_FILL_PROOF_REQUIRED");;
  require (pr_solver_upper_bound proof <=? pr_max_partial_fill_loss proof) (ValueError "PARTIAL_FILL_LOSS_CAP_EXCEEDED");;
  let legs := entry_leg (ei_execution_batch_id ids) <$> xs_execution_legs s in
  require (negb (Nat.eqb (length legs) 0) && bool_decide (NoDup (bl_client_order_id <$> legs)))
    (ValueError "execution solution has invalid legs");;
  require (forallb is_utc (problem_datetimes (ms_problem market))) not_canonical;;
  binding ← execution_solution_binding s;
  Ok {| ba_execution_batch_id := ei_execution_batch_id ids;
        ba_entry := {|
          en_opportunity_episode_id := ei_opportunity_episode_id ids; en_episode_lineage_id := ei_episode_lineage_id ids;
          en_mode := mode; en_execution_solution_fingerprint := xs_fingerprint s;
          en_model_fingerprint := xs_market_solution_fingerprint s; en_quote_fingerprint := sb_quote_fingerprint binding;
          en_account_fingerprint := xs_account_snapshot_fingerprint s; en_partial_fill_proof := proof;
          en_max_partial_fill_loss := pr_max_partial_fill_loss proof;
          en_cap_config_version := pr_cap_config_version proof; en_reservation_units := xs_capital_use_units s;
          en_entry_fingerprint := entry_fingerprint ids s proof mode cap_config_version |};
        ba_state := "ACTIVE"; ba_frozen_problem := ms_problem market; ba_frozen_budget := ms_budget market;
        ba_max_auto_repair_loss := pr_max_auto_repair_loss proof;
        ba_reservation_version := ei_execution_batch_id ids +:+ ":v1"; ba_prior_unsettled_capital_units := 0;
        ba_total_unsettled_capital_units := xs_capital_use_units s;
        ba_reservations := entry_row <$> sorted_totals ((λ leg, (leg_key leg, bl_max_cost_units leg)) <$> legs);
        ba_legs := legs; ba_receipts := ∅; ba_confirmed_holdings := []; ba_receipt_conflicts := [];
        ba_unresolved_conflicts := []; ba_conflict_exposure := ∅; ba_capital_exposure_unknown := false;
        ba_terminal_ledger := ∅; ba_incident := None; ba_repair_plan := None; ba_execution_controls := [];
        ba_reconciliation := None |}.
End entry.
