(* ===== verification/Resolve.v ===== *)
(** * Resolving a component

    [resolve_component] of [src/open_trader/prediction_executable_cost.py]:
    price the component from its books, reuse a prior market solution whose
    every binding still recomputes, or solve and verify, then freeze the market
    solution and fund it.  With it the codecs of market and execution
    solutions. *)

From S2P Require Import Prelude PyValue NLeg NLegForms NLegValidate IsoFormat Decode Decimal Oracle Components LinearModel FillProof Generation Evidence Verified Quotes Repair Entry.
Local Open Scope Z_scope.

(** ** Equality of decoded values *)

#[export] Instance CandidateAction_eq_dec : EqDecision CandidateAction.
Proof. solve_decision. Defined.
#[export] Instance TerminalAtom_eq_dec : EqDecision TerminalAtom.
Proof. solve_decision. Defined.
#[export] Instance TerminalStateSet_eq_dec : EqDecision TerminalStateSet.
Proof. solve_decision. Defined.
#[export] Instance RelationConstraint_eq_dec : EqDecision RelationConstraint.
Proof. solve_decision. Defined.
#[export] Instance ForbiddenAtomCombination_eq_dec : EqDecision ForbiddenAtomCombination.
Proof. solve_decision. Defined.
#[export] Instance ConstraintModel_eq_dec : EqDecision ConstraintModel.
Proof. solve_decision. Defined.
#[export] Instance QualificationConstraint_eq_dec : EqDecision QualificationConstraint.
Proof. solve_decision. Defined.
#[export] Instance ArbitrageProblem_eq_dec : EqDecision ArbitrageProblem.
Proof. solve_decision. Defined.

(** [==] on canonical payloads, whose fields come in a fixed order. *)
Fixpoint json_eqb (a b : json) {struct a} : bool :=
  match a, b with
  | JNull, JNull => true
  | JBool x, JBool y => Bool.eqb x y
  | JInt x, JInt y => x =? y
  | JStr x, JStr y => (x =? y)%string
  | JArr l, JArr k =>
      (fix go l k := match l, k with
                     | [], [] => true
                     | x :: l, y :: k => json_eqb x y && go l k
                     | _, _ => false
                     end) l k
  | JObj l, JObj k =>
      (fix go l k := match l, k with
                     | [], [] => true
                     | x :: l, y :: k => (x.1 =? y.1)%string && json_eqb x.2 y.2 && go l k
                     | _, _ => false
                     end) l k
  | _, _ => false
  end.

(** ** Decoding *)

Definition exact_object (p : json) (keys : list string) : res (list (string * json)) :=
  reworded "unexpected fields" (object_of p "" keys).

(** [_array], [_int], [_text], [_nonnegative_int], [_bool], [_fingerprint] *)
Definition cost_array (p : json) : res (list json) :=
  match p with JArr l => Ok l | _ => Err (ValueError "must be an array") end.
Definition cost_int (p : json) : res Z :=
  let wrong := ValueError "must be a signed int64 integer" in
  match p with JInt z => require (in_int64 z) wrong;; Ok z | _ => Err wrong end.
Definition cost_text (p : json) : res string :=
  match p with JStr s => require (negb (s =? "")%string) (ValueError "must be non-empty text");; Ok s
  | _ => Err (ValueError "must be non-empty text") end.
Definition cost_nonnegative_int (p : json) : res Z :=
  z ← cost_int p; require (0 <=? z) (ValueError "must be non-negative");; Ok z.
Definition cost_bool (p : json) : res bool :=
  match p with JBool b => Ok b | _ => Err (ValueError "must be a boolean") end.
Definition cost_fingerprint (p : json) : res string :=
  match p with JStr s => require (is_fingerprint s) (ValueError "must be a SHA-256 fingerprint");; Ok s
  | _ => Err (ValueError "must be a SHA-256 fingerprint") end.

(** [_datetime] *)
Definition cost_datetime (p : json) : res datetime :=
  let wrong := ValueError "must be an RFC3339 UTC datetime" in
  match p with
  | JStr s =>
      require (ends_with_z s) wrong;;
      decoded ← of_option wrong (fromisoformat (without_last s +:+ "+00:00"));
      require (is_utc decoded) (ValueError "must be UTC");;
      Ok decoded
  | _ => Err wrong
  end.

Definition cost_array_with {A} (decode : json → res A) (p : json) : res (list A) :=
  items ← cost_array p; mapM decode items.

(** [_quantity_from_payload] *)
Definition cost_quantity (p : json) : res ActionQuantity :=
  v ← exact_object p ["action_id"; "quantity_lots"];
  action ← cost_text (get v "action_id");
  lots ← cost_nonnegative_int (get v "quantity_lots");
  Ok (AQ action lots).

(** [_execution_leg_from_payload] *)
Definition execution_leg_from_payload (p : json) : res ExecutionLegEvidence :=
  v ← exact_object p
        ["action_id"; "venue_id"; "account_id"; "chain_id"; "native_id"; "side"; "quantity_lots"; "protected_price_units";
         "price_units_per_quote_unit"; "max_fee_units"; "max_cost_units"; "settlement_asset_id"; "valuation_unit_id";
         "source_fingerprint"];
  side ← cost_text (get v "side");
  require (in_list side ["BUY_YES"; "BUY_NO"]) (ValueError "execution leg must buy a canonical side");;
  action ← cost_text (get v "action_id");
  venue ← cost_text (get v "venue_id");
  account ← cost_text (get v "account_id");
  chain ← cost_text (get v "chain_id");
  native ← cost_text (get v "native_id");
  lots ← cost_nonnegative_int (get v "quantity_lots");
  protected ← cost_nonnegative_int (get v "protected_price_units");
  units ← cost_nonnegative_int (get v "price_units_per_quote_unit");
  fee ← cost_nonnegative_int (get v "max_fee_units");
  cost ← cost_nonnegative_int (get v "max_cost_units");
  asset ← cost_text (get v "settlement_asset_id");
  unit ← cost_text (get v "valuation_unit_id");
  source ← cost_fingerprint (get v "source_fingerprint");
  Ok {| xl_action_id := action; xl_venue_id := venue; xl_account_id := account; xl_chain_id := chain;
        xl_native_id := native; xl_side := side; xl_quantity_lots := lots; xl_protected_price_units := protected;
        xl_price_units_per_quote_unit := units; xl_max_fee_units := fee; xl_max_cost_units := cost;
        xl_settlement_asset_id := asset; xl_valuation_unit_id := unit; xl_source_fingerprint := source |}.

(** [if item["market_id"]] *)
Definition is_falsy (p : json) : bool :=
  match p with
  | JNull | JBool false | JArr [] | JObj [] => true
  | JInt z => z =? 0
  | JStr s => (s =? "")%string
  | _ => false
  end.

(** [_binding_from_payload] *)
Definition binding_from_payload (p : json) : res BookBinding :=
  v ← exact_object p
        ["action_id"; "venue_id"; "native_id"; "book_kind"; "fee_rule_id"; "fee_ppm"; "tick_units"; "haircut_ppm";
         "price_units_per_quote_unit"; "market_id"];
  action ← cost_text (get v "action_id");
  venue ← cost_text (get v "venue_id");
  native ← cost_text (get v "native_id");
  kind ← cost_text (get v "book_kind");
  rule ← cost_text (get v "fee_rule_id");
  fee ← cost_nonnegative_int (get v "fee_ppm");
  tick ← cost_nonnegative_int (get v "tick_units");
  haircut ← cost_nonnegative_int (get v "haircut_ppm");
  units ← cost_nonnegative_int (get v "price_units_per_quote_unit");
  market ← (if is_falsy (get v "market_id") then Ok "" else cost_text (get v "market_id"));
  book_binding {| bb_action_id := action; bb_venue_id := venue; bb_native_id := native; bb_book_kind := kind;
                  bb_fee_rule_id := rule; bb_fee_ppm := fee; bb_tick_units := tick; bb_haircut_ppm := haircut;
                  bb_price_units_per_quote_unit := units; bb_market_id := market |}.

Definition quote_level_from_payload (p : json) : res QuoteLevelEvidence :=
  v ← exact_object p ["first_lot"; "last_lot"; "protected_price_units"; "max_fee_per_lot_units"; "max_cost_per_lot_units"];
  first ← cost_nonnegative_int (get v "first_lot");
  last ← cost_nonnegative_int (get v "last_lot");
  protected ← cost_nonnegative_int (get v "protected_price_units");
  fee ← cost_nonnegative_int (get v "max_fee_per_lot_units");
  cost ← cost_nonnegative_int (get v "max_cost_per_lot_units");
  require ((0 <? first) && (first <=? last)) (ValueError "invalid quote level");;
  Ok {| ql_first_lot := first; ql_last_lot := last; ql_protected_price_units := protected;
        ql_max_fee_per_lot_units := fee; ql_max_cost_per_lot_units := cost |}.

(** [_quote_from_payload] *)
Definition quote_from_payload (p : json) : res CanonicalQuoteEvidence :=
  v ← exact_object p
        ["action_id"; "venue_id"; "account_id"; "chain_id"; "native_id"; "book_kind"; "binding"; "source_fingerprint";
         "economic_fingerprint"; "levels"];
  levels ← cost_array_with quote_level_from_payload (get v "levels");
  action ← cost_text (get v "action_id");
  venue ← cost_text (get v "venue_id");
  account ← cost_text (get v "account_id");
  chain ← cost_text (get v "chain_id");
  native ← cost_text (get v "native_id");
  kind ← cost_text (get v "book_kind");
  binding ← binding_from_payload (get v "binding");
  source ← cost_fingerprint (get v "source_fingerprint");
  economic ← cost_fingerprint (get v "economic_fingerprint");
  require ((bb_action_id binding =? action)%string && (bb_venue_id binding =? venue)%string &&
           (bb_native_id binding =? native)%string && (bb_book_kind binding =? kind)%string)
    (ValueError "quote binding mismatch");;
  Ok {| cq_action_id := action; cq_venue_id := venue; cq_account_id := account; cq_chain_id := chain;
        cq_native_id := native; cq_book_kind := kind; cq_binding := binding; cq_source_fingerprint := source;
        cq_economic_fingerprint := economic; cq_levels := levels |}.

(** ** Market solutions *)

Section resolve.
Context `{Sha256}.

Definition json_list {A} (f : A → json) (l : list A) : json := JArr (f <$> l).

(** What the fingerprint of a market solution covers; the quantities stay in
    their order here, and are sorted in the payload. *)
Definition market_values (m : MarketSolution) (quantities : list ActionQuantity) : list (string * json) :=
  [ ("bounded_cost_units", jopt JInt (ms_bounded_cost_units m));
    ("bounded_payout_units", jopt JInt (ms_bounded_payout_units m));
    ("guaranteed_profit_units", jopt JInt (ms_guaranteed_profit_units m));
    ("capital_release_at", jopt json_datetime (ms_capital_release_at m));
    ("global_search_closed", JBool (ms_global_search_closed m));
    ("component_problem", problem_json (ms_component_problem m));
    ("component_usd_units_per_dollar", JInt (ms_component_usd_units_per_dollar m));
    ("component_bindings", json_list binding_json (ms_component_bindings m));
    ("relation_fingerprint", JStr (ms_relation_fingerprint m));
    ("economic_quote_fingerprint", JStr (ms_economic_quote_fingerprint m));
    ("verification_fingerprint", JStr (ms_verification_fingerprint m));
    ("candidate_evidence", candidate_evidence_json (ms_candidate_evidence m));
    ("verification_result", verification_json (ms_verification_result m));
    ("quotes", json_list canonical_quote_json (ms_quotes m)); ("execution_legs", json_list execution_leg_json (ms_execution_legs m));
    ("quantities", json_list quantity_json quantities) ].

Definition market_datetimes (m : MarketSolution) : list datetime :=
  option_list (ms_capital_release_at m) ++ problem_datetimes (ms_component_problem m) ++
  candidate_datetimes (ms_candidate_evidence m) ++ verification_datetimes (ms_verification_result m).

Definition market_fingerprint (m : MarketSolution) : res string :=
  values ← canonical (market_datetimes m) (JObj (market_values m (ms_quantities m))); Ok (fingerprint_json values).

(** [canonical_payload(market_solution)] *)
Definition market_payload (m : MarketSolution) : res json :=
  canonical (problem_datetimes (ms_problem m) ++ market_datetimes m)
    (JObj (market_values m (sort_on aq_action_id (ms_quantities m)) ++
           [("problem", problem_json (ms_problem m)); ("fingerprint", JStr (ms_fingerprint m))])).

Definition set_market_fingerprint (m : MarketSolution) (fp : string) : MarketSolution := {|
  ms_component_problem := ms_component_problem m;
  ms_component_usd_units_per_dollar := ms_component_usd_units_per_dollar m;
  ms_component_bindings := ms_component_bindings m; ms_problem := ms_problem m; ms_quantities := ms_quantities m;
  ms_bounded_cost_units := ms_bounded_cost_units m; ms_bounded_payout_units := ms_bounded_payout_units m;
  ms_guaranteed_profit_units := ms_guaranteed_profit_units m; ms_capital_release_at := ms_capital_release_at m;
  ms_global_search_closed := ms_global_search_closed m; ms_relation_fingerprint := ms_relation_fingerprint m;
  ms_economic_quote_fingerprint := ms_economic_quote_fingerprint m;
  ms_verification_fingerprint := ms_verification_fingerprint m; ms_candidate_evidence := ms_candidate_evidence m;
  ms_verification_result := ms_verification_result m; ms_quotes := ms_quotes m;
  ms_execution_legs := ms_execution_legs m; ms_fingerprint := fp |}.

Definition proof_fingerprint (p : PayoutProof) : res string :=
  payload ← canonical (proof_datetimes p) (payout_proof_json p); Ok (fingerprint_json payload).

(** [_market_solution] *)
Definition market_solution (c : VerifiedComponent) (p : ArbitrageProblem) (solution : PortfolioSolution)
    (evidence : CandidateEvidence) (verification : VerificationResult) (economic_quote : string)
    (quotes : list CanonicalQuoteEvidence) : res MarketSolution :=
  let proof := ps_payout_proof solution in
  verification_fp ← proof_fingerprint proof;
  legs ← execution_legs p (ps_quantities solution) quotes;
  let m := {|
    ms_component_problem := vc_problem c; ms_component_usd_units_per_dollar := vc_usd_units_per_dollar c;
    ms_component_bindings := vc_book_bindings c; ms_problem := p; ms_quantities := ps_quantities solution;
    ms_bounded_cost_units := pp_cost_upper_bound_units proof; ms_bounded_payout_units := pp_payout_lower_bound_units proof;
    ms_guaranteed_profit_units := pp_guaranteed_profit_units proof;
    ms_capital_release_at := pp_conservative_capital_release_at proof;
    ms_global_search_closed := se_global_search_closed (cv_solver_evidence evidence);
    ms_relation_fingerprint := vc_relation_fingerprint c; ms_economic_quote_fingerprint := economic_quote;
    ms_verification_fingerprint := verification_fp; ms_candidate_evidence := evidence;
    ms_verification_result := verification; ms_quotes := quotes; ms_execution_legs := legs; ms_fingerprint := "" |} in
  fp ← market_fingerprint m;
  Ok (set_market_fingerprint m fp).

(** [_valid_execution_legs] *)
Definition valid_leg (p : ArbitrageProblem) (quotes : list CanonicalQuoteEvidence) (leg : ExecutionLegEvidence)
    (q : ActionQuantity) : res bool :=
  match index_by ca_action_id (pb_actions p) !! aq_action_id q with
  | None => Ok false
  | Some a =>
      if negb ((xl_venue_id leg =? ca_venue_id a)%string && (xl_account_id leg =? ca_account_id a)%string &&
               (xl_chain_id leg =? ca_chain_id a)%string && (xl_side leg =? side_value (ca_side a))%string &&
               (xl_quantity_lots leg =? aq_quantity_lots q) &&
               (xl_settlement_asset_id leg =? ca_settlement_asset_id a)%string &&
               (xl_valuation_unit_id leg =? ca_valuation_unit_id a)%string) then Ok false
      else
        cost ← cost_upper_bound p [q];
        if negb (xl_max_cost_units leg =? cost) then Ok false
        else legs ← execution_legs p [q] quotes; Ok (bool_decide (legs = [leg]))
  end.

Fixpoint valid_legs (p : ArbitrageProblem) (quotes : list CanonicalQuoteEvidence) (pairs : list (ExecutionLegEvidence * ActionQuantity))
  : res bool :=
  match pairs with
  | [] => Ok true
  | (leg, q) :: pairs => ok ← valid_leg p quotes leg q; if ok : bool then valid_legs p quotes pairs else Ok false
  end.

Definition valid_execution_legs (p : ArbitrageProblem) (quantities : list ActionQuantity)
    (quotes : list CanonicalQuoteEvidence) (legs : list ExecutionLegEvidence) : res bool :=
  if bool_decide (xl_action_id <$> legs = aq_action_id <$> quantities) &&
     bool_decide (cq_action_id <$> quotes = ca_action_id <$> pb_actions p)
  then valid_legs p quotes (zip legs quantities) else Ok false.

Definition MARKET_FIELDS : list string :=
  ["component_problem"; "component_usd_units_per_dollar"; "component_bindings"; "problem"; "quantities"; "bounded_cost_units";
   "bounded_payout_units"; "guaranteed_profit_units"; "capital_release_at"; "global_search_closed"; "relation_fingerprint";
   "economic_quote_fingerprint"; "verification_fingerprint"; "fingerprint"; "candidate_evidence"; "verification_result";
   "quotes"; "execution_legs"].

(** The [try] of [market_solution_from_payload]. *)
Definition market_fields (v : list (string * json)) : res MarketSolution :=
  component_problem ← problem_from_payload (get v "component_problem") false;
  usd ← cost_nonnegative_int (get v "component_usd_units_per_dollar");
  bindings ← cost_array_with binding_from_payload (get v "component_bindings");
  relation ← cost_fingerprint (get v "relation_fingerprint");
  component ← verified_component {| vc_problem := component_problem; vc_relation_fingerprint := relation;
                                    vc_usd_units_per_dollar := usd; vc_book_bindings := bindings |};
  problem ← problem_from_payload (get v "problem") false;
  quantities ← cost_array_with cost_quantity (get v "quantities");
  evidence ← candidate_evidence_from_payload (get v "candidate_evidence");
  verification ← verification_result_from_payload (get v "verification_result") (CandidateSource evidence);
  quotes ← cost_array_with quote_from_payload (get v "quotes");
  cost ← cost_nonnegative_int (get v "bounded_cost_units");
  payout ← cost_nonnegative_int (get v "bounded_payout_units");
  profit ← cost_int (get v "guaranteed_profit_units");
  release ← cost_datetime (get v "capital_release_at");
  closed ← cost_bool (get v "global_search_closed");
  economic ← cost_fingerprint (get v "economic_quote_fingerprint");
  verification_fp ← cost_fingerprint (get v "verification_fingerprint");
  legs ← cost_array_with execution_leg_from_payload (get v "execution_legs");
  fp ← cost_fingerprint (get v "fingerprint");
  Ok {| ms_component_problem := vc_problem component; ms_component_usd_units_per_dollar := vc_usd_units_per_dollar component;
        ms_component_bindings := vc_book_bindings component; ms_problem := problem; ms_quantities := quantities;
        ms_bounded_cost_units := Some cost; ms_bounded_payout_units := Some payout; ms_guaranteed_profit_units := Some profit;
        ms_capital_release_at := Some release; ms_global_search_closed := closed; ms_relation_fingerprint := relation;
        ms_economic_quote_fingerprint := economic; ms_verification_fingerprint := verification_fp;
        ms_candidate_evidence := evidence; ms_verification_result := verification; ms_quotes := quotes;
        ms_execution_legs := legs; ms_fingerprint := fp |}.

(** Every retained fact recomputes. *)
Definition market_consistent (m : MarketSolution) : res bool :=
  expected ← market_fingerprint m;
  if negb (ms_fingerprint m =? expected)%string ||
     negb (bool_decide (vr_status (ms_verification_result m) = QUALIFIED_VERIFIED)) then Ok false
  else
    match vr_solution (ms_verification_result m) with
    | None => Ok false
    | Some s =>
        let proof := ps_payout_proof s in
        let evidence := ms_candidate_evidence m in
        if negb (bool_decide (rq_problem (pi_request (cv_proof_input evidence)) = ms_problem m) &&
                 Bool.eqb (se_global_search_closed (cv_solver_evidence evidence)) (ms_global_search_closed m) &&
                 bool_decide (ps_quantities s = ms_quantities m) &&
                 bool_decide (pp_cost_upper_bound_units proof = ms_bounded_cost_units m) &&
                 bool_decide (pp_payout_lower_bound_units proof = ms_bounded_payout_units m) &&
                 bool_decide (pp_guaranteed_profit_units proof = ms_guaranteed_profit_units m) &&
                 bool_decide (pp_conservative_capital_release_at proof = ms_capital_release_at m)) then Ok false
        else
          verification_fp ← proof_fingerprint proof;
          if negb ((ms_verification_fingerprint m =? verification_fp)%string &&
                   bool_decide (sort_on aq_action_id (ms_quantities m) = ms_quantities m) &&
                   bool_decide (NoDup (aq_action_id <$> ms_quantities m))) then Ok false
          else valid_execution_legs (ms_problem m) (ms_quantities m) (ms_quotes m) (ms_execution_legs m)
    end.

(** [except (InvalidOperation, ValueError)] *)
Definition is_book_error (e : exn) : bool := match e with InvalidOperation => true | e => is_value_error e end.

Definition source_mismatch : exn := ValueError "market solution source mismatch".

(** The books still give the quotes, the problem and the legs. *)
Definition market_current (c : VerifiedComponent) (books : list ImmutableBook) (now : datetime) (m : MarketSolution) : res unit :=
  current ← match problem_with_visible_asks c books now with
            | Ok current => Ok current
            | Err e => if is_book_error e then Err (ValueError "market solution source invalid") else Err e
            end;
  match current with
  | None => Err source_mismatch
  | Some (p, economic, quotes) =>
      require ((economic =? ms_economic_quote_fingerprint m)%string && bool_decide (quotes = ms_quotes m)) source_mismatch;;
      current_payload ← canonical (problem_datetimes (semantic_problem p)) (problem_json (semantic_problem p));
      payload ← canonical (problem_datetimes (semantic_problem (ms_problem m))) (problem_json (semantic_problem (ms_problem m)));
      require (json_eqb current_payload payload) source_mismatch;;
      legs ← execution_legs p (ms_quantities m) quotes;
      require (bool_decide (legs = ms_execution_legs m)) source_mismatch
  end.

Definition market_solution_from_payload (p : json) (c : VerifiedComponent) (books : list ImmutableBook) (now : datetime)
  : res MarketSolution :=
  v ← exact_object p MARKET_FIELDS;
  m ← as_value_error "invalid market solution" (market_fields v);
  consistent ← market_consistent m;
  require consistent (ValueError "market solution fingerprint mismatch");;
  market_current c books now m;;
  Ok m.

(** [execution_solution_from_payload] *)
Definition execution_solution_fields (v : list (string * json)) : res ExecutionSolution :=
  market ← cost_fingerprint (get v "market_solution_fingerprint");
  account ← cost_fingerprint (get v "account_snapshot_fingerprint");
  quantities ← cost_array_with cost_quantity (get v "quantities");
  capital ← cost_nonnegative_int (get v "capital_use_units");
  legs ← cost_array_with execution_leg_from_payload (get v "execution_legs");
  ready ← cost_bool (get v "order_ready");
  reason ← cost_text (get v "reason");
  fp ← cost_fingerprint (get v "fingerprint");
  Ok {| xs_market_solution_fingerprint := market; xs_account_snapshot_fingerprint := account; xs_quantities := quantities;
        xs_capital_use_units := capital; xs_execution_legs := legs; xs_order_ready := ready; xs_reason := reason;
        xs_fingerprint := fp |}.

Definition execution_solution_from_payload (p : json) (market : MarketSolution) (account : AccountSnapshot) (now : datetime)
  : res ExecutionSolution :=
  v ← exact_object p ["market_solution_fingerprint"; "account_snapshot_fingerprint"; "quantities"; "capital_use_units";
                      "execution_legs"; "order_ready"; "reason"; "fingerprint"];
  s ← as_value_error "invalid execution solution" (execution_solution_fields v);
  check_execution_solution market account now s;;
  Ok s.

(** ** [resolve_component] *)

Definition unresolved (status : ResolutionStatus) (reason : string) : ResolutionResult :=
  {| rr_status := status; rr_failure_reason := Some reason; rr_market_solution := None; rr_execution_solution := None |}.

(** The prior solution: unusable, out of date ([None]), or decoded. *)
Definition decode_prior (c : VerifiedComponent) (books : list ImmutableBook) (now : datetime) (prior : MarketSolution)
  : res (ResolutionResult + option MarketSolution) :=
  match (payload ← market_payload prior; market_solution_from_payload payload c books now) with
  | Ok m => Ok (inr (Some m))
  | Err e =>
      if negb (is_value_error e) then Err e
      else if (exn_message e =? "market solution source mismatch")%string then Ok (inr None)
      else Ok (inl (unresolved RESOLUTION_UNKNOWN "PRIOR_MARKET_SOLUTION_INVALID"))
  end.

(** A decoded prior solution answers when nothing it depends on has changed. *)
Definition prior_applies (c : VerifiedComponent) (p : ArbitrageProblem) (economic_quote : string)
    (quotes : list CanonicalQuoteEvidence) (prior : MarketSolution) : res bool :=
  if (ms_relation_fingerprint prior =? vc_relation_fingerprint c)%string &&
     (ms_economic_quote_fingerprint prior =? economic_quote)%string && bool_decide (ms_quotes prior = quotes)
  then legs ← execution_legs p (ms_quantities prior) quotes; Ok (bool_decide (ms_execution_legs prior = legs))
  else Ok false.

Definition reuse_prior (c : VerifiedComponent) (books : list ImmutableBook) (account : option AccountSnapshot) (now : datetime)
    (p : ArbitrageProblem) (economic_quote : string) (quotes : list CanonicalQuoteEvidence) (prior : option MarketSolution)
  : res (option ResolutionResult) :=
  match prior with
  | None => Ok None
  | Some prior =>
      decoded ← decode_prior c books now prior;
      match decoded with
      | inl answer => Ok (Some answer)
      | inr None => Ok None
      | inr (Some m) =>
          applies ← prior_applies c p economic_quote quotes m;
          if applies : bool then r ← fund_fixed_solution m account now; Ok (Some r) else Ok None
      end
  end.

(** The proof input of a priced problem. *)
Definition admission_input (p : ArbitrageProblem) (limits : BenchmarkLimits) (budget : OracleBudget) : res ProofInput :=
  quote ← quote_fingerprint p;
  proof_input {|
    pi_schema_version := PROOF_REQUEST_SCHEMA_V1;
    pi_request := {| rq_schema_version := REQUEST_SCHEMA_V1; rq_mode := ADMISSION; rq_problem := p; rq_budget := budget |};
    pi_limits := limits; pi_quote_fingerprint := quote; pi_current_generation := 0; pi_code_version := "issue-51" |}.

(** The solver proposes, the verifier decides. *)
Definition prove (backend : SolverBackend) (i : ProofInput) : res (CandidateEvidence * VerificationResult) :=
  payload ← canonical (input_datetimes i) (proof_input_json i);
  solved ← solve backend payload;
  evidence ← candidate_evidence_from_payload solved;
  payload ← canonical (candidate_datetimes evidence) (candidate_evidence_json evidence);
  verified ← verify payload;
  verification ← verification_result_from_payload verified (CandidateSource evidence);
  Ok (evidence, verification).

Definition solve_and_fund (backend : SolverBackend) (c : VerifiedComponent) (account : option AccountSnapshot)
    (limits : BenchmarkLimits) (budget : OracleBudget) (now : datetime) (p : ArbitrageProblem) (economic_quote : string)
    (quotes : list CanonicalQuoteEvidence) : res ResolutionResult :=
  i ← admission_input p limits budget;
  match prove backend i with
  | Err e => if is_value_or_type_error e then Ok (unresolved RESOLUTION_UNKNOWN "SOLVER_OR_VERIFIER_UNKNOWN") else Err e
  | Ok (evidence, verification) =>
      match vr_status verification, vr_solution verification with
      | QUALIFIED_VERIFIED, Some solution =>
          market ← market_solution c p solution evidence verification economic_quote quotes;
          fund_fixed_solution market account now
      | status, _ =>
          Ok (unresolved (if decide (status = VERIFIED_NO_QUALIFIED_OPPORTUNITY) then RESOLUTION_NO_QUALIFIED_OPPORTUNITY
                          else RESOLUTION_UNKNOWN) (verification_status_value status))
      end
  end.

Definition resolve_component (backend : SolverBackend) (c : VerifiedComponent) (books : list ImmutableBook)
    (account : option AccountSnapshot) (limits : BenchmarkLimits) (budget : OracleBudget) (now : datetime)
    (prior : option MarketSolution) : res ResolutionResult :=
  match problem_with_visible_asks c books now with
  | Err e => if is_book_error e then Ok (unresolved RESOLUTION_UNKNOWN "BOOK_STATE_UNKNOWN") else Err e
  | Ok None => Ok (unresolved RESOLUTION_NO_QUALIFIED_OPPORTUNITY "INSUFFICIENT_VISIBLE_DEPTH")
  | Ok (Some (p, economic_quote, quotes)) =>
      reused ← reuse_prior c books account now p economic_quote quotes prior;
      match reused with
      | Some answer => Ok answer
      | None => solve_and_fund backend c account limits budget now p economic_quote quotes
      end
  end.
End resolve.
