(* ===== verification/Lifecycle.v ===== *)
(** * The life of a batch in the store

    [PredictionArbitrageStore] ([src/open_trader/prediction_arbitrage_store.py]):
    creating the single active batch, acknowledging an incident, resetting the
    breaker and writing the mode contract; and [NLegExecutionService.enter]
    ([src/open_trader/prediction_n_leg_execution.py]), which builds the batch
    and creates it.  [now] is the time the transaction reads, in microseconds. *)

From S2P Require Import Prelude PyValue NLeg NLegForms FillProof Quotes Receipts BatchStore Lineage Repair Entry.
Local Open Scope Z_scope.

Definition set_created (b : Batch) (prior : Z) (lineage : string) : Batch := {|
  ba_execution_batch_id := ba_execution_batch_id b;
  ba_entry := {|
    en_opportunity_episode_id := en_opportunity_episode_id (ba_entry b); en_episode_lineage_id := lineage;
    en_mode := en_mode (ba_entry b); en_execution_solution_fingerprint := en_execution_solution_fingerprint (ba_entry b);
    en_model_fingerprint := en_model_fingerprint (ba_entry b); en_quote_fingerprint := en_quote_fingerprint (ba_entry b);
    en_account_fingerprint := en_account_fingerprint (ba_entry b);
    en_partial_fill_proof := en_partial_fill_proof (ba_entry b);
    en_max_partial_fill_loss := en_max_partial_fill_loss (ba_entry b);
    en_cap_config_version := en_cap_config_version (ba_entry b); en_reservation_units := en_reservation_units (ba_entry b);
    en_entry_fingerprint := en_entry_fingerprint (ba_entry b) |};
  ba_state := ba_state b; ba_frozen_problem := ba_frozen_problem b; ba_frozen_budget := ba_frozen_budget b;
  ba_max_auto_repair_loss := ba_max_auto_repair_loss b; ba_reservation_version := ba_reservation_version b;
  ba_prior_unsettled_capital_units := prior; ba_total_unsettled_capital_units := ba_total_unsettled_capital_units b;
  ba_reservations := ba_reservations b; ba_legs := ba_legs b; ba_receipts := ba_receipts b;
  ba_confirmed_holdings := ba_confirmed_holdings b; ba_receipt_conflicts := ba_receipt_conflicts b;
  ba_unresolved_conflicts := ba_unresolved_conflicts b; ba_conflict_exposure := ba_conflict_exposure b;
  ba_capital_exposure_unknown := ba_capital_exposure_unknown b; ba_terminal_ledger := ba_terminal_ledger b;
  ba_incident := ba_incident b; ba_repair_plan := ba_repair_plan b; ba_execution_controls := ba_execution_controls b;
  ba_reconciliation := ba_reconciliation b |}.

(** [_n_leg_unsettled_cap]: zero means no cap. *)
Definition unsettled_cap (st : Store) : Z :=
  match so_safety_config st with Some c => Z.max 0 (sf_max_total_unsettled_capital_units c) | None => 0 end.

Section lifecycle.
Context `{Sha256}.

(** ** Creating the active batch *)

(** [_admission_version_mismatch]: JSON values are compared through their
    canonical text. *)
Definition json_same (a b : json) : bool := (json_dumps a =? json_dumps b)%string.

Definition json_field (k : string) (fields : list (string * json)) : option json :=
  snd <$> last (filter (λ f, f.1 = k) fields).

Definition caps_fingerprint (st : Store) : json :=
  match so_safety_config st with
  | None => JNull
  | Some c => JStr (fingerprint_json (JObj
      [ ("max_per_trade_cost_units", JInt (sf_max_per_trade_cost_units c));
        ("max_total_unsettled_capital_units", JInt (sf_max_total_unsettled_capital_units c));
        ("max_partial_fill_loss_units", JInt (sf_max_partial_fill_loss_units c));
        ("max_auto_repair_loss_units", JInt (sf_max_auto_repair_loss_units c)) ]))
  end.

Definition scope_of (st : Store) (expected : list (string * json)) : option (string * Z) :=
  match json_field "scope_id" expected with
  | Some (JStr s) => if (s =? "")%string then None else so_scopes st !! s
  | _ => None
  end.

Definition current_versions (st : Store) (b : Batch) (expected : list (string * json)) : list (string * json) :=
  let c := so_control st in
  let scope := scope_of st expected in
  [ ("contract_generation", JInt (ct_contract_generation c));
    ("qualification_policy_version", JInt (ct_qualification_policy_version c));
    ("mode", JStr (ct_mode c)); ("breaker_closed", JBool (negb (ct_breaker_open c)));
    ("enabled_execution_scope_version",
       JArr ((λ s, JObj [("scope_id", JStr s.1); ("scope_version", JInt s.2)]) <$> ct_enabled_scopes c));
    ("execution_solution_fingerprint", JStr (en_execution_solution_fingerprint (ba_entry b)));
    ("account_snapshot_fingerprint", JStr (en_account_fingerprint (ba_entry b)));
    ("capability", jopt (λ s, JStr s.1) scope); ("scope_version", jopt (λ s, JInt s.2) scope);
    ("caps_fingerprint", caps_fingerprint st) ].

Definition admission_version_mismatch (st : Store) (b : Batch) (expected : list (string * json)) : bool :=
  existsb (λ v, match json_field v.1 expected with Some e => negb (json_same e v.2) | None => false end)
    (current_versions st b expected).

(** [n_leg_create_batch] *)
Definition n_leg_create_batch (st : Store) (payload : Batch) (component_id : option string)
    (expected_versions : option (list (string * json))) (now : Z) : res (Store * Batch) :=
  let entry := ba_entry payload in
  let control := so_control st in
  let reservation := ba_total_unsettled_capital_units payload in
  require (negb (ba_execution_batch_id payload =? "")%string && negb (en_opportunity_episode_id entry =? "")%string &&
           negb (en_episode_lineage_id entry =? "")%string && bool_decide (en_mode entry ∈ ["MANUAL"; "AUTO"]) &&
           (0 <=? reservation)) (ValueError "invalid n-leg batch");;
  match so_batches st !! ba_execution_batch_id payload with
  | Some existing =>
      require (en_entry_fingerprint (ba_entry existing) =? en_entry_fingerprint entry)%string
        (ValueError "N_LEG_BATCH_ID_CONFLICT");;
      Ok (st, existing)
  | None =>
      require (negb (so_active_lp st)) (ValueError "N_LEG_ACTIVE_LP_SESSION");;
      require (negb (ct_breaker_open control)) (ValueError "N_LEG_BREAKER_OPEN");;
      require (is_none (ct_active_batch_id control)) (ValueError "N_LEG_ACTIVE_BATCH_EXISTS");;
      '(claim_lineage, reason) ← lineage_lock_decision (so_graph st) (so_episodes st) (so_claims st) component_id
                                   (en_episode_lineage_id entry);
      match reason with Some r => Err (ValueError r) | None => Ok tt end;;
      match claim_lineage with
      | None => require (is_none (so_claims st !! en_episode_lineage_id entry)) (ValueError "N_LEG_LINEAGE_ALREADY_CLAIMED")
      | Some _ => Ok tt
      end;;
      let lineage_id := default (en_episode_lineage_id entry) claim_lineage in
      require (negb (match expected_versions with
                     | Some e => admission_version_mismatch st payload e
                     | None => false end)) (ValueError "N_LEG_ADMISSION_VERSION_STALE");;
      let cap := unsettled_cap st in
      require (negb ((0 <? cap) && (cap <? ct_total_unsettled_capital_units control + reservation)))
        (ValueError "N_LEG_ADMISSION_UNSETTLED_CAP");;
      let stored := persist (set_created payload (ct_total_unsettled_capital_units control) lineage_id) in
      Ok (set_store st (<[ba_execution_batch_id payload := stored]> (so_batches st))
            (set_control control (en_mode entry) (ct_breaker_open control) (ct_breaker_reason control)
               (Some (ba_execution_batch_id payload)) (ct_total_unsettled_capital_units control + reservation))
            (so_transitions st) (so_acknowledgements st) (<[lineage_id := now]> (so_claims st)), stored)
  end.

(** [enter], after the market solution is decoded: the execution solution is
    re-funded, then the batch is built and created. *)
Definition enter (st : Store) (ids : EntryIds) (market : MarketSolution) (account : AccountSnapshot) (source_now : datetime)
    (s : ExecutionSolution) (proof : PartialFillProofRecord) (mode cap_config_version : string)
    (expected_versions : option (list (string * json))) (now : Z) : res (Store * Batch) :=
  mapM check_text
    [ ("opportunity_episode_id", ei_opportunity_episode_id ids); ("episode_lineage_id", ei_episode_lineage_id ids);
      ("execution_batch_id", ei_execution_batch_id ids) ];;
  require (bool_decide (mode ∈ ["MANUAL"; "AUTO"])) (ValueError "new N-leg mode must be MANUAL or AUTO");;
  match check_execution_solution market account source_now s with
  | Err TypeError | Err (ValueError _) => Err (ValueError "EXECUTION_SOLUTION_SOURCE_REQUIRED")
  | Err e => Err e
  | Ok _ =>
      payload ← enter_payload ids market s proof mode cap_config_version;
      n_leg_create_batch st payload None expected_versions now
  end.

(** ** Acknowledging an incident *)

Definition set_acknowledged (b : Batch) (acknowledgement : json) (now : Z) : Batch :=
  let reason := match ba_incident b with Some i => in_reason i | None => "" end in
  set_status b "INCIDENT_ACKNOWLEDGED"
    (Some {| in_reason := reason; in_repair_status := "ACKNOWLEDGED"; in_acknowledgement := Some (acknowledgement, now) |})
    (ba_repair_plan b) (ba_execution_controls b) (ba_total_unsettled_capital_units b).

Definition reserved_units (b : Batch) : Z :=
  sumZ ((λ row, rv_remaining_units row + rv_holding_units row) <$> ba_reservations b).

(** [n_leg_acknowledge_incident] *)
Definition n_leg_acknowledge_incident (st : Store) (execution_batch_id : string) (acknowledgement : list (string * json))
    (now : Z) : res (Store * Batch) :=
  batch ← of_option not_found (so_batches st !! execution_batch_id);
  require (ba_state batch =? "INCIDENT")%string (ValueError "N_LEG_INCIDENT_NOT_ACTIVE");;
  require (negb (Nat.eqb (length (ba_legs batch)) 0)) (ValueError "N_LEG_INCIDENT_UNKNOWABLE");;
  require (all_terminal batch) (ValueError "N_LEG_INCIDENT_UNKNOWN_RECEIPT");;
  require (Nat.eqb (length (ba_unresolved_conflicts batch)) 0) (ValueError "N_LEG_INCIDENT_UNRESOLVED_CONFLICT");;
  require (reserved_units batch =? ba_total_unsettled_capital_units batch) (ValueError "N_LEG_INCIDENT_LEDGER_MISMATCH");;
  let batch := set_acknowledged batch (JObj acknowledgement) now in
  let control := so_control st in
  let active := if bool_decide (ct_active_batch_id control = Some execution_batch_id) then None else ct_active_batch_id control in
  let key := (execution_batch_id, "incident-acknowledge:" +:+ execution_batch_id) in
  let payload := match safe_value (JObj ([("batch", JStr execution_batch_id)] ++ acknowledgement ++
                                         [("acknowledged_at", JStr (iso_micro now))])) with
                 | JObj fields => fields | _ => [] end in
  Ok (set_store st (<[execution_batch_id := persist batch]> (so_batches st))
        (set_control control (ct_mode control) (ct_breaker_open control) (ct_breaker_reason control) active
           (ct_total_unsettled_capital_units control))
        ({[key]} ∪ so_transitions st)
        (if bool_decide (key ∈ so_transitions st) then so_acknowledgements st else so_acknowledgements st ++ [payload])
        (so_claims st), batch).

(** ** Operator switches *)

(** [n_leg_breaker_reset]: the new store and whether the breaker was closed
    by this call. *)
Definition n_leg_breaker_reset (st : Store) : res (Store * bool) :=
  let control := so_control st in
  if negb (ct_breaker_open control) then Ok (st, false)
  else
    payload ← of_option (ValueError "N_LEG_BREAKER_INCIDENT_NOT_ACKNOWLEDGED") (last (so_acknowledgements st));
    require (match json_field "reconciliation" payload with
             | Some (JStr v) => (v =? "fresh_clean")%string | _ => false end)
      (ValueError "N_LEG_BREAKER_RECONCILIATION_REQUIRED");;
    Ok (set_store st (so_batches st)
          (set_control control (ct_mode control) false None (ct_active_batch_id control)
             (ct_total_unsettled_capital_units control))
          (so_transitions st) (so_acknowledgements st) (so_claims st), true).

Record ModeWrite := {
  mw_mode : option string;
  mw_contract_generation : option Z;
  mw_qualification_policy_version : option Z;
  mw_safety_config_version : option Z;
  mw_enabled_scopes : option (list (string * Z));
}.

Definition positive_version (name : string) (v : option Z) : res unit :=
  require (match v with Some n => 1 <=? n | None => true end) (ValueError (name +:+ " must be a positive integer")).

(** [n_leg_mode_control_write] *)
Definition n_leg_mode_control_write (st : Store) (w : ModeWrite) : res Store :=
  let c := so_control st in
  require (match mw_mode w with Some m => bool_decide (m ∈ ["MANUAL"; "AUTO"]) | None => true end)
    (ValueError "n-leg mode must be MANUAL or AUTO");;
  positive_version "contract_generation" (mw_contract_generation w);;
  positive_version "qualification_policy_version" (mw_qualification_policy_version w);;
  positive_version "safety_config_version" (mw_safety_config_version w);;
  require (match mw_enabled_scopes w with
           | Some l => forallb (λ s, negb (s.1 =? "")%string && (1 <=? s.2)) l
           | None => true end) (ValueError "enabled execution scope version entries are invalid");;
  Ok (set_store st (so_batches st)
        {| ct_mode := default (ct_mode c) (mw_mode w); ct_breaker_open := ct_breaker_open c;
           ct_breaker_reason := ct_breaker_reason c; ct_active_batch_id := ct_active_batch_id c;
           ct_total_unsettled_capital_units := ct_total_unsettled_capital_units c;
           ct_contract_generation := default (ct_contract_generation c) (mw_contract_generation w);
           ct_qualification_policy_version := default (ct_qualification_policy_version c) (mw_qualification_policy_version w);
           ct_safety_config_version := default (ct_safety_config_version c) (mw_safety_config_version w);
           ct_enabled_scopes := default (ct_enabled_scopes c) (mw_enabled_scopes w) |}
        (so_transitions st) (so_acknowledgements st) (so_claims st)).
End lifecycle.
