(* ===== verification/Mode.v ===== *)
(** * The mode contract

    [src/open_trader/prediction_n_leg_mode.py] and the tables it writes
    ([src/open_trader/prediction_arbitrage_store.py]): the execution mode, the
    qualification policy, the safety configuration and the execution scopes,
    all versioned.  An operation is a sequence of transactions, so it is a
    computation that keeps the store even when it raises.  Audits and stored
    payloads are JSON without floats. *)

From S2P Require Import Prelude PyValue NLeg NLegForms IsoFormat Decode Decimal FillProof Receipts BatchStore Lifecycle.
Local Open Scope Z_scope.

(** ** Stored JSON *)

(** [_safe_value] without public token ids. *)
Definition dropped_strict (key : string) : bool :=
  let normalized := normalise_field_name key in
  dropped_field key ||
  (normalized =? "token")%string || ends_with "_token" normalized || ends_with "_token_id" normalized ||
  ends_with "_token_ids" normalized || bool_decide (normalized ∈ ["token_id"; "token_ids"]).

Fixpoint safe_strict (j : json) : json :=
  match j with
  | JArr l => JArr (safe_strict <$> l)
  | JObj fields => JObj (filter (λ p, dropped_strict p.1 = false) ((λ p, (p.1, safe_strict p.2)) <$> fields))
  | j => j
  end.

(** [_load_payload(_dump_payload(fields))], as fields *)
Definition stored (fields : list (string * json)) : list (string * json) :=
  match safe_strict (JObj fields) with JObj l => l | _ => [] end.

(** [a == b] in Python: dicts by key, and a boolean equals its integer. *)
Fixpoint py_eq (a b : json) {struct a} : bool :=
  let int_of j := match j with JInt z => Some z | JBool b => Some (Z.b2z b) | _ => None end in
  match a, b with
  | JNull, JNull => true
  | JStr x, JStr y => (x =? y)%string
  | JArr l, JArr k =>
      (fix go l k := match l, k with
                     | [], [] => true
                     | x :: l, y :: k => py_eq x y && go l k
                     | _, _ => false
                     end) l k
  | JObj l, JObj k =>
      Nat.eqb (length l) (length k) &&
      (fix go l := match l with
                   | [] => true
                   | p :: l => match json_field p.1 k with Some y => py_eq p.2 y | None => false end && go l
                   end) l
  | _, _ => match int_of a, int_of b with Some x, Some y => x =? y | _, _ => false end
  end.

(** [{**fields, **more}] *)
Fixpoint dict_set (fields : list (string * json)) (k : string) (v : json) : list (string * json) :=
  match fields with
  | [] => [(k, v)]
  | p :: fields => if (p.1 =? k)%string then (k, v) :: fields else p :: dict_set fields k v
  end.
Definition dict_update (fields more : list (string * json)) : list (string * json) :=
  foldl (λ d p, dict_set d p.1 p.2) fields more.

(** ** Policies and safety configurations *)

Record Policy := {
  po_min_profit_usd : string;
  po_min_net_margin : string;
  po_min_annualized_return : string;
  po_max_capital_release_days : Z;
}.

Record SafetyValues := {
  sv_episode_rearm_gap_seconds : Z;
  sv_max_per_trade_cost_units : Z;
  sv_max_total_unsettled_capital_units : Z;
  sv_max_partial_fill_loss_units : Z;
  sv_max_auto_repair_loss_units : Z;
  sv_max_quote_age_seconds : Z;
  sv_max_cross_leg_skew_seconds : Z;
  sv_max_leg_submit_seconds : Z;
  sv_reconciliation_timeout_seconds : Z;
}.

#[export] Instance Policy_eq_dec : EqDecision Policy.
Proof. solve_decision. Defined.
#[export] Instance SafetyValues_eq_dec : EqDecision SafetyValues.
Proof. solve_decision. Defined.

Definition DEFAULT_QUALIFICATION_POLICY : Policy := {|
  po_min_profit_usd := "1.00"; po_min_net_margin := "0.01"; po_min_annualized_return := "0.15";
  po_max_capital_release_days := 30 |}.

Definition DEFAULT_SAFETY_CONFIG : SafetyValues := {|
  sv_episode_rearm_gap_seconds := 300; sv_max_per_trade_cost_units := 0; sv_max_total_unsettled_capital_units := 0;
  sv_max_partial_fill_loss_units := 0; sv_max_auto_repair_loss_units := 0; sv_max_quote_age_seconds := 10;
  sv_max_cross_leg_skew_seconds := 5; sv_max_leg_submit_seconds := 15; sv_reconciliation_timeout_seconds := 60 |}.

Definition POLICY_KEYS : list string :=
  ["min_profit_usd"; "min_net_margin"; "min_annualized_return"; "max_capital_release_days"].
Definition REQUIRED_SAFETY_KEYS : list string :=
  ["episode_rearm_gap_seconds"; "max_per_trade_cost_units"; "max_total_unsettled_capital_units";
   "max_partial_fill_loss_units"; "max_auto_repair_loss_units"].
Definition OPTIONAL_SAFETY_DEFAULTS : list (string * Z) :=
  [("max_quote_age_seconds", 10); ("max_cross_leg_skew_seconds", 5); ("max_leg_submit_seconds", 15);
   ("reconciliation_timeout_seconds", 60)].
Definition SAFETY_KEYS : list string := REQUIRED_SAFETY_KEYS ++ OPTIONAL_SAFETY_DEFAULTS.*1.
Definition CAPS_CONFIGURED_KEY : string := "caps_configured".

Definition positive_value (v : json) (name : string) : res Z :=
  let wrong := ValueError (name +:+ " must be a positive integer") in
  match v with JInt n => require (1 <=? n) wrong;; Ok n | _ => Err wrong end.
Definition nonnegative_value (v : json) (name : string) : res Z :=
  let wrong := ValueError (name +:+ " must be a non-negative integer") in
  match v with JInt n => require (0 <=? n) wrong;; Ok n | _ => Err wrong end.

(** [_money] *)
Definition money (text name : string) : res decimal :=
  amount ← of_option (ValueError (name +:+ " must be a decimal string")) (decimal_of_string text);
  require (match amount with Finite negative c _ => negb (negative && (0 <? c)) | _ => false end)
    (ValueError (name +:+ " must be non-negative"));;
  Ok amount.

Definition money_value (v : json) (name : string) : res string :=
  match v with
  | JStr text => decimal_str <$> money text name
  | _ => Err (ValueError (name +:+ " must be a decimal string"))
  end.

(** [config[key]] after the key check *)
Definition item (fields : list (string * json)) (k : string) : json := default JNull (json_field k fields).

(** [_validated_policy] *)
Definition validated_policy (p : json) : res Policy :=
  let wrong := ValueError "qualification policy fields are invalid" in
  match p with
  | JObj fields =>
      require (bool_decide ((list_to_set fields.*1 : gset string) = list_to_set POLICY_KEYS)) wrong;;
      profit ← money_value (item fields "min_profit_usd") "min_profit_usd";
      margin ← money_value (item fields "min_net_margin") "min_net_margin";
      annualized ← money_value (item fields "min_annualized_return") "min_annualized_return";
      days ← positive_value (item fields "max_capital_release_days") "max_capital_release_days";
      Ok {| po_min_profit_usd := profit; po_min_net_margin := margin; po_min_annualized_return := annualized;
            po_max_capital_release_days := days |}
  | _ => Err wrong
  end.

Definition policy_fields (p : Policy) : list (string * json) :=
  [("min_profit_usd", JStr (po_min_profit_usd p)); ("min_net_margin", JStr (po_min_net_margin p));
   ("min_annualized_return", JStr (po_min_annualized_return p));
   ("max_capital_release_days", JInt (po_max_capital_release_days p))].

Definition optional_positive (fields : list (string * json)) (key : string) (d : Z) : res Z :=
  match json_field key fields with Some v => positive_value v key | None => Ok d end.

(** [_validated_safety_config] *)
Definition validated_safety_config (p : json) : res SafetyValues :=
  let wrong := ValueError "safety config fields are invalid" in
  match p with
  | JObj fields =>
      let keys : gset string := list_to_set fields.*1 in
      require (bool_decide (keys ⊆ list_to_set SAFETY_KEYS)) wrong;;
      require (bool_decide (list_to_set REQUIRED_SAFETY_KEYS ⊆ keys)) wrong;;
      gap ← positive_value (item fields "episode_rearm_gap_seconds") "episode_rearm_gap_seconds";
      trade ← nonnegative_value (item fields "max_per_trade_cost_units") "max_per_trade_cost_units";
      total ← nonnegative_value (item fields "max_total_unsettled_capital_units") "max_total_unsettled_capital_units";
      fill ← nonnegative_value (item fields "max_partial_fill_loss_units") "max_partial_fill_loss_units";
      repair ← nonnegative_value (item fields "max_auto_repair_loss_units") "max_auto_repair_loss_units";
      age ← optional_positive fields "max_quote_age_seconds" 10;
      skew ← optional_positive fields "max_cross_leg_skew_seconds" 5;
      submit ← optional_positive fields "max_leg_submit_seconds" 15;
      timeout ← optional_positive fields "reconciliation_timeout_seconds" 60;
      Ok {| sv_episode_rearm_gap_seconds := gap; sv_max_per_trade_cost_units := trade;
            sv_max_total_unsettled_capital_units := total; sv_max_partial_fill_loss_units := fill;
            sv_max_auto_repair_loss_units := repair; sv_max_quote_age_seconds := age;
            sv_max_cross_leg_skew_seconds := skew; sv_max_leg_submit_seconds := submit;
            sv_reconciliation_timeout_seconds := timeout |}
  | _ => Err wrong
  end.

Definition safety_fields (c : SafetyValues) : list (string * json) :=
  [("episode_rearm_gap_seconds", JInt (sv_episode_rearm_gap_seconds c));
   ("max_per_trade_cost_units", JInt (sv_max_per_trade_cost_units c));
   ("max_total_unsettled_capital_units", JInt (sv_max_total_unsettled_capital_units c));
   ("max_partial_fill_loss_units", JInt (sv_max_partial_fill_loss_units c));
   ("max_auto_repair_loss_units", JInt (sv_max_auto_repair_loss_units c));
   ("max_quote_age_seconds", JInt (sv_max_quote_age_seconds c));
   ("max_cross_leg_skew_seconds", JInt (sv_max_cross_leg_skew_seconds c));
   ("max_leg_submit_seconds", JInt (sv_max_leg_submit_seconds c));
   ("reconciliation_timeout_seconds", JInt (sv_reconciliation_timeout_seconds c))].

(** [setdefault] *)
Definition set_default (fields : list (string * json)) (k : string) (v : json) : list (string * json) :=
  match json_field k fields with Some _ => fields | None => fields ++ [(k, v)] end.

(** [_stored_safety_config]: the values, and whether the caps are confirmed. *)
Definition stored_safety_config (config : list (string * json)) : res (SafetyValues * bool) :=
  let marker := item config CAPS_CONFIGURED_KEY in
  require (match marker with JNull | JBool _ => true | _ => false end) (ValueError "safety config fields are invalid");;
  let client := filter (λ p, p.1 ≠ CAPS_CONFIGURED_KEY) config in
  let client := foldl (λ d kv, set_default d kv.1 (JInt kv.2)) client OPTIONAL_SAFETY_DEFAULTS in
  let client := set_default client "max_per_trade_cost_units" (JInt (sv_max_per_trade_cost_units DEFAULT_SAFETY_CONFIG)) in
  validated ← validated_safety_config (JObj client);
  Ok (validated, match marker with JBool b => b | _ => false end).

(** [_policy_direction] *)
Definition policy_direction (before after : Policy) : res string :=
  let smaller (f : Policy → string) name :=
    a ← money (f after) name; b ← money (f before) name; Ok (finite_ltb a b) in
  profit ← smaller po_min_profit_usd "min_profit_usd";
  margin ← (if profit : bool then Ok true else smaller po_min_net_margin "min_net_margin");
  annualized ← (if margin : bool then Ok true else smaller po_min_annualized_return "min_annualized_return");
  if annualized || (po_max_capital_release_days before <? po_max_capital_release_days after) then Ok "loosen"
  else if bool_decide (before = after) then Ok "same" else Ok "tighten".

(** [_safety_direction] *)
Definition safety_direction (before after : SafetyValues) : string :=
  if (sv_episode_rearm_gap_seconds after <? sv_episode_rearm_gap_seconds before) ||
     (sv_max_total_unsettled_capital_units before <? sv_max_total_unsettled_capital_units after) ||
     (sv_max_partial_fill_loss_units before <? sv_max_partial_fill_loss_units after) ||
     (sv_max_auto_repair_loss_units before <? sv_max_auto_repair_loss_units after) then "loosen"
  else if bool_decide (before = after) then "same" else "tighten".

(** ** The store *)

Record ControlEvent := {
  ce_action : string;
  ce_target : string;
  ce_outcome : string;
  ce_payload : list (string * json);
}.

(** One row of [incidents]. *)
Record LegacyIncident := { li_incident_id : string; li_acknowledged : bool }.

(** [mo_store] holds the control row, the batches, the capability and version
    of each scope and the caps of the latest safety row; [mo_members] is the
    other column of the scopes, [mo_policies] and [mo_safety] are the versioned
    rows, [mo_incidents] the legacy incidents, newest first, [mo_events] the
    control events, newest last. *)
Record ModeStore := {
  mo_store : Store;
  mo_policies : gmap Z (list (string * json));
  mo_safety : gmap Z (list (string * json));
  mo_members : gmap string (list (string * json));
  mo_incidents : list LegacyIncident;
  mo_events : list ControlEvent;
}.

Definition set_mode_store (m : ModeStore) (st : Store) : ModeStore := {|
  mo_store := st; mo_policies := mo_policies m; mo_safety := mo_safety m; mo_members := mo_members m;
  mo_incidents := mo_incidents m; mo_events := mo_events m |}.

Definition set_config (st : Store) (config : option SafetyConfig) (scopes : gmap string (string * Z)) : Store := {|
  so_batches := so_batches st; so_control := so_control st; so_transitions := so_transitions st;
  so_acknowledgements := so_acknowledgements st; so_claims := so_claims st; so_graph := so_graph st;
  so_episodes := so_episodes st; so_active_lp := so_active_lp st; so_safety_config := config; so_scopes := scopes |}.

(** [ORDER BY version DESC LIMIT 1] *)
Definition latest (rows : gmap Z (list (string * json))) : option (Z * list (string * json)) :=
  foldr (λ r best, match best with
                   | Some b => if b.1 <? r.1 then Some r else best
                   | None => Some r
                   end) None (map_to_list rows).

(** The caps of a row, for the rows whose caps are integers or absent. *)
Definition row_caps (config : list (string * json)) : option SafetyConfig :=
  let cap k := match json_field k config with
               | Some (JInt n) => Some n | Some (JBool b) => Some (Z.b2z b) | Some JNull | None => Some 0 | _ => None end in
  trade ← cap "max_per_trade_cost_units";
  total ← cap "max_total_unsettled_capital_units";
  fill ← cap "max_partial_fill_loss_units";
  repair ← cap "max_auto_repair_loss_units";
  Some {| sf_max_per_trade_cost_units := trade; sf_max_total_unsettled_capital_units := total;
          sf_max_partial_fill_loss_units := fill; sf_max_auto_repair_loss_units := repair |}.

(** ** Computations over the store

    An exception keeps the transactions committed before it. *)

Definition SM (A : Type) : Type := ModeStore → ModeStore * res A.
#[export] Instance SM_ret : MRet SM := λ A a m, (m, Ok a).
#[export] Instance SM_bind : MBind SM := λ A B f c m,
  match c m with (m', Ok a) => f a m' | (m', Err e) => (m', Err e) end.

Definition reads {A} (f : ModeStore → A) : SM A := λ m, (m, Ok (f m)).
Definition asks {A} (f : ModeStore → res A) : SM A := λ m, (m, f m).
Definition lift {A} (r : res A) : SM A := λ m, (m, r).
Definition check (b : bool) (e : exn) : SM unit := lift (require b e).
(** One transaction: an exception rolls it back. *)
Definition transaction (f : ModeStore → res ModeStore) : SM unit := λ m,
  match f m with Ok m' => (m', Ok tt) | Err e => (m, Err e) end.

(** *** The tables *)

Definition n_leg_control (m : ModeStore) : Control := so_control (mo_store m).

Record ScopeRow := {
  sc_capability : string;
  sc_scope_version : Z;
  sc_members : list (string * json);
}.

Definition n_leg_scope (m : ModeStore) (id : string) : option ScopeRow :=
  (λ s, {| sc_capability := s.1; sc_scope_version := s.2; sc_members := default [] (mo_members m !! id) |})
    <$> so_scopes (mo_store m) !! id.

(** [n_leg_scopes], in the order of the scope ids *)
Definition n_leg_scopes (m : ModeStore) : list (string * ScopeRow) :=
  sort_on fst ((λ p, (p.1, {| sc_capability := p.2.1; sc_scope_version := p.2.2;
                              sc_members := default [] (mo_members m !! p.1) |})) <$> map_to_list (so_scopes (mo_store m))).

Definition n_leg_qualification_policy_write (version : Z) (fields : list (string * json)) : SM unit :=
  check (1 <=? version) (ValueError "qualification policy version must be a positive integer");;
  transaction (λ m, Ok {| mo_store := mo_store m; mo_policies := <[version := stored fields]> (mo_policies m);
    mo_safety := mo_safety m; mo_members := mo_members m; mo_incidents := mo_incidents m; mo_events := mo_events m |}).

Definition n_leg_safety_config_write (version : Z) (fields : list (string * json)) : SM unit :=
  check (1 <=? version) (ValueError "safety config version must be a positive integer");;
  transaction (λ m,
    let rows := <[version := stored fields]> (mo_safety m) in
    let st := mo_store m in
    Ok {| mo_store := set_config st (latest rows ≫= λ r, row_caps r.2) (so_scopes st); mo_policies := mo_policies m;
          mo_safety := rows; mo_members := mo_members m; mo_incidents := mo_incidents m; mo_events := mo_events m |}).

Definition CAPABILITIES : list string := ["OBSERVE_ONLY"; "MANUAL_CANARY"; "AUTO_ELIGIBLE"].

Definition n_leg_scope_write (id capability : string) (version : Z) (members : list (string * json)) : SM unit :=
  check (negb (id =? "")%string) (ValueError "scope id must be non-empty text");;
  check (bool_decide (capability ∈ CAPABILITIES)) (ValueError "scope capability is invalid");;
  check (1 <=? version) (ValueError "scope version must be a positive integer");;
  transaction (λ m,
    let st := mo_store m in
    Ok {| mo_store := set_config st (so_safety_config st) (<[id := (capability, version)]> (so_scopes st));
          mo_policies := mo_policies m; mo_safety := mo_safety m; mo_members := <[id := stored members]> (mo_members m);
          mo_incidents := mo_incidents m; mo_events := mo_events m |}).

Definition mode_control_write (w : ModeWrite) : SM unit :=
  transaction (λ m, st ← n_leg_mode_control_write (mo_store m) w; Ok (set_mode_store m st)).

Definition record_control_event (action target outcome : string) (payload : list (string * json)) : SM unit :=
  check (bool_decide (outcome ∈ ["succeeded"; "rejected"; "failed"])) (ValueError "invalid terminal control outcome");;
  transaction (λ m, Ok {| mo_store := mo_store m; mo_policies := mo_policies m; mo_safety := mo_safety m;
    mo_members := mo_members m; mo_incidents := mo_incidents m;
    mo_events := mo_events m ++ [{| ce_action := action; ce_target := target; ce_outcome := outcome;
                                    ce_payload := stored payload |}] |}).

(** *** Reading the contract *)

Definition unacknowledged_incident (m : ModeStore) : option LegacyIncident :=
  head (filter (λ i, li_acknowledged i = false) (mo_incidents m)).

(** [n_leg_incident_batch() is not None] *)
Definition has_incident_batch (st : Store) : bool :=
  existsb (λ kb, (ba_state kb.2 =? "INCIDENT")%string) (map_to_list (so_batches st)).

Definition positive_int (z : Z) (name : string) : res Z := positive_value (JInt z) name.

Definition current_policy (m : ModeStore) : res (Z * Policy) :=
  match latest (mo_policies m) with
  | None => Ok (1, DEFAULT_QUALIFICATION_POLICY)
  | Some (version, fields) =>
      v ← positive_int version "policy version";
      p ← validated_policy (JObj fields);
      Ok (v, p)
  end.

Definition current_safety_config (m : ModeStore) : res (Z * (SafetyValues * bool)) :=
  match latest (mo_safety m) with
  | None => Ok (1, (DEFAULT_SAFETY_CONFIG, false))
  | Some (version, fields) =>
      v ← positive_int version "safety version";
      c ← stored_safety_config fields;
      Ok (v, c)
  end.

(** [n_leg_caps_gate] *)
Definition n_leg_caps_gate (m : ModeStore) : res (bool * string) :=
  match latest (mo_safety m) with
  | None => Ok (false, "CAPS_NOT_CONFIGURED")
  | Some (_, fields) =>
      c ← stored_safety_config fields;
      Ok (if c.2 : bool then (true, "CAPS_CONFIGURED") else (false, "CAPS_NOT_CONFIGURED"))
  end.

Record ModeContract := {
  mc_contract_generation : Z;
  mc_mode : string;
  mc_qualification_policy_version : Z;
  mc_qualification_policy : Policy;
  mc_safety_config_version : Z;
  mc_safety_config : SafetyValues * bool;
  mc_execution_scopes : list (string * ScopeRow);
  mc_enabled : list (string * Z);
  mc_breaker_open : bool;
  mc_incident_active : bool;
  mc_batch_active : bool;
}.

Definition mode_contract (m : ModeStore) : res ModeContract :=
  let c := n_leg_control m in
  policy ← current_policy m;
  safety ← current_safety_config m;
  generation ← positive_int (ct_contract_generation c) "contract_generation";
  policy_version ← positive_int (ct_qualification_policy_version c) "qualification_policy_version";
  safety_version ← positive_int (ct_safety_config_version c) "safety_config_version";
  Ok {| mc_contract_generation := generation; mc_mode := ct_mode c; mc_qualification_policy_version := policy_version;
        mc_qualification_policy := policy.2; mc_safety_config_version := safety_version; mc_safety_config := safety.2;
        mc_execution_scopes := n_leg_scopes m; mc_enabled := ct_enabled_scopes c; mc_breaker_open := ct_breaker_open c;
        mc_incident_active := negb (is_none (unacknowledged_incident m)) || has_incident_batch (mo_store m);
        mc_batch_active := negb (is_none (ct_active_batch_id c)) |}.

Definition n_leg_mode_contract : SM ModeContract := asks mode_contract.

(** ** Mutations *)

Definition audit_fields : Type := list (string * json).

Definition write_word (mode : string) : string := if (mode =? "AUTO")%string then "auto_submit" else "manual_confirm".

(** [int(scope["scope_version"]) == int(item["scope_version"])] of a registered scope *)
Definition scope_current (m : ModeStore) (enabled : string * Z) : bool :=
  match n_leg_scope m enabled.1 with Some s => sc_scope_version s =? enabled.2 | None => false end.

Definition keep_versions (c : Control) (mode : option string) (enabled : list (string * Z)) : ModeWrite := {|
  mw_mode := mode; mw_contract_generation := Some (ct_contract_generation c);
  mw_qualification_policy_version := Some (ct_qualification_policy_version c);
  mw_safety_config_version := Some (ct_safety_config_version c); mw_enabled_scopes := Some enabled |}.

(** [_require_auto_enable] *)
Definition require_auto_enable (c : Control) (incident_id : option string) (m : ModeStore) : res unit :=
  require (negb (ct_breaker_open c)) (ValueError "N_LEG_BREAKER_OPEN");;
  require (is_none (ct_active_batch_id c)) (ValueError "N_LEG_ACTIVE_BATCH_EXISTS");;
  require (is_none (unacknowledged_incident m)) (ValueError "N_LEG_INCIDENT_ACTIVE");;
  require (forallb (scope_current m) (ct_enabled_scopes c)) (ValueError "N_LEG_SCOPE_VERSION_DRIFT");;
  match mo_incidents m with
  | [] => Ok tt
  | incidents =>
      let wrong := ValueError "N_LEG_AUTO_REQUIRES_RESOLVED_INCIDENT" in
      match incident_id with
      | None => Err wrong
      | Some id =>
          require (negb (id =? "")%string) wrong;;
          require (existsb (λ i, (li_incident_id i =? id)%string && li_acknowledged i) incidents) wrong
      end
  end.

Definition version_conflict (what : string) : exn := NLegVersionConflict (what +:+ " mismatch").

Definition n_leg_set_mode (mode : string) (base_contract_generation : Z) (incident_id : option string) (audit : audit_fields)
  : SM ModeContract :=
  check (bool_decide (mode ∈ ["MANUAL"; "AUTO"])) (ValueError "n-leg mode must be MANUAL or AUTO");;
  control ← reads n_leg_control;
  check (ct_contract_generation control =? base_contract_generation) (version_conflict "n-leg contract generation");;
  (if (mode =? "AUTO")%string then asks (require_auto_enable control incident_id) else mret tt);;
  mode_control_write (keep_versions control (Some mode) (ct_enabled_scopes control));;
  record_control_event "n_leg_set_mode" "n_leg_controls" "succeeded"
    (dict_update [("mode", JStr mode); ("action_word", JStr (write_word mode))] audit);;
  n_leg_mode_contract.

Definition downgrade_payload (reason : string) (audit : audit_fields) : list (string * json) :=
  dict_update [("reason", JStr reason); ("mode", JStr "MANUAL"); ("action_word", JStr "manual_confirm")] audit.

(** The end of [n_leg_set_enabled_scope]: the write and its events. *)
Definition write_enabled_scopes (control : Control) (scope_id : string) (enable : bool) (audit : audit_fields)
    (enabled : list (string * Z)) (downgrade : bool) : SM ModeContract :=
  mode_control_write
    (keep_versions control (Some (if downgrade && (ct_mode control =? "AUTO")%string then "MANUAL" else ct_mode control)) enabled);;
  (if downgrade
   then record_control_event "n_leg_auto_downgrade" "n_leg_controls" "failed"
          (dict_update [("reason", JStr "SCOPE_ENABLED_EXPANSION"); ("scope_id", JStr scope_id); ("mode", JStr "MANUAL");
                        ("action_word", JStr "manual_confirm")] audit)
   else mret tt);;
  after ← reads n_leg_control;
  record_control_event "n_leg_set_enabled_scope" ("n_leg_execution_scopes/" +:+ scope_id) "succeeded"
    (dict_update [("scope_id", JStr scope_id); ("enable", JBool enable); ("action_word", JStr (write_word (ct_mode after)))] audit);;
  n_leg_mode_contract.

Definition n_leg_set_enabled_scope (scope_id : string) (enable : bool) (base_contract_generation : Z) (audit : audit_fields)
  : SM ModeContract :=
  check (negb (scope_id =? "")%string) (ValueError "scope id must be non-empty text");;
  control ← reads n_leg_control;
  check (ct_contract_generation control =? base_contract_generation) (version_conflict "n-leg contract generation");;
  let enabled := ct_enabled_scopes control in
  let others := filter (λ s, s.1 ≠ scope_id) enabled in
  let current := head (filter (λ s, s.1 = scope_id) enabled) in
  if enable then
    scope ← reads (λ m, n_leg_scope m scope_id);
    match scope with
    | None => lift (Err (ValueError "N_LEG_SCOPE_NOT_REGISTERED"))
    | Some s =>
        if match current with Some item => item.2 =? sc_scope_version s | None => false end then n_leg_mode_contract
        else write_enabled_scopes control scope_id enable audit (others ++ [(scope_id, sc_scope_version s)]) (is_none current)
    end
  else write_enabled_scopes control scope_id enable audit others false.

(** [_downgrade] *)
Definition downgrade (reason : string) (audit : audit_fields) (policy_version safety_version : option Z) : SM unit :=
  control ← reads n_leg_control;
  mode_control_write {|
    mw_mode := Some "MANUAL"; mw_contract_generation := Some (ct_contract_generation control);
    mw_qualification_policy_version := Some (default (ct_qualification_policy_version control) policy_version);
    mw_safety_config_version := Some (default (ct_safety_config_version control) safety_version);
    mw_enabled_scopes := Some (ct_enabled_scopes control) |};;
  record_control_event "n_leg_auto_downgrade" "n_leg_controls" "failed" (downgrade_payload reason audit).

Inductive Enforcement := Kept (mode : string) | Downgraded (scope_ids : list string).

Definition n_leg_enforce_auto_scope_versions (audit : audit_fields) : SM Enforcement :=
  control ← reads n_leg_control;
  if negb (ct_mode control =? "AUTO")%string then mret (Kept "MANUAL")
  else
    drift ← reads (λ m, fst <$> filter (λ s, scope_current m s = false) (ct_enabled_scopes control));
    match drift with
    | [] => mret (Kept "AUTO")
    | _ =>
        downgrade "SCOPE_VERSION_DRIFT" audit None None;;
        record_control_event "n_leg_auto_downgrade" "n_leg_controls" "failed"
          (dict_update [("reason", JStr "SCOPE_VERSION_DRIFT"); ("scope_ids", JArr (JStr <$> drift)); ("mode", JStr "MANUAL");
                        ("action_word", JStr "manual_confirm")] audit);;
        mret (Downgraded drift)
    end.

(** The write of a version that keeps the mode. *)
Definition version_write (c : Control) (policy_version safety_version : option Z) : ModeWrite := {|
  mw_mode := None; mw_contract_generation := Some (ct_contract_generation c);
  mw_qualification_policy_version := Some (default (ct_qualification_policy_version c) policy_version);
  mw_safety_config_version := Some (default (ct_safety_config_version c) safety_version);
  mw_enabled_scopes := Some (ct_enabled_scopes c) |}.

Definition n_leg_update_qualification_policy (policy : json) (base_version : Z) (audit : audit_fields) : SM ModeContract :=
  validated ← lift (validated_policy policy);
  current ← asks current_policy;
  check (current.1 =? base_version) (version_conflict "qualification policy version");;
  direction ← lift (policy_direction current.2 validated);
  let next_version := current.1 + 1 in
  n_leg_qualification_policy_write next_version (policy_fields validated);;
  control ← reads n_leg_control;
  (if (direction =? "loosen")%string && (ct_mode control =? "AUTO")%string
   then downgrade "QUALIFICATION_POLICY_LOOSENED" audit (Some next_version) None
   else mode_control_write (version_write control (Some next_version) None));;
  after ← reads n_leg_control;
  record_control_event "n_leg_update_qualification_policy" "n_leg_controls" "succeeded"
    (dict_update [("qualification_policy_version", JInt next_version); ("direction", JStr direction);
                  ("action_word", JStr (write_word (ct_mode after)))] audit);;
  n_leg_mode_contract.

Definition n_leg_update_safety_config (config : json) (base_version : Z) (audit : audit_fields) : SM ModeContract :=
  validated ← lift (validated_safety_config config);
  current ← asks current_safety_config;
  check (current.1 =? base_version) (version_conflict "safety config version");;
  let direction := safety_direction current.2.1 validated in
  let next_version := current.1 + 1 in
  n_leg_safety_config_write next_version (safety_fields validated ++ [(CAPS_CONFIGURED_KEY, JBool true)]);;
  control ← reads n_leg_control;
  (if (direction =? "loosen")%string && (ct_mode control =? "AUTO")%string
   then downgrade "SAFETY_CONFIG_LOOSENED" audit None (Some next_version)
   else mode_control_write (version_write control None (Some next_version)));;
  after ← reads n_leg_control;
  record_control_event "n_leg_update_safety_config" "n_leg_controls" "succeeded"
    (dict_update [("safety_config_version", JInt next_version); ("direction", JStr direction);
                  ("action_word", JStr (write_word (ct_mode after)))] audit);;
  n_leg_mode_contract.

(** The capabilities are compared as texts. *)
Definition scope_direction (existing : ScopeRow) (capability : string) (members : list (string * json)) : string :=
  if negb (capability =? sc_capability existing)%string
  then if String.ltb (sc_capability existing) capability then "loosen" else "tighten"
  else if negb (py_eq (JObj members) (JObj (sc_members existing))) then "changed" else "same".

Definition downgrade_reason (direction : string) : option string :=
  if (direction =? "loosen")%string then Some "SCOPE_CAPABILITY_RAISED"
  else if (direction =? "changed")%string then Some "SCOPE_MEMBERS_CHANGED"
  else if (direction =? "added")%string then Some "SCOPE_ADDED"
  else None.

(** The version and the direction of the change. *)
Definition scope_change (existing : option ScopeRow) (capability : string) (fields : list (string * json))
    (base_scope_version : option Z) : res (Z * string) :=
  match existing with
  | None =>
      require (capability =? "OBSERVE_ONLY")%string (ValueError "N_LEG_SCOPE_STARTS_OBSERVE_ONLY");;
      Ok (1, "added")
  | Some s =>
      require (bool_decide (base_scope_version = Some (sc_scope_version s))) (version_conflict "scope version");;
      Ok (sc_scope_version s + 1, scope_direction s capability fields)
  end.

(** The writes of [n_leg_upsert_scope]. *)
Definition write_scope (scope_id capability : string) (fields : list (string * json)) (scope_version : Z) (direction : string)
    (audit : audit_fields) : SM ModeContract :=
  n_leg_scope_write scope_id capability scope_version fields;;
  control ← reads n_leg_control;
  match downgrade_reason direction with
  | Some reason => if (ct_mode control =? "AUTO")%string then downgrade reason audit None None else mret tt
  | None => mret tt
  end;;
  after ← reads n_leg_control;
  record_control_event "n_leg_upsert_scope" ("n_leg_execution_scopes/" +:+ scope_id) "succeeded"
    (dict_update [("scope_id", JStr scope_id); ("capability", JStr capability); ("scope_version", JInt scope_version);
                  ("direction", JStr direction); ("action_word", JStr (write_word (ct_mode after)))] audit);;
  n_leg_mode_contract.

Definition n_leg_upsert_scope (scope_id capability : string) (members : json) (base_scope_version : option Z)
    (audit : audit_fields) : SM ModeContract :=
  check (negb (scope_id =? "")%string) (ValueError "scope id must be non-empty text");;
  check (bool_decide (capability ∈ CAPABILITIES)) (ValueError "scope capability is invalid");;
  fields ← lift (match members with JObj (f :: fields) => Ok (f :: fields)
                 | _ => Err (ValueError "scope members must be a non-empty object") end);
  change ← asks (λ m, scope_change (n_leg_scope m scope_id) capability fields base_scope_version);
  write_scope scope_id capability fields change.1 change.2 audit.

Definition SAME_EVENT_SAME_VENUE_SCOPE_ID : string := "SAME_EVENT_SAME_VENUE".
Definition SAME_EVENT_SAME_VENUE_MEMBERS : json := JObj
  [("relation_type", JStr "complement"); ("same_event", JBool true); ("same_venue", JBool true);
   ("venues", JArr [JStr "polymarket"])].

(** The seed of start-up; every exception is logged and answered with [false]. *)
Definition ensure_same_event_same_venue_scope : SM bool := λ m,
  match n_leg_scope m SAME_EVENT_SAME_VENUE_SCOPE_ID with
  | Some _ => (m, Ok false)
  | None =>
      match n_leg_upsert_scope SAME_EVENT_SAME_VENUE_SCOPE_ID "OBSERVE_ONLY" SAME_EVENT_SAME_VENUE_MEMBERS None [] m with
      | (m', Ok _) => (m', Ok true)
      | (m', Err _) => (m', Ok false)
      end
  end.

(** ** Readiness *)

Record ScopeReadiness := {
  sr_order_ready : bool;
  sr_reason : string;
  sr_action : option string;
}.

Definition readiness (ready : bool) (reason : string) (action : option string) : ScopeReadiness :=
  {| sr_order_ready := ready; sr_reason := reason; sr_action := action |}.

(** [{str(item["scope_id"]): int(item["scope_version"]) ...}]: the last entry wins. *)
Definition enabled_version (enabled : list (string * Z)) (id : string) : option Z :=
  snd <$> last (filter (λ s, s.1 = id) enabled).

Definition scope_readiness (mode : string) (enabled : list (string * Z)) (id : string) (s : ScopeRow) : ScopeReadiness :=
  if (sc_capability s =? "OBSERVE_ONLY")%string then readiness false "SCOPE_OBSERVE_ONLY" None
  else if (sc_capability s =? "MANUAL_CANARY")%string then
    if (mode =? "MANUAL")%string then readiness true "MANUAL_CANARY" (Some "manual_confirm")
    else readiness false "MANUAL_CANARY_REQUIRES_MANUAL" None
  else
    if (mode =? "AUTO")%string && bool_decide (enabled_version enabled id = Some (sc_scope_version s))
    then readiness true "AUTO_ELIGIBLE" (Some "auto_submit")
    else if (mode =? "MANUAL")%string then readiness true "MANUAL_CONFIRM_ALLOWED" (Some "manual_confirm")
    else readiness false "SCOPE_NOT_ENABLED" None.

Definition gate_reason (c : ModeContract) : option string :=
  if mc_breaker_open c then Some "GLOBAL_BREAKER_OPEN"
  else if mc_incident_active c then Some "EXECUTION_INCIDENT_ACTIVE"
  else if mc_batch_active c then Some "EXECUTION_BATCH_ACTIVE"
  else None.

(** [n_leg_order_readiness]: whether any scope is ready, and each of them. *)
Definition n_leg_order_readiness (c : ModeContract) : bool * list (string * ScopeReadiness) :=
  let scopes := (λ p, (p.1, match gate_reason c with
                            | Some reason => readiness false reason None
                            | None => scope_readiness (mc_mode c) (mc_enabled c) p.1 p.2
                            end)) <$> mc_execution_scopes c in
  (existsb (λ p, sr_order_ready p.2) scopes, scopes).

(** ** The queue of execution requests *)

Record Request := {
  er_request_id : string;
  er_fifo_index : Z;
  er_idempotency_key : string;
  er_component_id : string;
  er_state : string;
  er_abandon_reason : option string;
  er_payload : list (string * json);
  er_created_at : Z;
  er_updated_at : Z;
}.

(** The rows in the order of their index, and the last index given. *)
Record RequestQueue := { qu_rows : list Request; qu_last_index : Z }.

Definition pending (r : Request) : bool := (er_state r =? "PENDING")%string.

(** [n_leg_request_enqueue]; [id] is the fresh uuid. *)
Definition n_leg_request_enqueue (q : RequestQueue) (component_id idempotency_key : string) (payload : list (string * json))
    (max_pending : Z) (id : string) (now : Z) : res (RequestQueue * Request) :=
  require (negb (component_id =? "")%string) (ValueError "component id must be non-empty text");;
  require (negb (idempotency_key =? "")%string) (ValueError "idempotency key must be non-empty text");;
  require (1 <=? max_pending) (ValueError "max_pending must be a positive integer");;
  match head (filter (λ r, er_idempotency_key r = idempotency_key) (qu_rows q)) with
  | Some existing => Ok (q, existing)
  | None =>
      let waiting := filter (λ r, pending r = true) (qu_rows q) in
      require (negb (existsb (λ r, (er_component_id r =? component_id)%string) waiting)) (ValueError "QUEUE_DUPLICATE");;
      require (Z.of_nat (length waiting) <? max_pending) (ValueError "QUEUE_FULL");;
      require (negb (existsb (λ r, (er_request_id r =? id)%string) (qu_rows q))) IntegrityError;;
      let row := {| er_request_id := id; er_fifo_index := qu_last_index q + 1; er_idempotency_key := idempotency_key;
                    er_component_id := component_id; er_state := "PENDING"; er_abandon_reason := None;
                    er_payload := stored payload; er_created_at := now; er_updated_at := now |} in
      Ok ({| qu_rows := qu_rows q ++ [row]; qu_last_index := qu_last_index q + 1 |}, row)
  end.

Definition n_leg_request_by_idempotency_key (q : RequestQueue) (key : string) : option Request :=
  head (filter (λ r, er_idempotency_key r = key) (qu_rows q)).

(** [n_leg_request_head] *)
Definition n_leg_request_head (q : RequestQueue) : option Request := head (filter (λ r, pending r = true) (qu_rows q)).

Definition set_request (r : Request) (state : string) (reason : option string) (payload : list (string * json)) (now : Z)
  : Request := {|
  er_request_id := er_request_id r; er_fifo_index := er_fifo_index r; er_idempotency_key := er_idempotency_key r;
  er_component_id := er_component_id r; er_state := state; er_abandon_reason := reason; er_payload := payload;
  er_created_at := er_created_at r; er_updated_at := now |}.

Definition REQUEST_STATES : list string := ["PENDING"; "ADMITTED"; "ABANDONED"; "SUBMITTED"].

(** [n_leg_request_update] *)
Definition n_leg_request_update (q : RequestQueue) (request_id : string) (state abandon_reason : option string)
    (payload_merge : list (string * json)) (now : Z) : res (RequestQueue * Request) :=
  require (match state with Some s => bool_decide (s ∈ REQUEST_STATES) | None => true end)
    (ValueError "invalid n-leg execution request state");;
  row ← of_option (ValueError "N_LEG_REQUEST_NOT_FOUND") (head (filter (λ r, er_request_id r = request_id) (qu_rows q)));
  let updated := set_request row (default (er_state row) state)
                   (match abandon_reason with Some r => Some r | None => er_abandon_reason row end)
                   (stored (dict_update (er_payload row) payload_merge)) now in
  Ok ({| qu_rows := (λ r, if (er_request_id r =? request_id)%string then updated else r) <$> qu_rows q;
         qu_last_index := qu_last_index q |}, updated).

(** [n_leg_requests_abandon_pending]: the queue, and how many rows changed. *)
Definition n_leg_requests_abandon_pending (q : RequestQueue) (reason : string) (now : Z) : res (RequestQueue * Z) :=
  require (negb (reason =? "")%string) (ValueError "abandon reason must be non-empty text");;
  Ok ({| qu_rows := (λ r, if pending r then set_request r "ABANDONED" (Some reason) (er_payload r) now else r) <$> qu_rows q;
         qu_last_index := qu_last_index q |},
      Z.of_nat (length (filter (λ r, pending r = true) (qu_rows q)))).

(** ** The versions a request freezes

    [confirm_enqueue] ([src/open_trader/prediction_n_leg_confirm.py]) freezes
    the versions of the contract it read, and the queue driver
    ([src/open_trader/prediction_n_leg_driver.py]) hands them to the admission
    as the versions to find. *)

Section versions.
Context `{Sha256}.

Definition CAP_KEYS : list string :=
  ["max_per_trade_cost_units"; "max_total_unsettled_capital_units"; "max_partial_fill_loss_units"; "max_auto_repair_loss_units"].

(** [_current_safety_values], of a row whose caps are integers. *)
Definition current_safety_values (m : ModeStore) : Z * list (string * json) :=
  match latest (mo_safety m) with
  | None => (1, safety_fields DEFAULT_SAFETY_CONFIG)
  | Some (version, config) => (version, (λ k, (k, default (JInt 0) (json_field k config))) <$> CAP_KEYS)
  end.

(** The block [versions] of the frozen payload. *)
Definition frozen_versions (c : ModeContract) (scope_id : string) (safety : Z * list (string * json)) : list (string * json) :=
  let scope := snd <$> head (filter (λ s, s.1 = scope_id) (mc_execution_scopes c)) in
  [ ("contract_generation", JInt (mc_contract_generation c));
    ("qualification_policy_version", JInt (mc_qualification_policy_version c));
    ("safety_config_version", JInt (mc_safety_config_version c)); ("caps_configured_version", JInt safety.1);
    ("caps_fingerprint", JStr (fingerprint_json (JObj safety.2))); ("mode", JStr (mc_mode c));
    ("capability", JStr (default "" (sc_capability <$> scope))); ("scope_id", JStr scope_id);
    ("scope_version", JInt (default 0 (sc_scope_version <$> scope)));
    ("enabled_execution_scope_version",
       JArr ((λ s, JObj [("scope_id", JStr s.1); ("scope_version", JInt s.2)]) <$> mc_enabled c)) ].

Definition mapping_or_empty (fields : list (string * json)) (k : string) : list (string * json) :=
  match json_field k fields with Some (JObj l) => l | _ => [] end.

(** [_expected_versions] *)
Definition expected_versions (frozen : list (string * json)) : list (string * json) :=
  let versions := mapping_or_empty frozen "versions" in
  let execution := mapping_or_empty frozen "execution" in
  [ ("breaker_closed", JBool true); ("mode", item versions "mode");
    ("contract_generation", item versions "contract_generation");
    ("qualification_policy_version", item versions "qualification_policy_version");
    ("capability", item versions "capability"); ("scope_id", item versions "scope_id");
    ("scope_version", item versions "scope_version"); ("caps_fingerprint", item versions "caps_fingerprint");
    ("execution_solution_fingerprint", item execution "fingerprint") ] ++
  match item execution "account_snapshot_fingerprint" with
  | JNull => []
  | v => [("account_snapshot_fingerprint", v)]
  end.
End versions.

(** ** The reader fence *)

(** [advance_minimum_reader_generation] on the stored fence *)
Definition advance_minimum_reader_generation (fence : option Z) (target : Z) : res Z :=
  require (1 <=? target) (ValueError "minimum reader generation target must be a positive integer");;
  current ← of_option (ValueError "prediction minimum reader generation is missing") fence;
  if target =? current then Ok current
  else require (current <? target) (ValueError "minimum reader generation cannot be lowered");; Ok target.
