(* ===== verification/ReceiptsCorrect.v ===== *)
(** * Invariants of receipt reduction

    Whatever sequence of receipts arrives, in whatever order: a leg's
    cumulative figures never decrease and a terminal leg never reopens; the
    capital held against the batch never drops below what was reserved and
    what was spent; replays change nothing; every rejected receipt leaves an
    unresolved conflict and a log entry. *)

From S2P Require Import Prelude PyValue NLeg NLegForms FillProof Receipts.
Local Open Scope Z_scope.

(** ** Well-formed batches *)

Record valid_figures (submitted : Z) (r : OrderReceipt) : Prop := {
  vg_filled : 0 ≤ rp_cumulative_filled_quantity r ≤ submitted;
  vg_cost : 0 ≤ rp_cumulative_cost_units r;
  vg_fee : 0 ≤ rp_cumulative_fee_units r;
}.

Record wf_leg (leg : BatchLeg) : Prop := {
  lg_submitted : 0 < bl_submitted_quantity leg;
  lg_max_cost : 0 ≤ bl_max_cost_units leg;
  lg_receipt : ∀ r, bl_receipt leg = Some r → valid_figures (bl_submitted_quantity leg) r;
}.

Record wf_batch (b : Batch) : Prop := {
  ib_legs : Forall wf_leg (ba_legs b);
  ib_rows : Forall (λ row, refresh_row (ba_legs b) row = row) (ba_reservations b);
  ib_exposure : ∀ k v, ba_conflict_exposure b !! k = Some v → 0 ≤ v;
  ib_ledger : ∀ k e, ba_terminal_ledger b !! k = Some e → 0 ≤ le_holding_capital_units e;
}.

Lemma check_nonnegative_all l us : mapM check_nonnegative l = Ok us → Forall (λ f, 0 ≤ f.2) l.
Proof. intros Hl%mapM_Ok. induction Hl as [|f u l us Hf%require_Ok _ IH]; constructor; [by apply Z.leb_le|done]. Qed.

Lemma check_receipt_figures r u : check_order_receipt r = Ok u → valid_figures (rp_submitted_quantity r) r ∧ 0 < rp_submitted_quantity r.
Proof.
  unfold check_order_receipt. intros (? & _ & (? & _ & (? & _ & (us & Hnn & (? & Hq%require_Ok & _)%bind_Ok)%bind_Ok)%bind_Ok)%bind_Ok)%bind_Ok.
  apply check_nonnegative_all in Hnn. rewrite !Forall_cons in Hnn. simpl in Hnn.
  apply negb_true_iff, orb_false_iff in Hq as [H0 H1]. bool_prop. split; [split|]; lia.
Qed.

(** ** Order between two versions of a leg *)

Definition receipt_le (old new : OrderReceipt) : Prop :=
  rp_cumulative_filled_quantity old ≤ rp_cumulative_filled_quantity new ∧
  rp_cumulative_cost_units old ≤ rp_cumulative_cost_units new ∧
  rp_cumulative_fee_units old ≤ rp_cumulative_fee_units new ∧
  rp_observed_at old ≤ rp_observed_at new ∧ rp_venue_timestamp old ≤ rp_venue_timestamp new ∧
  (is_terminal (rp_state old) = true → is_terminal (rp_state new) = true) ∧
  (∀ v, rp_venue_order_id old = Some v → rp_venue_order_id new = Some v).

Definition same_order (old new : BatchLeg) : Prop :=
  bl_action_id new = bl_action_id old ∧ bl_client_order_id new = bl_client_order_id old ∧
  bl_venue_id new = bl_venue_id old ∧ bl_account_id new = bl_account_id old ∧ bl_asset_id new = bl_asset_id old ∧
  bl_settlement_asset_id new = bl_settlement_asset_id old ∧ bl_side new = bl_side old ∧
  bl_submitted_quantity new = bl_submitted_quantity old ∧
  bl_max_cost_units new = bl_max_cost_units old ∧ bl_max_fee_units new = bl_max_fee_units old.

Definition leg_le (old new : BatchLeg) : Prop :=
  same_order old new ∧ ∀ r, bl_receipt old = Some r → ∃ r', bl_receipt new = Some r' ∧ receipt_le r r'.

Lemma receipt_le_refl r : receipt_le r r.
Proof. unfold receipt_le. repeat split; auto; lia. Qed.

#[export] Instance receipt_le_preorder : PreOrder receipt_le.
Proof.
  split; [exact receipt_le_refl|]. intros a b c (? & ? & ? & ? & ? & ? & ?) (? & ? & ? & ? & ? & ? & ?).
  unfold receipt_le. repeat split; auto; lia.
Qed.

#[export] Instance leg_le_preorder : PreOrder leg_le.
Proof.
  split.
  - intros l. split; [by repeat split|]. intros r Hr. exists r. split; [done|reflexivity].
  - intros a b c [(? & ? & ? & ? & ? & ? & ? & ? & ? & ?) Hab] [(? & ? & ? & ? & ? & ? & ? & ? & ? & ?) Hbc].
    split; [repeat split; congruence|]. intros r Hr. destruct (Hab r Hr) as (r' & Hr' & Hle).
    destruct (Hbc r' Hr') as (r'' & Hr'' & Hle'). exists r''. split; [done|]. by transitivity r'.
Qed.

(** What passing the checks against the prior receipt means. *)
Lemma check_prior_accept prior r : check_prior prior r = Accept → receipt_le prior r.
Proof.
  unfold check_prior. destruct (negb _ && negb _) eqn:Ev; [done|].
  assert (Hv : ∀ v, rp_venue_order_id prior = Some v → rp_venue_order_id r = Some v).
  { intros v Hv. rewrite Hv in Ev. simpl in Ev. bool_prop. congruence. }
  set (later := if time_regressed prior r then _ else _). intros Hc.
  assert (Hl : later = Accept).
  { destruct (rp_sequence prior) as [ps|], (rp_sequence r) as [s|]; [..|done|].
    - destruct (s <? ps); [done|]. destruct (s =? ps); [destruct (semantic_eqb _ _); done|done].
    - done.
    - destruct (rp_rest_observation_version prior) as [pv|], (rp_rest_observation_version r) as [v|]; try done.
      destruct (v <? pv); [done|]. destruct (v =? pv); [destruct (semantic_eqb _ _); done|done]. }
  unfold later, time_regressed in Hl. clear Hc later.
  destruct (_ || _) eqn:Et in Hl; [done|]. destruct (_ || _ || _) eqn:Ec in Hl; [done|].
  destruct (_ && _) eqn:Es in Hl; [done|]. bool_prop. unfold receipt_le. split_and!; try lia; [|done].
  intros Hp. rewrite Hp in Es. simpl in Es. by apply negb_false_iff in Es.
Qed.

Lemma set_leg_receipt_le leg r :
  (bl_client_order_id leg = rp_client_order_id r → ∀ p, bl_receipt leg = Some p → receipt_le p r) →
  leg_le leg (set_leg_receipt (rp_client_order_id r) r leg).
Proof.
  intros Hp. unfold set_leg_receipt. destruct (_ =? _)%string eqn:E; [|reflexivity]. bool_prop.
  split; [by repeat split|]. intros p Hr. exists r. split; [done|auto].
Qed.

(** ** One step *)

Section step.
Context `{Sha256}.

Lemma resolve_conflicts_frame b leg r :
  ba_legs (resolve_conflicts b leg r) = ba_legs b ∧ ba_reservations (resolve_conflicts b leg r) = ba_reservations b ∧
  ba_terminal_ledger (resolve_conflicts b leg r) = ba_terminal_ledger b ∧
  ba_receipts (resolve_conflicts b leg r) = ba_receipts b ∧
  ba_receipt_conflicts (resolve_conflicts b leg r) = ba_receipt_conflicts b ∧
  (∀ k v, ba_conflict_exposure (resolve_conflicts b leg r) !! k = Some v → ba_conflict_exposure b !! k = Some v).
Proof.
  unfold resolve_conflicts. destruct (_ || _); [done|]. split_and!; [done..|]. simpl. intros k v Hk.
  by apply lookup_delete_Some in Hk as [_ ?].
Qed.

(** What an accepted receipt writes. *)
Lemma accept_receipt_frame b leg r :
  let legs := set_leg_receipt (rp_client_order_id r) r <$> ba_legs b in
  ba_legs (accept_receipt b leg r) = legs ∧
  ba_reservations (accept_receipt b leg r) = refresh_row legs <$> ba_reservations b ∧
  ba_terminal_ledger (accept_receipt b leg r) = ba_terminal_ledger b ∧
  ba_receipts (accept_receipt b leg r) = <[rp_receipt_id r := r]> (ba_receipts b) ∧
  ba_receipt_conflicts (accept_receipt b leg r) = ba_receipt_conflicts b ∧
  ba_conflict_exposure (accept_receipt b leg r) = ba_conflict_exposure (resolve_conflicts b leg r) ∧
  ba_unresolved_conflicts (accept_receipt b leg r) = ba_unresolved_conflicts (resolve_conflicts b leg r) ∧
  ba_execution_batch_id (accept_receipt b leg r) = ba_execution_batch_id b ∧
  ba_confirmed_holdings (accept_receipt b leg r) = leg_holdings legs.
Proof.
  intros legs. unfold legs. destruct (resolve_conflicts_frame b leg r) as (El & Er & Et & Erc & Elog & _).
  assert (Ei : ba_execution_batch_id (resolve_conflicts b leg r) = ba_execution_batch_id b)
    by (unfold resolve_conflicts; by destruct (_ || _)).
  rewrite <- El, <- Er, <- Et, <- Erc, <- Elog, <- Ei. unfold accept_receipt. generalize (resolve_conflicts b leg r).
  intros b0. split_and!; reflexivity.
Qed.

Definition REJECT_REASONS : list string :=
  [ "RECEIPT_ID_CONFLICT"; "RECEIPT_IDENTITY_DRIFT"; "VENUE_ORDER_ID_DRIFT"; "SAME_SEQUENCE_CONFLICT";
    "REST_OBSERVATION_CONFLICT"; "RECEIPT_TIME_REGRESSION"; "CUMULATIVE_REGRESSION"; "TERMINAL_REOPENED" ].

Lemma check_prior_reason prior r reason : check_prior prior r = Reject reason → reason ∈ REJECT_REASONS.
Proof.
  unfold check_prior, REJECT_REASONS. intros Hc.
  repeat match type of Hc with
  | (if ?x then _ else _) = _ => destruct x
  | match ?x with _ => _ end = _ => destruct x
  end; try discriminate Hc; injection Hc as <-; set_solver.
Qed.

(** The cases of a reduction. *)
Inductive reduced (b : Batch) (r : OrderReceipt) : reduce_result → Prop :=
  | reduced_ignored : reduced b r (b, None, false)
  | reduced_rejected reason : reason ∈ REJECT_REASONS → reduced b r (incident_copy b r reason, Some reason, true)
  | reduced_accepted leg :
      filter (λ leg, bl_client_order_id leg = rp_client_order_id r) (ba_legs b) = [leg] →
      bl_venue_id leg = rp_venue_id r → bl_account_id leg = rp_account_id r →
      bl_submitted_quantity leg = rp_submitted_quantity r →
      (∀ p, bl_receipt leg = Some p → receipt_le p r) →
      reduced b r (accept_receipt b leg r, incident_reason leg r, true).

Lemma reduce_cases b r out : reduce b r = Ok out → reduced b r out ∧ rp_execution_batch_id r = ba_execution_batch_id b.
Proof.
  unfold reduce. intros (? & Hid%require_Ok & [= <-])%bind_Ok. bool_prop. split; [|done].
  destruct (ba_receipts b !! _) as [known|]; [destruct (semantic_eqb known r); constructor; unfold REJECT_REASONS; set_solver|].
  destruct (filter _ _) as [|leg [|leg' l]] eqn:Ef; [constructor; unfold REJECT_REASONS; set_solver| |
    constructor; unfold REJECT_REASONS; set_solver].
  destruct (_ || _) eqn:Em; [constructor; unfold REJECT_REASONS; set_solver|]. apply orb_false_iff in Em as [[Ev Ea]%orb_false_iff Es].
  apply negb_false_iff in Ev, Ea, Es. bool_prop.
  destruct (bl_receipt leg) as [p|] eqn:Ep; simpl.
  - destruct (check_prior p r) eqn:Ec; [|constructor|constructor; by eapply check_prior_reason]. constructor; try done. intros p' E. rewrite Ep in E.
    injection E as <-. by apply check_prior_accept.
  - constructor; try done. intros p E. congruence.
Qed.

Lemma filter_single_unique b r leg l :
  filter (λ leg, bl_client_order_id leg = rp_client_order_id r) (ba_legs b) = [leg] →
  l ∈ ba_legs b → bl_client_order_id l = rp_client_order_id r → l = leg.
Proof.
  intros Ef Hl E. assert (Hin : l ∈ filter (λ leg, bl_client_order_id leg = rp_client_order_id r) (ba_legs b))
    by (by apply list_elem_of_filter). rewrite Ef in Hin. by apply list_elem_of_singleton in Hin.
Qed.

(** Every reduction, whatever its verdict, only moves legs forward. *)
Lemma reduce_monotone b r b' reason changed :
  reduce b r = Ok (b', reason, changed) → Forall2 leg_le (ba_legs b) (ba_legs b').
Proof.
  intros [Hr _]%reduce_cases. inversion Hr as [|reason' Hin|leg Ef _ _ _ Hp]; subst.
  - reflexivity.
  - change (ba_legs (incident_copy b r reason')) with (ba_legs b). reflexivity.
  - destruct (accept_receipt_frame b leg r) as (-> & _). apply Forall2_fmap_r. apply Forall_Forall2_diag, Forall_forall. intros l Hl. apply set_leg_receipt_le. intros E.
    by rewrite (filter_single_unique b r leg l Ef Hl E).
Qed.

(** ** Capital *)

Lemma sum_on_nonneg f k legs : Forall (λ leg, 0 ≤ f leg) legs → 0 ≤ sum_on f k legs.
Proof.
  intros Hf. apply sumZ_nonneg, Forall_fmap, Forall_forall. intros leg [_ Hl]%list_elem_of_filter.
  exact (proj1 (Forall_forall _ _) Hf leg Hl).
Qed.

Lemma leg_protected_bounds leg : wf_leg leg → 0 ≤ leg_protected leg ≤ bl_max_cost_units leg.
Proof.
  intros [Hs Hm Hr]. unfold leg_protected. destruct (bl_receipt leg) as [r|]; [|lia].
  destruct (Hr r eq_refl) as [Hf _ _]. pose proof (ceil_div_spec (bl_max_cost_units leg * rp_cumulative_filled_quantity r)
    (bl_submitted_quantity leg) Hs) as Hc. unfold ceil_div in Hc. split.
  - apply Z.div_pos; nia.
  - set (x := (_ + _ - 1) `div` _) in *. assert (bl_submitted_quantity leg * (x - 1) < bl_submitted_quantity leg * bl_max_cost_units leg) by nia. nia.
Qed.

Lemma leg_actual_nonneg leg : wf_leg leg → 0 ≤ leg_actual leg.
Proof. intros [_ _ Hr]. unfold leg_actual. destruct (bl_receipt leg) as [r|]; [|lia]. destruct (Hr r eq_refl). lia. Qed.

(** A refreshed row holds at least the reservation and at least the cash spent. *)
Lemma refresh_row_bounds legs row :
  Forall wf_leg legs →
  let row' := refresh_row legs row in
  0 ≤ rv_remaining_units row' ∧ rv_original_units row ≤ rv_remaining_units row' + rv_holding_units row' ∧
  sum_on leg_actual (rv_key row) legs ≤ rv_holding_units row' ∧ 0 ≤ rv_holding_units row'.
Proof.
  intros Hl. simpl. assert (0 ≤ sum_on leg_protected (rv_key row) legs); [|lia].
  apply sum_on_nonneg. eapply Forall_impl; [exact Hl|]. intros leg Hleg. apply (leg_protected_bounds leg Hleg).
Qed.

Lemma refresh_row_idemp legs row : refresh_row legs (refresh_row legs row) = refresh_row legs row.
Proof. done. Qed.

Definition original_units (b : Batch) : Z := sumZ (rv_original_units <$> ba_reservations b).

Lemma conflict_units_nonneg b : 0 ≤ conflict_units b.
Proof. apply sumZ_nonneg, Forall_fmap, Forall_forall. intros e _. simpl. destruct (0 <=? e.2) eqn:E; bool_prop; lia. Qed.

Lemma terminal_ledger_nonneg b : wf_batch b → 0 ≤ terminal_ledger_cost b.
Proof.
  intros Hb. apply sumZ_nonneg, Forall_fmap, Forall_forall. intros [k e] He%elem_of_map_to_list. exact (ib_ledger _ Hb k e He).
Qed.

(** The occupancy of a batch covers its reservations and its spending. *)
Lemma occupancy_covers b :
  wf_batch b →
  original_units b + conflict_units b + terminal_ledger_cost b ≤ batch_occupancy b ∧
  Forall (λ row, sum_on leg_actual (rv_key row) (ba_legs b) ≤ rv_holding_units row) (ba_reservations b).
Proof.
  intros Hb. split.
  - unfold batch_occupancy, original_units. enough (sumZ (rv_original_units <$> ba_reservations b) ≤
      sumZ ((λ row, rv_remaining_units row + rv_holding_units row) <$> ba_reservations b)) by lia.
    apply sumZ_fmap_le. intros row Hrow. pose proof (proj1 (Forall_forall _ _) (ib_rows _ Hb) row Hrow) as E.
    pose proof (refresh_row_bounds (ba_legs b) row (ib_legs _ Hb)) as Hr. rewrite E in Hr. simpl in Hr. lia.
  - apply Forall_forall. intros row Hrow. pose proof (proj1 (Forall_forall _ _) (ib_rows _ Hb) row Hrow) as E.
    pose proof (refresh_row_bounds (ba_legs b) row (ib_legs _ Hb)) as Hr. rewrite E in Hr. simpl in Hr. lia.
Qed.

(** ** Preservation *)

Lemma incident_copy_frame b r reason :
  ba_legs (incident_copy b r reason) = ba_legs b ∧ ba_reservations (incident_copy b r reason) = ba_reservations b ∧
  ba_terminal_ledger (incident_copy b r reason) = ba_terminal_ledger b ∧
  (∃ entry, ba_receipt_conflicts (incident_copy b r reason) = ba_receipt_conflicts b ++ [entry] ∧
     rx_reason entry = reason ∧ rx_new entry = r) ∧
  (∃ c, ba_unresolved_conflicts (incident_copy b r reason) = ba_unresolved_conflicts b ++ [c] ∧ cx_reason c = reason) ∧
  ba_receipts (incident_copy b r reason) = <[rp_receipt_id r := r]> (ba_receipts b) ∧
  ba_execution_batch_id (incident_copy b r reason) = ba_execution_batch_id b.
Proof. split_and!; try reflexivity; eexists; split_and!; reflexivity. Qed.

Lemma incident_copy_wf b r reason : wf_batch b → wf_batch (incident_copy b r reason).
Proof.
  intros [Hl Hrow He Hle]. split; [done|done| |done]. simpl. intros k v.
  set (key := physical_key _). set (x := if bool_decide _ then _ else _).
  intros [[<- <-]|[_ Hk]]%lookup_insert_Some; [|eauto].
  destruct (ba_conflict_exposure b !! key) as [v|] eqn:E; simpl; [apply He in E; lia|lia].
Qed.

Lemma set_leg_receipt_wf leg r :
  wf_leg leg → (bl_client_order_id leg = rp_client_order_id r → valid_figures (bl_submitted_quantity leg) r) →
  wf_leg (set_leg_receipt (rp_client_order_id r) r leg).
Proof.
  intros [Hs Hm Hr] Hv. unfold set_leg_receipt. destruct (_ =? _)%string eqn:E; [|by split]. bool_prop.
  split; simpl; [done|done|]. intros r' [= <-]. auto.
Qed.

(** Reducing a checked receipt keeps a batch well formed. *)
Lemma reduce_wf b r b' reason changed u :
  wf_batch b → check_order_receipt r = Ok u → reduce b r = Ok (b', reason, changed) → wf_batch b'.
Proof.
  intros Hb Hc [Hr _]%reduce_cases. apply check_receipt_figures in Hc as [Hv _].
  inversion Hr as [|reason' Hin|leg Ef _ _ Es _]; subst; [done|by apply incident_copy_wf|].
  destruct (resolve_conflicts_frame b leg r) as (_ & _ & _ & _ & _ & Hx). destruct Hb as [Hl Hrow He Hle].
  destruct (accept_receipt_frame b leg r) as (El & Er & Et & _ & _ & Ex & _).
  split; [rewrite El|rewrite Er, El|rewrite Ex|by rewrite Et].
  - apply Forall_fmap, Forall_forall. intros l Hin. apply set_leg_receipt_wf.
    + exact (proj1 (Forall_forall _ _) Hl l Hin).
    + intros E. rewrite (filter_single_unique b r leg l Ef Hin E), Es. done.
  - apply Forall_fmap, Forall_forall. done.
  - intros k v Hk. eauto.
Qed.

(** Applying the same receipt again changes nothing. *)
Lemma semantic_eqb_refl r : semantic_eqb r r = true.
Proof.
  unfold semantic_eqb. rewrite !String.eqb_refl, !Z.eqb_refl, !bool_decide_eq_true_2, eqb_reflx by done. done.
Qed.

Lemma reduce_replay b r b' reason :
  reduce b r = Ok (b', reason, true) → reduce b' r = Ok (b', None, false).
Proof.
  intros [Hr Hid]%reduce_cases. inversion Hr as [|reason' Hin|leg Ef Ev Ea Es Hp]; subst.
  all: unfold reduce.
  - destruct (incident_copy_frame b r reason') as (_ & _ & _ & _ & _ & -> & ->).
    rewrite Hid, String.eqb_refl, lookup_insert_eq, semantic_eqb_refl. done.
  - destruct (accept_receipt_frame b leg r) as (_ & _ & _ & -> & _ & _ & _ & -> & _).
    rewrite Hid, String.eqb_refl, lookup_insert_eq, semantic_eqb_refl. done.
Qed.

(** Reducing never changes the state of a batch. *)
Lemma reduce_state b r b' reason changed : reduce b r = Ok (b', reason, changed) → ba_state b' = ba_state b.
Proof.
  intros [Hr _]%reduce_cases. inversion Hr as [|reason' Hin|leg Ef Ev Ea Es Hp]; subst; [done|done|].
  change (ba_state (accept_receipt b leg r)) with (ba_state (resolve_conflicts b leg r)).
  unfold resolve_conflicts. by destruct (_ || _).
Qed.

(** The log only grows. *)
Lemma reduce_log b r b' reason changed :
  reduce b r = Ok (b', reason, changed) → ba_receipt_conflicts b `prefix_of` ba_receipt_conflicts b'.
Proof.
  intros [Hr _]%reduce_cases. inversion Hr as [|reason' Hin|leg Ef Ev Ea Es Hp]; subst.
  - done.
  - destruct (incident_copy_frame b r reason') as (_ & _ & _ & (e & -> & _) & _). by eexists.
  - by destruct (accept_receipt_frame b leg r) as (_ & _ & _ & _ & -> & _).
Qed.

Lemma incident_reason_accepted leg r reason : incident_reason leg r = Some reason → reason ∉ REJECT_REASONS.
Proof.
  unfold incident_reason. intros Hi. repeat match type of Hi with (if ?x then _ else _) = _ => destruct x end;
    try discriminate Hi; injection Hi as <-; by apply (bool_decide_unpack _).
Qed.

(** A rejected receipt is logged, leaves an unresolved conflict and touches
    neither the legs nor the reservations. *)
Lemma reduce_rejected_spec b r b' reason changed :
  reduce b r = Ok (b', Some reason, changed) → reason ∈ REJECT_REASONS →
  ba_legs b' = ba_legs b ∧ ba_reservations b' = ba_reservations b ∧
  (∃ c, ba_unresolved_conflicts b' = ba_unresolved_conflicts b ++ [c] ∧ cx_reason c = reason) ∧
  (∃ e, ba_receipt_conflicts b' = ba_receipt_conflicts b ++ [e] ∧ rx_reason e = reason ∧ rx_new e = r).
Proof.
  intros [Hr _]%reduce_cases Hin. inversion Hr as [|reason' Hin'|leg Ef Ev Ea Es Hp]; subst.
  - destruct (incident_copy_frame b r reason) as (-> & -> & _ & He & Hc & _). done.
  - exfalso. by eapply incident_reason_accepted.
Qed.

(** A conflict is dropped only for a terminal receipt of the same order that
    is newer and reports at least as much cash and fill. *)
Lemma max_of_ge d l x : x ∈ l → x ≤ max_of d l.
Proof.
  destruct l as [|y l]; [by intros ?%not_elem_of_nil|]. simpl.
  assert (Hf : ∀ l a x, x = a ∨ x ∈ l → x ≤ foldl Z.max a l).
  { clear. induction l as [|b l IH]; intros a x [->|Hx]; simpl; [lia|by apply not_elem_of_nil in Hx|..].
    - transitivity (Z.max a b); [lia|]. apply IH. by left.
    - apply elem_of_cons in Hx as [->|Hx]; [transitivity (Z.max a b); [lia|]; apply IH; by left|]. apply IH. by right. }
  intros [->|Hx]%elem_of_cons; apply Hf; auto.
Qed.

Lemma resolved_conflict b leg r c :
  c ∈ ba_unresolved_conflicts b → c ∉ ba_unresolved_conflicts (resolve_conflicts b leg r) →
  cx_kind c = SAME_PHYSICAL ∧ is_terminal (rp_state r) = true ∧
  cx_max_actual_cash_units c ≤ rp_cumulative_cost_units r + rp_cumulative_fee_units r ∧
  cx_max_actual_filled_quantity c ≤ rp_cumulative_filled_quantity r ∧
  cx_max_observed_at c ≤ rp_observed_at r ∧ cx_max_source_timestamp c ≤ rp_venue_timestamp r ∧
  cx_physical_key c = physical_key (intended_identity leg (bl_receipt leg)).
Proof.
  intros Hc. unfold resolve_conflicts. set (related := filter _ _). destruct (_ || _ || _ || _ || _) eqn:E; [done|].
  repeat (apply orb_false_iff in E as [E ?]). repeat match goal with Hn : negb _ = false |- _ => apply negb_false_iff in Hn end.
  simpl. intros Hn. assert (Hrel : c ∈ related).
  { destruct (decide (c ∈ related)) as [?|Hd]; [done|]. destruct Hn. by apply list_elem_of_filter. }
  pose proof Hrel as [[Hk Hkey] _]%list_elem_of_filter.
  match goal with Hd : dominates _ _ = true |- _ => unfold dominates in Hd; apply andb_true_iff in Hd as [[Hcash Hfill]%andb_true_iff Hd] end.
  bool_prop. pose proof (max_of_ge 0 (cx_max_actual_cash_units <$> related) _ (list_elem_of_fmap_2 _ _ _ Hrel)).
  pose proof (max_of_ge 0 (cx_max_actual_filled_quantity <$> related) _ (list_elem_of_fmap_2 _ _ _ Hrel)).
  assert (Ht : cx_max_observed_at c ≤ rp_observed_at r ∧ cx_max_source_timestamp c ≤ rp_venue_timestamp r).
  { match goal with Hd : match rp_sequence r with _ => _ end = true |- _ => rename Hd into Hseq end.
    destruct (rp_sequence r) as [s|]; [|destruct (rp_rest_confirmed r), (rp_rest_observation_version r) as [v|]; try done].
    all: apply andb_true_iff in Hseq as [[_ Ho]%andb_true_iff Hs]; rewrite forallb_forall in Ho, Hs;
      apply list_elem_of_In in Hrel; specialize (Ho c Hrel); specialize (Hs c Hrel); bool_prop; lia. }
  destruct Ht. split_and!; try done; lia.
Qed.
End step.
