(* ===== verification/RepairCorrect.v ===== *)
(** * Receipts applied to a stored batch

    Reachability of batches under [apply_receipt], the invariants that hold
    along every run, the incident discipline, idempotence of the store, the
    exact price of a repair and the choice between repair families. *)

From S2P Require Import Prelude PyValue NLeg NLegForms NLegValidate NLegWf Oracle OracleScenario OracleEval OracleQualify FillProof Receipts BatchStore Repair ReceiptsCorrect.
Local Open Scope Z_scope.

Section runs.
Context `{Sha256}.

Lemma set_status_frame b s i p c t :
  ba_legs (set_status b s i p c t) = ba_legs b ∧ ba_reservations (set_status b s i p c t) = ba_reservations b ∧
  ba_conflict_exposure (set_status b s i p c t) = ba_conflict_exposure b ∧
  ba_terminal_ledger (set_status b s i p c t) = ba_terminal_ledger b ∧
  ba_receipts (set_status b s i p c t) = ba_receipts b ∧
  ba_receipt_conflicts (set_status b s i p c t) = ba_receipt_conflicts b ∧
  ba_unresolved_conflicts (set_status b s i p c t) = ba_unresolved_conflicts b ∧
  ba_execution_batch_id (set_status b s i p c t) = ba_execution_batch_id b ∧
  ba_prior_unsettled_capital_units (set_status b s i p c t) = ba_prior_unsettled_capital_units b.
Proof. done. Qed.

(** Two batches that differ only in status fields. *)
Definition same_facts (b b' : Batch) : Prop := ∃ s i p c t, b' = set_status b s i p c t.

Lemma same_facts_refl b : same_facts b b.
Proof.
  exists (ba_state b), (ba_incident b), (ba_repair_plan b), (ba_execution_controls b), (ba_total_unsettled_capital_units b).
  by destruct b.
Qed.

Lemma same_facts_trans a b c : same_facts a b → same_facts b c → same_facts a c.
Proof. intros (? & ? & ? & ? & ? & ->) (s & i & p & k & t & ->). by exists s, i, p, k, t. Qed.

Lemma same_facts_wf b b' : same_facts b b' → wf_batch b → wf_batch b'.
Proof. intros (s & i & p & c & t & ->) [Hl Hr He Hle]. by split. Qed.

Lemma same_facts_occupancy b b' : same_facts b b' → batch_occupancy b' = batch_occupancy b ∧ original_units b' = original_units b.
Proof. by intros (s & i & p & c & t & ->). Qed.

Definition manual_for (b : Batch) (c : Control) : Prop :=
  ct_mode c = "MANUAL" ∧ ct_active_batch_id c = Some (ba_execution_batch_id b) ∧
  ct_total_unsettled_capital_units c = prior_unsettled b + batch_occupancy b.

(** Opening an incident always stops automation and counts the capital. *)
Lemma open_incident_spec b control reason context b' c' :
  open_incident b control reason context = Ok (b', c') →
  same_facts b b' ∧ ba_state b' = "INCIDENT" ∧ ba_total_unsettled_capital_units b' = batch_occupancy b ∧
  (∃ status, ba_incident b' = Some (opened_incident reason status)) ∧
  ba_execution_controls b' = execution_controls b ∧ manual_for b c' ∧
  (reason ∈ BREAKER_REASONS → ct_breaker_open c' = true) ∧
  (ct_breaker_open control = true → ct_breaker_open c' = true).
Proof.
  unfold open_incident. set (c0 := if bool_decide (reason ∈ BREAKER_REASONS) then _ else _).
  assert (Hm : manual_for b c0) by (unfold c0; destruct (bool_decide _); done).
  assert (Hb0 : reason ∈ BREAKER_REASONS → ct_breaker_open c0 = true)
    by (intros Hin; unfold c0; by rewrite bool_decide_eq_true_2).
  assert (Hb1 : ct_breaker_open control = true → ct_breaker_open c0 = true)
    by (intros Ho; unfold c0; destruct (bool_decide _); done).
  assert (Hgen : ∀ status plan c1, manual_for b c1 → (ct_breaker_open c0 = true → ct_breaker_open c1 = true) →
    let out := set_status b "INCIDENT" (Some (opened_incident reason status)) plan
                 (execution_controls b) (batch_occupancy b) in
    same_facts b out ∧ ba_state out = "INCIDENT" ∧ ba_total_unsettled_capital_units out = batch_occupancy b ∧
    (∃ status, ba_incident out = Some (opened_incident reason status)) ∧
    ba_execution_controls out = execution_controls b ∧ manual_for b c1 ∧
    (reason ∈ BREAKER_REASONS → ct_breaker_open c1 = true) ∧ (ct_breaker_open control = true → ct_breaker_open c1 = true)).
  { intros status plan c1 Hc1 Hk. split; [by repeat eexists|]. split_and!; [done..|by eexists|done|done|auto|auto]. }
  clearbody c0. destruct (negb _); [intros [= <- <-]; by apply Hgen|]. destruct (negb _); [intros [= <- <-]; by apply Hgen|].
  destruct (ba_repair_plan b) as [plan|]; [intros [= <- <-]; by apply Hgen|].
  destruct (repair_plan b context) as [[plan|]|e]; [| |destruct e; try done]; intros [= <- <-]; apply Hgen; try done.
  all: destruct (_ =? _)%string; done.
Qed.

(** The outcome of one applied receipt. *)
Inductive applied (b : Batch) (control : Control) (r : OrderReceipt) : Batch * Control * bool → Prop :=
  | applied_unchanged : applied b control r (b, control, false)
  | applied_incident next reason b' c' :
      reduce b r = Ok (next, Some reason, true) → same_facts next b' → ba_state b' = "INCIDENT" →
      ba_total_unsettled_capital_units b' = batch_occupancy next → manual_for next c' → (reason ∈ BREAKER_REASONS → ct_breaker_open c' = true) →
      (ct_breaker_open control = true → ct_breaker_open c' = true) →
      applied b control r (b', c', true)
  | applied_mixed next b' c' :
      reduce b r = Ok (next, None, true) → same_facts next b' → ba_state b' = "INCIDENT" →
      all_terminal next = true → all_full next = false → all_zero next = false →
      ba_total_unsettled_capital_units b' = batch_occupancy next → manual_for next c' →
      (ct_breaker_open control = true → ct_breaker_open c' = true) →
      applied b control r (b', c', true)
  | applied_awaiting next b' c' :
      reduce b r = Ok (next, None, true) → same_facts next b' → ba_state b' = "AWAITING_RECONCILIATION" →
      all_terminal next = true → all_full next || all_zero next = true → c' = control ∨ c' = take_manual control next →
      applied b control r (b', c', true)
  | applied_progress next b' c' :
      reduce b r = Ok (next, None, true) → same_facts next b' → ba_state b' = ba_state next →
      all_terminal next = false → c' = control ∨ c' = take_manual control next →
      applied b control r (b', c', true).

Lemma apply_reduce_cases r context b control out :
  apply_reduce r context b control = Ok out → applied b control r out.
Proof.
  unfold apply_reduce. intros ([[next reason] changed] & Hr & Ho)%bind_Ok. destruct changed; simpl in Ho.
  2: { injection Ho as <-. constructor. }
  apply bind_Ok in Ho as ([b' c'] & Hs & [= <-]). destruct reason as [reason|].
  - apply open_incident_spec in Hs as (Hf & Hst & Htot & _ & _ & Hm & Hb & Hk). by eapply applied_incident.
  - destruct (ba_incident next) as [existing|].
    + set (n1 := set_status next _ _ _ _ _) in Hs. assert (Hn1 : same_facts next n1) by (by repeat eexists).
      change (all_terminal n1) with (all_terminal next) in Hs. change (all_full n1) with (all_full next) in Hs.
      change (all_zero n1) with (all_zero next) in Hs.
      destruct (all_terminal next) eqn:Et; [destruct (all_full next || all_zero next) eqn:Ef|].
      * injection Hs as <- <-. eapply applied_awaiting; [done|eapply same_facts_trans; [exact Hn1|by repeat eexists]|auto..].
      * apply open_incident_spec in Hs as (Hf & Hst & Htot & _ & _ & Hm & _ & Hk). apply orb_false_iff in Ef as [? ?].
        eapply applied_mixed; [done|by eapply same_facts_trans|done..].
      * injection Hs as <- <-. eapply applied_progress; [done|exact Hn1|auto..].
    + destruct (all_terminal next) eqn:Et; [destruct (all_full next || all_zero next) eqn:Ef|].
      * injection Hs as <- <-. eapply applied_awaiting; [done|by repeat eexists|auto..].
      * apply open_incident_spec in Hs as (Hf & Hst & Htot & _ & _ & Hm & _ & Hk). apply orb_false_iff in Ef as [? ?].
        by eapply applied_mixed.
      * injection Hs as <- <-. eapply applied_progress; [done|apply same_facts_refl|auto..].
Qed.

(** ** Runs *)

(** One checked receipt, with whatever repair context and control row; a
    changed batch is stored. *)
Inductive batch_step : Batch → Batch → Prop :=
  | batch_step_intro b control r context b' control' changed u :
      check_order_receipt r = Ok u → apply_reduce r context b control = Ok (b', control', changed) →
      batch_step b (if changed then persist b' else b').

Lemma applied_reduce b control r b' c' changed :
  applied b control r (b', c', changed) →
  b' = b ∨ ∃ next reason, reduce b r = Ok (next, reason, true) ∧ same_facts next b'.
Proof. inversion 1; subst; eauto 10. Qed.

Lemma reduce_original b r b' reason changed : reduce b r = Ok (b', reason, changed) → original_units b' = original_units b.
Proof.
  intros [Hr _]%reduce_cases. inversion Hr as [|reason' Hin|leg Ef Ev Ea Es Hp]; subst; [done|done|].
  unfold original_units. destruct (accept_receipt_frame b leg r) as (_ & -> & _). by rewrite <- list_fmap_compose.
Qed.

Record progress (b b' : Batch) : Prop := {
  pg_wf : wf_batch b';
  pg_legs : Forall2 leg_le (ba_legs b) (ba_legs b');
  pg_log : ba_receipt_conflicts b `prefix_of` ba_receipt_conflicts b';
  pg_reserved : original_units b' = original_units b;
}.

Lemma persist_progress b b' : progress b b' → progress b (persist b').
Proof. intros [[Hl Hr He Hle] ? ? ?]. by split. Qed.

Lemma persist_capital b :
  batch_occupancy (persist b) = batch_occupancy b ∧ original_units (persist b) = original_units b ∧
  conflict_units (persist b) = conflict_units b ∧ terminal_ledger_cost (persist b) = terminal_ledger_cost b.
Proof. done. Qed.

Lemma apply_reduce_progress r context b control b' control' changed u :
  wf_batch b → check_order_receipt r = Ok u → apply_reduce r context b control = Ok (b', control', changed) →
  progress b b'.
Proof.
  intros Hb Hc Ha. apply apply_reduce_cases, applied_reduce in Ha as [->|(next & reason & Hr & Hf)]; [by split|].
  pose proof (reduce_wf b r next reason true u Hb Hc Hr) as Hw. pose proof (same_facts_wf _ _ Hf Hw).
  pose proof (reduce_monotone b r next reason true Hr). pose proof (reduce_log b r next reason true Hr).
  pose proof (reduce_original b r next reason true Hr) as Eo. destruct (same_facts_occupancy _ _ Hf) as [_ Eo'].
  destruct Hf as (s & i & p & c & t & ->). by split; [..|rewrite Eo', Eo].
Qed.

Lemma batch_step_progress b b' : wf_batch b → batch_step b b' → progress b b'.
Proof.
  intros Hb Hs. inversion Hs as [? control r context ? control' changed u Hc Ha]; subst.
  pose proof (apply_reduce_progress _ _ _ _ _ _ _ _ Hb Hc Ha). destruct changed; [by apply persist_progress|done].
Qed.

Lemma run_progress b b' : wf_batch b → rtc batch_step b b' → progress b b'.
Proof.
  intros Hb Hr. induction Hr as [b|b b1 b2 Hs _ IH]; [by split|].
  destruct (batch_step_progress b b1 Hb Hs) as [Hw1 Hl1 Hg1 Ho1]. destruct (IH Hw1) as [Hw2 Hl2 Hg2 Ho2].
  split; [done|by etransitivity|by etransitivity|congruence].
Qed.

(** ** The store *)

Lemma apply_reduce_unchanged r context context' b control out :
  apply_reduce r context b control = Ok (out, false) → apply_reduce r context' b control = Ok (b, control, false).
Proof.
  unfold apply_reduce. intros ([[next reason] changed] & Hr & Ho)%bind_Ok. rewrite Hr. destruct changed; simpl in Ho |- *; [|done].
  apply bind_Ok in Ho as ([b' c'] & _ & ?). by destruct out.
Qed.

(** A transition is idempotent when a reducer that changes nothing never
    changes anything. *)
Lemma n_leg_reduce_idempotent st id key reducer reducer' st' b' :
  (∀ b control out, reducer b control = Ok (out, false) → reducer' b control = Ok (b, control, false)) →
  n_leg_reduce st id key reducer = Ok (st', b') → n_leg_reduce st' id key reducer' = Ok (st', b').
Proof.
  intros Hu. unfold n_leg_reduce. intros (b & Hb%of_option_Ok & Ht)%bind_Ok. destruct (bool_decide _) eqn:Ek.
  { injection Ht as <- <-. rewrite Hb. simpl. by rewrite Ek. }
  apply bind_Ok in Ht as ([[next control] changed] & Ha & Ht). destruct changed; simpl in Ht.
  - injection Ht as <- <-. simpl. rewrite lookup_insert_eq. simpl. rewrite bool_decide_eq_true_2 by set_solver. done.
  - injection Ht as <- <-. rewrite Hb. simpl. rewrite Ek. by rewrite (Hu b _ _ Ha).
Qed.

Lemma apply_receipt_idempotent st r context context' st' b' :
  apply_receipt st r context = Ok (st', b') → apply_receipt st' r context' = Ok (st', b').
Proof. apply n_leg_reduce_idempotent. intros b control out. apply apply_reduce_unchanged. Qed.
End runs.

(** * The price of a repair and the choice of a repair plan

    [_book_units] against a lot-by-lot reference, and what a plan returned by
    [_repair_plan] promises: it is never executed automatically, its family is
    the cheaper one, a completion fits the reservation and both balances, and
    its loss bounds the loss in every outcome the frozen problem allows. *)

(** ** The book *)

Definition lot_price (price : CanonicalBookLevel → Z) (levels : list CanonicalBookLevel) (lot : Z) : Z :=
  match py_next (λ l, (lv_first_lot l <=? lot) && (lot <=? lv_last_lot l)) levels with
  | Some l => price l
  | None => 0
  end.

Definition book_depth (prev : Z) (levels : list CanonicalBookLevel) : Z :=
  match last levels with Some l => lv_last_lot l | None => prev end.

Definition lots_value (price : CanonicalBookLevel → Z) (levels : list CanonicalBookLevel) (quantity : Z) : Z :=
  sumZ (lot_price price levels <$> seqZ 1 quantity).

Definition level_ok (l : CanonicalBookLevel) : Prop :=
  lv_first_lot l ≤ lv_last_lot l ∧ 0 < lv_buy_ask_units l ∧ 0 < lv_sell_bid_units l.

Lemma check_level_ok l u : check_level l = Ok u → level_ok l.
Proof.
  unfold check_level. intros (? & H1%require_Ok & H2%require_Ok)%bind_Ok. bool_prop. split_and!; lia.
Qed.

Lemma lot_price_here price l levels lot :
  lv_first_lot l ≤ lot ≤ lv_last_lot l → lot_price price (l :: levels) lot = price l.
Proof.
  intros [H1 H2]. unfold lot_price, py_next. simpl.
  by rewrite (proj2 (Z.leb_le _ _) H1), (proj2 (Z.leb_le _ _) H2).
Qed.

Lemma lot_price_later price l levels lot :
  lv_last_lot l < lot → lot_price price (l :: levels) lot = lot_price price levels lot.
Proof.
  intros H. unfold lot_price, py_next. simpl. by rewrite (proj2 (Z.leb_gt lot (lv_last_lot l)) H), andb_false_r.
Qed.

Lemma book_depth_cons prev l levels : book_depth prev (l :: levels) = book_depth (lv_last_lot l) levels.
Proof. unfold book_depth. rewrite last_cons. by destruct (last levels). Qed.

Lemma book_depth_le prev levels :
  contiguous_levels prev levels = true → Forall level_ok levels → prev ≤ book_depth prev levels.
Proof.
  revert prev; induction levels as [|l levels IH]; intros prev Hc Hf; [done|].
  simpl in Hc. apply andb_true_iff in Hc as [Hfirst Hc]. bool_prop. apply Forall_cons in Hf as [[Hl _] Hf].
  rewrite book_depth_cons. pose proof (IH _ Hc Hf). lia.
Qed.

(** The walk charges every lot the price of the level that contains it, and
    fails exactly when the book is too thin. *)
Lemma book_loop_exact price prev q total levels :
  contiguous_levels prev levels = true → Forall level_ok levels → prev < q →
  book_loop price (q - prev) total levels
  = if q <=? book_depth prev levels
    then Ok (total + sumZ (lot_price price levels <$> seqZ (prev + 1) (q - prev))) else Err no_depth.
Proof.
  revert prev total; induction levels as [|l levels IH]; intros prev total Hc Hf Hq.
  { unfold book_depth. simpl. by rewrite (proj2 (Z.leb_gt q prev)). }
  simpl in Hc. apply andb_true_iff in Hc as [Hfirst Hc]. bool_prop. apply Forall_cons in Hf as [[Hl _] Hf].
  pose proof (book_depth_le _ _ Hc Hf) as Hd. rewrite book_depth_cons. cbn [book_loop].
  replace (lv_last_lot l - lv_first_lot l + 1) with (lv_last_lot l - prev) by lia.
  set (n := Z.min (q - prev) (lv_last_lot l - prev)).
  rewrite (proj2 (Z.leb_gt n 0)) by lia.
  assert (Hsum : sumZ (lot_price price (l :: levels) <$> seqZ (prev + 1) n) = n * price l).
  { rewrite (sumZ_const _ (price l)).
    - rewrite length_seqZ. nia.
    - intros lot Hlot%elem_of_seqZ. apply lot_price_here. lia. }
  destruct (Z.eqb_spec (q - prev - n) 0) as [E|E].
  { rewrite (proj2 (Z.leb_le q _)) by lia. f_equal. replace (q - prev) with n by lia. lia. }
  replace (q - prev - n) with (q - lv_last_lot l) by lia. rewrite IH by (done || lia).
  destruct (q <=? _) eqn:Eq; [|done]. f_equal.
  replace (q - prev) with (n + (q - lv_last_lot l)) by lia. rewrite seqZ_app, fmap_app, sumZ_app, Hsum by lia.
  replace (prev + 1 + n) with (lv_last_lot l + 1) by lia.
  rewrite (sumZ_fmap_ext (lot_price price (l :: levels)) (lot_price price levels)); [lia|].
  intros lot Hlot%elem_of_seqZ. apply lot_price_later. lia.
Qed.

(** What [RepairQuote] and its levels checked at construction. *)
Record quote_ok (q : RepairQuote) : Prop := {
  qo_levels : Forall level_ok (qt_levels q);
  qo_contiguous : contiguous_levels 0 (qt_levels q) = true;
  qo_fee : 0 ≤ qt_fee_ppm q;
  qo_tick : 0 < qt_tick_units q;
  qo_slippage : 0 ≤ qt_slippage_units q;
}.

Lemma check_quote_ok q u k :
  mapM check_level (qt_levels q) = Ok k → check_quote q = Ok u → quote_ok q.
Proof.
  intros Hl. unfold check_quote. intros (? & _ & (? & Hn & (? & Ht%require_Ok & (? & _ & Hc%require_Ok)%bind_Ok)%bind_Ok)%bind_Ok)%bind_Ok.
  apply mapM_Ok in Hn as Hn. apply andb_true_iff in Hc as [_ Hc].
  inversion Hn as [|? ? ? ? H1 Hn1]; subst. inversion Hn1 as [|? ? ? ? H2 _]; subst.
  unfold check_nonnegative in H1, H2. simpl in H1, H2. apply require_Ok in H1, H2. bool_prop.
  split; [|done|lia..].
  apply mapM_Ok in Hl. clear - Hl. induction Hl as [|l v levels vs Hv _ IH]; constructor; [by eapply check_level_ok|done].
Qed.

Definition ask_price (q : RepairQuote) (l : CanonicalBookLevel) : Z :=
  lv_buy_ask_units l + qt_tick_units q + qt_slippage_units q.
Definition bid_price (q : RepairQuote) (l : CanonicalBookLevel) : Z :=
  Z.max 0 (lv_sell_bid_units l - qt_tick_units q - qt_slippage_units q).

Definition depth (q : RepairQuote) : Z := book_depth 0 (qt_levels q).

Lemma book_loop_ext f g n t levels :
  (∀ l, l ∈ levels → f l = g l) → book_loop f n t levels = book_loop g n t levels.
Proof.
  revert n t; induction levels as [|l levels IH]; intros n t Hfg; [done|]. cbn [book_loop].
  rewrite (Hfg l) by set_solver. by rewrite !IH by set_solver.
Qed.

Lemma book_units_buy q quantity :
  quote_ok q → 0 < quantity →
  book_units q quantity true (qt_tick_units q + qt_slippage_units q)
  = if quantity <=? depth q then Ok (lots_value (ask_price q) (qt_levels q) quantity) else Err no_depth.
Proof.
  intros Hq Hpos. unfold book_units, lots_value, depth.
  rewrite (book_loop_ext _ (ask_price q)).
  - pose proof (book_loop_exact (ask_price q) 0 quantity 0 (qt_levels q) (qo_contiguous _ Hq) (qo_levels _ Hq) Hpos) as E.
    rewrite Z.sub_0_r in E. exact E.
  - intros l Hl. pose proof (proj1 (Forall_forall _ _) (qo_levels _ Hq) l Hl) as (_ & ? & _).
    pose proof (qo_tick _ Hq). pose proof (qo_slippage _ Hq). unfold ask_price. lia.
Qed.

Lemma book_units_sell q quantity :
  quote_ok q → 0 < quantity →
  book_units q quantity false (- (qt_tick_units q + qt_slippage_units q))
  = if quantity <=? depth q then Ok (lots_value (bid_price q) (qt_levels q) quantity) else Err no_depth.
Proof.
  intros Hq Hpos. unfold book_units, lots_value, depth.
  rewrite (book_loop_ext _ (bid_price q)).
  - pose proof (book_loop_exact (bid_price q) 0 quantity 0 (qt_levels q) (qo_contiguous _ Hq) (qo_levels _ Hq) Hpos) as E.
    rewrite Z.sub_0_r in E. exact E.
  - intros l Hl. unfold bid_price. lia.
Qed.

(** The fee is the exact percentage rounded up. *)
Lemma fee_of_ceil gross ppm : fee_of gross ppm = ceil_div (gross * ppm) 1000000.
Proof. unfold fee_of, ceil_div. f_equal. lia. Qed.

Lemma buy_cost_exact q quantity :
  quote_ok q → 0 < quantity →
  buy_cost q quantity
  = if quantity <=? depth q
    then let gross := lots_value (ask_price q) (qt_levels q) quantity in
         Ok (gross + ceil_div (gross * qt_fee_ppm q) 1000000)
    else Err no_depth.
Proof.
  intros Hq Hpos. unfold buy_cost. rewrite book_units_buy by done. destruct (_ <=? _); [|done].
  cbn [mbind res_bind]. by rewrite fee_of_ceil.
Qed.

Lemma sell_proceeds_exact q quantity :
  quote_ok q → 0 < quantity →
  sell_proceeds q quantity
  = if quantity <=? depth q
    then let gross := lots_value (bid_price q) (qt_levels q) quantity in
         Ok (Z.max 0 (gross - ceil_div (gross * qt_fee_ppm q) 1000000))
    else Err no_depth.
Proof.
  intros Hq Hpos. unfold sell_proceeds. rewrite book_units_sell by done. destruct (_ <=? _); [|done].
  cbn [mbind res_bind]. by rewrite fee_of_ceil.
Qed.

(** ** Plans *)

Section plans.
Context `{Sha256}.

Definition spent (c : RepairContext) : Z := sumZ (flow_units <$> kx_cash_flows c).

(** The frozen problem and the quantities that were submitted of it. *)
Definition frozen (b : Batch) : ArbitrageProblem := sorted_problem (ba_frozen_problem b).
Definition submitted_portfolio (b : Batch) : list ActionQuantity :=
  let submitted := py_dict ((λ leg, (bl_action_id leg, bl_submitted_quantity leg)) <$> ba_legs b) in
  omap (λ a, AQ (ca_action_id a) <$> submitted !! ca_action_id a) (pb_actions (frozen b)).

(** Buying [cost] for each leg of [complete] fits the account [k]. *)
Definition affordable (b : Batch) (c : RepairContext) (costs : list (account_key * Z)) (k : account_key) : Prop :=
  ∃ balance, balance_of c k = Ok balance ∧
    sums_by fst snd costs k ≤ remaining_for b c k ∧
    sums_by fst snd costs k ≤ ab_available_units balance ∧ sums_by fst snd costs k ≤ ab_allowance_units balance.

Definition priced (c : RepairContext) (cost : RepairQuote → Z → res Z) (e : BatchLeg * Z) (k : account_key * Z) : Prop :=
  ∃ q, index_by qt_client_order_id (kx_quotes c) !! bl_client_order_id e.1 = Some q ∧
       quote_key q = k.1 ∧ cost q e.2 = Ok k.2.

(** What a completion promises. *)
Definition completes (b : Batch) (c : RepairContext) (x : RepairCandidate) : Prop :=
  ra_family x = COMPLETE_REMAINING ∧ ra_legs x = by_client (to_complete b) ∧ to_complete b ≠ [] ∧
  ∃ costs ev,
    Forall2 (priced c buy_cost) (to_complete b) costs ∧
    Forall (affordable b c costs) costs.*1 ∧
    evaluate_fixed_portfolio (frozen b) (submitted_portfolio b) (ba_frozen_budget b) = Ok ev ∧
    ra_worst_terminal_payout_units x = pe_payout_lower_bound_units ev ∧
    ra_conservative_total_loss_units x
    = Z.max 0 (spent c + sumZ (snd <$> costs) - pe_payout_lower_bound_units ev).

(** What an exit promises: it sells what is held, and counts no payout. *)
Definition exits (b : Batch) (c : RepairContext) (x : RepairCandidate) : Prop :=
  ra_family x = EXIT_CONFIRMED ∧ ra_legs x = by_client (to_exit b) ∧ to_exit b ≠ [] ∧
  exit_covered c (to_exit b) = true ∧ ra_worst_terminal_payout_units x = 0 ∧
  ∃ proceeds,
    Forall2 (priced c sell_proceeds) (to_exit b) proceeds ∧
    ra_conservative_total_loss_units x = Z.max 0 (spent c - sumZ (snd <$> proceeds)).

Lemma as_unavailable_Ok {A} (m : res A) a : as_unavailable m = Ok a → m = Ok a.
Proof. destruct m as [|[]]; done. Qed.

Lemma try_family_in skip m cs fs x :
  try_family skip m = Ok (cs, fs) → x ∈ cs → skip = false ∧ m = Ok (Some x).
Proof.
  unfold try_family. destruct skip; [intros [= <- <-]; set_solver|].
  destruct m as [[y|]|[]]; intros [= <- <-]; set_solver.
Qed.

Lemma candidate_complete b legs spend x :
  candidate b COMPLETE_REMAINING legs spend 0 = Ok x →
  ra_family x = COMPLETE_REMAINING ∧ ra_legs x = legs ∧ ∃ ev,
  evaluate_fixed_portfolio (frozen b) (submitted_portfolio b) (ba_frozen_budget b) = Ok ev ∧
  ra_worst_terminal_payout_units x = pe_payout_lower_bound_units ev ∧
  ra_conservative_total_loss_units x = Z.max 0 (spend - pe_payout_lower_bound_units ev).
Proof.
  unfold candidate. intros (payout & Hp%as_unavailable_Ok & [= <-])%bind_Ok.
  apply bind_Ok in Hp as (_ & _ & Hp). cbn [String.eqb] in Hp. apply fmap_Ok in Hp as (ev & Hev & ->).
  split_and!; [done..|]. exists ev. split_and!; [exact Hev|done|]. simpl. f_equal. lia.
Qed.

Lemma candidate_exit b legs spend proceeds x :
  candidate b EXIT_CONFIRMED legs spend proceeds = Ok x →
  ra_family x = EXIT_CONFIRMED ∧ ra_legs x = legs ∧ ra_worst_terminal_payout_units x = 0 ∧
  ra_conservative_total_loss_units x = Z.max 0 (spend - proceeds).
Proof.
  unfold candidate. intros (payout & Hp%as_unavailable_Ok & [= <-])%bind_Ok.
  apply bind_Ok in Hp as (_ & _ & Hp). injection Hp as <-. split_and!; [done..|]. simpl. f_equal. lia.
Qed.

Lemma complete_candidate_spec b c x :
  to_complete b ≠ [] → complete_candidate b c (to_complete b) = Ok (Some x) → completes b c x.
Proof.
  intros Hne. unfold complete_candidate. intros (costs & Hc%mapM_Ok & (fits & Hf%mapM_Ok & Hx)%bind_Ok)%bind_Ok.
  destruct (forallb id fits) eqn:Ef; [|done]. apply fmap_Ok in Hx as (y & Hx & [= <-]).
  apply candidate_complete in Hx as (Hfam & Hlegs & ev & Hev & Hpay & Hloss).
  split_and!; [done..|]. exists costs, ev. split_and!; [| |done..].
  - eapply Forall2_impl; [exact Hc|]. intros e k (q & Hq%of_option_Ok & (cost & Hcost & [= <-])%bind_Ok)%bind_Ok.
    by exists q.
  - apply Forall_fmap, Forall_forall. intros k Hk. apply list_elem_of_lookup in Hk as (i & Hi).
    destruct (Forall2_lookup_l _ _ _ _ _ Hf Hi) as (v & Hv & (bal & Hb & [= Ev])%bind_Ok).
    rewrite forallb_forall in Ef. assert (Hall : v = true) by (apply (Ef v), list_elem_of_In, list_elem_of_lookup; eauto).
    rewrite Hall in Ev. bool_prop. by exists bal.
Qed.

Lemma exit_candidate_spec b c x :
  to_exit b ≠ [] → exit_covered c (to_exit b) = true →
  exit_candidate b c (to_exit b) = Ok (Some x) → exits b c x.
Proof.
  intros Hne Hcov. unfold exit_candidate. intros (proceeds & Hc%mapM_Ok & Hx)%bind_Ok.
  apply fmap_Ok in Hx as (y & Hx & [= <-]). apply candidate_exit in Hx as (Hfam & Hlegs & Hpay & Hloss).
  split_and!; [done..|].
  assert (Hp : ∃ k, Forall2 (priced c sell_proceeds) (to_exit b) k ∧ k.*2 = proceeds).
  { clear - Hc. induction Hc as [|e v es vs Hv _ (k & Hk & Ek)]; [by exists []|].
    apply bind_Ok in Hv as (q & Hq%of_option_Ok & Hv). exists ((quote_key q, v) :: k).
    split; [constructor; [by exists q|done]|]. csimpl. by f_equal. }
  destruct Hp as (k & Hk & Ek). exists k. split; [done|]. by rewrite Ek.
Qed.

Lemma seal_candidate_keeps ctx x :
  ra_conservative_total_loss_units (seal_candidate ctx x) = ra_conservative_total_loss_units x ∧
  (∀ b c, completes b c x → completes b c (seal_candidate ctx x)) ∧
  (∀ b c, exits b c x → exits b c (seal_candidate ctx x)).
Proof. done. Qed.

(** The selected candidate is one of them, and none loses less. *)
Lemma select_candidate_min x l :
  select_candidate x l ∈ x :: l ∧
  ∀ y, y ∈ x :: l → ra_conservative_total_loss_units (select_candidate x l) ≤ ra_conservative_total_loss_units y.
Proof.
  unfold select_candidate. revert x; induction l as [|z l IH]; intros x; simpl.
  { split; [set_solver|]. intros y ->%list_elem_of_singleton. lia. }
  set (best := if candidate_before z x then z else x). destruct (IH best) as [Hin Hmin]. split.
  { apply elem_of_cons in Hin as [->|Hin]; [|set_solver]. unfold best. destruct (candidate_before z x); set_solver. }
  assert (Hbest : ra_conservative_total_loss_units best ≤ ra_conservative_total_loss_units x
                ∧ ra_conservative_total_loss_units best ≤ ra_conservative_total_loss_units z).
  { unfold best, candidate_before.
    destruct (Z.eqb_spec (ra_conservative_total_loss_units z) (ra_conservative_total_loss_units x)) as [E|E].
    - destruct (negb _); lia.
    - destruct (_ <? _) eqn:E'; bool_prop; lia. }
  pose proof (Hmin best ltac:(set_solver)).
  intros y [->|[->|Hy]%elem_of_cons]%elem_of_cons; [lia|lia|]. apply Hmin. set_solver.
Qed.

Record plan_ok (b : Batch) (c : RepairContext) (plan : RepairPlan) : Prop := {
  po_unconflicted : ba_unresolved_conflicts b = [];
  po_bound : context_bound b c = true ∧ bound_cash_flows b (kx_cash_flows c) (kx_now c) = true;
  po_manual : rl_auto_eligible plan = false;
  po_family : rl_family plan = ra_family (rl_candidate plan);
  po_reason : rl_reason plan = if ba_max_auto_repair_loss b <? ra_conservative_total_loss_units (rl_candidate plan)
                               then "REPAIR_LOSS_CAP_EXCEEDED" else "REPAIR_PROOF_REQUIRED";
  po_candidate : completes b c (rl_candidate plan) ∨ exits b c (rl_candidate plan);
  po_cheapest : ∀ x, complete_candidate b c (to_complete b) = Ok (Some x) ∧ to_complete b ≠ [] ∨
                     exit_candidate b c (to_exit b) = Ok (Some x) ∧ to_exit b ≠ [] ∧ exit_covered c (to_exit b) = true →
     ra_conservative_total_loss_units (rl_candidate plan) ≤ ra_conservative_total_loss_units x;
}.

Lemma repair_plan_ok b c plan : repair_plan b (Some c) = Ok (Some plan) → plan_ok b c plan.
Proof.
  unfold repair_plan. destruct (ba_unresolved_conflicts b) eqn:Eu; [|done].
  destruct (context_bound b c) eqn:Eb; [|done]. simpl negb. cbn [negb].
  set (es0 := if exit_covered c (to_exit b) then to_exit b else []).
  destruct (bound_cash_flows b (kx_cash_flows c) (kx_now c)) eqn:Ef; [|done]. cbn [negb].
  intros ([cs fs] & Hcs & ([es fs'] & Hes & Hsel)%bind_Ok)%bind_Ok.
  destruct (cs ++ es) as [|x l] eqn:El; [destruct (fs ++ fs'); done|].
  apply bind_Ok in Hsel as (ctx & _ & [= <-]).
  destruct (select_candidate_min (seal_candidate ctx x) (seal_candidate ctx <$> l)) as [Hin Hmin].
  change (seal_candidate ctx x :: (seal_candidate ctx <$> l)) with (seal_candidate ctx <$> x :: l) in Hin, Hmin.
  split; [done|done|done|done|done| |].
  - simpl. apply list_elem_of_fmap in Hin as (y & -> & Hy). destruct (seal_candidate_keeps ctx y) as (_ & Hk1 & Hk2).
    rewrite <- El in Hy. apply elem_of_app in Hy as [Hy|Hy].
    + left. apply Hk1. destruct (try_family_in _ _ _ _ _ Hcs Hy) as [Hs Hm]. apply complete_candidate_spec; [|done].
      by destruct (to_complete b).
    + right. apply Hk2. destruct (try_family_in _ _ _ _ _ Hes Hy) as [Hs Hm]. unfold es0 in Hs, Hm.
      destruct (exit_covered c (to_exit b)) eqn:Ec; [|done]. apply exit_candidate_spec; [|done..]. by destruct (to_exit b).
  - intros y Hy. simpl. enough (Hyl : y ∈ x :: l).
    { pose proof (Hmin (seal_candidate ctx y) ltac:(apply list_elem_of_fmap; eauto)) as Hle.
      by rewrite (proj1 (seal_candidate_keeps ctx y)) in Hle. }
    rewrite <- El. apply elem_of_app. destruct Hy as [[Hy Hne]|(Hy & Hne & Hc)].
    + left. unfold try_family in Hcs. destruct (to_complete b); [done|]. cbn [length Nat.eqb] in Hcs. rewrite Hy in Hcs. injection Hcs as <- _. set_solver.
    + right. unfold try_family in Hes. unfold es0 in Hes. rewrite Hc in Hes. destruct (to_exit b); [done|].
      cbn [length Nat.eqb] in Hes. rewrite Hy in Hes. injection Hes as <- _. set_solver.
Qed.

(** The loss of a completion is not exceeded in any outcome the frozen
    problem allows, whatever lower price the remaining lots are bought at. *)
Lemma completion_loss b c x :
  completes b c x →
  ∃ costs qs, Forall2 (priced c buy_cost) (to_complete b) costs ∧ selection (frozen b) qs ∧
    qs = sort_on aq_action_id (filter (λ q, aq_quantity_lots q ≠ 0) (submitted_portfolio b)) ∧
    ∀ paid ω, paid ≤ sumZ (snd <$> costs) → allowed (frozen b) ω →
      spent c + paid - realized_payout (frozen b) ω qs ≤ ra_conservative_total_loss_units x.
Proof.
  intros (_ & _ & _ & costs & ev & Hc & _ & Hev & _ & ->). apply evaluate_sound in Hev as Hs.
  exists costs, (pe_quantities ev). split_and!; [done|apply Hs|apply Hs|].
  intros paid ω Hp Hω. pose proof (es_lower _ _ _ Hs ω Hω). lia.
Qed.
End plans.
