(* ===== verification/ReconcileCorrect.v ===== *)
(** * What a completed reconciliation guarantees

    Every open conflict was closed by newer evidence for the same physical
    order; every leg is backed by a fresh cash flow with the same figures;
    every reported fill is held; and the capital that stays unsettled covers
    the cash that left the accounts. *)

From S2P Require Import Prelude PyValue NLeg NLegForms FillProof Receipts BatchStore Repair Reconcile ReceiptsCorrect RepairCorrect.
Local Open Scope Z_scope.

(** ** Sums by key *)

Lemma filter_split {A} (P : A → Prop) `{∀ x, Decision (P x)} (l : list A) :
  l ≡ₚ filter P l ++ filter (λ x, ¬ P x) l.
Proof.
  induction l as [|x l IH]; [done|]. rewrite !filter_cons. destruct (decide (P x)).
  - rewrite decide_False by tauto. simpl. by constructor.
  - rewrite decide_True by done. rewrite <- Permutation_middle. by constructor.
Qed.

(** A sum over a list is the sum of its sums by key. *)
Lemma sumZ_by_key {A K} `{EqDecision K} (key : A → K) (f : A → Z) (ks : list K) (l : list A) :
  NoDup ks → Forall (λ x, key x ∈ ks) l →
  sumZ (f <$> l) = sumZ ((λ k, sumZ (f <$> filter (λ x, key x = k) l)) <$> ks).
Proof.
  revert l. induction ks as [|k ks IH]; intros l Hnd Hl.
  - destruct l as [|x l]; [done|]. apply Forall_cons in Hl as [Hx _]. by apply not_elem_of_nil in Hx.
  - apply NoDup_cons in Hnd as [Hk Hnd]. csimpl.
    rewrite (sumZ_perm (f <$> l) (f <$> filter (λ x, key x = k) l ++ filter (λ x, ¬ key x = k) l))
      by (by apply fmap_Permutation, filter_split).
    rewrite fmap_app, sumZ_app. f_equal. rewrite (IH (filter (λ x, ¬ key x = k) l) Hnd).
    + apply sumZ_fmap_ext. intros k' Hk'. rewrite list_filter_filter. do 3 f_equal.
      apply list_filter_iff. intros x. split; [tauto|]. intros <-. split; [done|]. intros E. by rewrite E in Hk'.
    + apply Forall_forall. intros x [Hx Hin]%list_elem_of_filter.
      pose proof (proj1 (Forall_forall _ _) Hl x Hin) as E. simpl in E. apply elem_of_cons in E. tauto.
Qed.

(** ** Positions *)

Definition position (l : list (account_key * Z)) (k : account_key) : Z := sumZ (snd <$> filter (λ e, e.1 = k) l).

Lemma add_units_fold m l k :
  default 0 (foldl add_units m l !! k) = default 0 (m !! k) + position l k ∧
  (is_Some (foldl add_units m l !! k) ↔ is_Some (m !! k) ∨ k ∈ l.*1).
Proof.
  revert m. induction l as [|[j q] l IH]; intros m.
  - simpl. split; [unfold position; simpl; lia|]. split; [auto|]. by intros [?|?%not_elem_of_nil].
  - simpl. destruct (IH (add_units m (j, q))) as [E1 E2]. rewrite E1, E2. unfold position. rewrite filter_cons.
    unfold add_units. simpl. destruct (decide (j = k)) as [->|Hne].
    + rewrite lookup_insert_eq. csimpl. split; [lia|]. rewrite elem_of_cons. split; [auto|]. by left.
    + rewrite lookup_insert_ne by done. split; [lia|]. rewrite elem_of_cons. split; [tauto|].
      intros [?|[?|?]]; [auto|congruence|auto].
Qed.

Lemma totals_lookup l k : k ∈ l.*1 → totals l !! k = Some (position l k).
Proof.
  intros Hk. destruct (add_units_fold ∅ l k) as [E1 E2]. unfold totals.
  destruct (proj2 E2 (or_intror Hk)) as [v Hv]. rewrite Hv in E1 |- *. rewrite lookup_empty in E1. simpl in E1. f_equal. lia.
Qed.

Lemma positions_covered_spec b c :
  positions_covered b c = true →
  (∀ k, k ∈ settlement_keys b → k ∈ ab_key <$> as_balances (rk_account_snapshot c)) ∧
  (∀ k, k ∈ (filled_positions (ba_legs b) (ba_terminal_ledger b)).*1 →
     position (filled_positions (ba_legs b) (ba_terminal_ledger b)) k ≤ actual_holding c k).
Proof.
  intros [Hk Hp]%andb_true_iff. rewrite forallb_forall in Hk, Hp. split.
  - intros k Hin%list_elem_of_In. exact (bool_decide_eq_true_1 _ (Hk k Hin)).
  - intros k Hin. apply totals_lookup, elem_of_map_to_list, list_elem_of_In, Hp in Hin. by bool_prop.
Qed.

(** ** Evidence *)

(** The evidence is about the same order and newer than all the conflict saw. *)
Record supersedes (c : Conflict) (e : ConflictResolutionEvidence) : Prop := {
  su_order : resolution_identity e = cx_physical_identity c;
  su_source : cx_max_source_timestamp c < dt_us (cr_source_timestamp e);
  su_observed : cx_max_observed_at c < dt_us (cr_observed_at e);
  su_version : default (-1) (cx_max_rest_observation_version c) < cr_observation_version e;
  su_unbound : cx_kind c = UNBOUND → cr_outcome e = RESOLVED_NOT_FOUND;
  su_absent : cr_outcome e = RESOLVED_NOT_FOUND → cr_rest_confirmed e = true;
  su_terminal : cr_outcome e = RESOLVED_TERMINAL →
    is_terminal_state (cr_terminal_state e) = true ∧
    cx_max_actual_cash_units c ≤ cr_cumulative_cost_units e + cr_cumulative_fee_units e ∧
    cx_max_actual_filled_quantity c ≤ cr_cumulative_filled_quantity e;
}.

Lemma resolution_matches_supersedes c e : resolution_matches c e = true → supersedes c e.
Proof.
  unfold resolution_matches, same_identity. intros [[[[Hi Hu]%andb_true_iff Hs]%andb_true_iff Ho]%andb_true_iff Hm]%andb_true_iff.
  apply bool_decide_eq_true_1 in Hi. apply Z.ltb_lt in Hs, Ho. apply negb_true_iff, andb_false_iff in Hu.
  assert (Hub : cx_kind c = UNBOUND → cr_outcome e = RESOLVED_NOT_FOUND).
  { intros E. destruct Hu as [Hu|Hu]; [by apply bool_decide_eq_false_1 in Hu|]. apply negb_false_iff in Hu.
    by apply bool_decide_eq_true_1 in Hu. }
  destruct (cr_outcome e) eqn:Eo.
  - apply andb_true_iff in Hm as [[[[Ht Hc]%andb_true_iff Hf]%andb_true_iff Hv]%andb_true_iff _].
    apply Z.leb_le in Hc, Hf. apply Z.ltb_lt in Hv. split; rewrite ?Eo; auto. done.
  - apply andb_true_iff in Hm as [Hr Hv]. apply Z.ltb_lt in Hv. split; rewrite ?Eo; auto. done.
Qed.

Lemma select_resolutions_evidence conflicts evidence selected :
  select_resolutions conflicts evidence = Some selected →
  Forall (λ c, ∃ e, e ∈ evidence ∧ cr_conflict_id e = cx_conflict_id c ∧ supersedes c e) conflicts.
Proof.
  unfold select_resolutions. intros (pairs & Hp & Hs)%bind_Some. destruct (forallb _ pairs) eqn:Hm; [|done].
  rewrite forallb_forall in Hm. unfold pair_evidence in Hp. destruct (_ && _); [|done]. apply mapM_Some_1 in Hp.
  apply Forall_forall. intros c Hc. apply list_elem_of_lookup in Hc as [i Hi].
  destruct (Forall2_lookup_l _ _ _ i c Hp Hi) as (p & Hpi & (e & He & [= <-])%bind_Some).
  apply index_by_elem in He as [He Eid]. exists e. split; [done|]. split; [done|].
  apply resolution_matches_supersedes. apply list_elem_of_lookup_2, list_elem_of_In, Hm in Hpi. done.
Qed.

(** ** The shape of a batch that reconciles *)

(** Every account a leg spends from has one reservation row, rows are up to
    date, and a ledger entry holds at least its cash. *)
Record settleable (b : Batch) : Prop := {
  sl_rows : Forall (λ row, refresh_row (ba_legs b) row = row) (ba_reservations b);
  sl_keys : NoDup (rv_key <$> ba_reservations b);
  sl_legs : Forall (λ leg, leg_key leg ∈ rv_key <$> ba_reservations b) (ba_legs b);
  sl_ledger : ∀ k e, ba_terminal_ledger b !! k = Some e →
    le_cumulative_cost_units e + le_cumulative_fee_units e ≤ le_holding_capital_units e;
}.

(** Cash that left the accounts: the legs and the ledger. *)
Definition ledger_cash (b : Batch) : Z :=
  sumZ ((λ e, le_cumulative_cost_units e.2 + le_cumulative_fee_units e.2) <$> map_to_list (ba_terminal_ledger b)).
Definition cash_out (b : Batch) : Z := sumZ (leg_actual <$> ba_legs b) + ledger_cash b.

Lemma ledger_cash_le b : settleable b → ledger_cash b ≤ terminal_ledger_cost b.
Proof. intros Hb. apply sumZ_fmap_le. intros [k e] He%elem_of_map_to_list. exact (sl_ledger _ Hb k e He). Qed.

Lemma occupancy_covers_cash b : settleable b → cash_out b ≤ batch_occupancy b.
Proof.
  intros Hb. pose proof (ledger_cash_le b Hb). pose proof (conflict_units_nonneg b). unfold cash_out, batch_occupancy.
  rewrite (sumZ_by_key leg_key leg_actual (rv_key <$> ba_reservations b) (ba_legs b) (sl_keys _ Hb) (sl_legs _ Hb)).
  rewrite <- list_fmap_compose.
  enough (sumZ (((λ k, sumZ (leg_actual <$> filter (λ x, leg_key x = k) (ba_legs b))) ∘ rv_key) <$> ba_reservations b)
          ≤ sumZ ((λ row, rv_remaining_units row + rv_holding_units row) <$> ba_reservations b)) by lia.
  apply sumZ_fmap_le. intros row Hrow. simpl. pose proof (proj1 (Forall_forall _ _) (sl_rows _ Hb) row Hrow) as E.
  simpl in E. pose proof (f_equal rv_remaining_units E) as Er. pose proof (f_equal rv_holding_units E) as Eh.
  unfold refresh_row, sum_on in Er, Eh. simpl in Er, Eh. lia.
Qed.

(** ** Resolution keeps the shape *)

Lemma merge_resolution_keys e legs : leg_key <$> merge_resolution e legs = leg_key <$> legs.
Proof.
  induction legs as [|leg legs IH]; [done|]. simpl. destruct (bl_receipt leg); [|csimpl; by rewrite IH].
  destruct (_ && _); csimpl; [|by rewrite IH]. unfold set_leg_receipt. by rewrite String.eqb_refl.
Qed.

Lemma apply_resolutions_frame selected legs ledger :
  let out := foldl apply_resolution (legs, ledger) selected in
  leg_key <$> out.1 = leg_key <$> legs ∧
  ((∀ k e, ledger !! k = Some e → le_cumulative_cost_units e + le_cumulative_fee_units e ≤ le_holding_capital_units e) →
   ∀ k e, out.2 !! k = Some e → le_cumulative_cost_units e + le_cumulative_fee_units e ≤ le_holding_capital_units e).
Proof.
  revert legs ledger. induction selected as [|[key [c e]] selected IH]; intros legs ledger; [done|]. simpl.
  destruct (cr_outcome e); [destruct (cx_kind c)|].
  - destruct (IH (merge_resolution e legs) ledger) as [E1 E2]. rewrite E1, merge_resolution_keys. done.
  - destruct (IH legs (<[key := ledger_entry c e]> ledger)) as [E1 E2]. split; [done|]. intros Hl. apply E2.
    intros k x [[<- <-]|[_ ?]]%lookup_insert_Some; [simpl; lia|eauto].
  - destruct (IH legs (<[key := ledger_entry c e]> ledger)) as [E1 E2]. split; [done|]. intros Hl. apply E2.
    intros k x [[<- <-]|[_ ?]]%lookup_insert_Some; [simpl; lia|eauto].
  - apply IH.
Qed.

Lemma resolve_with_evidence_spec b evidence :
  let b' := resolve_with_evidence b evidence in
  (settleable b → settleable b') ∧
  (ba_unresolved_conflicts b' = [] →
     Forall (λ c, ∃ e, e ∈ evidence ∧ cr_conflict_id e = cx_conflict_id c ∧ supersedes c e) (ba_unresolved_conflicts b)) ∧
  ba_incident b' = ba_incident b ∧ ba_execution_batch_id b' = ba_execution_batch_id b ∧
  ba_prior_unsettled_capital_units b' = ba_prior_unsettled_capital_units b ∧ ba_entry b' = ba_entry b ∧
  (ba_unresolved_conflicts b = [] → b' = b).
Proof.
  unfold resolve_with_evidence. destruct (ba_unresolved_conflicts b) as [|c0 cs] eqn:Ec; [by split_and!; [| |..]; rewrite ?Ec|].
  destruct (select_resolutions _ evidence) as [selected|] eqn:Es; [|by split_and!; rewrite ?Ec].
  destruct (foldl apply_resolution _ selected) as [legs ledger] eqn:Ef.
  pose proof (apply_resolutions_frame selected (ba_legs b) (ba_terminal_ledger b)) as [E1 E2]. rewrite Ef in E1, E2. simpl in E1, E2.
  split_and!; try done.
  - intros [Hr Hk Hl He]. split; simpl.
    + apply Forall_fmap, Forall_forall. done.
    + by rewrite <- list_fmap_compose.
    + rewrite <- list_fmap_compose. change (rv_key ∘ refresh_row legs) with rv_key. apply Forall_forall. intros leg Hin.
      apply (list_elem_of_fmap_2 leg_key) in Hin. rewrite E1 in Hin. apply list_elem_of_fmap in Hin as (leg' & -> & Hin').
      exact (proj1 (Forall_forall _ _) Hl leg' Hin').
    + by apply E2.
  - intros _. by apply select_resolutions_evidence with selected.
Qed.

(** ** Cash flows *)

Lemma bound_cash_flows_spec b flows now :
  bound_cash_flows b flows now = true →
  Forall (λ leg, ∃ r f, bl_receipt leg = Some r ∧ f ∈ flows ∧ fw_client_order_id f = bl_client_order_id leg ∧
                        flow_bound now f leg r = true) (ba_legs b).
Proof.
  unfold bound_cash_flows. intros [_ Hf]%andb_true_iff. rewrite forallb_forall in Hf. apply Forall_forall.
  intros leg Hl%list_elem_of_In%Hf. destruct (index_by _ flows !! _) as [f|] eqn:Ef; [|done].
  destruct (bl_receipt leg) as [r|]; [|done]. apply index_by_elem in Ef as [? ?]. by exists r, f.
Qed.

Lemma flow_bound_figures now f leg r :
  flow_bound now f leg r = true →
  fw_cumulative_cost_units f = rp_cumulative_cost_units r ∧ fw_cumulative_fee_units f = rp_cumulative_fee_units r ∧
  fw_key f = leg_key leg ∧ fw_venue_order_id f = rp_venue_order_id r ∧
  rp_venue_timestamp r ≤ dt_us (fw_source_timestamp f) ∧ rp_observed_at r ≤ dt_us (fw_observed_at f).
Proof. unfold flow_bound. intros Hb. bool_prop. done. Qed.

(** With no cash in any flow, no leg spent anything. *)
Lemma zero_flows_zero_cash b flows now :
  bound_cash_flows b flows now = true →
  existsb (λ f, negb (fw_cumulative_cost_units f =? 0) || negb (fw_cumulative_fee_units f =? 0)) flows = false →
  sumZ (leg_actual <$> ba_legs b) = 0.
Proof.
  intros Hb%bound_cash_flows_spec Hz. assert (Hf : ∀ f, f ∈ flows → fw_cumulative_cost_units f = 0 ∧ fw_cumulative_fee_units f = 0).
  { intros f Hf%list_elem_of_In. apply not_true_iff_false in Hz. rewrite existsb_exists in Hz.
    destruct (decide (fw_cumulative_cost_units f = 0)) as [|Hc]; [destruct (decide (fw_cumulative_fee_units f = 0)) as [|Hd]; [done|]|];
      exfalso; apply Hz; exists f; (split; [done|]); apply orb_true_iff; [right|left]; by apply negb_true_iff, Z.eqb_neq. }
  clear Hz. induction Hb as [|leg legs (r & f & Er & Hin & _ & Hfb) _ IH]; [done|]. csimpl. rewrite IH.
  apply flow_bound_figures in Hfb as (E1 & E2 & _). destruct (Hf f Hin). unfold leg_actual. rewrite Er. lia.
Qed.

Lemma ledger_empty_cash b : ledger_empty_economics b = true → ledger_cash b = 0.
Proof.
  unfold ledger_empty_economics, ledger_cash. generalize (map_to_list (ba_terminal_ledger b)). intros l.
  induction l as [|e l IH]; [done|]. intros [[[_ H1]%andb_true_iff H2]%andb_true_iff H3]%andb_true_iff.
  csimpl. bool_prop. rewrite IH by done. lia.
Qed.

(** ** The guarantee *)

Record reconciled_ok (execution_batch_id : string) (c : ReconciliationContext) (b b' : Batch) (control control' : Control)
  : Prop := {
  rc_owned : ct_active_batch_id control = Some execution_batch_id;
  rc_released : ct_active_batch_id control' = None;
  rc_total : ct_total_unsettled_capital_units control' = prior_unsettled b' + ba_total_unsettled_capital_units b';
  rc_breaker : ct_breaker_open control' = ct_breaker_open control;
  rc_manual : is_Some (ba_incident b) → ct_mode control' = "MANUAL";
  rc_closed : is_reconciled b' = true ∧ ba_incident b' = None ∧ ba_unresolved_conflicts b' = [];
  rc_evidence : Forall (λ k, ∃ e, e ∈ rk_conflict_resolutions c ∧ cr_conflict_id e = cx_conflict_id k ∧ supersedes k e)
                  (ba_unresolved_conflicts b);
  rc_flows : Forall (λ leg, ∃ r f, bl_receipt leg = Some r ∧ f ∈ rk_cash_flows c ∧
                fw_client_order_id f = bl_client_order_id leg ∧
                fw_cumulative_cost_units f = rp_cumulative_cost_units r ∧
                fw_cumulative_fee_units f = rp_cumulative_fee_units r) (ba_legs b');
  rc_held : ∀ k, k ∈ (filled_positions (ba_legs b') (ba_terminal_ledger b')).*1 →
              position (filled_positions (ba_legs b') (ba_terminal_ledger b')) k ≤ actual_holding c k;
  rc_capital : cash_out b' ≤ ba_total_unsettled_capital_units b';
  rc_zero : ba_state b' = RECONCILED_ZERO → cash_out b' = 0 ∧ ba_total_unsettled_capital_units b' = 0 ∧ all_zero b' = true;
}.

Lemma closing_units_cover b flows now :
  settleable b → bound_cash_flows b flows now = true →
  negb (all_zero b && existsb (λ f, negb (fw_cumulative_cost_units f =? 0) ||
                                    negb (fw_cumulative_fee_units f =? 0)) flows) = true →
  cash_out b ≤ closing_units b ∧
  (closing_state b = RECONCILED_ZERO → cash_out b = 0 ∧ closing_units b = 0 ∧ all_zero b = true).
Proof.
  intros Hb Hf Hz. apply negb_true_iff in Hz. unfold closing_units, closing_state. destruct (all_zero b) eqn:Ez; simpl in *.
  - apply (zero_flows_zero_cash b flows now Hf) in Hz. unfold cash_out. rewrite Hz.
    destruct (ledger_empty_economics b) eqn:El; simpl.
    + rewrite (ledger_empty_cash b El). done.
    + pose proof (ledger_cash_le b Hb). split; [lia|done].
  - pose proof (occupancy_covers_cash b Hb). split; [done|done].
Qed.

Lemma closing_state_reconciled b : closing_state b ∈ [RECONCILED_ZERO; RECONCILED_FULL].
Proof. unfold closing_state. rewrite !elem_of_cons. destruct (_ && _); auto. Qed.

Lemma reconcile_reduce_unchanged id c b control out :
  reconcile_reduce id c b control = Ok (out, false) → is_reconciled b = true ∧ out = (b, control).
Proof.
  unfold reconcile_reduce. destruct (is_reconciled b); [by intros [= <-]|].
  intros (? & _ & (? & _ & (? & _ & (? & _ & (? & _ & (? & _ & (? & _ & H)%bind_Ok)%bind_Ok)%bind_Ok)%bind_Ok)%bind_Ok)%bind_Ok)%bind_Ok.
  discriminate H.
Qed.

Lemma reconcile_reduce_ok id c b control b' control' :
  settleable b → reconcile_reduce id c b control = Ok (b', control', true) →
  reconciled_ok id c b b' control control'.
Proof.
  intros Hb. unfold reconcile_reduce. destruct (is_reconciled b) eqn:Er; [done|].
  intros (? & Ht%require_Ok & (? & Hv%require_Ok & (? & Ho%require_Ok & Hs)%bind_Ok)%bind_Ok)%bind_Ok.
  set (n := resolve_with_evidence b _) in Hs.
  destruct (resolve_with_evidence_spec b (rk_conflict_resolutions c)) as (Hset & Hev & Ei & Eid & Epr & _). fold n in Hset, Hev, Ei, Eid, Epr.
  clearbody n. apply bind_Ok in Hs as (? & Hu%require_Ok & (? & Hp%require_Ok & (? & Hf%require_Ok & (? & Hz%require_Ok & Hout)%bind_Ok)%bind_Ok)%bind_Ok).
  apply Nat.eqb_eq, nil_length_inv in Hu. injection Hout as <- <-. apply bool_decide_eq_true_1 in Ho.
  destruct (closing_units_cover n _ _ (Hset Hb) Hf Hz) as [Hcap Hzero]. split; try done; simpl.
  - rewrite Ei. by intros [? ->].
  - split_and!; [|done|done]. by apply bool_decide_eq_true_2, closing_state_reconciled.
  - by apply Hev.
  - eapply Forall_impl; [by apply bound_cash_flows_spec|]. intros leg (r & f & Eb & Hin & Eci & Hfb). exists r, f.
    by apply flow_bound_figures in Hfb as (? & ? & _).
  - by apply positions_covered_spec.
Qed.

(** A second completion, with the same or any other context, changes nothing. *)
Lemma reconcile_reduce_idle id c b control : is_reconciled b = true → reconcile_reduce id c b control = Ok (b, control, false).
Proof. unfold reconcile_reduce. by intros ->. Qed.

Section store.
Context `{Sha256}.

Lemma complete_reconciliation_idempotent st id c st' b' :
  complete_reconciliation st id c = Ok (st', b') → complete_reconciliation st' id c = Ok (st', b').
Proof.
  unfold complete_reconciliation. intros (fp & -> & Hr)%bind_Ok. simpl. revert Hr. apply n_leg_reduce_idempotent.
  intros b control out [Hi _]%reconcile_reduce_unchanged. by apply reconcile_reduce_idle.
Qed.

Lemma complete_reconciliation_cases st id c st' b' :
  complete_reconciliation st id c = Ok (st', b') →
  (st' = st ∧ so_batches st !! id = Some b') ∨
  ∃ b next control', so_batches st !! id = Some b ∧ reconcile_reduce id c b (so_control st) = Ok (next, control', true) ∧
    b' = persist next ∧ so_batches st' = <[id := persist next]> (so_batches st) ∧ so_control st' = control' ∧
    so_claims st' = so_claims st.
Proof.
  unfold complete_reconciliation, n_leg_reduce. intros (fp & _ & (b & Hb%of_option_Ok & Ht)%bind_Ok)%bind_Ok.
  destruct (bool_decide _); [injection Ht as <- <-; auto|]. apply bind_Ok in Ht as ([[next control] changed] & Ha & Ht).
  destruct changed; simpl in Ht; injection Ht as <- <-; [right|auto]. by exists b, next, control.
Qed.
End store.
