(* ===== verification/EntryCorrect.v ===== *)
(** * Funding and entry

    A funded solution costs exactly its lots, fits both balances of every
    account and both caps; a batch that is entered reserves exactly that
    capital, by account, under a proof whose loss bound is within its cap. *)

From S2P Require Import Prelude PyValue NLeg NLegForms NLegValidate NLegWf Oracle OracleScenario PartialFill FillProof Quotes Receipts BatchStore Repair Reconcile Entry ReceiptsCorrect RepairCorrect ReconcileCorrect.
Local Open Scope Z_scope.

(** ** Sums over maps *)

Section map_sum.
Context {K A : Type} `{Countable K}.
Context (f : K * A → Z).
Implicit Types m : gmap K A.

Definition map_sum (m : gmap K A) : Z := sumZ (f <$> map_to_list m).

Lemma map_sum_insert_new m k a : m !! k = None → map_sum (<[k := a]> m) = f (k, a) + map_sum m.
Proof.
  intros Hk. unfold map_sum. rewrite (sumZ_perm _ (f <$> ((k, a) :: map_to_list m))); [done|].
  by apply fmap_Permutation, map_to_list_insert.
Qed.

Lemma map_sum_insert m k a : map_sum (<[k := a]> m) = f (k, a) + map_sum (delete k m).
Proof. rewrite <- insert_delete_eq. apply map_sum_insert_new, lookup_delete_eq. Qed.

Lemma map_sum_delete m k a : m !! k = Some a → map_sum m = f (k, a) + map_sum (delete k m).
Proof. intros Hk. rewrite <- map_sum_insert. by rewrite insert_id. Qed.
End map_sum.

Lemma totals_sum l : sumZ (snd <$> map_to_list (totals l)) = sumZ (snd <$> l).
Proof.
  unfold totals. change (map_sum snd (foldl add_units ∅ l) = sumZ (snd <$> l)).
  enough (Hgen : ∀ m, map_sum snd (foldl add_units m l) = map_sum snd m + sumZ (snd <$> l)) by (rewrite Hgen; done).
  induction l as [|[k u] l IH]; intros m; csimpl; [lia|]. rewrite IH. unfold add_units. simpl.
  rewrite map_sum_insert. simpl. destruct (m !! k) as [v|] eqn:Ek; simpl.
  - rewrite (map_sum_delete snd m k v Ek). simpl. lia.
  - rewrite delete_id by done. lia.
Qed.

Lemma sorted_totals_perm l : sorted_totals l ≡ₚ map_to_list (totals l).
Proof. apply sort_perm. Qed.

Lemma sorted_totals_keys l : NoDup (sorted_totals l).*1.
Proof. rewrite sorted_totals_perm. apply NoDup_fst_map_to_list. Qed.

Lemma sorted_totals_elem l k v : (k, v) ∈ sorted_totals l ↔ k ∈ l.*1 ∧ v = position l k.
Proof.
  rewrite sorted_totals_perm, elem_of_map_to_list. split.
  - intros Hk. destruct (add_units_fold ∅ l k) as [_ E2]. unfold totals in Hk.
    destruct (proj1 E2 (ex_intro _ v Hk)) as [Hn|Hin]; [by destruct Hn|]. split; [done|].
    pose proof (totals_lookup l k Hin) as E. unfold totals in E. congruence.
  - intros [Hin ->]. by apply totals_lookup.
Qed.

(** ** Funding *)

Section funding.
Context `{Sha256}.

(** The legs of a portfolio, each with the account it debits. *)
Definition account_of (p : ArbitrageProblem) (q : ActionQuantity) : option account_key :=
  a ← index_by ca_action_id (pb_actions p) !! aq_action_id q;
  Some (ca_venue_id a, ca_account_id a, ca_settlement_asset_id a).

Definition account_cost (p : ArbitrageProblem) (qs : list ActionQuantity) (k : account_key) : Z :=
  portfolio_cost p (filter (λ q, account_of p q = Some k) qs).

Lemma portfolio_cost_cons p q qs : portfolio_cost p (q :: qs) = portfolio_cost p [q] + portfolio_cost p qs.
Proof. unfold portfolio_cost. csimpl. lia. Qed.

Lemma cost_single p q t : wf_problem p → cost_upper_bound p [q] = Ok t → t = portfolio_cost p [q].
Proof.
  intros Hp. unfold cost_upper_bound. intros (? & _ & (sel & Hs%selected_quantities_spec & Hc)%bind_Ok)%bind_Ok.
  destruct Hs as [_ ->]. apply cost_for_selected_reference in Hc; [|done]. rewrite Hc, filter_cons. case_decide as Hz; [done|].
  unfold portfolio_cost. csimpl. rewrite Hz. by destruct (_ !! _).
Qed.

Lemma debits_of_spec p qs ds :
  wf_problem p → debits_of p qs = Ok (Some ds) →
  sumZ (snd <$> ds) = portfolio_cost p qs ∧ (∀ k, position ds k = account_cost p qs k) ∧
  (∀ k, k ∈ ds.*1 ↔ ∃ q, q ∈ qs ∧ account_of p q = Some k) ∧ Forall (λ q, is_Some (account_of p q)) qs.
Proof.
  intros Hp. revert ds. induction qs as [|q qs IH]; intros ds; simpl.
  { intros [= <-]. split_and!; [done|done| |constructor]. intros k. split; [by intros ?%not_elem_of_nil|].
    by intros (? & ?%not_elem_of_nil & _). }
  intros (d & Hd & Hr)%bind_Ok. destruct d as [[k u]|]; [|done]. apply bind_Ok in Hr as (ds' & Hds & Hr).
  destruct ds' as [ds'|]; [|done]. injection Hr as <-. destruct (IH ds' Hds) as (E1 & E2 & E3 & E4). clear IH.
  unfold debit_of in Hd. destruct (index_by _ _ !! _) as [a|] eqn:Ea; [|done]. apply bind_Ok in Hd as (t & Ht & [= <- <-]).
  apply (cost_single p q _ Hp) in Ht as ->.
  assert (Hacc : account_of p q = Some (ca_venue_id a, ca_account_id a, ca_settlement_asset_id a))
    by (unfold account_of; by rewrite Ea).
  split_and!.
  - csimpl. by rewrite E1, (portfolio_cost_cons p q qs).
  - intros k. pose proof (E2 k) as E. unfold position, account_cost in E |- *. rewrite !filter_cons, Hacc. simpl.
    destruct (decide (_ = k)) as [Ek|Hne].
    + rewrite decide_True by (by rewrite Ek). csimpl. rewrite E. symmetry. apply portfolio_cost_cons.
    + rewrite decide_False by (by intros [= ?]). exact E.
  - intros k. csimpl. rewrite elem_of_cons, E3. setoid_rewrite elem_of_cons. naive_solver.
  - constructor; [rewrite Hacc; eauto|done].
Qed.

(** What a funded solution satisfies. *)
Record funded_ok (market : MarketSolution) (account : AccountSnapshot) (now : datetime) (s : ExecutionSolution) : Prop := {
  fd_snapshot : valid_account_snapshot account now = true;
  fd_quantities : xs_quantities s = ms_quantities market ∧ xs_execution_legs s = ms_execution_legs market;
  fd_cost : xs_capital_use_units s = portfolio_cost (ms_problem market) (ms_quantities market);
  fd_funds : ∀ q k, q ∈ ms_quantities market → account_of (ms_problem market) q = Some k →
    ∃ b, b ∈ as_balances account ∧ ab_key b = k ∧
      account_cost (ms_problem market) (ms_quantities market) k ≤ ab_available_units b ∧
      account_cost (ms_problem market) (ms_quantities market) k ≤ ab_allowance_units b;
  fd_trade_cap : xs_capital_use_units s ≤ as_max_per_trade_cost_units account;
  fd_total_cap : as_unsettled_capital_units account + xs_capital_use_units s ≤ as_max_total_unsettled_capital_units account;
  fd_no_submit : xs_order_ready s = false ∧ xs_reason s = PARTIAL_FILL_PROOF_REQUIRED;
}.

Lemma fund_fixed_solution_ok market account now out s :
  wf_problem (ms_problem market) → fund_fixed_solution market account now = Ok out → rr_execution_solution out = Some s →
  ∃ a, account = Some a ∧ funded_ok market a now s.
Proof.
  intros Hp. unfold fund_fixed_solution. destruct account as [a|]; [|by intros [= <-]].
  destruct (valid_account_snapshot a now) eqn:Ev; [|by intros [= <-]]. simpl. intros (ds & Hds & Hr)%bind_Ok.
  destruct ds as [ds|]; [|by injection Hr as <-]. destruct (debits_of_spec _ _ _ Hp Hds) as (E1 & E2 & E3 & _).
  rewrite totals_sum, E1 in Hr. destruct (negb _) eqn:Eb in Hr; [by injection Hr as <-|].
  destruct (negb _) eqn:Ef in Hr; [by injection Hr as <-|]. destruct (_ <? _) eqn:Et in Hr; [by injection Hr as <-|].
  destruct (_ <? _) eqn:Eu in Hr; [by injection Hr as <-|]. injection Hr as <-. intros [= <-]. exists a. split; [done|].
  apply negb_false_iff in Ef. rewrite forallb_forall in Ef. apply Z.ltb_ge in Et, Eu. split; try done; simpl.
  intros q k Hq Hk. assert (Hin : k ∈ ds.*1) by (apply E3; eauto).
  pose proof (totals_lookup ds k Hin) as Hlk. apply elem_of_map_to_list, list_elem_of_In, Ef in Hlk. simpl in Hlk.
  unfold balance_for in Hlk. destruct (last _) as [b|] eqn:El; [|done]. apply last_Some_elem_of in El.
  apply list_elem_of_filter in El as [Ekey Hb]. rewrite E2 in Hlk. bool_prop. eauto 10.
Qed.

Lemma check_execution_solution_ok market account now s u :
  wf_problem (ms_problem market) → check_execution_solution market account now s = Ok u →
  funded_ok market account now s ∧ xs_capital_use_units s = sumZ (xl_max_cost_units <$> xs_execution_legs s).
Proof.
  intros Hp. unfold check_execution_solution.
  intros (? & _ & (? & _ & (? & _ & (? & _ & (? & _ & (? & _ & (out & Hf & (? & Ho%require_Ok & (? & _ & (? & _ & Hs)%bind_Ok)%bind_Ok)%bind_Ok)%bind_Ok)%bind_Ok)%bind_Ok)%bind_Ok)%bind_Ok)%bind_Ok)%bind_Ok.
  apply require_Ok, Z.eqb_eq in Hs. apply andb_true_iff in Ho as [_ Ho]. apply bool_decide_eq_true_1 in Ho.
  destruct (fund_fixed_solution_ok market (Some account) now out s Hp Hf Ho) as (a & [= <-] & Hok). done.
Qed.
End funding.

(** ** Entry *)

Section entry.
Context `{Sha256}.

Definition sound_legs (s : ExecutionSolution) : Prop :=
  Forall (λ l, 0 < xl_quantity_lots l ∧ 0 ≤ xl_max_cost_units l) (xs_execution_legs s).

(** The facts of a new batch. *)
Record entered_ok (ids : EntryIds) (market : MarketSolution) (s : ExecutionSolution) (proof : PartialFillProofRecord) (b : Batch)
  : Prop := {
  et_id : ba_execution_batch_id b = ei_execution_batch_id ids ∧ en_episode_lineage_id (ba_entry b) = ei_episode_lineage_id ids;
  et_state : ba_state b = "ACTIVE" ∧ ba_incident b = None ∧ ba_unresolved_conflicts b = [] ∧ ba_terminal_ledger b = ∅;
  et_proof : proof_is_bound_status proof s PARTIAL_FILL_SAFE = true ∧
             pr_solver_upper_bound proof ≤ pr_max_partial_fill_loss proof;
  et_legs : ba_legs b = entry_leg (ei_execution_batch_id ids) <$> xs_execution_legs s ∧
            NoDup (bl_client_order_id <$> ba_legs b) ∧ ba_legs b ≠ [];
  et_reserved : original_units b = sumZ (xl_max_cost_units <$> xs_execution_legs s) ∧
                batch_occupancy b = original_units b;
  et_total : ba_total_unsettled_capital_units b = xs_capital_use_units s;
}.

Lemma entry_no_receipts id legs :
  (∀ k, sum_on leg_actual k (entry_leg id <$> legs) = 0) ∧ (∀ k, sum_on leg_protected k (entry_leg id <$> legs) = 0).
Proof.
  assert (Hz : ∀ (f : BatchLeg → Z) k, (∀ l, f (entry_leg id l) = 0) → sum_on f k (entry_leg id <$> legs) = 0).
  { intros f k Hf. unfold sum_on. induction legs as [|l legs IH]; [done|]. csimpl. rewrite filter_cons.
    case_decide; [csimpl; rewrite Hf, IH; done|done]. }
  split; intros k; by apply Hz.
Qed.

Definition entry_debits (legs : list BatchLeg) : list (account_key * Z) := (λ leg, (leg_key leg, bl_max_cost_units leg)) <$> legs.

Lemma entry_rows_refreshed id legs row :
  Forall (λ l, 0 ≤ xl_max_cost_units l) legs →
  row ∈ entry_row <$> sorted_totals (entry_debits (entry_leg id <$> legs)) → refresh_row (entry_leg id <$> legs) row = row.
Proof.
  intros Hl ([k v] & -> & Hkv)%list_elem_of_fmap. apply sorted_totals_elem in Hkv as [_ ->].
  destruct (entry_no_receipts id legs) as [Ea Ep]. unfold refresh_row. simpl. rewrite Ea, Ep. unfold entry_row. simpl. f_equal.
  rewrite Z.sub_0_r. apply Z.max_r. unfold position. apply sumZ_nonneg, Forall_fmap, Forall_forall. intros [k' v'].
  intros [_ (leg & [= -> ->] & (l & -> & Hin)%list_elem_of_fmap)%list_elem_of_fmap]%list_elem_of_filter.
  exact (proj1 (Forall_forall _ _) Hl l Hin).
Qed.

Lemma enter_payload_ok ids market s proof mode cap b :
  sound_legs s → enter_payload ids market s proof mode cap = Ok b →
  entered_ok ids market s proof b ∧ wf_batch b ∧ settleable b.
Proof.
  intros Hlegs. unfold enter_payload.
  intros (unsafe & _ & (? & _ & (bound & Hbound & (? & Hb%require_Ok & (? & Hub%require_Ok & (? & Hl%require_Ok & (? & _ & (binding & _ & Hout)%bind_Ok)%bind_Ok)%bind_Ok)%bind_Ok)%bind_Ok)%bind_Ok)%bind_Ok)%bind_Ok.
  set (legs := entry_leg (ei_execution_batch_id ids) <$> xs_execution_legs s) in *.
  apply andb_true_iff in Hl as [Hne Hnd]. apply negb_true_iff, Nat.eqb_neq in Hne. apply bool_decide_eq_true_1 in Hnd.
  apply Z.leb_le in Hub. injection Hout as <-.
  assert (Hcost : Forall (λ l, 0 ≤ xl_max_cost_units l) (xs_execution_legs s))
    by (eapply Forall_impl; [exact Hlegs|]; by intros l [_ ?]).
  assert (Hrows : Forall (λ row, refresh_row legs row = row) (entry_row <$> sorted_totals (entry_debits legs)))
    by (apply Forall_forall; intros row Hrow; by apply entry_rows_refreshed).
  assert (Hkeys : rv_key <$> (entry_row <$> sorted_totals (entry_debits legs)) = (sorted_totals (entry_debits legs)).*1)
    by (by rewrite <- list_fmap_compose).
  assert (Horig : sumZ (rv_original_units <$> (entry_row <$> sorted_totals (entry_debits legs)))
                  = sumZ (xl_max_cost_units <$> xs_execution_legs s)).
  { rewrite <- list_fmap_compose. change (rv_original_units ∘ entry_row) with (@snd account_key Z).
    rewrite (sumZ_perm _ (snd <$> map_to_list (totals (entry_debits legs)))) by (by apply fmap_Permutation, sorted_totals_perm).
    rewrite totals_sum. unfold entry_debits, legs. by rewrite <- !list_fmap_compose. }
  split_and!.
  - split; simpl; try done.
    + split; [|done]. subst bound. destruct (proof_is_bound_status proof s PARTIAL_FILL_SAFE); [done|discriminate Hbound].
    + split_and!; [done..|]. intros Enil. apply Hne. by rewrite Enil.
    + split; [exact Horig|]. unfold batch_occupancy, original_units, conflict_units, terminal_ledger_cost. simpl.
      rewrite !map_to_list_empty, <- !list_fmap_compose. csimpl. rewrite !Z.add_0_r. apply sumZ_fmap_ext. intros e _. simpl. lia.
  - split; simpl; [|exact Hrows|by intros k v; rewrite lookup_empty|by intros k v; rewrite lookup_empty].
    apply Forall_fmap. eapply Forall_impl; [exact Hlegs|]. intros l [Hq Hc]. by split.
  - split; simpl; [exact Hrows| | |by intros k v; rewrite lookup_empty].
    + change (NoDup (rv_key <$> (entry_row <$> sorted_totals (entry_debits legs)))). rewrite Hkeys. apply sorted_totals_keys.
    + change (Forall (λ leg, leg_key leg ∈ rv_key <$> (entry_row <$> sorted_totals (entry_debits legs))) legs). rewrite Hkeys.
      apply Forall_forall. intros leg Hleg. apply list_elem_of_fmap.
      exists (leg_key leg, position (entry_debits legs) (leg_key leg)). split; [done|]. apply sorted_totals_elem. split; [|done].
      unfold entry_debits. rewrite <- list_fmap_compose. change (fst ∘ _) with leg_key. by apply list_elem_of_fmap_2.
Qed.
End entry.
