(* ===== verification/PricedCorrect.v ===== *)
(** * The priced problem

    Pricing keeps the terminal states, their relations and the payouts of the
    quoted actions.  On a valid component the priced problem is valid unless a
    contract loses every action, an atom was released before now, or a number
    leaves the 64-bit range. *)

From S2P Require Import Prelude PyValue NLeg NLegForms NLegValidate NLegWf IsoFormat Decimal DecimalCorrect Oracle OracleScenario OracleEval Components PartialFill NLegFormsCorrect DecodeCorrect FillProof Quotes QuotesCorrect Receipts BatchStore Repair Reconcile Entry EntryCorrect.
Local Open Scope Z_scope.

(** ** Selecting with a fallible function *)

Lemma mapM_select {A B} (f : A → res (option B)) l out :
  mapM f l = Ok out →
  ∃ chosen, chosen `sublist_of` l ∧ Forall2 (λ x y, f x = Ok (Some y)) chosen (omap id out) ∧
    ∀ x, x ∈ l → x ∈ chosen ∨ f x = Ok None.
Proof.
  intros Hm%mapM_Ok. induction Hm as [|x o l out Hx Hm (chosen & Hs & Hf & Hn)]; csimpl.
  { exists []. split_and!; [constructor..|]. by intros ? ?%not_elem_of_nil. }
  destruct o as [y|]; csimpl.
  - exists (x :: chosen). split_and!; [by apply sublist_skip|by constructor|].
    intros z [->|Hz]%elem_of_cons; [left; set_solver|]. destruct (Hn z Hz); [left; set_solver|by right].
  - exists chosen. split_and!; [by constructor|done|]. intros z [->|Hz]%elem_of_cons; [by right|auto].
Qed.

Lemma sublist_fmap_mono {A B} (f : A → B) l k : l `sublist_of` k → f <$> l `sublist_of` f <$> k.
Proof. induction 1; csimpl; by constructor. Qed.

Section priced.
Context `{Sha256}.
Context (c : VerifiedComponent) (books : list ImmutableBook) (now : datetime).
Abbreviation P := (vc_problem c).
Abbreviation price := (price_action c (index_by ib_action_id books) now).

Lemma price_action_ok a a' q :
  price a = Ok (Some (a', q)) → 1 ≤ ca_max_quantity_lots a →
  a' = priced_action a (ca_max_quantity_lots a') (cost_slices q) ∧
  ca_min_quantity_lots a ≤ ca_max_quantity_lots a' ≤ ca_max_quantity_lots a ∧
  (∃ s, last (cost_slices q) = Some s ∧ last_lot s = ca_max_quantity_lots a') ∧
  ∃ source b asks, index_by ib_action_id books !! ca_action_id a = Some source ∧ b ∈ vc_book_bindings c ∧
    bb_action_id b = ca_action_id a ∧ quote_ok a source b (vc_usd_units_per_dollar c) now asks q.
Proof.
  unfold price_action. intros (source & Hs%of_option_Ok & (b & Hb%of_option_Ok & (quote & Hq & HR)%bind_Ok)%bind_Ok)%bind_Ok Hmax.
  destruct quote as [quote|]; [|done]. apply bind_Ok in HR as (final & Hl%of_option_Ok & [= <- <-]).
  destruct (normalize_quote_ok _ _ _ _ _ _ Hq Hmax) as (asks & Hok). simpl. split_and!; [done|..].
  - destruct (qo_last _ _ _ _ _ _ _ Hok) as (l & El & Hle). rewrite Hl in El. injection El as <-. lia.
  - destruct (qo_last _ _ _ _ _ _ _ Hok) as (l & El & Hle). rewrite Hl in El. injection El as <-. lia.
  - exists (level_slice final). split; [|done]. unfold cost_slices. by rewrite fmap_last, Hl.
  - exists source, b, asks. apply py_next_Some in Hb as (Hin & Hid). apply String.eqb_eq in Hid. done.
Qed.

(** ** What pricing keeps *)

Definition available (p : ArbitrageProblem) : list string := ca_action_id <$> pb_actions p.

Record priced (p : ArbitrageProblem) (quotes : list CanonicalQuoteEvidence) : Prop := {
  pr_now : is_utc now = true ∧ pb_as_of p = now;
  pr_head : pb_schema_version p = pb_schema_version P ∧ pb_problem_id p = pb_problem_id P ∧
            pb_valuation_unit_id p = pb_valuation_unit_id P;
  pr_states : pb_terminal_state_sets p = restrict_payouts (available p) <$> pb_terminal_state_sets P;
  pr_model : pb_constraint_model p = pb_constraint_model P;
  pr_constraints : qualification_constraints c (pb_terminal_state_sets P) = Ok (pb_qualification_constraints p);
  pr_length : length (pb_actions p) = length quotes;
  pr_nonempty : pb_actions p ≠ [];
  pr_chosen : ∃ chosen, chosen `sublist_of` pb_actions P ∧
    Forall2 (λ a aq, price a = Ok (Some aq)) chosen (zip (pb_actions p) quotes) ∧
    ∀ a, a ∈ pb_actions P → a ∈ chosen ∨ price a = Ok None;
}.

Lemma problem_with_visible_asks_ok p economic quotes :
  problem_with_visible_asks c books now = Ok (Some (p, economic, quotes)) → priced p quotes.
Proof.
  unfold problem_with_visible_asks. intros (? & Hnow%require_Ok & (? & Hbooks%require_Ok & (out & Hout & HR)%bind_Ok)%bind_Ok)%bind_Ok.
  destruct (mapM_select _ _ _ Hout) as (chosen & Hs & Hf & Hn).
  destruct (omap id out) as [|aq rest] eqn:Eq; [done|]. rewrite <- Eq in *.
  apply bind_Ok in HR as (constraints & Hc & [= <- <- <-]). split; simpl; try done.
  - by rewrite !length_fmap.
  - intros E%fmap_nil_inv. by rewrite E in Eq.
  - exists chosen. rewrite zip_fst_snd. done.
Qed.

(** Nothing is deep enough exactly when no action gets a quote. *)
Lemma problem_with_visible_asks_none :
  problem_with_visible_asks c books now = Ok None → ∀ a, a ∈ pb_actions P → price a = Ok None.
Proof.
  unfold problem_with_visible_asks. intros (? & Hnow%require_Ok & (? & Hbooks%require_Ok & (out & Hout & HR)%bind_Ok)%bind_Ok)%bind_Ok.
  destruct (mapM_select _ _ _ Hout) as (chosen & Hs & Hf & Hn).
  destruct (omap id out) as [|aq rest] eqn:Eq; [|by apply bind_Ok in HR as (? & _ & ?)].
  apply Forall2_nil_inv_r in Hf as ->. intros a Ha. by destruct (Hn a Ha) as [?%not_elem_of_nil|?].
Qed.

(** *** Actions *)

Section one.
Context (p : ArbitrageProblem) (quotes : list CanonicalQuoteEvidence).
Context (Hwf : wf_problem P) (Hp : priced p quotes).

Lemma zip_same {A B} (f : A → string) (g : B → string) l k :
  length l = length k → (∀ x y, (x, y) ∈ zip l k → f x = g y) → f <$> l = g <$> k.
Proof.
  revert k; induction l as [|x l IH]; intros [|y k] Hl Hall; try done. csimpl. f_equal; [apply Hall; csimpl; set_solver|].
  apply IH; [simpl in Hl; lia|]. intros u v Hz. apply Hall. csimpl. set_solver.
Qed.

Lemma max_positive a : a ∈ pb_actions P → 1 ≤ ca_max_quantity_lots a.
Proof. intros Ha. pose proof (wf_actions _ Hwf) as Hall. rewrite Forall_forall in Hall. pose proof (wa_bounds _ _ (Hall a Ha)). lia. Qed.

Lemma zip_elem_l {A B} (l : list A) (k : list B) x : length l = length k → x ∈ l → ∃ y, (x, y) ∈ zip l k.
Proof.
  intros Hl [i Hi]%list_elem_of_lookup. destruct (lookup_lt_is_Some_2 k i) as [y Hy].
  { rewrite <- Hl. apply lookup_lt_is_Some. eauto. }
  exists y. apply list_elem_of_lookup. exists i. by rewrite lookup_zip_with, Hi, Hy.
Qed.

(** A priced action and its quote come from one action of the component. *)
Lemma priced_pair a' q : (a', q) ∈ zip (pb_actions p) quotes → ∃ a, a ∈ pb_actions P ∧ price a = Ok (Some (a', q)).
Proof.
  intros Hz. destruct (pr_chosen _ _ Hp) as (chosen & Hs & Hf & _). apply list_elem_of_lookup in Hz as [i Hi].
  destruct (Forall2_lookup_r _ _ _ _ _ Hf Hi) as (a & Hai & E).
  exists a. split; [|done]. eapply elem_of_sublist; [|exact Hs]. by apply list_elem_of_lookup_2 with i.
Qed.

(** Every action of the priced problem is a quoted action of the component. *)
Lemma priced_action_origin a' : a' ∈ pb_actions p →
  ∃ a q, a ∈ pb_actions P ∧ q ∈ quotes ∧ price a = Ok (Some (a', q)).
Proof.
  intros Ha. destruct (zip_elem_l _ quotes a' (pr_length _ _ Hp) Ha) as (q & Hz).
  destruct (priced_pair _ _ Hz) as (a & Hin & E). exists a, q. split_and!; [done| |done]. by apply elem_of_zip_r in Hz.
Qed.

(** Every quoted action of the component is in the priced problem. *)
Lemma priced_action_kept a aq : a ∈ pb_actions P → price a = Ok (Some aq) → aq.1 ∈ pb_actions p ∧ aq.2 ∈ quotes.
Proof.
  intros Ha Hpr. destruct (pr_chosen _ _ Hp) as (chosen & Hs & Hf & Hn).
  destruct (Hn a Ha) as [Hc|E]; [|congruence]. apply list_elem_of_lookup in Hc as [i Hi].
  destruct (Forall2_lookup_l _ _ _ _ _ Hf Hi) as (aq' & Hz & E). assert (aq' = aq) as -> by congruence.
  apply list_elem_of_lookup_2 in Hz. destruct aq as [a' q]. split; [by apply elem_of_zip_l in Hz|by apply elem_of_zip_r in Hz].
Qed.

Lemma priced_facts a a' q : a ∈ pb_actions P → price a = Ok (Some (a', q)) →
  a' = priced_action a (ca_max_quantity_lots a') (cost_slices q).
Proof. intros Ha Hpr. by destruct (price_action_ok _ _ _ Hpr (max_positive a Ha)). Qed.

(** The ids of the priced actions, in the order of the component. *)
Lemma priced_ids : available p `sublist_of` ca_action_id <$> pb_actions P.
Proof.
  destruct (pr_chosen _ _ Hp) as (chosen & Hs & Hf & _). unfold available.
  assert (Hlen : length chosen = length (pb_actions p)).
  { apply Forall2_length in Hf. rewrite length_zip_with in Hf. pose proof (pr_length _ _ Hp). lia. }
  rewrite <- (zip_same ca_action_id ca_action_id chosen (pb_actions p) Hlen); [by apply sublist_fmap_mono|].
  intros a a' [i Hi]%list_elem_of_lookup. apply lookup_zip_Some in Hi as [Ha Ha'].
  destruct (Forall2_lookup_l _ _ _ _ _ Hf Ha) as ([b q] & Hz & E). apply lookup_zip_Some in Hz as [Hb _].
  assert (b = a') as -> by congruence. rewrite (priced_facts a a' q); [done| |done].
  eapply elem_of_sublist; [|exact Hs]. by apply list_elem_of_lookup_2 with i.
Qed.

(** Each quote carries the id of its action. *)
Lemma priced_quote_ids : cq_action_id <$> quotes = available p.
Proof.
  symmetry. apply zip_same; [apply (pr_length _ _ Hp)|]. intros a' q Hz. destruct (priced_pair _ _ Hz) as (a & Ha & E).
  rewrite (priced_facts _ _ _ Ha E). simpl.
  destruct (price_action_ok _ _ _ E (max_positive a Ha)) as (_ & _ & _ & source & b & asks & _ & _ & _ & Hq).
  by destruct (qo_names _ _ _ _ _ _ _ Hq) as (-> & _).
Qed.

Lemma priced_ids_NoDup : NoDup (available p).
Proof. eapply sublist_NoDup; [apply (wf_action_ids _ Hwf)|apply priced_ids]. Qed.

(** A priced action and the component's action with its id. *)
Lemma priced_action_of a a' : a ∈ pb_actions P → a' ∈ pb_actions p → ca_action_id a' = ca_action_id a →
  ∃ q, q ∈ quotes ∧ price a = Ok (Some (a', q)) ∧ a' = priced_action a (ca_max_quantity_lots a') (cost_slices q).
Proof.
  intros Ha Ha' Hid. destruct (priced_action_origin a' Ha') as (b & q & Hb & Hq & Hpr).
  pose proof (priced_facts _ _ _ Hb Hpr) as E.
  assert (b = a) as ->.
  { apply (NoDup_key_eq ca_action_id (pb_actions P)); [apply (wf_action_ids _ Hwf)|done..|]. rewrite <- Hid, E. done. }
  by exists q.
Qed.

Lemma priced_actions_of k i : i ∈ ca_action_id <$> actions_of p k ↔
  i ∈ ca_action_id <$> actions_of P k ∧ i ∈ available p.
Proof.
  unfold available. rewrite !list_elem_of_fmap. split.
  - intros (a' & -> & [Hk Ha']%elem_of_actions_of). destruct (priced_action_origin a' Ha') as (a & q & Ha & Hq & Hpr).
    pose proof (priced_facts _ _ _ Ha Hpr) as E. split; [|eauto]. exists a. rewrite E in Hk |- *. split; [done|].
    by apply elem_of_actions_of.
  - intros [(a & -> & [Hk Ha]%elem_of_actions_of) (a' & Hid & Ha')].
    destruct (priced_action_of a a' Ha Ha' (eq_sym Hid)) as (q & _ & _ & E). exists a'. split; [done|].
    apply elem_of_actions_of. split; [by rewrite E|done].
Qed.

(** *** Terminal states *)

Lemma priced_contracts : contracts p = contracts P.
Proof. unfold contracts. rewrite (pr_states _ _ Hp), <- list_fmap_compose. done. Qed.

Lemma priced_atom_ids : atom_ids p = atom_ids P.
Proof.
  unfold atom_ids. rewrite (pr_states _ _ Hp). generalize (pb_terminal_state_sets P) as l. intros l.
  induction l as [|s l IH]; csimpl; [done|]. rewrite IH. f_equal. by rewrite <- list_fmap_compose.
Qed.

Lemma restricted_ids t i :
  i ∈ ap_action_id <$> ta_payouts (set_atom_payouts t (filter (λ y, ap_action_id y ∈ available p) (ta_payouts t))) ↔
  i ∈ ap_action_id <$> ta_payouts t ∧ i ∈ available p.
Proof.
  simpl. rewrite !list_elem_of_fmap. split.
  - intros (y & -> & [Hy Hin]%list_elem_of_filter). eauto.
  - intros [(y & -> & Hy) Hin]. exists y. split; [done|]. by apply list_elem_of_filter.
Qed.

(** *** Validity *)

(** What pricing can break. *)
Record pricing_ok : Prop := {
  po_released : ∀ s t d, s ∈ pb_terminal_state_sets P → t ∈ ts_atoms s → ta_capital_release_at t = Some d → dt_us now ≤ dt_us d;
  po_quoted : ∀ k, k ∈ contracts P → actions_of p k ≠ [];
  po_slices : Forall (λ q, Forall slice_int64 (cost_slices q)) quotes;
  po_unit : int64 (vc_usd_units_per_dollar c);
}.

Lemma priced_action_wf a : pricing_ok → a ∈ pb_actions p → wf_action p a.
Proof.
  intros Hok Ha. destruct (priced_action_origin a Ha) as (b & q & Hb & Hq & Hpr).
  pose proof (wf_actions _ Hwf) as Hall. rewrite Forall_forall in Hall. destruct (Hall b Hb).
  destruct (price_action_ok _ _ _ Hpr (max_positive b Hb)) as (E & Hle & (s & Hlast & Es) & source & bind & asks & _ & _ & _ & Hqo).
  destruct (pr_head _ _ Hp) as (_ & _ & Eu). rewrite E. split; simpl; try done.
  - by rewrite Eu.
  - unfold int64 in *. lia.
  - lia.
  - apply Hqo.
  - pose proof (po_slices Hok) as Hsl. rewrite Forall_forall in Hsl. by apply Hsl.
  - exists s. split; [done|]. lia.
Qed.

Lemma priced_atom_wf s t : pricing_ok → s ∈ pb_terminal_state_sets P → t ∈ ts_atoms s →
  wf_atom p (restrict_payouts (available p) s)
    (set_atom_payouts t (filter (λ y, ap_action_id y ∈ available p) (ta_payouts t))).
Proof.
  intros Hok Hs Ht. pose proof (wf_states _ Hwf) as Hall. rewrite Forall_forall in Hall.
  pose proof (ws_wf_atoms _ _ (Hall s Hs)) as Hats. rewrite Forall_forall in Hats. destruct (Hats t Ht) as [Hid Hrule (d & Hd & Hu & _) Hint Hnd Hids].
  split.
  - done.
  - done.
  - exists d. simpl. destruct (pr_now _ _ Hp) as [_ ->]. split_and!; [done..|]. by apply (po_released Hok s t).
  - simpl. apply Forall_forall. intros y [_ Hy]%list_elem_of_filter. rewrite Forall_forall in Hint. auto.
  - simpl. by apply NoDup_fmap_filter.
  - intros i. rewrite restricted_ids, Hids. simpl. symmetry. apply priced_actions_of.
Qed.

Lemma priced_state_wf s : pricing_ok → s ∈ pb_terminal_state_sets P → wf_state p (restrict_payouts (available p) s).
Proof.
  intros Hok Hs. pose proof (wf_states _ Hwf) as Hall. rewrite Forall_forall in Hall. destruct (Hall s Hs). split; simpl; try done.
  - apply (po_quoted Hok). apply list_elem_of_fmap. eauto.
  - by intros E%fmap_nil_inv.
  - intros a [Hk Ha]%elem_of_actions_of. destruct (priced_action_origin a Ha) as (b & q & Hb & _ & Hpr).
    rewrite (priced_facts _ _ _ Hb Hpr). simpl. apply ws_keys. apply elem_of_actions_of.
    rewrite (priced_facts _ _ _ Hb Hpr) in Hk. done.
  - apply Forall_fmap, Forall_forall. intros t Ht. by apply priced_atom_wf.
Qed.

Lemma priced_native k1 k2 : pricing_ok → wf_native P k1 k2 → k1 ∈ contracts P → k2 ∈ contracts P → wf_native p k1 k2.
Proof.
  intros Hok (Hne & (a1 & a2 & E1 & E2 & Hside) & (s1 & s2 & Hs1 & Hs2 & Ec1 & Ec2 & Hkey & Hk1 & Hk2)) Hc1 Hc2.
  assert (Hone : ∀ k a, actions_of P k = [a] → k ∈ contracts P → ∃ a', actions_of p k = [a'] ∧ ca_side a' = ca_side a).
  { intros k a Ek Hc. pose proof (po_quoted Hok k Hc) as Hn.
    assert (Hall : ∀ x, x ∈ actions_of p k → ca_action_id x = ca_action_id a ∧ ca_side x = ca_side a).
    { intros x [Hk Hx]%elem_of_actions_of. destruct (priced_action_origin x Hx) as (b & q & Hb & _ & Hpr).
      pose proof (priced_facts _ _ _ Hb Hpr) as Ex. assert (b ∈ actions_of P k) as Hbk.
      { apply elem_of_actions_of. split; [|done]. by rewrite Ex in Hk. }
      rewrite Ek in Hbk. apply list_elem_of_singleton in Hbk as ->. by rewrite Ex. }
    assert (Hnd : NoDup (ca_action_id <$> actions_of p k)) by (apply NoDup_fmap_filter, priced_ids_NoDup).
    destruct (actions_of p k) as [|x [|y rest]]; [done|exists x; split; [done|apply Hall; set_solver]|].
    csimpl in Hnd. apply NoDup_cons in Hnd as [Hx _]. destruct Hx. destruct (Hall x ltac:(set_solver)) as [-> _].
    destruct (Hall y ltac:(set_solver)) as [-> _]. set_solver. }
  destruct (Hone _ _ E1 Hc1) as (b1 & F1 & G1). destruct (Hone _ _ E2 Hc2) as (b2 & F2 & G2).
  split; [done|]. split; [exists b1, b2; split_and!; [done..|by rewrite G1, G2]|].
  assert (Hin : ∀ s, s ∈ pb_terminal_state_sets P → restrict_payouts (available p) s ∈ pb_terminal_state_sets p).
  { intros s Hs. rewrite (pr_states _ _ Hp). by apply list_elem_of_fmap_2. }
  assert (Hkinds : ∀ s, native_kinds (restrict_payouts (available p) s) = native_kinds s).
  { intros s. unfold native_kinds. simpl. by rewrite <- list_fmap_compose. }
  exists (restrict_payouts (available p) s1), (restrict_payouts (available p) s2). rewrite !Hkinds. split_and!; auto.
Qed.

Lemma priced_relation_wf r : pricing_ok → wf_relation P r → wf_relation p r.
Proof.
  intros Hok [Hid Hrule Har Hcs Hnat]. split; [done..|by rewrite priced_contracts|].
  intros k1 k2 Ek Ec. apply priced_native; [done|by apply Hnat|..].
  all: rewrite Forall_forall in Hcs; apply Hcs; rewrite Ec; set_solver.
Qed.

Lemma priced_qualifications_wf : int64 (vc_usd_units_per_dollar c) →
  Forall wf_qualification (pb_qualification_constraints p) ∧
  NoDup (qc_constraint_id <$> pb_qualification_constraints p).
Proof.
  intros Hu. pose proof (pr_constraints _ _ Hp) as HR. unfold qualification_constraints in HR.
  apply bind_Ok in HR as (rule & Hr%of_option_Ok & (? & _ & [= <-])%bind_Ok).
  destruct (pb_terminal_state_sets P) as [|s states] eqn:Es; [done|]. injection Hr as <-.
  pose proof (wf_states _ Hwf) as Hall. rewrite Es in Hall. apply Forall_cons in Hall as [Hs _].
  pose proof (ws_rule _ _ Hs) as Hrule. split; [|by apply (bool_decide_unpack _)].
  repeat (apply Forall_cons; split); [split; simpl; try done; unfold int64, INT64_MAX in *; lia..|constructor].
Qed.

Lemma priced_wf : pricing_ok → wf_problem p.
Proof.
  intros Hok. destruct (pr_head _ _ Hp) as (E1 & E2 & E3). destruct (pr_now _ _ Hp) as [Hnow Eas].
  destruct (priced_qualifications_wf (po_unit Hok)) as [Hq Hqn].
  destruct Hwf. split; rewrite ?E1, ?E2, ?E3, ?Eas, ?priced_contracts, ?priced_atom_ids, ?(pr_model _ _ Hp); try done.
  - apply Forall_forall. intros a Ha. by apply priced_action_wf.
  - apply priced_ids_NoDup.
  - rewrite (pr_states _ _ Hp). apply Forall_fmap, Forall_forall. intros s Hs. by apply priced_state_wf.
  - intros a Ha. destruct (priced_action_origin a Ha) as (b & q & Hb & _ & Hpr).
    rewrite (priced_facts _ _ _ Hb Hpr). simpl. auto.
  - eapply Forall_impl; [exact wf_relations|]. intros r. by apply priced_relation_wf.
  - eapply Forall_impl; [exact wf_forbiddens|]. intros f [Hi Hr Ha]. split; [done..|]. by rewrite priced_atom_ids.
Qed.

(** A valid priced problem shows that pricing broke nothing. *)
Lemma priced_wf_inv : wf_problem p → pricing_ok.
Proof.
  intros Hpw. destruct (pr_now _ _ Hp) as [_ Enow]. split.
  - intros s t d Hs Ht Hd. pose proof (wf_states _ Hpw) as Hall. rewrite (pr_states _ _ Hp), Forall_fmap, Forall_forall in Hall.
    pose proof (ws_wf_atoms _ _ (Hall s Hs)) as Hats. simpl in Hats. rewrite Forall_fmap, Forall_forall in Hats.
    destruct (wt_release _ _ _ (Hats t Ht)) as (d' & Ed & _ & Hle). simpl in Ed. rewrite Enow in Hle. by simplify_eq.
  - intros k. rewrite <- priced_contracts. intros (s & -> & Hs)%list_elem_of_fmap.
    pose proof (wf_states _ Hpw) as Hall. rewrite Forall_forall in Hall. by apply (ws_actions _ _ (Hall s Hs)).
  - apply Forall_forall. intros q Hq. destruct (pr_chosen _ _ Hp) as (chosen & Hs & Hf & _).
    apply list_elem_of_lookup in Hq as [i Hi].
    destruct (lookup_lt_is_Some_2 (pb_actions p) i) as [a' Ha'].
    { rewrite (pr_length _ _ Hp). by apply lookup_lt_is_Some; eauto. }
    destruct (Forall2_lookup_r _ _ _ i (a', q) Hf) as (a & Hai & E); [by rewrite lookup_zip_with, Ha', Hi|].
    assert (Ha : a ∈ pb_actions P) by (eapply elem_of_sublist; [by apply list_elem_of_lookup_2 with i|done]).
    pose proof (priced_facts _ _ _ Ha E) as Ea. pose proof (wf_actions _ Hpw) as Hall. rewrite Forall_forall in Hall.
    pose proof (wa_slices_int64 _ _ (Hall a' (list_elem_of_lookup_2 _ _ _ Ha'))) as Hsl. by rewrite Ea in Hsl.
  - pose proof (pr_constraints _ _ Hp) as HR. unfold qualification_constraints in HR.
    apply bind_Ok in HR as (rule & Hr%of_option_Ok & (? & _ & [= Eq])%bind_Ok).
    pose proof (wf_qualifications _ Hpw) as Hall. rewrite <- Eq in Hall. apply Forall_cons in Hall as [Hq _].
    apply (wq_numerator _ Hq).
Qed.

(** *** Execution legs *)

(** The quote of a priced action. *)
Lemma priced_quote a' : a' ∈ pb_actions p → ∃ q, index_by cq_action_id quotes !! ca_action_id a' = Some q ∧
  ca_cost_slices a' = cost_slices q ∧ contiguous 0 (cost_slices q) ∧
  final_lot 0 (cost_slices q) = ca_max_quantity_lots a' ∧
  Forall (λ l, 0 ≤ ql_protected_price_units l) (cq_levels q).
Proof.
  intros Ha'. destruct (priced_action_origin a' Ha') as (a & q & Ha & Hq & Hpr). exists q.
  destruct (price_action_ok _ _ _ Hpr (max_positive a Ha)) as (E & _ & (s & Hlast & Es) & source & b & asks & _ & _ & _ & Hqo).
  split_and!.
  - apply index_by_lookup; [rewrite priced_quote_ids; apply priced_ids_NoDup|]. split; [done|].
    destruct (qo_names _ _ _ _ _ _ _ Hqo) as (-> & _). by rewrite E.
  - by rewrite E.
  - apply Hqo.
  - unfold final_lot. by rewrite Hlast.
  - destruct (qo_backed _ _ _ _ _ _ _ Hqo) as (used & _ & Hb & _). by eapply backed_prices, (qo_book _ _ _ _ _ _ _ Hqo).
Qed.

(** What an execution leg says about a quantity. *)
Record leg_ok (q : ActionQuantity) (leg : ExecutionLegEvidence) : Prop := {
  lo_names : xl_action_id leg = aq_action_id q ∧ xl_quantity_lots leg = aq_quantity_lots q;
  lo_cost : xl_max_cost_units leg = portfolio_cost p [q];
  lo_quote : ∃ quote, quote ∈ quotes ∧ cq_action_id quote = aq_action_id q ∧
    xl_native_id leg = cq_native_id quote ∧ xl_source_fingerprint leg = cq_source_fingerprint quote ∧
    xl_max_fee_units leg = lots_cost (fee_slice <$> cq_levels quote) (aq_quantity_lots q) ∧
    protects (cq_levels quote) (aq_quantity_lots q) (xl_protected_price_units leg);
}.

(** A quantity in range never runs out of visible asks: its leg is computed
    whenever its cost is. *)
Lemma execution_leg_ok a' q :
  wf_problem p → a' ∈ pb_actions p → ca_action_id a' = aq_action_id q → in_range a' (aq_quantity_lots q) → 0 < aq_quantity_lots q →
  match cost_upper_bound p [q] with
  | Ok _ => ∃ leg, execution_leg p (index_by ca_action_id (pb_actions p)) (index_by cq_action_id quotes) q = Ok leg ∧ leg_ok q leg
  | Err e => execution_leg p (index_by ca_action_id (pb_actions p)) (index_by cq_action_id quotes) q = Err e
  end.
Proof.
  intros Hpw Ha' Hid [_ Hmax] Hpos. destruct (priced_quote a' Ha') as (quote & Hq & Hsl & Hc & Hf & Hprices).
  assert (Hact : index_by ca_action_id (pb_actions p) !! aq_action_id q = Some a').
  { apply index_by_lookup; [apply priced_ids_NoDup|done]. }
  rewrite Hid in Hq. unfold execution_leg. rewrite Hact, Hq. cbn [of_option mbind res_bind].
  destruct (walk_from_zero (cq_levels quote) (aq_quantity_lots q) Hc) as (W1 & W2 & W3); [change (level_slice <$> cq_levels quote) with (cost_slices quote); lia|done|].
  rewrite W1. cbn [Z.eqb require mbind res_bind]. destruct (cost_upper_bound p [q]) as [cost|e] eqn:Ec; [|done].
  eexists. split; [reflexivity|]. apply index_by_elem in Hq as [Hin Hqid]. split; simpl.
  - done.
  - by apply cost_single.
  - exists quote. split_and!; try done.
Qed.
End one.
End priced.

(** * What carries over between forms of a problem

    Sorting a problem and pricing it change neither the allowed outcomes nor
    what a portfolio of the remaining actions pays or costs. *)

(** ** Lookups *)

Lemma py_next_unique {A} (key : A → string) l k x :
  NoDup (key <$> l) → py_next (λ y, (key y =? k)%string) l = Some x ↔ x ∈ l ∧ key x = k.
Proof.
  intros Hnd. split; [intros [Hx Hk]%py_next_Some; by apply String.eqb_eq in Hk|]. intros [Hx Hk].
  destruct (py_next _ l) as [y|] eqn:E.
  - apply py_next_Some in E as [Hy Ey]. apply String.eqb_eq in Ey. f_equal.
    apply (NoDup_key_eq key l); [done..|congruence].
  - rewrite py_next_None in E. specialize (E x Hx). apply String.eqb_neq in E. done.
Qed.

Lemma option_ext {A} (o o' : option A) : (∀ x, o = Some x ↔ o' = Some x) → o = o'.
Proof. intros Hx. destruct o as [x|]; [symmetry; by apply Hx|]. destruct o' as [x|]; [by apply Hx|done]. Qed.

Lemma py_next_perm {A} (key : A → string) l k i : NoDup (key <$> l) → l ≡ₚ k →
  py_next (λ y, (key y =? i)%string) l = py_next (λ y, (key y =? i)%string) k.
Proof.
  intros Hnd Hp. apply option_ext. intros x. rewrite !py_next_unique; [by rewrite Hp|by rewrite <- Hp|done].
Qed.

Lemma index_by_perm {A} (key : A → string) l k i : NoDup (key <$> l) → l ≡ₚ k → index_by key l !! i = index_by key k !! i.
Proof. intros Hnd Hp. apply option_ext. intros x. rewrite !index_by_lookup; [by rewrite Hp|by rewrite <- Hp|done]. Qed.

Lemma py_next_filter {A} (f : A → bool) (P : A → Prop) `{∀ x, Decision (P x)} l :
  (∀ x, f x = true → P x) → py_next f (filter P l) = py_next f l.
Proof.
  intros Hf. unfold py_next. induction l as [|x l IH]; [done|]. rewrite filter_cons. simpl.
  destruct (f x) eqn:E; case_decide as Hx; simpl; rewrite ?E; auto. by destruct Hx; apply Hf.
Qed.

(** ** The sorted form *)

Section sorted.
Context (p : ArbitrageProblem) (Hwf : wf_problem p).
Abbreviation q := (sorted_problem p).

Lemma sorted_index i : index_by ca_action_id (pb_actions q) !! i = index_by ca_action_id (pb_actions p) !! i.
Proof. symmetry. apply index_by_perm; [apply (wf_action_ids _ Hwf)|]. simpl. symmetry. apply sort_on_perm. Qed.

Lemma sorted_portfolio_cost qs : portfolio_cost q qs = portfolio_cost p qs.
Proof. unfold portfolio_cost. f_equal. apply list_fmap_ext. intros i x _. by rewrite sorted_index. Qed.

Lemma sorted_selection qs : selection q qs → selection p qs.
Proof.
  intros [Hu Hk Hs]. split; [done| |done]. eapply Forall_impl; [exact Hk|]. intros x (a & Ha & ?). rewrite sorted_index in Ha. eauto.
Qed.

Lemma sorted_kinds ω ids : kinds (sorted_atom ∘ ω) ids = kinds ω ids.
Proof. done. Qed.

Lemma all_normal_perm k l : k ≡ₚ l → all_normal k ↔ all_normal l.
Proof. unfold all_normal. intros Hp. by rewrite Hp. Qed.
Lemma yes_count_perm k l : k ≡ₚ l → yes_count k = yes_count l.
Proof. unfold yes_count. intros Hp. by rewrite Hp. Qed.

Lemma two_perm {A} (a b : A) l : [a; b] ≡ₚ l → l = [a; b] ∨ l = [b; a].
Proof.
  intros Hp. pose proof (Permutation_length Hp) as Hl. destruct l as [|x [|y [|]]]; try done.
  apply Permutation_length_2 in Hp as [[-> ->]|[-> ->]]; auto.
Qed.

Lemma sorted_relation_sat ω r : wf_arity (rc_kind r) (rc_contract_ids r) →
  relation_sat ω r → relation_sat (sorted_atom ∘ ω) (sorted_relation r).
Proof.
  unfold relation_sat, sorted_relation. intros Har. simpl. case_decide as Hk; [by rewrite sorted_kinds|].
  rewrite sorted_kinds. assert (Hp : kinds ω (sorted_strings (rc_contract_ids r)) ≡ₚ kinds ω (rc_contract_ids r)).
  { unfold kinds, sorted_strings. by rewrite sort_on_perm. }
  destruct (rc_kind r); try done.
  - by rewrite (all_normal_perm _ _ Hp), (yes_count_perm _ _ Hp).
  - by rewrite (all_normal_perm _ _ Hp), (yes_count_perm _ _ Hp).
  - intros [E|[E|E]]; rewrite E in Hp; symmetry in Hp; apply two_perm in Hp as [->| ->]; auto.
Qed.

Lemma sorted_selects ω i : selects p ω i → selects q (sorted_atom ∘ ω) i.
Proof. intros (s & Hs & E). exists (sorted_state_set s). split; [|done]. apply sorted_states. eauto. Qed.

Lemma sorted_selects_inv ω i : selects q (sorted_atom ∘ ω) i → selects p ω i.
Proof. intros (s & Hs & E). apply sorted_states in Hs as (t & -> & Ht). by exists t. Qed.

Lemma sorted_allowed ω : allowed p ω → allowed q (sorted_atom ∘ ω).
Proof.
  intros [Ho Hr Hf]. split.
  - intros s Hs. apply sorted_states in Hs as (t & -> & Ht). simpl. apply elem_of_sort_on, list_elem_of_fmap_2. by apply Ho.
  - apply Forall_forall. intros r Hin. apply elem_of_sort_on, list_elem_of_fmap in Hin as (r' & -> & Hin).
    rewrite Forall_forall in Hr. apply sorted_relation_sat; [|by apply Hr].
    pose proof (wf_relations _ Hwf) as Hall. rewrite Forall_forall in Hall. by apply (wr_arity p), Hall.
  - apply Forall_forall. intros f Hin. apply elem_of_sort_on, list_elem_of_fmap in Hin as (f' & -> & Hin).
    rewrite Forall_forall in Hf. intros Hsel. apply (Hf f' Hin). unfold sorted_forbidden, set_forbidden_atoms, sorted_strings in Hsel. simpl in Hsel.
    rewrite (sort_on_perm _ _) in Hsel. eapply Forall_impl; [exact Hsel|]. intros i. apply sorted_selects_inv.
Qed.

Lemma sorted_payout ω i : outcome p ω → payout_of q (sorted_atom ∘ ω) i = payout_of p ω i.
Proof.
  intros Ho. unfold payout_of. rewrite sorted_index. destruct (index_by ca_action_id (pb_actions p) !! i) as [a|] eqn:Ea; [|done].
  apply index_by_elem in Ea as [Ha _]. simpl.
  rewrite (py_next_perm ap_action_id _ (ta_payouts (ω (ca_market_contract_id a)))); [done| |apply sort_on_perm].
  pose proof (wf_action_contracts _ Hwf a Ha) as (s & Es & Hs)%list_elem_of_fmap.
  rewrite (sort_on_perm _ _), Es. apply (wt_payout_unique p s), (wf_atom_in _ Hwf); [done|by apply Ho].
Qed.

Lemma sorted_realized ω qs : outcome p ω → realized_payout q (sorted_atom ∘ ω) qs = realized_payout p ω qs.
Proof.
  intros Ho. unfold realized_payout. f_equal. apply list_fmap_ext. intros i x _. by rewrite sorted_payout.
Qed.
End sorted.

(** ** Pricing *)

Section restricted.
Context `{Sha256}.
Context (c : VerifiedComponent) (books : list ImmutableBook) (now : datetime).
Context (p : ArbitrageProblem) (quotes : list CanonicalQuoteEvidence).
Abbreviation P := (vc_problem c).
Context (Hwf : wf_problem P) (Hp : priced c books now p quotes).

(** The atom without the payouts of the actions that got no quote. *)
Definition restricted_atom (t : TerminalAtom) : TerminalAtom :=
  set_atom_payouts t (filter (λ y, ap_action_id y ∈ available p) (ta_payouts t)).

Lemma priced_allowed ω : allowed P ω → allowed p (restricted_atom ∘ ω).
Proof.
  intros [Ho Hr Hf]. split.
  - intros s. rewrite (pr_states _ _ _ _ _ Hp). intros (t & -> & Ht)%list_elem_of_fmap. simpl. apply list_elem_of_fmap_2. by apply Ho.
  - by rewrite (pr_model _ _ _ _ _ Hp).
  - rewrite (pr_model _ _ _ _ _ Hp). eapply Forall_impl; [exact Hf|]. intros f Hnot Hsel. apply Hnot.
    eapply Forall_impl; [exact Hsel|]. intros i (s & Hs & E). rewrite (pr_states _ _ _ _ _ Hp) in Hs.
    apply list_elem_of_fmap in Hs as (t & -> & Ht). by exists t.
Qed.

(** A priced action is the component's, with other lots and costs. *)
Lemma priced_index i a' : index_by ca_action_id (pb_actions p) !! i = Some a' →
  ∃ a, index_by ca_action_id (pb_actions P) !! i = Some a ∧ ca_market_contract_id a' = ca_market_contract_id a ∧
    ca_min_quantity_lots a ≤ ca_max_quantity_lots a' ≤ ca_max_quantity_lots a ∧ ca_min_quantity_lots a' = ca_min_quantity_lots a.
Proof.
  intros [Ha' Hid]%index_by_elem. destruct (priced_action_origin c books now p quotes Hp a' Ha') as (a & q & Ha & _ & Hpr).
  destruct (price_action_ok c books now a a' q Hpr (max_positive c Hwf a Ha)) as (E & Hle & _).
  exists a. rewrite E in Hid |- *. simpl in *. split_and!; [|done|lia..|done]. by apply index_by_lookup; [apply (wf_action_ids _ Hwf)|].
Qed.

Lemma priced_payout ω i : i ∈ available p → payout_of p (restricted_atom ∘ ω) i = payout_of P ω i.
Proof.
  intros Hi. unfold payout_of. apply index_by_is_Some in Hi as Hs. destruct Hs as [a' Ha']. rewrite Ha'.
  destruct (priced_index _ _ Ha') as (a & -> & -> & _). simpl. rewrite py_next_filter; [done|].
  intros y Hy%String.eqb_eq. by rewrite Hy.
Qed.

Lemma priced_realized ω qs : selection p qs → realized_payout p (restricted_atom ∘ ω) qs = realized_payout P ω qs.
Proof.
  intros [_ Hk _]. unfold realized_payout. f_equal. apply list_fmap_ext. intros i x Hx. rewrite priced_payout; [done|].
  apply list_elem_of_lookup_2 in Hx. rewrite Forall_forall in Hk. destruct (Hk x Hx) as (a & Ha & _). apply index_by_is_Some. by rewrite Ha.
Qed.

(** Within the component's own quantities. *)
Lemma priced_in_range qs x : selection p qs → x ∈ qs →
  ∃ a, a ∈ pb_actions P ∧ ca_action_id a = aq_action_id x ∧ in_range a (aq_quantity_lots x).
Proof.
  intros [_ Hk _] Hx. rewrite Forall_forall in Hk. destruct (Hk x Hx) as (a' & Ha' & [Hlo Hhi] & _).
  destruct (priced_index _ _ Ha') as (a & [Ha Hid]%index_by_elem & _ & Hle & Hmin). exists a. split_and!; [done..|].
  unfold in_range. lia.
Qed.
End restricted.
