(* ===== verification/LifecycleCorrect.v ===== *)
(** * The executed lock is complete

    The ancestor search terminates and finds exactly the lineages reachable
    through predecessors; a lineage the lock admits was never claimed, and
    when an ancestor was, its own episode closed after every such claim. *)

From stdpp Require Import relations.
From S2P Require Import Prelude PyValue NLeg NLegForms NLegWf ComponentsCorrect FillProof Quotes Receipts BatchStore Lineage Repair Reconcile Entry Lifecycle ReceiptsCorrect RepairCorrect ReconcileCorrect EntryCorrect.
Local Open Scope Z_scope.

(** [p] is named as a predecessor in a row of lineage [x]. *)
Definition predecessor (rows : list LineageRow) (x p : string) : Prop :=
  ∃ r, r ∈ rows ∧ lr_lineage_id r = x ∧ p ∈ lr_predecessors r.

Lemma predecessors_of_spec rows frontier p :
  p ∈ predecessors_of rows frontier ↔ ∃ x, x ∈ frontier ∧ predecessor rows x p.
Proof.
  unfold predecessors_of, predecessor. rewrite list_elem_of_bind. setoid_rewrite list_elem_of_filter. naive_solver.
Qed.

Lemma visit_fold ps anc fr :
  let out := foldl visit (anc, fr) ps in
  out.1 = anc ∪ list_to_set ps ∧ ∀ x, x ∈ out.2 ↔ x ∈ fr ∨ (x ∈ ps ∧ x ∉ anc).
Proof.
  revert anc fr. induction ps as [|p ps IH]; intros anc fr; simpl.
  - split; [set_solver|]. intros x. split; [auto|]. by intros [?|[?%not_elem_of_nil _]].
  - unfold visit at 2 4. simpl. case_bool_decide as Hp.
    + destruct (IH anc fr) as [E1 E2]. split; [rewrite E1; set_solver|]. intros x. rewrite E2, elem_of_cons. naive_solver.
    + destruct (IH ({[p]} ∪ anc) (fr ++ [p])) as [E1 E2]. split; [rewrite E1; set_solver|]. intros x.
      rewrite E2, elem_of_app, list_elem_of_singleton, elem_of_cons, not_elem_of_union, not_elem_of_singleton.
      destruct (decide (x = p)) as [->|]; naive_solver.
Qed.

Record ancestors_inv (rows : list LineageRow) (root : string) (anc : gset string) (fr : list string) : Prop := {
  ai_sound : ∀ x, x ∈ anc → tc (predecessor rows) root x;
  ai_frontier : ∀ x, x ∈ fr → x = root ∨ x ∈ anc;
  ai_done : ∀ x p, x = root ∨ x ∈ anc → x ∉ fr → predecessor rows x p → p ∈ anc;
}.

Lemma ancestors_inv_step rows root anc fr :
  ancestors_inv rows root anc fr →
  let out := foldl visit (anc, []) (predecessors_of rows fr) in ancestors_inv rows root out.1 out.2.
Proof.
  intros [Hs Hf Hd]. destruct (visit_fold (predecessors_of rows fr) anc []) as [E1 E2]. simpl. split.
  - intros x. rewrite E1, elem_of_union, elem_of_list_to_set, predecessors_of_spec. intros [?|(y & Hy & Hp)]; [auto|].
    destruct (Hf y Hy) as [->|Ha]; [by apply tc_once|]. eapply tc_r; [by apply Hs|done].
  - intros x. rewrite E2, E1, elem_of_union, elem_of_list_to_set. intros [?%not_elem_of_nil|[? _]]; [done|auto].
  - intros x p Hx Hnf Hp. rewrite E1, elem_of_union, elem_of_list_to_set in Hx |- *. rewrite E2 in Hnf.
    destruct (decide (x ∈ fr)) as [Hin|Hin]; [right; apply predecessors_of_spec; eauto|].
    destruct Hx as [->|[Ha|Hps]]; [left; eauto|left; eauto|].
    destruct (decide (x ∈ anc)) as [Ha|Ha]; [left; eauto|]. exfalso. apply Hnf. auto.
Qed.

Lemma ancestors_inv_closed rows root anc :
  ancestors_inv rows root anc [] → ∀ x, x ∈ anc ↔ tc (predecessor rows) root x.
Proof.
  intros [Hs _ Hd] x. split; [auto|].
  assert (Hgen : ∀ u, tc (predecessor rows) u x → u = root ∨ u ∈ anc → x ∈ anc); [|intros Hx; apply (Hgen root); auto].
  assert (Hc : ∀ u p, u = root ∨ u ∈ anc → predecessor rows u p → p ∈ anc)
    by (intros u p Hu Hp; exact (Hd u p Hu (not_elem_of_nil u) Hp)).
  induction 1 as [u v Hp|u v w Hp _ IHt]; intros Hu; [by eapply Hc|]. apply IHt. right. by eapply Hc.
Qed.

Lemma ancestors_loop_nil fuel rows anc : ancestors_loop fuel rows anc [] = Ok anc.
Proof. by destruct fuel. Qed.

Lemma ancestors_loop_ok rows root fuel anc fr :
  ancestors_inv rows root anc fr → (size (all_predecessors rows ∖ anc) < fuel)%nat →
  ∃ out, ancestors_loop fuel rows anc fr = Ok out ∧ ∀ x, x ∈ out ↔ tc (predecessor rows) root x.
Proof.
  revert anc fr. induction fuel as [|fuel IH]; intros anc fr Hinv Hfuel; [lia|].
  destruct fr as [|y fr]; [exists anc; split; [done|by apply ancestors_inv_closed]|]. cbn [ancestors_loop].
  pose proof (ancestors_inv_step rows root anc (y :: fr) Hinv) as Hinv'.
  destruct (visit_fold (predecessors_of rows (y :: fr)) anc []) as [E1 E2].
  destruct (foldl visit _ _) as [anc' fr']. simpl in Hinv', E1, E2.
  destruct fr' as [|x fr']; [exists anc'; rewrite ancestors_loop_nil; split; [done|by apply ancestors_inv_closed]|].
  apply IH; [done|]. destruct (proj1 (E2 x)) as [?%not_elem_of_nil|[Hx Hna]]; [by left|done|].
  enough (size (all_predecessors rows ∖ anc') < size (all_predecessors rows ∖ anc))%nat by lia.
  apply subset_size. subst anc'. split; [set_solver|]. intros Hsub. apply (not_elem_of_empty (C := gset string) x).
  assert (Hall : x ∈ all_predecessors rows).
  { unfold all_predecessors. rewrite elem_of_list_to_set, list_elem_of_bind.
    apply predecessors_of_spec in Hx as (z & _ & r & Hr & _ & Hp). eauto. }
  assert (Hin : x ∈ all_predecessors rows ∖ anc) by set_solver. apply Hsub in Hin. set_solver.
Qed.

(** The ancestors of a lineage, without itself, and the search always ends. *)
Lemma lineage_ancestors_ok rows lineage :
  ∃ out, lineage_ancestors rows lineage = Ok out ∧ ∀ x, x ∈ out ↔ tc (predecessor rows) lineage x ∧ x ≠ lineage.
Proof.
  destruct (ancestors_loop_ok rows lineage (S (size (all_predecessors rows))) ∅ [lineage]) as (out & Ho & Hx).
  - split; [set_solver|intros x ->%list_elem_of_singleton; auto|]. intros x p [->|Hx]; [|set_solver]. intros Hn. exfalso.
    apply Hn, list_elem_of_singleton. done.
  - assert (size (all_predecessors rows ∖ ∅) ≤ size (all_predecessors rows))%nat by (apply subseteq_size; set_solver). lia.
  - exists (out ∖ {[lineage]}). unfold lineage_ancestors. rewrite Ho. split; [done|]. intros x.
    by rewrite elem_of_difference, not_elem_of_singleton, Hx.
Qed.

(** ** The decision *)

Lemma newest_claim_max hits newest l t : newest_claim hits = Some newest → hits !! l = Some t → t ≤ newest.
Proof.
  unfold newest_claim. intros Hn Hl%elem_of_map_to_list. apply (list_elem_of_fmap_2 snd) in Hl. simpl in Hl.
  destruct ((map_to_list hits).*2) as [|x xs]; [done|]. injection Hn as <-.
  assert (Hfold : ∀ ys y, y ≤ foldl Z.max y ys ∧ Forall (λ z, z ≤ foldl Z.max y ys) ys).
  { induction ys as [|z ys IH]; intros y; simpl; [split; [lia|constructor]|]. destruct (IH (Z.max y z)) as [H1 H2].
    split; [lia|]. constructor; [lia|done]. }
  destruct (Hfold xs x) as [H1 H2]. apply elem_of_cons in Hl as [->|Hl]; [done|].
  exact (proj1 (Forall_forall _ _) H2 t Hl).
Qed.

(** What an admitted lineage satisfies. *)
Record admitted_lineage (rows : list LineageRow) (episodes : option (list EpisodeClose)) (claims : gmap string Z)
    (lineage : string) : Prop := {
  al_unclaimed : claims !! lineage = None;
  al_rearmed : ∀ ancestor t, tc (predecessor rows) lineage ancestor → claims !! ancestor = Some t →
    ∃ closes e, episodes = Some closes ∧ e ∈ closes ∧ ec_episode_lineage_id e = lineage ∧
      ec_close_reason e = CLOSE_NO_QUALIFIED_OPPORTUNITY ∧ t < ec_closed_at e;
}.

Lemma rearm_evidence_spec episodes lineage t0 t :
  rearm_evidence episodes lineage t0 = true → t ≤ t0 →
  ∃ closes e, episodes = Some closes ∧ e ∈ closes ∧ ec_episode_lineage_id e = lineage ∧
    ec_close_reason e = CLOSE_NO_QUALIFIED_OPPORTUNITY ∧ t < ec_closed_at e.
Proof.
  unfold rearm_evidence. destruct episodes as [closes|]; [|done]. intros (e & He%list_elem_of_In & Ht)%existsb_exists Hle.
  bool_prop. exists closes, e. split_and!; try done. lia.
Qed.

Lemma lineage_lock_sound graph episodes claims component frozen lineage :
  lineage_lock_decision graph episodes claims component frozen = Ok (Some lineage, None) →
  ∃ rows row, graph = Some rows ∧ row ∈ rows ∧ lr_lineage_id row = lineage ∧ admitted_lineage rows episodes claims lineage.
Proof.
  unfold lineage_lock_decision. set (component' := component ≫= _). clearbody component'.
  destruct (resolve_row graph component' frozen) as [out|[row identity]] eqn:Er.
  { intros [= ->]. unfold resolve_row in Er.
    repeat (match type of Er with context [match ?x with _ => _ end] => destruct x end; try discriminate Er). }
  assert (Hrow : ∃ rows, graph = Some rows ∧ row ∈ rows).
  { assert (Hc : ∀ rows c r, row_of_component rows c = Some r → r ∈ rows).
    { intros rows c r. unfold row_of_component. by intros [? _]%py_next_Some. }
    assert (Hl : ∀ rows l r, row_of_lineage rows l = Some r → r ∈ rows).
    { intros rows l r. unfold row_of_lineage. destruct (filter _ rows) as [|x xs] eqn:Ef; [done|]. intros [= <-].
      assert (Hsub : ∀ y, y ∈ x :: xs → y ∈ rows) by (intros y; rewrite <- Ef; by intros [_ ?]%list_elem_of_filter).
      clear Ef. revert x Hsub. induction xs as [|z xs IH]; intros x Hsub; simpl; [by apply Hsub; left|].
      apply IH. intros y [->|Hy]%elem_of_cons; [destruct (row_before z x)|]; apply Hsub; set_solver. }
    unfold resolve_row in Er. destruct component' as [c|], graph as [rows|]; try discriminate Er; exists rows; (split; [done|]).
    - destruct (row_of_component rows c) eqn:E; [|done]. injection Er as <- <-. by eapply Hc.
    - destruct (frozen =? "")%string; [done|]. destruct (has_prefix frozen); [destruct (_ =? _)%string; [done|]|].
      + destruct (row_of_component rows _) eqn:E; [|done]. injection Er as <- <-. by eapply Hc.
      + destruct (row_of_lineage rows _) eqn:E; [|done]. injection Er as <- <-. by eapply Hl. }
  destruct Hrow as (rows & -> & Hin). simpl.
  destruct (lineage_ancestors_ok rows (lr_lineage_id row)) as (anc & -> & Hanc). simpl.
  set (blocked := _ ∪ legacy_blocked rows claims). set (hits := filter _ claims).
  destruct (_ || _) eqn:Eh; [done|]. apply orb_false_iff in Eh as [Eh _]. apply bool_decide_eq_false_1 in Eh.
  assert (Hhit : ∀ l t, l ∈ blocked → claims !! l = Some t → hits !! l = Some t)
    by (intros l t Hl Ht; by apply map_lookup_filter_Some_2).
  assert (Hun : claims !! lr_lineage_id row = None).
  { apply eq_None_not_Some. intros [t Ht]. apply Eh. exists t. apply Hhit; [set_solver|done]. }
  destruct (newest_claim hits) as [newest|] eqn:En.
  - destruct (rearm_evidence episodes _ newest) eqn:Ee; [|done]. intros [= <-]. exists rows, row. split_and!; try done.
    split; [done|]. intros a t Ha Ht. destruct (decide (a = lr_lineage_id row)) as [->|Hne]; [congruence|].
    eapply rearm_evidence_spec; [exact Ee|]. eapply newest_claim_max; [exact En|]. apply Hhit; [|done].
    apply elem_of_union_l, elem_of_union_r, Hanc. done.
  - intros [= <-]. exists rows, row. split_and!; try done. split; [done|]. intros a t Ha Ht.
    destruct (decide (a = lr_lineage_id row)) as [->|Hne]; [congruence|]. exfalso.
    assert (Hin' : hits !! a = Some t) by (apply Hhit; [apply elem_of_union_l, elem_of_union_r, Hanc; done|done]).
    apply elem_of_map_to_list, (list_elem_of_fmap_2 snd) in Hin'. unfold newest_claim in En.
    destruct ((map_to_list hits).*2); [by apply not_elem_of_nil in Hin'|done].
Qed.

(** * The capital ledger along every life of the store

    One invariant of the whole store, kept by every transition: at most one
    batch is open and it is the active one, the unsettled capital of the
    control row is the sum over the batches whenever none is active, and no
    lineage is executed twice. *)

Definition CLOSED_STATES : list string := [RECONCILED_ZERO; RECONCILED_FULL; "INCIDENT_ACKNOWLEDGED"].
Definition closed (b : Batch) : Prop := ba_state b ∈ CLOSED_STATES.

(** Unsettled capital over a set of batches. *)
Definition settled (m : gmap string Batch) : Z := map_sum (λ e, ba_total_unsettled_capital_units e.2) m.

Definition lineage_of (b : Batch) : string := en_episode_lineage_id (ba_entry b).

(** The active batch: open, well formed, with the prior capital of the others,
    and in step with the control row when it can be acknowledged. *)
Record active_ok (st : Store) (id : string) (b : Batch) : Prop := {
  ak_open : ¬ closed b;
  ak_wf : wf_batch b;
  ak_settleable : settleable b;
  ak_ledger : ba_terminal_ledger b = ∅;
  ak_prior : ba_prior_unsettled_capital_units b = settled (delete id (so_batches st));
  ak_synced : ba_state b = "INCIDENT" → all_terminal b = true →
    ct_total_unsettled_capital_units (so_control st) = ba_prior_unsettled_capital_units b + ba_total_unsettled_capital_units b;
}.

Record ledger_inv (st : Store) : Prop := {
  li_ids : ∀ id b, so_batches st !! id = Some b → ba_execution_batch_id b = id;
  li_closed : ∀ id b, so_batches st !! id = Some b → ct_active_batch_id (so_control st) ≠ Some id →
    closed b ∧ 0 ≤ ba_total_unsettled_capital_units b;
  li_active : ∀ id, ct_active_batch_id (so_control st) = Some id → ∃ b, so_batches st !! id = Some b ∧ active_ok st id b;
  li_idle : ct_active_batch_id (so_control st) = None → ct_total_unsettled_capital_units (so_control st) = settled (so_batches st);
  li_claimed : ∀ id b, so_batches st !! id = Some b → is_Some (so_claims st !! lineage_of b);
  li_lineage : ∀ i j b c, so_batches st !! i = Some b → so_batches st !! j = Some c → lineage_of b = lineage_of c → i = j;
}.

Lemma settled_nonneg m : (∀ id b, m !! id = Some b → 0 ≤ ba_total_unsettled_capital_units b) → 0 ≤ settled m.
Proof. intros Hm. apply sumZ_nonneg, Forall_fmap, Forall_forall. intros [id b] Hb%elem_of_map_to_list. exact (Hm id b Hb). Qed.

Lemma settled_insert m id b : settled (<[id := b]> m) = ba_total_unsettled_capital_units b + settled (delete id m).
Proof. unfold settled. by rewrite map_sum_insert. Qed.

(** The batches other than the active one are closed, so their sum is not
    negative. *)
Lemma ledger_others st id : ledger_inv st → ct_active_batch_id (so_control st) = Some id → 0 ≤ settled (delete id (so_batches st)).
Proof.
  intros Hi Ha. apply settled_nonneg. intros j b [Hne Hj]%lookup_delete_Some.
  apply (li_closed _ Hi j b Hj). congruence.
Qed.

(** Only the active batch is open. *)
Lemma ledger_open_active st id b :
  ledger_inv st → so_batches st !! id = Some b → ¬ closed b → ct_active_batch_id (so_control st) = Some id.
Proof.
  intros Hi Hb Ho. destruct (decide (ct_active_batch_id (so_control st) = Some id)) as [|Hn]; [done|].
  exfalso. apply Ho. by apply (li_closed _ Hi id b Hb).
Qed.

Lemma prior_unsettled_nonneg b : 0 ≤ ba_prior_unsettled_capital_units b → prior_unsettled b = ba_prior_unsettled_capital_units b.
Proof. intros Hp. unfold prior_unsettled. by destruct (Z.leb_spec 0 (ba_prior_unsettled_capital_units b)); [|lia]. Qed.

(** ** Replacing the active batch *)

(** Closing the active batch with the control in step. *)
Lemma ledger_close st st' id b b' :
  ledger_inv st → ct_active_batch_id (so_control st) = Some id → so_batches st !! id = Some b →
  so_batches st' = <[id := b']> (so_batches st) → so_claims st' = so_claims st →
  ct_active_batch_id (so_control st') = None →
  closed b' → 0 ≤ ba_total_unsettled_capital_units b' → ba_execution_batch_id b' = id → lineage_of b' = lineage_of b →
  ct_total_unsettled_capital_units (so_control st') = settled (delete id (so_batches st)) + ba_total_unsettled_capital_units b' →
  ledger_inv st'.
Proof.
  intros Hi Ha Hb Em Ec Ea Hcl Hnn Hid Hl Ht. split; rewrite ?Em, ?Ec, ?Ea.
  - intros j x [[<- <-]|[_ Hx]]%lookup_insert_Some; [done|by apply (li_ids _ Hi)].
  - intros j x [[<- <-]|[Hne Hx]]%lookup_insert_Some _; [done|]. apply (li_closed _ Hi j x Hx). congruence.
  - done.
  - intros _. rewrite Ht, settled_insert. lia.
  - intros j x [[<- <-]|[_ Hx]]%lookup_insert_Some; [rewrite Hl; by apply (li_claimed _ Hi id)|by apply (li_claimed _ Hi j)].
  - intros i j x y [[<- <-]|[Hi' Hx]]%lookup_insert_Some [[<- <-]|[Hj Hy]]%lookup_insert_Some; [done|..]; rewrite ?Hl.
    + by apply (li_lineage _ Hi).
    + by apply (li_lineage _ Hi).
    + by apply (li_lineage _ Hi).
Qed.

(** Moving the active batch forward. *)
Lemma ledger_advance st st' id b b' :
  ledger_inv st → ct_active_batch_id (so_control st) = Some id → so_batches st !! id = Some b →
  so_batches st' = <[id := b']> (so_batches st) → so_claims st' = so_claims st →
  ct_active_batch_id (so_control st') = Some id → ba_execution_batch_id b' = id → lineage_of b' = lineage_of b →
  ba_prior_unsettled_capital_units b' = ba_prior_unsettled_capital_units b →
  ¬ closed b' → wf_batch b' → settleable b' → ba_terminal_ledger b' = ∅ →
  (ba_state b' = "INCIDENT" → all_terminal b' = true →
     ct_total_unsettled_capital_units (so_control st') = prior_unsettled b' + ba_total_unsettled_capital_units b') →
  ledger_inv st'.
Proof.
  intros Hi Ha Hb Em Ec Ea Hid Hl Hp Ho Hw Hs Hle Hsync.
  destruct (li_active _ Hi id Ha) as (x & Hx & [_ _ _ _ Hprior _]). rewrite Hb in Hx. injection Hx as <-.
  pose proof (ledger_others st id Hi Ha) as Hnn. split; rewrite ?Em, ?Ec, ?Ea.
  - intros j x [[<- <-]|[_ Hx]]%lookup_insert_Some; [done|by apply (li_ids _ Hi)].
  - intros j x [[<- <-]|[Hne Hx]]%lookup_insert_Some Hj; [done|]. apply (li_closed _ Hi j x Hx). congruence.
  - intros j [= <-]. exists b'. rewrite lookup_insert_eq. split; [done|]. split; [done..| |].
    + by rewrite Em, delete_insert_eq, Hp.
    + intros Hst Hat. rewrite (Hsync Hst Hat), prior_unsettled_nonneg; [done|]. rewrite Hp, Hprior. done.
  - done.
  - intros j x [[<- <-]|[_ Hx]]%lookup_insert_Some; [rewrite Hl; by apply (li_claimed _ Hi id)|by apply (li_claimed _ Hi j)].
  - intros i j x y [[<- <-]|[Hi' Hx]]%lookup_insert_Some [[<- <-]|[Hj Hy]]%lookup_insert_Some; [done|..]; rewrite ?Hl.
    + by apply (li_lineage _ Hi).
    + by apply (li_lineage _ Hi).
    + by apply (li_lineage _ Hi).
Qed.

(** Rewriting control fields that the ledger does not read. *)
Lemma ledger_control st st' :
  ledger_inv st → so_batches st' = so_batches st → so_claims st' = so_claims st →
  ct_active_batch_id (so_control st') = ct_active_batch_id (so_control st) →
  ct_total_unsettled_capital_units (so_control st') = ct_total_unsettled_capital_units (so_control st) → ledger_inv st'.
Proof.
  intros [H1 H2 H3 H4 H5 H6] Eb Ec Ea Et. split; rewrite ?Eb, ?Ec, ?Ea, ?Et; try done.
  intros id Hid. destruct (H3 id Hid) as (b & Hb & [Ho Hw Hs Hle Hp Hy]). exists b. split; [done|].
  split; rewrite ?Eb, ?Et; done.
Qed.

(** ** What a reduction keeps *)

Section steps.
Context `{Sha256}.

Record kept (b b' : Batch) : Prop := {
  kp_id : ba_execution_batch_id b' = ba_execution_batch_id b;
  kp_entry : ba_entry b' = ba_entry b;
  kp_prior : ba_prior_unsettled_capital_units b' = ba_prior_unsettled_capital_units b;
  kp_rows : rv_key <$> ba_reservations b' = rv_key <$> ba_reservations b;
  kp_legs : leg_key <$> ba_legs b' = leg_key <$> ba_legs b;
  kp_ledger : ba_terminal_ledger b' = ba_terminal_ledger b;
}.

Lemma reduce_kept b r b' reason changed : reduce b r = Ok (b', reason, changed) → kept b b'.
Proof.
  intros [Hr _]%reduce_cases. inversion Hr as [|reason' Hin|leg Ef Ev Ea Es Hp]; subst; [by split|by split|].
  destruct (accept_receipt_frame b leg r) as (El & Er & Et & _ & _ & _ & _ & Ei & _).
  split; [done| | |rewrite Er; by rewrite <- list_fmap_compose|rewrite El, <- list_fmap_compose|done].
  - change (ba_entry (accept_receipt b leg r)) with (ba_entry (resolve_conflicts b leg r)). unfold resolve_conflicts.
    by destruct (_ || _).
  - change (ba_prior_unsettled_capital_units (accept_receipt b leg r))
      with (ba_prior_unsettled_capital_units (resolve_conflicts b leg r)). unfold resolve_conflicts. by destruct (_ || _).
  - apply list_fmap_ext. intros i l _. simpl. unfold set_leg_receipt. by destruct (_ =? _)%string.
Qed.

Lemma kept_facts b next b' : kept b next → same_facts next b' → kept b b'.
Proof. intros [? ? ? ? ? ?] (s & i & p & c & t & ->). by split. Qed.

Lemma kept_settleable b b' : settleable b → wf_batch b' → kept b b' → settleable b'.
Proof.
  intros [_ Hk Hl He] Hw [_ _ _ Er El Et]. split; [apply (ib_rows _ Hw)|by rewrite Er| |by rewrite Et].
  apply (Forall_fmap leg_key (λ k, k ∈ rv_key <$> ba_reservations b')). rewrite Er, El. by apply Forall_fmap.
Qed.

Lemma apply_reduce_kept r context b control b' control' changed :
  apply_reduce r context b control = Ok (b', control', changed) → kept b b'.
Proof.
  intros Ha%apply_reduce_cases. apply applied_reduce in Ha as [->|(next & reason & Hr & Hf)]; [by split|].
  eapply kept_facts; [by eapply reduce_kept|done].
Qed.

(** A receipt of the active batch keeps it active and open. *)
Lemma apply_reduce_active r context b control b' control' changed :
  apply_reduce r context b control = Ok (b', control', changed) →
  ct_active_batch_id control = Some (ba_execution_batch_id b) →
  (¬ closed b → ¬ closed b') ∧ ct_active_batch_id control' = Some (ba_execution_batch_id b) ∧
  (changed = true → ba_state b' = "INCIDENT" → all_terminal b' = true →
     ct_total_unsettled_capital_units control' = prior_unsettled b' + ba_total_unsettled_capital_units b').
Proof.
  intros Ha Hact. pose proof (apply_reduce_kept _ _ _ _ _ _ _ Ha) as Hk.
  assert (Hfact : ∀ next, same_facts next b' → prior_unsettled b' = prior_unsettled next ∧
            all_terminal b' = all_terminal next ∧ ba_execution_batch_id next = ba_execution_batch_id b).
  { intros next (s & i & p & c & t & ->). split_and!; [done..|]. exact (kp_id _ _ Hk). }
  apply apply_reduce_cases in Ha.
  inversion Ha as [|next reason b0 c0 Hr Hf Hst Htot Hm|next b0 c0 Hr Hf Hst _ _ _ Htot Hm|next b0 c0 Hr Hf Hst Ht _ Hc|next b0 c0 Hr Hf Hst Ht Hc]; subst.
  - split_and!; [done|done|done].
  - destruct (Hfact next Hf) as (E1 & E2 & E3). destruct Hm as (_ & Ea & Et). split_and!; [|congruence|].
    + intros _. unfold closed, CLOSED_STATES. rewrite Hst. set_solver.
    + intros _ _ _. by rewrite Et, E1, Htot.
  - destruct (Hfact next Hf) as (E1 & E2 & E3). destruct Hm as (_ & Ea & Et). split_and!; [|congruence|].
    + intros _. unfold closed, CLOSED_STATES. rewrite Hst. set_solver.
    + intros _ _ _. by rewrite Et, E1, Htot.
  - destruct (Hfact next Hf) as (E1 & E2 & E3). split_and!.
    + intros _. unfold closed, CLOSED_STATES. rewrite Hst. set_solver.
    + destruct Hc as [->| ->]; [done|]. simpl. by rewrite E3.
    + intros _ Hi. rewrite Hst in Hi. discriminate Hi.
  - destruct (Hfact next Hf) as (E1 & E2 & E3). split_and!.
    + unfold closed. by rewrite Hst, (reduce_state _ _ _ _ _ Hr).
    + destruct Hc as [->| ->]; [done|]. simpl. by rewrite E3.
    + intros _ _ Hat. congruence.
Qed.

(** ** Reconciled capital is not negative *)

Lemma check_resolution_figures e u :
  check_resolution e = Ok u → 0 ≤ cr_cumulative_cost_units e + cr_cumulative_fee_units e.
Proof.
  unfold check_resolution. intros (? & _ & (? & _ & (? & _ & (? & _ & (? & _ & (us & Hn & _)%bind_Ok)%bind_Ok)%bind_Ok)%bind_Ok)%bind_Ok)%bind_Ok.
  apply check_nonnegative_all in Hn. rewrite !Forall_cons in Hn. simpl in Hn. lia.
Qed.

Lemma check_cash_flow_figures f u :
  check_cash_flow f = Ok u → 0 ≤ fw_cumulative_cost_units f ∧ 0 ≤ fw_cumulative_fee_units f.
Proof.
  unfold check_cash_flow. intros (? & _ & (? & _ & (? & _ & (? & Hc%require_Ok & (? & Hf%require_Ok & _)%bind_Ok)%bind_Ok)%bind_Ok)%bind_Ok)%bind_Ok.
  simpl in Hc, Hf. bool_prop. done.
Qed.

Lemma newest_elem x items : newest x items ∈ x :: items.
Proof.
  unfold newest. revert x. induction items as [|y items IH]; intros x; simpl; [by left|].
  destruct (older x y).
  - right. apply IH.
  - specialize (IH x). rewrite elem_of_cons in IH |- *. destruct IH; [by left|by right; right].
Qed.

Lemma select_resolutions_members conflicts evidence selected k c e :
  select_resolutions conflicts evidence = Some selected → (k, (c, e)) ∈ selected → e ∈ evidence.
Proof.
  unfold select_resolutions. intros (pairs & Hp & Hs)%bind_Some Hin. destruct (forallb _ pairs); [|done].
  apply mapM_Some_1 in Hs. apply list_elem_of_lookup in Hin as [i Hi].
  destruct (Forall2_lookup_r _ _ _ i _ Hs Hi) as ([g items] & Hg & (chosen & Hc & [= -> ->])%bind_Some).
  assert (Hmem : (c, e) ∈ items).
  { unfold choose in Hc. cbn [snd] in Hc. destruct items as [|x rest]; [done|]. cbv zeta in Hc. repeat case_match; try done.
    injection Hc as <-. apply newest_elem. }
  apply list_elem_of_lookup_2 in Hg. pose proof (group_by_subset _ _ _ _ Hg Hmem) as Hpair.
  unfold pair_evidence in Hp. destruct (_ && _); [|done]. apply mapM_Some_1 in Hp.
  apply list_elem_of_lookup in Hpair as [j Hj]. destruct (Forall2_lookup_r _ _ _ j _ Hp Hj) as (c' & _ & (e' & He & [= -> ->])%bind_Some).
  by apply index_by_elem in He as [? _].
Qed.

Lemma apply_resolutions_nonneg selected legs ledger :
  Forall (λ s, 0 ≤ cr_cumulative_cost_units s.2.2 + cr_cumulative_fee_units s.2.2) selected →
  (∀ k e, ledger !! k = Some e → 0 ≤ le_cumulative_cost_units e + le_cumulative_fee_units e) →
  ∀ k e, (foldl apply_resolution (legs, ledger) selected).2 !! k = Some e →
    0 ≤ le_cumulative_cost_units e + le_cumulative_fee_units e.
Proof.
  intros Hs. revert legs ledger. induction Hs as [|[key [c e]] selected He _ IH]; intros legs ledger Hl; [done|]. simpl.
  assert (Hins : ∀ k x, <[key := ledger_entry c e]> ledger !! k = Some x → 0 ≤ le_cumulative_cost_units x + le_cumulative_fee_units x)
    by (intros k x [[<- <-]|[_ ?]]%lookup_insert_Some; [done|eauto]).
  destruct (cr_outcome e); [destruct (cx_kind c)|]; by apply IH.
Qed.

Lemma resolve_ledger_cash b evidence :
  ba_terminal_ledger b = ∅ → Forall (λ e, 0 ≤ cr_cumulative_cost_units e + cr_cumulative_fee_units e) evidence →
  0 ≤ ledger_cash (resolve_with_evidence b evidence).
Proof.
  intros El He. assert (Hz : 0 ≤ ledger_cash b) by (unfold ledger_cash; by rewrite El, map_to_list_empty).
  unfold resolve_with_evidence. destruct (ba_unresolved_conflicts b) as [|c0 cs]; [done|].
  destruct (select_resolutions _ evidence) as [selected|] eqn:Es; [|done].
  destruct (foldl apply_resolution _ selected) as [legs ledger] eqn:Ef. unfold ledger_cash. simpl.
  apply sumZ_nonneg, Forall_fmap, Forall_forall. intros [k x] Hx%elem_of_map_to_list. simpl.
  apply (apply_resolutions_nonneg selected (ba_legs b) (ba_terminal_ledger b)) with k; [| |by rewrite Ef].
  - apply Forall_forall. intros [k' [c e]] Hin. simpl. apply (proj1 (Forall_forall _ _) He e).
    by eapply select_resolutions_members.
  - intros k' e. by rewrite El, lookup_empty.
Qed.

Lemma reconcile_total_nonneg id c b control b' control' :
  settleable b → ba_terminal_ledger b = ∅ →
  Forall (λ e, ∃ u, check_resolution e = Ok u) (rk_conflict_resolutions c) →
  Forall (λ f, ∃ u, check_cash_flow f = Ok u) (rk_cash_flows c) →
  reconcile_reduce id c b control = Ok (b', control', true) → 0 ≤ ba_total_unsettled_capital_units b'.
Proof.
  intros Hb El He Hf Hr. destruct (reconcile_reduce_ok id c b control b' control' Hb Hr) as [_ _ _ _ _ _ _ Hflows _ Hcap _].
  assert (Hled : 0 ≤ ledger_cash b').
  { unfold reconcile_reduce in Hr. destruct (is_reconciled b); [done|].
    apply bind_Ok in Hr as (? & _ & (? & _ & (? & _ & (? & _ & (? & _ & (? & _ & (? & _ & Hout)%bind_Ok)%bind_Ok)%bind_Ok)%bind_Ok)%bind_Ok)%bind_Ok).
    injection Hout as <- _. change (0 ≤ ledger_cash (resolve_with_evidence b (rk_conflict_resolutions c))).
    apply resolve_ledger_cash; [done|]. eapply Forall_impl; [exact He|]. intros e [u Hu]. by eapply check_resolution_figures. }
  assert (Hlegs : 0 ≤ sumZ (leg_actual <$> ba_legs b')).
  { apply sumZ_nonneg, Forall_fmap. eapply Forall_impl; [exact Hflows|]. intros leg (r & f & Er & Hin & _ & E1 & E2).
    simpl. unfold leg_actual. rewrite Er. destruct (proj1 (Forall_forall _ _) Hf f Hin) as [u Hu].
    apply check_cash_flow_figures in Hu. lia. }
  unfold cash_out in Hcap. lia.
Qed.

(** ** The steps of the store *)

Inductive store_step : Store → Store → Prop :=
  | step_enter st ids market account source_now s proof mode cap expected now st' b :
      sound_legs s → enter st ids market account source_now s proof mode cap expected now = Ok (st', b) → store_step st st'
  | step_receipt st r context st' b u :
      check_order_receipt r = Ok u → ct_active_batch_id (so_control st) = Some (rp_execution_batch_id r) →
      apply_receipt st r context = Ok (st', b) → store_step st st'
  | step_reconcile st id c st' b :
      Forall (λ e, ∃ u, check_resolution e = Ok u) (rk_conflict_resolutions c) →
      Forall (λ f, ∃ u, check_cash_flow f = Ok u) (rk_cash_flows c) →
      complete_reconciliation st id c = Ok (st', b) → store_step st st'
  | step_acknowledge st id ack now st' b :
      n_leg_acknowledge_incident st id ack now = Ok (st', b) → store_step st st'
  | step_reset st st' closed_now : n_leg_breaker_reset st = Ok (st', closed_now) → store_step st st'
  | step_mode st w st' : n_leg_mode_control_write st w = Ok st' → store_step st st'.

(** What creating a batch checks and writes. *)
Lemma create_batch_cases st payload component expected now st' b :
  n_leg_create_batch st payload component expected now = Ok (st', b) →
  (st' = st ∧ so_batches st !! ba_execution_batch_id payload = Some b) ∨
  ∃ lineage, so_batches st !! ba_execution_batch_id payload = None ∧ ct_breaker_open (so_control st) = false ∧
    ct_active_batch_id (so_control st) = None ∧ so_active_lp st = false ∧ so_claims st !! lineage = None ∧
    (so_graph st = None → lineage = lineage_of payload) ∧
    (0 < unsettled_cap st →
       ct_total_unsettled_capital_units (so_control st) + ba_total_unsettled_capital_units payload ≤ unsettled_cap st) ∧
    0 ≤ ba_total_unsettled_capital_units payload ∧
    b = persist (set_created payload (ct_total_unsettled_capital_units (so_control st)) lineage) ∧
    so_batches st' = <[ba_execution_batch_id payload := b]> (so_batches st) ∧
    so_claims st' = <[lineage := now]> (so_claims st) ∧
    ct_active_batch_id (so_control st') = Some (ba_execution_batch_id payload) ∧
    ct_total_unsettled_capital_units (so_control st')
    = ct_total_unsettled_capital_units (so_control st) + ba_total_unsettled_capital_units payload.
Proof.
  unfold n_leg_create_batch. intros (? & Hok%require_Ok & Hr)%bind_Ok. apply andb_true_iff in Hok as [_ Hnn]. apply Z.leb_le in Hnn.
  destruct (so_batches st !! _) as [existing|] eqn:Ex.
  { apply bind_Ok in Hr as (? & _ & [= <- <-]). by left. }
  right. apply bind_Ok in Hr as (? & Hlp%require_Ok & (? & Hbr%require_Ok & (? & Hact%require_Ok & ([claim reason] & Hlock & Hr)%bind_Ok)%bind_Ok)%bind_Ok).
  apply negb_true_iff in Hlp, Hbr. destruct reason as [r|]; [apply bind_Ok in Hr as (? & [=] & _)|].
  apply bind_Ok in Hr as (? & _ & (? & Hcl & (? & _ & (? & Hcap%require_Ok & Hout)%bind_Ok)%bind_Ok)%bind_Ok).
  injection Hout as <- <-. exists (default (lineage_of payload) claim).
  assert (Hcap' : 0 < unsettled_cap st →
    ct_total_unsettled_capital_units (so_control st) + ba_total_unsettled_capital_units payload ≤ unsettled_cap st).
  { intros Hpos. apply negb_true_iff, andb_false_iff in Hcap as [Hc|Hc]; bool_prop; lia. }
  assert (Hclaim : so_claims st !! default (lineage_of payload) claim = None ∧ (so_graph st = None → claim = None)).
  { destruct claim as [l|].
    - apply lineage_lock_sound in Hlock as (rows & row & Eg & _ & _ & [Hu _]). split; [done|]. intros E. congruence.
    - apply require_Ok in Hcl. split; [|done]. simpl. unfold lineage_of. by destruct (so_claims st !! _). }
  destruct Hclaim as [Hu Hg]. split_and!; try done.
  - by destruct (ct_active_batch_id (so_control st)).
  - intros E. by rewrite (Hg E).
Qed.

(** ** Preservation *)

Lemma enter_cases st ids market account source_now s proof mode cap expected now st' b :
  enter st ids market account source_now s proof mode cap expected now = Ok (st', b) →
  ∃ payload u, check_execution_solution market account source_now s = Ok u ∧
    enter_payload ids market s proof mode cap = Ok payload ∧ n_leg_create_batch st payload None expected now = Ok (st', b).
Proof.
  unfold enter. intros (? & _ & (? & _ & Hr)%bind_Ok)%bind_Ok. destruct (check_execution_solution _ _ _ _) as [u|e] eqn:Ec.
  - apply bind_Ok in Hr as (payload & Hp & Hr). by exists payload, u.
  - destruct e; discriminate Hr.
Qed.

Lemma ledger_create st payload component expected now st' b :
  ledger_inv st → wf_batch payload → settleable payload → ba_terminal_ledger payload = ∅ → ba_state payload = "ACTIVE" →
  n_leg_create_batch st payload component expected now = Ok (st', b) → ledger_inv st'.
Proof.
  intros Hi Hw Hs Hle Hst Hc. apply create_batch_cases in Hc as [[-> _]|(lineage & Hnew & _ & Hidle & _ & Hun & _ & _ & _ & Eb & Em & Ecl & Ea & Et)]; [done|].
  set (id := ba_execution_batch_id payload) in *.
  assert (Hl : lineage_of b = lineage) by (by rewrite Eb).
  split; rewrite ?Em, ?Ecl, ?Ea.
  - intros j x [[<- <-]|[_ Hx]]%lookup_insert_Some; [by rewrite Eb|by apply (li_ids _ Hi)].
  - intros j x [[<- <-]|[Hne Hx]]%lookup_insert_Some Hj; [done|]. apply (li_closed _ Hi j x Hx). by rewrite Hidle.
  - intros j [= <-]. exists b. rewrite lookup_insert_eq. split; [done|]. rewrite Eb. split; simpl.
    + unfold closed, CLOSED_STATES. simpl. rewrite Hst. set_solver.
    + destruct Hw as [H1 H2 H3 H4]. by split.
    + destruct Hs as [H1 H2 H3 H4]. by split.
    + done.
    + rewrite Em, delete_insert_id by done. by apply (li_idle _ Hi).
    + intros Hinc. rewrite Hst in Hinc. discriminate Hinc.
  - done.
  - intros j x [[<- <-]|[_ Hx]]%lookup_insert_Some; [rewrite Hl, lookup_insert_eq; eauto|].
    destruct (decide (lineage = lineage_of x)) as [<-|Hne]; [rewrite lookup_insert_eq; eauto|].
    rewrite lookup_insert_ne by done. by apply (li_claimed _ Hi j).
  - assert (Hfresh : ∀ j x, so_batches st !! j = Some x → lineage_of x ≠ lineage)
      by (intros j x Hx E; destruct (li_claimed _ Hi j x Hx) as [t Ht]; congruence).
    intros i j x y [[<- <-]|[Hi' Hx]]%lookup_insert_Some [[<- <-]|[Hj Hy]]%lookup_insert_Some E; [done|..].
    + exfalso. apply (Hfresh j y Hy). congruence.
    + exfalso. apply (Hfresh i x Hx). congruence.
    + by eapply (li_lineage _ Hi).
Qed.

Lemma ledger_receipt st r context st' b u :
  ledger_inv st → check_order_receipt r = Ok u → ct_active_batch_id (so_control st) = Some (rp_execution_batch_id r) →
  apply_receipt st r context = Ok (st', b) → ledger_inv st'.
Proof.
  intros Hi Hc Hact. set (id := rp_execution_batch_id r) in *. unfold apply_receipt, n_leg_reduce. fold id.
  intros (old & Hold%of_option_Ok & Hr)%bind_Ok. destruct (bool_decide _); [by injection Hr as <- _|].
  apply bind_Ok in Hr as ([[next control] changed] & Ha & Hr). destruct changed; [|by injection Hr as <- _].
  injection Hr as <- _. pose proof (li_ids _ Hi id old Hold) as Eid.
  destruct (li_active _ Hi id Hact) as (y & Hy & [Ho Hw Hs Hle Hprior _]). rewrite Hold in Hy. injection Hy as <-.
  pose proof (apply_reduce_kept _ _ _ _ _ _ _ Ha) as Hk. pose proof (apply_reduce_progress _ _ _ _ _ _ _ _ Hw Hc Ha) as [Hw' _ _ _].
  destruct (apply_reduce_active _ _ _ _ _ _ _ Ha) as (Hopen & Hact' & Hsync); [by rewrite Eid|].
  pose proof (kept_settleable _ _ Hs Hw' Hk) as Hs'. destruct Hk as [K1 K2 K3 _ _ K6].
  eapply (ledger_advance st _ id old (persist next)); [done|done|done|done|done|simpl; by rewrite Hact', Eid|..].
  - simpl. by rewrite K1.
  - unfold lineage_of. simpl. by rewrite K2.
  - exact K3.
  - exact (Hopen Ho).
  - destruct Hw' as [? ? ? ?]. by split.
  - destruct Hs' as [? ? ? ?]. by split.
  - simpl. by rewrite K6.
  - exact (Hsync eq_refl).
Qed.

Lemma reconcile_reduce_kept id c b control b' control' :
  reconcile_reduce id c b control = Ok (b', control', true) →
  ba_execution_batch_id b' = ba_execution_batch_id b ∧ ba_entry b' = ba_entry b ∧
  ba_prior_unsettled_capital_units b' = ba_prior_unsettled_capital_units b.
Proof.
  unfold reconcile_reduce. destruct (is_reconciled b); [done|].
  intros (? & _ & (? & _ & (? & _ & (? & _ & (? & _ & (? & _ & (? & _ & Hout)%bind_Ok)%bind_Ok)%bind_Ok)%bind_Ok)%bind_Ok)%bind_Ok)%bind_Ok.
  injection Hout as <- _. destruct (resolve_with_evidence_spec b (rk_conflict_resolutions c)) as (_ & _ & _ & E1 & E2 & E3 & _). done.
Qed.

Lemma ledger_reconcile st id c st' b :
  ledger_inv st → Forall (λ e, ∃ u, check_resolution e = Ok u) (rk_conflict_resolutions c) →
  Forall (λ f, ∃ u, check_cash_flow f = Ok u) (rk_cash_flows c) →
  complete_reconciliation st id c = Ok (st', b) → ledger_inv st'.
Proof.
  intros Hi He Hf [[-> _]|(old & next & control & Hold & Hr & -> & Em & Ec & Ecl)]%complete_reconciliation_cases; [done|].
  assert (Hact : ct_active_batch_id (so_control st) = Some id).
  { unfold reconcile_reduce in Hr. destruct (is_reconciled old); [done|].
    apply bind_Ok in Hr as (? & _ & (? & _ & (? & Ho%require_Ok & _)%bind_Ok)%bind_Ok). by apply bool_decide_eq_true_1 in Ho. }
  destruct (li_active _ Hi id Hact) as (y & Hy & [Ho Hw Hs Hle Hprior _]). rewrite Hold in Hy. injection Hy as <-.
  pose proof (reconcile_total_nonneg _ _ _ _ _ _ Hs Hle He Hf Hr) as Hnn.
  destruct (reconcile_reduce_kept _ _ _ _ _ _ Hr) as (K1 & K2 & K3).
  destruct (reconcile_reduce_ok _ _ _ _ _ _ Hs Hr) as [_ Hrel Htot _ _ (Hcl & _ & _) _ _ _ _ _].
  pose proof (ledger_others st id Hi Hact) as Hoth.
  eapply (ledger_close st st' id old (persist next)); [done|done|done|done|done|by rewrite Ec|..].
  - unfold closed, CLOSED_STATES. simpl. unfold is_reconciled in Hcl. bool_prop. rewrite !elem_of_cons in *. tauto.
  - done.
  - simpl. rewrite K1. by apply (li_ids _ Hi).
  - unfold lineage_of. simpl. by rewrite K2.
  - simpl. rewrite Ec, Htot, prior_unsettled_nonneg; rewrite K3, Hprior; done.
Qed.

Lemma ledger_acknowledge st id ack now st' b :
  ledger_inv st → n_leg_acknowledge_incident st id ack now = Ok (st', b) → ledger_inv st'.
Proof.
  intros Hi. unfold n_leg_acknowledge_incident.
  intros (old & Hold%of_option_Ok & (? & Hst%require_Ok & (? & _ & (? & Hat%require_Ok & (? & _ & (? & Htot%require_Ok & Hr)%bind_Ok)%bind_Ok)%bind_Ok)%bind_Ok)%bind_Ok)%bind_Ok.
  apply String.eqb_eq in Hst. apply Z.eqb_eq in Htot. injection Hr as <- _.
  assert (Hact : ct_active_batch_id (so_control st) = Some id).
  { eapply ledger_open_active; [done..|]. unfold closed, CLOSED_STATES. rewrite Hst. set_solver. }
  destruct (li_active _ Hi id Hact) as (y & Hy & [Ho Hw Hs Hle Hprior Hsync]). rewrite Hold in Hy. injection Hy as <-.
  eapply (ledger_close st _ id old); [done|done|done|done|done|simpl; by rewrite bool_decide_eq_true_2|..].
  - unfold closed, CLOSED_STATES. simpl. rewrite !elem_of_cons. auto.
  - simpl. rewrite <- Htot. apply sumZ_nonneg, Forall_fmap, Forall_forall. intros row Hrow.
    pose proof (proj1 (Forall_forall _ _) (ib_rows _ Hw) row Hrow) as E.
    pose proof (refresh_row_bounds (ba_legs old) row (ib_legs _ Hw)) as Hb. rewrite E in Hb. simpl in Hb |- *. lia.
  - exact (li_ids _ Hi id old Hold).
  - done.
  - simpl. by rewrite (Hsync Hst Hat), Hprior.
Qed.

Lemma ledger_step st st' : ledger_inv st → store_step st st' → ledger_inv st'.
Proof.
  intros Hi Hstep. destruct Hstep as [st ids market account source_now s proof mode cap expected now st' b Hl He|
    st r context st' b u Hc Ha Hr|st id c st' b He Hf Hr|st id ack now st' b Hr|st st' cl Hr|st w st' Hr].
  - apply enter_cases in He as (payload & u & _ & Hp & Hcr).
    destruct (enter_payload_ok _ _ _ _ _ _ _ Hl Hp) as ([_ (Hst & _ & _ & Hle) _ _ _ _] & Hw & Hs). by eapply ledger_create.
  - by eapply ledger_receipt.
  - by eapply ledger_reconcile.
  - by eapply ledger_acknowledge.
  - unfold n_leg_breaker_reset in Hr. destruct (negb _); [by injection Hr as <- _|].
    apply bind_Ok in Hr as (? & _ & (? & _ & Hr)%bind_Ok). injection Hr as <- _. by apply (ledger_control st).
  - unfold n_leg_mode_control_write in Hr.
    apply bind_Ok in Hr as (? & _ & (? & _ & (? & _ & (? & _ & (? & _ & Hr)%bind_Ok)%bind_Ok)%bind_Ok)%bind_Ok).
    injection Hr as <-. by apply (ledger_control st).
Qed.

Lemma ledger_run st st' : ledger_inv st → rtc store_step st st' → ledger_inv st'.
Proof. intros Hi Hr. induction Hr as [|a b c Hs _ IH]; [done|]. apply IH. by eapply ledger_step. Qed.

(** A store that holds no batch yet. *)
Lemma ledger_empty st :
  so_batches st = ∅ → ct_active_batch_id (so_control st) = None → ct_total_unsettled_capital_units (so_control st) = 0 →
  ledger_inv st.
Proof.
  intros Eb Ea Et. split; rewrite ?Eb, ?Ea; by intros; simplify_map_eq.
Qed.
End steps.
