(* ===== verification/ModeCorrect.v ===== *)
(** * The mode contract, against its specification

    A view of the store forgets how the contract is persisted; [spec_op] says
    in one line each what an operation does to it.  Every operation of [Mode]
    refines its specification: it makes exactly that change, or raises the
    same exception and leaves the store untouched. *)

From S2P Require Import Prelude PyValue NLeg NLegForms IsoFormat IsoFormatCorrect Decimal DecimalCorrect Decode FillProof Receipts BatchStore Lineage Lifecycle Mode.
Local Open Scope Z_scope.

(** ** Amounts *)

Lemma digits_value_nonneg s acc v : 0 ≤ acc → digits_value acc s = Some v → 0 ≤ v.
Proof.
  revert acc. induction s as [|c s IH]; intros acc Ha; simpl; [by intros [= <-]|].
  destruct (digit c) as [d|] eqn:E; [|done]. simpl. apply IH. unfold digit in E. case_match; [|done]. injection E as <-. bool_prop. lia.
Qed.

Lemma decimal_of_string_nonneg s n c e : decimal_of_string s = Some (Finite n c e) → 0 ≤ c.
Proof.
  unfold decimal_of_string. destruct (take_sign _) as [neg t]. destruct (_ || _); [done|]. case_match.
  { intros HR. apply fmap_Some in HR as (? & _ & ?). done. } case_match.
  { intros HR. apply fmap_Some in HR as (? & _ & ?). done. }
  unfold finite_of. destruct (span_digits t) as [w r]. destruct (match r with String _ _ => _ | EmptyString => _ end) as [f r'].
  case_match; [done|]. intros HR. apply bind_Some in HR as (v & Hv & (x & _ & [= <- <- <-])%bind_Some).
  by eapply digits_value_nonneg in Hv.
Qed.

(** Texts that [str] prints for an amount that [_money] accepts. *)
Definition amount (text : string) : decimal := default (Finite false 0 0) (decimal_of_string text).
Definition valid_amount (text : string) : Prop := ∀ name, money text name = Ok (amount text) ∧ decimal_str (amount text) = text.

Lemma money_valid text name d : money text name = Ok d → valid_amount (decimal_str d) ∧ amount (decimal_str d) = d.
Proof.
  unfold money. intros (x & Hx%of_option_Ok & (u & Hr%require_Ok & [= <-])%bind_Ok)%bind_Ok.
  destruct x as [n c e| |]; [|done..]. pose proof (decimal_of_string_nonneg _ _ _ _ Hx) as Hc.
  pose proof (decimal_round_trip n c e Hc) as Hrt. assert (Ha : amount (decimal_str (Finite n c e)) = Finite n c e).
  { unfold amount. by rewrite Hrt. }
  split; [|done]. intros name'. rewrite Ha. split; [|done]. unfold money. rewrite Hrt. cbn [of_option mbind res_bind]. by rewrite Hr.
Qed.

Lemma money_value_valid v name t : money_value v name = Ok t → valid_amount t.
Proof. destruct v; try done. simpl. intros (d & Hd & ->)%fmap_Ok. by apply money_valid in Hd as [? _]. Qed.

Lemma valid_money_value t name : valid_amount t → money_value (JStr t) name = Ok t.
Proof. intros Ha. destruct (Ha name) as [E1 E2]. simpl. rewrite E1. simpl. by rewrite E2. Qed.

(** ** Policies *)

Record valid_policy (p : Policy) : Prop := {
  vp_profit : valid_amount (po_min_profit_usd p);
  vp_margin : valid_amount (po_min_net_margin p);
  vp_annualized : valid_amount (po_min_annualized_return p);
  vp_days : 1 ≤ po_max_capital_release_days p;
}.

(** [after] admits something that [before] refuses. *)
Definition looser (before after : Policy) : bool :=
  finite_ltb (amount (po_min_profit_usd after)) (amount (po_min_profit_usd before)) ||
  finite_ltb (amount (po_min_net_margin after)) (amount (po_min_net_margin before)) ||
  finite_ltb (amount (po_min_annualized_return after)) (amount (po_min_annualized_return before)) ||
  (po_max_capital_release_days before <? po_max_capital_release_days after).

Lemma positive_value_Ok v name n : positive_value v name = Ok n ↔ v = JInt n ∧ 1 ≤ n.
Proof.
  destruct v; simpl; try (split; [done|by intros [? _]]). rewrite bind_Ok. split.
  - intros (? & Hr%require_Ok & [= <-]). bool_prop. split; [done|lia].
  - intros [[= <-] Hn]. exists tt. rewrite require_Ok. split; [|done]. apply Z.leb_le. lia.
Qed.

Lemma nonnegative_value_Ok v name n : nonnegative_value v name = Ok n ↔ v = JInt n ∧ 0 ≤ n.
Proof.
  destruct v; simpl; try (split; [done|by intros [? _]]). rewrite bind_Ok. split.
  - intros (? & Hr%require_Ok & [= <-]). bool_prop. split; [done|lia].
  - intros [[= <-] Hn]. exists tt. rewrite require_Ok. split; [|done]. apply Z.leb_le. lia.
Qed.

Lemma positive_value_ok n name : 1 ≤ n → positive_value (JInt n) name = Ok n.
Proof. intros. by apply positive_value_Ok. Qed.
Lemma nonnegative_value_ok n name : 0 ≤ n → nonnegative_value (JInt n) name = Ok n.
Proof. intros. by apply nonnegative_value_Ok. Qed.

Lemma validated_policy_valid j p : validated_policy j = Ok p → valid_policy p.
Proof.
  unfold validated_policy. destruct j; try done.
  intros (? & _ & (a & Ha & (b & Hb & (c & Hc & (d & Hd & [= <-])%bind_Ok)%bind_Ok)%bind_Ok)%bind_Ok)%bind_Ok.
  apply positive_value_Ok in Hd as [_ Hd]. split; simpl; by try eapply money_value_valid.
Qed.

Lemma stored_policy p : stored (policy_fields p) = policy_fields p.
Proof. reflexivity. Qed.

Lemma valid_policy_read p : valid_policy p → validated_policy (JObj (policy_fields p)) = Ok p.
Proof.
  intros [Ha Hb Hc Hd]. unfold validated_policy. replace (bool_decide _) with true by (vm_compute; reflexivity).
  change (item (policy_fields p) "min_profit_usd") with (JStr (po_min_profit_usd p)).
  change (item (policy_fields p) "min_net_margin") with (JStr (po_min_net_margin p)).
  change (item (policy_fields p) "min_annualized_return") with (JStr (po_min_annualized_return p)).
  change (item (policy_fields p) "max_capital_release_days") with (JInt (po_max_capital_release_days p)).
  cbn [require mbind res_bind]. rewrite !valid_money_value by done. cbn [mbind res_bind].
  rewrite (proj2 (positive_value_Ok _ _ _) (conj eq_refl Hd)). by destruct p.
Qed.

Lemma policy_direction_exact p q : valid_policy p → valid_policy q →
  policy_direction p q = Ok (if looser p q then "loosen" else if bool_decide (p = q) then "same" else "tighten").
Proof.
  intros [Ha Hb Hc Hd] [Ha' Hb' Hc' Hd']. unfold policy_direction, looser.
  rewrite (proj1 (Ha _)), (proj1 (Ha' _)), (proj1 (Hb _)), (proj1 (Hb' _)), (proj1 (Hc _)), (proj1 (Hc' _)).
  cbn [mbind res_bind]. repeat (destruct (finite_ltb _ _); cbn [mbind res_bind orb]; try done). destruct (_ <? _); [done|].
  by case_bool_decide.
Qed.

(** ** Safety configurations *)

Record valid_safety (c : SafetyValues) : Prop := {
  vs_positive : 1 ≤ sv_episode_rearm_gap_seconds c ∧ 1 ≤ sv_max_quote_age_seconds c ∧ 1 ≤ sv_max_cross_leg_skew_seconds c ∧
    1 ≤ sv_max_leg_submit_seconds c ∧ 1 ≤ sv_reconciliation_timeout_seconds c;
  vs_nonnegative : 0 ≤ sv_max_per_trade_cost_units c ∧ 0 ≤ sv_max_total_unsettled_capital_units c ∧
    0 ≤ sv_max_partial_fill_loss_units c ∧ 0 ≤ sv_max_auto_repair_loss_units c;
}.

Lemma optional_positive_Ok fields key d n : 1 ≤ d → optional_positive fields key d = Ok n → 1 ≤ n.
Proof. unfold optional_positive. intros Hd. destruct (json_field _ _); [by intros [_ ?]%positive_value_Ok|by intros [= <-]]. Qed.

Lemma validated_safety_valid j c : validated_safety_config j = Ok c → valid_safety c.
Proof.
  unfold validated_safety_config. destruct j; try done. intros HR.
  repeat match type of HR with
    | (positive_value _ _ ≫= _) = Ok _ => apply bind_Ok in HR as (? & [_ ?]%positive_value_Ok & HR)
    | (nonnegative_value _ _ ≫= _) = Ok _ => apply bind_Ok in HR as (? & [_ ?]%nonnegative_value_Ok & HR)
    | (optional_positive _ _ _ ≫= _) = Ok _ => apply bind_Ok in HR as (? & ?%optional_positive_Ok & HR); [|lia]
    | (_ ≫= _) = Ok _ => apply bind_Ok in HR as (? & _ & HR)
    end.
  injection HR as <-. split; done.
Qed.

Lemma valid_safety_read c : valid_safety c → stored_safety_config (stored (safety_fields c ++ [(CAPS_CONFIGURED_KEY, JBool true)])) = Ok (c, true).
Proof.
  destruct c as [gap trade total fill repair age skew submit timeout].
  intros [(? & ? & ? & ? & ?) (? & ? & ? & ?)]. simpl in *. set (c := Build_SafetyValues _ _ _ _ _ _ _ _ _). change (stored _) with (safety_fields c ++ [(CAPS_CONFIGURED_KEY, JBool true)]).
  unfold stored_safety_config. change (item _ CAPS_CONFIGURED_KEY) with (JBool true). cbn [require mbind res_bind].
  change (set_default _ _ _) with (safety_fields c). unfold validated_safety_config.
  replace (bool_decide _) with true by (vm_compute; reflexivity). cbn [require mbind res_bind].
  replace (bool_decide _) with true by (vm_compute; reflexivity). cbn [require mbind res_bind].
  repeat match goal with
    | |- context [item (safety_fields c) ?k] => let v := eval vm_compute in (item (safety_fields c) k) in change (item (safety_fields c) k) with v
    | |- context [optional_positive (safety_fields c) ?k ?d] =>
        let v := eval vm_compute in (item (safety_fields c) k) in change (optional_positive (safety_fields c) k d) with (positive_value v k)
    end.
  rewrite !positive_value_ok, !nonnegative_value_ok by done. done.
Qed.

(** ** The latest row of a versioned table *)

Lemma latest_spec rows :
  match latest rows with
  | Some (v, x) => rows !! v = Some x ∧ ∀ w y, rows !! w = Some y → w ≤ v
  | None => rows = ∅
  end.
Proof.
  unfold latest. set (step := λ (r : Z * list (string * json)) best, _).
  assert (Hgen : ∀ l, match foldr step None l with
    | Some r => r ∈ l ∧ ∀ s, s ∈ l → s.1 ≤ r.1 | None => l = [] end).
  { induction l as [|r l IH]; [done|]. simpl. destruct (foldr step None l) as [b|]; simpl.
    - destruct IH as [Hb Hmax]. destruct (Z.ltb_spec b.1 r.1).
      + split; [left|]. intros s [->|Hs]%elem_of_cons; [lia|]. specialize (Hmax s Hs). lia.
      + split; [by right|]. intros s [->|Hs]%elem_of_cons; [lia|auto].
    - subst l. split; [left|]. intros s [->|Hs%not_elem_of_nil]%elem_of_cons; [lia|done]. }
  specialize (Hgen (map_to_list rows)). destruct (foldr step None _) as [[v x]|].
  - destruct Hgen as [Hin Hmax]. apply elem_of_map_to_list in Hin. split; [done|]. intros w y Hw.
    by apply (Hmax (w, y)), elem_of_map_to_list.
  - by apply map_to_list_empty_iff in Hgen.
Qed.

Lemma latest_insert rows v x :
  (∀ w y, rows !! w = Some y → w < v) → latest (<[v := x]> rows) = Some (v, x).
Proof.
  intros Hv. pose proof (latest_spec (<[v := x]> rows)) as Hl. destruct (latest _) as [[w y]|].
  - destruct Hl as [Hw Hmax]. specialize (Hmax v x ltac:(by rewrite lookup_insert_eq)). apply lookup_insert_Some in Hw as [[-> ->]|[Hne Hw]]; [done|].
    specialize (Hv _ _ Hw). lia.
  - by destruct (insert_non_empty rows v x).
Qed.

Lemma latest_bound rows v x w y : latest rows = Some (v, x) → rows !! w = Some y → w ≤ v.
Proof. intros Hl. pose proof (latest_spec rows) as Hs. rewrite Hl in Hs. destruct Hs as [_ Hmax]. eauto. Qed.

(** ** The view of a store *)

Record View := {
  vw_mode : string;
  vw_enabled : list (string * Z);
  vw_generation : Z;
  vw_versions : Z * Z;
  vw_policy : Z * Policy;
  vw_safety : Z * (SafetyValues * bool);
  vw_scopes : gmap string ScopeRow;
  vw_breaker_open : bool;
  vw_active_batch : option string;
  vw_incidents : list LegacyIncident;
}.

Record represents (m : ModeStore) (v : View) : Prop := {
  rp_mode : ct_mode (n_leg_control m) = vw_mode v ∧ vw_mode v ∈ ["MANUAL"; "AUTO"];
  rp_enabled : ct_enabled_scopes (n_leg_control m) = vw_enabled v ∧
    Forall (λ e, e.1 ≠ "" ∧ 1 ≤ e.2) (vw_enabled v);
  rp_generation : ct_contract_generation (n_leg_control m) = vw_generation v ∧ 1 ≤ vw_generation v;
  rp_versions : (ct_qualification_policy_version (n_leg_control m), ct_safety_config_version (n_leg_control m)) = vw_versions v;
  rp_policy : current_policy m = Ok (vw_policy v) ∧ valid_policy (vw_policy v).2 ∧ 1 ≤ (vw_versions v).1 ≤ (vw_policy v).1;
  rp_safety : current_safety_config m = Ok (vw_safety v) ∧ valid_safety (vw_safety v).2.1 ∧ 1 ≤ (vw_versions v).2 ≤ (vw_safety v).1;
  rp_scopes : (∀ id, n_leg_scope m id = vw_scopes v !! id) ∧
    ∀ id s, vw_scopes v !! id = Some s → id ≠ "" ∧ sc_capability s ∈ CAPABILITIES ∧ 1 ≤ sc_scope_version s;
  rp_guards : ct_breaker_open (n_leg_control m) = vw_breaker_open v ∧ ct_active_batch_id (n_leg_control m) = vw_active_batch v ∧
    mo_incidents m = vw_incidents v;
}.

(** What no operation touches: the batches, the ledger and the gates; events
    are only added. *)
Record frame (m m' : ModeStore) : Prop := {
  fr_batches : so_batches (mo_store m') = so_batches (mo_store m);
  fr_claims : so_claims (mo_store m') = so_claims (mo_store m);
  fr_units : ct_total_unsettled_capital_units (n_leg_control m') = ct_total_unsettled_capital_units (n_leg_control m);
  fr_breaker : ct_breaker_reason (n_leg_control m') = ct_breaker_reason (n_leg_control m);
  fr_active : ct_active_batch_id (n_leg_control m') = ct_active_batch_id (n_leg_control m);
  fr_lineage : so_graph (mo_store m') = so_graph (mo_store m) ∧ so_episodes (mo_store m') = so_episodes (mo_store m) ∧
    so_active_lp (mo_store m') = so_active_lp (mo_store m);
  fr_log : so_transitions (mo_store m') = so_transitions (mo_store m) ∧
    so_acknowledgements (mo_store m') = so_acknowledgements (mo_store m);
  fr_events : mo_events m `prefix_of` mo_events m';
}.

#[export] Instance frame_preorder : PreOrder frame.
Proof.
  split.
  - intros m. by split.
  - intros m1 m2 m3 [????? (?&?&?) [??] ?] [????? (?&?&?) [??] ?]. split; split_and?; try congruence. by etrans.
Qed.

(** ** The specification *)

Definition with_control (v : View) (mode : string) (enabled : list (string * Z)) (versions : Z * Z) : View := {|
  vw_mode := mode; vw_enabled := enabled; vw_generation := vw_generation v; vw_versions := versions;
  vw_policy := vw_policy v; vw_safety := vw_safety v; vw_scopes := vw_scopes v; vw_breaker_open := vw_breaker_open v;
  vw_active_batch := vw_active_batch v; vw_incidents := vw_incidents v |}.
Definition with_tables (v : View) (policy : Z * Policy) (safety : Z * (SafetyValues * bool)) (scopes : gmap string ScopeRow)
  : View := {|
  vw_mode := vw_mode v; vw_enabled := vw_enabled v; vw_generation := vw_generation v; vw_versions := vw_versions v;
  vw_policy := policy; vw_safety := safety; vw_scopes := scopes; vw_breaker_open := vw_breaker_open v;
  vw_active_batch := vw_active_batch v; vw_incidents := vw_incidents v |}.

Definition with_mode (v : View) (mode : string) (enabled : list (string * Z)) : View :=
  with_control v mode enabled (vw_versions v).
Definition with_policy (v : View) (p : Z * Policy) : View := with_tables v p (vw_safety v) (vw_scopes v).
Definition with_safety (v : View) (c : Z * (SafetyValues * bool)) : View := with_tables v (vw_policy v) c (vw_scopes v).
Definition with_scope (v : View) (id : string) (s : ScopeRow) : View :=
  with_tables v (vw_policy v) (vw_safety v) (<[id := s]> (vw_scopes v)).

(** A new version in its table and in the control row. *)
Definition publish_policy (v : View) (p : Policy) : View :=
  let n := (vw_policy v).1 + 1 in
  with_control (with_policy v (n, p)) (vw_mode v) (vw_enabled v) (n, (vw_versions v).2).
Definition publish_safety (v : View) (c : SafetyValues) : View :=
  let n := (vw_safety v).1 + 1 in
  with_control (with_safety v (n, (c, true))) (vw_mode v) (vw_enabled v) ((vw_versions v).1, n).

(** MANUAL, when [leave] and the mode is AUTO *)
Definition leave_auto (leave : bool) (v : View) : View :=
  if leave && (vw_mode v =? "AUTO")%string then with_mode v "MANUAL" (vw_enabled v) else v.

Inductive ModeOp :=
  | SetMode (mode : string) (base_contract_generation : Z) (incident_id : option string) (audit : audit_fields)
  | SetEnabledScope (scope_id : string) (enable : bool) (base_contract_generation : Z) (audit : audit_fields)
  | EnforceScopeVersions (audit : audit_fields)
  | UpdatePolicy (policy : json) (base_version : Z) (audit : audit_fields)
  | UpdateSafety (config : json) (base_version : Z) (audit : audit_fields)
  | UpsertScope (scope_id capability : string) (members : json) (base_scope_version : option Z) (audit : audit_fields)
  | SeedScope.

Definition run_op (op : ModeOp) : SM unit :=
  match op with
  | SetMode mode base incident_id audit => n_leg_set_mode mode base incident_id audit;; mret tt
  | SetEnabledScope id enable base audit => n_leg_set_enabled_scope id enable base audit;; mret tt
  | EnforceScopeVersions audit => n_leg_enforce_auto_scope_versions audit;; mret tt
  | UpdatePolicy policy base audit => n_leg_update_qualification_policy policy base audit;; mret tt
  | UpdateSafety config base audit => n_leg_update_safety_config config base audit;; mret tt
  | UpsertScope id capability members base audit => n_leg_upsert_scope id capability members base audit;; mret tt
  | SeedScope => ensure_same_event_same_venue_scope;; mret tt
  end.

(** The scope of an enabled entry is still at that version. *)
Definition entry_current (v : View) (e : string * Z) : bool :=
  match vw_scopes v !! e.1 with Some s => sc_scope_version s =? e.2 | None => false end.

(** What [set_mode] asks before AUTO. *)
Definition spec_auto (v : View) (incident_id : option string) : res unit :=
  require (negb (vw_breaker_open v)) (ValueError "N_LEG_BREAKER_OPEN");;
  require (is_none (vw_active_batch v)) (ValueError "N_LEG_ACTIVE_BATCH_EXISTS");;
  require (forallb li_acknowledged (vw_incidents v)) (ValueError "N_LEG_INCIDENT_ACTIVE");;
  require (forallb (entry_current v) (vw_enabled v)) (ValueError "N_LEG_SCOPE_VERSION_DRIFT");;
  require (match vw_incidents v, incident_id with
           | [], _ => true
           | past, Some id => negb (id =? "")%string && existsb (λ i, li_incident_id i =? id)%string past
           | _, None => false
           end) (ValueError "N_LEG_AUTO_REQUIRES_RESOLVED_INCIDENT").

Definition spec_op (op : ModeOp) (v : View) : res View :=
  match op with
  | SetMode mode base incident_id _ =>
      require (bool_decide (mode ∈ ["MANUAL"; "AUTO"])) (ValueError "n-leg mode must be MANUAL or AUTO");;
      require (vw_generation v =? base) (version_conflict "n-leg contract generation");;
      (if (mode =? "AUTO")%string then spec_auto v incident_id else Ok tt);;
      Ok (with_mode v mode (vw_enabled v))
  | SetEnabledScope id enable base _ =>
      require (negb (id =? "")%string) (ValueError "scope id must be non-empty text");;
      require (vw_generation v =? base) (version_conflict "n-leg contract generation");;
      let others := filter (λ e, e.1 ≠ id) (vw_enabled v) in
      if enable then
        s ← of_option (ValueError "N_LEG_SCOPE_NOT_REGISTERED") (vw_scopes v !! id);
        match head (filter (λ e, e.1 = id) (vw_enabled v)) with
        | None => Ok (leave_auto true (with_mode v (vw_mode v) (others ++ [(id, sc_scope_version s)])))
        | Some e => Ok (if e.2 =? sc_scope_version s then v
                        else with_mode v (vw_mode v) (others ++ [(id, sc_scope_version s)]))
        end
      else Ok (with_mode v (vw_mode v) others)
  | EnforceScopeVersions _ => Ok (leave_auto (negb (forallb (entry_current v) (vw_enabled v))) v)
  | UpdatePolicy policy base _ =>
      p ← validated_policy policy;
      require ((vw_policy v).1 =? base) (version_conflict "qualification policy version");;
      Ok (leave_auto (looser (vw_policy v).2 p) (publish_policy v p))
  | UpdateSafety config base _ =>
      c ← validated_safety_config config;
      require ((vw_safety v).1 =? base) (version_conflict "safety config version");;
      Ok (leave_auto (safety_direction (vw_safety v).2.1 c =? "loosen")%string (publish_safety v c))
  | UpsertScope id capability members base _ =>
      require (negb (id =? "")%string) (ValueError "scope id must be non-empty text");;
      require (bool_decide (capability ∈ CAPABILITIES)) (ValueError "scope capability is invalid");;
      fields ← match members with JObj (f :: fields) => Ok (f :: fields)
               | _ => Err (ValueError "scope members must be a non-empty object") end;
      match vw_scopes v !! id with
      | None =>
          require (capability =? "OBSERVE_ONLY")%string (ValueError "N_LEG_SCOPE_STARTS_OBSERVE_ONLY");;
          Ok (leave_auto true (with_scope v id {| sc_capability := capability; sc_scope_version := 1; sc_members := stored fields |}))
      | Some s =>
          require (bool_decide (base = Some (sc_scope_version s))) (version_conflict "scope version");;
          Ok (leave_auto (negb (is_none (downgrade_reason (scope_direction s capability fields))))
                (with_scope v id {| sc_capability := capability; sc_scope_version := sc_scope_version s + 1;
                                    sc_members := stored fields |}))
      end
  | SeedScope =>
      match vw_scopes v !! SAME_EVENT_SAME_VENUE_SCOPE_ID, SAME_EVENT_SAME_VENUE_MEMBERS with
      | None, JObj fields =>
          Ok (leave_auto true (with_scope v SAME_EVENT_SAME_VENUE_SCOPE_ID
                {| sc_capability := "OBSERVE_ONLY"; sc_scope_version := 1; sc_members := stored fields |}))
      | _, _ => Ok v
      end
  end.

#[local] Arguments validated_policy : simpl never.
#[local] Arguments stored_safety_config : simpl never.
#[local] Arguments stored : simpl never.

(** ** Running a computation *)

Lemma bind_run {A B} (c : SM A) (f : A → SM B) m m' a : c m = (m', Ok a) → (c ≫= f) m = f a m'.
Proof. intros E. unfold mbind, SM_bind. by rewrite E. Qed.
Lemma bind_raise {A B} (c : SM A) (f : A → SM B) m m' e : c m = (m', Err e) → (c ≫= f) m = (m', Err e).
Proof. intros E. unfold mbind, SM_bind. by rewrite E. Qed.
Lemma check_true {B} b e (f : unit → SM B) m : b = true → (check b e ≫= f) m = f tt m.
Proof. by intros ->. Qed.

(** A computation that ends well, where the store stands for [v]. *)
Definition reaches {A} (c : SM A) (m : ModeStore) (v : View) : Prop :=
  ∃ m' a, c m = (m', Ok a) ∧ represents m' v ∧ frame m m'.

Lemma reaches_bind {A B} (c : SM A) (f : A → SM B) m v w :
  reaches c m v → (∀ m' a, c m = (m', Ok a) → represents m' v → frame m m' → reaches (f a) m' w) → reaches (c ≫= f) m w.
Proof.
  intros (m1 & a & E & R & F) Hf. destruct (Hf m1 a E R F) as (m2 & b & E' & R' & F').
  exists m2, b. rewrite (bind_run _ _ _ _ _ E). split_and!; [done..|by etrans].
Qed.

Lemma reaches_ret {A} (a : A) m v : represents m v → reaches (mret a) m v.
Proof. intros R. exists m, a. by split_and!. Qed.

Lemma contract_read m v : represents m v → ∃ c, mode_contract m = Ok c.
Proof.
  intros [? ? [E G] Ev (Ep & _ & Vp) (Es & _ & Vs) ? ?]. rewrite <- Ev in Vp, Vs. simpl in Vp, Vs. unfold mode_contract. rewrite Ep, Es. cbn [mbind res_bind]. unfold positive_int.
  rewrite !positive_value_ok by lia. cbn [mbind res_bind]. by eexists.
Qed.

Lemma reaches_contract m v : represents m v → reaches n_leg_mode_contract m v.
Proof. intros R. destruct (contract_read m v R) as [c Hc]. exists m, c. unfold n_leg_mode_contract, asks. by rewrite Hc. Qed.

Lemma reaches_event m v action target outcome payload :
  represents m v → outcome ∈ ["succeeded"; "failed"] → reaches (record_control_event action target outcome payload) m v.
Proof.
  intros [? ? ? ? ? ? ? ?] Ho. eexists _, tt. unfold record_control_event. rewrite check_true by (apply bool_decide_eq_true_2; set_solver).
  split; [reflexivity|]. split; [by split|]. split; try done. simpl. by eexists.
Qed.

Lemma reaches_write m v w p q :
  represents m v → let mode := default (vw_mode v) (mw_mode w) in let enabled := default (vw_enabled v) (mw_enabled_scopes w) in
  mode ∈ ["MANUAL"; "AUTO"] → Forall (λ e, e.1 ≠ "" ∧ 1 ≤ e.2) enabled →
  mw_contract_generation w = Some (ct_contract_generation (n_leg_control m)) →
  mw_qualification_policy_version w = Some p → 1 ≤ p ≤ (vw_policy v).1 →
  mw_safety_config_version w = Some q → 1 ≤ q ≤ (vw_safety v).1 →
  reaches (mode_control_write w) m (with_control v mode enabled (p, q)).
Proof.
  intros [[Em Hm] [Ee He] [Eg Hg] Ev (Ep & Vp & Rp) (Es & Vs & Rs) ? ?] mode enabled Hmode Hen Ewg Ewp Hp Ewq Hq.
  destruct w as [wm wg wp ws we]. simpl in *. subst wg wp ws. unfold reaches, mode_control_write, transaction, n_leg_mode_control_write.
  fold (n_leg_control m). cbn [mw_mode mw_contract_generation mw_qualification_policy_version mw_safety_config_version mw_enabled_scopes].
  assert (Hwm : match wm with Some x => bool_decide (x ∈ ["MANUAL"; "AUTO"]) | None => true end = true).
  { destruct wm; [by apply bool_decide_eq_true_2|done]. }
  assert (Hwe : match we with Some l => forallb (λ s, negb (s.1 =? "")%string && (1 <=? s.2)) l | None => true end = true).
  { destruct we as [l|]; [|done]. apply forallb_forall. intros e Hin%list_elem_of_In. rewrite Forall_forall in Hen.
    destruct (Hen e Hin) as [Hne He1]. apply andb_true_iff. split; [by apply negb_true_iff, String.eqb_neq|by apply Z.leb_le]. }
  rewrite Hwm, Hwe. unfold positive_version.
  repeat match goal with |- context [1 <=? ?x] => rewrite (proj2 (Z.leb_le 1 x)) by lia end.
  cbn [require mbind res_bind]. eexists _, tt. split; [reflexivity|]. split.
  - split; simpl; try done.
    + unfold mode. destruct wm; simpl; [done|by rewrite Em].
    + unfold enabled. destruct we; simpl; [done|by rewrite Ee].
  - by split.
Qed.

Lemma with_control_id v : with_control v (vw_mode v) (vw_enabled v) (vw_versions v) = v.
Proof. by destruct v. Qed.

(** The versions that a write names, by default those of the control row. *)
Definition named_versions (v : View) (pv sv : option Z) : Z * Z := (default (vw_versions v).1 pv, default (vw_versions v).2 sv).

Lemma control_versions m v pv sv : represents m v →
  (default (ct_qualification_policy_version (n_leg_control m)) pv, default (ct_safety_config_version (n_leg_control m)) sv)
  = named_versions v pv sv.
Proof. intros R. unfold named_versions. by rewrite <- (rp_versions _ _ R). Qed.

Lemma reaches_downgrade m v reason audit pv sv :
  represents m v → 1 ≤ (named_versions v pv sv).1 ≤ (vw_policy v).1 → 1 ≤ (named_versions v pv sv).2 ≤ (vw_safety v).1 →
  reaches (downgrade reason audit pv sv) m (with_control v "MANUAL" (vw_enabled v) (named_versions v pv sv)).
Proof.
  intros R Hp Hs. rewrite <- (control_versions m v pv sv R) in *. destruct (rp_enabled _ _ R) as [Ee He]. unfold downgrade.
  eapply (reaches_bind (reads n_leg_control) _ m v); [by exists m, (n_leg_control m)|]. intros m' c [= <- <-] _ _.
  eapply reaches_bind.
  - eapply (reaches_write m v {| mw_mode := Some "MANUAL"; mw_enabled_scopes := Some (ct_enabled_scopes (n_leg_control m)) |} _ _ R);
      simpl; [set_solver|by rewrite Ee|reflexivity..|done|reflexivity|done].
  - intros m' _ _ R' _. simpl in R'. rewrite Ee in R'. apply reaches_event; [done|set_solver].
Qed.

Lemma reaches_policy_write m v p :
  represents m v → valid_policy p →
  reaches (n_leg_qualification_policy_write ((vw_policy v).1 + 1) (policy_fields p)) m (with_policy v ((vw_policy v).1 + 1, p)).
Proof.
  intros [? ? ? ? (Ep & Vp & Rp) ? ? ?] Hp. set (n := (vw_policy v).1) in *. eexists _, tt.
  unfold n_leg_qualification_policy_write. rewrite check_true by (apply Z.leb_le; lia). split; [reflexivity|]. split; [|by split].
  split; simpl; try done. split_and!; [|done|unfold n_leg_control in *; simpl; lia..]. unfold current_policy. simpl. rewrite latest_insert.
  - unfold positive_int. rewrite positive_value_ok by lia. cbn [mbind res_bind].
    by rewrite stored_policy, valid_policy_read.
  - intros w y Hw. unfold current_policy, positive_int in Ep. pose proof (latest_spec (mo_policies m)) as Hl. destruct (latest (mo_policies m)) as [[k x]|].
    + apply bind_Ok in Ep as (k' & [[= <-] _]%positive_value_Ok & (q & _ & [= E])%bind_Ok). destruct Hl as [_ Hmax].
      specialize (Hmax _ _ Hw). unfold n. rewrite <- E. simpl. lia.
    + by rewrite Hl in Hw.
Qed.

Lemma reaches_safety_write m v c :
  represents m v → valid_safety c →
  reaches (n_leg_safety_config_write ((vw_safety v).1 + 1) (safety_fields c ++ [(CAPS_CONFIGURED_KEY, JBool true)])) m
    (with_safety v ((vw_safety v).1 + 1, (c, true))).
Proof.
  intros [? ? ? ? ? (Es & Vs & Rs) ? ?] Hc. set (n := (vw_safety v).1) in *. eexists _, tt.
  unfold n_leg_safety_config_write. rewrite check_true by (apply Z.leb_le; lia). split; [reflexivity|]. split; [|by split].
  split; simpl; try done. split_and!; [|done|unfold n_leg_control in *; simpl; lia..]. unfold current_safety_config. simpl. rewrite latest_insert.
  - unfold positive_int. rewrite positive_value_ok by lia. cbn [mbind res_bind].
    change (stored_safety_config _) with (stored_safety_config (stored (safety_fields c ++ [(CAPS_CONFIGURED_KEY, JBool true)]))).
    by rewrite (valid_safety_read c Hc).
  - intros w y Hw. unfold current_safety_config, positive_int in Es. pose proof (latest_spec (mo_safety m)) as Hl. destruct (latest (mo_safety m)) as [[k x]|].
    + apply bind_Ok in Es as (k' & [[= <-] _]%positive_value_Ok & (q & _ & [= E])%bind_Ok). destruct Hl as [_ Hmax].
      specialize (Hmax _ _ Hw). unfold n. rewrite <- E. simpl. lia.
    + by rewrite Hl in Hw.
Qed.

Lemma reaches_scope_write m v id capability version fields :
  represents m v → id ≠ "" → capability ∈ CAPABILITIES → 1 ≤ version →
  reaches (n_leg_scope_write id capability version fields) m
    (with_scope v id {| sc_capability := capability; sc_scope_version := version; sc_members := stored fields |}).
Proof.
  intros [? ? ? ? ? ? [Esc Vsc] ?] Hid Hcap Hv. eexists _, tt. unfold n_leg_scope_write.
  rewrite !check_true; [|by apply Z.leb_le|by apply bool_decide_eq_true_2|by apply negb_true_iff, String.eqb_neq].
  split; [reflexivity|]. split; [|by split]. split; simpl; try done. split.
  - intros x. unfold n_leg_scope. simpl. destruct (decide (x = id)) as [->|Hne].
    + by rewrite !lookup_insert_eq.
    + rewrite !lookup_insert_ne by done. apply Esc.
  - intros x s [[<- <-]|[Hne Hs]]%lookup_insert_Some; simpl; [done|by apply (Vsc x)].
Qed.

(** ** Refinement *)

(** The computation does what the specification says: the same change, or the
    same exception and no change at all. *)
Definition refines {A} (c : SM A) (m : ModeStore) (spec : res View) : Prop :=
  match spec with Ok v => reaches c m v | Err e => c m = (m, Err e) end.

Lemma refines_check {B} b e (f : unit → SM B) m k :
  (b = true → refines (f tt) m k) → refines (check b e ≫= f) m (require b e ≫= λ _, k).
Proof. destruct b; [|done]. intros Hk. exact (Hk eq_refl). Qed.

Lemma refines_lift {A B} (r : res A) (f : A → SM B) m k :
  (∀ a, r = Ok a → refines (f a) m (k a)) → refines (lift r ≫= f) m (r ≫= k).
Proof. destruct r; [|done]. intros Hk. exact (Hk a eq_refl). Qed.

Lemma refines_asks {A B} (g : ModeStore → res A) (f : A → SM B) m k r :
  g m = r → (∀ a, r = Ok a → refines (f a) m (k a)) → refines (asks g ≫= f) m (r ≫= k).
Proof. intros <- Hk. unfold refines, mbind, SM_bind, asks, reaches. simpl. destruct (g m); [|done]. by apply Hk. Qed.

Lemma refines_asks_Ok {A B} (g : ModeStore → res A) (f : A → SM B) m k a :
  g m = Ok a → refines (f a) m k → refines (asks g ≫= f) m k.
Proof. intros E Hk. unfold refines, reaches, mbind, SM_bind, asks. by rewrite E. Qed.
Lemma refines_Ok {A} (c : SM A) m v : reaches c m v → refines c m (Ok v).
Proof. done. Qed.
Lemma reaches_lift_Ok {A B} (r : res A) (f : A → SM B) m v a : r = Ok a → reaches (f a) m v → reaches (lift r ≫= f) m v.
Proof. by intros ->. Qed.

Lemma refines_reads {A B} (g : ModeStore → A) (f : A → SM B) m k : refines (f (g m)) m k → refines (reads g ≫= f) m k.
Proof. done. Qed.
Lemma reaches_reads {A B} (g : ModeStore → A) (f : A → SM B) m v : reaches (f (g m)) m v → reaches (reads g ≫= f) m v.
Proof. done. Qed.

(** An event and the contract end every mutation. *)
Lemma reaches_event_contract m v action target outcome payload :
  represents m v → outcome ∈ ["succeeded"; "failed"] →
  reaches (record_control_event action target outcome payload;; n_leg_mode_contract) m v.
Proof.
  intros R Ho. eapply reaches_bind; [by apply reaches_event|]. intros m' _ _ R' _. by apply reaches_contract.
Qed.

Lemma refines_done {A} (c : SM A) m k : refines c m k → refines (c;; mret tt) m k.
Proof.
  destruct k as [v|e]; simpl; [|by apply bind_raise]. intros Hc. eapply reaches_bind; [exact Hc|]. intros. by apply reaches_ret.
Qed.

Section store.
Context (m : ModeStore) (v : View) (R : represents m v).

Lemma incident_read : is_none (unacknowledged_incident m) = forallb li_acknowledged (vw_incidents v).
Proof.
  destruct (rp_guards _ _ R) as (_ & _ & <-). unfold unacknowledged_incident. induction (mo_incidents m) as [|i l IH]; [done|].
  rewrite filter_cons. simpl. destruct (li_acknowledged i); simpl; [exact IH|done].
Qed.

Lemma entry_read e : scope_current m e = entry_current v e.
Proof. unfold scope_current, entry_current. by rewrite (proj1 (rp_scopes _ _ R)). Qed.

Lemma auto_read incident_id : require_auto_enable (n_leg_control m) incident_id m = spec_auto v incident_id.
Proof.
  unfold require_auto_enable, spec_auto. destruct (rp_guards _ _ R) as (-> & -> & Ei). rewrite incident_read, (proj1 (rp_enabled _ _ R)), Ei.
  destruct (negb (vw_breaker_open v)); [|done]. destruct (is_none (vw_active_batch v)); [|done]. cbn [require mbind res_bind].
  destruct (forallb li_acknowledged _) eqn:Ea; [|done]. cbn [require mbind res_bind].
  assert (Ef : forallb (scope_current m) (vw_enabled v) = forallb (entry_current v) (vw_enabled v)).
  { induction (vw_enabled v) as [|e l IH]; simpl; [done|]. by rewrite entry_read, IH. }
  rewrite Ef. destruct (forallb (entry_current v) _); [|done]. cbn [require mbind res_bind].
  destruct (vw_incidents v) as [|i l] eqn:El; [done|]. destruct incident_id as [id|]; [|done].
  destruct (id =? "")%string; [done|]. cbn [negb require mbind res_bind andb]. f_equal. rewrite forallb_forall in Ea. clear Ei El.
  revert Ea. induction (i :: l) as [|j k IH]; intros Ea; simpl; [done|]. rewrite (Ea j) by (by left). rewrite andb_true_r. f_equal. apply IH.
  intros x Hx. apply Ea. by right.
Qed.

(** A write that keeps the versions. *)
Lemma reaches_keep mode enabled : mode ∈ ["MANUAL"; "AUTO"] → Forall (λ e, e.1 ≠ "" ∧ 1 ≤ e.2) enabled →
  reaches (mode_control_write (keep_versions (n_leg_control m) (Some mode) enabled)) m (with_mode v mode enabled).
Proof.
  intros Hm He. unfold with_mode. rewrite <- (rp_versions _ _ R). pose proof (rp_versions _ _ R) as Ev.
  destruct (rp_policy _ _ R) as (_ & _ & Rp), (rp_safety _ _ R) as (_ & _ & Rs). rewrite <- Ev in Rp, Rs.
  by apply (reaches_write m v (keep_versions (n_leg_control m) (Some mode) enabled) _ _ R).
Qed.

Lemma set_mode_refines mode base incident_id audit :
  refines (n_leg_set_mode mode base incident_id audit) m (spec_op (SetMode mode base incident_id audit) v).
Proof.
  unfold n_leg_set_mode, spec_op. apply refines_check. intros Hmode%bool_decide_eq_true_1. apply refines_reads.
  destruct (rp_generation _ _ R) as [-> _]. apply refines_check. intros _. destruct (rp_enabled _ _ R) as [Ee He].
  assert (Htail : reaches (mode_control_write (keep_versions (n_leg_control m) (Some mode) (ct_enabled_scopes (n_leg_control m)));;
    record_control_event "n_leg_set_mode" "n_leg_controls" "succeeded"
      (dict_update [("mode", JStr mode); ("action_word", JStr (write_word mode))] audit);; n_leg_mode_contract) m
    (with_mode v mode (vw_enabled v))).
  { rewrite Ee. eapply reaches_bind; [by apply reaches_keep|]. intros. apply reaches_event_contract; [done|set_solver]. }
  destruct (mode =? "AUTO")%string; [|exact Htail]. apply refines_asks; [apply auto_read|]. intros _ _. exact Htail.
Qed.

Lemma reaches_enabled id enable audit enabled leave : Forall (λ e, e.1 ≠ "" ∧ 1 ≤ e.2) enabled →
  reaches (write_enabled_scopes (n_leg_control m) id enable audit enabled leave) m
    (leave_auto leave (with_mode v (vw_mode v) enabled)).
Proof.
  intros He. destruct (rp_mode _ _ R) as [Em Hm]. unfold write_enabled_scopes. rewrite Em.
  eapply (reaches_bind _ _ _ (leave_auto leave (with_mode v (vw_mode v) enabled))).
  - unfold leave_auto. simpl vw_mode. destruct (leave && _); apply (reaches_keep); (done || set_solver).
  - intros m' _ _ R' _. eapply (reaches_bind _ _ _ (leave_auto leave (with_mode v (vw_mode v) enabled))).
    + destruct leave; [apply reaches_event; [done|set_solver]|by apply reaches_ret].
    + intros m'' _ _ R'' _. apply reaches_reads, reaches_event_contract; [done|set_solver].
Qed.

Lemma set_enabled_refines id enable base audit :
  refines (n_leg_set_enabled_scope id enable base audit) m (spec_op (SetEnabledScope id enable base audit) v).
Proof.
  unfold n_leg_set_enabled_scope, spec_op. apply refines_check. intros Hid%negb_true_iff%String.eqb_neq. apply refines_reads.
  destruct (rp_generation _ _ R) as [-> _]. apply refines_check. intros _. destruct (rp_enabled _ _ R) as [Ee He].
  destruct (rp_scopes _ _ R) as [Esc Vsc]. cbv zeta. rewrite Ee.
  assert (Ho : Forall (λ e, e.1 ≠ "" ∧ 1 ≤ e.2) (filter (λ s, s.1 ≠ id) (vw_enabled v))).
  { apply Forall_forall. intros e [_ Hin]%list_elem_of_filter. rewrite Forall_forall in He. auto. }
  destruct enable; [|exact (reaches_enabled id false audit _ false Ho)]. apply refines_reads. rewrite Esc.
  destruct (vw_scopes v !! id) as [s|] eqn:Es; [|done]. cbn [of_option mbind res_bind].
  assert (Hs : Forall (λ e, e.1 ≠ "" ∧ 1 ≤ e.2) (filter (λ s, s.1 ≠ id) (vw_enabled v) ++ [(id, sc_scope_version s)])).
  { apply Forall_app. split; [done|]. apply Forall_singleton. by destruct (Vsc id s Es) as (_ & _ & ?). }
  destruct (head _) as [e|]; simpl is_none.
  - destruct (e.2 =? sc_scope_version s); [by apply reaches_contract|exact (reaches_enabled id true audit _ false Hs)].
  - exact (reaches_enabled id true audit _ true Hs).
Qed.

(** [downgrade], with versions of the control row or of the table. *)
Lemma reaches_downgrade_here m' w reason audit : represents m' w →
  reaches (downgrade reason audit None None) m' (with_mode w "MANUAL" (vw_enabled w)).
Proof.
  intros R'. pose proof (reaches_downgrade m' w reason audit None None R') as Hd. unfold named_versions in Hd. simpl in Hd.
  rewrite <- surjective_pairing in Hd. apply Hd; [apply (rp_policy _ _ R')|apply (rp_safety _ _ R')].
Qed.

Lemma leave_auto_true w : vw_mode w = "AUTO" → leave_auto true w = with_mode w "MANUAL" (vw_enabled w).
Proof. unfold leave_auto. by intros ->. Qed.

Lemma enforce_refines audit :
  refines (n_leg_enforce_auto_scope_versions audit) m (spec_op (EnforceScopeVersions audit) v).
Proof.
  unfold n_leg_enforce_auto_scope_versions, spec_op. apply refines_reads. destruct (rp_mode _ _ R) as [Em Hm]. rewrite Em.
  destruct (vw_mode v =? "AUTO")%string eqn:Ea; [|unfold leave_auto; rewrite Ea, andb_false_r; by apply reaches_ret].
  cbn [negb]. apply refines_reads. rewrite (proj1 (rp_enabled _ _ R)).
  assert (Ed : fst <$> filter (λ s, scope_current m s = false) (vw_enabled v) = [] ↔ forallb (entry_current v) (vw_enabled v) = true).
  { induction (vw_enabled v) as [|e l IH]; [done|]. rewrite filter_cons. simpl. rewrite entry_read.
    destruct (entry_current v e); simpl; [exact IH|by split]. }
  destruct (fst <$> filter _ _) as [|x l] eqn:El.
  - rewrite (proj1 Ed eq_refl). by apply reaches_ret.
  - destruct (forallb _ _); [by discriminate (proj2 Ed eq_refl)|]. apply String.eqb_eq in Ea. cbn [negb]. rewrite (leave_auto_true v Ea).
    eapply reaches_bind; [by apply reaches_downgrade_here|]. intros m' _ _ R' _.
    eapply reaches_bind; [apply reaches_event; [done|set_solver]|]. intros m'' _ _ R'' _. by apply reaches_ret.
Qed.

(** The write of a new version, leaving AUTO when [leave]. *)
Lemma reaches_version_write m' w leave reason audit pv sv : represents m' w →
  1 ≤ (named_versions w pv sv).1 ≤ (vw_policy w).1 → 1 ≤ (named_versions w pv sv).2 ≤ (vw_safety w).1 →
  reaches (if leave && (ct_mode (n_leg_control m') =? "AUTO")%string then downgrade reason audit pv sv
           else mode_control_write (version_write (n_leg_control m') pv sv)) m'
    (leave_auto leave (with_control w (vw_mode w) (vw_enabled w) (named_versions w pv sv))).
Proof.
  intros R' Hp Hs. unfold leave_auto. rewrite (proj1 (rp_mode _ _ R')). simpl vw_mode.
  destruct (leave && _); [exact (reaches_downgrade m' w reason audit pv sv R' Hp Hs)|]. rewrite <- (control_versions m' w pv sv R') in *.
  pose proof (λ p q, reaches_write m' w (version_write (n_leg_control m') pv sv) p q R') as Hw. simpl in Hw, Hp, Hs.
  rewrite (proj1 (rp_enabled _ _ R')) in Hw. eapply Hw; [apply (rp_mode _ _ R')|apply (rp_enabled _ _ R')|done|reflexivity|done|reflexivity|done].
Qed.

Lemma update_policy_refines policy base audit :
  refines (n_leg_update_qualification_policy policy base audit) m (spec_op (UpdatePolicy policy base audit) v).
Proof.
  unfold n_leg_update_qualification_policy, spec_op. apply refines_lift. intros p Hp%validated_policy_valid.
  destruct (rp_policy _ _ R) as (Ep & Vp & Rp). eapply refines_asks_Ok; [exact Ep|]. apply refines_check. intros _. apply refines_Ok.
  eapply reaches_lift_Ok; [by apply policy_direction_exact|]. cbv zeta. set (leave := looser (vw_policy v).2 p).
  replace (if leave then "loosen" else _) with (if leave then "loosen" else if bool_decide ((vw_policy v).2 = p) then "same" else "tighten") by done.
  eapply reaches_bind; [by apply reaches_policy_write|]. intros m' _ _ R' _. apply reaches_reads.
  assert (El : ((if leave then "loosen" else if bool_decide ((vw_policy v).2 = p) then "same" else "tighten") =? "loosen")%string = leave).
  { destruct leave; [done|]. by case_bool_decide. }
  rewrite El. eapply reaches_bind.
  { apply reaches_version_write; [exact R'|simpl; lia|apply (rp_safety _ _ R)]. }
  intros m'' _ _ R'' _. apply reaches_reads, reaches_event_contract; [done|set_solver].
Qed.

Lemma update_safety_refines config base audit :
  refines (n_leg_update_safety_config config base audit) m (spec_op (UpdateSafety config base audit) v).
Proof.
  unfold n_leg_update_safety_config, spec_op. apply refines_lift. intros c Hc%validated_safety_valid.
  destruct (rp_safety _ _ R) as (Es & Vs & Rs). eapply refines_asks_Ok; [exact Es|]. apply refines_check. intros _. apply refines_Ok.
  cbv zeta. eapply reaches_bind; [by apply reaches_safety_write|]. intros m' _ _ R' _. apply reaches_reads. eapply reaches_bind.
  { apply reaches_version_write; [exact R'|apply (rp_policy _ _ R)|simpl; lia]. }
  intros m'' _ _ R'' _. apply reaches_reads, reaches_event_contract; [done|set_solver].
Qed.

Lemma reaches_scope id capability fields version direction audit :
  id ≠ "" → capability ∈ CAPABILITIES → 1 ≤ version →
  reaches (write_scope id capability fields version direction audit) m
    (leave_auto (negb (is_none (downgrade_reason direction)))
       (with_scope v id {| sc_capability := capability; sc_scope_version := version; sc_members := stored fields |})).
Proof.
  intros Hid Hcap Hv. unfold write_scope. set (w := with_scope v id _). set (leave := negb (is_none (downgrade_reason direction))).
  eapply reaches_bind; [by apply reaches_scope_write|]. fold w. intros m' _ _ R' _. apply reaches_reads.
  eapply (reaches_bind _ _ _ (leave_auto leave w)).
  - unfold leave, leave_auto. rewrite (proj1 (rp_mode _ _ R')). destruct (downgrade_reason direction); [|by apply reaches_ret]. clearbody w.
    cbn [negb is_none andb]. destruct (_ =? _)%string; [by apply reaches_downgrade_here|by apply reaches_ret].
  - intros m'' _ _ R'' _. apply reaches_reads, reaches_event_contract; [done|set_solver].
Qed.

Lemma upsert_refines id capability members base audit :
  refines (n_leg_upsert_scope id capability members base audit) m (spec_op (UpsertScope id capability members base audit) v).
Proof.
  unfold n_leg_upsert_scope, spec_op. apply refines_check. intros Hid%negb_true_iff%String.eqb_neq. apply refines_check.
  intros Hcap%bool_decide_eq_true_1. apply refines_lift. intros fields _. destruct (rp_scopes _ _ R) as [Esc Vsc].
  unfold scope_change. destruct (vw_scopes v !! id) as [s|] eqn:Es.
  - destruct (Vsc id s Es) as (_ & _ & Hv). destruct (bool_decide (base = _)) eqn:Eb.
    + eapply refines_asks_Ok; [by rewrite Esc, Es, Eb|]. apply reaches_scope; [done..|simpl; lia].
    + unfold refines, mbind, SM_bind, asks. by rewrite Esc, Es, Eb.
  - destruct (capability =? "OBSERVE_ONLY")%string eqn:Ec.
    + eapply refines_asks_Ok; [by rewrite Esc, Es|]. by apply (reaches_scope _ _ _ 1 "added").
    + unfold refines, mbind, SM_bind, asks. by rewrite Esc, Es.
Qed.

Lemma seed_refines : refines ensure_same_event_same_venue_scope m (spec_op SeedScope v).
Proof.
  pose proof (upsert_refines SAME_EVENT_SAME_VENUE_SCOPE_ID "OBSERVE_ONLY" SAME_EVENT_SAME_VENUE_MEMBERS None []) as Hu.
  unfold spec_op in Hu |- *. destruct (rp_scopes _ _ R) as [Esc _]. unfold ensure_same_event_same_venue_scope, refines, reaches.
  unfold SAME_EVENT_SAME_VENUE_MEMBERS in *. rewrite Esc. cbn [require mbind res_bind] in Hu.
  destruct (vw_scopes v !! SAME_EVENT_SAME_VENUE_SCOPE_ID) as [s|]; [by exists m, false|].
  rewrite bool_decide_eq_true_2 in Hu by set_solver. destruct Hu as (m' & c & E & R' & F). exists m', true. rewrite E. by split_and!.
Qed.

Theorem run_op_refines op : refines (run_op op) m (spec_op op v).
Proof.
  destruct op; simpl run_op; apply refines_done; [apply set_mode_refines|apply set_enabled_refines|apply enforce_refines|
    apply update_policy_refines|apply update_safety_refines|apply upsert_refines|apply seed_refines].
Qed.
End store.

(** ** Versions only grow *)

(** [w] may follow [v]: a version that has not moved still names the same
    policy, configuration or scope. *)
Record later (v w : View) : Prop := {
  la_generation : vw_generation w = vw_generation v;
  la_policy : (vw_versions v).1 ≤ (vw_versions w).1 ∧ ((vw_versions v).1 = (vw_versions w).1 → vw_policy w = vw_policy v);
  la_safety : (vw_versions v).2 ≤ (vw_versions w).2 ∧ ((vw_versions v).2 = (vw_versions w).2 → vw_safety w = vw_safety v);
  la_scopes : ∀ id s, vw_scopes v !! id = Some s → ∃ s', vw_scopes w !! id = Some s' ∧
    sc_scope_version s ≤ sc_scope_version s' ∧ (sc_scope_version s = sc_scope_version s' → s' = s);
  la_gates : vw_breaker_open w = vw_breaker_open v ∧ vw_active_batch w = vw_active_batch v ∧ vw_incidents w = vw_incidents v;
}.

Ltac later_trivial :=
  split; simpl; try done; try (split; [lia|by intros; try lia]); try (intros ? s ?; exists s; split_and!; [done|lia|done]).

#[export] Instance later_preorder : PreOrder later.
Proof.
  split.
  - intros v. later_trivial.
  - intros v w u [G1 [P1 Q1] [S1 T1] C1 (B1 & A1 & I1)] [G2 [P2 Q2] [S2 T2] C2 (B2 & A2 & I2)]. split; try congruence.
    + split; [lia|]. intros E. rewrite Q2, Q1 by lia. done.
    + split; [lia|]. intros E. rewrite T2, T1 by lia. done.
    + intros id s Hs. destruct (C1 id s Hs) as (s1 & Hs1 & L1 & E1), (C2 id s1 Hs1) as (s2 & Hs2 & L2 & E2).
      exists s2. split_and!; [done|lia|]. intros E. rewrite E2, E1 by lia. done.
    + split_and!; congruence.
Qed.

Lemma later_leave_auto leave v w : later v w → later v (leave_auto leave w).
Proof. intros [? ? ? ? ?]. unfold leave_auto. destruct (_ && _); by split. Qed.

Lemma later_with_mode v mode enabled : later v (with_mode v mode enabled).
Proof. later_trivial. Qed.

Lemma later_with_scope v id s : (∀ t, vw_scopes v !! id = Some t → sc_scope_version t < sc_scope_version s) → later v (with_scope v id s).
Proof.
  intros Hs. later_trivial. intros x t Ht. destruct (decide (x = id)) as [->|Hne].
  - exists s. rewrite lookup_insert_eq. specialize (Hs t Ht). split_and!; [done|lia|lia].
  - exists t. by rewrite lookup_insert_ne.
Qed.

(** A refused operation, or the steps that the specification took. *)
Lemma spec_op_later m v op w : represents m v → spec_op op v = Ok w → later v w.
Proof.
  intros R. destruct (rp_policy _ _ R) as (_ & _ & Rp), (rp_safety _ _ R) as (_ & _ & Rs).
  destruct op as [mode base inc audit|id enable base audit|audit|policy base audit|config base audit|id cap members base audit|]; simpl.
  - intros (? & _ & (? & _ & (? & _ & [= <-])%bind_Ok)%bind_Ok)%bind_Ok. apply later_with_mode.
  - intros (? & _ & (? & _ & HR)%bind_Ok)%bind_Ok. destruct enable; [|injection HR as <-; apply later_with_mode].
    apply bind_Ok in HR as (s & _ & HR). destruct (head _) as [e|]; [destruct (_ =? _)|]; injection HR as <-;
      [done|apply later_with_mode|apply later_leave_auto, later_with_mode].
  - intros [= <-]. by apply later_leave_auto.
  - intros (p & _ & (? & _ & [= <-])%bind_Ok)%bind_Ok. apply later_leave_auto. later_trivial.
  - intros (c & _ & (? & _ & [= <-])%bind_Ok)%bind_Ok. apply later_leave_auto. later_trivial.
  - intros (? & _ & (? & _ & (fields & _ & HR)%bind_Ok)%bind_Ok)%bind_Ok. destruct (vw_scopes v !! id) as [s|] eqn:Es;
      apply bind_Ok in HR as (? & _ & [= <-]); apply later_leave_auto, later_with_scope; intros t Ht; simplify_eq; simpl; lia.
  - destruct (vw_scopes v !! _) as [s|] eqn:Es; intros [= <-]; [done|]. apply later_leave_auto, later_with_scope. intros t Ht. simplify_eq.
Qed.

(** The store after operations of which some may have raised. *)
Definition after_ops (m : ModeStore) (ops : list ModeOp) : ModeStore := foldl (λ m op, (run_op op m).1) m ops.

Lemma run_op_total op m v : represents m v →
  ∃ w, represents (run_op op m).1 w ∧ later v w ∧ frame m (run_op op m).1 ∧
    (spec_op op v = Ok w ∨ w = v ∧ (run_op op m).1 = m ∧ ∃ e, spec_op op v = Err e).
Proof.
  intros R. pose proof (run_op_refines m v R op) as HR. unfold refines in HR. destruct (spec_op op v) as [w|e] eqn:E.
  - destruct HR as (m' & [] & -> & R' & F). exists w. split_and!; [done|by eapply spec_op_later|done|by left].
  - rewrite HR. exists v. split_and!; [done..|]. right. eauto.
Qed.

Lemma after_ops_later ops m v : represents m v → ∃ w, represents (after_ops m ops) w ∧ later v w ∧ frame m (after_ops m ops).
Proof.
  revert m v. induction ops as [|op ops IH]; intros m v R; [by exists v|]. destruct (run_op_total op m v R) as (w & R' & L & F & _).
  destruct (IH _ _ R') as (u & R'' & L' & F'). exists u. split_and!; [done|by etrans|by etrans].
Qed.

(** ** Leaving and keeping AUTO *)

(** Every enabled scope is registered, once, at no later version. *)
Record enabled_ok (v : View) : Prop := {
  eo_once : NoDup (vw_enabled v).*1;
  eo_registered : ∀ e, e ∈ vw_enabled v → ∃ s, vw_scopes v !! e.1 = Some s ∧ e.2 ≤ sc_scope_version s;
}.

Lemma enabled_ok_with v id version s :
  enabled_ok v → vw_scopes v !! id = Some s → version ≤ sc_scope_version s →
  enabled_ok (with_mode v (vw_mode v) (filter (λ e, e.1 ≠ id) (vw_enabled v) ++ [(id, version)])).
Proof.
  intros [Hn Hr] Hs Hv. split; simpl.
  - rewrite fmap_app. simpl. apply NoDup_app. split_and!; [| |apply NoDup_singleton].
    + eapply sublist_NoDup; [exact Hn|]. apply fmap_sublist, sublist_filter.
    + intros x (e & -> & [Hne _]%list_elem_of_filter)%list_elem_of_fmap Hin%list_elem_of_singleton. done.
  - intros e [[_ He]%list_elem_of_filter| ->%list_elem_of_singleton]%elem_of_app; [auto|eauto].
Qed.

Lemma enabled_ok_leave leave v : enabled_ok v → enabled_ok (leave_auto leave v).
Proof. intros [? ?]. unfold leave_auto. destruct (_ && _); by split. Qed.

Lemma enabled_ok_scope v id s : enabled_ok v → (∀ t, vw_scopes v !! id = Some t → sc_scope_version t ≤ sc_scope_version s) →
  enabled_ok (with_scope v id s).
Proof.
  intros [Hn Hr] Hs. split; simpl; [done|]. intros e He. destruct (Hr e He) as (t & Ht & Hle). destruct (decide (e.1 = id)) as [E|Hne].
  - exists s. rewrite E, lookup_insert_eq. rewrite E in Ht. specialize (Hs t Ht). split; [done|lia].
  - exists t. by rewrite lookup_insert_ne.
Qed.

Lemma spec_op_enabled v op w : enabled_ok v → spec_op op v = Ok w → enabled_ok w.
Proof.
  intros Hv. destruct op as [mode base inc audit|id enable base audit|audit|policy base audit|config base audit|id cap members base audit|]; simpl.
  - intros (? & _ & (? & _ & (? & _ & [= <-])%bind_Ok)%bind_Ok)%bind_Ok. destruct Hv. by split.
  - intros (? & _ & (? & _ & HR)%bind_Ok)%bind_Ok. destruct enable.
    + apply bind_Ok in HR as (s & Hs%of_option_Ok & HR). assert (Hw := enabled_ok_with v id _ s Hv Hs (Z.le_refl _)).
      destruct (head _) as [e|]; [destruct (_ =? _)|]; injection HR as <-; [done..|by apply enabled_ok_leave].
    + injection HR as <-. destruct Hv as [Hn Hr]. split; simpl.
      * eapply sublist_NoDup; [exact Hn|]. apply fmap_sublist, sublist_filter.
      * intros e [_ He]%list_elem_of_filter. auto.
  - intros [= <-]. by apply enabled_ok_leave.
  - intros (p & _ & (? & _ & [= <-])%bind_Ok)%bind_Ok. apply enabled_ok_leave. destruct Hv. by split.
  - intros (c & _ & (? & _ & [= <-])%bind_Ok)%bind_Ok. apply enabled_ok_leave. destruct Hv. by split.
  - intros (? & _ & (? & _ & (fields & _ & HR)%bind_Ok)%bind_Ok)%bind_Ok. destruct (vw_scopes v !! id) as [s|] eqn:Es;
      apply bind_Ok in HR as (? & _ & [= <-]); apply enabled_ok_leave, enabled_ok_scope; try done; intros t Ht; simplify_eq; simpl; lia.
  - destruct (vw_scopes v !! _) as [s|] eqn:Es; intros [= <-]; [done|]. apply enabled_ok_leave, enabled_ok_scope; [done|].
    intros t Ht. simplify_eq.
Qed.

(** The scopes that AUTO submits by itself. *)
Definition auto_ready (v : View) (id : string) : Prop := ∃ s,
  vw_scopes v !! id = Some s ∧ vw_mode v = "AUTO" ∧ sc_capability s = "AUTO_ELIGIBLE" ∧ (id, sc_scope_version s) ∈ vw_enabled v.

(** What the readiness of the contract says, the gates apart. *)
Definition auto_submits (m : ModeStore) (id : string) : Prop := ∃ c r,
  mode_contract m = Ok c ∧ (id, r) ∈ (n_leg_order_readiness c).2 ∧ sr_action r = Some "auto_submit".

Lemma enabled_version_spec v id n : NoDup (vw_enabled v).*1 → enabled_version (vw_enabled v) id = Some n ↔ (id, n) ∈ vw_enabled v.
Proof.
  intros Hn. unfold enabled_version. rewrite fmap_Some. split.
  - intros ([x k] & Hl & ->). apply last_Some_elem_of, list_elem_of_filter in Hl as [E Hin]. simpl in *. by subst x.
  - intros Hin. assert (Hf : (id, n) ∈ filter (λ s : string * Z, s.1 = id) (vw_enabled v)) by (by apply list_elem_of_filter).
    destruct (last (filter (λ s : string * Z, s.1 = id) (vw_enabled v))) as [[x k]|] eqn:El.
    + exists (x, k). split; [done|]. apply last_Some_elem_of, list_elem_of_filter in El as [E Hin']. simpl in *. subst x.
      pose proof (NoDup_key_eq fst (vw_enabled v) _ _ Hn Hin Hin' eq_refl) as E. by simplify_eq.
    + apply last_None in El. rewrite El in Hf. by apply not_elem_of_nil in Hf.
Qed.

Lemma n_leg_scopes_spec m id s : (id, s) ∈ n_leg_scopes m ↔ n_leg_scope m id = Some s.
Proof.
  unfold n_leg_scopes, n_leg_scope. rewrite elem_of_sort_on, list_elem_of_fmap, fmap_Some. split.
  - intros ([k t] & [= -> ->] & Hin%elem_of_map_to_list). by exists t.
  - intros (t & Ht & ->). exists (id, t). split; [done|]. by apply elem_of_map_to_list.
Qed.

(** No gate is closed. *)
Definition gates_open (m : ModeStore) (v : View) : Prop :=
  vw_breaker_open v = false ∧ vw_active_batch v = None ∧ forallb li_acknowledged (vw_incidents v) = true ∧
  has_incident_batch (mo_store m) = false.

Lemma contract_fields m c : mode_contract m = Ok c →
  mc_mode c = ct_mode (n_leg_control m) ∧ mc_enabled c = ct_enabled_scopes (n_leg_control m) ∧
  mc_execution_scopes c = n_leg_scopes m ∧ mc_breaker_open c = ct_breaker_open (n_leg_control m) ∧
  mc_incident_active c = negb (is_none (unacknowledged_incident m)) || has_incident_batch (mo_store m) ∧
  mc_batch_active c = negb (is_none (ct_active_batch_id (n_leg_control m))).
Proof.
  unfold mode_contract. intros (? & _ & (? & _ & (? & _ & (? & _ & (? & _ & [= <-])%bind_Ok)%bind_Ok)%bind_Ok)%bind_Ok)%bind_Ok. done.
Qed.

Lemma gate_reason_None m v c : represents m v → mode_contract m = Ok c → gate_reason c = None ↔ gates_open m v.
Proof.
  intros R Hc. destruct (contract_fields m c Hc) as (_ & _ & _ & Eb & Ei & Ea). destruct (rp_guards _ _ R) as (Gb & Ga & _).
  unfold gate_reason, gates_open. rewrite Eb, Ei, Ea, Gb, Ga, (incident_read m v R).
  destruct (vw_breaker_open v), (vw_active_batch v), (forallb _ _), (has_incident_batch _); simpl; naive_solver.
Qed.

Lemma auto_submits_spec m v id : represents m v → enabled_ok v →
  auto_submits m id ↔ gates_open m v ∧ auto_ready v id.
Proof.
  intros R [Hn _]. destruct (contract_read m v R) as [c Hc]. destruct (contract_fields m c Hc) as (Em & Ee & Es & _).
  pose proof (gate_reason_None m v c R Hc) as Hg. rewrite (proj1 (rp_mode _ _ R)) in Em. rewrite (proj1 (rp_enabled _ _ R)) in Ee.
  destruct (rp_scopes _ _ R) as [Esc Vsc]. unfold auto_submits, n_leg_order_readiness. split.
  - intros (c' & r & Hc' & Hr & Ha). assert (c' = c) as -> by congruence. simpl in Hr.
    apply list_elem_of_fmap in Hr as ([k s] & [= -> ->] & Hin). rewrite Es in Hin. apply n_leg_scopes_spec in Hin. rewrite Esc in Hin.
    destruct (gate_reason c) as [reason|]; [done|]. split; [by apply Hg|]. exists s. revert Ha. simpl. unfold scope_readiness. rewrite Em, Ee.
    destruct (Vsc k s Hin) as (_ & Hcap & _). unfold CAPABILITIES in Hcap.
    destruct (sc_capability s =? "OBSERVE_ONLY")%string eqn:E1; [done|]. destruct (sc_capability s =? "MANUAL_CANARY")%string eqn:E2.
    { by destruct (vw_mode v =? "MANUAL")%string. }
    destruct (vw_mode v =? "AUTO")%string eqn:E3; [|by destruct (vw_mode v =? "MANUAL")%string]. cbn [andb].
    case_bool_decide as E4; [|by destruct (vw_mode v =? "MANUAL")%string]. intros _. apply String.eqb_neq in E1, E2. apply String.eqb_eq in E3.
    split_and!; [done|done|set_solver|by apply enabled_version_spec].
  - intros [Hgates (s & Hs & Hm & Hcap & Hin)]. exists c, (readiness true "AUTO_ELIGIBLE" (Some "auto_submit")). split_and!; [done| |done].
    simpl. apply list_elem_of_fmap. exists (id, s). rewrite Es, n_leg_scopes_spec, Esc. split; [|done]. rewrite (proj2 Hg Hgates).
    simpl. unfold scope_readiness. rewrite Em, Ee, Hcap, Hm. simpl. apply enabled_version_spec in Hin; [|done].
    by rewrite bool_decide_eq_true_2.
Qed.

Lemma finite_ltb_irrefl d : finite_ltb d d = false.
Proof. destruct d; [|done..]. simpl. apply Z.ltb_irrefl. Qed.

Lemma looser_refl p : looser p p = false.
Proof. unfold looser. by rewrite !finite_ltb_irrefl, Z.ltb_irrefl. Qed.

Lemma safety_direction_refl c : safety_direction c c ≠ "loosen".
Proof. unfold safety_direction. rewrite !Z.ltb_irrefl. simpl. by case_bool_decide. Qed.

(** What holds when AUTO survives an operation, or starts with it. *)
Record still_auto (op : ModeOp) (v w : View) : Prop := {
  sa_policy : looser (vw_policy v).2 (vw_policy w).2 = false;
  sa_safety : safety_direction (vw_safety v).2.1 (vw_safety w).2.1 ≠ "loosen";
  sa_entered : vw_mode v = "AUTO" ∨ ∃ base incident_id audit, op = SetMode "AUTO" base incident_id audit ∧ spec_auto v incident_id = Ok tt;
  sa_scopes : ∀ id, auto_ready w id → auto_ready v id ∨
    (∃ base incident_id audit, op = SetMode "AUTO" base incident_id audit ∧ auto_ready (with_mode v "AUTO" (vw_enabled v)) id) ∨
    ∃ base audit version, op = SetEnabledScope id true base audit ∧ (id, version) ∈ vw_enabled v;
}.

Lemma leave_auto_mode leave v : vw_mode (leave_auto leave v) = "AUTO" → leave = false ∧ leave_auto leave v = v ∧ vw_mode v = "AUTO".
Proof.
  unfold leave_auto. destruct leave; simpl; [|done]. destruct (vw_mode v =? "AUTO")%string eqn:E; [done|].
  intros Hm. apply String.eqb_neq in E. done.
Qed.

(** Nothing that the readiness looks at has changed. *)
Lemma still_auto_same op v w :
  vw_policy w = vw_policy v → vw_safety w = vw_safety v → vw_mode v = "AUTO" → (∀ id, auto_ready w id → auto_ready v id) →
  still_auto op v w.
Proof. intros Ep Es Hm Ha. split; [rewrite Ep; apply looser_refl|rewrite Es; apply safety_direction_refl|by left|by left; apply Ha]. Qed.

Lemma head_filter_None {A} (P : A → Prop) `{∀ x, Decision (P x)} l : head (filter P l) = None → ∀ x, x ∈ l → ¬ P x.
Proof.
  intros Hh x Hx Hp. assert (Hf : x ∈ filter P l) by (by apply list_elem_of_filter). destruct (filter P l); [by apply not_elem_of_nil in Hf|done].
Qed.

Lemma still_auto_with_scope op v id s : enabled_ok v → vw_mode v = "AUTO" →
  (∀ t, vw_scopes v !! id = Some t → sc_scope_version t < sc_scope_version s) → is_Some (vw_scopes v !! id) →
  still_auto op v (with_scope v id s).
Proof.
  intros [_ Hr] Hm Hs [t Ht]. apply still_auto_same; [done..|]. intros x (u & Hu & _ & Hcap & Hin). simpl in Hu, Hin.
  exists u. split_and!; [|done..]. destruct (decide (x = id)) as [->|Hne]; [|by rewrite lookup_insert_ne in Hu].
  exfalso. rewrite lookup_insert_eq in Hu. injection Hu as <-. destruct (Hr _ Hin) as (t' & Ht' & Hle). simpl in Ht', Hle.
  specialize (Hs t' Ht'). lia.
Qed.

Lemma set_enabled_still v id enable base audit w : vw_mode w = "AUTO" →
  spec_op (SetEnabledScope id enable base audit) v = Ok w → still_auto (SetEnabledScope id enable base audit) v w.
Proof.
  intros Hw (? & _ & (? & _ & HR)%bind_Ok)%bind_Ok. destruct enable.
  - apply bind_Ok in HR as (s & Hs%of_option_Ok & HR). destruct (head (filter _ (vw_enabled v))) as [e|] eqn:Eh.
    + assert (He : (id, e.2) ∈ vw_enabled v).
      { apply head_Some_elem_of, list_elem_of_filter in Eh as [E Hin]. destruct e as [y n]. simpl in *. by subst y. }
      assert (Hm : vw_mode v = "AUTO") by (by destruct (_ =? _); injection HR as <-).
      destruct (_ =? _); injection HR as <-; [by apply still_auto_same|].
      split; [apply looser_refl|apply safety_direction_refl|by left|]. intros y (u & Hu & _ & Hcap & Hin). simpl in Hu, Hin.
      apply elem_of_app in Hin as [[_ Hin]%list_elem_of_filter|Hin%list_elem_of_singleton].
      * left. by exists u.
      * injection Hin as -> Hv. right. right. by exists base, audit, e.2.
    + injection HR as <-. apply leave_auto_mode in Hw as (? & _ & _). done.
  - injection HR as <-. apply still_auto_same; [done..|]. intros y (u & Hu & _ & Hcap & [_ Hin]%list_elem_of_filter). by exists u.
Qed.

(** AUTO never widens by itself. *)
Lemma spec_op_still v op w : enabled_ok v → spec_op op v = Ok w → vw_mode w = "AUTO" → still_auto op v w.
Proof.
  intros Hv HR Hw. destruct op as [mode base inc audit|id enable base audit|audit|policy base audit|config base audit|id cap members base audit|].
  - simpl in HR. apply bind_Ok in HR as (? & _ & (? & _ & ([] & Ha & [= <-])%bind_Ok)%bind_Ok). simpl in Hw. subst mode.
    split; [apply looser_refl|apply safety_direction_refl|by right; exists base, inc, audit|]. intros id Hid. right. left. by exists base, inc, audit.
  - by apply set_enabled_still.
  - injection HR as <-. apply leave_auto_mode in Hw as (_ & -> & Hm). by apply still_auto_same.
  - simpl in HR. apply bind_Ok in HR as (p & _ & (? & _ & [= <-])%bind_Ok). apply leave_auto_mode in Hw as (Hl & -> & Hm).
    split; [done|apply safety_direction_refl|by left|by left].
  - simpl in HR. apply bind_Ok in HR as (c & _ & (? & _ & [= <-])%bind_Ok). apply leave_auto_mode in Hw as (Hl & -> & Hm).
    split; [apply looser_refl|by apply String.eqb_neq in Hl|by left|by left].
  - simpl in HR. apply bind_Ok in HR as (? & _ & (? & _ & (fields & _ & HR)%bind_Ok)%bind_Ok). destruct (vw_scopes v !! id) as [s|] eqn:Es;
      apply bind_Ok in HR as (? & _ & [= <-]); apply leave_auto_mode in Hw as (Hl & -> & Hm); [|done].
    apply still_auto_with_scope; [done..| |by eexists]. intros t Ht. simplify_eq. simpl. lia.
  - simpl in HR. destruct (vw_scopes v !! _) eqn:Es; injection HR as <-; [by apply still_auto_same|]. by apply leave_auto_mode in Hw as (? & _ & _).
Qed.

Lemma contract_versions m c : mode_contract m = Ok c →
  mc_contract_generation c = ct_contract_generation (n_leg_control m) ∧
  mc_qualification_policy_version c = ct_qualification_policy_version (n_leg_control m) ∧
  mc_safety_config_version c = ct_safety_config_version (n_leg_control m).
Proof.
  unfold mode_contract, positive_int.
  intros (? & _ & (? & _ & (? & [[= <-] _]%positive_value_Ok & (? & [[= <-] _]%positive_value_Ok & (? & [[= <-] _]%positive_value_Ok & [= <-])%bind_Ok)%bind_Ok)%bind_Ok)%bind_Ok)%bind_Ok.
  done.
Qed.

(** ** Admission against frozen versions *)

Section admission.
Context `{Sha256}.

Lemma json_same_int a b : json_same (JInt a) (JInt b) = true → a = b.
Proof. unfold json_same. intros E%String.eqb_eq. change (pretty a = pretty b) in E. by apply (inj (R := eq) (S := eq) pretty) in E. Qed.

(** A new batch passes the comparison of versions. *)
Lemma created_versions st payload component expected now out :
  so_batches st !! ba_execution_batch_id payload = None →
  n_leg_create_batch st payload component (Some expected) now = Ok out →
  ∀ k current e, (k, current) ∈ current_versions st payload expected → json_field k expected = Some e → json_same e current = true.
Proof.
  intros Hnew HR k current e Hin He. unfold n_leg_create_batch in HR. rewrite Hnew in HR.
  assert (Hm : admission_version_mismatch st payload expected = false).
  { repeat match type of HR with
    | (_ ≫= _) = Ok _ => apply bind_Ok in HR as (? & ?Hb & HR)
    | (let '(_, _) := ?x in _) = Ok _ => destruct x
    | match ?x with _ => _ end = Ok _ => destruct x
    end; repeat match goal with Hb : require _ _ = Ok _ |- _ => apply require_Ok in Hb end;
    by match goal with Hb : negb (admission_version_mismatch _ _ _) = true |- _ => apply negb_true_iff in Hb end. }
  unfold admission_version_mismatch in Hm. apply not_true_iff_false in Hm. destruct (json_same e current) eqn:E; [done|]. exfalso. apply Hm.
  apply existsb_exists. exists (k, current). split; [by apply list_elem_of_In|]. simpl. by rewrite He, E.
Qed.

(** A new batch that would be created without versions to compare is created,
    or refused because of the versions. *)
Lemma versioned_create st payload component expected now out :
  so_batches st !! ba_execution_batch_id payload = None →
  n_leg_create_batch st payload component None now = Ok out →
  n_leg_create_batch st payload component (Some expected) now =
    if admission_version_mismatch st payload expected then Err (ValueError "N_LEG_ADMISSION_VERSION_STALE") else Ok out.
Proof.
  intros Hnew. unfold n_leg_create_batch. rewrite Hnew.
  do 4 (intros (? & ->%require_Ok & HR)%bind_Ok; revert HR; cbn [require mbind res_bind]).
  destruct (lineage_lock_decision _ _ _ _ _) as [[claim reason]|]; [|done]. cbn [mbind res_bind].
  destruct reason; [done|]. cbn [mbind res_bind].
  destruct (match claim with None => _ | Some _ => Ok tt end); [|done]. cbn [negb require mbind res_bind].
  intros HR. destruct (admission_version_mismatch st payload expected); [done|]. exact HR.
Qed.

Lemma scope_in_contract m c id s : mode_contract m = Ok c → n_leg_scope m id = Some s →
  snd <$> head (filter (λ s, s.1 = id) (mc_execution_scopes c)) = Some s.
Proof.
  intros Hc Hs. destruct (contract_fields m c Hc) as (_ & _ & -> & _). apply n_leg_scopes_spec in Hs as Hin.
  destruct (head (filter (λ s, s.1 = id) (n_leg_scopes m))) as [[x t]|] eqn:Eh.
  - apply head_Some_elem_of, list_elem_of_filter in Eh as [E Ht]. simpl in *. subst x. apply n_leg_scopes_spec in Ht. congruence.
  - by destruct (head_filter_None _ _ Eh _ Hin).
Qed.

(** What a new batch of frozen versions finds in the store. *)
Lemma frozen_found m v c id s safety frozen st payload component now out :
  represents m v → mode_contract m = Ok c → n_leg_scope m id = Some s →
  json_field "versions" frozen = Some (JObj (frozen_versions c id safety)) →
  so_batches st !! ba_execution_batch_id payload = None →
  n_leg_create_batch st payload component (Some (expected_versions frozen)) now = Ok out →
  ct_breaker_open (so_control st) = false ∧ json_same (JStr (vw_mode v)) (JStr (ct_mode (so_control st))) = true ∧
  ct_contract_generation (so_control st) = vw_generation v ∧
  ct_qualification_policy_version (so_control st) = (vw_versions v).1 ∧
  ∃ t, so_scopes st !! id = Some t ∧ t.2 = sc_scope_version s.
Proof.
  intros R Hc Hs Hf Hnew HR. pose proof (created_versions st payload component _ now out Hnew HR) as Hall.
  set (expected := expected_versions frozen) in *.
  assert (He : ∀ k, k ∈ ["breaker_closed"; "mode"; "contract_generation"; "qualification_policy_version"; "scope_id"; "scope_version"] →
    json_field k expected = json_field k (("breaker_closed", JBool true) :: frozen_versions c id safety)).
  { intros k Hk. assert (Hv : mapping_or_empty frozen "versions" = frozen_versions c id safety) by (unfold mapping_or_empty; by rewrite Hf).
    unfold expected, expected_versions. rewrite Hv.
    repeat (apply elem_of_cons in Hk as [->|Hk]; [destruct (item _ "account_snapshot_fingerprint"); reflexivity|]). by apply not_elem_of_nil in Hk. }
  assert (Hcase : ∀ k current e, (k, current) ∈ current_versions st payload expected →
    k ∈ ["breaker_closed"; "mode"; "contract_generation"; "qualification_policy_version"; "scope_id"; "scope_version"] →
    json_field k (("breaker_closed", JBool true) :: frozen_versions c id safety) = Some e → json_same e current = true).
  { intros k current e Hin Hk Hj. eapply Hall; [exact Hin|]. by rewrite He. }
  assert (Hscope : scope_of st expected = if (id =? "")%string then None else so_scopes st !! id).
  { unfold scope_of. rewrite He by set_solver. reflexivity. }
  destruct (rp_scopes _ _ R) as [Esc Vsc]. rewrite Esc in Hs. destruct (Vsc id s Hs) as (Hid & _ & Hver). rewrite <- Esc in Hs.
  apply String.eqb_neq in Hid. rewrite Hid in Hscope. pose proof (scope_in_contract m c id s Hc Hs) as Hrow.
  destruct (contract_fields m c Hc) as (Em & _). destruct (contract_versions m c Hc) as (Eg & Ep & _).
  rewrite (proj1 (rp_generation _ _ R)) in Eg. rewrite (proj1 (rp_mode _ _ R)) in Em.
  pose proof (f_equal fst (rp_versions _ _ R)) as Ev. simpl in Ev. rewrite Ev in Ep.
  split_and!.
  - assert (Hb := Hcase "breaker_closed" _ (JBool true) ltac:(right; right; right; left) ltac:(set_solver) eq_refl).
    by destruct (ct_breaker_open (so_control st)).
  - rewrite <- Em. apply (Hcase "mode"); [right; right; left|set_solver|done].
  - symmetry. rewrite <- Eg. apply json_same_int, (Hcase "contract_generation"); [left|set_solver|done].
  - symmetry. rewrite <- Ep. apply json_same_int, (Hcase "qualification_policy_version"); [right; left|set_solver|done].
  - assert (Hb := Hcase "scope_version" (jopt (λ s, JInt s.2) (scope_of st expected)) (JInt (sc_scope_version s))
      ltac:(do 8 right; left) ltac:(set_solver)). rewrite Hscope in Hb.
    assert (Hf' : Some (JInt (default 0 (sc_scope_version <$> (snd <$> head (filter (λ s, s.1 = id) (mc_execution_scopes c))))))
      = Some (JInt (sc_scope_version s))) by (by rewrite Hrow).
    specialize (Hb Hf'). destruct (so_scopes st !! id) as [t|]; simpl in Hb.
    + exists t. split; [done|]. symmetry. by apply json_same_int.
    + exfalso. unfold json_same in Hb. apply String.eqb_eq in Hb. change (pretty (sc_scope_version s) = "null") in Hb.
      revert Hb Hver. clear. intros Hb Hver. destruct (str_Z_digits (sc_scope_version s)) as (Hd & _ & _); [lia|].
      unfold str_Z in Hd. rewrite Hb in Hd. done.
Qed.
End admission.

(** ** The queue *)

(** [QUEUE_LIMIT] of [confirm_enqueue] *)
Definition QUEUE_LIMIT : Z := 5.

Record queue_ok (q : RequestQueue) : Prop := {
  qo_order : StronglySorted Z.lt (er_fifo_index <$> qu_rows q);
  qo_last : Forall (λ r, er_fifo_index r ≤ qu_last_index q) (qu_rows q);
  qo_ids : NoDup (er_request_id <$> qu_rows q);
  qo_keys : NoDup (er_idempotency_key <$> qu_rows q);
  qo_components : NoDup (er_component_id <$> filter (λ r, pending r = true) (qu_rows q));
  qo_limit : Z.of_nat (length (filter (λ r, pending r = true) (qu_rows q))) ≤ QUEUE_LIMIT;
}.

Inductive QueueOp :=
  | Enqueue (component_id idempotency_key : string) (payload : list (string * json)) (id : string) (now : Z)
  | UpdateRequest (request_id : string) (state abandon_reason : option string) (payload : list (string * json)) (now : Z)
  | AbandonPending (reason : string) (now : Z).

(** The queue after an operation; an exception rolls it back. *)
Definition run_queue (q : RequestQueue) (op : QueueOp) : RequestQueue :=
  let keep {A} (r : res (RequestQueue * A)) := match r with Ok (q', _) => q' | Err _ => q end in
  match op with
  | Enqueue component key payload id now => keep (n_leg_request_enqueue q component key payload QUEUE_LIMIT id now)
  | UpdateRequest id state reason payload now => keep (n_leg_request_update q id state reason payload now)
  | AbandonPending reason now => keep (n_leg_requests_abandon_pending q reason now)
  end.

(** No caller sets a request back to PENDING. *)
Definition no_reopen (op : QueueOp) : Prop :=
  match op with UpdateRequest _ (Some s) _ _ _ => s ≠ "PENDING" | _ => True end.

Lemma StronglySorted_snoc (l : list Z) (x : Z) :
  StronglySorted Z.lt l → Forall (λ y, y < x) l → StronglySorted Z.lt (l ++ [x]).
Proof.
  induction 1 as [|y l Hl IH Hy]; intros Hx; simpl; [constructor; constructor|]. apply Forall_cons in Hx as [Hyx Hx].
  constructor; [auto|]. apply Forall_app. split; [done|]. by apply Forall_singleton.
Qed.

(** Changes of single rows that open none. *)
Lemma queue_ok_map f q :
  queue_ok q →
  (∀ r, r ∈ qu_rows q → er_request_id (f r) = er_request_id r ∧ er_fifo_index (f r) = er_fifo_index r ∧
    er_idempotency_key (f r) = er_idempotency_key r ∧ er_component_id (f r) = er_component_id r ∧
    (pending (f r) = true → pending r = true)) →
  queue_ok {| qu_rows := f <$> qu_rows q; qu_last_index := qu_last_index q |}.
Proof.
  intros [Ho Hl Hi Hk Hc Hn] Hf.
  assert (Hsame : ∀ {A} (g : Request → A), (∀ r, r ∈ qu_rows q → g (f r) = g r) → g <$> (f <$> qu_rows q) = g <$> qu_rows q).
  { intros A g Hg. rewrite <- list_fmap_compose. apply list_fmap_ext. intros i r Hr. apply Hg. by eapply list_elem_of_lookup_2. }
  assert (Hsub : er_component_id <$> filter (λ r, pending r = true) (f <$> qu_rows q)
    `sublist_of` er_component_id <$> filter (λ r, pending r = true) (qu_rows q)).
  { clear -Hf. induction (qu_rows q) as [|r l IH]; [done|]. simpl. rewrite !filter_cons.
    destruct (Hf r ltac:(left)) as (_ & _ & _ & Ec & Hp). assert (IH' := IH ltac:(intros; apply Hf; by right)).
    destruct (decide (pending (f r) = true)) as [E|E].
    - rewrite decide_True by auto. simpl. rewrite Ec. by constructor.
    - destruct (decide (pending r = true)); [by constructor|done]. }
  split; simpl.
  - rewrite Hsame; [done|]. intros r Hr. apply Hf, Hr.
  - rewrite Forall_fmap. rewrite !Forall_forall in *. intros r Hr. simpl. destruct (Hf r Hr) as (_ & -> & _). auto.
  - rewrite Hsame; [done|]. intros r Hr. apply Hf, Hr.
  - rewrite Hsame; [done|]. intros r Hr. apply Hf, Hr.
  - by eapply sublist_NoDup.
  - apply sublist_length in Hsub. rewrite !length_fmap in Hsub. lia.
Qed.

Lemma enqueue_ok q component key payload id now :
  queue_ok q →
  match n_leg_request_enqueue q component key payload QUEUE_LIMIT id now with
  | Ok (q', r) => queue_ok q' ∧ r ∈ qu_rows q' ∧ er_idempotency_key r = key ∧ qu_rows q `prefix_of` qu_rows q'
  | Err _ => True
  end.
Proof.
  intros Hq. unfold n_leg_request_enqueue.
  destruct (component =? "")%string; [exact I|]. destruct (key =? "")%string; [exact I|]. cbn [negb require mbind res_bind].
  change (1 <=? QUEUE_LIMIT) with true. cbn [require mbind res_bind].
  destruct (head (filter _ (qu_rows q))) as [r|] eqn:Eh.
  { apply head_Some_elem_of, list_elem_of_filter in Eh as [E Hr]. by split_and!. }
  destruct (existsb _ (filter _ _)) eqn:Ec; [exact I|]. cbn [negb require mbind res_bind]. destruct (_ <? _) eqn:El; [|exact I].
  cbn [require mbind res_bind]. destruct (existsb _ (qu_rows q)) eqn:Ei; [exact I|]. cbn [negb require mbind res_bind].
  apply not_true_iff_false in Ec, Ei. rewrite existsb_exists in Ec, Ei. apply Z.ltb_lt in El. destruct Hq as [Ho Hl Hi Hk Hc Hn].
  set (row := {| er_request_id := id |}). split_and!; [|simpl; set_solver|done|by eexists]. split; simpl; rewrite ?filter_app, ?fmap_app.
  - apply StronglySorted_snoc; [done|]. apply Forall_fmap. rewrite !Forall_forall in *. intros r Hr. specialize (Hl r Hr). simpl. lia.
  - apply Forall_app. split; [|by apply Forall_singleton]. rewrite !Forall_forall in *. intros r Hr. specialize (Hl r Hr). lia.
  - apply NoDup_app. split_and!; [done| |apply NoDup_singleton]. intros x (r & -> & Hr)%list_elem_of_fmap E%list_elem_of_singleton.
    apply Ei. exists r. split; [by apply list_elem_of_In|]. by apply String.eqb_eq.
  - apply NoDup_app. split_and!; [done| |apply NoDup_singleton]. intros x (r & -> & Hr)%list_elem_of_fmap E%list_elem_of_singleton.
    by destruct (head_filter_None _ _ Eh r Hr).
  - apply NoDup_app. split_and!; [done| |apply NoDup_singleton]. intros x (r & -> & Hr)%list_elem_of_fmap E%list_elem_of_singleton.
    apply Ec. exists r. split; [by apply list_elem_of_In|]. by apply String.eqb_eq.
  - rewrite length_app. simpl. lia.
Qed.

Lemma run_queue_ok q op : queue_ok q → no_reopen op → queue_ok (run_queue q op).
Proof.
  intros Hq Hop. destruct op as [component key payload id now|id state reason payload now|reason now]; simpl.
  - pose proof (enqueue_ok q component key payload id now Hq) as He. destruct (n_leg_request_enqueue _ _ _ _ _ _ _) as [[q' r]|]; [apply He|done].
  - unfold n_leg_request_update. destruct (match state with Some _ => _ | None => true end); [|done].
    cbn [require mbind res_bind]. destruct (head _) as [row|] eqn:Eh; [|done].
    cbn [of_option mbind res_bind]. apply head_Some_elem_of, list_elem_of_filter in Eh as [<- Hrow]. apply queue_ok_map; [done|].
    intros r Hr. destruct (er_request_id r =? er_request_id row)%string eqn:E; [|done]. apply String.eqb_eq in E.
    assert (r = row) as -> by (by apply (NoDup_key_eq er_request_id (qu_rows q)); [apply (qo_ids _ Hq)|..]).
    split_and!; try done. unfold pending. simpl. destruct state as [s|]; simpl; [|done]. intros E'%String.eqb_eq. done.
  - unfold n_leg_requests_abandon_pending. destruct (reason =? "")%string; [done|]. cbn [negb require mbind res_bind]. apply queue_ok_map; [done|].
    intros r Hr. destruct (pending r) eqn:E; split_and!; try done; simpl; congruence.
Qed.

Lemma run_queue_from ops q : queue_ok q → Forall no_reopen ops → queue_ok (foldl run_queue q ops).
Proof.
  revert q. induction ops as [|op ops IH]; intros q Hq Hops; [done|]. apply Forall_cons in Hops as [Hop Hops]. simpl.
  apply IH; [by apply run_queue_ok|done].
Qed.

(** What a row never changes. *)
Definition request_identity (r : Request) : string * Z * string * string * Z :=
  (er_request_id r, er_fifo_index r, er_idempotency_key r, er_component_id r, er_created_at r).
Abbreviation identities q := (request_identity <$> qu_rows q).

Lemma fmap_identities f (l : list Request) :
  (∀ r, r ∈ l → request_identity (f r) = request_identity r) → request_identity <$> (f <$> l) = request_identity <$> l.
Proof.
  intros Hf. rewrite <- list_fmap_compose. apply list_fmap_ext. intros i r Hr. apply Hf. by eapply list_elem_of_lookup_2.
Qed.

(** No operation drops a row, reorders rows or changes an identity. *)
Lemma run_queue_identities q op : queue_ok q → identities q `prefix_of` identities (run_queue q op).
Proof.
  intros Hq. destruct op as [component key payload id now|id state reason payload now|reason now]; simpl.
  - pose proof (enqueue_ok q component key payload id now Hq) as He.
    destruct (n_leg_request_enqueue _ _ _ _ _ _ _) as [[q' r]|]; [|done]. destruct He as (_ & _ & _ & l & ->). rewrite fmap_app. by eexists.
  - unfold n_leg_request_update. destruct (match state with Some _ => _ | None => true end); [|done].
    cbn [require mbind res_bind]. destruct (head _) as [row|] eqn:Eh; [|done]. cbn [of_option mbind res_bind qu_rows].
    apply head_Some_elem_of, list_elem_of_filter in Eh as [<- Hrow]. rewrite fmap_identities; [done|]. intros r Hr.
    destruct (er_request_id r =? er_request_id row)%string eqn:E; [|done]. apply String.eqb_eq in E.
    by rewrite (NoDup_key_eq er_request_id (qu_rows q) r row (qo_ids _ Hq) Hr Hrow E).
  - unfold n_leg_requests_abandon_pending. destruct (reason =? "")%string; [done|]. cbn [negb require mbind res_bind qu_rows].
    rewrite fmap_identities; [done|]. intros r _. by destruct (pending r).
Qed.

Lemma identities_kept ops q : queue_ok q → Forall no_reopen ops → identities q `prefix_of` identities (foldl run_queue q ops).
Proof.
  revert q. induction ops as [|op ops IH]; intros q Hq Hops; [done|]. apply Forall_cons in Hops as [Hop Hops]. simpl.
  etrans; [by apply run_queue_identities|]. apply IH; [by apply run_queue_ok|done].
Qed.

Lemma prefix_elem {A} (l k : list A) x : l `prefix_of` k → x ∈ l → x ∈ k.
Proof. intros [l' ->]. set_solver. Qed.

(** The head of the queue is its oldest pending request. *)
Lemma queue_head_oldest q r : queue_ok q → n_leg_request_head q = Some r →
  r ∈ qu_rows q ∧ pending r = true ∧ ∀ r', r' ∈ qu_rows q → pending r' = true → er_fifo_index r ≤ er_fifo_index r'.
Proof.
  intros [Ho _ _ _ _ _]. unfold n_leg_request_head. revert Ho. induction (qu_rows q) as [|x l IH]; [done|]. simpl.
  intros [Hs Hx]%StronglySorted_inv. rewrite filter_cons. destruct (decide (pending x = true)) as [E|E].
  - intros [= <-]. split_and!; [left|done|]. intros r' [->|Hr']%elem_of_cons _; [lia|]. rewrite Forall_fmap, Forall_forall in Hx.
    specialize (Hx r' Hr'). simpl in Hx. lia.
  - intros Hh. destruct (IH Hs Hh) as (I1 & I2 & I3). split_and!; [by right|done|]. intros r' [->|Hr']%elem_of_cons Hp; [done|auto].
Qed.
