(* ===== verification/Preflight.v ===== *)
(** * Preflight of a frozen solution

    [cost_slices_from_book] ([src/open_trader/prediction_market_solution.py])
    prices a live order book as the slices of an action, the taker fee
    included.  [preflight] ([src/open_trader/prediction_n_leg_preflight.py])
    prices the frozen quantities on fresh books again, just before a batch is
    admitted, and checks quote ages, skew, sequences, depth, the qualification
    policy, the cap and the price bounds. *)

From Stdlib Require Import Ascii.
From S2P Require Import Prelude PyValue NLeg NLegForms NLegValidate IsoFormat Decode Decimal Quotes FillProof Receipts BatchStore Lifecycle Mode.
Local Open Scope Z_scope.

(** ** Live books *)

Record LegBook := {
  lb_bids : list BookLevel;
  lb_asks : list BookLevel;
  lb_taker_fee_bps : option decimal;
  lb_available : bool;
  lb_book_convention : string;
}.

Record SnapshotLeg := {
  sl_leg_id : string;
  sl_book : LegBook;
  sl_received_at : option datetime;
  sl_exchange_time : option datetime;
  sl_sequence : option Z;
}.

Record ComponentSnapshot := { cs_component_id : string; cs_legs : list SnapshotLeg }.

Definition GENERIC_BOOK_CONVENTION : string := "generic".
Definition OUTCOME_TOKEN_BOOK_CONVENTION : string := "outcome-token".

(** ** [cost_slices_from_book] *)

(** The keyword arguments. *)
Record SliceTerms := {
  st_fee_ppm : Z;
  st_haircut_ppm : Z;
  st_tick_units : Z;
  st_price_units_per_quote_unit : Z;
  st_common_units_per_dollar : option Z;
}.

Definition slice_terms (price_units : Z) : SliceTerms := {|
  st_fee_ppm := 0; st_haircut_ppm := 0; st_tick_units := 0; st_price_units_per_quote_unit := price_units;
  st_common_units_per_dollar := None |}.

Definition common_units (t : SliceTerms) : Z := default (st_price_units_per_quote_unit t) (st_common_units_per_dollar t).

(** The levels that an order of the action takes. *)
Definition book_side (a : CandidateAction) (b : LegBook) : res (list BookLevel) :=
  let convention := lb_book_convention b in
  if (convention =? OUTCOME_TOKEN_BOOK_CONVENTION)%string then Ok (lb_asks b)
  else if (convention =? GENERIC_BOOK_CONVENTION)%string
  then Ok (match ca_side a with BUY_NO => lb_bids b | BUY_YES => lb_asks b end)
  else Err (ValueError ("unsupported book convention: " +:+ convention)).

(** A finite positive fee, as an exact fraction; anything else is no fee. *)
Definition fee_rate (b : LegBook) : option (Z * Z) :=
  match lb_taker_fee_bps b with
  | Some (Finite false c e) => if 0 <? c then Some (c * up e, down e * 10000) else None
  | _ => None
  end.

(** [_ceil_div] *)
Definition checked_ceil_div (value divisor : Z) : res Z :=
  require (negb (divisor =? 0)) ZeroDivisionError;; Ok (ceil_div value divisor).

(** [_ceil_fraction(n / d)] *)
Definition ceil_fraction (n d : Z) : Z := - ((- n) `div` d).

(** The fee of a lot at the price [protected], rounded up once. *)
Definition taker_fee (rate : option (Z * Z)) (a : CandidateAction) (t : SliceTerms) (protected : Z) : Z :=
  let u := st_price_units_per_quote_unit t in
  match rate with
  | None => 0
  | Some (n, d) =>
      ceil_fraction (n * protected * (u - protected) * ca_lot_step_units a * common_units t) (d * u * ca_quantity_scale a * u)
  end.

Definition protected_price (t : SliceTerms) (level : BookLevel) : res Z :=
  x ← times (lv_price level) (st_price_units_per_quote_unit t);
  price ← integer_ceiling x;
  Ok (price + st_tick_units t).

(** The cost of a lot at the price [protected]. *)
Definition slice_unit_cost (a : CandidateAction) (rate : option (Z * Z)) (t : SliceTerms) (protected : Z) : res Z :=
  venue_cost ← checked_ceil_div (protected * ca_lot_step_units a) (ca_quantity_scale a);
  common_cost ← checked_ceil_div (venue_cost * common_units t) (st_price_units_per_quote_unit t);
  let fee := ceil_div (common_cost * st_fee_ppm t) PPM in
  let taker := taker_fee rate a t protected in
  let haircut := ceil_div ((common_cost + fee + taker) * st_haircut_ppm t) PPM in
  Ok (common_cost + fee + taker + haircut).

(** The slices so far, the last one first: a slice that continues the last one
    at the same cost is merged into it. *)
Definition push_slice (slices : list ExecutableCostSlice) (first last cost : Z) : list ExecutableCostSlice :=
  let s f := {| first_lot := f; last_lot := last; incremental_cost_upper_bound_units := cost |} in
  match slices with
  | p :: rest =>
      if (incremental_cost_upper_bound_units p =? cost) && (last_lot p + 1 =? first) then s (first_lot p) :: rest
      else s first :: slices
  | [] => [s first]
  end.

Fixpoint book_slices (a : CandidateAction) (rate : option (Z * Z)) (t : SliceTerms) (slices : list ExecutableCostSlice)
    (first : Z) (levels : list BookLevel) : res (list ExecutableCostSlice) :=
  match levels with
  | [] => Ok (reverse slices)
  | level :: levels =>
      valid ← valid_level level;
      require valid (ValueError "malformed book level");;
      lots ← level_lots a level;
      if lots <=? 0 then book_slices a rate t slices first levels
      else
        protected ← protected_price t level;
        cost ← slice_unit_cost a rate t protected;
        let last := Z.min (ca_max_quantity_lots a) (first + lots - 1) in
        let slices := push_slice slices first last cost in
        if last =? ca_max_quantity_lots a then Ok (reverse slices) else book_slices a rate t slices (last + 1) levels
  end.

Definition cost_slices_from_book (a : CandidateAction) (b : LegBook) (t : SliceTerms) : res (list ExecutableCostSlice) :=
  levels ← book_side a b;
  book_slices a (fee_rate b) t [] 1 levels.

(** ** Reading the frozen request *)

(** [int(text)]: blanks around, a sign, digits with single underscores between. *)
Fixpoint int_digits (acc : Z) (after_digit : bool) (s : string) : option Z :=
  match s with
  | EmptyString => if after_digit then Some acc else None
  | String c s =>
      if Ascii.eqb c "_"%char then (if after_digit then int_digits acc false s else None)
      else d ← digit c; int_digits (acc * 10 + d) true s
  end.
(** A text of more than 4300 digits is refused. *)
Definition int_of_text (text : string) : option Z :=
  let '(negative, s) := take_sign (strip text) in
  if Z.of_nat (String.length (without "_" s)) <=? 4300 then signed negative <$> int_digits 0 false s else None.

(** [int(value)]; [None] is a [TypeError] or a [ValueError]. *)
Definition int_of_json (v : json) : option Z :=
  match v with
  | JInt n => Some n
  | JBool b => Some (Z.b2z b)
  | JStr s => int_of_text s
  | JNull | JArr _ | JObj _ => None
  end.

(** [_int_or_zero] *)
Definition int_or_zero (v : json) : Z := default 0 (int_of_json v).

(** [_config_int] *)
Definition config_int (config : list (string * json)) (key : string) (def : Z) : Z :=
  match json_field key config with
  | None => def
  | Some v => match int_of_json v with Some n => if 0 <? n then n else def | None => def end
  end.

(** [bool(value)] *)
Definition truthy (v : json) : bool :=
  match v with
  | JNull => false
  | JBool b => b
  | JInt n => negb (n =? 0)
  | JStr s => negb (s =? "")%string
  | JArr l => negb (Nat.eqb (length l) 0)
  | JObj fields => negb (Nat.eqb (length fields) 0)
  end.

(** [str(value or "")]; the text of a list or a mapping stands for its [repr]. *)
Definition text_or_empty (v : json) : string :=
  if truthy v then match v with JStr s => s | JBool _ => "True" | v => json_dumps v end else "".

(** [int(value or 0)] *)
Definition int_or_raise (v : json) : res Z :=
  if truthy v
  then of_option (match v with
                  | JStr s => ValueError ("invalid literal for int() with base 10: '" +:+ s +:+ "'")
                  | _ => TypeError
                  end) (int_of_json v)
  else Ok 0.

(** The quantities of one block, if it has rows. *)
Definition block_quantities (payload : list (string * json)) : res (gmap string Z) :=
  match json_field "quantities" payload with
  | Some (JArr rows) =>
      entries ← mapM (λ row, lots ← int_or_raise (item row "quantity_lots"); Ok (text_or_empty (item row "action_id"), lots))
                     (omap (λ row, match row with JObj fields => Some fields | _ => None end) rows);
      Ok (py_dict entries)
  | _ => Ok ∅
  end.

(** [_frozen_quantities] *)
Definition frozen_quantities (frozen : list (string * json)) : res (gmap string Z) :=
  execution ← block_quantities (mapping_or_empty frozen "execution");
  if bool_decide (execution = ∅) then block_quantities (mapping_or_empty frozen "market") else Ok execution.

(** ** The cost of a leg *)

(** The loop of [_leg_cost]: the cost and the lots covered so far. *)
Fixpoint leg_cost_loop (quantity_lots total covered : Z) (slices : list ExecutableCostSlice) : Z * Z :=
  match slices with
  | [] => (total, covered)
  | s :: slices =>
      let lots := Z.min quantity_lots (last_lot s) - Z.max 1 (first_lot s) + 1 in
      let '(total, covered) :=
        if 0 <? lots then (total + lots * incremental_cost_upper_bound_units s, covered + lots) else (total, covered) in
      if quantity_lots <=? covered then (total, covered) else leg_cost_loop quantity_lots total covered slices
  end.

(** [_leg_cost]: the cost, and whether the book is deep enough. *)
Definition leg_cost (b : LegBook) (a : CandidateAction) (quantity_lots units : Z) : res (Z * bool) :=
  slices ← cost_slices_from_book a b (slice_terms units);
  let '(total, covered) := leg_cost_loop quantity_lots 0 0 slices in
  Ok (total, quantity_lots <=? covered).

(** ** The report *)

(** A value of a check or of the report; seconds are kept in microseconds,
    exact while the float of the source is, and the text of the economics is
    its margin and its days. *)
Inductive report_value :=
  | VNone
  | VInt (n : Z)
  | VText (s : string)
  | VSeconds (us : Z)
  | VAges (ages : list (string * Z))
  | VSequences (sequences : list (string * Z))
  | VEconomics (margin : decimal) (days : Z).

Record CheckRow := {
  ck_key : string;
  ck_passed : bool;
  ck_value : report_value;
  ck_threshold : report_value;
}.

Definition row (key : string) (passed : bool) (value threshold : report_value) : CheckRow :=
  {| ck_key := key; ck_passed := passed; ck_value := value; ck_threshold := threshold |}.

Record Preflight := {
  pf_ok : bool;
  pf_reason : string;
  pf_checks : list CheckRow;
  pf_fresh_cost_units : report_value;
  pf_net_profit_units : report_value;
}.

(** [_fail] *)
Definition failed (checks : list CheckRow) (reason : string) (fresh_cost net_profit : report_value) : Preflight := {|
  pf_ok := false; pf_reason := reason; pf_checks := checks; pf_fresh_cost_units := fresh_cost;
  pf_net_profit_units := net_profit |}.

(** ** The gates *)

(** [a - b]: a naive and an aware datetime do not subtract. *)
Definition elapsed (a b : datetime) : res Z :=
  require (Bool.eqb (is_none (dt_offset a)) (is_none (dt_offset b))) TypeError;; Ok (dt_us a - dt_us b).

Definition quote_age (now : datetime) (leg : SnapshotLeg) : res (option Z) :=
  match sl_received_at leg with
  | None => Ok None
  | Some t => age ← elapsed now t; Ok (Some age)
  end.

Definition stale (max_age : Z) (age : option Z) : bool :=
  match age with None => true | Some us => (us <? 0) || (max_age * US_PER_SECOND <? us) end.

(** [max(exchange_times) - min(exchange_times)], when every leg has one. *)
Definition cross_leg_skew (legs : list SnapshotLeg) : res (option Z) :=
  let times := omap sl_exchange_time legs in
  if negb (Nat.eqb (length times) (length legs)) then Ok None
  else match times with
       | [] => Ok None
       | t :: rest =>
           require (forallb (λ t', Bool.eqb (is_none (dt_offset t)) (is_none (dt_offset t'))) rest) TypeError;;
           Ok (Some (foldr Z.max (dt_us t) (dt_us <$> rest) - foldr Z.min (dt_us t) (dt_us <$> rest)))
       end.

Inductive sequence_status := Missing | Regressed (sequence baseline : Z) | Current (sequence : Z).

Definition sequence_of (frozen_sequences : list (string * json)) (leg : string * SnapshotLeg) : sequence_status :=
  match sl_sequence leg.2 with
  | None => Missing
  | Some n =>
      if n <? 0 then Missing
      else match json_field leg.1 frozen_sequences with
           | Some (JInt baseline) => if n <? baseline then Regressed n baseline else Current n
           | _ => Current n
           end
  end.

Definition sequence_row (id : string) (s : sequence_status) : option CheckRow :=
  match s with
  | Missing => Some (row "sequence" false (VText id) (VText "present+monotonic"))
  | Regressed n baseline => Some (row "sequence" false (VInt n) (VInt baseline))
  | Current _ => None
  end.

(** One frozen quantity: whether the books are deep enough so far, the cost,
    and the failed rows. *)
Definition depth_step (legs : gmap string SnapshotLeg) (actions : gmap string CandidateAction) (units : Z)
    (acc : bool * Z * list CheckRow) (q : string * Z) : res (bool * Z * list CheckRow) :=
  let '(deep, cost, checks) := acc in
  let short := row "depth" false (VText q.1) (VInt q.2) in
  match legs !! q.1, actions !! q.1 with
  | Some leg, Some a =>
      if q.2 <=? 0 then Ok (false, cost, checks ++ [short])
      else
        '(leg_total, covered) ← leg_cost (sl_book leg) a q.2 units;
        Ok (deep && covered, cost + leg_total, if covered : bool then checks else checks ++ [short])
  | _, _ => Ok (false, cost, checks ++ [short])
  end.

(** The actions of the frozen problem; a payload that does not decode has none. *)
Definition frozen_actions (market : list (string * json)) : res (gmap string CandidateAction) :=
  match json_field "problem" market with
  | Some (JObj fields) =>
      match problem_from_payload (JObj fields) false with
      | Ok p => Ok (index_by ca_action_id (pb_actions p))
      | Err (TypeError | ValueError _) => Ok ∅
      | Err e => Err e
      end
  | _ => Ok ∅
  end.

(** *** Qualification *)

(** [_decimal_or_none] *)
Definition decimal_or_none (v : json) : option decimal :=
  match v with
  | JStr s => decimal_of_string s
  | JInt n => Some (Finite (n <? 0) (Z.abs n) 0)
  | JNull | JBool _ | JArr _ | JObj _ => None
  end.

(** [a < b] *)
Definition decimal_ltb (a b : decimal) : res bool :=
  match a, b with
  | NaN _ _ _, _ | _, NaN _ _ _ => Err InvalidOperation
  | Finite _ _ _, Finite _ _ _ => Ok (finite_ltb a b)
  | Infinite negative, Infinite negative' => Ok (negative && negb negative')
  | Infinite negative, Finite _ _ _ => Ok negative
  | Finite _ _ _, Infinite negative => Ok (negb negative)
  end.

(** [DecimalMargin] *)
Definition decimal_margin (numerator denominator : Z) : res decimal :=
  divided (Finite (numerator <? 0) (Z.abs numerator) 0) denominator.

(** [value.replace("Z", "+00:00")] *)
Fixpoint replace_Z (s : string) : string :=
  match s with
  | String c s => if Ascii.eqb c "Z"%char then "+00:00" +:+ replace_Z s else String c (replace_Z s)
  | EmptyString => EmptyString
  end.

(** [_parse_release_at] *)
Definition parse_release_at (v : json) : option datetime :=
  match v with
  | JStr s => d ← fromisoformat (replace_Z s); if is_none (dt_offset d) then None else Some d
  | _ => None
  end.

(** The whole days until the release, at least one. *)
Definition release_days (elapsed_us : Z) : Z := Z.max 1 (- ((- elapsed_us) `div` US_PER_DAY)).

(** [_qualification_check] *)
Definition qualification_check (policy : list (string * json)) (net_profit_units payout_units : Z)
    (market : list (string * json)) (now : datetime) : res (bool * report_value) :=
  let no reason := Ok (false, VText reason) in
  match decimal_or_none (item policy "min_profit_usd") with
  | None => no "min_profit"
  | Some min_profit =>
      x ← times min_profit USD_UNITS_PER_DOLLAR;
      floor ← to_integer Z.quot x;
      if net_profit_units <? floor then no "min_profit"
      else match decimal_or_none (item policy "min_net_margin") with
           | None => no "net_margin"
           | Some min_margin =>
               if payout_units <=? 0 then no "net_margin"
               else
                 margin ← decimal_margin net_profit_units payout_units;
                 low ← decimal_ltb margin min_margin;
                 if low : bool then no "net_margin"
                 else match parse_release_at (item market "capital_release_at") with
                      | None => no "capital_release"
                      | Some release_at =>
                          delay ← elapsed release_at now;
                          if delay <=? 0 then no "capital_release"
                          else
                            let days := release_days delay in
                            if match item policy "max_capital_release_days" with JInt m => m <? days | _ => true end
                            then no "capital_release"
                            else match decimal_or_none (item policy "min_annualized_return") with
                                 | None => no "annualized_return"
                                 | Some min_annualized =>
                                     y ← times margin 365;
                                     annualized ← divided y days;
                                     short ← decimal_ltb annualized min_annualized;
                                     if short : bool then no "annualized_return" else Ok (true, VEconomics margin days)
                                 end
                      end
           end
  end.

(** *** [preflight] *)

(** What the frozen solution promises, and its units. *)
Definition frozen_payout (market : list (string * json)) : Z := int_or_zero (item market "bounded_payout_units").
Definition proven_bound (market : list (string * json)) : Z := int_or_zero (item market "bounded_cost_units").
Definition frozen_executed (market execution : list (string * json)) : Z :=
  int_or_zero (match json_field "capital_use_units" execution with Some v => v | None => item market "bounded_cost_units" end).
Definition units_per_dollar (market : list (string * json)) : Z :=
  let units := int_or_zero (item market "component_usd_units_per_dollar") in
  if units =? 0 then USD_UNITS_PER_DOLLAR else units.

(** The gates after the depth: fees, qualification, cap and price bounds. *)
Definition price_gates (market execution safety_config policy : list (string * json)) (fee_known : bool) (now : datetime)
    (checks : list CheckRow) (fresh_cost : Z) : res Preflight :=
  let checks := checks ++ [row "fee_known" fee_known (VInt fresh_cost) (VText "modeled")] in
  if negb fee_known then Ok (failed checks "FEE_UNKNOWN" (VInt fresh_cost) VNone)
  else
    let payout := frozen_payout market in
    let executed := frozen_executed market execution in
    let bound := proven_bound market in
    let net_profit := payout - fresh_cost in
    '(qualified, value) ← qualification_check policy net_profit payout market now;
    let checks := checks ++ [row "qualification" qualified (VInt net_profit) value] in
    if negb qualified then Ok (failed checks "NOT_QUALIFIED" (VInt fresh_cost) (VInt net_profit))
    else
      let cap := config_int safety_config "max_per_trade_cost_units" 0 in
      let cap_ok := (cap <=? 0) || (fresh_cost <=? cap) in
      let checks := checks ++ [row "per_trade_cap" cap_ok (VInt fresh_cost) (if cap =? 0 then VNone else VInt cap)] in
      if negb cap_ok then Ok (failed checks "PER_TRADE_CAP_EXCEEDED" (VInt fresh_cost) (VInt cap))
      else
        let passed reason checks := {|
          pf_ok := true; pf_reason := reason; pf_checks := checks; pf_fresh_cost_units := VInt fresh_cost;
          pf_net_profit_units := VInt net_profit |} in
        if fresh_cost <=? executed
        then Ok (passed "PASS" (checks ++ [row "price_bounds" true (VInt fresh_cost) (VInt bound)]))
        else
          let within_bound := (fresh_cost <=? bound) && (0 <=? net_profit) in
          let checks := checks ++ [row "price_bounds" within_bound (VInt fresh_cost) (VInt bound)] in
          if within_bound then Ok (passed "PRICE_WITHIN_BOUNDS" checks)
          else Ok (failed checks "PRICE_BEYOND_BOUND" (VInt fresh_cost) (VInt bound)).

Definition preflight (frozen : list (string * json)) (fresh_books : ComponentSnapshot)
    (safety_config policy : list (string * json)) (now : datetime) : res Preflight :=
  let market := mapping_or_empty frozen "market" in
  let execution := mapping_or_empty frozen "execution" in
  let legs := index_by sl_leg_id (cs_legs fresh_books) in
  let items := sort_on fst (map_to_list legs) in
  quantities ← frozen_quantities frozen;
  let max_age := config_int safety_config "max_quote_age_seconds" 10 in
  let max_skew := config_int safety_config "max_cross_leg_skew_seconds" 5 in
  ages ← mapM (λ l, age ← quote_age now l.2; Ok (l.1, age)) items;
  let checks := (λ l, row "quote_age" false (VText l.1) (VInt max_age)) <$> filter (λ l, stale max_age l.2 = true) ages in
  if existsb (λ l, stale max_age l.2) ages
  then Ok (failed checks "QUOTE_STALE" (VAges (omap (λ l, (λ us, (l.1, us)) <$> l.2) ages)) VNone)
  else
    skew ← cross_leg_skew (snd <$> items);
    let skew_value := match skew with Some us => VSeconds us | None => VNone end in
    let skew_ok := match skew with Some us => us <=? max_skew * US_PER_SECOND | None => false end in
    let checks := checks ++ [row "cross_leg_skew" skew_ok skew_value (VInt max_skew)] in
    if negb skew_ok then Ok (failed checks "CROSS_LEG_SKEW" skew_value (VInt max_skew))
    else
      let statuses := (λ l, (l.1, sequence_of (mapping_or_empty frozen "sequences") l)) <$> items in
      let checks := checks ++ omap (λ l, sequence_row l.1 l.2) statuses in
      let sequences := VSequences (omap (λ l, match l.2 with Current n => Some (l.1, n) | _ => None end) statuses) in
      if existsb (λ l, match l.2 with Missing => true | _ => false end) statuses
      then Ok (failed checks "SEQUENCE_MISSING" sequences VNone)
      else if existsb (λ l, match l.2 with Regressed _ _ => true | _ => false end) statuses
      then Ok (failed checks "SEQUENCE_REGRESSED" sequences VNone)
      else
        actions ← frozen_actions market;
        let covered := negb (bool_decide (quantities = ∅)) && bool_decide (dom quantities = dom legs) in
        '(deep, fresh_cost, checks) ←
          foldM (depth_step legs actions (units_per_dollar market)) (covered, 0, checks) (sort_on fst (map_to_list quantities));
        if negb deep
        then Ok (failed checks "DEPTH_EXHAUSTED" (VInt fresh_cost) (VInt (sumZ (snd <$> map_to_list quantities))))
        else
          price_gates market execution safety_config policy
            (forallb (λ l, negb (is_none (lb_taker_fee_bps (sl_book l.2)))) items) now
            (checks ++ [row "depth" true (VInt fresh_cost) (VText "frozen quantities covered")]) fresh_cost.
