(* ===== verification/PreflightCorrect.v ===== *)
(** * What a preflight establishes

    The slices of a live book charge every lot its own level and offer exactly
    the lots of the book; the cost of a lot covers every fill at or below the
    price of its level, with the taker fee; the gates of [preflight] mean what
    [passes] says. *)

From S2P Require Import Prelude PyValue NLeg NLegForms NLegValidate NLegWf OracleScenario IsoFormat Decode DecodeCorrect Decimal DecimalCorrect Quotes QuotesCorrect FillProof Receipts BatchStore Lifecycle Mode Preflight.
Local Open Scope Z_scope.

(** ** Slices under construction *)

Lemma final_lot_snoc prev l s : final_lot prev (l ++ [s]) = last_lot s.
Proof. unfold final_lot. by rewrite last_snoc. Qed.

Lemma contiguous_snoc prev l s :
  contiguous prev (l ++ [s]) ↔ contiguous prev l ∧ first_lot s = final_lot prev l + 1 ∧ first_lot s ≤ last_lot s.
Proof.
  revert prev. induction l as [|c l IH]; intros prev.
  - unfold final_lot. simpl. naive_solver.
  - rewrite final_lot_cons. cbn [app contiguous]. rewrite IH. tauto.
Qed.

Lemma contiguous_le prev l : contiguous prev l → prev ≤ final_lot prev l.
Proof.
  revert prev. induction l as [|c l IH]; intros prev Hc; [done|]. rewrite final_lot_cons. destruct Hc as (? & ? & Hc).
  specialize (IH _ Hc). lia.
Qed.

Lemma lot_cost_snoc prev l s lot : contiguous prev (l ++ [s]) → prev < lot →
  lot_cost (l ++ [s]) lot =
    if lot <=? final_lot prev l then lot_cost l lot else if lot <=? last_lot s then incremental_cost_upper_bound_units s else 0.
Proof.
  revert prev. induction l as [|c l IH]; intros prev Hc Hlot.
  - destruct Hc as (Hf & Hle & _). unfold final_lot, lot_cost, py_next. simpl. destruct (Z.leb_spec lot prev); [lia|].
    destruct (Z.leb_spec (first_lot s) lot); [|lia]. simpl. by destruct (lot <=? last_lot s).
  - rewrite final_lot_cons. destruct Hc as (Hf & Hle & Hc). pose proof (proj1 (contiguous_snoc _ _ _) Hc) as (Hl & _).
    apply contiguous_le in Hl. destruct (decide (lot ≤ last_lot c)).
    + cbn [app]. rewrite !lot_cost_here by lia. destruct (Z.leb_spec lot (final_lot (last_lot c) l)); [done|lia].
    + cbn [app]. rewrite !lot_cost_later by lia. apply IH; [done|lia].
Qed.

(** The slices so far offer the lots before [first]. *)
Definition upto (slices : list ExecutableCostSlice) (first : Z) : Prop :=
  contiguous 0 (reverse slices) ∧ final_lot 0 (reverse slices) = first - 1.

Lemma push_slice_upto slices first last cost : upto slices first → first ≤ last →
  upto (push_slice slices first last cost) (last + 1) ∧
  ∀ lot, 1 ≤ lot ≤ last → lot_cost (reverse (push_slice slices first last cost)) lot =
    if lot <? first then lot_cost (reverse slices) lot else cost.
Proof.
  intros [Hc Hf] Hle. set (s := {| first_lot := first; last_lot := last; incremental_cost_upper_bound_units := cost |}).
  assert (Hnew : upto (s :: slices) (last + 1) ∧
    ∀ lot, 1 ≤ lot ≤ last → lot_cost (reverse (s :: slices)) lot = if lot <? first then lot_cost (reverse slices) lot else cost).
  { unfold upto. rewrite reverse_cons, final_lot_snoc, contiguous_snoc, Hf. simpl. split; [split_and!; (done || lia)|].
    intros lot Hlot. rewrite (lot_cost_snoc 0), Hf; [|apply contiguous_snoc; simpl; rewrite Hf; split_and!; (done || lia)|lia].
    simpl. destruct (Z.leb_spec lot (first - 1)), (Z.ltb_spec lot first), (Z.leb_spec lot last); (done || lia). }
  unfold push_slice. fold s. destruct slices as [|p rest]; [done|]. destruct (_ && _) eqn:E; [|done]. bool_prop.
  clear Hnew. unfold upto in *. rewrite reverse_cons in Hc, Hf. rewrite final_lot_snoc in Hf. rewrite !reverse_cons, final_lot_snoc. apply contiguous_snoc in Hc as Hp.
  destruct Hp as (Hr & Hpf & Hpl). set (m := {| first_lot := first_lot p |}).
  assert (Hm : contiguous 0 (reverse rest ++ [m])) by (apply contiguous_snoc; simpl; split_and!; (done || lia)).
  split; [split; [done|simpl; lia]|]. intros lot Hlot. rewrite (lot_cost_snoc 0 _ m), (lot_cost_snoc 0 _ p) by (done || lia). simpl.
  destruct (Z.leb_spec lot (final_lot 0 (reverse rest))), (Z.ltb_spec lot first), (Z.leb_spec lot last), (Z.leb_spec lot (last_lot p)); (done || lia).
Qed.

(** *** The book as a reference *)

(** The whole lots of a level, and the level that the [lot]-th of them is on. *)
Definition lots_of (a : CandidateAction) (level : BookLevel) : Z :=
  match level_lots a level with Ok n => Z.max 0 n | Err _ => 0 end.
Fixpoint level_at (a : CandidateAction) (levels : list BookLevel) (lot : Z) : option BookLevel :=
  match levels with
  | [] => None
  | level :: levels => if lot <=? lots_of a level then Some level else level_at a levels (lot - lots_of a level)
  end.
Definition depth (a : CandidateAction) (levels : list BookLevel) : Z := sumZ (lots_of a <$> levels).

Lemma depth_nonneg a levels : 0 ≤ depth a levels.
Proof.
  apply sumZ_nonneg, Forall_fmap, Forall_forall. intros level _. unfold lots_of. simpl. destruct (level_lots a level); simpl; lia.
Qed.

(** A lot is charged the cost of its level. *)
Definition charged (a : CandidateAction) (rate : option (Z * Z)) (t : SliceTerms) (level : option BookLevel) (cost : Z) : Prop :=
  ∃ l protected, level = Some l ∧ valid_level l = Ok true ∧ protected_price t l = Ok protected ∧
    slice_unit_cost a rate t protected = Ok cost.

Lemma book_slices_spec a rate t levels : ∀ acc first slices,
  book_slices a rate t acc first levels = Ok slices → upto acc first → 1 ≤ first ≤ ca_max_quantity_lots a →
  contiguous 0 slices ∧ final_lot 0 slices = Z.min (ca_max_quantity_lots a) (first - 1 + depth a levels) ∧
  (∀ lot, 1 ≤ lot < first → lot_cost slices lot = lot_cost (reverse acc) lot) ∧
  ∀ lot, first ≤ lot ≤ final_lot 0 slices → charged a rate t (level_at a levels (lot - first + 1)) (lot_cost slices lot).
Proof.
  induction levels as [|level levels IH]; intros acc first slices; cbn [book_slices].
  { intros [= <-] [Hc Hf] Hfirst. rewrite Hf. unfold depth. simpl. split_and!; [done|lia|done|intros; lia]. }
  intros (valid & Hv & (? & ->%require_Ok & (n & Hn & HR)%bind_Ok)%bind_Ok)%bind_Ok Hu Hfirst.
  assert (El : lots_of a level = Z.max 0 n) by (unfold lots_of; by rewrite Hn).
  assert (Ed : depth a (level :: levels) = Z.max 0 n + depth a levels) by (unfold depth; csimpl; by rewrite El).
  cbn [level_at]. rewrite El, Ed. pose proof (depth_nonneg a levels) as Hd. destruct (Z.leb_spec n 0) as [Hz|Hz].
  { rewrite Z.max_l by lia. destruct (IH _ _ _ HR Hu Hfirst) as (I1 & I2 & I3 & I4). split_and!; [done|lia|done|].
    intros lot Hlot. destruct (Z.leb_spec (lot - first + 1) 0); [lia|]. rewrite Z.sub_0_r. by apply I4. }
  rewrite Z.max_r by lia. apply bind_Ok in HR as (protected & Hp & (cost & Hcost & HR)%bind_Ok).
  set (final := Z.min (ca_max_quantity_lots a) (first + n - 1)) in *.
  destruct (push_slice_upto acc first final cost Hu ltac:(lia)) as [Hu' Hlots].
  assert (Hhere : charged a rate t (Some level) cost) by (by exists level, protected).
  destruct (Z.eqb_spec final (ca_max_quantity_lots a)) as [Ef|Ef].
  - injection HR as <-. destruct Hu' as [Hc Hfin]. split_and!; [done|lia| |].
    + intros lot Hlot. rewrite Hlots by lia. destruct (Z.ltb_spec lot first); [done|lia].
    + intros lot Hlot. rewrite Hlots by lia. destruct (Z.leb_spec (lot - first + 1) n); [|lia]. by destruct (Z.ltb_spec lot first); [lia|].
  - destruct (IH _ _ _ HR Hu' ltac:(lia)) as (I1 & I2 & I3 & I4). split_and!; [done|lia| |].
    + intros lot Hlot. rewrite I3, Hlots by lia. destruct (Z.ltb_spec lot first); [done|lia].
    + intros lot Hlot. destruct (Z.leb_spec (lot - first + 1) n).
      * rewrite I3, Hlots by lia. by destruct (Z.ltb_spec lot first); [lia|].
      * specialize (I4 lot ltac:(lia)). by replace (lot - (final + 1) + 1) with (lot - first + 1 - n) in I4 by lia.
Qed.

(** A book is priced lot by lot: the slices offer its lots up to the maximum
    of the action, and charge each the cost of its own level. *)
Lemma cost_slices_spec a b t slices :
  cost_slices_from_book a b t = Ok slices → 1 ≤ ca_max_quantity_lots a →
  ∃ levels, book_side a b = Ok levels ∧ contiguous 0 slices ∧
    final_lot 0 slices = Z.min (ca_max_quantity_lots a) (depth a levels) ∧
    ∀ lot, 1 ≤ lot ≤ final_lot 0 slices → charged a (fee_rate b) t (level_at a levels lot) (lot_cost slices lot).
Proof.
  intros (levels & Hl & HR)%bind_Ok Hmax. exists levels. apply book_slices_spec in HR as (H1 & H2 & _ & H4); [|done|lia].
  split_and!; [done..|]. intros lot Hlot. specialize (H4 lot Hlot). by replace (lot - 1 + 1) with lot in H4 by lia.
Qed.

Lemma level_at_elem a levels lot level : level_at a levels lot = Some level → level ∈ levels.
Proof.
  revert lot. induction levels as [|l levels IH]; intros lot; simpl; [done|]. destruct (_ <=? _); [intros [= <-]; left|right; eauto].
Qed.

(** ** The cost of a quantity *)

Lemma leg_cost_loop_spec slices : ∀ prev q total,
  contiguous prev slices → 0 ≤ prev < q →
  let n := Z.min q (final_lot prev slices) in
  leg_cost_loop q total prev slices = (total + sumZ (lot_cost slices <$> seqZ (prev + 1) (n - prev)), n).
Proof.
  induction slices as [|s slices IH]; intros prev q total Hc Hq n.
  { unfold n, final_lot. simpl. rewrite Z.min_r, Z.sub_diag by lia. simpl. f_equal; lia. }
  pose proof (contiguous_le _ _ Hc) as Hle. unfold n in *. rewrite final_lot_cons in *. destruct Hc as (Hf & Hs & Hc).
  pose proof (contiguous_le _ _ Hc) as Hle'. cbn [leg_cost_loop]. rewrite Z.max_r by lia.
  set (k := Z.min q (last_lot s)). replace (k - first_lot s + 1) with (k - prev) by lia. destruct (Z.ltb_spec 0 (k - prev)); [|lia].
  assert (Hsum : sumZ (lot_cost (s :: slices) <$> seqZ (prev + 1) (k - prev)) = (k - prev) * incremental_cost_upper_bound_units s).
  { rewrite (sumZ_const _ (incremental_cost_upper_bound_units s)); [rewrite length_seqZ; lia|].
    intros lot Hlot%elem_of_seqZ. apply lot_cost_here. lia. }
  replace (prev + (k - prev)) with k by lia. destruct (Z.leb_spec q k) as [Hk|Hk].
  - replace (Z.min q (final_lot (last_lot s) slices)) with k by lia. rewrite Hsum. f_equal; lia.
  - assert (k = last_lot s) as Ek by lia. rewrite Ek in *. rewrite IH by (done || lia). f_equal.
    set (m := Z.min q (final_lot (last_lot s) slices)). replace (m - prev) with ((last_lot s - prev) + (m - last_lot s)) by lia.
    rewrite seqZ_app, fmap_app, sumZ_app, Hsum by lia. replace (prev + 1 + (last_lot s - prev)) with (last_lot s + 1) by lia.
    rewrite (sumZ_fmap_ext (lot_cost (s :: slices)) (lot_cost slices)); [lia|]. intros lot Hlot%elem_of_seqZ. apply lot_cost_later. lia.
Qed.

(** The book prices [q] lots of the action at [cost]. *)
Definition priced (b : LegBook) (a : CandidateAction) (units q cost : Z) : Prop := ∃ slices,
  cost_slices_from_book a b (slice_terms units) = Ok slices ∧ 1 ≤ q ≤ final_lot 0 slices ∧ cost = lots_cost slices q.

Lemma leg_cost_priced b a q units c : 1 ≤ q → 1 ≤ ca_max_quantity_lots a →
  leg_cost b a q units = Ok (c, true) ↔ priced b a units q c.
Proof.
  intros Hq Hmax. unfold leg_cost, priced. split.
  - intros (slices & Hs & HR)%bind_Ok. exists slices. destruct (cost_slices_spec _ _ _ _ Hs Hmax) as (levels & _ & Hc & _).
    rewrite (leg_cost_loop_spec slices 0 q 0 Hc) in HR by lia. injection HR as <- Hcov. apply Z.leb_le in Hcov.
    split_and!; [done|lia..|]. unfold lots_cost. by replace (Z.min q (final_lot 0 slices) - 0) with q by lia.
  - intros (slices & Hs & Hq' & ->). rewrite Hs. cbn [mbind res_bind]. destruct (cost_slices_spec _ _ _ _ Hs Hmax) as (levels & _ & Hc & _).
    rewrite (leg_cost_loop_spec slices 0 q 0 Hc) by lia. rewrite Z.min_l, Z.sub_0_r, Z.leb_refl by lia. done.
Qed.

(** ** The taker fee *)

(** [x/y] price units of [u], with the fee [n/d], per [y * y] and [d * u]:
    the total [p + n/d * p * (1 - p)] grows with the price [p]. *)
Lemma fee_total_mono n d u y x p :
  0 ≤ n ≤ d → 0 < u → 0 < y → 0 ≤ x ≤ p * y → 0 ≤ p ≤ u →
  x * y * (d * u) + n * x * (u * y - x) ≤ y * y * (p * d * u + n * p * (u - p)).
Proof.
  intros Hn Hu Hy Hx Hp. set (P := p * y). set (U := u * y). assert (HP : P ≤ U) by (apply Z.mul_le_mono_nonneg_r; lia).
  assert (E : y * y * (p * d * u + n * p * (u - p)) - (x * y * (d * u) + n * x * (u * y - x)) = (P - x) * (d * U + n * (U - P - x)))
    by (unfold P, U; ring).
  assert (0 ≤ (P - x) * (d * U + n * (U - P - x))); [|lia]. apply Z.mul_nonneg_nonneg; [lia|].
  assert (n * U ≤ d * U) by (apply Z.mul_le_mono_nonneg_r; lia). assert (0 ≤ n * (U + U - P - x)) by (apply Z.mul_nonneg_nonneg; lia). lia.
Qed.

Lemma ceil_fraction_spec n d : 0 < d → n ≤ ceil_fraction n d * d.
Proof. intros Hd. unfold ceil_fraction. rewrite ceil_div_opp by done. pose proof (ceil_div_spec n d Hd). lia. Qed.

Lemma fee_rate_pos b n d : fee_rate b = Some (n, d) → 0 < n ∧ 0 < d.
Proof.
  unfold fee_rate. destruct (lb_taker_fee_bps b) as [[[] c e| |]|]; try done. destruct (Z.ltb_spec 0 c); [|done].
  intros [= <- <-]. pose proof (up_pos e). pose proof (down_pos e). split; [by apply Z.mul_pos_pos|lia].
Qed.

(** The fee as a fraction; no fee is zero. *)
Definition rate_of (b : LegBook) : Z * Z := default (0, 1) (fee_rate b).

(** A lot of a live book costs at least any fill at or below its protected
    price, the taker fee on the fill included. *)
Lemma unit_cost_covers a b u protected cost x y :
  slice_unit_cost a (fee_rate b) (slice_terms u) protected = Ok cost →
  0 < ca_lot_step_units a → 0 < ca_quantity_scale a → 0 < u → (rate_of b).1 ≤ (rate_of b).2 →
  0 ≤ protected ≤ u → 0 < y → 0 ≤ x ≤ protected * y →
  let (n, d) := rate_of b in
  ca_lot_step_units a * (x * y * (d * u) + n * x * (u * y - x)) ≤ cost * (ca_quantity_scale a * d * u * y * y).
Proof.
  unfold slice_unit_cost. intros (venue & (? & _ & [= <-])%bind_Ok & (common & (? & _ & [= <-])%bind_Ok & [= <-])%bind_Ok)%bind_Ok Hst Hsc Hu Hr Hp Hy Hx.
  assert (Hrate : 0 ≤ (rate_of b).1 ∧ 0 < (rate_of b).2).
  { unfold rate_of. destruct (fee_rate b) as [[n d]|] eqn:E; [apply fee_rate_pos in E|]; simpl; lia. }
  cbn [slice_terms st_fee_ppm st_haircut_ppm]. unfold common_units. cbn [slice_terms st_price_units_per_quote_unit st_common_units_per_dollar default].
  rewrite !Z.mul_0_r. change (ceil_div 0 PPM) with 0.
  set (s := ca_lot_step_units a) in *. set (q := ca_quantity_scale a) in *.
  pose proof (ceil_div_spec (protected * s) q Hsc) as [_ E1]. set (venue := ceil_div (protected * s) q) in *.
  rewrite (ceil_div_mul venue u Hu). set (taker := taker_fee (fee_rate b) a (slice_terms u) protected).
  assert (E2 : (rate_of b).1 * protected * (u - protected) * s ≤ taker * ((rate_of b).2 * u * q)).
  { clear -Hrate Hu Hsc. unfold taker, taker_fee, rate_of in *. destruct (fee_rate b) as [[n d]|]; simpl in *; [|lia]. fold s q. unfold common_units. simpl.
    pose proof (ceil_fraction_spec (n * protected * (u - protected) * s * u) (d * u * q * u) ltac:(repeat apply Z.mul_pos_pos; lia)) as Hc.
    apply (Z.mul_le_mono_pos_r _ _ u); [done|]. lia. }
  destruct (rate_of b) as [n d]. simpl in *.
  pose proof (fee_total_mono n d u y x protected ltac:(lia) Hu Hy Hx Hp) as Hm.
  apply (Z.mul_le_mono_nonneg_l _ _ s) in Hm; [|lia]. etrans; [exact Hm|].
  assert (E3 : s * (protected * d * u + n * protected * (u - protected)) ≤ (venue + taker) * (q * d * u)).
  { assert (protected * s * (d * u) ≤ q * venue * (d * u)) by (apply Z.mul_le_mono_nonneg_r; [apply Z.mul_nonneg_nonneg|]; lia). lia. }
  apply (Z.mul_le_mono_nonneg_r _ _ (y * y)) in E3; [|apply Z.mul_nonneg_nonneg; lia]. lia.
Qed.

(** An action of a decoded problem. *)
Record usable_action (a : CandidateAction) : Prop := {
  ua_step : 0 < ca_lot_step_units a;
  ua_scale : 0 < ca_quantity_scale a;
  ua_max : 1 ≤ ca_max_quantity_lots a;
}.

(** The price of a level of at most one quote unit, read exactly. *)
Definition exact_price (u : Z) (level : BookLevel) (c e : Z) : Prop :=
  lv_price level = Finite false c e ∧ price_fits c e u ∧ c * up e ≤ down e.

Lemma charged_covers a b u level cost c e x y :
  charged a (fee_rate b) (slice_terms u) (Some level) cost → usable_action a → 0 < u → (rate_of b).1 ≤ (rate_of b).2 →
  exact_price u level c e → 0 < y → 0 ≤ x → x * down e ≤ c * up e * u * y →
  let (n, d) := rate_of b in
  ca_lot_step_units a * (x * y * (d * u) + n * x * (u * y - x)) ≤ cost * (ca_quantity_scale a * d * u * y * y).
Proof.
  intros (l & protected & [= <-] & _ & Hp & Hcost) [Hst Hsc _] Hu Hr (Ep & Hfit & Hone) Hy Hx Hxp.
  assert (Eprot : protected = ceil_div (c * u * up e) (down e)).
  { unfold protected_price in Hp. rewrite Ep in Hp. apply bind_Ok in Hp as (w & Hw & (z & Hz & [= <-])%bind_Ok). cbn in Hw.
    pose proof (protected_exact c e u Hfit) as E. apply bind_Ok in E as (w' & Hw' & E). cbn in Hw'. rewrite Hw in Hw'. injection Hw' as <-.
    rewrite Hz in E. injection E as ->. simpl. lia. }
  pose proof (down_pos e) as Hd. pose proof (ceil_div_spec (c * u * up e) (down e) Hd) as [H1 H2]. rewrite <- Eprot in H1, H2.
  assert (Hcu : 0 ≤ c * u * up e).
  { destruct Hfit as (? & _). pose proof (up_pos e). repeat apply Z.mul_nonneg_nonneg; lia. }
  assert (Hle : c * u * up e ≤ u * down e) by (transitivity (u * (c * up e)); [lia|apply Z.mul_le_mono_nonneg_l; lia]).
  apply (unit_cost_covers a b u protected cost x y Hcost); try done.
  - assert (protected - 1 < u) by (apply (Z.mul_lt_mono_pos_l (down e)); lia).
    split; [apply (Z.mul_le_mono_pos_l _ _ (down e))|]; lia.
  - split; [done|]. apply (Z.mul_le_mono_pos_r _ _ (down e)); [done|]. etrans; [exact Hxp|].
    apply (Z.mul_le_mono_nonneg_r _ _ y) in H2; [|lia]. lia.
Qed.

(** ** The gates *)

Lemma existsb_false {A} (p : A → bool) l : existsb p l = false ↔ ∀ x, x ∈ l → p x = false.
Proof.
  rewrite <- not_true_iff_false, existsb_exists. setoid_rewrite <- not_true_iff_false. setoid_rewrite list_elem_of_In. naive_solver.
Qed.

Lemma mapM_existsb {A B} (f : A → res B) (p : B → bool) (P : A → Prop) l k :
  mapM f l = Ok k → (∀ x y, f x = Ok y → p y = false ↔ P x) → existsb p k = false ↔ ∀ x, x ∈ l → P x.
Proof.
  intros Hk Hf. rewrite existsb_false. split.
  - intros Hp x Hx. apply mapM_Ok in Hk. apply list_elem_of_lookup in Hx as [i Hi].
    destruct (Forall2_lookup_l _ _ _ _ _ Hk Hi) as (y & Hy & E). apply (Hf x y E), Hp, list_elem_of_lookup. eauto.
  - intros HP y Hy. apply (mapM_elem _ _ _ _ Hk) in Hy as (x & Hx & E). by apply (Hf x y E), HP.
Qed.

(** *** Ages *)

Definition fresh_leg (now : datetime) (max_age : Z) (leg : SnapshotLeg) : Prop :=
  ∃ t, sl_received_at leg = Some t ∧ 0 ≤ dt_us now - dt_us t ≤ max_age * US_PER_SECOND.

Lemma quote_age_fresh now max_age leg age : quote_age now leg = Ok age → stale max_age age = false ↔ fresh_leg now max_age leg.
Proof.
  unfold quote_age, fresh_leg. destruct (sl_received_at leg) as [t|].
  - intros (us & (? & _ & [= <-])%bind_Ok & [= <-])%bind_Ok. simpl. rewrite orb_false_iff, !Z.ltb_ge. split; [|intros (? & [= ->] & ?); lia].
    intros ?. exists t. split; [done|lia].
  - intros [= <-]. simpl. split; [done|]. by intros (? & ? & _).
Qed.

(** *** Skew *)

Lemma foldr_max_spec a l : (∀ x, x ∈ a :: l → x ≤ foldr Z.max a l) ∧ foldr Z.max a l ∈ a :: l.
Proof.
  induction l as [|b l [H1 H2]]; simpl; [split; [|left]; by intros x ->%list_elem_of_singleton|]. split.
  - intros x [->|[->|Hx]%elem_of_cons]%elem_of_cons; [specialize (H1 a ltac:(left))|..|specialize (H1 x ltac:(by right))]; lia.
  - destruct (Z.max_spec b (foldr Z.max a l)) as [[_ ->]|[_ ->]]; set_solver.
Qed.
Lemma foldr_min_spec a l : (∀ x, x ∈ a :: l → foldr Z.min a l ≤ x) ∧ foldr Z.min a l ∈ a :: l.
Proof.
  induction l as [|b l [H1 H2]]; simpl; [split; [|left]; by intros x ->%list_elem_of_singleton|]. split.
  - intros x [->|[->|Hx]%elem_of_cons]%elem_of_cons; [specialize (H1 a ltac:(left))|..|specialize (H1 x ltac:(by right))]; lia.
  - destruct (Z.min_spec b (foldr Z.min a l)) as [[_ ->]|[_ ->]]; set_solver.
Qed.

Lemma spread_spec a l m : foldr Z.max a l - foldr Z.min a l ≤ m ↔ ∀ x y, x ∈ a :: l → y ∈ a :: l → x - y ≤ m.
Proof.
  destruct (foldr_max_spec a l) as [M1 M2], (foldr_min_spec a l) as [N1 N2]. split.
  - intros Hm x y Hx Hy. specialize (M1 x Hx). specialize (N1 y Hy). lia.
  - intros Hall. by apply Hall.
Qed.

(** Every leg has an exchange time, and no two are further apart than [m]. *)
Definition aligned (m : Z) (legs : list SnapshotLeg) : Prop :=
  (∀ leg, leg ∈ legs → is_Some (sl_exchange_time leg)) ∧
  ∀ leg leg' t t', leg ∈ legs → leg' ∈ legs → sl_exchange_time leg = Some t → sl_exchange_time leg' = Some t' →
    dt_us t - dt_us t' ≤ m.

Lemma omap_all {A B} (f : A → option B) l : length (omap f l) = length l ↔ ∀ x, x ∈ l → is_Some (f x).
Proof.
  assert (Hcons : ∀ x k, omap f (x :: k) = match f x with Some y => y :: omap f k | None => omap f k end) by done.
  assert (Hle : ∀ k, (length (omap f k) ≤ length k)%nat).
  { induction k as [|x k IH]; [done|]. rewrite Hcons. destruct (f x); simpl; lia. }
  induction l as [|x l IH]; [split; [by intros _ ? ?%not_elem_of_nil|done]|]. rewrite Hcons. setoid_rewrite elem_of_cons. specialize (Hle l).
  destruct (f x) as [y|] eqn:E; simpl.
  - split; [intros [= Hl] z [->|Hz]; [by eexists|by apply IH]|]. intros Hall. f_equal. apply IH. auto.
  - split; [intros; exfalso; lia|]. intros Hall. destruct (Hall x (or_introl eq_refl)) as [? ?]. congruence.
Qed.

Lemma cross_leg_skew_aligned m legs skew : cross_leg_skew legs = Ok skew →
  match skew with Some us => us <=? m | None => false end = true ↔ legs ≠ [] ∧ aligned m legs.
Proof.
  unfold cross_leg_skew, aligned. destruct (Nat.eqb_spec (length (omap sl_exchange_time legs)) (length legs)) as [El|El]; cbn [negb].
  2: { intros [= <-]. split; [done|]. intros (_ & Hall & _). exfalso. by apply El, omap_all. }
  pose proof (proj1 (omap_all sl_exchange_time legs) El) as Hall. destruct (omap sl_exchange_time legs) as [|t times] eqn:Et.
  { intros [= <-]. split; [done|]. destruct legs; [by intros [? _]|done]. }
  intros (? & _ & [= <-])%bind_Ok. rewrite Z.leb_le, spread_spec.
  assert (Hin : ∀ x, x ∈ dt_us t :: (dt_us <$> times) ↔ ∃ leg u, leg ∈ legs ∧ sl_exchange_time leg = Some u ∧ x = dt_us u).
  { intros v. change (dt_us t :: (dt_us <$> times)) with (dt_us <$> t :: times). rewrite <- Et, list_elem_of_fmap.
    setoid_rewrite list_elem_of_omap. naive_solver. }
  split.
  - intros Hs. split_and!; [by intros ->|done|]. intros leg leg' u u' H1 H2 E1 E2. apply Hs; apply Hin; [by exists leg, u|by exists leg', u'].
  - intros (_ & _ & Hs) v w (leg & u & H1 & E1 & ->)%Hin (leg' & u' & H2 & E2 & ->)%Hin. exact (Hs leg leg' u u' H1 H2 E1 E2).
Qed.

(** *** Sequences *)

Definition sequenced (baselines : list (string * json)) (leg : string * SnapshotLeg) : Prop :=
  ∃ n, sl_sequence leg.2 = Some n ∧ 0 ≤ n ∧ ∀ b, json_field leg.1 baselines = Some (JInt b) → b ≤ n.

Lemma sequence_of_current baselines leg : (∃ n, sequence_of baselines leg = Current n) ↔ sequenced baselines leg.
Proof.
  unfold sequence_of, sequenced. destruct (sl_sequence leg.2) as [n|]; [|naive_solver]. destruct (Z.ltb_spec n 0).
  { split; [by intros [? ?]|]. intros (? & [= ->] & ? & _). lia. }
  destruct (json_field leg.1 baselines) as [[| |b| | |]|]; try (destruct (Z.ltb_spec n b)); split; intros (k & Hk); try done;
    try (eexists; done); try (exists n; split_and!; [done..|]; intros b' Hb; simplify_eq; lia).
  destruct Hk as ([= ->] & _ & Hb). specialize (Hb b eq_refl). lia.
Qed.

(** *** Depth *)

(** The books price one frozen quantity. *)
Definition quantity_priced (legs : gmap string SnapshotLeg) (actions : gmap string CandidateAction) (units : Z)
    (q : string * Z) (cost : Z) : Prop :=
  ∃ leg a, legs !! q.1 = Some leg ∧ actions !! q.1 = Some a ∧ priced (sl_book leg) a units q.2 cost.

Lemma depth_step_priced legs actions units deep cost checks q deep' cost' checks' :
  (∀ id a, actions !! id = Some a → 1 ≤ ca_max_quantity_lots a) →
  depth_step legs actions units (deep, cost, checks) q = Ok (deep', cost', checks') →
  (deep' = true → deep = true ∧ quantity_priced legs actions units q (cost' - cost)) ∧
  ∀ c, deep = true → quantity_priced legs actions units q c → deep' = true ∧ cost' = cost + c.
Proof.
  intros Hmax. unfold depth_step, quantity_priced. destruct (legs !! q.1) as [leg|]; [|intros [= <- <- _]; naive_solver].
  destruct (actions !! q.1) as [a|] eqn:Ea; [|intros [= <- <- _]; naive_solver]. specialize (Hmax _ _ Ea). destruct (Z.leb_spec q.2 0) as [Hq|Hq].
  { intros [= <- <- _]. split; [done|]. intros c _ (? & ? & ? & ? & slices & _ & ? & _). lia. }
  intros ([c covered] & Hc & [= <- <- _])%bind_Ok. split.
  - intros [-> ->]%andb_true_iff. split; [done|]. exists leg, a. split_and!; [done..|]. apply leg_cost_priced; [lia..|]. by replace (cost + c - cost) with c by lia.
  - intros c' -> (? & ? & [= <-] & [= <-] & Hp). apply leg_cost_priced in Hp; [|lia..]. rewrite Hc in Hp. by injection Hp as -> ->.
Qed.

Lemma depth_priced legs actions units qs : ∀ deep cost checks deep' cost' checks',
  (∀ id a, actions !! id = Some a → 1 ≤ ca_max_quantity_lots a) →
  foldM (depth_step legs actions units) (deep, cost, checks) qs = Ok (deep', cost', checks') →
  (deep' = true → deep = true ∧ ∃ costs, Forall2 (quantity_priced legs actions units) qs costs ∧ cost' = cost + sumZ costs) ∧
  ∀ costs, deep = true → Forall2 (quantity_priced legs actions units) qs costs → deep' = true ∧ cost' = cost + sumZ costs.
Proof.
  induction qs as [|q qs IH]; intros deep cost checks deep' cost' checks' Hmax; cbn [foldM].
  - intros [= <- <- <-]. split.
    + intros ->. split; [done|]. exists []. split; [constructor|simpl; lia].
    + intros costs -> ->%Forall2_nil_inv_l. split; [done|simpl; lia].
  - intros ([[deep1 cost1] checks1] & Hstep & Hrest)%bind_Ok. destruct (depth_step_priced _ _ _ _ _ _ _ _ _ _ Hmax Hstep) as [S1 S2].
    destruct (IH _ _ _ _ _ _ Hmax Hrest) as [R1 R2]. split.
    + intros Hd. destruct (R1 Hd) as (Hd1 & costs & Hc & ->). destruct (S1 Hd1) as [-> Hq]. split; [done|].
      exists (cost1 - cost :: costs). split; [by constructor|]. cbn [sumZ foldr]. unfold sumZ. simpl. lia.
    + intros costs -> (c & rest & Hq & Hr & ->)%Forall2_cons_inv_l. destruct (S2 c eq_refl Hq) as [-> ->].
      destruct (R2 rest eq_refl Hr) as [-> ->]. split; [done|]. unfold sumZ. simpl. lia.
Qed.

Lemma frozen_actions_usable market actions id a : frozen_actions market = Ok actions → actions !! id = Some a → usable_action a.
Proof.
  unfold frozen_actions. destruct (json_field "problem" market) as [[| | | | |fields]|]; try (intros [= <-]; by rewrite lookup_empty).
  destruct (problem_from_payload (JObj fields) false) as [p|e] eqn:Ep.
  2: { destruct e; try done; intros [= <-]; by rewrite lookup_empty. }
  intros [= <-] [Ha _]%index_by_elem. unfold problem_from_payload in Ep. apply bind_Ok in Ep as (f & _ & (? & Hi%require_Ok & [= <-])%bind_Ok).
  rewrite andb_false_l, orb_false_r in Hi. apply Nat.eqb_eq, nil_length_inv, validate_problem_wf, sorted_problem_wf in Hi.
  destruct (proj1 (Forall_forall _ _) (wf_actions _ Hi) a Ha) as [_ _ _ _ [_ ?] [_ ?] _ _ ? _ _ _ _ _]. split; lia.
Qed.

(** *** Qualification *)

(** The four gates of the policy on a profit of [net] and a payout of [payout]:
    in decimals, as the source computes them; the release is in the future,
    [days] whole days ahead, at most the maximum of the policy. *)
Definition qualified (policy : list (string * json)) (net payout : Z) (market : list (string * json)) (now : datetime) : Prop :=
  ∃ min_profit profit floor min_margin margin release days max_days min_annualized yearly annualized,
    (decimal_or_none (item policy "min_profit_usd") = Some min_profit ∧ times min_profit USD_UNITS_PER_DOLLAR = Ok profit ∧
     to_integer Z.quot profit = Ok floor ∧ floor ≤ net) ∧
    (decimal_or_none (item policy "min_net_margin") = Some min_margin ∧ 0 < payout ∧ decimal_margin net payout = Ok margin ∧
     decimal_ltb margin min_margin = Ok false) ∧
    (parse_release_at (item market "capital_release_at") = Some release ∧ item policy "max_capital_release_days" = JInt max_days ∧
     (days - 1) * US_PER_DAY < dt_us release - dt_us now ≤ days * US_PER_DAY ∧ 1 ≤ days ≤ max_days) ∧
    decimal_or_none (item policy "min_annualized_return") = Some min_annualized ∧ times margin 365 = Ok yearly ∧
    divided yearly days = Ok annualized ∧ decimal_ltb annualized min_annualized = Ok false.

Lemma release_days_spec us : 0 < us → let d := release_days us in (d - 1) * US_PER_DAY < us ≤ d * US_PER_DAY ∧ 1 ≤ d.
Proof.
  intros Hus d. assert (Hpos : 0 < US_PER_DAY) by done. unfold d, release_days. rewrite ceil_div_opp by done.
  pose proof (ceil_div_spec us US_PER_DAY Hpos) as [H1 H2]. assert (1 ≤ ceil_div us US_PER_DAY).
  { destruct (Z.le_gt_cases (ceil_div us US_PER_DAY) 0); [|lia]. assert (US_PER_DAY * ceil_div us US_PER_DAY ≤ 0) by (apply Z.mul_nonneg_nonpos; lia). lia. }
  rewrite Z.max_r by lia. lia.
Qed.

Lemma days_unique us d d' :
  (d - 1) * US_PER_DAY < us ≤ d * US_PER_DAY → (d' - 1) * US_PER_DAY < us ≤ d' * US_PER_DAY → d = d'.
Proof. unfold US_PER_DAY, US_PER_SECOND. lia. Qed.

(** Two answers of one computation agree. *)
Local Ltac same_answers :=
  repeat match goal with H : ∃ _, _ |- _ => destruct H | H : _ ∧ _ |- _ => destruct H end;
  repeat (simplify_eq; match goal with H1 : ?t = Ok ?a, H2 : ?t = Ok ?b |- _ => rewrite H1 in H2; injection H2 as ? end);
  simplify_eq.
(** The check answers no, and the policy does not hold. *)
Local Ltac refuted HR := injection HR as <- _; split; [done|]; intros ?; exfalso; same_answers; try done; lia.

Lemma qualification_check_qualified policy net payout market now ok v :
  qualification_check policy net payout market now = Ok (ok, v) → ok = true ↔ qualified policy net payout market now.
Proof.
  unfold qualification_check, qualified. intros HR.
  destruct (decimal_or_none (item policy "min_profit_usd")) as [mp|]; [|refuted HR].
  apply bind_Ok in HR as (x & Ex & (f & Ef & HR)%bind_Ok).
  destruct (Z.ltb_spec net f); [refuted HR|].
  destruct (decimal_or_none (item policy "min_net_margin")) as [mm|]; [|refuted HR].
  destruct (Z.leb_spec payout 0); [refuted HR|].
  apply bind_Ok in HR as (margin & Em & (low & El & HR)%bind_Ok). destruct low; [refuted HR|].
  destruct (parse_release_at (item market "capital_release_at")) as [r|]; [|refuted HR].
  apply bind_Ok in HR as (delay & (? & _ & [= <-])%bind_Ok & HR).
  destruct (Z.leb_spec (dt_us r - dt_us now) 0).
  { injection HR as <- _. split; [done|]. intros (?&?&?&?&?&r'&days&?&?&?&?&_&_&([= <-]&_&[Hd _]&[Hd1 _])&_).
    unfold US_PER_DAY, US_PER_SECOND in *. lia. }
  destruct (release_days_spec (dt_us r - dt_us now)) as [Hd Hd1]; [lia|]. set (days := release_days (dt_us r - dt_us now)) in *.
  destruct (item policy "max_capital_release_days") as [| |m| | |]; try (refuted HR).
  destruct (Z.ltb_spec m days).
  { injection HR as <- _. split; [done|]. intros (?&?&?&?&?&r'&days'&?&?&?&?&_&_&([= <-]&[= ->]&Hd'&_&?)&_).
    pose proof (days_unique _ _ _ Hd Hd'). lia. }
  destruct (decimal_or_none (item policy "min_annualized_return")) as [ma|]; [|refuted HR].
  apply bind_Ok in HR as (y & Ey & (an & Ea & (short & Es & HR)%bind_Ok)%bind_Ok). split.
  - intros ->. destruct short; [done|]. exists mp, x, f, mm, margin, r, days, m, ma, y, an. split_and!; (done || lia).
  - intros (?&?&?&?&margin'&r'&days'&?&?&y'&an'&_&(_&_&Em'&_)&([= <-]&_&Hd'&_)&[= <-]&Ey'&Ea'&Es').
    pose proof (days_unique _ _ _ Hd Hd') as <-. by same_answers.
Qed.

(** *** The gates on the price *)

(** The last gates, for a fresh cost of [cost]. *)
Record affordable (market execution safety policy : list (string * json)) (now : datetime) (cost : Z) : Prop := {
  af_qualified : qualified policy (frozen_payout market - cost) (frozen_payout market) market now;
  af_cap : let cap := config_int safety "max_per_trade_cost_units" 0 in 0 < cap → cost ≤ cap;
  af_bound : cost ≤ frozen_executed market execution ∨ cost ≤ proven_bound market ∧ 0 ≤ frozen_payout market - cost;
}.

Lemma price_gates_affordable market execution safety policy fee_known now checks cost r :
  price_gates market execution safety policy fee_known now checks cost = Ok r →
  (pf_ok r = true ↔ fee_known = true ∧ affordable market execution safety policy now cost) ∧
  (pf_ok r = true → pf_fresh_cost_units r = VInt cost ∧ pf_net_profit_units r = VInt (frozen_payout market - cost) ∧
    pf_reason r = if cost <=? frozen_executed market execution then "PASS" else "PRICE_WITHIN_BOUNDS").
Proof.
  unfold price_gates. destruct fee_known; cbn [negb]; [|intros [= <-]; naive_solver].
  intros ([ok v] & Hq & HR)%bind_Ok. apply qualification_check_qualified in Hq. destruct ok; cbn [negb] in HR.
  2: { injection HR as <-. simpl. split; [|done]. split; [done|]. intros (_ & [Hqual _ _]). by apply Hq in Hqual. }
  pose proof (proj1 Hq eq_refl) as Hqual. set (cap := config_int safety "max_per_trade_cost_units" 0) in *.
  destruct ((cap <=? 0) || (cost <=? cap)) eqn:Ecap; cbn [negb] in HR.
  2: { injection HR as <-. simpl. split; [|done]. split; [done|]. intros (_ & [_ Hc _]). bool_prop. specialize (Hc ltac:(unfold cap in *; lia)). unfold cap in *. lia. }
  assert (Hcap : 0 < cap → cost ≤ cap) by (bool_prop; lia).
  destruct (Z.leb_spec cost (frozen_executed market execution)) as [He|He].
  { injection HR as <-. simpl. split; [|done]. split; [|done]. intros _. split; [done|]. by split; [done..|left]. }
  destruct ((cost <=? proven_bound market) && (0 <=? frozen_payout market - cost)) eqn:Eb; injection HR as <-; simpl; bool_prop.
  - split; [|done]. split; [|done]. intros _. split; [done|]. by split; [done..|right].
  - split; [|done]. split; [done|]. intros (_ & [_ _ [Hb|[? ?]]]); lia.
Qed.

(** ** The whole preflight *)

Definition legs_of (fresh : ComponentSnapshot) : gmap string SnapshotLeg := index_by sl_leg_id (cs_legs fresh).

(** The frozen request passes on the fresh books at the cost [cost]. *)
Record passes (frozen : list (string * json)) (fresh : ComponentSnapshot) (safety policy : list (string * json))
    (now : datetime) (cost : Z) : Prop := {
  pa_ages : ∀ id leg, legs_of fresh !! id = Some leg → fresh_leg now (config_int safety "max_quote_age_seconds" 10) leg;
  pa_skew : aligned (config_int safety "max_cross_leg_skew_seconds" 5 * US_PER_SECOND) (snd <$> map_to_list (legs_of fresh));
  pa_sequences : ∀ id leg, legs_of fresh !! id = Some leg → sequenced (mapping_or_empty frozen "sequences") (id, leg);
  pa_cost : ∃ quantities actions costs, frozen_quantities frozen = Ok quantities ∧
    frozen_actions (mapping_or_empty frozen "market") = Ok actions ∧ quantities ≠ ∅ ∧ dom quantities = dom (legs_of fresh) ∧
    Forall2 (quantity_priced (legs_of fresh) actions (units_per_dollar (mapping_or_empty frozen "market")))
      (sort_on fst (map_to_list quantities)) costs ∧ cost = sumZ costs;
  pa_fees : ∀ id leg, legs_of fresh !! id = Some leg → is_Some (lb_taker_fee_bps (sl_book leg));
  pa_affordable : affordable (mapping_or_empty frozen "market") (mapping_or_empty frozen "execution") safety policy now cost;
}.

Definition items_of (fresh : ComponentSnapshot) : list (string * SnapshotLeg) := sort_on fst (map_to_list (legs_of fresh)).

Lemma items_elem fresh l : l ∈ items_of fresh ↔ legs_of fresh !! l.1 = Some l.2.
Proof. unfold items_of. rewrite elem_of_sort_on. destruct l. apply elem_of_map_to_list. Qed.

Lemma aligned_items fresh m : aligned m (snd <$> items_of fresh) ↔ aligned m (snd <$> map_to_list (legs_of fresh)).
Proof.
  assert (Hp : ∀ leg, leg ∈ (snd <$> items_of fresh) ↔ leg ∈ (snd <$> map_to_list (legs_of fresh))).
  { intros leg. unfold items_of. by rewrite sort_on_perm. }
  unfold aligned. by setoid_rewrite Hp.
Qed.

(** The gates before the price. *)
Lemma statuses_current baselines items :
  let statuses := (λ l : string * SnapshotLeg, (l.1, sequence_of baselines l)) <$> items in
  existsb (λ l, match l.2 with Missing => true | _ => false end) statuses = false ∧
  existsb (λ l, match l.2 with Regressed _ _ => true | _ => false end) statuses = false ↔
  ∀ l, l ∈ items → sequenced baselines l.
Proof.
  intros statuses. rewrite !existsb_false. unfold statuses. split.
  - intros [Hm Hr] l Hl. specialize (Hm _ (list_elem_of_fmap_2 _ _ _ Hl)). specialize (Hr _ (list_elem_of_fmap_2 _ _ _ Hl)). simpl in *.
    apply sequence_of_current. destruct (sequence_of baselines l); [done..|by eexists].
  - intros Hall. split; intros x (l & -> & Hl)%list_elem_of_fmap; specialize (Hall l Hl); apply sequence_of_current in Hall as [n E];
      simpl; by rewrite E.
Qed.

(** The report says what [passes] says. *)
Definition verdict (frozen : list (string * json)) (fresh : ComponentSnapshot) (safety policy : list (string * json))
    (now : datetime) (r : Preflight) : Prop :=
  (pf_ok r = true ↔ ∃ cost, passes frozen fresh safety policy now cost) ∧
  (pf_ok r = true → ∀ cost, passes frozen fresh safety policy now cost →
    pf_fresh_cost_units r = VInt cost ∧
    pf_net_profit_units r = VInt (frozen_payout (mapping_or_empty frozen "market") - cost) ∧
    pf_reason r = if cost <=? frozen_executed (mapping_or_empty frozen "market") (mapping_or_empty frozen "execution")
                  then "PASS" else "PRICE_WITHIN_BOUNDS").

Section verdict.
Context (frozen : list (string * json)) (fresh : ComponentSnapshot) (safety policy : list (string * json)) (now : datetime).
Abbreviation passing := (passes frozen fresh safety policy now).

Lemma verdict_no r checks reason c n :
  (∀ cost, ¬ passing cost) → Ok (failed checks reason c n) = Ok r → verdict frozen fresh safety policy now r.
Proof. intros Hno [= <-]. split; [|done]. split; [done|]. intros [cost Hc]. by apply Hno in Hc. Qed.

Lemma ages_gate max_age ages :
  mapM (λ l : string * SnapshotLeg, age ← quote_age now l.2; Ok (l.1, age)) (items_of fresh) = Ok ages →
  existsb (λ l, stale max_age l.2) ages = false ↔ ∀ id leg, legs_of fresh !! id = Some leg → fresh_leg now max_age leg.
Proof.
  intros Hages. rewrite (mapM_existsb _ _ (λ l : string * SnapshotLeg, fresh_leg now max_age l.2) _ _ Hages).
  - split; [intros Hall id leg Hl; by apply (Hall (id, leg)), items_elem|]. intros Hall l Hl%items_elem. eauto.
  - intros l y (age & Hage & [= <-])%bind_Ok. simpl. by apply quote_age_fresh.
Qed.

(** The last two gates: depth and price. *)
Lemma last_gates quantities actions deep cost checks checks' fee_known r :
  frozen_quantities frozen = Ok quantities → frozen_actions (mapping_or_empty frozen "market") = Ok actions →
  (∀ id leg, legs_of fresh !! id = Some leg → fresh_leg now (config_int safety "max_quote_age_seconds" 10) leg) →
  aligned (config_int safety "max_cross_leg_skew_seconds" 5 * US_PER_SECOND) (snd <$> map_to_list (legs_of fresh)) →
  (∀ id leg, legs_of fresh !! id = Some leg → sequenced (mapping_or_empty frozen "sequences") (id, leg)) →
  (fee_known = true ↔ ∀ id leg, legs_of fresh !! id = Some leg → is_Some (lb_taker_fee_bps (sl_book leg))) →
  foldM (depth_step (legs_of fresh) actions (units_per_dollar (mapping_or_empty frozen "market")))
    (negb (bool_decide (quantities = ∅)) && bool_decide (dom quantities = dom (legs_of fresh)), 0, checks)
    (sort_on fst (map_to_list quantities)) = Ok (deep, cost, checks') →
  (if negb deep
   then Ok (failed checks' "DEPTH_EXHAUSTED" (VInt cost) (VInt (sumZ (snd <$> map_to_list quantities))))
   else price_gates (mapping_or_empty frozen "market") (mapping_or_empty frozen "execution") safety policy fee_known now
          (checks' ++ [row "depth" true (VInt cost) (VText "frozen quantities covered")]) cost) = Ok r →
  verdict frozen fresh safety policy now r.
Proof.
  intros Hq Ha Hages Hskew Hseq Hfee Hdepth HR.
  destruct (depth_priced _ _ _ _ _ _ _ _ _ _ (λ id a Ea, ua_max _ (frozen_actions_usable _ _ _ _ Ha Ea)) Hdepth) as [D1 D2].
  assert (Hsame : ∀ cost', passing cost' → deep = true ∧ cost = cost').
  { intros cost' [_ _ _ (q' & a' & costs & Hq' & Ha' & Hne & Hdom & Hc & ->) _ _].
    rewrite Hq in Hq'. rewrite Ha in Ha'. injection Hq' as <-. injection Ha' as <-.
    by destruct (D2 costs ltac:(by rewrite bool_decide_eq_false_2, bool_decide_eq_true_2) Hc) as [-> ->]. }
  destruct deep; cbn [negb] in HR.
  2: { eapply verdict_no; [|exact HR]. intros cost' Hc. by destruct (Hsame _ Hc). }
  apply price_gates_affordable in HR as [Hok Hrep]. destruct (D1 eq_refl) as (Hcov & costs & Hc & Ecost). bool_prop.
  split.
  - rewrite Hok. split.
    + intros [Hf Haff]. exists cost. split; try done; [|by apply Hfee]. exists quantities, actions, costs. split_and!; done.
    + intros [cost' Hpass]. destruct (Hsame _ Hpass) as [_ ->]. split; [apply Hfee, Hpass|apply Hpass].
  - intros Ht cost' Hpass. destruct (Hsame _ Hpass) as [_ <-]. by apply Hrep.
Qed.

Lemma preflight_verdict r : preflight frozen fresh safety policy now = Ok r → verdict frozen fresh safety policy now r.
Proof.
  unfold preflight. fold (legs_of fresh) (items_of fresh). intros (quantities & Hq & (ages & Hages & HR)%bind_Ok)%bind_Ok.
  apply (ages_gate (config_int safety "max_quote_age_seconds" 10)) in Hages. destruct (existsb _ ages).
  { eapply verdict_no; [|exact HR]. intros cost [Ha _ _ _ _ _]. by apply Hages in Ha. }
  destruct Hages as [Hages _]. specialize (Hages eq_refl). apply bind_Ok in HR as (skew & Hskew & HR).
  apply (cross_leg_skew_aligned (config_int safety "max_cross_leg_skew_seconds" 5 * US_PER_SECOND)) in Hskew.
  destruct (match skew with Some us => _ | None => false end); cbn [negb] in HR.
  2: { eapply verdict_no; [|exact HR]. intros cost [_ Hs _ (q & a & costs & Hq' & _ & Hne & Hdom & _) _ _]. rewrite Hq in Hq'. injection Hq' as <-.
       assert (false = true); [|done]. apply Hskew. rewrite aligned_items. split; [|done].
       intros E%fmap_nil_inv. apply Hne. apply dom_empty_inv_L. rewrite Hdom. apply dom_empty_iff_L, map_empty. intros id.
       destruct (legs_of fresh !! id) as [leg|] eqn:El; [|done]. apply (items_elem fresh (id, leg)) in El. rewrite E in El. by apply not_elem_of_nil in El. }
  destruct Hskew as [Hskew _]. destruct (Hskew eq_refl) as [_ Halign%aligned_items]. clear Hskew.
  pose proof (statuses_current (mapping_or_empty frozen "sequences") (items_of fresh)) as Hseq. cbv zeta in Hseq.
  assert (Hseq' : (∀ l, l ∈ items_of fresh → sequenced (mapping_or_empty frozen "sequences") l) ↔
    ∀ id leg, legs_of fresh !! id = Some leg → sequenced (mapping_or_empty frozen "sequences") (id, leg)).
  { split; [intros Hall id leg Hl; by apply Hall, items_elem|]. intros Hall l Hl%items_elem. destruct l. by apply Hall. }
  rewrite Hseq' in Hseq. clear Hseq'.
  destruct (existsb (λ l, match l.2 with Missing => true | _ => false end) _).
  { eapply verdict_no; [|exact HR]. intros cost [_ _ Hs _ _ _]. by apply Hseq in Hs as [? _]. }
  destruct (existsb (λ l, match l.2 with Regressed _ _ => true | _ => false end) _).
  { eapply verdict_no; [|exact HR]. intros cost [_ _ Hs _ _ _]. by apply Hseq in Hs as [_ ?]. }
  destruct Hseq as [Hseq _]. specialize (Hseq (conj eq_refl eq_refl)).
  apply bind_Ok in HR as (actions & Ha & ([[deep cost] checks'] & Hdepth & HR)%bind_Ok).
  refine (last_gates _ _ _ _ _ _ _ _ Hq Ha Hages Halign Hseq _ Hdepth HR).
  rewrite forallb_forall. split.
  - intros Hall id leg Hl%(items_elem fresh (id, leg)). specialize (Hall (id, leg)). simpl in Hall.
    destruct (lb_taker_fee_bps (sl_book leg)); [by eexists|]. by rewrite list_elem_of_In in Hl; apply Hall in Hl.
  - intros Hall l Hl%list_elem_of_In%items_elem. by destruct (Hall _ _ Hl) as [? ->].
Qed.
End verdict.
