(* ===== verification/Samples.v ===== *)
(** * Concrete problems

    Small problems on which the theorems are instantiated and the program is
    evaluated.  [sha] stands in for the digest: a polynomial checksum, short
    enough to keep the runs small. *)

From S2P Require Import Prelude PyValue NLeg NLegForms NLegValidate NLegWf Oracle OracleQualify Support Search SearchTotal LinearModel TerminalModel PartialFill FillProof.
Local Open Scope Z_scope.

Fixpoint checksum (acc : Z) (s : string) : Z :=
  match s with
  | EmptyString => acc
  | String c s => checksum ((acc * 131 + Z.of_N (Ascii.N_of_ascii c)) `mod` 1000000007) s
  end.

#[export] Instance sha : Sha256 := λ s, pretty (checksum 0 s).

Definition as_of : datetime := Datetime 1785283200000000 (Some 0).
Definition release : datetime := Datetime 1787961600000000 (Some 0).

Definition key_for (indicator : string) : SettlementObservationKey := {|
  ok_schema_version := OBSERVATION_SCHEMA_V1; ok_oracle_id := "uma"; ok_indicator_id := indicator;
  ok_observation_start := as_of; ok_observation_end := release; ok_timezone := "UTC"; ok_rule_version := "r1" |}.

Definition key := key_for "election".

Definition sample_action_on (k : SettlementObservationKey) (id contract venue : string) (price max : Z) : CandidateAction := {|
  ca_action_id := id; ca_venue_id := venue; ca_account_id := "acct"; ca_chain_id := "137";
  ca_market_contract_id := contract; ca_settlement_observation_key := k; ca_side := BUY_YES;
  ca_lot_step_units := 1; ca_quantity_scale := 1; ca_min_quantity_lots := 1; ca_max_quantity_lots := max;
  ca_settlement_asset_id := MICRO_VALUATION_UNIT; ca_valuation_unit_id := MICRO_VALUATION_UNIT;
  ca_asset_valuation_rule_id := "usd-micro-v1";
  ca_cost_slices := [{| first_lot := 1; last_lot := max; incremental_cost_upper_bound_units := price |}] |}.

Definition sample_action := sample_action_on key.

Definition sample_atom (id : string) (kind : TerminalKind) (action : string) (payout : Z) : TerminalAtom := {|
  ta_atom_id := id; ta_kind := kind; ta_rule_version := Some "r1";
  ta_payouts := [{| ap_action_id := action; payout_lower_bound_per_lot_units := payout |}];
  ta_capital_release_at := Some release |}.

Definition sample_state (contract action : string) (k : SettlementObservationKey) (yes no : Z) : TerminalStateSet := {|
  ts_market_contract_id := contract; ts_settlement_observation_key := k; ts_rule_version := "r1";
  ts_atoms := [sample_atom (contract +:+ "-yes") NORMAL_YES action yes;
               sample_atom (contract +:+ "-no") NORMAL_NO action no] |}.

Definition profit_floor (n : Z) : QualificationConstraint := {|
  qc_constraint_id := "min-profit"; qc_rule_version := "q1"; qc_metric := GUARANTEED_PROFIT_UNITS;
  qc_comparison := GREATER_THAN_OR_EQUAL; qc_threshold_numerator := n; qc_threshold_denominator := 1 |}.

Definition problem_of (actions : list CandidateAction) (states : list TerminalStateSet)
    (relations : list RelationConstraint) (forbidden : list ForbiddenAtomCombination)
    (quals : list QualificationConstraint) : ArbitrageProblem := {|
  pb_schema_version := PROBLEM_SCHEMA_V1; pb_problem_id := "sample"; pb_as_of := as_of;
  pb_valuation_unit_id := MICRO_VALUATION_UNIT; pb_actions := actions; pb_terminal_state_sets := states;
  pb_constraint_model := {| cm_relations := relations; cm_forbidden_atom_combinations := forbidden |};
  pb_qualification_constraints := quals |}.

Definition exactly_one (ids : list string) : RelationConstraint := {|
  rc_constraint_id := "one-winner"; rc_kind := EXACTLY_ONE; rc_contract_ids := ids; rc_rule_version := "r1" |}.

(** Two contracts of which exactly one settles YES; a lot of each costs
    [price] units and pays a dollar. *)
Definition race (price : Z) (quals : list QualificationConstraint) : ArbitrageProblem :=
  problem_of [sample_action "a" "A" "polymarket" price 1; sample_action "b" "B" "predict.fun" price 2]
    [sample_state "A" "a" key 1000000 0; sample_state "B" "b" key 1000000 0]
    [exactly_one ["A"; "B"]] [] quals.

Definition cheap := race 400000 [profit_floor 1].
Definition dear := race 600000 [].

Definition sample_budget : OracleBudget := {|
  bg_max_quantity_vectors := 100; bg_max_joint_states := 100; bg_max_support_rechecks := 100 |}.

Definition request_of (p : ArbitrageProblem) : OracleRequest := {|
  rq_schema_version := REQUEST_SCHEMA_V1; rq_mode := OPTIMIZATION; rq_problem := p; rq_budget := sample_budget |}.

Definition admission_of (p : ArbitrageProblem) : OracleRequest := {|
  rq_schema_version := REQUEST_SCHEMA_V1; rq_mode := ADMISSION; rq_problem := p; rq_budget := sample_budget |}.

Example cheap_valid : validate_problem cheap = [].
Proof. vm_compute. reflexivity. Qed.

Example dear_valid : validate_problem dear = [].
Proof. vm_compute. reflexivity. Qed.

(** One lot of each leg is bought, for a profit of 0.2 dollars. *)
Example cheap_solved :
  (λ r, (or_business_status r, ob_lower_bound_units (or_objective_bounds r), ps_quantities <$> or_solution r))
    <$> solve_exhaustive (request_of cheap) OPTIMIZATION
  = Ok (QUALIFIED_FEASIBLE, Some 200000, Some [AQ "a" 1; AQ "b" 1]).
Proof. vm_compute. reflexivity. Qed.

(** At 0.6 dollars a lot no portfolio can win. *)
Example dear_diagnosed :
  (λ r, (or_business_status r, ob_upper_bound_units (or_objective_bounds r))) <$> diagnose_raw_arbitrage dear sample_budget
  = Ok (NO_ARBITRAGE, Some (-200000)).
Proof. vm_compute. reflexivity. Qed.

(** ** Running a definition on a sample *)

Lemma ok_with {A} (P : A → bool) (m : res A) :
  match m with Ok a => P a | Err _ => false end = true → ∃ a, m = Ok a ∧ P a = true.
Proof. destruct m as [a|]; [eauto|done]. Qed.

Lemma some_with {A} (o : option A) : negb (match o with None => true | Some _ => false end) = true → ∃ a, o = Some a.
Proof. destruct o; [eauto|done]. Qed.

Definition present {A} (o : option A) : bool := negb (match o with None => true | Some _ => false end).

(** [run m P as pat]: the run [m] succeeds with a value that passes [P]. *)
Tactic Notation "run" constr(m) uconstr(P) "as" simple_intropattern(pat) :=
  let H := fresh in
  assert (H : match m with Ok a => P a | Err _ => false end = true) by (vm_compute; reflexivity);
  apply (ok_with P m) in H; destruct H as pat.

Lemma cheap_wf : wf_problem cheap.
Proof. apply validate_problem_wf. vm_compute. reflexivity. Qed.

Lemma cheap_utc : utc_states cheap.
Proof. intros s Hs. by repeat (apply elem_of_cons in Hs as [->|Hs]); [..|apply not_elem_of_nil in Hs]. Qed.

(** One lot of each leg. *)
Definition both : list ActionQuantity := [AQ "a" 1; AQ "b" 1].
