(* ===== verification/MasterCorrect.v ===== *)
(** * What the master problem means

    The integer points of [compile_master] are the quantity vectors of the
    component that fit the release profile and are not excluded, with the cost
    of their price slices and the least payout over the known cuts. *)

From S2P Require Import Prelude PyValue NLeg NLegForms NLegValidate NLegWf Oracle OracleScenario OracleEval OracleQualify UnionFind Support Components LinearModel TerminalModel TerminalCorrect PartialFill FillCorrect Master.
Local Open Scope Z_scope.

(** ** Rows of a point *)

Lemma row_ok_rows x rows : Forall (row_ok x) rows ↔ ∀ c, c ∈ rows → row_ok x c.
Proof. apply Forall_forall. Qed.

Lemma activity_cons x n k l : activity x ((n, k) :: l) = x n * k + activity x l.
Proof. done. Qed.

Lemma activity_nil x : activity x [] = 0.
Proof. done. Qed.

Lemma activity_negated x l : activity x (negated l) = - activity x l.
Proof.
  unfold negated. induction l as [|[n k] l IH]; [done|]. rewrite fmap_cons, activity_cons, IH, activity_cons. simpl. lia.
Qed.

Lemma activity_ones x {A} (f : A → string) (l : list A) :
  activity x ((λ a, (f a, 1)) <$> l) = sumZ ((λ a, x (f a)) <$> l).
Proof.
  induction l as [|a l IH]; [done|]. rewrite !fmap_cons, activity_cons, IH. simpl. lia.
Qed.

(** The interval arithmetic of [_terms_bounds]. *)
Lemma activity_fold_bounds x variables terms acc out :
  foldM (activity_step variables) acc terms = Ok out →
  (∀ n v, variables !! n = Some v → iv_lower v ≤ x n ≤ iv_upper v) →
  out.1 - acc.1 ≤ activity x terms ≤ out.2 - acc.2.
Proof.
  revert acc; induction terms as [|[n k] terms IH]; intros [lo hi]; cbn [foldM].
  { intros [= <-] _. simpl. unfold activity. simpl. lia. }
  intros (acc' & Ha & Hr)%bind_Ok Hx. specialize (IH _ Hr Hx). unfold activity_step in Ha.
  apply bind_Ok in Ha as (v & Hv%of_option_Ok & [= <-]). pose proof (Hx n v Hv). rewrite activity_cons. simpl in *.
  destruct (Z.leb_spec 0 k); nia.
Qed.

Lemma terms_bounds_spec x variables terms lo hi :
  terms_bounds terms variables = Ok (lo, hi) →
  (∀ n v, variables !! n = Some v → iv_lower v ≤ x n ≤ iv_upper v) → lo ≤ activity x terms ≤ hi.
Proof.
  intros ([lo' hi'] & Hf & (? & _ & (? & _ & [= <- <-])%bind_Ok)%bind_Ok)%bind_Ok Hx.
  pose proof (activity_fold_bounds x _ _ _ _ Hf Hx) as H. simpl in H. lia.
Qed.

Lemma index_by_bounds x l :
  Forall (bounds_ok x) l → ∀ n v, index_by iv_name l !! n = Some v → iv_lower v ≤ x n ≤ iv_upper v.
Proof. intros Hl n v [Hin <-]%index_by_elem. rewrite Forall_forall in Hl. by apply Hl. Qed.

Lemma minimum_of_spec l : l ≠ [] → minimum_of l ∈ l ∧ ∀ v, v ∈ l → minimum_of l ≤ v.
Proof.
  destruct l as [|v l]; [done|]. intros _. simpl. revert v; induction l as [|w l IH]; intros v; simpl.
  - split; [left|]. intros u ->%list_elem_of_singleton. lia.
  - destruct (IH (Z.min v w)) as [Hin Hle]. split.
    + apply elem_of_cons in Hin as [->|Hin]; [|by right; right]. destruct (Z.min_spec v w) as [[_ ->]|[_ ->]]; [left|right; left].
    + intros u. pose proof (Hle (Z.min v w) ltac:(left)). rewrite !elem_of_cons. intros [->|[->|Hu]]; [lia|lia|].
      apply Hle. by right.
Qed.

(** ** Price slices *)

Section slices.
Context (x : string → Z) (i : string).

Definition filled (n : nat) (slices : list ExecutableCostSlice) : Z := activity x (fill_terms i (λ _, 1) n slices).
Definition fill_cost (n : nat) (slices : list ExecutableCostSlice) : Z :=
  activity x (fill_terms i incremental_cost_upper_bound_units n slices).

Lemma filled_cons n c slices : filled n (c :: slices) = x (slice_fill i n) + filled (S n) slices.
Proof. unfold filled. simpl. rewrite activity_cons. lia. Qed.

Lemma fill_cost_cons n c slices :
  fill_cost n (c :: slices) = x (slice_fill i n) * incremental_cost_upper_bound_units c + fill_cost (S n) slices.
Proof. done. Qed.

Lemma fill_terms_opposite n slices : activity x (fill_terms i (λ _, -1) n slices) = - filled n slices.
Proof.
  revert n; induction slices as [|c slices IH]; intros n; [done|]. rewrite filled_cons. simpl. rewrite activity_cons, IH. lia.
Qed.

Definition block_holds (b : list IntVariable * list LinearConstraint) : Prop :=
  Forall (bounds_ok x) b.1 ∧ Forall (row_ok x) b.2.

(** The rows of one slice, as arithmetic. *)
Definition slice_facts (n : nat) (previous : option ExecutableCostSlice) (c : ExecutableCostSlice) : Prop :=
  0 ≤ x (slice_fill i n) ≤ slice_width c ∧ 0 ≤ x (slice_open i n) ≤ 1 ∧
  x (slice_fill i n) ≤ slice_width c * x (slice_open i n) ∧
  match previous with
  | None => True
  | Some c' => slice_width c' * x (slice_open i n) ≤ x (slice_fill i (n - 1)) ∧ x (slice_open i n) ≤ x (slice_open i (n - 1))
  end.

Lemma slices_block_cons n previous c slices :
  block_holds (slices_block i n previous (c :: slices)) ↔
  slice_facts n previous c ∧ block_holds (slices_block i (S n) (Some c) slices).
Proof.
  simpl. destruct (slices_block i (S n) (Some c) slices) as [vars rows]. unfold block_holds, slice_facts. simpl.
  rewrite !Forall_cons, Forall_app. unfold bounds_ok, int_variable. simpl.
  rewrite row_ok_constraint, within_upper, !activity_cons, activity_nil.
  destruct previous as [c'|]; rewrite ?Forall_cons, ?row_ok_constraint, ?within_upper, ?within_lower, ?activity_cons, ?activity_nil.
  - split; [intros (H1 & H2 & H3)|intros (H1 & H2 & H3)]; split_and!; try apply Forall_nil_2; try tauto; try lia.
  - split; [intros (H1 & H2 & H3)|intros (H1 & H2 & H3)]; split_and!; try apply Forall_nil_2; try tauto; try lia.
Qed.

Lemma seqZ_split m a c : 0 ≤ a → 0 ≤ c → seqZ m (a + c) = seqZ m a ++ seqZ (m + a) c.
Proof. intros. rewrite seqZ_app by lia. done. Qed.

(** The rows make the slices fill in order, so the cost is the cost of the
    cheapest lots the book offers first. *)
Lemma slices_exact n previous p slices :
  contiguous p slices → block_holds (slices_block i n previous slices) →
  0 ≤ filled n slices ≤ final_lot p slices - p ∧
  fill_cost n slices = sumZ (lot_cost slices <$> seqZ (p + 1) (filled n slices)) ∧
  (slices ≠ [] → x (slice_open i n) = 0 → filled n slices = 0).
Proof.
  revert n previous p; induction slices as [|c slices IH]; intros n previous p.
  { intros _ _. change (filled n []) with 0. change (fill_cost n []) with 0. unfold final_lot. simpl. split_and!; [lia|lia|done|done]. }
  intros (Hf & Hle & Hc) [Hs Hb]%slices_block_cons.
  destruct (IH _ _ _ Hc Hb) as (Hn & Hcost & Hz). rewrite filled_cons, fill_cost_cons, final_lot_cons, Hcost.
  assert (Hnext : slices ≠ [] → x (slice_open i (S n)) ≤ x (slice_open i n) ∧ 0 ≤ x (slice_open i (S n)) ≤ 1 ∧
    slice_width c * x (slice_open i (S n)) ≤ x (slice_fill i n)).
  { destruct slices as [|c2 slices]; [done|]. intros _. apply slices_block_cons in Hb as [(_ & Ho & _ & H1 & H2) _].
    simpl in H1, H2. rewrite Nat.sub_0_r in H1, H2. split_and!; lia. }
  destruct Hs as (Hx & Ho & Hcap & _). unfold slice_width in *. set (X := x (slice_fill i n)) in *.
  set (F := filled (S n) slices) in *.
  assert (HF : F = 0 ∨ X = last_lot c - first_lot c + 1).
  { destruct slices as [|c2 slices]; [by left|]. destruct (Hnext ltac:(done)) as (H1 & H2 & H3).
    destruct (decide (x (slice_open i (S n)) = 0)) as [E|E]; [left; by apply Hz|right]. nia. }
  split_and!.
  - destruct HF; lia.
  - destruct HF; lia.
  - destruct HF as [E|E].
    + rewrite E. rewrite Z.add_0_r. change (seqZ (last_lot c + 1) 0) with (@nil Z). simpl.
      rewrite (sumZ_const (lot_cost (c :: slices)) (incremental_cost_upper_bound_units c)), length_seqZ by
        (intros lot [? ?]%elem_of_seqZ; apply lot_cost_here; lia).
      rewrite Z2Nat.id by lia. lia.
    + rewrite seqZ_split, fmap_app, sumZ_app by lia.
      rewrite (sumZ_const (lot_cost (c :: slices)) (incremental_cost_upper_bound_units c)), length_seqZ by
        (intros lot [? ?]%elem_of_seqZ; apply lot_cost_here; lia).
      rewrite Z2Nat.id by lia. replace (p + 1 + X) with (last_lot c + 1) by lia.
      rewrite (sumZ_fmap_ext (lot_cost (c :: slices)) (lot_cost slices)); [lia|].
      intros lot [? ?]%elem_of_seqZ. apply lot_cost_later. lia.
  - intros _ Eo. assert (X = 0) as -> by nia. destruct slices as [|c2 slices]; [done|].
    destruct (Hnext ltac:(done)) as (H1 & H2 & _). apply Hz; [done|lia].
Qed.
End slices.

(** ** One action *)

Definition lots_at (x : string → Z) (a : CandidateAction) : Z := x (quantity_name (ca_action_id a)).
Definition chosen (x : string → Z) (a : CandidateAction) : Z := x (selected_name (ca_action_id a)).

Definition slices_cost_at (x : string → Z) (a : CandidateAction) : Z := fill_cost x (ca_action_id a) 0 (ca_cost_slices a).

Lemma action_block x a :
  block_holds x (action_variables a, action_rows a) ↔
  0 ≤ lots_at x a ≤ ca_max_quantity_lots a ∧ 0 ≤ chosen x a ≤ 1 ∧
  ca_min_quantity_lots a * chosen x a ≤ lots_at x a ≤ ca_max_quantity_lots a * chosen x a ∧
  lots_at x a = filled x (ca_action_id a) 0 (ca_cost_slices a) ∧
  block_holds x (slices_block (ca_action_id a) 0 None (ca_cost_slices a)).
Proof.
  unfold block_holds, action_variables, action_rows, lots_at, chosen. simpl.
  rewrite !Forall_cons, Forall_app, Forall_singleton, !row_ok_constraint, within_upper, within_lower, within_exact.
  rewrite !activity_cons, activity_nil, fill_terms_opposite. unfold bounds_ok, int_variable. simpl.
  split.
  - intros (H1 & H2). split_and!; try tauto; lia.
  - intros H. split_and!; try tauto; lia.
Qed.

Lemma action_exact p x a :
  wf_action p a → block_holds x (action_variables a, action_rows a) →
  (chosen x a = 0 ∧ lots_at x a = 0 ∨ chosen x a = 1 ∧ in_range a (lots_at x a)) ∧
  slices_cost_at x a = lots_cost (ca_cost_slices a) (lots_at x a).
Proof.
  intros Hwf (Hq & Hb & Hr & E & Hs)%action_block. pose proof (wa_bounds _ _ Hwf) as Hbound. split.
  - unfold in_range. assert (chosen x a = 0 ∨ chosen x a = 1) as [Hc|Hc] by lia; rewrite Hc in *; lia.
  - destruct (slices_exact x _ _ _ 0 _ (wa_slices _ _ Hwf) Hs) as (_ & Hc & _). unfold slices_cost_at, lots_cost. by rewrite Hc, E.
Qed.

Lemma cost_terms_activity x actions : activity x (cost_terms actions) = sumZ (slices_cost_at x <$> actions).
Proof.
  unfold cost_terms. induction actions as [|a actions IH]; [done|]. csimpl. rewrite activity_app, IH. done.
Qed.

(** ** Excluded vectors *)

Definition target_of (targets : gmap string Z) (a : CandidateAction) : Z := default 0 (targets !! ca_action_id a).

(** The dictionary of an excluded vector. *)
Definition quantity_dict (qs : list ActionQuantity) : gmap string Z :=
  py_dict ((λ item, (aq_action_id item, aq_quantity_lots item)) <$> qs).

Definition witness_sum (x : string → Z) (ws : list (IntVariable * LinearConstraint)) : Z :=
  sumZ ((λ v, x (iv_name v)) <$> ws.*1).

Lemma nogood_action_sound x n targets a :
  block_holds x ((nogood_action n targets a).*1, (nogood_action n targets a).*2) →
  0 < witness_sum x (nogood_action n targets a) → lots_at x a ≠ target_of targets a.
Proof.
  unfold block_holds, witness_sum, nogood_action, target_of, lots_at. set (t := default 0 _). simpl.
  destruct (0 <? t) eqn:E1, (t <? ca_max_quantity_lots a) eqn:E2; simpl;
    rewrite ?Forall_cons, ?row_ok_constraint, ?within_upper, ?within_lower, ?activity_cons, ?activity_nil;
    unfold bounds_ok, int_variable; simpl; [| | |lia];
    set (l := x (nogood_witness n "lower" _)) || idtac; set (h := x (nogood_witness n "higher" _)) || idtac.
  - intros ((Hl & Hh & _) & Rl & Rh & _) Hs.
    assert (l = 1 ∨ h = 1) as [->| ->] by lia; lia.
  - intros ((Hl & _) & Rl & _) Hs. assert (l = 1) as -> by lia. lia.
  - intros ((Hh & _) & Rh & _) Hs. assert (h = 1) as -> by lia. lia.
Qed.

Lemma sumZ_pos_elem {A} (f : A → Z) l : 0 < sumZ (f <$> l) → ∃ a, a ∈ l ∧ 0 < f a.
Proof.
  induction l as [|a l IH]; csimpl; [lia|]. intros H. destruct (decide (0 < f a)) as [Ha|Ha].
  - exists a. split; [left|done].
  - destruct IH as (b & Hb & ?); [lia|]. exists b. split; [by right|done].
Qed.

Lemma witness_sum_bind x (f : CandidateAction → list (IntVariable * LinearConstraint)) actions :
  witness_sum x (actions ≫= f) = sumZ ((λ a, witness_sum x (f a)) <$> actions).
Proof.
  unfold witness_sum. induction actions as [|a l IH]; [done|]. csimpl. by rewrite !fmap_app, sumZ_app, IH.
Qed.

Lemma block_holds_bind {A} x (f : A → list (IntVariable * LinearConstraint)) l :
  block_holds x ((l ≫= f).*1, (l ≫= f).*2) ↔ ∀ a, a ∈ l → block_holds x ((f a).*1, (f a).*2).
Proof.
  unfold block_holds. simpl. induction l as [|a l IH]; csimpl.
  - split; [intros _ a Ha; by apply not_elem_of_nil in Ha|split; constructor].
  - rewrite !fmap_app, !Forall_app. split.
    + intros [[H1 H2] [H3 H4]] b [->|Hb]%elem_of_cons; [done|]. by apply IH.
    + intros H. destruct (H a ltac:(left)) as [H1 H3]. destruct (proj2 IH) as [H2 H4]; [|done].
      intros b Hb. apply H. by right.
Qed.

(** The rows of an excluded vector, given bounds and implications. *)
Lemma nogood_block_inv p actions n vector b :
  nogood_block p actions (n, vector) = Ok b →
  ∃ canonical, canonical_quantities p vector = Ok canonical ∧
    ∀ x, block_holds x b ↔
      (∀ a, a ∈ actions → let ws := nogood_action n (quantity_dict canonical) a in block_holds x (ws.*1, ws.*2)) ∧
      1 ≤ sumZ ((λ a, witness_sum x (nogood_action n (quantity_dict canonical) a)) <$> actions).
Proof.
  unfold nogood_block. intros (canonical & Hc & (u & _ & [= <-])%bind_Ok)%bind_Ok. exists canonical. split; [done|].
  intros x. fold (quantity_dict canonical). rewrite <- block_holds_bind, <- witness_sum_bind.
  set (ws := actions ≫= nogood_action n (quantity_dict canonical)). unfold block_holds. simpl.
  rewrite Forall_app, Forall_singleton, row_ok_constraint, within_lower, (activity_ones x iv_name). unfold witness_sum. tauto.
Qed.

Lemma nogood_block_sound p actions n vector b x :
  nogood_block p actions (n, vector) = Ok b → block_holds x b →
  ∃ canonical a, canonical_quantities p vector = Ok canonical ∧ a ∈ actions ∧
    lots_at x a ≠ target_of (quantity_dict canonical) a.
Proof.
  intros (canonical & Hc & Hb)%nogood_block_inv [Ha Hs]%Hb.
  destruct (sumZ_pos_elem (λ a, witness_sum x (nogood_action n (quantity_dict canonical) a)) actions) as (a & Hin & Hpos); [lia|].
  exists canonical, a. split_and!; [done..|]. apply (nogood_action_sound x n); [by apply Ha|done].
Qed.

(** ** Known cuts *)

(** Payout per lot of an action in a cut. *)
Definition cut_payout (cut : WorstStateCut) (i : string) : Z :=
  default 0 (py_dict ((λ y, (ap_action_id y, payout_lower_bound_per_lot_units y)) <$> cut_payout_per_lot cut) !! i).

Definition payout_under (x : string → Z) (actions : list CandidateAction) (cut : WorstStateCut) : Z :=
  sumZ ((λ a, cut_payout cut (ca_action_id a) * lots_at x a) <$> actions).

Lemma cut_terms_activity x actions cut terms :
  cut_terms actions cut = Ok terms → activity x terms = payout_under x actions cut.
Proof.
  unfold cut_terms, payout_under, cut_payout. set (D := py_dict _). intros Ht%mapM_Ok.
  induction Ht as [|a t actions terms (k & Hk%of_option_Ok & [= <-])%bind_Ok _ IH]; [done|].
  csimpl. rewrite activity_cons, IH, Hk. unfold lots_at. simpl. lia.
Qed.

Lemma cut_terms_outcome `{Sha256} p ω cut a :
  wf_problem p → outcome p ω → cut_from_scenario p (scenario p ω) = Ok cut → a ∈ pb_actions p →
  cut_payout cut (ca_action_id a) = payout_of p ω (ca_action_id a).
Proof.
  intros Hwf Ho Hcut Ha. apply bind_Ok in Hcut as (? & _ & Hcut). rewrite (cut_of_outcome p Hwf ω Ho) in Hcut.
  injection Hcut as <-. unfold cut_payout. simpl.
  destruct (action_state p Hwf ω Ho a Ha) as (s & Hs & _ & (y & Ey & Hy)%list_elem_of_fmap).
  assert (Hin : y ∈ outcome_payouts p ω) by (apply outcome_payouts_elem; eauto).
  rewrite Ey, (payout_of_spec p Hwf ω Ho y Hin), (py_dict_fmap_lookup ap_action_id _ _ y); [done| |].
  - rewrite sort_on_perm. by apply outcome_payouts_NoDup.
  - by rewrite sort_on_perm.
Qed.

(** The rows of the cuts: the payout is at most every cut's, and at least the
    chosen one's. *)
Lemma cut_rows_holds x lowest n terms bounds rows :
  cut_rows lowest (n, (terms, bounds)) = Ok rows →
  Forall (row_ok x) rows ↔
  x "payout" ≤ activity x terms ∧
  - (bounds.2 - lowest) ≤ x "payout" - activity x terms - x (cut_choice n) * (bounds.2 - lowest).
Proof.
  unfold cut_rows. destruct bounds as [? high]. intros (m & Hm & [= <-])%bind_Ok.
  apply bind_Ok in Hm as (? & _ & [= <-]). simpl.
  rewrite Forall_cons, Forall_singleton, !row_ok_constraint, within_upper, within_lower, !activity_cons, activity_app,
    activity_negated, activity_cons, activity_nil.
  split; intros; lia.
Qed.

(** ** The whole model *)

Lemma feasible_linear_model variables rows o x :
  feasible (linear_model variables rows o) x ↔ block_holds x (variables, rows).
Proof.
  unfold block_holds. simpl. split.
  - intros [Hb Hr]. simpl in Hb, Hr. rewrite sort_on_perm in Hb. rewrite sort_on_perm in Hr. done.
  - intros [Hb Hr]. split; simpl; by rewrite sort_on_perm.
Qed.

Definition choice_names (cuts : list WorstStateCut) : list string := imap (λ n _, cut_choice n) cuts.

(** The variables before the payout. *)
Definition base_variables (actions : list CandidateAction) (nogoods : list (list IntVariable * list LinearConstraint)) : list IntVariable :=
  (actions ≫= action_variables) ++ mjoin nogoods.*1.
Definition cost_variables (actions : list CandidateAction) (nogoods : list (list IntVariable * list LinearConstraint)) (cost : Z * Z)
  : list IntVariable := base_variables actions nogoods ++ [int_variable "cost" cost.1 cost.2].

(** The pieces [compile_master] assembles. *)
Record master_parts `{Sha256} (p : ArbitrageProblem) (component : RelationComponent) (profile : ReleaseProfile)
    (cuts : list WorstStateCut) (excluded : list (list ActionQuantity)) (cm : CompiledMaster)
    (actions : list CandidateAction) (nogoods : list (list IntVariable * list LinearConstraint)) (cost : Z * Z)
    (terms : list (list term)) (bounds : list (Z * Z)) (cut_constraints : list (list LinearConstraint))
    (extra : list IntVariable * list LinearConstraint) (qualification : list (list LinearConstraint)) : Prop := {
  mp_wf : wf_problem p;
  mp_timing : release_timing p (rp_release_at profile) = Ok (rp_delay_seconds profile, rp_occupied_days profile);
  mp_cuts : Forall (λ cut, cut_from_scenario p (cut_scenario cut) = Ok cut) cuts;
  mp_nonempty : cuts ≠ [];
  mp_actions : Forall2 (λ i a, a ∈ pb_actions p ∧ ca_action_id a = i) (rl_action_ids component) actions;
  mp_nogoods : Forall2 (λ entry b, nogood_block p actions entry = Ok b) (imap pair excluded) nogoods;
  mp_terms : Forall2 (λ cut t, cut_terms actions cut = Ok t) cuts terms;
  mp_cost : terms_bounds (cost_terms actions) (index_by iv_name (base_variables actions nogoods)) = Ok cost;
  mp_bounds : Forall2 (λ t b, terms_bounds t (index_by iv_name (cost_variables actions nogoods cost)) = Ok b) terms bounds;
  mp_cut_rows : Forall2 (λ entry rows, cut_rows (minimum_of bounds.*1) entry = Ok rows) (imap pair (zip terms bounds)) cut_constraints;
  mp_extra : (if negb (bool_decide (pb_qualification_constraints p = []))
              then qualification_block p actions (index_by iv_name (cost_variables actions nogoods cost)) (minimum_of bounds.*2) cost.1 cost.2
              else Ok ([], [])) = Ok extra;
  mp_qualification :
    Forall2 (λ c rows, qualification_rows profile
               (if negb (bool_decide (pb_qualification_constraints p = [])) then qualified_variable else plain_variable) c = Ok rows)
      (pb_qualification_constraints p) qualification;
  mp_model : cm_model cm = linear_model
    (cost_variables actions nogoods cost ++ [int_variable "payout" (minimum_of bounds.*1) (minimum_of bounds.*2)] ++
     ((λ name, int_variable name 0 1) <$> choice_names cuts) ++ [int_variable "profit" (minimum_of bounds.*1 - cost.2) (minimum_of bounds.*2 - cost.1)] ++ extra.1)
    (((actions ≫= action_rows) ++ mjoin nogoods.*2) ++
     [linear_constraint "cost:def" (("cost", 1) :: negated (cost_terms actions)) (Some 0) (Some 0);
      linear_constraint "cut-choice:one" ((λ name, (name, 1)) <$> choice_names cuts) (Some 1) (Some 1)] ++
     mjoin cut_constraints ++
     [linear_constraint "profit:def" [("profit", 1); ("payout", -1); ("cost", 1)] (Some 0) (Some 0)] ++
     extra.2 ++ mjoin qualification ++ release_rows profile actions)
    (Some (linear_objective MAX [("profit", 1)]));
  mp_valid : validate_linear_model (cm_model cm) = Ok tt;
  mp_quantities : cm_quantity_variables cm = (λ a, (ca_action_id a, quantity_name (ca_action_id a))) <$> actions;
  mp_selected : cm_selected_variables cm = (λ a, (ca_action_id a, selected_name (ca_action_id a))) <$> actions;
  mp_profile : cm_release_profile cm = profile;
}.

Lemma compile_master_inv `{Sha256} p component profile cuts excluded cm :
  compile_master p component profile cuts excluded = Ok cm →
  ∃ actions nogoods cost terms bounds cut_constraints extra qualification,
    master_parts p component profile cuts excluded cm actions nogoods cost terms bounds cut_constraints extra qualification.
Proof.
  unfold compile_master. intros (timing & Ht & (u1 & E1%require_Ok & (canonical & Hcan%mapM_Ok & Hm)%bind_Ok)%bind_Ok)%bind_Ok.
  apply bind_Ok in Hm as (u2 & E2%require_Ok & Hm). apply bind_Ok in Hm as (u3 & E3%require_Ok & Hm).
  apply bind_Ok in Hm as (actions & Ha%mapM_Ok & Hm). apply bind_Ok in Hm as (u4 & _ & Hm).
  apply bind_Ok in Hm as (u5 & _ & Hm). apply bind_Ok in Hm as (nogoods & Hn%mapM_Ok & Hm).
  apply bind_Ok in Hm as ([cmin cmax] & Hc & Hm). apply bind_Ok in Hm as (terms & Hterms%mapM_Ok & Hm).
  apply bind_Ok in Hm as (u6 & E6%require_Ok & Hm). apply bind_Ok in Hm as (bounds & Hb%mapM_Ok & Hm).
  apply bind_Ok in Hm as (cuts' & Hcr%mapM_Ok & Hm).
  apply bind_Ok in Hm as (pmin & Hpmin & Hm). apply bind_Ok in Hm as (pmax & Hpmax & Hm).
  apply bind_Ok in Hm as ([vars rows] & Hx & Hm). apply bind_Ok in Hm as (qual & Hq%mapM_Ok & Hm).
  apply bind_Ok in Hm as ([] & Hv & [= <-]).
  apply bind_Ok in Hpmin as (u7 & _ & [= <-]). apply bind_Ok in Hpmax as (u8 & _ & [= <-]).
  bool_prop. subst canonical. rewrite <- E1 in Ht.
  exists actions, nogoods, (cmin, cmax), terms, bounds, cuts', (vars, rows), qual.
  assert (Hne : cuts ≠ []).
  { intros ->. apply Forall2_nil_inv_l in Hterms as ->. done. }
  assert (Hall : Forall (λ cut, cut_from_scenario p (cut_scenario cut) = Ok cut) cuts).
  { clear -Hcan. apply Forall_lookup. intros i cut Hi. destruct (Forall2_lookup_l _ _ _ _ _ Hcan Hi) as (c' & Hc' & E).
    congruence. }
  refine {| mp_wf := _; mp_timing := Ht; mp_cuts := Hall; mp_nonempty := Hne |}; try done.
  - destruct cuts as [|cut cuts]; [done|]. apply Forall_cons in Hall as [Hall _]. by apply bind_Ok in Hall as (u & Hw%require_valid_Ok & _).
  - eapply Forall2_impl; [exact Ha|]. intros i a Hi%of_option_Ok. by apply index_by_elem in Hi.
Qed.

(** ** Points of the model, row by row *)

Section point.
Context `{Sha256} (p : ArbitrageProblem) (component : RelationComponent) (profile : ReleaseProfile).
Context (cuts : list WorstStateCut) (excluded : list (list ActionQuantity)) (cm : CompiledMaster).
Context (actions : list CandidateAction) (nogoods : list (list IntVariable * list LinearConstraint)) (cost : Z * Z).
Context (terms : list (list term)) (bounds : list (Z * Z)) (cut_constraints : list (list LinearConstraint)).
Context (extra : list IntVariable * list LinearConstraint) (qualification : list (list LinearConstraint)).
Context (MP : master_parts p component profile cuts excluded cm actions nogoods cost terms bounds cut_constraints extra qualification).

Record master_rows (x : string → Z) : Prop := {
  ro_actions : ∀ a, a ∈ actions → block_holds x (action_variables a, action_rows a);
  ro_nogoods : Forall (block_holds x) nogoods;
  ro_cost_bounds : cost.1 ≤ x "cost" ≤ cost.2;
  ro_cost : x "cost" = sumZ (slices_cost_at x <$> actions);
  ro_payout_bounds : minimum_of bounds.*1 ≤ x "payout" ≤ minimum_of bounds.*2;
  ro_choice_bounds : Forall (λ name, 0 ≤ x name ≤ 1) (choice_names cuts);
  ro_choice : sumZ (x <$> choice_names cuts) = 1;
  ro_cuts : Forall (Forall (row_ok x)) cut_constraints;
  ro_profit_bounds : minimum_of bounds.*1 - cost.2 ≤ x "profit" ≤ minimum_of bounds.*2 - cost.1;
  ro_profit : x "profit" = x "payout" - x "cost";
  ro_extra : block_holds x extra;
  ro_qualification : Forall (Forall (row_ok x)) qualification;
  ro_release : Forall (row_ok x) (release_rows profile actions);
}.

Lemma Forall_bind_iff {A B} (P : B → Prop) (f : A → list B) l : Forall P (l ≫= f) ↔ ∀ a, a ∈ l → Forall P (f a).
Proof.
  induction l as [|a l IH]; csimpl.
  - split; [intros _ a Ha; by apply not_elem_of_nil in Ha|constructor].
  - rewrite Forall_app, IH. split.
    + intros [H1 H2] b [->|Hb]%elem_of_cons; auto.
    + intros Hall. split; [apply Hall; left|]. intros b Hb. apply Hall. by right.
Qed.

Lemma Forall_mjoin_iff {B} (P : B → Prop) (l : list (list B)) : Forall P (mjoin l) ↔ Forall (Forall P) l.
Proof. rewrite (Forall_forall (Forall P)). induction l as [|a l IH]; csimpl; [split; [intros _ a Ha; by apply not_elem_of_nil in Ha|constructor]|].
  rewrite Forall_app, IH. split.
  - intros [H1 H2] b [->|Hb]%elem_of_cons; auto.
  - intros Hall. split; [apply Hall; left|]. intros b Hb. apply Hall. by right.
Qed.

Lemma blocks_hold x (bs : list (list IntVariable * list LinearConstraint)) :
  Forall (bounds_ok x) (mjoin bs.*1) ∧ Forall (row_ok x) (mjoin bs.*2) ↔ Forall (block_holds x) bs.
Proof.
  unfold block_holds. rewrite !Forall_mjoin_iff, !Forall_fmap, !Forall_forall. unfold compose.
  split; [intros [H1 H2] b Hb; split; auto|intros Hall; split; intros b Hb; by apply Hall].
Qed.

Lemma cost_row x :
  row_ok x (linear_constraint "cost:def" (("cost", 1) :: negated (cost_terms actions)) (Some 0) (Some 0)) ↔
  x "cost" = sumZ (slices_cost_at x <$> actions).
Proof. rewrite row_ok_constraint, within_exact, activity_cons, activity_negated, cost_terms_activity. lia. Qed.

Lemma choice_row x :
  row_ok x (linear_constraint "cut-choice:one" ((λ name, (name, 1)) <$> choice_names cuts) (Some 1) (Some 1)) ↔
  sumZ (x <$> choice_names cuts) = 1.
Proof. by rewrite row_ok_constraint, within_exact, (activity_ones x (λ name, name)). Qed.

Lemma difference_row x name l r d :
  row_ok x (linear_constraint name [(d, 1); (l, -1); (r, 1)] (Some 0) (Some 0)) ↔ x d = x l - x r.
Proof. rewrite row_ok_constraint, within_exact, !activity_cons, activity_nil. lia. Qed.

Lemma bounds_variable x name lower upper : bounds_ok x (int_variable name lower upper) ↔ lower ≤ x name ≤ upper.
Proof. done. Qed.

Lemma feasible_master x : feasible (cm_model cm) x ↔ master_rows x.
Proof.
  rewrite (mp_model _ _ _ _ _ _ _ _ _ _ _ _ _ _ MP), feasible_linear_model. unfold block_holds, cost_variables, base_variables. cbn [fst snd].
  pose proof (blocks_hold x nogoods) as Hng.
  assert (Hch : Forall (bounds_ok x) ((λ name, int_variable name 0 1) <$> choice_names cuts) ↔ Forall (λ name, 0 ≤ x name ≤ 1) (choice_names cuts))
    by apply Forall_fmap.
  rewrite !Forall_app, !Forall_singleton, Forall_cons, Forall_singleton, Forall_bind_iff, Forall_bind_iff, Hch,
    (Forall_mjoin_iff _ cut_constraints), (Forall_mjoin_iff _ qualification), cost_row, choice_row, difference_row, !bounds_variable.
  split.
  - intros [(((Hb1 & Hb2) & Hb3) & Hb4 & Hb5 & Hb6 & Hb7) ((Hr1 & Hr2) & (Hr3 & Hr4) & Hr5 & Hr6 & Hr7 & Hr8 & Hr9)].
    split; try assumption; [|by apply Hng|by split].
    intros a Ha. split; [by apply Hb1|by apply Hr1].
  - intros [R1 R2 R3 R4 R5 R6 R7 R8 R9 R10 R11 R12 R13]. apply Hng in R2 as [R2 R2'].
    split_and!; try assumption; try apply R11; try (intros a Ha; by apply R1); lia.
Qed.

(** What a point says about the portfolio it encodes. *)
Record master_point (x : string → Z) : Prop := {
  mt_actions : ∀ a, a ∈ actions → chosen x a = 0 ∧ lots_at x a = 0 ∨ chosen x a = 1 ∧ in_range a (lots_at x a);
  mt_cost : x "cost" = sumZ ((λ a, lots_cost (ca_cost_slices a) (lots_at x a)) <$> actions);
  mt_payout_le : ∀ cut, cut ∈ cuts → x "payout" ≤ payout_under x actions cut;
  mt_payout_eq : ∃ cut, cut ∈ cuts ∧ x "payout" = payout_under x actions cut;
  mt_profit : x "profit" = x "payout" - x "cost";
  mt_exact : ∃ a, a ∈ actions ∧ ca_action_id a ∈ rp_exact_action_ids profile ∧ chosen x a = 1;
  mt_eligible : ∀ a, a ∈ actions → ca_action_id a ∉ rp_eligible_action_ids profile → chosen x a = 0;
  mt_excluded : ∀ v, v ∈ excluded → ∃ canonical a, canonical_quantities p v = Ok canonical ∧ a ∈ actions ∧
    lots_at x a ≠ target_of (quantity_dict canonical) a;
}.

Lemma actions_wf a : a ∈ actions → a ∈ pb_actions p ∧ wf_action p a.
Proof.
  intros (i & Hi)%list_elem_of_lookup. destruct (Forall2_lookup_r _ _ _ _ _ (mp_actions _ _ _ _ _ _ _ _ _ _ _ _ _ _ MP) Hi) as (j & _ & Ha & _).
  split; [done|]. exact (proj1 (Forall_forall _ _) (wf_actions _ (mp_wf _ _ _ _ _ _ _ _ _ _ _ _ _ _ MP)) a Ha).
Qed.

Lemma and_iff_compat (A B C D : Prop) : (A ↔ C) → (B ↔ D) → A ∧ B ↔ C ∧ D.
Proof. tauto. Qed.

Lemma release_rows_holds x :
  (∀ a, a ∈ actions → 0 ≤ chosen x a ≤ 1) →
  Forall (row_ok x) (release_rows profile actions) ↔
  (∃ a, a ∈ actions ∧ ca_action_id a ∈ rp_exact_action_ids profile ∧ chosen x a = 1) ∧
  ∀ a, a ∈ actions → ca_action_id a ∉ rp_eligible_action_ids profile → chosen x a = 0.
Proof.
  intros Hc. unfold release_rows. rewrite Forall_cons, row_ok_constraint, within_lower, Forall_fmap, Forall_forall,
    (activity_ones x (λ a, selected_name (ca_action_id a))).
  change (λ a, x (selected_name (ca_action_id a))) with (chosen x). apply and_iff_compat.
  - split.
    + intros Hs. destruct (sumZ_pos_elem (chosen x) (filter (λ a, ca_action_id a ∈ rp_exact_action_ids profile) actions))
        as (a & [He Ha]%list_elem_of_filter & Hpos); [lia|]. exists a. split_and!; [done..|]. pose proof (Hc a Ha). lia.
    + intros (a & Ha & He & E).
      assert (Hin : a ∈ filter (λ a, ca_action_id a ∈ rp_exact_action_ids profile) actions) by (by apply list_elem_of_filter).
      assert (Hnn : Forall (λ b, 0 ≤ chosen x b) (filter (λ a, ca_action_id a ∈ rp_exact_action_ids profile) actions)).
      { apply Forall_forall. intros b [_ Hb]%list_elem_of_filter. by apply Hc. }
      induction Hnn as [|b l Hb Hl IH]; [by apply not_elem_of_nil in Hin|]. csimpl.
      assert (0 ≤ sumZ (chosen x <$> l)) by (by apply sumZ_nonneg, Forall_fmap).
      apply elem_of_cons in Hin as [<-|Hin]; [lia|]. specialize (IH Hin). lia.
  - unfold compose. split.
    + intros Hall a Ha He. specialize (Hall a). rewrite row_ok_constraint, within_exact, activity_cons, activity_nil in Hall.
      unfold chosen. specialize (Hall ltac:(by apply list_elem_of_filter)). lia.
    + intros Hall a [He Ha]%list_elem_of_filter. rewrite row_ok_constraint, within_exact, activity_cons, activity_nil.
      pose proof (Hall a Ha He) as E. unfold chosen in E. lia.
Qed.

(** The chosen cut is the least: the payout equals it. *)
Lemma choice_payout x :
  Forall (λ name, 0 ≤ x name ≤ 1) (choice_names cuts) → sumZ (x <$> choice_names cuts) = 1 →
  Forall (Forall (row_ok x)) cut_constraints →
  (∀ cut, cut ∈ cuts → x "payout" ≤ payout_under x actions cut) ∧
  ∃ cut, cut ∈ cuts ∧ x "payout" = payout_under x actions cut.
Proof.
  intros Hb Hs Hr.
  assert (Hn : ∀ n cut, cuts !! n = Some cut →
    x "payout" ≤ payout_under x actions cut ∧ (x (cut_choice n) = 1 → payout_under x actions cut ≤ x "payout")).
  { intros n cut Hcut.
    destruct (Forall2_lookup_l _ _ _ _ _ (mp_terms _ _ _ _ _ _ _ _ _ _ _ _ _ _ MP) Hcut) as (t & Ht & Et).
    destruct (Forall2_lookup_l _ _ _ _ _ (mp_bounds _ _ _ _ _ _ _ _ _ _ _ _ _ _ MP) Ht) as (b & Hb' & Eb).
    assert (Hz : imap pair (zip terms bounds) !! n = Some (n, (t, b))).
    { rewrite list_lookup_imap, lookup_zip_with, Ht. simpl. by rewrite Hb'. }
    destruct (Forall2_lookup_l _ _ _ _ _ (mp_cut_rows _ _ _ _ _ _ _ _ _ _ _ _ _ _ MP) Hz) as (rows & Hrows & Er).
    pose proof (Forall_lookup_1 _ _ _ _ Hr Hrows) as Hok. apply (cut_rows_holds x _ _ _ _ _ Er) in Hok as [H1 H2].
    rewrite (cut_terms_activity x actions cut t Et) in H1, H2. split; [done|]. intros E. rewrite E in H2. lia. }
  split.
  - intros cut (n & Hcut)%list_elem_of_lookup. by apply (Hn n).
  - destruct (sumZ_pos_elem x (choice_names cuts)) as (name & Hname & Hpos); [lia|].
    rewrite Forall_forall in Hb. pose proof (Hb name Hname). apply list_elem_of_lookup in Hname as (n & E).
    unfold choice_names in E. rewrite list_lookup_imap in E. apply fmap_Some in E as (cut & Hcut & ->).
    exists cut. split; [by eapply list_elem_of_lookup_2|]. destruct (Hn n cut Hcut) as [H1 H2]. specialize (H2 ltac:(lia)). lia.
Qed.

Lemma master_rows_point x : master_rows x → master_point x.
Proof.
  intros [R1 R2 R3 R4 R5 R6 R7 R8 R9 R10 R11 R12 R13].
  assert (Ha : ∀ a, a ∈ actions → (chosen x a = 0 ∧ lots_at x a = 0 ∨ chosen x a = 1 ∧ in_range a (lots_at x a)) ∧
    slices_cost_at x a = lots_cost (ca_cost_slices a) (lots_at x a)).
  { intros a Hin. apply (action_exact p); [by apply actions_wf|by apply R1]. }
  destruct (choice_payout x R6 R7 R8) as [Hle Heq].
  apply release_rows_holds in R13 as [Hex Hel]; [|intros a Hin; destruct (proj1 (Ha a Hin)) as [[-> _]|[-> _]]; lia].
  split; try done.
  - intros a Hin. by apply Ha.
  - rewrite R4. apply sumZ_fmap_ext. intros a Hin. by apply Ha.
  - intros v (n & Hv)%list_elem_of_lookup.
    assert (Hi : imap pair excluded !! n = Some (n, v)) by (by rewrite list_lookup_imap, Hv).
    destruct (Forall2_lookup_l _ _ _ _ _ (mp_nogoods _ _ _ _ _ _ _ _ _ _ _ _ _ _ MP) Hi) as (b & Hb & Eb).
    apply (nogood_block_sound p actions n v b x Eb). by apply (Forall_lookup_1 _ _ _ _ R2 Hb).
Qed.
End point.
