(* ===== verification/GenerationCorrect.v ===== *)
(** * What the solver calls establish

    [returns m a]: the computation can return [a], from some call number.  An
    answer that passes the boundary check is a point of its model; with an
    honest backend an OPTIMAL answer is an optimum and an INFEASIBLE one is
    true.  The lexicographic master therefore returns an optimal point when it
    says so. *)

From S2P Require Import Prelude PyValue NLeg NLegForms NLegValidate NLegWf UnionFind Oracle OracleScenario OracleEval OracleQualify Support Search SupportCorrect Components LinearModel TerminalModel TerminalCorrect FillCorrect FillProof Master Generation MasterCorrect.
Local Open Scope Z_scope.

(** ** Computations *)

Definition returns {A} (m : solver A) (a : A) : Prop := ∃ k k', run_from m k = Ok (a, k').

Lemma returns_bind {A B} (m : solver A) (f : A → solver B) b :
  returns (m ≫= f) b → ∃ a, returns m a ∧ returns (f a) b.
Proof.
  intros (k & k' & E). unfold mbind, solver_bind in E. simpl in E.
  destruct (run_from m k) as [[a j]|e] eqn:Em; [|done]. exists a. split; [by exists k, j|by exists j, k'].
Qed.

Lemma returns_lift {A} (m : res A) a : returns (lift m) a → m = Ok a.
Proof. intros (k & k' & E). unfold lift in E. simpl in E. destruct m; [by injection E as <-|done]. Qed.

Lemma returns_ret {A} (a b : A) : returns (mret a : solver A) b → b = a.
Proof. intros (k & k' & E). by injection E as <-. Qed.

Lemma returns_fold {A B} (P : B → Prop) (f : B → A → solver B) l b b' :
  P b → (∀ b x b', x ∈ l → P b → returns (f b x) b' → P b') → returns (solver_fold f b l) b' → P b'.
Proof.
  revert b. induction l as [|x l IH]; intros b Hb Hf; simpl.
  - by intros ->%returns_ret.
  - intros (b1 & H1 & H2)%returns_bind. apply (IH b1); [|intros; eapply Hf; [by right|done..]|done].
    eapply Hf; [left|done..].
Qed.

(** A fold over an invariant that follows the elements seen so far. *)
Lemma returns_fold_prefix {A B} (P : list A → B → Prop) (f : B → A → solver B) l b b' :
  P [] b → (∀ done x b b', x ∈ l → P done b → returns (f b x) b' → P (done ++ [x]) b') → returns (solver_fold f b l) b' → P l b'.
Proof.
  intros H0 Hstep. enough (∀ done b, P done b → (∀ x, x ∈ done ++ l → True) → returns (solver_fold f b l) b' → P (done ++ l) b') as Hg
    by (intros; apply (Hg [] b); auto).
  clear H0 b. induction l as [|x l IH]; intros dn b Hb _; simpl.
  - intros ->%returns_ret. by rewrite app_nil_r.
  - intros (b1 & H1 & H2)%returns_bind. replace (dn ++ x :: l) with ((dn ++ [x]) ++ l) by by rewrite <- app_assoc.
    apply (IH (λ d x b b' Hx, Hstep d x b b' (list_elem_of_further _ _ _ Hx)) (dn ++ [x]) b1); [|done|done].
    eapply Hstep; [left|done..].
Qed.

(** ** Honest backends *)

Definition better_or_equal (s : Sense) (best v : Z) : Prop := match s with MAX => v ≤ best | MIN => best ≤ v end.

(** OPTIMAL means that no integer point is better, INFEASIBLE that there is
    none. *)
Record honest (b : SolverBackend) : Prop := {
  ho_optimal : ∀ k m t r o x, sb_solve b k m t = Ok r → br_status r = NATIVE_OPTIMAL → lm_objective m = Some o →
    feasible m x → better_or_equal (lo_sense o) (activity (result_point r) (lo_coefficients o)) (activity x (lo_coefficients o));
  ho_infeasible : ∀ k m t r x, sb_solve b k m t = Ok r → br_status r = NATIVE_INFEASIBLE → ¬ feasible m x;
}.

Lemma value_of_point r n v : value_of r n = Ok v → v = result_point r n.
Proof. unfold value_of, result_point. intros ->%of_option_Ok. done. Qed.

Section backend.
Context (backend : SolverBackend) (limit : Z).

(** What is known of an answer to [m]. *)
Record answers (m : LinearModel) (r : BackendResult) : Prop := {
  as_point : claims_point (br_status r) = true → lm_variables m ≠ [] → feasible m (result_point r);
  as_optimal : honest backend → br_status r = NATIVE_OPTIMAL → ∀ o x, lm_objective m = Some o → feasible m x →
    better_or_equal (lo_sense o) (activity (result_point r) (lo_coefficients o)) (activity x (lo_coefficients o));
  as_infeasible : honest backend → br_status r = NATIVE_INFEASIBLE → ∀ x, ¬ feasible m x;
}.

Lemma solve_checked_answers m r : returns (solve_checked backend limit m) r → answers m r.
Proof.
  intros (k & k' & E). unfold solve_checked in E. simpl in E.
  destruct (checked_backend_solve backend k m limit) as [r'|] eqn:Ec; [|done]. injection E as -> _.
  apply bind_Ok in Ec as (r'' & Hr & (u & Hv & [= ->])%bind_Ok). split.
  - intros Hc Hne. by apply (validate_backend_result_sound m r u Hv Hc Hne).
  - intros Hh Ho o x Hobj Hx. by eapply ho_optimal.
  - intros Hh Hi x Hx. by eapply ho_infeasible.
Qed.

Lemma objective_activity_point m r v :
  objective_activity m r = Ok v → ∃ o, lm_objective m = Some o ∧ v = activity (result_point r) (lo_coefficients o).
Proof.
  unfold objective_activity. intros (o & Ho%of_option_Ok & (t & Ht%row_activity_exact & (u & _ & [= <-])%bind_Ok)%bind_Ok)%bind_Ok.
  by exists o.
Qed.

Lemma add_row_feasible m c x : feasible (add_row m c) x ↔ feasible m x ∧ row_ok x c.
Proof.
  unfold add_row. rewrite feasible_linear_model. unfold block_holds. simpl. rewrite Forall_app, Forall_singleton. split.
  - intros (Hb & Hr & Hc). done.
  - intros [[Hb Hr] Hc]. done.
Qed.

Lemma linear_model_variables vs rows o : lm_variables (linear_model vs rows o) ≡ₚ vs.
Proof. apply sort_on_perm. Qed.

Lemma perm_nonempty {A} (l k : list A) : l ≡ₚ k → k ≠ [] → l ≠ [].
Proof. intros Hp Hk ->. by apply Permutation_nil_l in Hp. Qed.

(** ** The lexicographic master *)

Lemma objective_of_locked m o : lm_objective (set_objective m o) = Some o.
Proof. done. Qed.

Lemma variables_of_locked m o : lm_variables m ≠ [] → lm_variables (set_objective m o) ≠ [].
Proof. apply perm_nonempty, linear_model_variables. Qed.

Lemma variables_of_row m c : lm_variables m ≠ [] → lm_variables (add_row m c) ≠ [].
Proof. apply perm_nonempty, sort_on_perm. Qed.

Section master.
Context (compiled : CompiledMaster) (Hne : lm_variables (cm_model compiled) ≠ []).
Let m := cm_model compiled.

(** [x] is a point of the greatest profit. *)
Definition most_profitable (x : string → Z) : Prop := ∀ y, feasible m y → y "profit" ≤ x "profit".

Record lock_ok (st : LockState) : Prop := {
  lo_variables : lm_variables (lk_model st) ≠ [];
  lo_points : ∀ x, feasible (lk_model st) x → feasible m x;
  lo_first : lk_index st = 0%nat → lk_model st = m;
  lo_profit : honest backend → lk_index st ≠ 0%nat → ∀ x, feasible (lk_model st) x → most_profitable x;
}.

(** What an answer of the master says. *)
Record master_answer (r : BackendResult) (closed : bool) : Prop := {
  ma_point : claims_point (br_status r) = true → feasible m (result_point r);
  ma_infeasible : honest backend → br_status r = NATIVE_INFEASIBLE → ∀ x, ¬ feasible m x;
  ma_closed : closed = true → br_status r = NATIVE_OPTIMAL ∧ (honest backend → most_profitable (result_point r));
}.

Lemma unknown_answer r closed : closed = false → master_answer (set_status r NATIVE_UNKNOWN) closed.
Proof. intros ->. by split. Qed.

(** One locked solve; the first one must maximize the profit. *)
Lemma solve_and_lock_spec st objective r st' :
  lock_ok st → (lk_index st = 0%nat → objective = linear_objective MAX [("profit", 1)]) →
  returns (solve_and_lock backend limit st objective) (r, st') →
  (br_status r = NATIVE_OPTIMAL → lock_ok st' ∧ lk_index st' ≠ 0%nat ∧ master_answer r true) ∧
  (br_status r ≠ NATIVE_OPTIMAL → st' = st) ∧
  (lk_index st = 0%nat → master_answer r false).
Proof.
  intros [Hvars Hpts Hfirst Hprofit] Hobj (solved & Hs%solve_checked_answers & Hr)%returns_bind.
  destruct Hs as [Spt Sopt Sinf].
  assert (Hfeas : claims_point (br_status solved) = true → feasible (lk_model st) (result_point solved)).
  { intros Hc. apply (set_objective_feasible _ objective). apply Spt; [done|by apply variables_of_locked]. }
  assert (Hfalse : lk_index st = 0%nat → master_answer solved false).
  { intros E. split; [|intros Hh Hi x Hx|done].
    - intros Hc. by apply Hpts, Hfeas.
    - apply (Sinf Hh Hi x), set_objective_feasible. by rewrite (Hfirst E). }
  destruct (bool_decide (br_status solved = NATIVE_OPTIMAL)) eqn:E; bool_prop.
  2: { apply returns_ret in Hr as [= -> ->]. split_and!; [by intros|done|done]. }
  apply returns_bind in Hr as (v & Hv%returns_lift & [= -> ->]%returns_ret).
  apply objective_activity_point in Hv as (o & [= <-] & ->). split_and!; [|by intros|done]. intros _.
  assert (Hc : claims_point (br_status solved) = true) by by rewrite E.
  assert (Hbest : honest backend → most_profitable (result_point solved)).
  { intros Hh. destruct (decide (lk_index st = 0%nat)) as [E0|E0].
    - intros y Hy. specialize (Sopt Hh E _ y (objective_of_locked _ _)). rewrite (Hobj E0) in Sopt.
      specialize (Sopt ltac:(apply set_objective_feasible; by rewrite (Hfirst E0))). simpl in Sopt.
      unfold activity in Sopt. simpl in Sopt. lia.
    - by apply Hprofit, Hfeas. }
  split_and!; [|done|].
  - split; simpl.
    + eapply perm_nonempty; [apply sort_on_perm|done].
    + intros x [Hx _]%add_row_feasible. by apply Hpts.
    + done.
    + intros Hh _ x [Hx Hl]%add_row_feasible. destruct (decide (lk_index st = 0%nat)) as [E0|E0]; [|by apply Hprofit].
      rewrite row_ok_constraint, within_exact in Hl. intros y Hy. rewrite (Hobj E0) in Hl. unfold activity in Hl. simpl in Hl.
      pose proof (Hbest Hh y Hy). lia.
  - split; [|by rewrite E|done]. intros _. by apply Hpts, Hfeas.
Qed.

Definition phase_ok (acc : phase) : Prop :=
  match acc with
  | inl (r, closed) => closed = false ∧ master_answer r false
  | inr (None, st) => lock_ok st ∧ lk_index st = 0%nat
  | inr (Some r, st) => lock_ok st ∧ lk_index st ≠ 0%nat ∧ master_answer r true
  end.

(** A phase after the first one may solve for anything. *)
Definition started (acc : phase) : Prop :=
  match acc with inl _ => True | inr (o, _) => is_Some o end.

Lemma leading_step_spec acc objective out :
  phase_ok acc → (started acc ∨ objective = linear_objective MAX [("profit", 1)]) →
  returns (leading_step backend limit acc objective) out → phase_ok out ∧ started out.
Proof.
  intros Hok Hobj. destruct acc as [answer|[o st]]; simpl; [by intros ->%returns_ret|].
  assert (Hl : lock_ok st) by (destruct o; apply Hok).
  intros ([r st'] & Hr & Hout)%returns_bind.
  apply solve_and_lock_spec in Hr as (H1 & H2 & H3); [|done|].
  2: { intros E. destruct o as [r0|]; [destruct Hok as (_ & Hn & _); congruence|]. destruct Hobj as [[? ?]|?]; done. }
  destruct (bool_decide (br_status r = NATIVE_OPTIMAL)) eqn:E; bool_prop.
  - apply returns_ret in Hout as ->. destruct (H1 E) as (? & ? & ?). split; [by simpl|by eexists].
  - destruct (lk_index st =? 0)%nat eqn:E0; apply returns_ret in Hout as ->; (split; [|done]); simpl.
    + apply Nat.eqb_eq in E0. auto.
    + split; [done|]. by apply unknown_answer.
Qed.

Lemma later_lock_spec st objective r st' :
  lock_ok st → lk_index st ≠ 0%nat → returns (solve_and_lock backend limit st objective) (r, st') →
  br_status r = NATIVE_OPTIMAL → phase_ok (inr (Some r, st')).
Proof.
  intros Hl Hn Hr E. apply solve_and_lock_spec in Hr as (H1 & _ & _); [|done|done]. by apply H1.
Qed.

Lemma tie_step_spec quantities selected acc i out :
  phase_ok acc → started acc → returns (tie_step backend limit quantities selected acc i) out → phase_ok out ∧ started out.
Proof.
  intros Hok Hst. destruct acc as [answer|[o st]]; simpl; [by intros ->%returns_ret|].
  destruct Hst as [r0 ->]. destruct Hok as (Hl & Hn & _).
  intros (sv & _ & ([r st'] & Hr & Hout)%returns_bind)%returns_bind.
  destruct (bool_decide (br_status r = NATIVE_OPTIMAL)) eqn:E; bool_prop; simpl in Hout.
  2: { apply returns_ret in Hout as ->. split; [|done]. simpl. split; [done|]. by apply unknown_answer. }
  pose proof (later_lock_spec _ _ _ _ Hl Hn Hr E) as Hok'.
  apply returns_bind in Hout as (v & _ & Hout). destruct (v =? 0).
  { apply returns_ret in Hout as ->. split; [done|by eexists]. }
  destruct Hok' as (Hl' & Hn' & _).
  apply returns_bind in Hout as (qv & _ & ([r2 st2] & Hr2 & Hout)%returns_bind).
  destruct (bool_decide (br_status r2 = NATIVE_OPTIMAL)) eqn:E2; bool_prop; simpl in Hout; apply returns_ret in Hout as ->.
  - split; [exact (later_lock_spec _ _ _ _ Hl' Hn' Hr2 E2)|by eexists].
  - split; [|done]. simpl. split; [done|]. by apply unknown_answer.
Qed.

Lemma solve_master_spec r closed :
  returns (solve_master_lexicographically backend limit compiled) (r, closed) → master_answer r closed.
Proof.
  unfold solve_master_lexicographically, master_objectives. intros (o1 & H1 & (o2 & H2 & H3)%returns_bind)%returns_bind.
  assert (Hinit : phase_ok (inr (None, {| lk_model := m; lk_index := 0 |}))).
  { split; [|done]. split; simpl; try done. }
  assert (Ho1 : phase_ok o1 ∧ started o1).
  { cbn [solver_fold] in H1. apply returns_bind in H1 as (a & Ha & H1).
    apply leading_step_spec in Ha as [Ha Sa]; [|done|by right].
    apply returns_bind in H1 as (b & Hb & H1). apply leading_step_spec in Hb as [Hb Sb]; [|done|by left].
    apply returns_bind in H1 as (c & Hc & ->%returns_ret). apply leading_step_spec in Hc as [Hc Sc]; [done|done|by left]. }
  apply (returns_fold (λ acc, phase_ok acc ∧ started acc)) in H2 as [Hok Hs]; [|done|].
  2: { intros b x b' _ [? ?] Hb. by eapply tie_step_spec. }
  destruct o2 as [[r' c']|[o st]].
  - apply returns_ret in H3 as [= -> ->]. destruct Hok as [-> Hok]. done.
  - destruct Hs as [r' ->]. apply returns_bind in H3 as (r2 & Hr2%returns_lift & [= -> ->]%returns_ret).
    injection Hr2 as <-. apply Hok.
Qed.
End master.
End backend.

(** * Worst payouts and releases found by the backend

    An OPTIMAL answer to the payout adversary is the worst payout over the
    allowed outcomes, and the scenario read off it is an outcome that attains
    it; the releases found by reachability are the latest over the allowed
    outcomes. *)

(** ** The payout adversary *)

Lemma filterM_filter {A} (f : A → res bool) (g : A → bool) l k :
  filterM f l = Ok k → (∀ e b, e ∈ l → f e = Ok b → b = g e) → k = filter (λ e, g e = true) l.
Proof.
  revert k. induction l as [|e l IH]; intros k; simpl; [by intros [= <-]|].
  intros (b & Hb & (k' & Hk & [= <-])%bind_Ok)%bind_Ok Hg. rewrite filter_cons.
  rewrite <- (IH k' Hk) by (intros; eapply Hg; [by right|done]).
  rewrite <- (Hg e b ltac:(left) Hb). by destruct b.
Qed.

Lemma filter_bind {A B} (P : B → Prop) `{∀ x, Decision (P x)} (f : A → list B) l :
  filter P (l ≫= f) = l ≫= λ a, filter P (f a).
Proof. induction l as [|a l IH]; csimpl; [done|]. by rewrite filter_app, IH. Qed.

Lemma filter_one {A} (P : A → Prop) `{∀ x, Decision (P x)} (l : list A) w :
  NoDup l → w ∈ l → (∀ a, a ∈ l → P a ↔ a = w) → filter P l = [w].
Proof.
  intros Hnd Hw HP. assert (Hp : filter P l ≡ₚ [w]).
  { apply NoDup_Permutation; [by apply NoDup_filter|apply NoDup_singleton|]. intros a.
    rewrite list_elem_of_filter, list_elem_of_singleton. split; [intros [Ha Hin]; by apply HP|]. intros ->. split; [by apply HP|done]. }
  by apply Permutation_length_1_inv.
Qed.

Lemma filter_fmap {A B} (P : B → Prop) `{∀ x, Decision (P x)} (f : A → B) (l : list A) :
  filter P (f <$> l) = f <$> filter (λ a, P (f a)) l.
Proof. induction l as [|a l IH]; [done|]. csimpl. rewrite !filter_cons, IH. case_decide; done. Qed.

Lemma NoDup_of_fmap {A B} (f : A → B) l : NoDup (f <$> l) → NoDup l.
Proof. apply NoDup_fmap_1. Qed.

(** The atoms a represented point selects, in order. *)
Lemma selected_atoms_of p x ω :
  wf_problem p → outcome p ω → represents p x ω →
  filter (λ e, (x e.2 =? 1) = true) (sorted_states p ≫= λ s,
    (λ t, (SelAtom (ts_market_contract_id s) (ta_atom_id t), z (ta_atom_id t))) <$> sort_on ta_atom_id (ts_atoms s))
  = (λ s, let t := ω (ts_market_contract_id s) in (SelAtom (ts_market_contract_id s) (ta_atom_id t), z (ta_atom_id t))) <$> sorted_states p.
Proof.
  intros Hwf Ho Hx. rewrite filter_bind.
  assert (Hin : Forall (.∈ pb_terminal_state_sets p) (sorted_states p)) by (apply Forall_forall; intros s; apply sorted_states_elem).
  induction Hin as [|s l Hs _ IH]; [done|]. csimpl. rewrite IH. set (w := ω (ts_market_contract_id s)).
  rewrite filter_fmap. rewrite (filter_one _ (sort_on ta_atom_id (ts_atoms s)) w); [done| | |].
  - rewrite sort_on_perm. by eapply NoDup_of_fmap, state_atom_ids_NoDup.
  - rewrite sort_on_perm. by apply Ho.
  - intros t Ht. rewrite sort_on_perm in Ht. simpl. rewrite (Hx s t Hs Ht). fold w.
    destruct (_ =? _)%string eqn:E; bool_prop; (split; [intros Et|intros ->]); try done.
    exact (NoDup_key_eq ta_atom_id (ts_atoms s) _ _ (state_atom_ids_NoDup p Hwf s Hs) Ht (Ho s Hs) E).
Qed.

Section adversary.
Context (backend : SolverBackend) (p : ArbitrageProblem) (qs : list ActionQuantity) (active : option (gset string)).
Context (ad : CompiledAdversary) (Had : compile_adversary p qs active = Ok ad).

Lemma adversary_wf : wf_problem p.
Proof. by apply compile_adversary_inv in Had as [? _]. Qed.

Lemma adversary_selection : selection p (ad_quantities ad).
Proof. apply compile_adversary_inv in Had as (_ & Hsel & _). by apply selected_quantities_spec in Hsel as [? _]. Qed.

Lemma adversary_nonempty : ad_quantities ad ≠ [].
Proof.
  unfold compile_adversary in Had. apply bind_Ok in Had as (sel & _ & (u & Hn%require_Ok & H1)%bind_Ok).
  apply bind_Ok in H1 as (u2 & _ & (m & _ & (terms & _ & (u3 & _ & [= <-])%bind_Ok)%bind_Ok)%bind_Ok). simpl. by bool_prop.
Qed.

Lemma adversary_atoms :
  ad_atom_variables ad = sorted_states p ≫= λ s,
    (λ t, (SelAtom (ts_market_contract_id s) (ta_atom_id t), z (ta_atom_id t))) <$> sort_on ta_atom_id (ts_atoms s).
Proof.
  unfold compile_adversary in Had. apply bind_Ok in Had as (sel & _ & (u & _ & H1)%bind_Ok).
  by apply bind_Ok in H1 as (u2 & _ & (m & _ & (terms & _ & (u3 & _ & [= <-])%bind_Ok)%bind_Ok)%bind_Ok).
Qed.

Lemma terminal_variables_nonempty m a :
  compile_terminal p active = Ok m → a ∈ pb_actions p → lm_variables m ≠ [].
Proof.
  intros (Hwf & _ & rows & _ & ->)%compile_terminal_inv Ha. eapply perm_nonempty; [apply sort_on_perm|].
  apply (wf_action_contracts _ Hwf) in Ha as (s & Hs & _)%elem_of_contracts.
  pose proof (ws_atoms _ _ (wf_state_in p Hwf s Hs)) as Hne. destruct (ts_atoms s) as [|t l] eqn:Et; [done|].
  intros E. assert (Hin : int_variable (z (ta_atom_id t)) 0 1 ∈ terminal_variables p).
  { apply list_elem_of_bind. exists s. split; [|done]. apply list_elem_of_fmap. exists t. rewrite Et. split; [done|left]. }
  rewrite E in Hin. by apply not_elem_of_nil in Hin.
Qed.

Lemma adversary_variables : lm_variables (ad_model ad) ≠ [].
Proof.
  pose proof adversary_nonempty as Hne. pose proof adversary_selection as Hsel.
  apply compile_adversary_inv in Had as (_ & _ & m & terms & Hm & _ & ->). apply variables_of_locked.
  destruct (ad_quantities ad) as [|q l] eqn:E; [done|].
  destruct (proj1 (Forall_forall _ _) (sel_known _ _ Hsel) q ltac:(left)) as (a & [Ha _]%index_by_elem & _).
  by apply (terminal_variables_nonempty m a).
Qed.

(** An OPTIMAL answer is the worst payout, with an outcome that attains it. *)
Lemma adversary_worst r v :
  honest backend → answers backend (ad_model ad) r → br_status r = NATIVE_OPTIMAL → objective_activity (ad_model ad) r = Ok v →
  ∃ ω, allowed (restrict p active) ω ∧ v = realized_payout p ω (ad_quantities ad) ∧
    (∀ ω', allowed (restrict p active) ω' → v ≤ realized_payout p ω' (ad_quantities ad)) ∧
    ∀ sc, scenario_from_result ad r = Ok sc → sc = scenario p ω.
Proof.
  intros Hh [Spt Sopt _] E (o & Ho & ->)%objective_activity_point.
  assert (Hf : feasible (ad_model ad) (result_point r)) by (apply Spt; [by rewrite E|apply adversary_variables]).
  destruct (adversary_exact p qs active ad o Had Ho) as [H1 H2]. destruct (H2 _ Hf) as [Hal Hv].
  exists (outcome_at p (result_point r)). split_and!; [done|done| |].
  - intros ω' Hω'. destruct (H1 ω' Hω') as [Hf' <-]. specialize (Sopt Hh E o _ Ho Hf').
    apply compile_adversary_inv in Had as (_ & _ & m & terms & _ & _ & Em). rewrite Em in Ho. by injection Ho as <-.
  - intros sc Hsc. unfold scenario_from_result in Hsc. apply bind_Ok in Hsc as (atoms & Hat & [= <-]).
    apply (filterM_filter _ (λ e, result_point r e.2 =? 1)) in Hat.
    2: { intros e b _ (n & ->%value_of_point & [= <-])%bind_Ok. done. }
    rewrite Hat, adversary_atoms. pose proof adversary_wf as Hwf.
    assert (Hr : outcome p (outcome_at p (result_point r)) ∧ represents p (result_point r) (outcome_at p (result_point r))).
    { apply compile_adversary_inv in Had as (_ & _ & m & terms & Hm & _ & Em). rewrite Em in Hf.
      apply set_objective_feasible in Hf. by apply (feasible_represents p active m). }
    destruct Hr as [Hout Hrep]. rewrite (selected_atoms_of p _ _ Hwf Hout Hrep), <- list_fmap_compose. done.
Qed.
End adversary.

(** ** Reachable releases *)

Section reach.
Context (backend : SolverBackend) (limit : Z) (Hh : honest backend).
Context (p : ArbitrageProblem) (active : option (gset string)) (m : LinearModel) (Hm : compile_terminal p active = Ok m).

Let q := restrict p active.

Lemma reach_wf : wf_problem p.
Proof. by apply compile_terminal_inv in Hm as [? _]. Qed.

(** A point with a fixed atom is an allowed outcome that settles there. *)
Lemma reachable_point s t x :
  s ∈ pb_terminal_state_sets p → t ∈ ts_atoms s →
  feasible (add_row m (reachability_row t)) x → allowed q (outcome_at p x) ∧ outcome_at p x (ts_market_contract_id s) = t.
Proof.
  intros Hs Ht [Hf Hr]%add_row_feasible. destruct (feasible_represents p active m x Hm Hf) as [Ho Hx]. split.
  - by apply (terminal_feasible p active m x).
  - unfold reachability_row in Hr. rewrite row_ok_constraint, within_exact, activity_cons, activity_nil, (Hx s t Hs Ht) in Hr.
    destruct (_ =? _)%string eqn:E; [|lia]. bool_prop. symmetry.
    exact (NoDup_key_eq ta_atom_id (ts_atoms s) _ _ (state_atom_ids_NoDup p reach_wf s Hs) Ht (Ho s Hs) E).
Qed.

Lemma allowed_reachable ω s :
  allowed q ω → s ∈ pb_terminal_state_sets p →
  feasible (add_row m (reachability_row (ω (ts_market_contract_id s)))) (indicator p ω).
Proof.
  intros Hω Hs. pose proof (al_outcome _ _ Hω : outcome p ω) as Ho. pose proof (indicator_represents p ω reach_wf Ho) as Hx.
  apply add_row_feasible. split; [by apply (terminal_feasible p active m _ ω)|].
  unfold reachability_row. rewrite row_ok_constraint, within_exact, activity_cons, activity_nil, (Hx s) by (done || by apply Ho).
  by rewrite String.eqb_refl.
Qed.

Definition found_at (found : gmap string (list datetime)) (c : string) : list datetime := default [] (found !! c).

Record reach_ok (seen : list (string * TerminalAtom)) (acc : Reachability) : Prop := {
  rc_sound : ∀ c d, d ∈ found_at (rb_reachable acc) c → ∃ ω, allowed q ω ∧ ta_capital_release_at (ω c) = Some d;
  rc_complete : ∀ c t ω, (c, t) ∈ seen → allowed q ω → ω c = t →
    ∃ d, ta_capital_release_at t = Some d ∧ (d ∈ found_at (rb_reachable acc) c ∨ d ∈ found_at (rb_unknown acc) c);
}.

Lemma append_at_elem found c d c' d' :
  d' ∈ found_at (append_at found c d) c' ↔ d' ∈ found_at found c' ∨ c' = c ∧ d' = d.
Proof.
  unfold append_at, found_at. destruct (decide (c' = c)) as [->|Hne].
  - rewrite lookup_insert_eq. simpl. rewrite elem_of_app, list_elem_of_singleton. tauto.
  - rewrite lookup_insert_ne by done. tauto.
Qed.

Lemma reach_atom_spec s t seen acc acc' :
  s ∈ pb_terminal_state_sets p → t ∈ ts_atoms s → reach_ok seen acc →
  returns (reach_atom backend limit m (ts_market_contract_id s) acc t) acc' → reach_ok (seen ++ [(ts_market_contract_id s, t)]) acc'.
Proof.
  intros Hs Ht [Hsound Hcomp] (d & Hd%returns_lift%of_option_Ok & (r & Hr%solve_checked_answers & ->%returns_ret)%returns_bind)%returns_bind.
  destruct Hr as [Spt _ Sinf].
  assert (Hvars : lm_variables (add_row m (reachability_row t)) ≠ []).
  { apply variables_of_row.
    assert (∃ a, a ∈ pb_actions p) as [a Ha].
    { pose proof (ws_actions _ _ (wf_state_in p reach_wf s Hs)) as Hne. unfold actions_of in Hne.
      destruct (filter _ (pb_actions p)) as [|a l] eqn:E; [done|]. exists a.
      assert (Ha : a ∈ a :: l) by left. rewrite <- E in Ha. by apply list_elem_of_filter in Ha as [_ ?]. }
    by apply (terminal_variables_nonempty p active m a). }
  assert (Hkeep : ∀ R U, (∀ c e, e ∈ found_at (rb_reachable acc) c → e ∈ found_at R c) →
     (∀ c e, e ∈ found_at (rb_unknown acc) c → e ∈ found_at U c) →
     ((∃ ω, allowed q ω ∧ ω (ts_market_contract_id s) = t) → d ∈ found_at R (ts_market_contract_id s) ∨ d ∈ found_at U (ts_market_contract_id s)) →
     (∀ c e, e ∈ found_at R c → e ∈ found_at (rb_reachable acc) c ∨ (c = ts_market_contract_id s ∧ e = d ∧ ∃ ω, allowed q ω ∧ ω c = t)) →
     reach_ok (seen ++ [(ts_market_contract_id s, t)]) {| rb_reachable := R; rb_unknown := U |}).
  { intros R U HR HU Hnew Hold. split; simpl.
    - intros c e [He|(-> & -> & ω & Hω & Et)]%Hold; [by apply Hsound|]. exists ω. by rewrite Et.
    - intros c t' ω [Hin|[= -> ->]%list_elem_of_singleton]%elem_of_app Hω Et.
      + destruct (Hcomp c t' ω Hin Hω Et) as (e & He & [Hf|Hf]); exists e; auto.
      + exists d. split; [done|]. apply Hnew. eauto. }
  destruct (br_status r) eqn:E; simpl.
  - apply Hkeep; simpl; [intros; apply append_at_elem; auto|auto|intros _; left; apply append_at_elem; auto|].
    intros c e [He|[-> ->]]%append_at_elem; [by left|right]. split_and!; [done..|].
    destruct (reachable_point s t (result_point r) Hs Ht) as [? ?]; [by apply Spt|eauto].
  - apply Hkeep; simpl; [intros; apply append_at_elem; auto|auto|intros _; left; apply append_at_elem; auto|].
    intros c e [He|[-> ->]]%append_at_elem; [by left|right]. split_and!; [done..|].
    destruct (reachable_point s t (result_point r) Hs Ht) as [? ?]; [by apply Spt|eauto].
  - destruct acc as [R U]. apply Hkeep; simpl; auto. intros (ω & Hω & Et). exfalso.
    apply (Sinf Hh eq_refl (indicator p ω)). rewrite <- Et. by apply allowed_reachable.
  - apply Hkeep; simpl; [auto|intros; apply append_at_elem; auto|intros _; right; apply append_at_elem; auto|auto].
Qed.

(** The atoms the loops visit. *)
Definition visited (required : option (gset string)) (states : list TerminalStateSet) : list (string * TerminalAtom) :=
  states ≫= λ s, if is_required required (ts_market_contract_id s) then pair (ts_market_contract_id s) <$> sort_on ta_atom_id (ts_atoms s) else [].

Lemma reach_states_spec required acc :
  returns (solver_fold (reach_state backend limit m required) {| rb_reachable := ∅; rb_unknown := ∅ |} (sorted_states p)) acc →
  reach_ok (visited required (sorted_states p)) acc.
Proof.
  apply (returns_fold_prefix (λ done acc, reach_ok (visited required done) acc)).
  - split; simpl; intros *; unfold found_at; rewrite ?lookup_empty; simpl; by intros ?%not_elem_of_nil.
  - intros done s b b' Hs Hb Hr. apply sorted_states_elem in Hs. unfold visited in *. rewrite bind_app. csimpl. rewrite app_nil_r.
    unfold reach_state in Hr. destruct (is_required required (ts_market_contract_id s)); simpl in Hr.
    2: { apply returns_ret in Hr as ->. by rewrite app_nil_r. }
    apply (returns_fold_prefix (λ done' acc, reach_ok ((done ≫= λ s, if is_required required (ts_market_contract_id s)
      then pair (ts_market_contract_id s) <$> sort_on ta_atom_id (ts_atoms s) else []) ++ (pair (ts_market_contract_id s) <$> done')) acc)) in Hr.
    + done.
    + by rewrite app_nil_r.
    + intros done' t c c' Ht Hc Hr'. rewrite fmap_app, app_assoc. rewrite sort_on_perm in Ht. by eapply reach_atom_spec.
Qed.

Lemma visited_elem required s t :
  s ∈ pb_terminal_state_sets p → t ∈ ts_atoms s → is_required required (ts_market_contract_id s) = true →
  (ts_market_contract_id s, t) ∈ visited required (sorted_states p).
Proof.
  intros Hs Ht Hr. apply list_elem_of_bind. exists s. rewrite Hr. split; [|by apply sorted_states_elem].
  apply list_elem_of_fmap_2. by rewrite sort_on_perm.
Qed.
End reach.

(** ** The latest releases *)

Lemma release_step_inl required found failure states :
  foldl (release_step required found) (inl failure) states = inl failure.
Proof. by induction states. Qed.

Lemma release_fold_spec required found releases states out :
  NoDup (ts_market_contract_id <$> states) →
  foldl (release_step required found) (inr releases) states = inr out →
  (∀ c, c ∉ ts_market_contract_id <$> states → out !! c = releases !! c) ∧
  ∀ s, s ∈ states → is_required required (ts_market_contract_id s) = true →
    ∃ d, out !! ts_market_contract_id s = Some d ∧
      max_datetime (found_at (rb_reachable found) (ts_market_contract_id s)) = Some d ∧
      ∀ u, u ∈ found_at (rb_unknown found) (ts_market_contract_id s) → dt_us u ≤ dt_us d.
Proof.
  revert releases. induction states as [|s states IH]; intros releases Hnd; simpl.
  - intros [= <-]. split; [done|]. by intros s ?%not_elem_of_nil.
  - csimpl in Hnd. apply NoDup_cons in Hnd as [Hs Hnd]. intros Hf.
    set (c := ts_market_contract_id s) in *.
    destruct (is_required required c) eqn:Er; simpl in Hf.
    2: { destruct (IH _ Hnd Hf) as [H1 H2]. split.
         - intros c' Hc'. apply H1. intros Hin. apply Hc'. by right.
         - intros s' [->|Hs']%elem_of_cons Hr'; [fold c in Hr'; congruence|by apply H2]. }
    destruct (max_datetime (default [] (rb_reachable found !! c))) as [d|] eqn:Em; [|by rewrite release_step_inl in Hf].
    destruct (existsb (datetime_ltb d) (default [] (rb_unknown found !! c))) eqn:Eu; [by rewrite release_step_inl in Hf|].
    destruct (IH _ Hnd Hf) as [H1 H2]. split.
    + intros c' Hc'. apply not_elem_of_cons in Hc' as [Hne Hc']. rewrite H1 by done. by apply lookup_insert_ne.
    + intros s' [->|Hs']%elem_of_cons Hr'; [|by apply H2]. exists d. fold c. rewrite H1 by done. rewrite lookup_insert_eq.
      split_and!; [done|done|]. intros u Hu. apply not_true_iff_false in Eu. destruct (decide (dt_us u ≤ dt_us d)) as [|Hn]; [done|].
      destruct Eu. apply existsb_exists. exists u. split; [by apply list_elem_of_In|]. unfold datetime_ltb. apply Z.ltb_lt. lia.
Qed.

(** [d] is the latest release of contract [c] over the outcomes [q] allows. *)
Definition latest_release (q : ArbitrageProblem) (c : string) (d : datetime) : Prop :=
  (∃ ω, allowed q ω ∧ ta_capital_release_at (ω c) = Some d) ∧
  ∀ ω, allowed q ω → ∃ t, ta_capital_release_at (ω c) = Some t ∧ dt_us t ≤ dt_us d.

Lemma omap_keys_sublist {A V} (key : A → string) (f : A → option V) (l : list A) :
  (omap (λ a, (λ d, (key a, d)) <$> f a) l).*1 `sublist_of` (key <$> l).
Proof.
  induction l as [|a l IH]; csimpl; [apply sublist_nil|].
  destruct (f a); csimpl; [by apply sublist_skip|by apply sublist_cons].
Qed.

Lemma reachable_releases_spec backend limit p active required releases :
  honest backend → returns (reachable_action_releases backend limit p active required) (inr releases) →
  ∀ a, a ∈ pb_actions p → is_required required (ca_market_contract_id a) = true →
    ∃ d, releases !! ca_action_id a = Some d ∧ latest_release (restrict p active) (ca_market_contract_id a) d.
Proof.
  intros Hh (m & Hm%returns_lift & (found & Hf & Hr)%returns_bind)%returns_bind a Ha Hreq.
  pose proof (reach_wf p active m Hm) as Hwf. apply (reach_states_spec _ _ Hh _ _ _ Hm) in Hf as [Hsound Hcomp].
  apply returns_ret in Hr.
  destruct (foldl (release_step required found) (inr ∅) (pb_terminal_state_sets p)) as [|by_contract] eqn:Ef; [done|].
  injection Hr as ->. apply release_fold_spec in Ef as [_ Hrel]; [|apply Hwf].
  apply (wf_action_contracts _ Hwf) in Ha as Hc. apply elem_of_contracts in Hc as (s & Hs & Es).
  destruct (Hrel s Hs) as (d & Hd & Hmax & Hunk); [by rewrite Es|]. rewrite Es in Hd, Hmax, Hunk.
  exists d. split.
  - apply py_dict_lookup.
    + eapply sublist_NoDup; [apply Hwf|apply omap_keys_sublist].
    + apply list_elem_of_omap. exists a. by rewrite Hd.
  - apply max_datetime_Some in Hmax as [Hin Hle]. split; [by apply Hsound|].
    intros ω Hω. assert (Hw : ω (ca_market_contract_id a) ∈ ts_atoms s).
    { rewrite <- Es. pose proof (al_outcome _ _ Hω) as Ho. by apply Ho. }
    destruct (Hcomp (ca_market_contract_id a) (ω (ca_market_contract_id a)) ω) as (t & Ht & [Hin'|Hin']); [|done|done|..].
    + rewrite <- Es. apply visited_elem; [done| |by rewrite Es]. by rewrite Es.
    + exists t. split; [done|]. by apply Hle.
    + exists t. split; [done|]. by apply Hunk.
Qed.
