(* ===== verification/ReferenceBackend.v ===== *)
(** * A backend that enumerates

    An integer-programming backend for small models: it enumerates every
    integer point, variable by variable, dropping a partial point as soon as a
    row all of whose variables are fixed fails.  It stands in for the native
    solvers in the concrete runs; its answers are exact. *)

From S2P Require Import Prelude PyValue NLeg LinearModel TerminalModel TerminalCorrect FillProof MasterCorrect Generation GenerationCorrect.
Local Open Scope Z_scope.

Abbreviation point := (gmap string Z).

Definition at_point (pt : point) (name : string) : Z := default 0 (pt !! name).

(** A row whose variables are all fixed must hold. *)
Definition row_consistent (pt : point) (c : LinearConstraint) : bool :=
  negb (forallb (λ t, bool_decide (is_Some (pt !! t.1))) (lc_coefficients c)) ||
  negb (row_violated (lc_lower c) (lc_upper c) (activity (at_point pt) (lc_coefficients c))).

(** The rows a new value can decide. *)
Definition rows_of (rows : list LinearConstraint) (name : string) : list LinearConstraint :=
  filter (λ c, name ∈ (lc_coefficients c).*1 ∨ lc_coefficients c = []) rows.

Definition extend (rows : list LinearConstraint) (points : list point) (v : IntVariable) : list point :=
  let mine := rows_of rows (iv_name v) in
  points ≫= λ pt,
    filter (λ pt, forallb (row_consistent pt) mine = true)
      ((λ k, <[iv_name v := k]> pt) <$> seqZ (iv_lower v) (iv_upper v + 1 - iv_lower v)).

(** Narrow variables first: the rows then decide the wide ones. *)
Definition by_width (variables : list IntVariable) : list IntVariable :=
  sort (λ v w, iv_upper v - iv_lower v <=? iv_upper w - iv_lower w) variables.

Definition all_points (m : LinearModel) : list point :=
  foldl (extend (lm_constraints m)) [∅] (by_width (lm_variables m)).

Definition objective_at (m : LinearModel) (pt : point) : Z :=
  match lm_objective m with
  | None => 0
  | Some o => match lo_sense o with
              | MAX => activity (at_point pt) (lo_coefficients o)
              | MIN => - activity (at_point pt) (lo_coefficients o)
              end
  end.

(** The first point of the greatest objective. *)
Definition best_point (m : LinearModel) (points : list point) : option point :=
  match points with
  | [] => None
  | pt :: points => Some (foldl (λ best pt, if objective_at m best <? objective_at m pt then pt else best) pt points)
  end.

Definition answer (m : LinearModel) (pt : point) : BackendResult := {|
  br_status := NATIVE_OPTIMAL;
  br_values := (λ v, (iv_name v, at_point pt (iv_name v))) <$> lm_variables m;
  br_objective_value := (λ o, activity (at_point pt) (lo_coefficients o)) <$> lm_objective m;
  br_objective_bound := None; br_native_status := "OPTIMAL"; br_solve_ns := 0 |}.

Definition no_answer : BackendResult := {|
  br_status := NATIVE_INFEASIBLE; br_values := []; br_objective_value := None; br_objective_bound := None;
  br_native_status := "INFEASIBLE"; br_solve_ns := 0 |}.

Definition unknown_answer : BackendResult := {|
  br_status := NATIVE_UNKNOWN; br_values := []; br_objective_value := None; br_objective_bound := None;
  br_native_status := "UNKNOWN"; br_solve_ns := 0 |}.

(** Variables have distinct names and the objective speaks of them only. *)
Definition well_scoped (m : LinearModel) : bool :=
  bool_decide (NoDup (iv_name <$> lm_variables m)) &&
  match lm_objective m with
  | Some o => forallb (λ t, bool_decide (t.1 ∈ iv_name <$> lm_variables m)) (lo_coefficients o)
  | None => true
  end.

Definition enumerate (m : LinearModel) : BackendResult :=
  if well_scoped m then match best_point m (all_points m) with Some pt => answer m pt | None => no_answer end
  else unknown_answer.

Definition reference_backend : SolverBackend := {|
  sb_name := "enumerate"; sb_version := "1"; sb_solve := λ _ m _, Ok (enumerate m) |}.

(** ** Its answers are exact *)

Lemma at_point_agrees pt x l :
  (∀ t, t ∈ l → at_point pt t.1 = x t.1) → activity (at_point pt) l = activity x l.
Proof. intros Ht. unfold activity. apply sumZ_fmap_ext. intros t Hin. by rewrite (Ht t Hin). Qed.

(** A feasible point survives the pruning. *)
Lemma extend_complete rows x variables points pt :
  Forall (λ c, within (lc_lower c) (lc_upper c) (activity x (lc_coefficients c))) rows →
  Forall (λ v, iv_lower v ≤ x (iv_name v) ≤ iv_upper v) variables →
  pt ∈ points → (∀ n k, pt !! n = Some k → k = x n) →
  ∃ pt', pt' ∈ foldl (extend rows) points variables ∧ (∀ n k, pt' !! n = Some k → k = x n) ∧
    (∀ n, is_Some (pt !! n) ∨ n ∈ iv_name <$> variables → is_Some (pt' !! n)).
Proof.
  intros Hrows Hb. revert points pt. induction Hb as [|v variables Hv _ IH]; intros points pt Hin Hpt; simpl.
  - exists pt. split_and!; [done..|]. intros n [?|?%elem_of_nil]; done.
  - set (pt1 := <[iv_name v := x (iv_name v)]> pt).
    assert (H1 : ∀ n k, pt1 !! n = Some k → k = x n).
    { intros n k. unfold pt1. rewrite lookup_insert. case_decide as E; [intros [= <-]; by rewrite E|apply Hpt]. }
    destruct (IH (extend rows points v) pt1) as (pt' & Hpt' & Hval & Hdom); [|done|].
    + unfold extend. apply list_elem_of_bind. exists pt. split; [|done]. apply list_elem_of_filter. split.
      * apply forallb_forall. intros c [_ Hc]%list_elem_of_In%list_elem_of_filter. unfold row_consistent.
        destruct (forallb _ _) eqn:Eall; [|done]. apply orb_true_iff. right. apply negb_true_iff, row_violated_spec.
        rewrite (at_point_agrees pt1 x); [by apply (proj1 (Forall_forall _ _) Hrows)|].
        intros t Ht. apply forallb_forall with (x := t) in Eall; [|by apply list_elem_of_In].
        apply bool_decide_eq_true_1 in Eall as [k Hk]. unfold at_point. rewrite Hk. by apply H1.
      * apply list_elem_of_fmap. exists (x (iv_name v)). split; [done|]. apply elem_of_seqZ. lia.
    + exists pt'. split_and!; [done..|]. intros n Hn. apply Hdom. unfold pt1. rewrite lookup_insert. case_decide; [by left; eexists|].
      destruct Hn as [?|[?|?]%elem_of_cons]; [by left|done|by right].
Qed.

Lemma all_points_complete m x :
  feasible m x → ∃ pt, pt ∈ all_points m ∧ ∀ n, n ∈ iv_name <$> lm_variables m → at_point pt n = x n.
Proof.
  intros [Hb Hr]. destruct (extend_complete (lm_constraints m) x (by_width (lm_variables m)) [∅] ∅) as (pt & Hin & Hval & Hdom).
  - done.
  - apply Forall_forall. intros v Hv%elem_of_sort. by apply (proj1 (Forall_forall _ _) Hb).
  - constructor.
  - intros n k. by rewrite lookup_empty.
  - exists pt. split; [done|]. intros n (v & -> & Hv)%list_elem_of_fmap. destruct (Hdom (iv_name v)) as [k Hk].
    { right. apply list_elem_of_fmap_2. by apply elem_of_sort. }
    unfold at_point. rewrite Hk. by apply Hval.
Qed.

Lemma best_fold m points pt0 pt :
  pt = pt0 ∨ pt ∈ points →
  objective_at m pt ≤ objective_at m (foldl (λ best pt, if objective_at m best <? objective_at m pt then pt else best) pt0 points).
Proof.
  revert pt0 pt. induction points as [|q points IH]; intros pt0 pt; simpl; [intros [->|?%elem_of_nil]; [lia|done]|].
  intros Hpt. destruct (objective_at m pt0 <? objective_at m q) eqn:E; bool_prop.
  - destruct Hpt as [->|[->|Hin]%elem_of_cons]; [|by apply IH; left|by apply IH; right].
    etrans; [|apply (IH q q); by left]. lia.
  - destruct Hpt as [->|[->|Hin]%elem_of_cons]; [by apply IH; left| |by apply IH; right].
    etrans; [|apply (IH pt0 pt0); by left]. lia.
Qed.

Lemma answer_point m pt n :
  NoDup (iv_name <$> lm_variables m) → n ∈ iv_name <$> lm_variables m → result_point (answer m pt) n = at_point pt n.
Proof.
  intros Hnd (v & -> & Hv)%list_elem_of_fmap. unfold result_point. simpl.
  assert (py_dict ((λ v, (iv_name v, at_point pt (iv_name v))) <$> lm_variables m) !! iv_name v = Some (at_point pt (iv_name v))) as ->; [|done].
  apply py_dict_lookup; [by rewrite <- list_fmap_compose|]. by apply (list_elem_of_fmap_2 (λ v, (iv_name v, at_point pt (iv_name v)))).
Qed.

Lemma reference_honest : honest reference_backend.
Proof.
  split; intros k m t r; unfold reference_backend, enumerate; cbn [sb_solve].
  - intros o x [= <-] Hs Ho Hx. destruct (well_scoped m) eqn:Ew; [|done].
    apply andb_true_iff in Ew as [Hnd%bool_decide_eq_true_1 Hscope]. rewrite Ho in Hscope.
    destruct (best_point m (all_points m)) as [best|] eqn:Eb; [|done].
    destruct (all_points_complete m x Hx) as (pt & Hpt & Hval).
    assert (Hle : objective_at m pt ≤ objective_at m best).
    { unfold best_point in Eb. destruct (all_points m) as [|pt0 points]; [done|]. injection Eb as <-.
      apply best_fold. by apply elem_of_cons. }
    assert (Hin : ∀ t, t ∈ lo_coefficients o → t.1 ∈ iv_name <$> lm_variables m).
    { intros t' Ht'. apply forallb_forall with (x := t') in Hscope; [by apply bool_decide_eq_true_1 in Hscope|by apply list_elem_of_In]. }
    assert (E1 : activity (result_point (answer m best)) (lo_coefficients o) = activity (at_point best) (lo_coefficients o)).
    { unfold activity. apply sumZ_fmap_ext. intros t' Ht'. by rewrite answer_point by auto. }
    assert (E2 : activity (at_point pt) (lo_coefficients o) = activity x (lo_coefficients o)) by (apply at_point_agrees; auto).
    unfold objective_at in Hle. rewrite Ho in Hle. rewrite E1, <- E2. unfold better_or_equal. destruct (lo_sense o); lia.
  - intros x [= <-] Hs Hx. destruct (well_scoped m); [|done]. destruct (best_point m (all_points m)) as [best|] eqn:Eb; [done|].
    destruct (all_points_complete m x Hx) as (pt & Hpt & _). unfold best_point in Eb.
    destruct (all_points m); [by apply elem_of_nil in Hpt|done].
Qed.
