(* ===== verification/CandidateCorrect.v ===== *)
(** * A portfolio the solver reports is sound

    The qualifications are recomputed from the exact payout; they agree with
    the oracle's.  Every portfolio the constraint-generation search keeps or
    returns is a sound evaluation: exact cost, exact worst payout, a release
    no outcome exceeds, every qualification met. *)

From S2P Require Import Prelude PyValue NLeg NLegForms NLegValidate NLegWf Oracle OracleScenario OracleEval OracleQualify UnionFind Support Search SupportCorrect SearchCorrect Components ComponentsCorrect LinearModel TerminalModel TerminalCorrect FillCorrect FillProof Master MasterCorrect Generation GenerationCorrect.
Local Open Scope Z_scope.

(** ** Qualifications *)

Lemma int64_value_Ok v name w : int64_value v name = Ok w ↔ w = v ∧ int64 v.
Proof.
  unfold int64_value, int64_or. rewrite bind_Ok. split.
  - intros (u & H%require_Ok%in_int64_spec & [= <-]). done.
  - intros [-> H%in_int64_spec]. exists tt. by rewrite H.
Qed.

Lemma checked_of v : int64 v → checked v = Ok v.
Proof. intros H. by apply checked_Ok. Qed.

Lemma int64_between a b v : a ≤ v ≤ b → int64 a → int64 b → int64 v.
Proof. unfold int64. lia. Qed.

(** A factor of a product that fits, fits. *)
Lemma int64_factor a k : 1 ≤ k → int64 (a * k) → int64 a.
Proof. unfold int64, INT64_MIN, INT64_MAX. intros. destruct (decide (0 ≤ a)); nia. Qed.

Lemma product64_two a b v : product64 [a; b] = Ok v → v = a * b ∧ int64 (a * b).
Proof.
  unfold product64. simpl. intros (x & [-> _]%int64_value_Ok & (y & [-> H]%int64_value_Ok & [= <-])%bind_Ok)%bind_Ok.
  rewrite Z.mul_1_l in *. done.
Qed.

Lemma product64_three a b c v : product64 [a; b; c] = Ok v → v = a * b * c ∧ int64 (a * b * c).
Proof.
  unfold product64. simpl.
  intros (x & [-> _]%int64_value_Ok & (y & [-> _]%int64_value_Ok & (w & [-> H]%int64_value_Ok & [= <-])%bind_Ok)%bind_Ok)%bind_Ok.
  rewrite Z.mul_1_l in *. done.
Qed.

Lemma release_timing_oracle p d delay days :
  dt_us (pb_as_of p) ≤ dt_us d → release_timing p d = Ok (delay, days) →
  release_delay_seconds p (Some d) = Ok delay ∧ occupied_days p (Some d) = Ok days ∧ 1 ≤ days.
Proof.
  intros Hle (s & [-> Hs]%int64_value_Ok & (n & [-> Hn]%int64_value_Ok & [= <- <-])%bind_Ok)%bind_Ok.
  set (u := dt_us d - dt_us (pb_as_of p)) in *.
  assert (H1 : 0 ≤ delta_days u) by (unfold delta_days, US_PER_DAY, US_PER_SECOND; Z.to_euclidean_division_equations; lia).
  assert (H2 : 0 ≤ delta_seconds u) by (unfold delta_seconds, US_PER_DAY, US_PER_SECOND; Z.to_euclidean_division_equations; lia).
  assert (Hd : release_delay_seconds p (Some d) = Ok (delta_days u * 86400 + delta_seconds u + (if delta_microseconds u =? 0 then 0 else 1))).
  { unfold release_delay_seconds. fold u. unfold checked_multiply, checked_add, int64, INT64_MIN, INT64_MAX in *.
    rewrite checked_of by (unfold int64, INT64_MIN, INT64_MAX; destruct (delta_microseconds u =? 0); lia). simpl.
    rewrite checked_of by (unfold int64, INT64_MIN, INT64_MAX; destruct (delta_microseconds u =? 0); lia). simpl.
    by rewrite checked_of. }
  split_and!; [done| |lia]. unfold occupied_days. rewrite Hd. simpl. unfold checked_add. by rewrite checked_of.
Qed.

Lemma activity_one s k values v :
  qualification_activity [(s, k)] 0 values = Ok v → v = k * values s ∧ int64 (k * values s).
Proof.
  unfold qualification_activity. simpl.
  intros (y & (w & [-> Hw]%product64_two & [-> _]%int64_value_Ok)%bind_Ok & [= <-])%bind_Ok. done.
Qed.

Lemma ratio_product profit den :
  0 < den → int64 profit → int64 (1000000 * den * profit) → checked_product [profit; 1000000; den] = Ok (1000000 * den * profit).
Proof.
  intros Hden Hp H. assert (E : 1000000 * den * profit = profit * 1000000 * den) by ring. rewrite E in *.
  pose proof (int64_factor _ den ltac:(lia) H) as H1. unfold checked_product, checked_multiply. simpl.
  rewrite Z.mul_1_l, checked_of by done. simpl. rewrite checked_of by done. simpl. by rewrite checked_of.
Qed.

Lemma checked_product_step a b l : int64 (1 * a) → checked_product (a :: b :: l) = foldM checked_multiply (1 * a) (b :: l).
Proof.
  intros H. change (checked_product (a :: b :: l)) with (r ← checked (1 * a); foldM checked_multiply r (b :: l)). by rewrite checked_of.
Qed.

Lemma checked_multiply_step x b l : int64 (x * b) → foldM checked_multiply x (b :: l) = foldM checked_multiply (x * b) l.
Proof. intros H. change (foldM checked_multiply x (b :: l)) with (r ← checked (x * b); foldM checked_multiply r l). by rewrite checked_of. Qed.

Lemma annual_left profit den :
  0 < den → int64 profit → int64 (365 * 1000000 * den * profit) →
  checked_product [profit; 365; 1000000; den] = Ok (365 * 1000000 * den * profit).
Proof.
  intros Hden Hp H. assert (E : 365 * 1000000 * den * profit = 1 * profit * 365 * 1000000 * den) by ring. rewrite E in *.
  pose proof (int64_factor _ den ltac:(lia) H) as H1. pose proof (int64_factor _ 1000000 ltac:(lia) H1) as H2.
  rewrite checked_product_step, !checked_multiply_step by (done || by rewrite Z.mul_1_l). done.
Qed.

Lemma annual_right num cost days :
  1 ≤ days → int64 num → int64 (num * days * cost) → checked_product [num; cost; days] = Ok (num * days * cost).
Proof.
  intros Hd Hn H. assert (E : num * days * cost = 1 * num * cost * days) by ring. rewrite E in *.
  pose proof (int64_factor _ days Hd H) as H1.
  rewrite checked_product_step, !checked_multiply_step by (done || by rewrite Z.mul_1_l). done.
Qed.

(** The solver's qualification test decides what the oracle's does. *)
Lemma formula_agrees p c payout cost profit d delay days b :
  wf_qualification c → dt_us (pb_as_of p) ≤ dt_us d → release_timing p d = Ok (delay, days) → int64 profit →
  formula_fails (semantic_of payout cost profit) delay days c = Ok b →
  qualification_passes p c payout cost profit (Some d) = Ok (negb b).
Proof.
  intros [_ _ Hnum [Hden _]] Hle (Hdelay & Hdays & Hpos)%release_timing_oracle Hprofit; [|done].
  unfold formula_fails, qualification_formula, qualification_passes.
  set (num := qc_threshold_numerator c) in *. set (den := qc_threshold_denominator c) in *.
  set (R := release_delay_seconds p (Some d)) in *. destruct (qc_metric c); simpl.
  - intros (l & [-> Hl]%activity_one & [= <-])%bind_Ok. simpl in Hl. unfold checked_multiply.
    rewrite (Z.mul_comm profit den), checked_of by done. simpl. by rewrite negb_involutive.
  - intros (f & (k & [-> _]%product64_two & [= <-])%bind_Ok & Hb)%bind_Ok. simpl in Hb. revert Hb.
    destruct (0 <? num) eqn:En; simpl; [destruct (payout <=? 0) eqn:Ep; [by intros [= <-]|]|];
      (intros (l & [-> Hl]%activity_one & (r & [-> Hr]%activity_one & [= <-])%bind_Ok)%bind_Ok; simpl in Hl, Hr;
       rewrite ratio_product by done; simpl; unfold checked_multiply; rewrite checked_of by done; simpl; by rewrite negb_involutive).
  - intros (f & (k & [-> _]%product64_two & [= <-])%bind_Ok & Hb)%bind_Ok. simpl in Hb. revert Hb.
    destruct (0 <? num) eqn:En; simpl; [destruct (cost <=? 0) eqn:Ep; [by intros [= <-]|]|];
      (intros (l & [-> Hl]%activity_one & (r & [-> Hr]%activity_one & [= <-])%bind_Ok)%bind_Ok; simpl in Hl, Hr;
       rewrite ratio_product by done; simpl; unfold checked_multiply; rewrite checked_of by done; simpl; by rewrite negb_involutive).
  - intros (f & (k & [-> _]%product64_three & (r & [-> _]%product64_two & [= <-])%bind_Ok)%bind_Ok & Hb)%bind_Ok. simpl in Hb.
    apply bind_Ok in Hb as (l & [-> Hl]%activity_one & (r & [-> Hr]%activity_one & [= <-])%bind_Ok). simpl in Hl, Hr.
    rewrite Hdays. simpl. rewrite annual_left, annual_right by done. simpl. by rewrite negb_involutive.
  - intros (f & (k & [-> Hk]%product64_two & [= <-])%bind_Ok & Hb)%bind_Ok. simpl in Hb. injection Hb as <-.
    rewrite Hdelay. simpl. unfold checked_multiply. rewrite checked_of by done. simpl. by rewrite negb_involutive.
Qed.

Lemma filterM_agree {A} (f g : A → res bool) l k :
  filterM f l = Ok k → (∀ x b, x ∈ l → f x = Ok b → g x = Ok b) → filterM g l = Ok k.
Proof.
  revert k. induction l as [|x l IH]; intros k; simpl; [done|].
  intros (b & Hb & (k' & Hk & [= <-])%bind_Ok)%bind_Ok Hg. rewrite (Hg x b ltac:(left) Hb). simpl.
  rewrite (IH k' Hk) by (intros; apply Hg; [by right|done]). done.
Qed.

(** The failed ids are the oracle's. *)
Lemma failed_ids_agree p payout cost d ids :
  wf_problem p → dt_us (pb_as_of p) ≤ dt_us d → failed_qualification_ids p payout cost d = Ok ids →
  int64 (payout - cost) ∧
  ∃ l, filterM (qualification_fails p payout cost (payout - cost) (Some d))
         (sort_on qc_constraint_id (pb_qualification_constraints p)) = Ok l ∧ ids = qc_constraint_id <$> l.
Proof.
  intros Hwf Hle (profit & [-> Hp]%int64_value_Ok & ([delay days] & Ht & (l & Hl & [= <-])%bind_Ok)%bind_Ok)%bind_Ok.
  split; [done|]. exists l. split; [|done]. eapply filterM_agree; [exact Hl|]. intros c b Hc Hb. rewrite sort_on_perm in Hc.
  unfold qualification_fails. rewrite bool_decide_eq_false_2 by done. cbn [andb].
  rewrite (formula_agrees p c payout cost (payout - cost) d delay days b) by
    (done || exact (proj1 (Forall_forall _ _) (wf_qualifications _ Hwf) c Hc)). cbn [mbind res_bind]. by rewrite negb_involutive.
Qed.

(** ** The portfolio of a point *)

Section portfolio.
Context (p : ArbitrageProblem) (Hwf : wf_problem p) (actions : list CandidateAction) (x : string → Z).
Context (Hin : ∀ a, a ∈ actions → a ∈ pb_actions p) (Hnd : NoDup (ca_action_id <$> actions)).
Context (Hx : ∀ a, a ∈ actions → chosen x a = 0 ∧ lots_at x a = 0 ∨ chosen x a = 1 ∧ in_range a (lots_at x a)).

Definition quantities_at : list ActionQuantity :=
  filter (λ item, aq_quantity_lots item ≠ 0) ((λ a, AQ (ca_action_id a) (lots_at x a)) <$> actions).

Lemma action_lookup a : a ∈ actions → index_by ca_action_id (pb_actions p) !! ca_action_id a = Some a.
Proof. intros Ha. apply (index_by_lookup ca_action_id); [apply Hwf|]. split; [by apply Hin|done]. Qed.

Lemma chosen_lots a : a ∈ actions → lots_at x a ≠ 0 ↔ chosen x a = 1.
Proof.
  intros Ha. pose proof (wa_bounds _ _ (proj1 (Forall_forall _ _) (wf_actions _ Hwf) a (Hin a Ha))).
  destruct (Hx a Ha) as [[-> ->]|[-> Hr]]; [split; lia|]. unfold in_range in Hr. lia.
Qed.

Lemma quantities_at_elem i n :
  AQ i n ∈ quantities_at ↔ ∃ a, a ∈ actions ∧ ca_action_id a = i ∧ lots_at x a = n ∧ n ≠ 0.
Proof.
  unfold quantities_at. rewrite list_elem_of_filter, list_elem_of_fmap. simpl. split.
  - intros (Hn & a & [= -> ->] & Ha). by exists a.
  - intros (a & Ha & <- & <- & Hn). split; [done|]. by exists a.
Qed.

Lemma quantities_at_ids i : i ∈ aq_action_id <$> quantities_at ↔ ∃ a, a ∈ actions ∧ ca_action_id a = i ∧ chosen x a = 1.
Proof.
  rewrite list_elem_of_fmap. split.
  - intros ([j n] & -> & (a & Ha & <- & <- & Hn)%quantities_at_elem). exists a. split_and!; [done..|]. by apply chosen_lots.
  - intros (a & Ha & <- & Hc). exists (AQ (ca_action_id a) (lots_at x a)). split; [done|]. apply quantities_at_elem.
    exists a. split_and!; [done..|]. by apply chosen_lots.
Qed.

Lemma quantities_at_selection :
  StronglySorted (λ i j, String.leb i j = true) (ca_action_id <$> actions) → selection p quantities_at.
Proof.
  intros Hs. unfold quantities_at. split.
  - apply NoDup_fmap_filter. by rewrite <- list_fmap_compose.
  - apply Forall_forall. intros [i n] (a & Ha & <- & <- & Hn)%quantities_at_elem. exists a. simpl.
    apply (chosen_lots a Ha) in Hn as Hc. destruct (Hx a Ha) as [[Hc' _]|[_ Hr]]; [lia|].
    pose proof (wa_bounds _ _ (proj1 (Forall_forall _ _) (wf_actions _ Hwf) a (Hin a Ha))).
    split; [by apply action_lookup|]. split; [done|]. unfold in_range in Hr. lia.
  - apply StronglySorted_filter. clear -Hs. induction actions as [|a l IH]; [constructor|].
    csimpl in Hs. csimpl. apply StronglySorted_inv in Hs as [Hs Ha]. constructor; [by apply IH|].
    rewrite Forall_fmap in Ha. rewrite Forall_fmap. exact Ha.
Qed.

Lemma sum_quantities_at (f : string → Z → Z) :
  (∀ i, f i 0 = 0) → sumZ ((λ q, f (aq_action_id q) (aq_quantity_lots q)) <$> quantities_at) = sumZ ((λ a, f (ca_action_id a) (lots_at x a)) <$> actions).
Proof.
  intros H0. unfold quantities_at. clear -H0. induction actions as [|a l IH]; [done|]. csimpl. rewrite filter_cons. simpl.
  case_decide as Hn; csimpl; rewrite IH; [done|]. assert (lots_at x a = 0) as -> by lia. rewrite H0. lia.
Qed.

Lemma portfolio_cost_at :
  portfolio_cost p quantities_at = sumZ ((λ a, lots_cost (ca_cost_slices a) (lots_at x a)) <$> actions).
Proof.
  unfold portfolio_cost.
  rewrite (sum_quantities_at (λ i n, match index_by ca_action_id (pb_actions p) !! i with
    | Some a => lots_cost (ca_cost_slices a) n | None => 0 end)).
  - apply sumZ_fmap_ext. intros a Ha. by rewrite action_lookup.
  - intros i. destruct (_ !! i); [|done]. by unfold lots_cost.
Qed.

Lemma realized_payout_at ω :
  realized_payout p ω quantities_at = sumZ ((λ a, payout_of p ω (ca_action_id a) * lots_at x a) <$> actions).
Proof. unfold realized_payout. apply (sum_quantities_at (λ i n, payout_of p ω i * n)). intros i. lia. Qed.
End portfolio.

(** ** Components and release profiles *)

Lemma sorted_strings_sorted l : StronglySorted (λ i j, String.leb i j = true) (sorted_strings l).
Proof. apply (sort_on_sorted id). Qed.

Lemma component_actions_sorted `{Sha256} p o comps c :
  build_relation_components p o = Ok comps → c ∈ comps → StronglySorted (λ i j, String.leb i j = true) (rl_action_ids c).
Proof.
  unfold build_relation_components. intros (ids & _ & (m1 & _ & (m2 & _ & (m3 & _ & Hr)%bind_Ok)%bind_Ok)%bind_Ok)%bind_Ok.
  apply bind_Ok in Hr as (abc & _ & ([groups m4] & _ & (cs & Hcs & (u & _ & [= <-])%bind_Ok)%bind_Ok)%bind_Ok).
  rewrite sort_on_perm. intros (g & _ & Hg)%(mapM_elem _ _ _ c Hcs).
  apply bind_Ok in Hg as (acts & _ & (f & _ & (d & _ & [= <-])%bind_Ok)%bind_Ok). apply sorted_strings_sorted.
Qed.

Lemma master_action_ids `{Sha256} p component profile cuts excluded cm actions nogoods cost terms bounds cc extra qual :
  master_parts p component profile cuts excluded cm actions nogoods cost terms bounds cc extra qual →
  ca_action_id <$> actions = rl_action_ids component ∧ NoDup (ca_action_id <$> actions).
Proof.
  intros MP. pose proof (mp_actions _ _ _ _ _ _ _ _ _ _ _ _ _ _ MP) as Ha. split.
  - clear MP. induction Ha as [|i a l k [_ <-] _ IH]; csimpl; [done|]. by rewrite IH.
  - pose proof (validate_linear_model_NoDup _ _ (mp_valid _ _ _ _ _ _ _ _ _ _ _ _ _ _ MP)) as Hnd.
    rewrite (mp_model _ _ _ _ _ _ _ _ _ _ _ _ _ _ MP) in Hnd. simpl in Hnd. rewrite sort_on_perm in Hnd.
    unfold cost_variables, base_variables in Hnd. rewrite <- !app_assoc, fmap_app in Hnd. apply NoDup_app in Hnd as [Hnd _].
    apply (NoDup_fmap_1 quantity_name). revert Hnd. clear. intros Hnd. eapply sublist_NoDup; [exact Hnd|].
    clear Hnd. induction actions as [|a l IH]; csimpl; [apply sublist_nil|].
    apply sublist_skip, sublist_cons. rewrite fmap_app. by apply sublist_inserts_l.
Qed.

(** What a release profile of a component says of its actions. *)
Record profile_of (releases : gmap string datetime) (component : RelationComponent) (profile : ReleaseProfile) : Prop := {
  po_exact : ∀ i, i ∈ rp_exact_action_ids profile ↔
    i ∈ rl_action_ids component ∧ ∃ d, releases !! i = Some d ∧ datetime_eqb d (rp_release_at profile) = true;
  po_eligible : ∀ i, i ∈ rp_eligible_action_ids profile ↔
    i ∈ rl_action_ids component ∧ ∃ d, releases !! i = Some d ∧ dt_us d ≤ dt_us (rp_release_at profile);
  po_known : ∃ i, i ∈ rl_action_ids component ∧ releases !! i = Some (rp_release_at profile);
}.

Lemma dedupe_elem l d : d ∈ dedupe_datetimes l → d ∈ l.
Proof.
  induction l as [|e l IH]; simpl; [done|]. intros [->|[_ Hd]%list_elem_of_filter]%elem_of_cons; [left|right; auto].
Qed.

Lemma release_profile_fields p d eligible exact profile :
  release_profile p d eligible exact = Ok profile →
  rp_release_at profile = d ∧ (∀ i, i ∈ rp_eligible_action_ids profile ↔ i ∈ eligible) ∧
  (∀ i, i ∈ rp_exact_action_ids profile ↔ i ∈ exact) ∧
  release_timing p d = Ok (rp_delay_seconds profile, rp_occupied_days profile).
Proof.
  intros ([s n] & Ht & (u1 & _ & (u2 & _ & (el & Hel & (ex & Hex & (u3 & _ & (u4 & _ & [= <-])%bind_Ok)%bind_Ok)%bind_Ok)%bind_Ok)%bind_Ok)%bind_Ok)%bind_Ok.
  apply bind_Ok in Hel as (u5 & _ & (u6 & _ & [= <-])%bind_Ok). apply bind_Ok in Hex as (u7 & _ & (u8 & _ & [= <-])%bind_Ok). simpl.
  split_and!; [done|intros; apply elem_of_sort_on..|done].
Qed.

Lemma release_profiles_spec p component releases profiles profile :
  release_profiles p component releases = Ok profiles → profile ∈ profiles → profile_of releases component profile.
Proof.
  unfold release_profiles. intros (dated & Hd & Hp)%bind_Ok Hin.
  apply (mapM_elem _ _ _ profile Hp) in Hin as (d & Ht & Hprof). apply release_profile_fields in Hprof as (<- & Hel & Hex & _).
  assert (Hdated : ∀ i e, (i, e) ∈ dated ↔ i ∈ rl_action_ids component ∧ releases !! i = Some e).
  { intros i e. rewrite (mapM_elem _ _ _ (i, e) Hd). split.
    - intros (j & Hj & (e' & He%of_option_Ok & [= -> ->])%bind_Ok). done.
    - intros [Hi He]. exists i. split; [done|]. by rewrite He. }
  split.
  - intros i. rewrite Hex, list_elem_of_fmap. split.
    + intros ([j e] & -> & [He Hj]%list_elem_of_filter). rewrite sort_on_perm in Hj. apply Hdated in Hj as [? ?]. split; [done|]. by exists e.
    + intros [Hi (e & He & Heq)]. exists (i, e). split; [done|]. apply list_elem_of_filter. split; [done|]. rewrite sort_on_perm. by apply Hdated.
  - intros i. rewrite Hel, list_elem_of_fmap. unfold datetime_ltb. split.
    + intros ([j e] & -> & [He Hj]%list_elem_of_filter). rewrite sort_on_perm in Hj. apply Hdated in Hj as [? ?].
      apply Z.ltb_ge in He. split; [done|]. by exists e.
    + intros [Hi (e & He & Hle)]. exists (i, e). split; [done|]. apply list_elem_of_filter. split; [by apply Z.ltb_ge|].
      rewrite sort_on_perm. by apply Hdated.
  - rewrite elem_of_sort in Ht. apply dedupe_elem, list_elem_of_fmap in Ht as ([i e] & E & Hi). simpl in E.
    apply Hdated in Hi as [Hi He]. exists i. by rewrite E.
Qed.

(** ** Releases of actions *)

Lemma utc_eqb d e : is_utc d = true → is_utc e = true → datetime_eqb d e = true → d = e.
Proof.
  unfold is_utc, datetime_eqb. destruct d as [u o], e as [v w]; simpl. intros ?%bool_decide_eq_true_1 ?%bool_decide_eq_true_1.
  simplify_eq. intros ?%Z.eqb_eq. by subst.
Qed.

Section releases.
Context (p : ArbitrageProblem) (releases : gmap string datetime) (Hwf : wf_problem p).
Context (Hrel : ∀ a, a ∈ pb_actions p →
  ∃ d, releases !! ca_action_id a = Some d ∧ latest_release p (ca_market_contract_id a) d).

Lemma release_utc ω a d :
  allowed p ω → a ∈ pb_actions p → ta_capital_release_at (ω (ca_market_contract_id a)) = Some d →
  is_utc d = true ∧ dt_us (pb_as_of p) ≤ dt_us d.
Proof.
  intros Hω Ha Hd. apply (wf_action_contracts _ Hwf) in Ha as (s & Hs & Es)%elem_of_contracts.
  destruct (wt_release _ _ _ (wf_atom_in p Hwf s _ Hs (al_outcome _ _ Hω s Hs))) as (e & He & Hu & Hle).
  rewrite Es, Hd in He. by injection He as <-.
Qed.

Lemma known_release a d :
  a ∈ pb_actions p → releases !! ca_action_id a = Some d →
  is_utc d = true ∧ dt_us (pb_as_of p) ≤ dt_us d ∧ latest_release p (ca_market_contract_id a) d.
Proof.
  intros Ha Hd. destruct (Hrel a Ha) as (e & He & Hl). rewrite Hd in He. injection He as <-.
  destruct Hl as [(ω & Hω & Ed) Hmax]. destruct (release_utc ω a d Hω Ha Ed). split_and!; [done..|]. split; [eauto|done].
Qed.
End releases.

(** ** A confirmed candidate *)

Definition evaluation_at (qs : list ActionQuantity) (payout cost : Z) (sc : SettlementScenario) (cut : WorstStateCut)
    (d : datetime) (failed : list string) : PortfolioEvaluation := {|
  pe_quantities := qs; pe_payout_lower_bound_units := payout; pe_cost_upper_bound_units := cost;
  pe_guaranteed_profit_units := payout - cost; pe_worst_scenario := sc; pe_worst_state_cut := cut;
  pe_conservative_capital_release_at := Some d; pe_failed_qualification_ids := failed; pe_time_qualification := "KNOWN" |}.

Section candidate.
Context `{Sha256} (backend : SolverBackend) (Hh : honest backend) (p : ArbitrageProblem).
Context (component : RelationComponent) (profile : ReleaseProfile) (releases : gmap string datetime).
Context (Hsorted : StronglySorted (λ i j, String.leb i j = true) (rl_action_ids component)).
Context (Hprof : profile_of releases component profile).
Context (Hrel : ∀ a, a ∈ pb_actions p →
  ∃ d, releases !! ca_action_id a = Some d ∧ latest_release p (ca_market_contract_id a) d).
Context (cuts : list WorstStateCut) (excluded : list (list ActionQuantity)) (cm : CompiledMaster).
Context (actions : list CandidateAction) (nogoods : list (list IntVariable * list LinearConstraint)) (cost : Z * Z).
Context (terms : list (list term)) (bounds : list (Z * Z)) (cut_constraints : list (list LinearConstraint)).
Context (extra : list IntVariable * list LinearConstraint) (qualification : list (list LinearConstraint)).
Context (MP : master_parts p component profile cuts excluded cm actions nogoods cost terms bounds cut_constraints extra qualification).

(** The release of an action: a real one. *)
Lemma action_release a d :
  a ∈ pb_actions p → releases !! ca_action_id a = Some d →
  is_utc d = true ∧ dt_us (pb_as_of p) ≤ dt_us d ∧ latest_release p (ca_market_contract_id a) d.
Proof. apply known_release; [|done]. by eapply mp_wf. Qed.

Lemma component_action i : i ∈ rl_action_ids component → ∃ a, a ∈ actions ∧ a ∈ pb_actions p ∧ ca_action_id a = i.
Proof.
  destruct (master_action_ids _ _ _ _ _ _ _ _ _ _ _ _ _ _ MP) as [<- _]. intros (a & -> & Ha)%list_elem_of_fmap.
  exists a. split_and!; [done| |done]. by eapply actions_wf.
Qed.

Lemma profile_release : is_utc (rp_release_at profile) = true ∧ dt_us (pb_as_of p) ≤ dt_us (rp_release_at profile).
Proof.
  destruct (po_known _ _ _ Hprof) as (i & Hi & Hd). destruct (component_action i Hi) as (a & _ & Ha & <-).
  by destruct (action_release a _ Ha Hd) as (? & ? & _).
Qed.

(** The release of the profile is the latest release of a point's portfolio. *)
Lemma point_release x :
  master_point p profile cuts excluded actions x →
  release_of p (quantities_at actions x) (Some (rp_release_at profile)) ∧
  ∀ o, release_of p (quantities_at actions x) o → ∃ t, o = Some t ∧ dt_us t ≤ dt_us (rp_release_at profile).
Proof.
  intros Hpt. pose proof (mp_wf _ _ _ _ _ _ _ _ _ _ _ _ _ _ MP) as Hwf.
  assert (Hin : ∀ a, a ∈ actions → a ∈ pb_actions p) by (intros a Ha; by eapply actions_wf).
  pose proof (quantities_at_ids p Hwf actions x Hin (mt_actions _ _ _ _ _ _ Hpt)) as Hids. split.
  - destruct (mt_exact _ _ _ _ _ _ Hpt) as (a & Ha & He & Hc). apply (po_exact _ _ _ Hprof) in He as [_ (d & Hd & Heq)].
    destruct (action_release a d (Hin a Ha) Hd) as (Hu & _ & [(ω & Hω & Ed) _]).
    apply utc_eqb in Heq as ->; [|done|apply profile_release]. exists ω, a. split_and!; [done|by apply Hin| |done].
    apply Hids. by exists a.
  - intros o (ω & a & Hω & Ha & (b & Hb & Eid & Hc)%Hids & ->).
    assert (b = a) as -> by (by apply (NoDup_key_eq ca_action_id (pb_actions p)); [apply Hwf|apply Hin|..]).
    destruct (decide (ca_action_id a ∈ rp_eligible_action_ids profile)) as [He|He].
    + apply (po_eligible _ _ _ Hprof) in He as [_ (d & Hd & Hle)].
      destruct (action_release a d Ha Hd) as (_ & _ & [_ Hmax]). destruct (Hmax ω Hω) as (t & -> & Ht). exists t. split; [done|lia].
    + rewrite (mt_eligible _ _ _ _ _ _ Hpt a Hb He) in Hc. done.
Qed.

Lemma master_quantities_at r qs :
  master_quantities cm r = Ok qs → qs = quantities_at actions (result_point r).
Proof.
  unfold master_quantities. rewrite (mp_quantities _ _ _ _ _ _ _ _ _ _ _ _ _ _ MP). intros (all & Hall%mapM_Ok & [= <-])%bind_Ok.
  unfold quantities_at. f_equal. rewrite Forall2_fmap_l in Hall. symmetry. apply list_eq_Forall2, Forall2_fmap_l.
  eapply Forall2_impl; [exact Hall|]. intros a q (n & ->%value_of_point & [= <-])%bind_Ok. done.
Qed.

Lemma candidate_selection x :
  master_point p profile cuts excluded actions x → selection p (quantities_at actions x).
Proof.
  intros Hpt. destruct (master_action_ids _ _ _ _ _ _ _ _ _ _ _ _ _ _ MP) as [E Hnd].
  apply quantities_at_selection; [apply (mp_wf _ _ _ _ _ _ _ _ _ _ _ _ _ _ MP)|intros a Ha; by eapply actions_wf|done|by apply Hpt|].
  by rewrite E.
Qed.

Lemma candidate_sound r qs ad ar payout c sc cut ids :
  feasible (cm_model cm) (result_point r) → master_quantities cm r = Ok qs →
  compile_adversary p qs None = Ok ad → answers backend (ad_model ad) ar → br_status ar = NATIVE_OPTIMAL →
  objective_activity (ad_model ad) ar = Ok payout → scenario_from_result ad ar = Ok sc →
  value_of r "cost" = Ok c → failed_qualification_ids p payout c (rp_release_at profile) = Ok ids →
  evaluation_sound p qs (evaluation_at qs payout c sc cut (rp_release_at profile) ids).
Proof.
  intros Hf ->%master_quantities_at Had Hans Hopt Hpay Hsc ->%value_of_point Hids. set (x := result_point r) in *.
  pose proof (mp_wf _ _ _ _ _ _ _ _ _ _ _ _ _ _ MP) as Hwf.
  assert (Hpt : master_point p profile cuts excluded actions x).
  { eapply master_rows_point; [exact MP|]. by eapply feasible_master. }
  pose proof (candidate_selection x Hpt) as Hsel.
  assert (Eq : ad_quantities ad = quantities_at actions x).
  { apply compile_adversary_inv in Had as (_ & Hq & _). rewrite (selected_quantities_id p _ Hwf Hsel) in Hq. by injection Hq. }
  destruct (adversary_worst backend p _ None ad Had ar payout Hh Hans Hopt Hpay) as (ω & Hω & Epay & Hmin & Hscen).
  rewrite restrict_None in Hω, Hmin. rewrite Eq in Epay, Hmin.
  destruct (failed_ids_agree p payout (x "cost") _ ids Hwf (proj2 profile_release) Hids) as (Hint & l & Hl & ->).
  assert (Hin : ∀ a, a ∈ actions → a ∈ pb_actions p) by (intros a Ha; by eapply actions_wf).
  split; simpl; try done.
  - rewrite <- Eq. eapply adversary_nonempty, Had.
  - rewrite filter_all.
    + symmetry. apply sort_on_sorted_id; apply Hsel.
    + eapply Forall_impl; [apply Hsel|]. intros q (a & _ & _ & ?). lia.
  - rewrite (portfolio_cost_at p Hwf actions x Hin). by apply Hpt.
  - exists ω. split_and!; [done|by apply Hscen|done].
  - exists (rp_release_at profile). split_and!; [done|by apply point_release..].
  - intros q Hq. by apply (failed_ids_spec p payout (x "cost") (payout - x "cost") (rp_release_at profile) l (wf_qualification_ids _ Hwf) Hl).
  - intros i (q & -> & Hq)%list_elem_of_fmap. apply list_elem_of_fmap_2.
    apply filterM_Ok in Hl as [_ Hl]. apply Hl in Hq as [Hq _]. by rewrite sort_on_perm in Hq.
Qed.
End candidate.
