(* ===== verification/MasterComplete.v ===== *)
(** * Every admissible portfolio is a point of the master problem

    A selection of the component that fits the release profile, is not
    excluded and meets the qualifications with its true payout is an integer
    point of the compiled master, whose profit is at least the true one. *)

From S2P Require Import Prelude PyValue NLeg NLegForms NLegValidate NLegWf Oracle OracleScenario OracleEval OracleQualify UnionFind Support SupportCorrect Search Components LinearModel TerminalModel TerminalCorrect PartialFill FillCorrect FillProof Master MasterCorrect Generation GenerationCorrect CandidateCorrect.
Local Open Scope Z_scope.

(** ** Assignments *)

Abbreviation assignment := (list (IntVariable * Z)).

Definition point_of (l : assignment) (name : string) : Z := default 0 (py_dict ((λ v, (iv_name v.1, v.2)) <$> l) !! name).

Definition follows (x : string → Z) (l : assignment) : Prop := Forall (λ v, x (iv_name v.1) = v.2) l.

Lemma point_of_follows l : NoDup (iv_name <$> l.*1) → follows (point_of l) l.
Proof.
  intros Hnd. apply Forall_forall. intros [v k] Hv. unfold point_of.
  rewrite (py_dict_fmap_lookup (λ v, iv_name v.1) snd l (v, k)); [done| |done].
  by rewrite <- list_fmap_compose in Hnd.
Qed.

Lemma follows_app x l k : follows x (l ++ k) ↔ follows x l ∧ follows x k.
Proof. apply Forall_app. Qed.

Lemma follows_cons x v k l : follows x ((v, k) :: l) ↔ x (iv_name v) = k ∧ follows x l.
Proof. unfold follows. by rewrite Forall_cons. Qed.

Lemma follows_bind {A} x (f : A → assignment) l : follows x (l ≫= f) ↔ ∀ a, a ∈ l → follows x (f a).
Proof. apply Forall_bind_iff. Qed.

(** ** Price slices *)

(** How much of slice [c] a quantity of [q] lots fills. *)
Definition fill_in (q : Z) (c : ExecutableCostSlice) : Z := Z.max 0 (Z.min (slice_width c) (q - first_lot c + 1)).
Definition open_in (q : Z) (c : ExecutableCostSlice) : Z := if 0 <? fill_in q c then 1 else 0.

Lemma fill_cases q c :
  first_lot c ≤ last_lot c →
  open_in q c = 0 ∧ fill_in q c = 0 ∧ q < first_lot c ∨
  open_in q c = 1 ∧ fill_in q c = Z.min (slice_width c) (q - first_lot c + 1) ∧ first_lot c ≤ q.
Proof.
  intros Hle. unfold open_in. destruct (0 <? fill_in q c) eqn:E; bool_prop; unfold fill_in, slice_width in *; [right|left];
    split_and!; lia.
Qed.

Fixpoint slice_assignment (i : string) (q : Z) (n : nat) (slices : list ExecutableCostSlice) : assignment :=
  match slices with
  | [] => []
  | c :: slices =>
      (int_variable (slice_fill i n) 0 (slice_width c), fill_in q c) :: (int_variable (slice_open i n) 0 1, open_in q c) ::
      slice_assignment i q (S n) slices
  end.

Lemma slice_assignment_variables i q n previous slices :
  (slice_assignment i q n slices).*1 = (slices_block i n previous slices).1.
Proof.
  revert n previous. induction slices as [|c slices IH]; intros n previous; [done|]. csimpl. rewrite (IH (S n) (Some c)).
  by destruct (slices_block i (S n) (Some c) slices).
Qed.

Lemma slices_complete x i q n previous p slices :
  contiguous p slices → follows x (slice_assignment i q n slices) →
  match previous with
  | None => True
  | Some c => x (slice_fill i (n - 1)) = fill_in q c ∧ x (slice_open i (n - 1)) = open_in q c ∧ last_lot c = p ∧ first_lot c ≤ last_lot c
  end →
  block_holds x (slices_block i n previous slices) ∧ filled x i n slices = Z.max 0 (Z.min q (final_lot p slices) - p).
Proof.
  revert n previous p. induction slices as [|c slices IH]; intros n previous p.
  { intros _ _ _. split; [split; constructor|]. change (filled x i n []) with 0. unfold final_lot. simpl. lia. }
  intros (Hf & Hle & Hc) Hx Hprev. cbn [slice_assignment] in Hx. apply follows_cons in Hx as [Hfill [Hopen Hx]%follows_cons].
  cbn [iv_name int_variable] in Hfill, Hopen.
  destruct (IH (S n) (Some c) (last_lot c) Hc Hx) as [Hb Hn].
  { simpl. rewrite Nat.sub_0_r. done. }
  rewrite filled_cons, final_lot_cons, Hn, Hfill. split.
  - apply slices_block_cons. split; [|done]. unfold slice_facts. rewrite Hfill, Hopen.
    assert (Hw : slice_width c = last_lot c - first_lot c + 1) by done.
    destruct (fill_cases q c Hle) as [(-> & -> & Hq)|(-> & -> & Hq)]; (split_and!; [lia..|]);
      (destruct previous as [c'|]; [|done]); destruct Hprev as (-> & -> & Hl' & Hle');
      assert (Hw' : slice_width c' = last_lot c' - first_lot c' + 1) by done;
      destruct (fill_cases q c' Hle') as [(-> & -> & Hq')|(-> & -> & Hq')]; lia.
  - unfold fill_in, slice_width. assert (last_lot c ≤ final_lot (last_lot c) slices); [|lia].
    clear -Hc. revert Hc. generalize (last_lot c). induction slices as [|d slices IH]; intros l; [done|].
    intros (? & ? & Hd). rewrite final_lot_cons. specialize (IH _ Hd). lia.
Qed.

(** ** One action *)

Definition action_assignment (Q : string → Z) (a : CandidateAction) : assignment :=
  let i := ca_action_id a in
  (int_variable (quantity_name i) 0 (ca_max_quantity_lots a), Q i) ::
  (int_variable (selected_name i) 0 1, if Q i =? 0 then 0 else 1) ::
  slice_assignment i (Q i) 0 (ca_cost_slices a).

Lemma action_assignment_variables Q a : (action_assignment Q a).*1 = action_variables a.
Proof. unfold action_assignment, action_variables. simpl. by rewrite (slice_assignment_variables _ _ _ None). Qed.

Definition lots_ok (Q : string → Z) (a : CandidateAction) : Prop := Q (ca_action_id a) = 0 ∨ in_range a (Q (ca_action_id a)).

Lemma action_complete p x Q a :
  wf_action p a → lots_ok Q a → follows x (action_assignment Q a) →
  block_holds x (action_variables a, action_rows a) ∧ lots_at x a = Q (ca_action_id a) ∧
  chosen x a = (if Q (ca_action_id a) =? 0 then 0 else 1).
Proof.
  intros Hwf HQ [Hq [Hb Hs]%follows_cons]%follows_cons. simpl in Hq, Hb. pose proof (wa_bounds _ _ Hwf) as Hbound.
  destruct (slices_complete x _ _ 0 None 0 _ (wa_slices _ _ Hwf) Hs I) as [Hblock Hfilled].
  split; [|by split]. apply action_block. unfold lots_at, chosen. rewrite Hq, Hb, Hfilled.
  destruct (wa_covered _ _ Hwf) as (c & Hlast & Hmax). unfold final_lot. rewrite Hlast.
  set (k := Q (ca_action_id a)) in *. unfold lots_ok, in_range in HQ. fold k in HQ.
  destruct (k =? 0) eqn:E; bool_prop; split_and!; try done; lia.
Qed.

(** ** Excluded vectors *)

Definition nogood_assignment (Q : string → Z) (n : nat) (targets : gmap string Z) (a : CandidateAction) : assignment :=
  let i := ca_action_id a in
  let target := target_of targets a in
  (if 0 <? target then [(int_variable (nogood_witness n "lower" i) 0 1, if Q i <? target then 1 else 0)] else []) ++
  (if target <? ca_max_quantity_lots a then [(int_variable (nogood_witness n "higher" i) 0 1, if target <? Q i then 1 else 0)] else []).

Lemma nogood_assignment_variables Q n targets a : (nogood_assignment Q n targets a).*1 = (nogood_action n targets a).*1.
Proof. unfold nogood_assignment, nogood_action, target_of. by destruct (0 <? _), (_ <? ca_max_quantity_lots a). Qed.

Lemma nogood_complete x Q n targets a :
  0 ≤ Q (ca_action_id a) ≤ ca_max_quantity_lots a → lots_at x a = Q (ca_action_id a) →
  follows x (nogood_assignment Q n targets a) →
  let ws := nogood_action n targets a in
  block_holds x (ws.*1, ws.*2) ∧ 0 ≤ witness_sum x ws ∧ (Q (ca_action_id a) ≠ target_of targets a → 1 ≤ witness_sum x ws).
Proof.
  intros HQ Hl. unfold nogood_assignment, block_holds, witness_sum, nogood_action. fold (target_of targets a). set (t := target_of targets a).
  unfold lots_at in Hl. set (k := Q (ca_action_id a)) in *.
  destruct (0 <? t) eqn:E1, (t <? ca_max_quantity_lots a) eqn:E2; bool_prop; simpl; rewrite ?follows_cons;
    rewrite ?Forall_cons, ?row_ok_constraint, ?within_upper, ?within_lower, ?activity_cons, ?activity_nil, ?Hl;
    unfold bounds_ok, int_variable; simpl.
  - intros (-> & -> & _). destruct (k <? t) eqn:F1, (t <? k) eqn:F2; bool_prop; split_and!; try (by constructor); lia.
  - intros (-> & _). destruct (k <? t) eqn:F1; bool_prop; split_and!; try (by constructor); lia.
  - intros (-> & _). destruct (t <? k) eqn:F2; bool_prop; split_and!; try (by constructor); lia.
  - intros _. split_and!; try (by constructor); lia.
Qed.

Lemma sumZ_ge_elem {A} (f : A → Z) l a : (∀ b, b ∈ l → 0 ≤ f b) → a ∈ l → f a ≤ sumZ (f <$> l).
Proof.
  intros Hf Ha. induction l as [|b l IH]; [by apply not_elem_of_nil in Ha|]. csimpl.
  assert (0 ≤ sumZ (f <$> l)).
  { apply sumZ_nonneg, Forall_fmap, Forall_forall. intros c Hc. apply Hf. by right. }
  pose proof (Hf b ltac:(left)). apply elem_of_cons in Ha as [->|Ha]; [lia|].
  specialize (IH (λ c Hc, Hf c (list_elem_of_further _ _ _ Hc)) Ha). lia.
Qed.

(** The assignment of the witnesses of every excluded vector. *)
Definition nogoods_assignment (p : ArbitrageProblem) (Q : string → Z) (actions : list CandidateAction)
    (entries : list (nat * list ActionQuantity)) : assignment :=
  entries ≫= λ entry,
    match canonical_quantities p entry.2 with
    | Ok canonical => actions ≫= nogood_assignment Q entry.1 (quantity_dict canonical)
    | Err _ => []
    end.

Lemma bind_fst {A B C} (f : A → list (B * C)) (l : list A) : (l ≫= f).*1 = l ≫= λ a, (f a).*1.
Proof. induction l as [|a l IH]; [done|]. csimpl. by rewrite fmap_app, IH. Qed.

Lemma list_bind_ext' {A B} (f g : A → list B) (l : list A) : (∀ a, f a = g a) → l ≫= f = l ≫= g.
Proof. intros E. induction l as [|a l IH]; [done|]. csimpl. by rewrite E, IH. Qed.

Lemma nogoods_assignment_variables p Q actions entries nogoods :
  Forall2 (λ entry b, nogood_block p actions entry = Ok b) entries nogoods →
  (nogoods_assignment p Q actions entries).*1 = mjoin nogoods.*1.
Proof.
  unfold nogoods_assignment. induction 1 as [|[n v] b entries nogoods Hb _ IH]; [done|]. csimpl. rewrite fmap_app, IH. f_equal.
  unfold nogood_block in Hb. apply bind_Ok in Hb as (canonical & -> & (u & _ & [= <-])%bind_Ok). simpl.
  rewrite bind_fst, bind_fst. apply list_bind_ext'. intros a. apply nogood_assignment_variables.
Qed.

Lemma nogoods_complete p x Q actions entries nogoods :
  Forall2 (λ entry b, nogood_block p actions entry = Ok b) entries nogoods →
  (∀ a, a ∈ actions → 0 ≤ Q (ca_action_id a) ≤ ca_max_quantity_lots a ∧ lots_at x a = Q (ca_action_id a)) →
  (∀ entry canonical, entry ∈ entries → canonical_quantities p entry.2 = Ok canonical →
     ∃ a, a ∈ actions ∧ Q (ca_action_id a) ≠ target_of (quantity_dict canonical) a) →
  follows x (nogoods_assignment p Q actions entries) → Forall (block_holds x) nogoods.
Proof.
  unfold nogoods_assignment. intros Hb HQ Hdiff. induction Hb as [|[n v] b entries nogoods Hb _ IH]; csimpl; [constructor|].
  intros [Hx Hr]%follows_app. constructor; [|apply IH; [intros; eapply Hdiff; [by right|done]|done]].
  apply nogood_block_inv in Hb as (canonical & Hc & Hb). rewrite Hc in Hx. apply Hb.
  rewrite follows_bind in Hx. split.
  - intros a Ha. by destruct (nogood_complete x Q n (quantity_dict canonical) a (proj1 (HQ a Ha)) (proj2 (HQ a Ha)) (Hx a Ha)).
  - destruct (Hdiff (n, v) canonical ltac:(left) Hc) as (a & Ha & Hne).
    transitivity (witness_sum x (nogood_action n (quantity_dict canonical) a)).
    + by apply (nogood_complete x Q n (quantity_dict canonical) a (proj1 (HQ a Ha)) (proj2 (HQ a Ha)) (Hx a Ha)).
    + apply (sumZ_ge_elem (λ a, witness_sum x (nogood_action n (quantity_dict canonical) a))); [|done]. intros b' Hb'.
      by apply (nogood_complete x Q n (quantity_dict canonical) b' (proj1 (HQ b' Hb')) (proj2 (HQ b' Hb')) (Hx b' Hb')).
Qed.

(** ** The floor of the payout *)

Lemma minimum_action_payout_le p ω a i k :
  wf_problem p → outcome p ω → a ∈ pb_actions p → minimum_action_payout p a = Ok (i, k) →
  i = ca_action_id a ∧ k ≤ payout_of p ω (ca_action_id a).
Proof.
  intros Hwf Ho Ha. unfold minimum_action_payout.
  intros (s & Hs%of_option_Ok & (payouts & Hp & (u & Hne%require_Ok & [= <- <-])%bind_Ok)%bind_Ok)%bind_Ok. split; [done|].
  apply index_by_elem in Hs as [Hs Es]. bool_prop. apply minimum_of_spec in Hne as [_ Hmin]. apply Hmin.
  apply (mapM_elem _ _ _ _ Hp). exists (ω (ts_market_contract_id s)). split; [by apply Ho|].
  unfold payout_of. rewrite (proj2 (index_by_lookup ca_action_id (pb_actions p) _ a (wf_action_ids _ Hwf))) by done.
  rewrite <- Es.
  destruct (action_state p Hwf ω Ho a Ha) as (s' & Hs' & Es' & (y & Ey & Hy)%list_elem_of_fmap).
  assert (s' = s) as -> by (apply (NoDup_key_eq ts_market_contract_id (pb_terminal_state_sets p)); [apply Hwf|done..|congruence]).
  destruct (py_next_is_Some (λ y, (ap_action_id y =? ca_action_id a)%string) _ y Hy) as [y' ->]; [by rewrite Ey, String.eqb_refl|done].
Qed.

Lemma payout_floor_le p ω x actions terms :
  wf_problem p → outcome p ω → (∀ a, a ∈ actions → a ∈ pb_actions p ∧ 0 ≤ lots_at x a) → payout_floor p actions = Ok terms →
  activity x terms ≤ sumZ ((λ a, payout_of p ω (ca_action_id a) * lots_at x a) <$> actions).
Proof.
  intros Hwf Ho Hin. unfold payout_floor. intros (mins & Hmins & Ht%mapM_Ok)%bind_Ok.
  induction Ht as [|a t actions terms (k & Hk%of_option_Ok & [= <-])%bind_Ok _ IH]; csimpl; [done|].
  rewrite activity_cons. specialize (IH (λ b Hb, Hin b (list_elem_of_further _ _ _ Hb))).
  destruct (Hin a ltac:(left)) as [Ha Hpos]. apply py_dict_elem in Hk. apply (mapM_elem _ _ _ _ Hmins) in Hk as (b & Hb & Eb).
  destruct (minimum_action_payout_le p ω b _ _ Hwf Ho Hb Eb) as [Ei Hle].
  assert (b = a) as -> by (apply (NoDup_key_eq ca_action_id (pb_actions p)); [apply Hwf|done..]). unfold lots_at in *. nia.
Qed.

(** ** Qualification rows *)

Lemma comparison_row_ok x name terms right c :
  row_ok x (comparison_row name terms right c) ↔ compare c (activity x terms) right = true.
Proof.
  destruct c; simpl; rewrite row_ok_constraint, ?within_upper, ?within_lower, Z.leb_le; done.
Qed.

Lemma compare_shift c a b k : compare c a b = compare c (a - k) (b - k).
Proof. destruct c; simpl; apply eq_true_iff_eq; rewrite !Z.leb_le; lia. Qed.

Lemma qualification_rows_complete p profile d var x c rows payout cost profit :
  release_delay_seconds p (Some d) = Ok (rp_delay_seconds profile) → occupied_days p (Some d) = Ok (rp_occupied_days profile) →
  x (var PROFIT) = profit → x (var PAYOUT) = payout → x (var COST) = cost →
  qualification_rows profile var c = Ok rows → qualification_passes p c payout cost profit (Some d) = Ok true →
  Forall (row_ok x) rows.
Proof.
  intros Hdelay Hdays Hp Hy Hc. unfold qualification_rows. intros (f & Hf & (right & Hr & Hrows)%bind_Ok)%bind_Ok.
  unfold qualification_formula in Hf. unfold qualification_passes. set (R := release_delay_seconds p (Some d)) in *.
  set (num := qc_threshold_numerator c) in *. set (den := qc_threshold_denominator c) in *.
  destruct (qc_metric c).
  - injection Hf as <-. injection Hr as <-. simpl in Hrows. injection Hrows as <-.
    intros (l & [-> _]%checked_Ok & [= Hb])%bind_Ok. apply Forall_singleton, comparison_row_ok.
    rewrite activity_cons, activity_nil, Hp, Z.add_0_r. done.
  - apply bind_Ok in Hf as (k & [-> _]%product64_two & [= <-]). simpl in Hr.
    apply bind_Ok in Hr as (r & (k & [-> _]%int64_value_Ok & [= <-])%bind_Ok & [= <-]). simpl in Hrows. injection Hrows as <-.
    destruct ((0 <? num) && (payout <=? 0)) eqn:Eb; [done|].
    intros (l & ->%checked_product_Ok & (r & [-> _]%checked_Ok & [= Hb])%bind_Ok)%bind_Ok. simpl in Hb.
    apply Forall_app. split.
    + destruct (0 <? num) eqn:En; [|constructor]. apply Forall_singleton. simpl in Eb. bool_prop.
      rewrite row_ok_constraint, within_lower, activity_cons, activity_nil, Hy. lia.
    + apply Forall_singleton, comparison_row_ok. rewrite !activity_cons, activity_nil, Hp, Hy.
      rewrite (compare_shift _ _ _ (num * payout)) in Hb. rewrite <- Hb. f_equal; ring.
  - apply bind_Ok in Hf as (k & [-> _]%product64_two & [= <-]). simpl in Hr.
    apply bind_Ok in Hr as (r & (k & [-> _]%int64_value_Ok & [= <-])%bind_Ok & [= <-]). simpl in Hrows. injection Hrows as <-.
    destruct ((0 <? num) && (cost <=? 0)) eqn:Eb; [done|].
    intros (l & ->%checked_product_Ok & (r & [-> _]%checked_Ok & [= Hb])%bind_Ok)%bind_Ok. simpl in Hb.
    apply Forall_app. split.
    + destruct (0 <? num) eqn:En; [|constructor]. apply Forall_singleton. simpl in Eb. bool_prop.
      rewrite row_ok_constraint, within_lower, activity_cons, activity_nil, Hc. lia.
    + apply Forall_singleton, comparison_row_ok. rewrite !activity_cons, activity_nil, Hp, Hc.
      rewrite (compare_shift _ _ _ (num * cost)) in Hb. rewrite <- Hb. f_equal; ring.
  - apply bind_Ok in Hf as (k & [-> _]%product64_three & (r & [-> _]%product64_two & [= <-])%bind_Ok). simpl in Hr.
    apply bind_Ok in Hr as (r & (k & [-> _]%int64_value_Ok & [= <-])%bind_Ok & [= <-]). simpl in Hrows. injection Hrows as <-.
    rewrite Hdays. simpl. intros (l & ->%checked_product_Ok & (r & ->%checked_product_Ok & [= Hb])%bind_Ok)%bind_Ok. simpl in Hb.
    apply Forall_singleton, comparison_row_ok. rewrite !activity_cons, activity_nil, Hp, Hc.
    rewrite (compare_shift _ _ _ (num * (cost * (rp_occupied_days profile * 1)))) in Hb. rewrite <- Hb. f_equal; ring.
  - apply bind_Ok in Hf as (k & [-> _]%product64_two & [= <-]). simpl in Hr. injection Hr as <-. simpl in Hrows. injection Hrows as <-.
    rewrite Hdelay. simpl. intros (l & [-> _]%checked_Ok & [= Hb])%bind_Ok. apply Forall_singleton.
    rewrite Hb, row_ok_constraint, within_lower. unfold activity. simpl. lia.
Qed.

(** ** The whole point *)

Definition indicator_of (n0 n : nat) : Z := if (n =? n0)%nat then 1 else 0.

Lemma indicator_sum {A} (l : list A) n0 : (n0 < length l)%nat → sumZ (imap (λ n _, indicator_of n0 n) l) = 1.
Proof.
  revert n0. induction l as [|a l IH]; intros n0; simpl; [lia|]. intros Hn. destruct n0 as [|n0].
  - assert (Hz : ∀ k : nat, sumZ (imap (λ n _, indicator_of 0 (S k + n)) l) = 0).
    { clear. induction l as [|a l IH]; intros k; [done|]. rewrite imap_cons.
      rewrite (imap_ext _ (λ n (_ : A), indicator_of 0 (S (S k) + n))) by (intros n y _; simpl; by rewrite Nat.add_succ_r).
      simpl. apply (IH (S k)). }
    specialize (Hz 0%nat). change (indicator_of 0 0 + sumZ (imap (λ n _, indicator_of 0 (1 + n)) l) = 1). rewrite Hz. done.
  - change (indicator_of (S n0) 0 + sumZ (imap (λ n _, indicator_of n0 n) l) = 1). rewrite (IH n0) by lia. done.
Qed.

Section complete.
Context `{Sha256} (p : ArbitrageProblem) (component : RelationComponent) (profile : ReleaseProfile).
Context (cuts : list WorstStateCut) (excluded : list (list ActionQuantity)) (cm : CompiledMaster).
Context (actions : list CandidateAction) (nogoods : list (list IntVariable * list LinearConstraint)) (cost : Z * Z).
Context (terms : list (list term)) (bounds : list (Z * Z)) (cut_constraints : list (list LinearConstraint)).
Context (extra : list IntVariable * list LinearConstraint) (qualification : list (list LinearConstraint)).
Context (MP : master_parts p component profile cuts excluded cm actions nogoods cost terms bounds cut_constraints extra qualification).

(** The portfolio: lots by action id; its payout [T] in the outcome [ω]. *)
Context (Q : string → Z) (ω : string → TerminalAtom).

Definition total_cost : Z := sumZ ((λ a, lots_cost (ca_cost_slices a) (Q (ca_action_id a))) <$> actions).
Definition payout_in_cut (cut : WorstStateCut) : Z := sumZ ((λ a, cut_payout cut (ca_action_id a) * Q (ca_action_id a)) <$> actions).
Definition total_payout : Z := sumZ ((λ a, payout_of p ω (ca_action_id a) * Q (ca_action_id a)) <$> actions).

Record admissible_portfolio : Prop := {
  ap_outcome : outcome p ω;
  ap_lots : ∀ a, a ∈ actions → lots_ok Q a;
  ap_exact : ∃ a, a ∈ actions ∧ ca_action_id a ∈ rp_exact_action_ids profile ∧ Q (ca_action_id a) ≠ 0;
  ap_eligible : ∀ a, a ∈ actions → ca_action_id a ∉ rp_eligible_action_ids profile → Q (ca_action_id a) = 0;
  ap_excluded : ∀ v canonical, v ∈ excluded → canonical_quantities p v = Ok canonical →
    ∃ a, a ∈ actions ∧ Q (ca_action_id a) ≠ target_of (quantity_dict canonical) a;
  ap_worst : ∀ cut, cut ∈ cuts → total_payout ≤ payout_in_cut cut;
  ap_release : dt_us (pb_as_of p) ≤ dt_us (rp_release_at profile);
  ap_qualified : ∀ c, c ∈ pb_qualification_constraints p →
    qualification_passes p c total_payout total_cost (total_payout - total_cost) (Some (rp_release_at profile)) = Ok true;
}.

Context (AP : admissible_portfolio).

Let payout := minimum_of (payout_in_cut <$> cuts).

Lemma least_cut : ∃ n0 cut, cuts !! n0 = Some cut ∧ payout = payout_in_cut cut.
Proof.
  destruct (minimum_of_spec (payout_in_cut <$> cuts)) as [(cut & E & Hc)%list_elem_of_fmap _].
  - pose proof (mp_nonempty _ _ _ _ _ _ _ _ _ _ _ _ _ _ MP). by destruct cuts.
  - apply list_elem_of_lookup in Hc as (n0 & Hn). by exists n0, cut.
Qed.

Lemma least_le cut : cut ∈ cuts → payout ≤ payout_in_cut cut.
Proof.
  intros Hc. destruct (minimum_of_spec (payout_in_cut <$> cuts)) as [_ Hle].
  - intros E%fmap_nil_inv. rewrite E in Hc. by apply not_elem_of_nil in Hc.
  - apply Hle. by apply list_elem_of_fmap_2.
Qed.

Lemma true_payout_le : total_payout ≤ payout.
Proof. destruct least_cut as (n0 & cut & Hn & ->). apply (ap_worst AP). by eapply list_elem_of_lookup_2. Qed.

Definition base_assignment : assignment :=
  (actions ≫= action_assignment Q) ++ nogoods_assignment p Q actions (imap pair excluded).

Definition full_assignment (n0 : nat) : assignment :=
  (base_assignment ++ [(int_variable "cost" cost.1 cost.2, total_cost)]) ++
  [(int_variable "payout" (minimum_of bounds.*1) (minimum_of bounds.*2), payout)] ++
  imap (λ n _, (int_variable (cut_choice n) 0 1, indicator_of n0 n)) cuts ++
  [(int_variable "profit" (minimum_of bounds.*1 - cost.2) (minimum_of bounds.*2 - cost.1), payout - total_cost)] ++
  zip extra.1 [total_payout; total_payout - total_cost].

Lemma extra_variables : (zip extra.1 [total_payout; total_payout - total_cost]).*1 = extra.1.
Proof.
  pose proof (mp_extra _ _ _ _ _ _ _ _ _ _ _ _ _ _ MP) as He. destruct (negb _); [|by injection He as <-].
  unfold qualification_block in He. apply bind_Ok in He as (ft & _ & ([fm fx] & _ & (lo & _ & (hi & _ & [= <-])%bind_Ok)%bind_Ok)%bind_Ok).
  done.
Qed.

Lemma full_assignment_variables n0 :
  (full_assignment n0).*1 =
  cost_variables actions nogoods cost ++ [int_variable "payout" (minimum_of bounds.*1) (minimum_of bounds.*2)] ++
  ((λ name, int_variable name 0 1) <$> choice_names cuts) ++
  [int_variable "profit" (minimum_of bounds.*1 - cost.2) (minimum_of bounds.*2 - cost.1)] ++ extra.1.
Proof.
  unfold full_assignment, base_assignment, cost_variables, base_variables, choice_names.
  rewrite !fmap_app, bind_fst, extra_variables, fmap_imap, fmap_imap.
  rewrite (nogoods_assignment_variables p Q actions _ nogoods) by apply (mp_nogoods _ _ _ _ _ _ _ _ _ _ _ _ _ _ MP).
  f_equal. f_equal. f_equal. apply list_bind_ext'. intros a. apply action_assignment_variables.
Qed.

Lemma assigned_point n0 : ∃ x, follows x (full_assignment n0).
Proof.
  exists (point_of (full_assignment n0)). apply point_of_follows. rewrite full_assignment_variables.
  pose proof (validate_linear_model_NoDup _ _ (mp_valid _ _ _ _ _ _ _ _ _ _ _ _ _ _ MP)) as Hnd.
  rewrite (mp_model _ _ _ _ _ _ _ _ _ _ _ _ _ _ MP) in Hnd. simpl in Hnd. by rewrite sort_on_perm in Hnd.
Qed.

Section assigned.
Context (n0 : nat) (cut0 : WorstStateCut) (Hn0 : cuts !! n0 = Some cut0) (Hleast : payout = payout_in_cut cut0).
Context (x : string → Z) (Hx : follows x (full_assignment n0)).

Lemma assigned_parts :
  follows x (actions ≫= action_assignment Q) ∧ follows x (nogoods_assignment p Q actions (imap pair excluded)) ∧
  x "cost" = total_cost ∧ x "payout" = payout ∧ (∀ n, (n < length cuts)%nat → x (cut_choice n) = indicator_of n0 n) ∧
  x "profit" = payout - total_cost ∧ follows x (zip extra.1 [total_payout; total_payout - total_cost]).
Proof.
  unfold full_assignment, base_assignment in Hx.
  apply follows_app in Hx as [[[H1 H2]%follows_app H3]%follows_app [H4 [H5 [H6 H7]%follows_app]%follows_app]%follows_app].
  apply follows_cons in H3 as [H3 _]. apply follows_cons in H4 as [H4 _]. apply follows_cons in H6 as [H6 _].
  split_and!; try done. intros n Hn. destruct (lookup_lt_is_Some_2 cuts n Hn) as [cut Hcut].
  apply (Forall_lookup_1 _ _ n (int_variable (cut_choice n) 0 1, indicator_of n0 n) H5).
  by rewrite list_lookup_imap, Hcut.
Qed.

Lemma assigned_action a : a ∈ actions →
  block_holds x (action_variables a, action_rows a) ∧ lots_at x a = Q (ca_action_id a) ∧
  chosen x a = (if Q (ca_action_id a) =? 0 then 0 else 1) ∧ 0 ≤ Q (ca_action_id a) ≤ ca_max_quantity_lots a ∧
  slices_cost_at x a = lots_cost (ca_cost_slices a) (Q (ca_action_id a)).
Proof.
  intros Ha. destruct assigned_parts as (H1 & _). rewrite follows_bind in H1.
  destruct (actions_wf _ _ _ _ _ _ _ _ _ _ _ _ _ _ MP a Ha) as [_ Hwf].
  destruct (action_complete p x Q a Hwf (ap_lots AP a Ha) (H1 a Ha)) as (Hb & Hl & Hc).
  split_and!; [done|done|done|..].
  - pose proof (wa_bounds _ _ Hwf). destruct (ap_lots AP a Ha) as [->|[? ?]]; lia.
  - pose proof (wa_bounds _ _ Hwf). destruct (ap_lots AP a Ha) as [->|[? ?]]; lia.
  - rewrite <- Hl. by apply (action_exact p).
Qed.

Lemma assigned_payout_under cut : payout_under x actions cut = payout_in_cut cut.
Proof. apply sumZ_fmap_ext. intros a Ha. by destruct (assigned_action a Ha) as (_ & -> & _). Qed.

Lemma assigned_cost : sumZ (slices_cost_at x <$> actions) = total_cost.
Proof. apply sumZ_fmap_ext. intros a Ha. by destruct (assigned_action a Ha) as (_ & _ & _ & _ & ->). Qed.

Lemma assigned_nogoods : Forall (block_holds x) nogoods.
Proof.
  destruct assigned_parts as (_ & H2 & _).
  apply (nogoods_complete p x Q actions (imap pair excluded)); [apply (mp_nogoods _ _ _ _ _ _ _ _ _ _ _ _ _ _ MP)| | |done].
  - intros a Ha. by destruct (assigned_action a Ha) as (_ & ? & _ & ? & _).
  - intros [n v] canonical Hin Hc. apply (ap_excluded AP v); [|done].
    apply list_elem_of_lookup in Hin as (i & Hi). rewrite list_lookup_imap in Hi. apply fmap_Some in Hi as (v' & Hv & [= -> ->]).
    by eapply list_elem_of_lookup_2.
Qed.

(** The variables before the payout are inside their bounds. *)
Lemma assigned_base : Forall (bounds_ok x) (base_variables actions nogoods).
Proof.
  unfold base_variables. apply Forall_app. split.
  - apply Forall_bind_iff. intros a Ha. by destruct (assigned_action a Ha) as ([? _] & _).
  - apply blocks_hold, assigned_nogoods.
Qed.

Lemma assigned_cost_bounds : cost.1 ≤ total_cost ≤ cost.2.
Proof.
  rewrite <- assigned_cost, <- cost_terms_activity.
  eapply (terms_bounds_spec x); [rewrite (mp_cost _ _ _ _ _ _ _ _ _ _ _ _ _ _ MP); f_equal; apply surjective_pairing|].
  apply index_by_bounds, assigned_base.
Qed.

Lemma assigned_cost_variables : Forall (bounds_ok x) (cost_variables actions nogoods cost).
Proof.
  unfold cost_variables. apply Forall_app. split; [apply assigned_base|]. apply Forall_singleton, bounds_variable.
  destruct assigned_parts as (_ & _ & -> & _). apply assigned_cost_bounds.
Qed.

Lemma assigned_cut_bounds n cut t b :
  cuts !! n = Some cut → terms !! n = Some t → bounds !! n = Some b →
  activity x t = payout_in_cut cut ∧ b.1 ≤ payout_in_cut cut ≤ b.2.
Proof.
  intros Hcut Ht Hb. pose proof (Forall2_lookup_lr _ _ _ _ _ _ (mp_terms _ _ _ _ _ _ _ _ _ _ _ _ _ _ MP) Hcut Ht) as Et.
  pose proof (Forall2_lookup_lr _ _ _ _ _ _ (mp_bounds _ _ _ _ _ _ _ _ _ _ _ _ _ _ MP) Ht Hb) as Eb. simpl in Et, Eb.
  assert (E : activity x t = payout_in_cut cut) by by rewrite (cut_terms_activity x actions cut t Et), assigned_payout_under.
  split; [done|]. rewrite <- E. eapply terms_bounds_spec; [rewrite Eb; f_equal; apply surjective_pairing|].
  apply index_by_bounds, assigned_cost_variables.
Qed.

Lemma cut_pieces n cut : cuts !! n = Some cut → ∃ t b, terms !! n = Some t ∧ bounds !! n = Some b.
Proof.
  intros Hcut. destruct (Forall2_lookup_l _ _ _ _ _ (mp_terms _ _ _ _ _ _ _ _ _ _ _ _ _ _ MP) Hcut) as (t & Ht & _).
  destruct (Forall2_lookup_l _ _ _ _ _ (mp_bounds _ _ _ _ _ _ _ _ _ _ _ _ _ _ MP) Ht) as (b & Hb & _). by exists t, b.
Qed.

Lemma bounds_pieces n b : bounds !! n = Some b → ∃ cut t, cuts !! n = Some cut ∧ terms !! n = Some t.
Proof.
  intros Hb. destruct (Forall2_lookup_r _ _ _ _ _ (mp_bounds _ _ _ _ _ _ _ _ _ _ _ _ _ _ MP) Hb) as (t & Ht & _).
  destruct (Forall2_lookup_r _ _ _ _ _ (mp_terms _ _ _ _ _ _ _ _ _ _ _ _ _ _ MP) Ht) as (cut & Hc & _). by exists cut, t.
Qed.

Lemma assigned_payout_bounds : minimum_of bounds.*1 ≤ payout ≤ minimum_of bounds.*2.
Proof.
  assert (Hne : bounds ≠ []).
  { destruct (cut_pieces n0 cut0 Hn0) as (t & b & _ & Hb). by intros E; rewrite E in Hb. }
  split.
  - destruct (cut_pieces n0 cut0 Hn0) as (t & b & Ht & Hb). destruct (assigned_cut_bounds n0 cut0 t b Hn0 Ht Hb) as [_ [Hle _]].
    destruct (minimum_of_spec bounds.*1) as [_ Hmin]; [by destruct bounds|].
    specialize (Hmin b.1 ltac:(apply list_elem_of_fmap_2; by eapply list_elem_of_lookup_2)). lia.
  - destruct (minimum_of_spec bounds.*2) as [(b & -> & (n & Hb)%list_elem_of_lookup)%list_elem_of_fmap _]; [by destruct bounds|].
    destruct (bounds_pieces n b Hb) as (cut & t & Hc & Ht). destruct (assigned_cut_bounds n cut t b Hc Ht Hb) as [_ [_ Hle]].
    pose proof (least_le cut (list_elem_of_lookup_2 _ _ _ Hc)). lia.
Qed.

Lemma assigned_cuts : Forall (Forall (row_ok x)) cut_constraints.
Proof.
  destruct assigned_parts as (_ & _ & _ & Hp & Hch & _). apply Forall_lookup. intros n rows Hrows.
  destruct (Forall2_lookup_r _ _ _ _ _ (mp_cut_rows _ _ _ _ _ _ _ _ _ _ _ _ _ _ MP) Hrows) as ([n' [t b]] & Hz & Er).
  rewrite list_lookup_imap in Hz. apply fmap_Some in Hz as (entry & Hz & E). injection E as -> <-.
  rewrite lookup_zip_with in Hz. apply bind_Some in Hz as (t2 & Ht & Hz). apply bind_Some in Hz as (b2 & Hb & E). injection E as -> ->.
  destruct (bounds_pieces n b Hb) as (cut & t' & Hc & _). destruct (assigned_cut_bounds n cut t b Hc Ht Hb) as [Et [_ Hub]].
  apply (cut_rows_holds x _ _ _ _ _ Er). rewrite Et, Hp, (Hch n) by by eapply lookup_lt_Some.
  pose proof (least_le cut (list_elem_of_lookup_2 _ _ _ Hc)). pose proof assigned_payout_bounds. split; [done|].
  unfold indicator_of. destruct (n =? n0)%nat eqn:E; [|lia]. apply Nat.eqb_eq in E as ->. rewrite Hn0 in Hc. injection Hc as <-. lia.
Qed.

Lemma assigned_extra : block_holds x extra ∧
  (pb_qualification_constraints p ≠ [] → x "qualification-payout" = total_payout ∧ x "qualification-profit" = total_payout - total_cost).
Proof.
  destruct assigned_parts as (_ & _ & Hcost & Hpay & _ & _ & Hex). pose proof (mp_extra _ _ _ _ _ _ _ _ _ _ _ _ _ _ MP) as He.
  destruct (bool_decide (pb_qualification_constraints p = [])) eqn:E; simpl in He; bool_prop.
  { injection He as E'. rewrite <- E'. split; [split; constructor|done]. }
  unfold qualification_block in He.
  apply bind_Ok in He as (ft & Hft & ([fm fx] & Hfb & (lo & [-> _]%int64_value_Ok & (hi & [-> _]%int64_value_Ok & [= E'])%bind_Ok)%bind_Ok)%bind_Ok).
  rewrite <- E' in Hex |- *. simpl in Hex. apply follows_cons in Hex as [Hp [Hq _]%follows_cons]. simpl in Hp, Hq. split; [|by intros].
  pose proof (mp_wf _ _ _ _ _ _ _ _ _ _ _ _ _ _ MP) as Hwf.
  assert (Hfloor : activity x ft ≤ total_payout).
  { etransitivity; [eapply (payout_floor_le p ω x actions ft Hwf (ap_outcome AP)); [|done]|].
    - intros a Ha. split; [by eapply actions_wf|]. destruct (assigned_action a Ha) as (_ & -> & _ & ? & _). lia.
    - apply Z.eq_le_incl, sumZ_fmap_ext. intros a Ha. by destruct (assigned_action a Ha) as (_ & -> & _). }
  pose proof (terms_bounds_spec x _ _ _ _ Hfb (index_by_bounds x _ assigned_cost_variables)) as Hfm.
  pose proof assigned_cost_bounds. pose proof assigned_payout_bounds. pose proof true_payout_le.
  unfold block_holds. simpl. rewrite !Forall_cons, !Forall_nil, !bounds_variable, difference_row, !row_ok_constraint,
    within_upper, within_lower, !activity_cons, activity_nil, activity_negated, Hp, Hq, Hcost, Hpay.
  split_and!; try done; lia.
Qed.

Lemma assigned_qualification : Forall (Forall (row_ok x)) qualification.
Proof.
  destruct assigned_parts as (_ & _ & Hcost & _). destruct assigned_extra as [_ Hex].
  destruct (release_timing_oracle p _ _ _ (ap_release AP) (mp_timing _ _ _ _ _ _ _ _ _ _ _ _ _ _ MP)) as (Hdelay & Hdays & _).
  apply Forall_lookup. intros n rows Hrows.
  destruct (Forall2_lookup_r _ _ _ _ _ (mp_qualification _ _ _ _ _ _ _ _ _ _ _ _ _ _ MP) Hrows) as (c & Hc & Er).
  apply list_elem_of_lookup_2 in Hc.
  rewrite bool_decide_eq_false_2 in Er by (intros E; rewrite E in Hc; by apply not_elem_of_nil in Hc). simpl in Er.
  destruct Hex as [Hp Hq]; [intros E; rewrite E in Hc; by apply not_elem_of_nil in Hc|].
  eapply (qualification_rows_complete p profile (rp_release_at profile) qualified_variable x c rows total_payout total_cost); try done.
  by apply (ap_qualified AP).
Qed.

Lemma assigned_rows : master_rows profile cuts actions nogoods cost bounds cut_constraints extra qualification x.
Proof.
  destruct assigned_parts as (_ & _ & Hcost & Hpay & Hch & Hprofit & _).
  pose proof assigned_cost_bounds. pose proof assigned_payout_bounds.
  split.
  - intros a Ha. by destruct (assigned_action a Ha) as (? & _).
  - apply assigned_nogoods.
  - by rewrite Hcost.
  - by rewrite Hcost, assigned_cost.
  - by rewrite Hpay.
  - apply Forall_lookup. intros n name Hn. unfold choice_names in Hn. rewrite list_lookup_imap in Hn.
    apply fmap_Some in Hn as (cut & Hc & ->). rewrite Hch by by eapply lookup_lt_Some. unfold indicator_of. destruct (_ =? _)%nat; lia.
  - unfold choice_names. rewrite fmap_imap. erewrite imap_ext; [apply (indicator_sum cuts n0); by eapply lookup_lt_Some|].
    intros n cut Hc. simpl. apply Hch. by eapply lookup_lt_Some.
  - apply assigned_cuts.
  - rewrite Hprofit. lia.
  - by rewrite Hprofit, Hpay, Hcost.
  - apply assigned_extra.
  - apply assigned_qualification.
  - apply release_rows_holds.
    + intros a Ha. destruct (assigned_action a Ha) as (_ & _ & -> & _). destruct (_ =? 0); lia.
    + split.
      * destruct (ap_exact AP) as (a & Ha & He & Hne). exists a. split_and!; [done..|].
        destruct (assigned_action a Ha) as (_ & _ & -> & _). by rewrite (proj2 (Z.eqb_neq _ _) Hne).
      * intros a Ha He. destruct (assigned_action a Ha) as (_ & _ & -> & _). by rewrite (ap_eligible AP a Ha He).
Qed.
End assigned.

(** The portfolio is a point of the master, and its profit there is at least
    the true one. *)
Lemma master_complete :
  ∃ x, feasible (cm_model cm) x ∧ (∀ a, a ∈ actions → lots_at x a = Q (ca_action_id a)) ∧ total_payout - total_cost ≤ x "profit".
Proof.
  destruct least_cut as (n0 & cut0 & Hn0 & Hleast). destruct (assigned_point n0) as [x Hx]. exists x. split_and!.
  - eapply feasible_master; [exact MP|]. by eapply assigned_rows.
  - intros a Ha. by destruct (assigned_action n0 x Hx a Ha) as (_ & -> & _).
  - destruct (assigned_parts n0 x Hx) as (_ & _ & _ & _ & _ & -> & _). pose proof true_payout_le. lia.
Qed.
End complete.
