(* ===== verification/GenerationComplete.v ===== *)
(** * The solver's support graph is the oracle's

    [_minimize_support] rechecks each constraint with the backend;
    [derive_selected_support_graph] rechecks it by enumeration.  Honest
    answers make both loops keep the same constraints. *)

From stdpp Require Import relations.
From S2P Require Import Prelude PyValue NLeg NLegForms NLegValidate NLegWf UnionFind Oracle OracleScenario OracleEval OracleQualify Support Search SupportCorrect SplitCorrect SearchCorrect SearchTotal Components ComponentsCorrect LinearModel TerminalModel TerminalCorrect FillCorrect FillProof Master Generation MasterCorrect GenerationCorrect CandidateCorrect MasterComplete.
Local Open Scope Z_scope.

(** The problem a recheck is about, in both modules. *)
Lemma active_restrict p (trial relevant : gset string) :
  problem_with_active p trial relevant =
  restrict p (Some ((list_to_set (all_constraint_ids p) ∖ relevant) ∪ trial)).
Proof.
  unfold problem_with_active, restrict. do 2 f_equal; apply filter_ext; intros x Hx; simpl; rewrite bool_decide_eq_true;
    rewrite elem_of_union, elem_of_difference, elem_of_list_to_set; unfold all_constraint_ids; rewrite elem_of_app.
  - apply (list_elem_of_fmap_2 rc_constraint_id) in Hx. tauto.
  - apply (list_elem_of_fmap_2 fb_constraint_id) in Hx. tauto.
Qed.

Lemma outcome_release p ω a :
  wf_problem p → outcome p ω → a ∈ pb_actions p →
  ∃ d, ta_capital_release_at (ω (ca_market_contract_id a)) = Some d ∧ is_utc d = true ∧ dt_us (pb_as_of p) ≤ dt_us d.
Proof.
  intros Hwf Ho Ha. apply (wf_action_contracts _ Hwf) in Ha as (s & Hs & <-)%elem_of_contracts.
  apply (wt_release _ _ _ (wf_atom_in p Hwf s _ Hs (Ho s Hs))).
Qed.

Lemma utc_eqb_us d e : is_utc d = true → is_utc e = true → datetime_eqb d e = (dt_us d =? dt_us e).
Proof.
  unfold is_utc, datetime_eqb. intros ->%bool_decide_eq_true_1 ->%bool_decide_eq_true_1. done.
Qed.

(** The failed ids an evaluation reports, as computed. *)
Lemma evaluate_failed `{Sha256} p qs budget ev :
  evaluate_fixed_portfolio p qs budget = Ok ev →
  ∃ l, filterM (qualification_fails p (pe_payout_lower_bound_units ev) (pe_cost_upper_bound_units ev)
                  (pe_guaranteed_profit_units ev) (pe_conservative_capital_release_at ev))
         (sort_on qc_constraint_id (pb_qualification_constraints p)) = Ok l ∧
    pe_failed_qualification_ids ev = qc_constraint_id <$> l.
Proof.
  unfold evaluate_fixed_portfolio, evaluate_portfolio. intros (u1 & _ & (sel & _ & (u2 & _ & (en & _ & Hr)%bind_Ok)%bind_Ok)%bind_Ok)%bind_Ok.
  apply bind_Ok in Hr as (scs & _ & ([[payout f] worst] & _ & (rel & _ & (cost & _ & (profit & _ & Hr)%bind_Ok)%bind_Ok)%bind_Ok)%bind_Ok).
  apply bind_Ok in Hr as (cut & _ & (failed & Hf & [= <-])%bind_Ok). by exists failed.
Qed.

(** Two sound evaluations of one selection agree. *)
Lemma sound_payout_unique `{Sha256} p qs qs' ev ev' :
  evaluation_sound p qs ev → evaluation_sound p qs' ev' → pe_quantities ev = pe_quantities ev' →
  pe_payout_lower_bound_units ev = pe_payout_lower_bound_units ev' ∧
  pe_cost_upper_bound_units ev = pe_cost_upper_bound_units ev' ∧
  pe_guaranteed_profit_units ev = pe_guaranteed_profit_units ev' ∧
  pe_conservative_capital_release_at ev = pe_conservative_capital_release_at ev'.
Proof.
  intros Hs Hs' E. pose proof (es_wf _ _ _ Hs) as Hwf.
  destruct (es_worst _ _ _ Hs) as (ω & Hω & _ & Ep). destruct (es_worst _ _ _ Hs') as (ω' & Hω' & _ & Ep').
  pose proof (es_lower _ _ _ Hs ω' Hω') as H1. pose proof (es_lower _ _ _ Hs' ω Hω) as H2.
  rewrite E in H1, Ep. rewrite <- Ep' in H1. rewrite <- Ep in H2.
  assert (E1 : pe_payout_lower_bound_units ev = pe_payout_lower_bound_units ev') by lia.
  assert (E2 : pe_cost_upper_bound_units ev = pe_cost_upper_bound_units ev').
  { by rewrite (es_cost _ _ _ Hs), (es_cost _ _ _ Hs'), E. }
  split_and!; [done|done|rewrite (es_profit _ _ _ Hs), (es_profit _ _ _ Hs'), E1, E2; done|].
  destruct (es_release _ _ _ Hs) as (d & -> & Hd & Hmax). destruct (es_release _ _ _ Hs') as (d' & -> & Hd' & Hmax').
  rewrite E in Hd, Hmax. destruct (Hmax _ Hd') as (t & [= <-] & Hle). destruct (Hmax' _ Hd) as (t' & [= <-] & Hle').
  assert (Hutc : ∀ e, release_of p (pe_quantities ev') (Some e) → is_utc e = true).
  { intros e (ω1 & a & Hω1 & Ha & _ & He). destruct (outcome_release p ω1 a Hwf (al_outcome _ _ Hω1) Ha) as (e' & He' & Hu & _).
    rewrite He' in He. by injection He as ->. }
  f_equal. apply utc_eqb; [by apply Hutc..|]. rewrite utc_eqb_us by (by apply Hutc). apply Z.eqb_eq. lia.
Qed.

Section agree.
Context `{Sha256} (backend : SolverBackend) (limit : Z) (Hh : honest backend).
Context (p : ArbitrageProblem) (budget : OracleBudget) (ev : PortfolioEvaluation).
Context (Hev : evaluate_fixed_portfolio p (pe_quantities ev) budget = Ok ev).
Context (d : datetime) (Hd : pe_conservative_capital_release_at ev = Some d).

Let qs := pe_quantities ev.
Let sound := evaluate_sound p (pe_quantities ev) budget ev Hev.

Lemma agree_wf : wf_problem p.
Proof. apply sound. Qed.

Lemma agree_utc : is_utc d = true.
Proof.
  destruct (es_release _ _ _ sound) as (d' & E & (ω & a & Hω & Ha & _ & He) & _). rewrite Hd in E. injection E as <-.
  destruct (outcome_release p ω a agree_wf (al_outcome _ _ Hω) Ha) as (e & He' & Hu & _). rewrite He' in He. by injection He as ->.
Qed.

Section trial.
Context (trial relevant : gset string) (tev : PortfolioEvaluation).
Context (Htev : evaluate_fixed_portfolio (problem_with_active p trial relevant) qs budget = Ok tev).

Let G : gset string := (list_to_set (all_constraint_ids p) ∖ relevant) ∪ trial.
Let tsound := evaluate_sound _ _ _ _ Htev.

Lemma trial_quantities : pe_quantities tev = qs.
Proof.
  rewrite (es_quantities _ _ _ tsound). pose proof (es_selection _ _ _ sound) as Hsel. rewrite filter_all.
  - apply sort_on_sorted_id; apply Hsel.
  - eapply Forall_impl; [apply Hsel|]. intros q (a & _ & _ & ?). lia.
Qed.

Lemma trial_payout ad r v :
  compile_adversary p qs (Some G) = Ok ad → answers backend (ad_model ad) r → br_status r = NATIVE_OPTIMAL →
  objective_activity (ad_model ad) r = Ok v → v = pe_payout_lower_bound_units tev.
Proof.
  intros Had Hans Hopt Hv. destruct (adversary_worst backend p qs (Some G) ad Had r v Hh Hans Hopt Hv) as (ω & Hω & Ev & Hmin & _).
  assert (Eq : ad_quantities ad = qs).
  { apply compile_adversary_inv in Had as (_ & Hq & _). rewrite (selected_quantities_id p qs agree_wf) in Hq by apply sound. by injection Hq. }
  rewrite Eq in Ev, Hmin. unfold G in Hω, Hmin. rewrite <- active_restrict in Hω, Hmin.
  destruct (es_worst _ _ _ tsound) as (ω' & Hω' & _ & Et). pose proof (es_lower _ _ _ tsound ω Hω) as H1.
  rewrite trial_quantities in Et, H1. specialize (Hmin ω' Hω').
  change (realized_payout (problem_with_active p trial relevant) ω qs) with (realized_payout p ω qs) in H1.
  change (realized_payout (problem_with_active p trial relevant) ω' qs) with (realized_payout p ω' qs) in Et. lia.
Qed.

(** The release found by reachability is the one the evaluation reports. *)
Lemma trial_release (selected : gset string) releases times e :
  (∀ q a, q ∈ qs → index_by ca_action_id (pb_actions p) !! aq_action_id q = Some a → ca_market_contract_id a ∈ selected) →
  returns (reachable_action_releases backend limit p (Some G) (Some selected)) (inr releases) →
  mapM (λ item, of_option (KeyError (aq_action_id item)) (releases !! aq_action_id item)) qs = Ok times →
  max_datetime times = Some e →
  is_utc e = true ∧ ∃ d', pe_conservative_capital_release_at tev = Some d' ∧ is_utc d' = true ∧ dt_us e = dt_us d'.
Proof.
  intros Hsel Hrel Htimes [Hin Hle]%max_datetime_Some.
  destruct (es_release _ _ _ tsound) as (d' & Ed & Hd' & Hmax). rewrite trial_quantities in Hd', Hmax.
  assert (Hact : ∀ q, q ∈ qs → ∃ a t, a ∈ pb_actions p ∧ ca_action_id a = aq_action_id q ∧ t ∈ times ∧
    latest_release (problem_with_active p trial relevant) (ca_market_contract_id a) t).
  { intros q Hq. destruct (proj1 (Forall_forall _ _) (sel_known _ _ (es_selection _ _ _ sound)) q Hq) as (a & Ha & _).
    pose proof (Hsel q a Hq Ha) as Hc. apply index_by_elem in Ha as [Ha Ei].
    destruct (reachable_releases_spec backend limit p (Some G) (Some selected) releases Hh Hrel a Ha) as (t & Ht & Hl).
    { simpl. by apply bool_decide_eq_true_2. }
    exists a, t. split_and!; [done|done| |]; [|unfold G in Hl; by rewrite <- active_restrict in Hl].
    apply (mapM_elem _ _ _ t Htimes). exists q. split; [done|]. by rewrite <- Ei, Ht. }
  assert (Hback : ∀ t, t ∈ times → release_of (problem_with_active p trial relevant) qs (Some t)).
  { intros t Ht. apply (mapM_elem _ _ _ t Htimes) in Ht as (q & Hq & Ht%of_option_Ok).
    destruct (Hact q Hq) as (a & t' & Ha & Ei & Ht' & (ω & Hω & Er) & _).
    destruct (reachable_releases_spec backend limit p (Some G) (Some selected) releases Hh Hrel a Ha) as (t2 & Ht2 & [(ω2 & Hω2 & Er2) _]).
    { simpl. apply bool_decide_eq_true_2. apply (Hsel q a Hq). apply index_by_lookup; [apply agree_wf|done]. }
    rewrite Ei, Ht in Ht2. injection Ht2 as <-. unfold G in Hω2. rewrite <- active_restrict in Hω2.
    exists ω2, a. split_and!; [done|done| |done]. rewrite Ei. by apply list_elem_of_fmap_2. }
  assert (Hutc : ∀ t, release_of (problem_with_active p trial relevant) qs (Some t) → is_utc t = true).
  { intros t (ω & a & Hω & Ha & _ & Er). destruct (outcome_release p ω a agree_wf (al_outcome _ _ Hω) Ha) as (t' & Et' & Hu & _).
    rewrite Et' in Er. by injection Er as ->. }
  split; [by apply Hutc, Hback|]. exists d'. split_and!; [done|by apply Hutc|].
  destruct (Hmax _ (Hback e Hin)) as (t & [= <-] & H1).
  destruct Hd' as (ω & a & Hω & Ha & (q & Ei & Hq)%list_elem_of_fmap & Er).
  destruct (Hact q Hq) as (b & t & Hb & Eb & Ht & [_ Hlast]).
  assert (b = a) as -> by (apply (NoDup_key_eq ca_action_id (pb_actions p)); [apply agree_wf|done..|congruence]).
  destruct (Hlast ω Hω) as (t' & Et' & H2). rewrite Et' in Er. injection Er as ->. pose proof (Hle t Ht). lia.
Qed.
End trial.

(** The failed ids of a recheck with the same payout and release. *)
Lemma trial_failed trial relevant tev :
  evaluate_fixed_portfolio (problem_with_active p trial relevant) qs budget = Ok tev →
  pe_payout_lower_bound_units tev = pe_payout_lower_bound_units ev →
  pe_conservative_capital_release_at tev = pe_conservative_capital_release_at ev →
  pe_failed_qualification_ids tev = pe_failed_qualification_ids ev.
Proof.
  intros Htev Ep Er. pose proof (evaluate_sound _ _ _ _ Htev) as Hts.
  destruct (evaluate_failed _ _ _ _ Htev) as (l & Hl & ->). destruct (evaluate_failed _ _ _ _ Hev) as (l' & Hl' & ->). f_equal.
  assert (Ec : pe_cost_upper_bound_units tev = pe_cost_upper_bound_units ev).
  { rewrite (es_cost _ _ _ Hts), (es_cost _ _ _ sound), (trial_quantities trial relevant tev Htev). done. }
  rewrite (es_profit _ _ _ Hts), Ep, Ec, Er, <- (es_profit _ _ _ sound) in Hl.
  assert (E : Ok l = Ok l'); [|by injection E]. rewrite <- Hl, <- Hl'. done.
Qed.

Context (cost_eq : Z) (base : list string).
Context (Hbase : failed_qualification_ids p (pe_payout_lower_bound_units ev) cost_eq d = Ok base).

Lemma recheck_inl max non selected reason ids out :
  returns (solver_fold (recheck backend limit p qs (pe_payout_lower_bound_units ev) cost_eq d max non selected base) (inl reason) ids) out →
  out = inl reason.
Proof.
  induction ids as [|i ids IH]; simpl; [by intros ->%returns_ret|].
  intros (b & ->%returns_ret & Hr)%returns_bind. by apply IH.
Qed.

(** Both elimination loops keep the same constraints. *)
Lemma eliminate_agrees (relevant selected : gset string) ids active n A n' A' :
  (∀ q a, q ∈ qs → index_by ca_action_id (pb_actions p) !! aq_action_id q = Some a → ca_market_contract_id a ∈ selected) →
  returns (solver_fold (recheck backend limit p qs (pe_payout_lower_bound_units ev) cost_eq d (bg_max_support_rechecks budget)
             (list_to_set (all_constraint_ids p) ∖ relevant) selected base) (inr (active, n)) ids) (inr (A, n')) →
  eliminate p ev budget relevant active n ids = Ok (inr A') → A' = A.
Proof.
  intros Hsel. revert active n. induction ids as [|i ids IH]; intros active n.
  { intros [= -> ->]%returns_ret [= ->]. done. }
  cbn [solver_fold eliminate]. intros (out & Hout & Hrest)%returns_bind He. unfold recheck in Hout.
  destruct (bg_max_support_rechecks budget <=? n); [done|].
  apply bind_Ok in He as (tev & Htev & He). set (trial := active ∖ {[i]}) in *.
  apply returns_bind in Hout as (ad & Had%returns_lift & (r & Hans%solve_checked_answers & Hout)%returns_bind).
  destruct (bool_decide (br_status r = NATIVE_OPTIMAL)) eqn:Eopt; bool_prop; simpl in Hout;
    [|apply returns_ret in Hout as ->; by apply recheck_inl in Hrest].
  apply returns_bind in Hout as (v & Hv%returns_lift & (rel & Hrel & Hout)%returns_bind).
  destruct rel as [failure|releases]; [apply returns_ret in Hout as ->; by apply recheck_inl in Hrest|].
  apply returns_bind in Hout as (times & Htimes%returns_lift & (e & He'%returns_lift%of_option_Ok & (same & Hsame%returns_lift & ->%returns_ret)%returns_bind)%returns_bind).
  pose proof (trial_payout trial relevant tev Htev ad r v Had Hans Eopt Hv) as ->.
  destruct (trial_release trial relevant tev Htev selected releases times e Hsel Hrel Htimes He') as (Hue & d' & Ed' & Hud & Eus).
  assert (Esame : same = same_conclusion tev ev); [|by apply (IH _ _ Hrest); rewrite Esame].
  unfold same_conclusion. rewrite Ed', Hd. simpl. rewrite (utc_eqb_us d' d Hud agree_utc), <- Eus, <- (utc_eqb_us e d Hue agree_utc).
  destruct ((pe_payout_lower_bound_units tev =? pe_payout_lower_bound_units ev) && datetime_eqb e d) eqn:Eb; [|injection Hsame as <-; done].
  apply andb_true_iff in Eb as [Ep%Z.eqb_eq Et]. assert (e = d) as -> by (apply utc_eqb; [done|apply agree_utc|done]).
  assert (d' = d) as -> by (apply utc_eqb; [done|apply agree_utc|rewrite utc_eqb_us by (done || apply agree_utc); apply Z.eqb_eq; lia]).
  rewrite Ep, Hbase in Hsame. injection Hsame as <-. rewrite bool_decide_eq_true_2 by done.
  rewrite (trial_failed trial relevant tev Htev Ep) by congruence. by rewrite bool_decide_eq_true_2.
Qed.

(** The graphs agree. *)
Lemma minimize_agrees graph graph' n :
  returns (minimize_support backend limit p qs (pe_payout_lower_bound_units ev) cost_eq d (bg_max_support_rechecks budget)) (inr (graph, n)) →
  derive_selected_support_graph p ev budget = Ok (inr graph') → graph' = graph.
Proof.
  intros (contracts & Hc%returns_lift & (closure & Hcl%returns_lift & (b & Hb%returns_lift & (out & Hout & Hr)%returns_bind)%returns_bind)%returns_bind)%returns_bind.
  assert (b = base) as -> by congruence.
  assert (Hcontracts : ∀ c, c ∈ contracts ↔ ∃ q a, q ∈ qs ∧ index_by ca_action_id (pb_actions p) !! aq_action_id q = Some a ∧ ca_market_contract_id a = c).
  { intros c. rewrite (mapM_elem _ _ _ c Hc). unfold quantity_contract. split.
    - intros (q & Hq & (a & Ha%of_option_Ok & [= <-])%bind_Ok). by exists q, a.
    - intros (q & a & Hq & Ha & <-). exists q. split; [done|]. by rewrite Ha. }
  assert (Esel : (list_to_set contracts : gset string) = evaluation_contracts p ev).
  { apply set_eq. intros c. unfold evaluation_contracts, selected_contract_ids. rewrite !elem_of_list_to_set, Hcontracts, list_elem_of_fmap. split.
    - intros (q & a & Hq & [Ha Ei]%index_by_elem & <-). exists a. split; [done|]. apply list_elem_of_filter. split; [|done].
      rewrite Ei. by apply list_elem_of_fmap_2.
    - intros (a & -> & [(q & Ei & Hq)%list_elem_of_fmap Ha]%list_elem_of_filter). exists q, a. split_and!; [done| |done].
      apply index_by_lookup; [apply agree_wf|done]. }
  intros Hderive. unfold derive_selected_support_graph in Hderive.
  apply bind_Ok in Hderive as (u & _ & ([relevant C] & Hcl' & (out' & Hel & Hr')%bind_Ok)%bind_Ok). rewrite <- Esel in Hcl', Hr'.
  rewrite Hcl in Hcl'. injection Hcl' as ->. simpl in Hout.
  destruct out as [reason|[A k]]; [by apply returns_ret in Hr|].
  apply returns_bind in Hr as (edges & Hedges%returns_lift & [= -> _]%returns_ret).
  destruct out' as [reason|A']; [done|]. apply bind_Ok in Hr' as (edges' & Hedges' & [= <-]).
  assert (A' = A) as ->.
  { eapply eliminate_agrees; [|exact Hout|exact Hel]. intros q a Hq Ha. apply elem_of_list_to_set, Hcontracts. by exists q, a. }
  rewrite Hedges in Hedges'. by injection Hedges' as <-.
Qed.
End agree.

(** * The loop misses no acceptable portfolio

    Every portfolio the exhaustive search would accept is a point of the master
    of its component and release profile, unless it was excluded, and only
    portfolios the exhaustive search rejects are excluded. *)

(** ** Selections as functions of the action *)

Definition lots_in (qs : list ActionQuantity) (i : string) : Z := default 0 (quantity_dict qs !! i).

Lemma lots_in_elem p qs q : selection p qs → q ∈ qs → lots_in qs (aq_action_id q) = aq_quantity_lots q.
Proof.
  intros Hsel Hq. unfold lots_in, quantity_dict.
  by rewrite (py_dict_fmap_lookup aq_action_id aq_quantity_lots qs q (sel_unique _ _ Hsel) Hq).
Qed.

Lemma lots_in_cases p qs i :
  selection p qs → lots_in qs i = 0 ∧ i ∉ aq_action_id <$> qs ∨ ∃ q, q ∈ qs ∧ aq_action_id q = i ∧ lots_in qs i = aq_quantity_lots q ∧ 0 < aq_quantity_lots q.
Proof.
  intros Hsel. destruct (decide (i ∈ aq_action_id <$> qs)) as [(q & -> & Hq)%list_elem_of_fmap|Hn].
  - right. exists q. split_and!; [done|done|by eapply lots_in_elem|].
    by destruct (proj1 (Forall_forall _ _) (sel_known _ _ Hsel) q Hq) as (a & _ & _ & ?).
  - left. split; [|done]. unfold lots_in, quantity_dict.
    rewrite (proj2 (py_dict_None _ i)); [done|]. by rewrite <- list_fmap_compose.
Qed.

(** Two selections with the same lots are equal. *)
Lemma selection_ext p qs vs :
  selection p qs → selection p vs → (∀ i, i ∈ (aq_action_id <$> qs) ++ (aq_action_id <$> vs) → lots_in qs i = lots_in vs i) → qs = vs.
Proof.
  intros Hq Hv E. apply (StronglySorted_unique aq_action_id); [apply Hq|apply Hv|apply Hq|].
  assert (Hin : ∀ ks ls, selection p ks → selection p ls → (∀ i, i ∈ aq_action_id <$> ks → lots_in ks i = lots_in ls i) → ∀ q, q ∈ ks → q ∈ ls).
  { intros ks ls Hk Hl Hkl q Hin. destruct (lots_in_cases p ks (aq_action_id q) Hk) as [[_ Hn]|(q' & Hq' & Ei & El & Hpos)].
    { destruct Hn. by apply list_elem_of_fmap_2. }
    rewrite (lots_in_elem p ks q Hk Hin) in El. pose proof (Hkl (aq_action_id q) ltac:(by apply list_elem_of_fmap_2)) as E'.
    rewrite (lots_in_elem p ks q Hk Hin) in E'. destruct (lots_in_cases p ls (aq_action_id q) Hl) as [[E0 _]|(r & Hr & Er & Elr & _)]; [lia|].
    replace q with r; [done|]. destruct q as [i n], r as [j m]. simpl in *. f_equal; [done|lia]. }
  apply NoDup_Permutation; [eapply NoDup_fmap_1, Hq|eapply NoDup_fmap_1, Hv|]. intros q. split.
  - apply Hin; [done|done|]. intros i Hi. apply E, elem_of_app. by left.
  - apply Hin; [done|done|]. intros i Hi. symmetry. apply E, elem_of_app. by right.
Qed.

(** Sums over a selection, as sums over the actions of a component. *)
Lemma sum_over_actions p qs actions (f : string → Z → Z) :
  selection p qs → NoDup (ca_action_id <$> actions) → (∀ q, q ∈ qs → aq_action_id q ∈ ca_action_id <$> actions) → (∀ i, f i 0 = 0) →
  sumZ ((λ a, f (ca_action_id a) (lots_in qs (ca_action_id a))) <$> actions) = sumZ ((λ q, f (aq_action_id q) (aq_quantity_lots q)) <$> qs).
Proof.
  intros Hsel Hnd Hin H0. transitivity (sumZ ((λ i, f i (lots_in qs i)) <$> (ca_action_id <$> actions))).
  { by rewrite <- list_fmap_compose. }
  rewrite (sumZ_support (λ i, f i (lots_in qs i)) (ca_action_id <$> actions) (aq_action_id <$> qs)); [|done|apply Hsel| |].
  - rewrite <- list_fmap_compose. apply sumZ_fmap_ext. intros q Hq. simpl. by rewrite (lots_in_elem p qs q Hsel Hq).
  - intros i (q & -> & Hq)%list_elem_of_fmap. by apply Hin.
  - intros i _ Hi. destruct (lots_in_cases p qs i Hsel) as [[-> _]|(q & Hq & <- & _)]; [done|]. destruct Hi. by apply list_elem_of_fmap_2.
Qed.

Lemma sum_cost p qs actions :
  wf_problem p → selection p qs → (∀ a, a ∈ actions → a ∈ pb_actions p) → NoDup (ca_action_id <$> actions) →
  (∀ q, q ∈ qs → aq_action_id q ∈ ca_action_id <$> actions) → total_cost actions (lots_in qs) = portfolio_cost p qs.
Proof.
  intros Hwf Hsel Hact Hnd Hin. unfold total_cost, portfolio_cost.
  rewrite <- (sum_over_actions p qs actions (λ i n, match index_by ca_action_id (pb_actions p) !! i with
    | Some a => lots_cost (ca_cost_slices a) n | None => 0 end) Hsel Hnd Hin).
  - apply sumZ_fmap_ext. intros a Ha. by rewrite (proj2 (index_by_lookup ca_action_id (pb_actions p) _ a (wf_action_ids _ Hwf))) by auto.
  - intros i. by destruct (_ !! i).
Qed.

Lemma sum_payout p qs actions ω :
  selection p qs → NoDup (ca_action_id <$> actions) → (∀ q, q ∈ qs → aq_action_id q ∈ ca_action_id <$> actions) →
  total_payout p actions (lots_in qs) ω = realized_payout p ω qs.
Proof.
  intros Hsel Hnd Hin. unfold total_payout, realized_payout.
  rewrite <- (sum_over_actions p qs actions (λ i n, payout_of p ω i * n) Hsel Hnd Hin); [done|]. intros i. lia.
Qed.

(** ** An acceptable portfolio as a point *)

(** The portfolio lies in the component and is released with the profile. *)
Definition within_profile (component : RelationComponent) (profile : ReleaseProfile) (ev : PortfolioEvaluation) : Prop :=
  (∀ q, q ∈ pe_quantities ev → aq_action_id q ∈ rl_action_ids component) ∧
  pe_conservative_capital_release_at ev = Some (rp_release_at profile).

(** Excluded vectors: selections of the component no acceptable evaluation has. *)
Definition rejected `{Sha256} (p : ArbitrageProblem) (budget : OracleBudget) (component : RelationComponent)
    (v : list ActionQuantity) : Prop :=
  selection p v ∧ (∀ q, q ∈ v → aq_action_id q ∈ rl_action_ids component) ∧ ∀ ev, acceptable p budget ev → pe_quantities ev ≠ v.

(** Cuts of allowed outcomes. *)
Definition true_cut `{Sha256} (p : ArbitrageProblem) (cut : WorstStateCut) : Prop :=
  ∃ ω, allowed p ω ∧ cut_from_scenario p (scenario p ω) = Ok cut.

(** ** The release of an acceptable portfolio *)

Section acceptable_release.
Context `{Sha256} (p : ArbitrageProblem) (budget : OracleBudget) (releases : gmap string datetime).
Context (Hrel : ∀ a, a ∈ pb_actions p →
  ∃ d, releases !! ca_action_id a = Some d ∧ latest_release p (ca_market_contract_id a) d).
Context (ev : PortfolioEvaluation) (Hacc : acceptable p budget ev).
Context (d : datetime) (Ed : pe_conservative_capital_release_at ev = Some d).

Lemma evaluated_sound : ∃ vs, evaluation_sound p vs ev.
Proof. destruct Hacc as ((vs & Hev) & _). exists vs. by eapply evaluate_sound. Qed.

Lemma release_bound a e :
  a ∈ pb_actions p → ca_action_id a ∈ aq_action_id <$> pe_quantities ev → releases !! ca_action_id a = Some e →
  latest_release p (ca_market_contract_id a) e → dt_us e ≤ dt_us d.
Proof.
  intros Ha Hi He [(ω & Hω & Er) _]. destruct evaluated_sound as (vs & Hs). destruct (es_release _ _ _ Hs) as (d' & Ed' & _ & Hmax).
  rewrite Ed in Ed'. injection Ed' as <-. destruct (Hmax (Some e)) as (t & [= <-] & Hle); [|done]. by exists ω, a.
Qed.

(** Some selected action's latest release is the portfolio's. *)
Lemma exact_release :
  ∃ a, a ∈ pb_actions p ∧ ca_action_id a ∈ aq_action_id <$> pe_quantities ev ∧ releases !! ca_action_id a = Some d.
Proof.
  destruct evaluated_sound as (vs & Hs). destruct (es_release _ _ _ Hs) as (d' & Ed' & (ω & a & Hω & Ha & Hi & Er) & _).
  rewrite Ed in Ed'. injection Ed' as <-. destruct (Hrel a Ha) as (e & He & Hl). exists a. split_and!; [done..|].
  pose proof (release_bound a e Ha Hi He Hl) as H1. pose proof (es_wf _ _ _ Hs) as Hwf.
  destruct (outcome_release p ω a Hwf (al_outcome _ _ Hω) Ha) as (d' & Ed' & Hu & _). rewrite <- Er in Ed'. injection Ed' as <-.
  destruct Hl as [(ω' & Hω' & Er') Hmax]. destruct (Hmax ω Hω) as (t & Et & H2). rewrite <- Er in Et. injection Et as <-.
  destruct (outcome_release p ω' a Hwf (al_outcome _ _ Hω') Ha) as (e' & Ee & Hu' & _). rewrite Er' in Ee. injection Ee as <-.
  rewrite He. f_equal. apply utc_eqb; [done|done|]. rewrite utc_eqb_us by done. apply Z.eqb_eq. lia.
Qed.
End acceptable_release.

Section acceptable_point.
Context `{Sha256} (p : ArbitrageProblem) (budget : OracleBudget).
Context (component : RelationComponent) (profile : ReleaseProfile) (releases : gmap string datetime).
Context (Hprof : profile_of releases component profile).
Context (Hrel : ∀ a, a ∈ pb_actions p →
  ∃ d, releases !! ca_action_id a = Some d ∧ latest_release p (ca_market_contract_id a) d).
Context (cuts : list WorstStateCut) (excluded : list (list ActionQuantity)) (cm : CompiledMaster).
Context (Hcuts : ∀ cut, cut ∈ cuts → true_cut p cut) (Hexcluded : ∀ v, v ∈ excluded → rejected p budget component v).
Context (ev : PortfolioEvaluation) (Hacc : acceptable p budget ev) (Hwithin : within_profile component profile ev).

Let qs := pe_quantities ev.

Lemma acceptable_sound : evaluation_sound p qs ev ∧ pe_failed_qualification_ids ev = [].
Proof.
  destruct Hacc as ((ks & Hks) & Hf & _). split; [|done]. apply (evaluate_sound p qs budget). by eapply evaluate_canonical.
Qed.

Lemma acceptable_selection : selection p qs.
Proof. apply acceptable_sound. Qed.

(** The latest release of a selected action is at most the profile's. *)
Lemma selected_release a e :
  a ∈ pb_actions p → ca_action_id a ∈ aq_action_id <$> qs → releases !! ca_action_id a = Some e →
  latest_release p (ca_market_contract_id a) e → dt_us e ≤ dt_us (rp_release_at profile).
Proof. intros. by eapply (release_bound p budget releases ev Hacc (rp_release_at profile) (proj2 Hwithin)). Qed.

(** An action released exactly with the profile. *)
Lemma exact_action :
  ∃ a e, a ∈ pb_actions p ∧ ca_action_id a ∈ aq_action_id <$> qs ∧ releases !! ca_action_id a = Some e ∧ e = rp_release_at profile.
Proof. destruct (exact_release p budget releases Hrel ev Hacc _ (proj2 Hwithin)) as (a & ? & ? & ?). by exists a, (rp_release_at profile). Qed.

Context (actions : list CandidateAction) (nogoods : list (list IntVariable * list LinearConstraint)) (cost : Z * Z).
Context (terms : list (list term)) (bounds : list (Z * Z)) (cut_constraints : list (list LinearConstraint)).
Context (extra : list IntVariable * list LinearConstraint) (qualification : list (list LinearConstraint)).
Context (MP : master_parts p component profile cuts excluded cm actions nogoods cost terms bounds cut_constraints extra qualification).

Lemma acceptable_within q : q ∈ qs → aq_action_id q ∈ ca_action_id <$> actions.
Proof. intros Hq. destruct (master_action_ids _ _ _ _ _ _ _ _ _ _ _ _ _ _ MP) as [-> _]. by apply Hwithin. Qed.

Lemma acceptable_excluded v canonical :
  v ∈ excluded → canonical_quantities p v = Ok canonical →
  ∃ a, a ∈ actions ∧ lots_in qs (ca_action_id a) ≠ target_of (quantity_dict canonical) a.
Proof.
  intros Hv Hc. destruct (Hexcluded v Hv) as (Hsel & Hin & Hne). pose proof (mp_wf _ _ _ _ _ _ _ _ _ _ _ _ _ _ MP) as Hwf.
  apply (canonical_quantities_select p v canonical Hwf) in Hc. rewrite (selected_quantities_id p v Hwf Hsel) in Hc. injection Hc as <-.
  destruct (decide (Forall (λ a, lots_in qs (ca_action_id a) = lots_in v (ca_action_id a)) actions)) as [Hall|Hn].
  - destruct (Hne ev Hacc). apply (selection_ext p); [apply acceptable_selection|done|]. intros i Hi.
    assert (Hia : i ∈ ca_action_id <$> actions).
    { apply elem_of_app in Hi as [(q & -> & Hq)%list_elem_of_fmap|(q & -> & Hq)%list_elem_of_fmap]; [by apply acceptable_within|].
      destruct (master_action_ids _ _ _ _ _ _ _ _ _ _ _ _ _ _ MP) as [-> _]. by apply Hin. }
    apply list_elem_of_fmap in Hia as (a & -> & Ha). exact (proj1 (Forall_forall _ _) Hall a Ha).
  - apply not_Forall_Exists in Hn; [|intros a; apply _]. apply Exists_exists in Hn as (a & Ha & Hneq). exists a. done.
Qed.

Lemma acceptable_admissible : ∃ ω, admissible_portfolio p profile cuts excluded actions (lots_in qs) ω ∧
  total_payout p actions (lots_in qs) ω = pe_payout_lower_bound_units ev ∧ total_cost actions (lots_in qs) = pe_cost_upper_bound_units ev.
Proof.
  pose proof (mp_wf _ _ _ _ _ _ _ _ _ _ _ _ _ _ MP) as Hwf. pose proof acceptable_selection as Hsel.
  destruct (master_action_ids _ _ _ _ _ _ _ _ _ _ _ _ _ _ MP) as [_ Hnd].
  assert (Hact : ∀ a, a ∈ actions → a ∈ pb_actions p) by (intros a Ha; by eapply actions_wf).
  destruct acceptable_sound as [Hs Hf]. destruct (es_worst _ _ _ Hs) as (ω & Hω & _ & Ep). exists ω.
  assert (EP : total_payout p actions (lots_in qs) ω = pe_payout_lower_bound_units ev).
  { rewrite (sum_payout p qs actions ω Hsel Hnd acceptable_within). done. }
  assert (EC : total_cost actions (lots_in qs) = pe_cost_upper_bound_units ev).
  { rewrite (sum_cost p qs actions Hwf Hsel Hact Hnd acceptable_within). symmetry. apply Hs. }
  split_and!; [|done|done].
  assert (Hlots : ∀ a, a ∈ pb_actions p → lots_in qs (ca_action_id a) = 0 ∨
    ca_action_id a ∈ aq_action_id <$> qs ∧ in_range a (lots_in qs (ca_action_id a)) ∧ 0 < lots_in qs (ca_action_id a)).
  { intros a Ha. destruct (lots_in_cases p qs (ca_action_id a) Hsel) as [[? _]|(q & Hq & Ei & El & Hpos)]; [by left|right].
    destruct (proj1 (Forall_forall _ _) (sel_known _ _ Hsel) q Hq) as (b & [Hb Eb]%index_by_elem & Hr & _).
    assert (b = a) as -> by (apply (NoDup_key_eq ca_action_id (pb_actions p)); [apply Hwf|done..|congruence]).
    rewrite El, <- Ei. split_and!; [by apply list_elem_of_fmap_2|apply Hr..|done]. }
  split.
  - apply Hω.
  - intros a Ha. destruct (Hlots a (Hact a Ha)) as [?|(_ & ? & _)]; [by left|by right].
  - destruct exact_action as (a & e & Ha & Hi & He & ->).
    assert (Hia : ca_action_id a ∈ ca_action_id <$> actions).
    { apply list_elem_of_fmap in Hi as (q & Ei & Hq). rewrite Ei. by apply acceptable_within. }
    apply list_elem_of_fmap in Hia as (b & Eb & Hb).
    assert (b = a) as -> by (apply (NoDup_key_eq ca_action_id (pb_actions p)); [apply Hwf|by apply Hact|done..]).
    exists a. split_and!; [done| |].
    + apply (po_exact _ _ _ Hprof). split.
      * apply list_elem_of_fmap in Hi as (q & -> & Hq). by apply Hwithin.
      * exists (rp_release_at profile). split; [done|]. destruct (Hrel a Ha) as (e & He' & [(ω' & Hω' & Er) _]).
        rewrite He in He'. injection He' as <-. destruct (outcome_release p ω' a Hwf (al_outcome _ _ Hω') Ha) as (e' & Ee & Hu & _).
        rewrite Er in Ee. injection Ee as <-. rewrite utc_eqb_us by done. apply Z.eqb_refl.
    + destruct (lots_in_cases p qs (ca_action_id a) Hsel) as [[_ Hn]|(q & _ & _ & -> & ?)]; [done|lia].
  - intros a Ha He. destruct (Hlots a (Hact a Ha)) as [?|(Hi & _ & _)]; [done|]. destruct He. apply (po_eligible _ _ _ Hprof). split.
    + apply list_elem_of_fmap in Hi as (q & -> & Hq). by apply Hwithin.
    + destruct (Hrel a (Hact a Ha)) as (e & He & Hl). exists e. split; [done|]. apply (selected_release a e (Hact a Ha) Hi He Hl).
  - apply acceptable_excluded.
  - intros cut Hc. destruct (Hcuts cut Hc) as (ω' & Hω' & Ec). rewrite EP.
    etransitivity; [apply (es_lower _ _ _ Hs ω' Hω')|]. fold qs. rewrite <- (sum_payout p qs actions ω' Hsel Hnd acceptable_within).
    apply Z.eq_le_incl, sumZ_fmap_ext. intros a Ha. f_equal. symmetry. apply (cut_terms_outcome p ω' cut a Hwf (al_outcome _ _ Hω') Ec). by apply Hact.
  - destruct exact_action as (a & e & Ha & _ & He & ->). destruct (Hrel a Ha) as (e & He' & [(ω' & Hω' & Er) _]).
    rewrite He in He'. injection He' as <-. destruct (outcome_release p ω' a Hwf (al_outcome _ _ Hω') Ha) as (e' & Ee & _ & Hle).
    rewrite Er in Ee. by injection Ee as <-.
  - intros c Hc. rewrite EP, EC, <- (es_profit _ _ _ Hs), <- (proj2 Hwithin).
    destruct (es_failed _ _ _ Hs c Hc) as (b & -> & Hb). rewrite Hf in Hb. f_equal. apply Hb. apply not_elem_of_nil.
Qed.

Lemma acceptable_point : ∃ x, feasible (cm_model cm) x ∧ pe_guaranteed_profit_units ev ≤ x "profit".
Proof.
  destruct acceptable_admissible as (ω & Hap & EP & EC).
  destruct (master_complete p component profile cuts excluded cm actions nogoods cost terms bounds cut_constraints extra qualification MP
    (lots_in qs) ω Hap) as (x & Hx & _ & Hprofit).
  exists x. split; [done|]. by rewrite EP, EC, <- (es_profit _ _ _ (proj1 acceptable_sound)) in Hprofit.
Qed.
End acceptable_point.
