(* ===== verification/GenerationLoop.v ===== *)
(** * The invariant of constraint generation

    Along the loop over components, release profiles and rounds: the known
    cuts are cuts of allowed outcomes, the best evidence is a sound, qualified
    evaluation, and, unless some search stayed open, no acceptable portfolio
    of a profile already left earns more than it. *)

From S2P Require Import Prelude PyValue NLeg NLegForms NLegValidate NLegWf Oracle OracleScenario OracleEval OracleQualify UnionFind Support Search SupportCorrect SplitCorrect SearchCorrect SearchTotal Components ComponentsCorrect LinearModel TerminalModel TerminalCorrect FillCorrect FillProof Master MasterCorrect Generation GenerationCorrect CandidateCorrect MasterComplete GenerationComplete.
Local Open Scope Z_scope.

(** ** Evidence *)

(** [e] reports the evaluation [ev]. *)
Record reports `{Sha256} (p : ArbitrageProblem) (e : SolverEvidence) (ev : PortfolioEvaluation) : Prop := {
  re_candidate : se_candidate e = Some {| pc_quantities := pe_quantities ev;
                   pc_claimed_guaranteed_profit_units := pe_guaranteed_profit_units ev |};
  re_scenario : se_worst_scenario e = Some (pe_worst_scenario ev);
  re_payout : se_payout_lower_bound_units e = Some (pe_payout_lower_bound_units ev);
  re_cost : se_cost_upper_bound_units e = Some (pe_cost_upper_bound_units ev);
  re_profit : se_guaranteed_profit_units e = Some (pe_guaranteed_profit_units ev);
  re_release : se_conservative_capital_release_at e = pe_conservative_capital_release_at ev;
  re_cut : pe_worst_state_cut ev ∈ se_cuts e;
  re_cut_exact : cut_from_scenario p (pe_worst_scenario ev) = Ok (pe_worst_state_cut ev);
}.

(** A sound, qualified evaluation; the exhaustive search accepts its
    quantities too, when its budget lets it evaluate them and derive their
    support. *)
Record certified_evaluation `{Sha256} (p : ArbitrageProblem) (budget : OracleBudget) (ev : PortfolioEvaluation) : Prop := {
  ce_sound : evaluation_sound p (pe_quantities ev) ev;
  ce_qualified : pe_failed_qualification_ids ev = [];
  ce_connected : ∀ ev', evaluates p budget (pe_quantities ev) ev' →
    pe_failed_qualification_ids ev' = [] ∧
    ∀ graph, derive_selected_support_graph p ev' budget = Ok (inr graph) → acceptable p budget ev';
}.

(** Whatever candidate [e] carries is one. *)
Definition sound_evidence `{Sha256} (p : ArbitrageProblem) (budget : OracleBudget) (e : SolverEvidence) : Prop :=
  se_candidate e ≠ None → ∃ ev, certified_evaluation p budget ev ∧ reports p e ev.

Lemma empty_sound `{Sha256} p budget s g m a cuts : sound_evidence p budget (empty_evidence s g m a cuts).
Proof. by intros ?. Qed.

Definition profit_of (e : SolverEvidence) : Z := default 0 (se_guaranteed_profit_units e).

Lemma evidence_ltb_profit e b lt :
  evidence_ltb e b = Ok lt → (lt = true → profit_of b ≤ profit_of e) ∧ (lt = false → profit_of e ≤ profit_of b).
Proof.
  unfold evidence_ltb, evidence_key, profit_of.
  intros ([[p c] qs] & (c1 & _ & (p1 & ->%of_option_Ok & (k1 & _ & [= <- <- <-])%bind_Ok)%bind_Ok)%bind_Ok & H)%bind_Ok.
  apply bind_Ok in H as ([[p' c'] qs'] & (c2 & _ & (p2 & ->%of_option_Ok & (k2 & _ & [= <- <- <-])%bind_Ok)%bind_Ok)%bind_Ok & [= <-]).
  simpl. destruct (- p1 =? - p2) eqn:E; bool_prop; [lia|]. split; intros Hlt; bool_prop; lia.
Qed.

Lemma with_cut_elem cuts cut : cut ∈ with_cut cuts cut.
Proof. unfold with_cut. case_bool_decide; [done|]. apply elem_of_app. right. by apply list_elem_of_singleton. Qed.

(** ** The state *)

Section loop.
Context `{Sha256} (backend : SolverBackend) (limit : Z) (Hh : honest backend) (p : ArbitrageProblem) (budget : OracleBudget).
Context (releases : gmap string datetime).
Context (Hrel : ∀ a, a ∈ pb_actions p →
  ∃ d, releases !! ca_action_id a = Some d ∧ latest_release p (ca_market_contract_id a) d).

Record state_ok (seen : list (RelationComponent * ReleaseProfile)) (st : GenState) : Prop := {
  sk_cuts : pb_actions p ≠ [] → ∀ cut, cut ∈ gs_cuts st → true_cut p cut;
  sk_best : ∀ e, gs_best st = Some e → ∃ ev, certified_evaluation p budget ev ∧ reports p e ev;
  sk_covered : gs_all_closed st = true ∨ gs_best st = None →
    ∀ component profile ev, (component, profile) ∈ seen → acceptable p budget ev → within_profile component profile ev →
      ∃ e, gs_best st = Some e ∧ pe_guaranteed_profit_units ev ≤ profit_of e;
}.

Lemma state_ok_frame seen st st' :
  gs_cuts st' = gs_cuts st → gs_best st' = gs_best st → (gs_all_closed st' = true → gs_all_closed st = true) →
  state_ok seen st → state_ok seen st'.
Proof.
  intros Ec Eb Ecl [H1 H2 H3]. split; rewrite ?Ec, ?Eb; [done|done|]. intros Hor. apply H3. destruct Hor; auto.
Qed.

Lemma state_ok_round seen st : state_ok seen st → state_ok seen (add_round st).
Proof. by apply state_ok_frame. Qed.

Lemma state_ok_rechecks seen st n : state_ok seen st → state_ok seen (add_adversary_rounds st n).
Proof. by apply state_ok_frame. Qed.

Lemma state_ok_closed seen st c : state_ok seen st → state_ok seen (and_closed st c).
Proof. apply state_ok_frame; [done|done|]. simpl. intros [? _]%andb_true_iff. done. Qed.

Lemma acceptable_actions ev : acceptable p budget ev → pb_actions p ≠ [].
Proof.
  intros ((qs & Hev) & _) E. pose proof (es_selection _ _ _ (evaluate_sound _ _ _ _ Hev)) as Hsel.
  pose proof (es_nonempty _ _ _ (evaluate_sound _ _ _ _ Hev)) as Hne. destruct (pe_quantities ev) as [|q l]; [done|].
  destruct (proj1 (Forall_forall _ _) (sel_known _ _ Hsel) q) as (a & Ha & _); [constructor|]. by rewrite E in Ha.
Qed.

Lemma state_ok_cut seen st cut : true_cut p cut → state_ok seen st → state_ok seen (add_cut st cut).
Proof.
  intros Hc [H1 H2 H3]. split; simpl; [|done|done]. intros Hne c [Hin| ->%list_elem_of_singleton]%elem_of_app; auto.
Qed.

(** What a step may do next. *)
Definition next_ok (seen : list (RelationComponent * ReleaseProfile)) (component : RelationComponent) (profile : ReleaseProfile)
    (next : Next) : Prop :=
  match next with
  | Return e _ => sound_evidence p budget e ∧ se_global_search_closed e = false
  | Again st excluded => state_ok seen st ∧ ∀ v, v ∈ excluded → rejected p budget component v
  | Leave st => state_ok (seen ++ [(component, profile)]) st
  end.

Section profile.
Context (component : RelationComponent) (profile : ReleaseProfile).
Context (Hsorted : StronglySorted (λ i j, String.leb i j = true) (rl_action_ids component)).
Context (Hprof : profile_of releases component profile).

(** A new best evidence. *)
Lemma set_best_ok seen st e ev phases better :
  state_ok seen st → certified_evaluation p budget ev → reports p e ev →
  match gs_best st with None => Ok true | Some best => evidence_ltb e best end = Ok better →
  (gs_all_closed st = true → ∀ ev', acceptable p budget ev' → within_profile component profile ev' →
     pe_guaranteed_profit_units ev' ≤ pe_guaranteed_profit_units ev) →
  state_ok (seen ++ [(component, profile)]) (set_best st (if better then Some e else gs_best st) phases).
Proof.
  intros [H1 H2 H3] Hcert Hrep Hbetter Hopt.
  assert (Hp : profit_of e = pe_guaranteed_profit_units ev) by (unfold profit_of; by rewrite (re_profit _ _ _ Hrep)).
  set (best' := if better then Some e else gs_best st).
  assert (Hnew : ∃ b, best' = Some b ∧ profit_of e ≤ profit_of b).
  { unfold best'. destruct better; [by exists e|]. destruct (gs_best st) as [b|]; [|done]. exists b. split; [done|].
    by apply evidence_ltb_profit in Hbetter as [_ Hb]; apply Hb. }
  assert (Hold : ∀ b, gs_best st = Some b → ∃ b', best' = Some b' ∧ profit_of b ≤ profit_of b').
  { intros b Eb. unfold best'. rewrite Eb in Hbetter |- *. destruct better; [|by exists b]. exists e. split; [done|].
    by apply evidence_ltb_profit in Hbetter as [Hb _]; apply Hb. }
  destruct Hnew as (b & Eb & Hle). split; simpl.
  - done.
  - intros e' He'. unfold best' in He'. destruct better; [injection He' as <-; by exists ev|by apply H2].
  - fold best'. intros Hor c pr ev' [Hin|[= -> ->]%list_elem_of_singleton]%elem_of_app Hacc Hw.
    + destruct Hor as [Hcl|Hn]; [|by rewrite Hn in Eb].
      destruct (H3 (or_introl Hcl) c pr ev' Hin Hacc Hw) as (e0 & E0 & Hle0). destruct (Hold e0 E0) as (b' & -> & Hle').
      exists b'. split; [done|lia].
    + destruct Hor as [Hcl|Hn]; [|by rewrite Hn in Eb]. exists b. split; [done|]. pose proof (Hopt Hcl ev' Hacc Hw). lia.
Qed.

(** ** A confirmed candidate *)

Section confirmed.
Context (mode : SearchMode) (st : GenState) (excluded : list (list ActionQuantity)) (cm : CompiledMaster).
Context (actions : list CandidateAction) (nogoods : list (list IntVariable * list LinearConstraint)) (cost : Z * Z).
Context (terms : list (list term)) (bounds : list (Z * Z)) (cut_constraints : list (list LinearConstraint)).
Context (extra : list IntVariable * list LinearConstraint) (qualification : list (list LinearConstraint)) (known : list WorstStateCut).
Context (MP : master_parts p component profile known excluded cm actions nogoods cost terms bounds cut_constraints extra qualification).
Context (r : BackendResult) (closed : bool) (Hr : feasible (cm_model cm) (result_point r)).
Context (Hclosed : closed = true → most_profitable cm (result_point r)).
Context (qs : list ActionQuantity) (ad : CompiledAdversary) (ar : BackendResult) (payout c : Z) (sc : SettlementScenario).
Context (Hqs : master_quantities cm r = Ok qs) (Had : compile_adversary p qs None = Ok ad).
Context (Hans : answers backend (ad_model ad) ar) (Hopt : br_status ar = NATIVE_OPTIMAL).
Context (Hpay : objective_activity (ad_model ad) ar = Ok payout) (Hsc : scenario_from_result ad ar = Ok sc).
Context (Hpayout : value_of r "payout" = Ok payout) (Hcost : value_of r "cost" = Ok c).
Context (Hcl : gs_all_closed st = true → closed = true).
Context (Hcuts : pb_actions p ≠ [] → ∀ cut, cut ∈ known → true_cut p cut) (Hexcluded : ∀ v, v ∈ excluded → rejected p budget component v).

Let d := rp_release_at profile.

Lemma confirmed_sound cut ids :
  failed_qualification_ids p payout c d = Ok ids → evaluation_sound p qs (evaluation_at qs payout c sc cut d ids).
Proof.
  intros Hids. by eapply (candidate_sound backend Hh p component profile releases Hsorted Hprof Hrel known excluded cm actions
    nogoods cost terms bounds cut_constraints extra qualification MP r qs ad ar payout c sc cut ids).
Qed.

Lemma confirmed_within q : q ∈ qs → aq_action_id q ∈ rl_action_ids component.
Proof.
  pose proof (master_quantities_at p component profile known excluded cm actions nogoods cost terms bounds cut_constraints extra
    qualification MP r qs Hqs) as E.
  destruct (master_action_ids _ _ _ _ _ _ _ _ _ _ _ _ _ _ MP) as [<- _]. rewrite E. unfold quantities_at.
  intros [_ (a & -> & Ha)%list_elem_of_fmap]%list_elem_of_filter. by apply (list_elem_of_fmap_2 ca_action_id).
Qed.

(** An evaluation of the candidate by the oracle agrees with it. *)
Lemma evaluated_agrees ids ev vs :
  failed_qualification_ids p payout c d = Ok ids → evaluates p budget vs ev → pe_quantities ev = qs →
  pe_payout_lower_bound_units ev = payout ∧ pe_cost_upper_bound_units ev = c ∧ pe_conservative_capital_release_at ev = Some d ∧
  pe_failed_qualification_ids ev = ids.
Proof.
  intros Hids Hks E. pose proof (evaluate_sound _ _ _ _ Hks) as Hs.
  set (cut0 := {| cut_id := ""; cut_scenario := sc; cut_payout_per_lot := [] |}).
  destruct (sound_payout_unique p vs qs ev (evaluation_at qs payout c sc cut0 d ids) Hs (confirmed_sound cut0 ids Hids) E) as (E1 & E2 & E3 & E4).
  simpl in E1, E2, E3, E4. split_and!; [done..|]. destruct (evaluate_failed _ _ _ _ Hks) as (l & Hl & El).
  rewrite E1, E2, E3, E4 in Hl. rewrite El.
  pose proof (mp_wf _ _ _ _ _ _ _ _ _ _ _ _ _ _ MP) as Hwf.
  destruct (failed_ids_agree p payout c d ids Hwf) as (_ & l' & Hl' & ->); [|done|].
  { by eapply (profile_release p component profile releases Hprof Hrel known excluded cm actions). }
  rewrite Hl in Hl'. by injection Hl' as <-.
Qed.

Lemma confirmed_rejected ids :
  failed_qualification_ids p payout c d = Ok ids → (∀ ev, acceptable p budget ev → pe_quantities ev ≠ qs) → rejected p budget component qs.
Proof.
  intros Hids Hne. split_and!; [|apply confirmed_within|done].
  apply (es_selection _ _ _ (confirmed_sound {| cut_id := ""; cut_scenario := sc; cut_payout_per_lot := [] |} ids Hids)).
Qed.

Lemma excluded_snoc v v' : rejected p budget component v' → v ∈ excluded ++ [v'] → rejected p budget component v.
Proof. intros Hv' [Hin| ->%list_elem_of_singleton]%elem_of_app; auto. Qed.

(** A candidate whose support splits is not acceptable. *)
Lemma split_rejected graph n cut groups ev :
  failed_qualification_ids p payout c d = Ok [] →
  returns (minimize_support backend limit p qs payout c d (bg_max_support_rechecks budget)) (inr (graph, n)) →
  split_disconnected_solution p (evaluation_at qs payout c sc cut d []) graph = Ok groups → (1 < length groups)%nat →
  acceptable p budget ev → pe_quantities ev ≠ qs.
Proof.
  intros Hids Hmin Hsplit Hlen ((ks & Hks) & _ & graph' & groups' & Hder & Hsplit' & Hone) E.
  destruct (evaluated_agrees [] ev ks Hids Hks E) as (E1 & E2 & E3 & _).
  assert (graph' = graph) as ->.
  { eapply (minimize_agrees backend limit Hh p budget ev); [by eapply evaluate_canonical|exact E3| | |exact Hder].
    - rewrite E1. exact Hids.
    - rewrite E, E1. exact Hmin. }
  unfold split_disconnected_solution in Hsplit, Hsplit'. simpl in Hsplit. rewrite E in Hsplit'. rewrite Hsplit in Hsplit'.
  injection Hsplit' as <-. lia.
Qed.

(** A candidate whose support does not split is one the search accepts. *)
Lemma unsplit_acceptable graph n cut groups ev' :
  failed_qualification_ids p payout c d = Ok [] →
  returns (minimize_support backend limit p qs payout c d (bg_max_support_rechecks budget)) (inr (graph, n)) →
  split_disconnected_solution p (evaluation_at qs payout c sc cut d []) graph = Ok groups → (length groups ≤ 1)%nat →
  evaluates p budget qs ev' →
  pe_failed_qualification_ids ev' = [] ∧
  ∀ graph', derive_selected_support_graph p ev' budget = Ok (inr graph') → acceptable p budget ev'.
Proof.
  intros Hids Hmin Hsplit Hlen Hev. pose proof (evaluate_sound _ _ _ _ Hev) as Hs.
  assert (E : pe_quantities ev' = qs).
  { apply (evaluates_selection p budget qs); [done|]. exact (es_selection _ _ _ (confirmed_sound cut [] Hids)). }
  destruct (evaluated_agrees [] ev' qs Hids Hev E) as (E1 & E2 & E3 & E4). split; [done|]. intros graph' Hder.
  assert (graph' = graph) as ->.
  { eapply (minimize_agrees backend limit Hh p budget ev'); [by eapply evaluate_canonical|exact E3| | |exact Hder].
    - rewrite E1. exact Hids.
    - rewrite E, E1. exact Hmin. }
  split_and!; [by exists qs|done|]. exists graph, groups. split_and!; [done| |].
  - unfold split_disconnected_solution in Hsplit |- *. simpl in Hsplit. by rewrite E.
  - destruct (derive_support_graph_spec p qs ev' budget graph Hev Hder) as (A & R & C & Hg).
    destruct (split_correct p ev' graph) as [(groups' & cls & Hsp & Hspec)|Herr].
    + apply Hs.
    + by eapply graph_edges_known.
    + unfold split_disconnected_solution in Hsplit, Hsp. simpl in Hsplit. rewrite E, Hsplit in Hsp. injection Hsp as <-.
      destruct groups as [|g [|]]; simpl in *; [|done|lia]. pose proof (sl_perm _ _ _ _ _ Hspec) as Hp. simpl in Hp.
      apply Permutation_nil_l in Hp. by destruct (es_nonempty _ _ _ Hs).
    + unfold split_disconnected_solution in Hsplit, Herr. simpl in Hsplit. rewrite E, Hsplit in Herr. done.
Qed.

(** When the master's optimum is confirmed, it covers the profile. *)
Lemma confirmed_best ev :
  closed = true → acceptable p budget ev → within_profile component profile ev → pe_guaranteed_profit_units ev ≤ payout - c.
Proof.
  intros Hc Hacc Hw.
  destruct (acceptable_point p budget component profile releases Hprof Hrel known excluded cm
    (Hcuts (acceptable_actions ev Hacc)) Hexcluded ev Hacc Hw actions
    nogoods cost terms bounds cut_constraints extra qualification MP) as (x & Hx & Hle).
  pose proof (Hclosed Hc x Hx) as Hle'.
  assert (Hpt : master_point p profile known excluded actions (result_point r)).
  { eapply master_rows_point; [exact MP|]. by eapply feasible_master. }
  pose proof (mt_profit _ _ _ _ _ _ Hpt) as E. apply value_of_point in Hpayout, Hcost. lia.
Qed.

Lemma confirmed_spec seen status next :
  state_ok seen st →
  returns (confirmed backend limit p mode (bg_max_support_rechecks budget) profile st excluded status qs payout c sc) next →
  next_ok seen component profile next.
Proof.
  intros Hst. unfold confirmed. fold d. intros (profit & [-> Hint]%returns_lift%int64_value_Ok & (ids & Hids%returns_lift & Hn)%returns_bind)%returns_bind.
  destruct ids as [|i ids].
  2: { apply returns_ret in Hn as ->. split; [done|]. intros v. apply excluded_snoc. apply (confirmed_rejected _ Hids).
       intros ev ((ks & Hks) & Hf & _) E. destruct (evaluated_agrees _ ev ks Hids Hks E) as (_ & _ & _ & E'). by rewrite Hf in E'. }
  apply returns_bind in Hn as (support & Hsup & Hn). destruct support as [reason|[graph n]].
  { apply returns_ret in Hn as ->. split; [apply empty_sound|done]. }
  apply returns_bind in Hn as (cut & Hcut%returns_lift & (groups & Hgroups%returns_lift & Hn)%returns_bind).
  destruct (1 <? length groups)%nat eqn:E.
  { apply returns_ret in Hn as ->. split; [by apply state_ok_rechecks|]. intros v. apply excluded_snoc. apply (confirmed_rejected _ Hids).
    intros ev Hacc. apply Nat.ltb_lt in E. by eapply split_rejected. }
  set (ev := evaluation_at qs payout c sc cut d []).
  assert (Hcert : certified_evaluation p budget ev).
  { split; [by apply confirmed_sound|done|]. intros ev' Hev'. apply Nat.ltb_ge in E.
    by eapply (unsplit_acceptable graph n cut groups ev'). }
  set (e := found_evidence mode status qs payout c (payout - c) sc d (add_adversary_rounds st n) cut) in *.
  assert (Hrep : reports p e ev).
  { split; [done|done|done|done|done|done| |exact Hcut]. apply with_cut_elem. }
  destruct (bool_decide (mode = ADMISSION)).
  { apply returns_ret in Hn as ->. split; [|done]. intros _. by exists ev. }
  apply returns_bind in Hn as (better & Hbetter%returns_lift & ->%returns_ret).
  apply (set_best_ok seen (add_adversary_rounds st n) e ev); [by apply state_ok_rechecks|done|done|done|].
  intros Hall ev' Hacc Hw. apply confirmed_best; [by apply Hcl|done|done].
Qed.
End confirmed.

(** ** One round *)

Lemma master_nonempty seen_cuts excluded cm actions nogoods cost terms bounds cc extra qual :
  master_parts p component profile seen_cuts excluded cm actions nogoods cost terms bounds cc extra qual →
  lm_variables (cm_model cm) ≠ [].
Proof.
  intros MP. rewrite (mp_model _ _ _ _ _ _ _ _ _ _ _ _ _ _ MP). eapply perm_nonempty; [apply linear_model_variables|].
  unfold cost_variables. intros E%(f_equal length). rewrite !length_app in E. simpl in E. lia.
Qed.

Lemma returned_unclosed component' profile' seen st phases :
  next_ok seen component' profile' (Return (unclosed st) phases).
Proof. split; [apply empty_sound|done]. Qed.

Lemma challenge_spec seen mode st excluded cm r closed next :
  compile_master p component profile (gs_cuts st) excluded = Ok cm → master_answer backend cm r closed →
  claims_point (br_status r) = true → state_ok seen st → (∀ v, v ∈ excluded → rejected p budget component v) →
  returns (challenge backend limit p mode (bg_max_support_rechecks budget) profile (add_round st) excluded cm r closed) next →
  next_ok seen component profile next.
Proof.
  intros (actions & nogoods & cost & terms & bounds & cc & extra & qual & MP)%compile_master_inv [Mpt _ Mcl] Hclaims Hst Hex.
  unfold challenge. intros (qs & Hqs%returns_lift & (ad & Had%returns_lift & (ar & Har%solve_checked_answers & Hn)%returns_bind)%returns_bind)%returns_bind.
  assert (Hst' : state_ok seen (add_adversary_rounds (and_closed (add_round st) closed) 1)).
  { by apply state_ok_rechecks, state_ok_closed, state_ok_round. }
  case_bool_decide as Hopt; simpl in Hn; [|apply returns_ret in Hn as ->; apply returned_unclosed].
  apply returns_bind in Hn as (sc & Hsc%returns_lift & (payout & Hpay%returns_lift & (promised & Hpromised%returns_lift & Hn)%returns_bind)%returns_bind).
  destruct (payout <? promised) eqn:Elt.
  - apply returns_bind in Hn as (cut & Hcut%returns_lift & Hn). destruct (existsb _ _) in Hn.
    { apply returns_ret in Hn as ->. apply returned_unclosed. }
    apply returns_ret in Hn as ->. split; [|done]. apply state_ok_cut; [|done].
    destruct (adversary_worst backend p qs None ad Had ar payout Hh Har Hopt Hpay) as (ω & Hω & _ & _ & Hscen).
    rewrite restrict_None in Hω. exists ω. split; [done|]. by rewrite <- (Hscen sc Hsc).
  - destruct (payout =? promised) eqn:Eeq; simpl in Hn; [|apply returns_ret in Hn as ->; apply returned_unclosed].
    apply Z.eqb_eq in Eeq as ->. apply returns_bind in Hn as (c & Hc%returns_lift & Hn). revert Hn.
    eapply (confirmed_spec mode _ excluded cm actions nogoods cost terms bounds cc extra qual (gs_cuts st) MP r closed); try done.
    + by apply Mpt.
    + intros E. by apply Mcl.
    + simpl. by intros [_ ?]%andb_true_iff.
    + apply Hst.
Qed.

Lemma generation_step_spec seen mode max_rounds st excluded next :
  state_ok seen st → (∀ v, v ∈ excluded → rejected p budget component v) →
  returns (generation_step backend limit p mode max_rounds (bg_max_support_rechecks budget) component profile st excluded) next →
  next_ok seen component profile next.
Proof.
  intros Hst Hex. unfold generation_step. destruct (max_rounds <=? _).
  { intros ->%returns_ret. apply returned_unclosed. }
  intros (cm & Hcm%returns_lift & ([r closed] & Hm & Hn)%returns_bind)%returns_bind.
  pose proof (compile_master_inv _ _ _ _ _ _ Hcm) as (actions & nogoods & cost & terms & bounds & cc & extra & qual & MP).
  apply solve_master_spec in Hm; [|by eapply master_nonempty]. simpl in Hn.
  destruct (br_status r) eqn:E.
  - by eapply challenge_spec; rewrite ?E.
  - by eapply challenge_spec; rewrite ?E.
  - apply returns_ret in Hn as ->. simpl. destruct Hst as [H1 H2 H3]. split; [done|done|].
    intros Hor c pr ev [Hin|[= -> ->]%list_elem_of_singleton]%elem_of_app Hacc Hw; [by apply (H3 Hor c pr)|].
    destruct (acceptable_point p budget component profile releases Hprof Hrel (gs_cuts st) excluded cm
      (H1 (acceptable_actions ev Hacc)) Hex ev Hacc Hw actions
      nogoods cost terms bounds cc extra qual MP) as (x & Hx & _).
    by destruct (ma_infeasible _ _ _ _ Hm Hh E x).
  - apply returns_ret in Hn as ->. apply returned_unclosed.
Qed.

(** ** The rounds of a profile *)

(** What a loop leaves behind. *)
Definition search_ok (seen : list (RelationComponent * ReleaseProfile)) (out : (SolverEvidence * list string) + GenState) : Prop :=
  match out with
  | inl (e, _) => sound_evidence p budget e ∧ se_global_search_closed e = false
  | inr st => state_ok seen st
  end.

Lemma profile_loop_spec fuel seen mode max_rounds st excluded out :
  state_ok seen st → (∀ v, v ∈ excluded → rejected p budget component v) →
  returns (profile_loop backend limit fuel p mode max_rounds (bg_max_support_rechecks budget) component profile st excluded) out →
  search_ok (seen ++ [(component, profile)]) out.
Proof.
  revert st excluded. induction fuel as [|fuel IH]; intros st excluded Hst Hex.
  - intros (k & k' & ?). done.
  - cbn [profile_loop]. intros (next & Hn & Ho)%returns_bind. apply (generation_step_spec seen) in Hn; [|done|done].
    destruct next as [e phases|st' excluded'|st'].
    + apply returns_ret in Ho as ->. exact Hn.
    + destruct Hn as [Hst' Hex']. by eapply IH.
    + apply returns_ret in Ho as ->. exact Hn.
Qed.
End profile.

(** ** The profiles of a component, and the components *)

Lemma profile_step_spec component mode max_rounds seen acc profile out :
  StronglySorted (λ i j, String.leb i j = true) (rl_action_ids component) → profile_of releases component profile →
  search_ok seen acc →
  returns (profile_step backend limit p mode max_rounds (bg_max_support_rechecks budget) component acc profile) out →
  search_ok (seen ++ [(component, profile)]) out.
Proof.
  intros Hs Hp Hacc. unfold profile_step. destruct acc as [answer|st].
  - intros ->%returns_ret. exact Hacc.
  - apply profile_loop_spec; [done|done|exact Hacc|]. by intros v ?%elem_of_nil.
Qed.

Lemma component_search_spec component mode max_rounds seen acc out :
  StronglySorted (λ i j, String.leb i j = true) (rl_action_ids component) → search_ok seen acc →
  returns (component_search backend limit p mode max_rounds (bg_max_support_rechecks budget) releases acc component) out →
  match out with
  | inl _ => search_ok [] out
  | inr _ => ∃ profiles, release_profiles p component releases = Ok profiles ∧ search_ok (seen ++ (pair component <$> profiles)) out
  end.
Proof.
  intros Hs Hacc. destruct acc as [answer|st]; simpl.
  - intros ->%returns_ret. exact Hacc.
  - intros (profiles & Hp%returns_lift & Ho)%returns_bind.
    eapply (returns_fold_prefix (λ done, search_ok (seen ++ (pair component <$> done)))) in Ho; [| |].
    + destruct out as [[? ?]|]; [exact Ho|]. by exists profiles.
    + simpl. by rewrite app_nil_r.
    + intros done profile acc acc' Hin Hok Hr. rewrite fmap_app, (assoc_L (++)). eapply profile_step_spec; [done| |exact Hok|exact Hr].
      by eapply release_profiles_spec.
Qed.

(** All components are gone through, or the search has stopped. *)
Lemma components_search_spec comps mode max_rounds st out :
  (∀ c, c ∈ comps → StronglySorted (λ i j, String.leb i j = true) (rl_action_ids c)) → state_ok [] st →
  returns (solver_fold (component_search backend limit p mode max_rounds (bg_max_support_rechecks budget) releases) (inr st) comps) out →
  match out with
  | inl _ => search_ok [] out
  | inr st' => ∃ seen, state_ok seen st' ∧
      ∀ c, c ∈ comps → ∃ profiles, release_profiles p c releases = Ok profiles ∧ ∀ pr, pr ∈ profiles → (c, pr) ∈ seen
  end.
Proof.
  intros Hs Hst Ho.
  eapply (returns_fold_prefix (λ done out, match out with
    | inl _ => search_ok [] out
    | inr st' => ∃ seen, state_ok seen st' ∧
      ∀ c, c ∈ done → ∃ profiles, release_profiles p c releases = Ok profiles ∧ ∀ pr, pr ∈ profiles → (c, pr) ∈ seen
    end)) in Ho; [exact Ho| |].
  - exists []. split; [done|]. by intros c ?%elem_of_nil.
  - intros done c acc acc' Hin Hok Hr. destruct acc as [answer|st0].
    + apply returns_ret in Hr as ->. exact Hok.
    + destruct Hok as (seen & Hst0 & Hseen). eapply (component_search_spec c mode max_rounds seen (inr st0)) in Hr; [|by apply Hs|done].
      destruct acc' as [answer|st1]; [exact Hr|]. destruct Hr as (profiles & Hp & Hst1). eexists. split; [exact Hst1|].
      intros c' [Hc'| ->%list_elem_of_singleton]%elem_of_app.
      * destruct (Hseen c' Hc') as (profiles' & Hp' & H'). exists profiles'. split; [done|]. intros pr Hpr. apply elem_of_app. left. by apply H'.
      * exists profiles. split; [done|]. intros pr Hpr. apply elem_of_app. right. by apply list_elem_of_fmap_2.
Qed.
End loop.

