(* ===== verification/GenerationSearch.v ===== *)
(** * The answer of constraint generation

    The parts around the loops: the seed is an allowed outcome, every
    acceptable portfolio lies in one component and is released with one of its
    profiles, and the answer reports what the loops established. *)

From stdpp Require Import relations.
From S2P Require Import Prelude PyValue NLeg NLegForms NLegValidate NLegWf IsoFormat Decode Oracle OracleScenario OracleEval OracleQualify UnionFind Support Search SupportCorrect SplitCorrect SearchCorrect SearchTotal Components ComponentsCorrect LinearModel TerminalModel TerminalCorrect FillCorrect FillProof Master MasterCorrect Generation GenerationCorrect CandidateCorrect MasterComplete GenerationComplete GenerationLoop.
Local Open Scope Z_scope.

(** ** The seed *)

Section seed.
Context (backend : SolverBackend) (limit : Z) (p : ArbitrageProblem) (m : LinearModel) (Hm : compile_terminal_model p = Ok m).

(** A point of the model with a fixed atom settles there. *)
Lemma seeded_point s t x :
  s ∈ pb_terminal_state_sets p → t ∈ ts_atoms s → feasible m x → row_ok x (seed_row (ts_market_contract_id s) t) →
  outcome_at p x (ts_market_contract_id s) = t.
Proof.
  intros Hs Ht Hf Hr. apply (reachable_point p None m Hm s t x Hs Ht). apply add_row_feasible. split; [done|].
  unfold seed_row in Hr. unfold reachability_row. by rewrite row_ok_constraint in Hr |- *.
Qed.

Lemma seed_atoms_spec m' contract atoms t m'' :
  lm_variables m' ≠ [] → returns (seed_atoms backend limit m' contract atoms) (inr (t, m'')) →
  t ∈ atoms ∧ m'' = add_row m' (seed_row contract t) ∧ ∃ x, feasible m'' x.
Proof.
  intros Hne. induction atoms as [|u atoms IH]; cbn [seed_atoms].
  - by intros ?%returns_ret.
  - intros (r & Hr%solve_checked_answers & Ho)%returns_bind.
    destruct (br_status r) eqn:E; apply returns_ret in Ho || idtac; try done.
    1, 2: injection Ho as -> ->; split_and!; [constructor|done|]; exists (result_point r);
      apply (as_point _ _ _ Hr); [by rewrite E|by apply variables_of_row].
    destruct (IH Ho) as (? & ? & ?). split_and!; [by constructor|done..].
Qed.

(** The atoms selected so far are those of every point of the model. *)
Definition seed_ok (states : list TerminalStateSet) (acc : SolveFailure + (list SelectedAtom * LinearModel)) : Prop :=
  match acc with
  | inl _ => True
  | inr (atoms, m') =>
      lm_variables m' ≠ [] ∧ (states ≠ [] → ∃ x, feasible m' x) ∧
      ∀ x, feasible m' x → feasible m x ∧
        atoms = (λ s, SelAtom (ts_market_contract_id s) (ta_atom_id (outcome_at p x (ts_market_contract_id s)))) <$> states
  end.

Lemma seed_state_spec states s acc out :
  s ∈ pb_terminal_state_sets p → seed_ok states acc → returns (seed_state backend limit acc s) out → seed_ok (states ++ [s]) out.
Proof.
  intros Hs Hacc. unfold seed_state. destruct acc as [failure|[atoms m']]; [by intros ->%returns_ret|].
  destruct Hacc as (Hne & _ & Hpts). intros (o & Ho & ->%returns_ret)%returns_bind. destruct o as [failure|[t m'']]; [done|].
  apply seed_atoms_spec in Ho as (Ht & -> & Hx); [|done]. rewrite elem_of_sort_on in Ht.
  split_and!; [by apply variables_of_row|done|]. intros x [Hf Hr]%add_row_feasible. destruct (Hpts x Hf) as [Hfm ->].
  split; [done|]. rewrite fmap_app. simpl. by rewrite (seeded_point s t x).
Qed.

Lemma seed_spec a sc :
  a ∈ pb_actions p → returns (deterministic_allowed_scenario backend limit p) (inr sc) → ∃ ω, allowed p ω ∧ sc = scenario p ω.
Proof.
  intros Ha (m' & Hm'%returns_lift & (out & Ho & Hr%returns_ret)%returns_bind)%returns_bind.
  rewrite Hm in Hm'. injection Hm' as <-.
  eapply (returns_fold_prefix seed_ok) in Ho.
  - destruct out as [|[atoms m']]; [done|]. injection Hr as ->. destruct Ho as (_ & Hex & Hpts).
    destruct Hex as [x Hx].
    { pose proof (reach_wf p None m Hm) as Hwf. apply (wf_action_contracts _ Hwf) in Ha as (s & Hs & _)%elem_of_contracts.
      intros E%sort_on_nil. rewrite E in Hs. by apply elem_of_nil in Hs. }
    destruct (Hpts x Hx) as [Hf ->]. exists (outcome_at p x). split; [|done]. rewrite <- (restrict_None p).
    destruct (feasible_represents p None m x Hm Hf) as [Hout Hrep]. by apply (terminal_feasible p None m x).
  - split_and!; [by eapply terminal_variables_nonempty|done|]. intros x Hx. split; [done|done].
  - intros states s acc acc' Hin Hok Hret. eapply seed_state_spec; [by apply elem_of_sort_on in Hin|exact Hok|exact Hret].
Qed.
End seed.

(** ** What the split into components established *)

Lemma join_forbidden_nonempty p m fs m' :
  foldM (join_forbidden p) m fs = Ok m' → Forall (λ f, fb_atom_ids f ≠ []) fs.
Proof.
  revert m. induction fs as [|f fs IH]; intros m; [constructor|]. cbn [foldM]. intros (m1 & H1 & H2)%bind_Ok.
  constructor; [|by eapply IH]. intros E. unfold join_forbidden, forbidden_contract_ids in H1. by rewrite E in H1.
Qed.

Lemma identity_fold_utc `{Sha256} gs l gs' :
  foldM identity_step gs l = Ok gs' → Forall (λ s, forallb is_utc (key_datetimes (ts_settlement_observation_key s)) = true) l.
Proof.
  revert gs. induction l as [|s l IH]; intros gs; [constructor|]. cbn [foldM]. intros (g & Hg & H2)%bind_Ok.
  constructor; [|by eapply IH]. unfold identity_step, fingerprint_observation_key in Hg.
  by apply bind_Ok in Hg as (fp & (u & Hu%require_Ok & _)%bind_Ok & _).
Qed.

Lemma build_components_inv `{Sha256} p as_of comps :
  build_relation_components p as_of = Ok comps → no_empty_forbidden p ∧ utc_states p.
Proof.
  intros (ids & Hids & (m1 & _ & (m2 & Hm2 & _)%bind_Ok)%bind_Ok)%bind_Ok. split; [by eapply join_forbidden_nonempty|].
  intros s Hs. apply identity_fold_utc in Hids. by apply (proj1 (Forall_forall _ _) Hids).
Qed.

(** The actions of a component are actions of the problem. *)
Lemma component_actions_known `{Sha256} p as_of comps c i :
  wf_problem p → build_relation_components p as_of = Ok comps → c ∈ comps → i ∈ rl_action_ids c →
  ∃ a, a ∈ pb_actions p ∧ ca_action_id a = i.
Proof.
  intros Hwf Hb Hc Hi. destruct (build_components_inv p as_of comps Hb) as [Hnf Hutc].
  destruct (components_core p as_of Hwf Hnf Hutc) as (abc & groups & E & _ & Habc & _). rewrite E in Hb.
  apply bind_Ok in Hb as (cs & Hcs & (u & _ & [= <-])%bind_Ok). rewrite elem_of_sort_on in Hc.
  apply (mapM_elem _ _ _ c Hcs) in Hc as (g & Hg & Hmake).
  apply bind_Ok in Hmake as (acts & Hacts & (fs & _ & (d & _ & [= <-])%bind_Ok)%bind_Ok). simpl in Hi.
  unfold sorted_strings in Hi. rewrite elem_of_sort_on, list_elem_of_join in Hi. destruct Hi as (l & Hil & Hl).
  apply (mapM_elem _ _ _ l Hacts) in Hl as (k & Hk & El%of_option_Ok). unfold sorted_strings in Hk; rewrite elem_of_sort_on in Hk.
  rewrite (Habc g k Hg Hk) in El. injection El as <-.
  apply list_elem_of_fmap in Hil as (a & -> & [_ Ha]%list_elem_of_filter). by exists a.
Qed.

(** ** Where an acceptable portfolio lies *)

Lemma scope_component_edge `{Sha256} p i :
  wf_problem p → i ∈ all_constraint_ids p → ∃ e, e ∈ component_edges p ∧ ∀ c, c ∈ scope p i → c ∈ e.
Proof.
  intros Hwf Hi. unfold all_constraint_ids in Hi. unfold scope, component_edges.
  apply elem_of_app in Hi as [(r & -> & Hr)%list_elem_of_fmap|(f & -> & Hf)%list_elem_of_fmap].
  - rewrite constraint_contracts_relation by done. exists (rc_contract_ids r). split.
    + apply elem_of_app. right. apply elem_of_app. right. by apply list_elem_of_fmap_2.
    + intros c. unfold sorted_strings. by rewrite elem_of_sort_on.
  - rewrite constraint_contracts_forbidden by done. exists (forbidden_scope p f). split.
    + apply elem_of_app. right. apply elem_of_app. left. by apply list_elem_of_fmap_2.
    + done.
Qed.

(** The contracts of an acceptable portfolio are connected in the problem. *)
Lemma acceptable_connected `{Sha256} p budget ev q q' :
  wf_problem p → acceptable p budget ev → q ∈ pe_quantities ev → q' ∈ pe_quantities ev →
  connected (component_edges p) (contract_of p q) (contract_of p q').
Proof.
  intros Hwf ((ks & Hks) & _ & graph & groups & Hder & Hsplit & Hone) Hq Hq'.
  destruct (derive_support_graph_spec p ks ev budget graph Hks Hder) as (A & R & C & Hg).
  destruct (split_correct p ev graph) as [(groups' & cls & Hsp & Hspec)|Herr].
  - by apply (es_selection _ _ _ (evaluate_sound _ _ _ _ Hks)).
  - by eapply graph_edges_known.
  - rewrite Hsplit in Hsp. injection Hsp as <-. destruct groups as [|g [|]]; [done| |done].
    destruct (sl_classes _ _ _ _ _ Hspec) as (keys & _ & Hcls). apply Forall2_cons_inv_r in Hcls as (k & keys' & Hk & _ & _).
    pose proof (sl_perm _ _ _ _ _ Hspec) as Hp. simpl in Hp. rewrite app_nil_r in Hp. rewrite Forall_forall in Hk.
    assert (E : cls (contract_of p q) = cls (contract_of p q')).
    { rewrite (Hk q), (Hk q'); [done|..]; by rewrite Hp. }
    apply (sl_connected _ _ _ _ _ Hspec) in E.
    2, 3: apply elem_of_app; right; by apply list_elem_of_fmap_2.
    unfold connected in E |- *. eapply (rtsc_congruence id); [|exact E]. intros x y (e & He & Hx & Hy). simpl.
    rewrite (sp_edges _ _ _ _ _ _ _ Hg) in He. apply list_elem_of_fmap in He as (i & -> & Hi).
    destruct (scope_component_edge p i Hwf) as (e & He & Hsub).
    { apply (cs_relevant _ _ _ (sp_closed _ _ _ _ _ _ _ Hg)). apply (sp_active _ _ _ _ _ _ _ Hg). by apply (sp_constraints _ _ _ _ _ _ _ Hg). }
    exists e. auto.
  - by rewrite Hsplit in Herr.
Qed.

Lemma contract_of_known p qs q :
  wf_problem p → selection p qs → q ∈ qs →
  ∃ a, a ∈ pb_actions p ∧ ca_action_id a = aq_action_id q ∧ contract_of p q = ca_market_contract_id a.
Proof.
  intros Hwf Hsel Hq. destruct (proj1 (Forall_forall _ _) (sel_known _ _ Hsel) q Hq) as (a & Ha & _).
  exists a. split_and!.
  - by apply index_by_elem in Ha as [? _].
  - by apply index_by_elem in Ha as [_ ?].
  - unfold contract_of. by rewrite Ha.
Qed.

Lemma mapM_result {A B} (f : A → res B) l k x : mapM f l = Ok k → x ∈ l → ∃ y, y ∈ k ∧ f x = Ok y.
Proof.
  intros Hm (i & Hx)%list_elem_of_lookup. apply mapM_Ok in Hm. destruct (Forall2_lookup_l _ _ _ _ _ Hm Hx) as (y & Hy & ?).
  exists y. split; [by eapply list_elem_of_lookup_2|done].
Qed.

Lemma datetime_eqb_trans a b c : datetime_eqb a b = true → datetime_eqb b c = true → datetime_eqb a c = true.
Proof.
  unfold datetime_eqb. destruct a as [a [|]], b as [b [|]], c as [c [|]]; simpl; try done; intros ? ?; bool_prop; lia.
Qed.

Lemma dedupe_represented l d : d ∈ l → ∃ e, e ∈ dedupe_datetimes l ∧ datetime_eqb d e = true.
Proof.
  induction l as [|e l IH]; [by intros ?%elem_of_nil|]. intros [->|Hd]%elem_of_cons; cbn [dedupe_datetimes].
  - exists e. split; [constructor|]. apply datetime_eqb_refl.
  - destruct (IH Hd) as (f & Hf & E). destruct (datetime_eqb f e) eqn:Ef.
    + exists e. split; [constructor|]. by eapply datetime_eqb_trans.
    + exists f. split; [|done]. apply elem_of_cons. right. by apply list_elem_of_filter.
Qed.

Section home.
Context `{Sha256} (p : ArbitrageProblem) (budget : OracleBudget) (comps : list RelationComponent) (releases : gmap string datetime).
Context (Hwf : wf_problem p) (Hcomps : build_relation_components p None = Ok comps).
Context (Hrel : ∀ a, a ∈ pb_actions p →
  ∃ d, releases !! ca_action_id a = Some d ∧ latest_release p (ca_market_contract_id a) d).

(** The component of an acceptable portfolio. *)
Lemma acceptable_component ev :
  acceptable p budget ev → ∃ c, c ∈ comps ∧ ∀ q, q ∈ pe_quantities ev → aq_action_id q ∈ rl_action_ids c.
Proof.
  intros Hacc. destruct (build_components_inv p None comps Hcomps) as [Hnf Hutc].
  pose proof (components_correct p None comps Hwf Hnf Hutc Hcomps) as Hspec.
  pose proof Hacc as ((ks & Hks) & _). pose proof (evaluate_sound _ _ _ _ Hks) as Hs. pose proof (es_selection _ _ _ Hs) as Hsel.
  pose proof (es_nonempty _ _ _ Hs) as Hne. destruct (pe_quantities ev) as [|q0 qs] eqn:Eq; [done|]. rewrite <- Eq in Hsel.
  assert (Hq0 : q0 ∈ pe_quantities ev) by (rewrite Eq; constructor).
  assert (Hknown : ∀ q, q ∈ pe_quantities ev → ∃ a, a ∈ pb_actions p ∧ ca_action_id a = aq_action_id q ∧ contract_of p q = ca_market_contract_id a)
    by (intros q Hq; by eapply contract_of_known).
  destruct (Hknown q0 Hq0) as (a0 & Ha0 & _ & E0).
  assert (Hc0 : contract_of p q0 ∈ mjoin (rl_contract_ids <$> comps)).
  { rewrite (cp_partition _ _ Hspec), E0. by apply wf_action_contracts. }
  apply list_elem_of_join in Hc0 as (ids & Hin & (c & -> & Hc)%list_elem_of_fmap). exists c. split; [done|].
  intros q Hq. rewrite <- Eq in Hq. destruct (Hknown q Hq) as (a & Ha & <- & Ea).
  apply (cc_actions _ _ (proj1 (Forall_forall _ _) (cp_closed _ _ Hspec) c Hc) a Ha). rewrite <- Ea.
  apply (cp_connected _ _ Hspec c (contract_of p q0)); [done|done| |].
  - rewrite Ea. by apply wf_action_contracts.
  - by apply (acceptable_connected p budget ev).
Qed.

(** The profile it is released with. *)
Lemma acceptable_profile ev c profiles :
  acceptable p budget ev → c ∈ comps → (∀ q, q ∈ pe_quantities ev → aq_action_id q ∈ rl_action_ids c) →
  release_profiles p c releases = Ok profiles → ∃ profile, profile ∈ profiles ∧ within_profile c profile ev.
Proof.
  intros Hacc Hc Hin Hp. pose proof Hacc as ((ks & Hks) & _). pose proof (evaluate_sound _ _ _ _ Hks) as Hs.
  destruct (es_release _ _ _ Hs) as (d & Ed & _).
  destruct (exact_release p budget releases Hrel ev Hacc d Ed) as (a & Ha & Hi & He).
  assert (Hic : ca_action_id a ∈ rl_action_ids c).
  { apply list_elem_of_fmap in Hi as (q & -> & Hq). by apply Hin. }
  unfold release_profiles in Hp. apply bind_Ok in Hp as (dated & Hd & Hp).
  assert (Hdated : ∀ i e, (i, e) ∈ dated ↔ i ∈ rl_action_ids c ∧ releases !! i = Some e).
  { intros i e. rewrite (mapM_elem _ _ _ (i, e) Hd). split.
    - intros (j & Hj & (e' & He'%of_option_Ok & [= -> ->])%bind_Ok). done.
    - intros [Hi' He']. exists i. split; [done|]. by rewrite He'. }
  assert (Hdd : d ∈ dated.*2) by (apply list_elem_of_fmap; exists (ca_action_id a, d); split; [done|by apply Hdated]).
  destruct (dedupe_represented _ _ Hdd) as (e & Hde & Eqe).
  assert (e = d) as ->.
  { apply dedupe_elem, list_elem_of_fmap in Hde as ([i e'] & -> & [Hi' He']%Hdated). simpl in *.
    destruct (component_actions_known p None comps c i Hwf Hcomps Hc Hi') as (b & Hb & <-).
    symmetry. apply utc_eqb; [by eapply (known_release p releases Hwf Hrel a)|by eapply (known_release p releases Hwf Hrel b)|done]. }
  destruct (mapM_result _ _ _ d Hp) as (profile & Hpin & Hprof); [by apply elem_of_sort|].
  exists profile. split; [done|]. apply release_profile_fields in Hprof as (<- & _). done.
Qed.
End home.

(** ** The answer *)

(** What closing the search claims. *)
Record closed_evidence `{Sha256} (p : ArbitrageProblem) (budget : OracleBudget) (mode : SearchMode) (e : SolverEvidence) : Prop := {
  ca_bound : ∀ ev, acceptable p budget ev →
    ∃ profit, se_guaranteed_profit_units e = Some profit ∧ pe_guaranteed_profit_units ev ≤ profit;
  ca_negative : se_candidate e = None →
    se_native_status e = business_status_value NO_QUALIFIED_OPPORTUNITY ∧ (∀ ev, ¬ acceptable p budget ev) ∨
    mode = RAW_ARBITRAGE_DIAGNOSTIC ∧ se_native_status e = business_status_value NO_ARBITRAGE ∧
      ∀ ev, acceptable p budget ev → pe_guaranteed_profit_units ev ≤ 0;
  ca_profit : ∀ c, se_candidate e = Some c → se_guaranteed_profit_units e = Some (pc_claimed_guaranteed_profit_units c);
}.

Section answer.
Context `{Sha256} (backend : SolverBackend) (limit : Z) (Hh : honest backend) (p : ArbitrageProblem) (budget : OracleBudget).

Lemma finish_spec seen mode st e phases :
  state_ok p budget seen st →
  (∀ ev, acceptable p budget ev → ∃ c pr, (c, pr) ∈ seen ∧ within_profile c pr ev) →
  finish p mode st = Ok (e, phases) →
  sound_evidence p budget e ∧ (se_global_search_closed e = true → closed_evidence p budget mode e).
Proof.
  intros [_ Hbest Hcov] Hhome. unfold finish.
  assert (Hcovered : gs_all_closed st = true ∨ gs_best st = None → ∀ ev, acceptable p budget ev →
    ∃ e, gs_best st = Some e ∧ pe_guaranteed_profit_units ev ≤ profit_of e).
  { intros Hor ev Hacc. destruct (Hhome ev Hacc) as (c & pr & Hin & Hw). by apply (Hcov Hor c pr). }
  destruct (gs_best st) as [best|] eqn:Eb.
  2: { intros [= <- <-]. split; [apply empty_sound|]. intros _.
       assert (Hnone : ∀ ev, ¬ acceptable p budget ev).
       { intros ev Hacc. by destruct (Hcovered (or_intror eq_refl) ev Hacc) as (? & ? & _). }
       split; [intros ev Hacc; by destruct (Hnone ev)|by left|done]. }
  destruct (Hbest best eq_refl) as (ev & Hcert & [R1 R2 R3 R4 R5 R6 R7 R8]).
  rewrite R5, R2. cbn [of_option mbind res_bind]. rewrite R8. cbn [mbind res_bind].
  assert (Hprofit : profit_of best = pe_guaranteed_profit_units ev) by (unfold profit_of; by rewrite R5).
  assert (Hbound : gs_all_closed st = true → ∀ ev', acceptable p budget ev' → pe_guaranteed_profit_units ev' ≤ pe_guaranteed_profit_units ev).
  { intros Hcl ev' Hacc. destruct (Hcovered (or_introl Hcl) ev' Hacc) as (b & [= <-] & Hle). lia. }
  destruct (gs_all_closed st) eqn:Ecl; simpl.
  - destruct (bool_decide (mode = RAW_ARBITRAGE_DIAGNOSTIC)) eqn:Em; simpl; [destruct (pe_guaranteed_profit_units ev <=? 0) eqn:Ep|].
    + intros [= <- <-]. split; [by intros ?|]. intros _. apply bool_decide_eq_true_1 in Em. apply Z.leb_le in Ep. split; simpl.
      * intros ev' Hacc. eexists. split; [done|by apply Hbound].
      * intros _. right. split_and!; [done..|]. intros ev' Hacc. pose proof (Hbound eq_refl ev' Hacc). lia.
      * done.
    + intros [= <- <-]. split.
      * intros _. exists ev. split; [done|]. split; simpl; try done. apply with_cut_elem.
      * intros _. split; simpl; [|by rewrite R1|by rewrite R1; intros c [= <-]].
        intros ev' Hacc. eexists. split; [done|by apply Hbound].
    + intros [= <- <-]. split.
      * intros _. exists ev. split; [done|]. split; simpl; try done. apply with_cut_elem.
      * intros _. split; simpl; [|by rewrite R1|by rewrite R1; intros c [= <-]].
        intros ev' Hacc. eexists. split; [done|by apply Hbound].
  - intros [= <- <-]. split; [|done]. intros _. exists ev. split; [done|]. split; simpl; try done. apply with_cut_elem.
Qed.
End answer.

(** Sound evidence, spelled out. *)
Lemma evidence_facts `{Sha256} p budget e c :
  sound_evidence p budget e → se_candidate e = Some c →
  let qs := pc_quantities c in
  wf_problem p ∧ selection p qs ∧ qs ≠ [] ∧ guarantees p qs (pc_claimed_guaranteed_profit_units c) ∧
  ∃ payout d, se_payout_lower_bound_units e = Some payout ∧ se_cost_upper_bound_units e = Some (portfolio_cost p qs) ∧
    pc_claimed_guaranteed_profit_units c = payout - portfolio_cost p qs ∧
    (∃ ω, allowed p ω ∧ se_worst_scenario e = Some (scenario p ω) ∧ payout = realized_payout p ω qs) ∧
    (∀ ω, allowed p ω → payout ≤ realized_payout p ω qs) ∧
    se_conservative_capital_release_at e = Some d ∧ release_of p qs (Some d) ∧
    (∀ o, release_of p qs o → ∃ t, o = Some t ∧ dt_us t ≤ dt_us d) ∧
    ∀ q, q ∈ pb_qualification_constraints p →
      qualification_passes p q payout (portfolio_cost p qs) (pc_claimed_guaranteed_profit_units c) (Some d) = Ok true.
Proof.
  intros Hsound Hc qs. destruct Hsound as (ev & [Hs Hq _] & [R1 R2 R3 R4 R5 R6 _ _]); [by rewrite Hc|].
  rewrite Hc in R1. injection R1 as ->. subst qs. cbn [pc_quantities pc_claimed_guaranteed_profit_units].
  destruct (es_worst _ _ _ Hs) as (ω & Hω & Esc & Epay). destruct (es_release _ _ _ Hs) as (d & Ed & Hd & Hmax).
  split_and!; [apply Hs..| |].
  - split.
    + intros ω' Hω'. pose proof (es_lower _ _ _ Hs ω' Hω'). rewrite (es_profit _ _ _ Hs), (es_cost _ _ _ Hs). lia.
    + exists ω. split; [done|]. by rewrite (es_profit _ _ _ Hs), (es_cost _ _ _ Hs), Epay.
  - exists (pe_payout_lower_bound_units ev), d. rewrite R2, R3, R4, R6, Esc, <- (es_cost _ _ _ Hs).
    split_and!; [done|done|apply Hs| |apply Hs|done|done|done|].
    + exists ω. done.
    + intros q Hqin. destruct (es_failed _ _ _ Hs q Hqin) as (b & Hb & Hiff). rewrite Ed in Hb. rewrite Hb. f_equal. apply Hiff.
      rewrite Hq. apply not_elem_of_nil.
Qed.

(** ** The whole search *)

Section generated.
Context `{Sha256} (backend : SolverBackend) (limit : Z) (Hh : honest backend).

Lemma generate_spec rq max_rounds e phases :
  let p := searched_problem rq in
  returns (generate backend limit rq max_rounds) (e, phases) →
  sound_evidence p (rq_budget rq) e ∧ (se_global_search_closed e = true → closed_evidence p (rq_budget rq) (rq_mode rq) e).
Proof.
  intros p. unfold generate. fold p. intros (rel & Hrel & Hn)%returns_bind.
  destruct rel as [failure|releases]; [apply returns_ret in Hn as [= -> ->]; split; [apply empty_sound|done]|].
  assert (∃ m, compile_terminal_model p = Ok m) as (m & Hm) by (destruct Hrel as (k & k' & Hr); unfold reachable_action_releases in Hr;
    destruct (compile_terminal p None) as [m|] eqn:Em; [by exists m|done]).
  pose proof (reach_wf p None m Hm) as Hwf.
  assert (Hreleases : ∀ a, a ∈ pb_actions p → ∃ d, releases !! ca_action_id a = Some d ∧ latest_release p (ca_market_contract_id a) d).
  { intros a Ha. destruct (reachable_releases_spec backend limit p None None releases Hh Hrel a Ha eq_refl) as (d & Hd & Hl).
    rewrite restrict_None in Hl. by exists d. }
  apply returns_bind in Hn as (seed & Hseed & Hn).
  destruct seed as [failure|seed]; [apply returns_ret in Hn as [= -> ->]; split; [apply empty_sound|done]|].
  apply returns_bind in Hn as (cut & Hcut%returns_lift & (comps & Hcomps%returns_lift & (out & Hout & Hn)%returns_bind)%returns_bind).
  eapply (components_search_spec backend limit Hh p (rq_budget rq) releases Hreleases) in Hout.
  - destruct out as [[e' phases']|st].
    + apply returns_ret in Hn as [= -> ->]. destruct Hout as [Hs Hcl]. split; [done|]. by rewrite Hcl.
    + apply returns_lift in Hn. destruct Hout as (seen & Hst & Hseen). eapply finish_spec; [exact Hst| |exact Hn].
      intros ev Hacc. destruct (acceptable_component p (rq_budget rq) comps Hwf Hcomps ev Hacc) as (c & Hc & Hin).
      destruct (Hseen c Hc) as (profiles & Hp & Hpr).
      destruct (acceptable_profile p (rq_budget rq) comps releases Hwf Hcomps Hreleases ev c profiles Hacc Hc Hin Hp) as (pr & Hprin & Hw).
      exists c, pr. split; [by apply Hpr|done].
  - intros c Hc. by eapply component_actions_sorted.
  - split; simpl; [|done|].
    + intros Hne c ->%list_elem_of_singleton. destruct (pb_actions p) as [|a l] eqn:Ea; [done|].
      destruct (seed_spec backend limit p m Hm a seed) as (ω & Hω & ->); [rewrite Ea; constructor|exact Hseed|]. by exists ω.
    + by intros _ c pr ev ?%elem_of_nil.
Qed.

Lemma solve_spec rq limits e phases :
  bl_soft_time_limit_ms limits = limit →
  solve_with_constraint_generation rq backend limits = Ok (e, phases) →
  sound_evidence (searched_problem rq) (rq_budget rq) e ∧
  (se_global_search_closed e = true → closed_evidence (searched_problem rq) (rq_budget rq) (rq_mode rq) e).
Proof.
  intros El. unfold solve_with_constraint_generation. rewrite El. destruct (request_failure rq).
  { intros [= <- <-]. split; [apply empty_sound|done]. }
  destruct (run_from _ 0) as [[[e' phases'] k]|ex] eqn:Er.
  - intros [= -> ->]. eapply generate_spec. by exists 0%nat, k.
  - destruct ex; try done; intros [= <- <-]; (split; [apply empty_sound|done]).
Qed.
End generated.

(** ** The exhaustive oracle *)

Lemma searched_problem_qualified rq : rq_mode rq ≠ RAW_ARBITRAGE_DIAGNOSTIC → searched_problem rq = rq_problem rq.
Proof. intros H. unfold searched_problem. by rewrite decide_False. Qed.

(** A candidate of the solver is among the oracle's solutions. *)
Lemma certified_covered `{Sha256} p budget best ev :
  (∀ lots, lots ∈ quantity_vectors p → covered p budget best lots) → certified_evaluation p budget ev →
  ∃ b, best = Some b ∧ pe_guaranteed_profit_units ev ≤ claimed_profit b.
Proof.
  intros Hcov [Hs Hq Hconn]. pose proof (es_selection _ _ _ Hs) as Hsel.
  destruct (selection_vector p (pe_quantities ev)) as (lots & Hin & E); [apply Hs|done|].
  destruct (Hcov lots Hin) as (ev' & Hev' & Hsols).
  { destruct (any_lots lots) eqn:Ea; [done|]. apply (vector_quantities_nil p) in Ea. rewrite E in Ea. by destruct (es_nonempty _ _ _ Hs). }
  rewrite E in Hev'. destruct (Hconn ev' Hev') as [Hf Hacc]. destruct (Hsols Hf) as (sols & Hspec & _).
  destruct (so_derived _ _ _ _ Hspec) as (graph & Hg). specialize (Hacc graph Hg).
  destruct (covered_acceptable p budget best ev' Hcov Hacc) as (s & b & Hc & -> & Hb). exists b. split; [done|].
  apply better_profit in Hb. unfold claimed_profit at 1 in Hb. rewrite (certifies_profit _ _ _ _ Hc) in Hb. simpl in Hb.
  pose proof (evaluate_sound _ _ _ _ Hev') as Hs'.
  destruct (sound_payout_unique p _ _ ev ev' Hs Hs') as (_ & _ & -> & _); [|done].
  symmetry. by apply (evaluates_selection p budget).
Qed.

Lemma solver_oracle_agree `{Sha256} backend rq limits e phases mode r :
  honest backend → rq_mode rq ≠ RAW_ARBITRAGE_DIAGNOSTIC →
  solve_with_constraint_generation rq backend limits = Ok (e, phases) → se_global_search_closed e = true →
  solve_exhaustive rq mode = Ok r → or_unknown_reason r = None →
  match or_solution r, se_candidate e with
  | Some s, Some c => claimed_profit s = pc_claimed_guaranteed_profit_units c
  | None, None => True
  | _, _ => False
  end.
Proof.
  intros Hh Hm Hsolve Hclosed Hr Hnone. destruct (solve_spec backend _ Hh rq limits e phases eq_refl Hsolve) as [Hsound Hcl].
  rewrite searched_problem_qualified in Hsound, Hcl by done. destruct (Hcl Hclosed) as [Hbound Hneg Hprofit].
  destruct (solve_exhaustive_spec rq mode r Hr Hnone) as (Hwf & best & Hbest & Hcov & Hres).
  assert (or_solution r = best) as ->.
  { destruct best as [s|]; [by rewrite Hres|]. by destruct Hres as (proof & -> & _). }
  assert (Hacc : ∀ s, best = Some s → ∃ ev, acceptable (rq_problem rq) (rq_budget rq) ev ∧ claimed_profit s = pe_guaranteed_profit_units ev).
  { intros s Hs. destruct (Hbest s Hs) as (ev & Hc). exists ev. unfold claimed_profit. rewrite (certifies_profit _ _ _ _ Hc).
    split; [|done]. destruct Hc as [? ? (graph & groups & fp & ? & ? & ? & _) _]. split_and!; eauto 10. }
  destruct (se_candidate e) as [c|] eqn:Ec.
  - destruct Hsound as (ev & Hcert & Hrep); [by rewrite Ec|]. pose proof (re_candidate _ _ _ Hrep) as E. rewrite Ec in E. injection E as ->.
    destruct (certified_covered _ _ best ev Hcov Hcert) as (b & -> & Hle). simpl.
    destruct (Hacc b eq_refl) as (ev' & Hacc' & Eb). destruct (Hbound ev' Hacc') as (profit & Ep & Hle').
    rewrite (Hprofit _ eq_refl) in Ep. simpl in Ep. injection Ep as <-. lia.
  - destruct best as [s|]; [|done]. destruct (Hacc s eq_refl) as (ev & Hev & _).
    destruct (Hneg eq_refl) as [[_ Hn]|[? _]]; [by destruct (Hn ev)|done].
Qed.
