(* ===== verification/GenerationTotal.v ===== *)
(** * Constraint generation ends

    No loop of the solver runs forever: whatever the backend answers, the fuel
    of the model is never exhausted.  Every round of the [while True] loop
    spends one of the rounds of the limits, or leaves the loop. *)

From S2P Require Import Prelude PyValue NLeg NLegForms NLegValidate NLegWf IsoFormat Decode Oracle OracleScenario OracleEval OracleQualify UnionFind Support Search SupportCorrect SplitCorrect SearchCorrect SearchTotal Components ComponentsCorrect LinearModel TerminalModel TerminalCorrect FillCorrect FillProof Master MasterCorrect Generation GenerationCorrect CandidateCorrect GenerationComplete GenerationLoop GenerationSearch.
Local Open Scope Z_scope.

(** ** Computations that do not run out of fuel *)

Definition no_fuel {A} (m : res A) : Prop := m ≠ Err OutOfFuel.

Lemma no_fuel_bind {A B} (m : res A) (f : A → res B) :
  no_fuel m → (∀ a, m = Ok a → no_fuel (f a)) → no_fuel (m ≫= f).
Proof. unfold no_fuel. destruct m as [a|e]; simpl; [auto|]. intros Hm _ [= ->]. done. Qed.

Lemma no_fuel_mapM {A B} (f : A → res B) l : (∀ x, x ∈ l → no_fuel (f x)) → no_fuel (mapM f l).
Proof.
  induction l as [|x l IH]; intros Hf; [done|]. apply no_fuel_bind; [apply Hf; constructor|]. intros y _.
  apply no_fuel_bind; [apply IH; intros; apply Hf; by constructor|done].
Qed.

Lemma no_fuel_filterM {A} (f : A → res bool) l : (∀ x, x ∈ l → no_fuel (f x)) → no_fuel (filterM f l).
Proof.
  induction l as [|x l IH]; intros Hf; [done|]. apply no_fuel_bind; [apply Hf; constructor|]. intros b _.
  apply no_fuel_bind; [apply IH; intros; apply Hf; by constructor|done].
Qed.

Lemma no_fuel_foldM {A B} (f : B → A → res B) b l : (∀ b x, x ∈ l → no_fuel (f b x)) → no_fuel (foldM f b l).
Proof.
  revert b. induction l as [|x l IH]; intros b Hf; [done|]. apply no_fuel_bind; [apply Hf; constructor|]. intros b' _.
  apply IH. intros. apply Hf. by constructor.
Qed.

Lemma no_fuel_option {A} e (o : option A) : e ≠ OutOfFuel → no_fuel (of_option e o).
Proof. intros He. destruct o; [done|]. by intros [= ->]. Qed.

Lemma no_fuel_require b e : e ≠ OutOfFuel → no_fuel (require b e).
Proof. intros He. destruct b; [done|]. by intros [= ->]. Qed.

Lemma no_fuel_Ok {A} (a : A) : no_fuel (Ok a).
Proof. done. Qed.

(** Peel a computation down to its leaves; definitions are unfolded. *)
Ltac head_of t := lazymatch t with ?f _ => head_of f | _ => t end.

Ltac ends_step :=
  lazymatch goal with
  | |- no_fuel (Ok _) => apply no_fuel_Ok
  | |- no_fuel (Err _) => discriminate
  | |- no_fuel (mret _) => apply no_fuel_Ok
  | |- no_fuel (_ ≫= _) => apply no_fuel_bind; [|intros ? _]
  | |- no_fuel (mapM _ _) => apply no_fuel_mapM; intros ? _
  | |- no_fuel (filterM _ _) => apply no_fuel_filterM; intros ? _
  | |- no_fuel (foldM _ _ _) => apply no_fuel_foldM; intros ? ? _
  | |- no_fuel (of_option _ _) => apply no_fuel_option; discriminate
  | |- no_fuel (require _ _) => apply no_fuel_require; discriminate
  | |- no_fuel (match ?x with _ => _ end) => destruct x
  | |- no_fuel (let _ := _ in _) => intro
  | |- no_fuel ?t => let h := head_of t in unfold h
  end.

Ltac fuel_free := repeat (assumption || ends_step).

Lemma slices_cost_ends total remaining slices : no_fuel (slices_cost total remaining slices).
Proof. revert total remaining. induction slices as [|c slices IH]; intros total remaining; cbn [slices_cost]; fuel_free; try apply IH. Qed.

Lemma validate_linear_ends m : no_fuel (validate_linear_model m).
Proof. fuel_free. Qed.

Lemma validate_result_ends m r : no_fuel (validate_backend_result m r).
Proof. fuel_free. Qed.

Lemma cut_ends `{Sha256} p sc : no_fuel (cut_from_scenario p sc).
Proof. fuel_free. Qed.

Lemma compile_master_ends `{Sha256} p component profile cuts excluded : no_fuel (compile_master p component profile cuts excluded).
Proof.
  unfold compile_master. fuel_free.
Qed.

Lemma compile_terminal_ends p active : no_fuel (compile_terminal p active).
Proof. fuel_free. Qed.

Lemma compile_adversary_ends p qs active : no_fuel (compile_adversary p qs active).
Proof. fuel_free. Qed.

Lemma failed_ids_ends p payout cost d : no_fuel (failed_qualification_ids p payout cost d).
Proof. fuel_free. Qed.

Lemma release_profiles_ends p component releases : no_fuel (release_profiles p component releases).
Proof. fuel_free. Qed.

Lemma objective_activity_ends m r : no_fuel (objective_activity m r).
Proof. fuel_free. Qed.

(** ** Unions *)

Lemma join_ids_ends K pairs m ids :
  uf_spec m K pairs → Forall (.∈ K) ids → no_fuel (join_ids m ids).
Proof.
  intros Hu Hin. destruct ids as [|c ids]; [done|]. destruct (join_ids_correct m K pairs (c :: ids) Hu) as (m' & -> & _); done.
Qed.

Lemma join_forbidden_ends p K pairs m fs :
  wf_problem p → (∀ i, i ∈ K ↔ i ∈ contracts p) → uf_spec m K pairs →
  (∀ f, f ∈ fs → f ∈ cm_forbidden_atom_combinations (pb_constraint_model p)) → no_fuel (foldM (join_forbidden p) m fs).
Proof.
  intros Hwf HK. revert m pairs. induction fs as [|f fs IH]; intros m pairs Hu Hfs; [done|]. cbn [foldM].
  destruct (forbidden_contracts_Ok p f Hwf) as (ids & E & Hids); [apply Hfs; constructor|].
  assert (Hin : Forall (.∈ K) ids) by (eapply Forall_impl; [exact Hids|]; intros; by apply HK).
  apply no_fuel_bind; unfold join_forbidden; rewrite E; cbn [mbind res_bind]; [by eapply join_ids_ends|].
  intros m' Hm'. destruct ids as [|c ids]; [done|].
  destruct (join_ids_correct m K pairs (c :: ids) Hu) as (m1 & E1 & Hu1); [done|done|]. rewrite Hm' in E1. injection E1 as <-.
  eapply IH; [exact Hu1|]. intros. apply Hfs. by constructor.
Qed.

Lemma make_component_ends `{Sha256} p as_of abc cs : no_fuel (make_component p as_of abc cs).
Proof. unfold make_component, component_as_of. fuel_free. Qed.

Lemma build_components_ends `{Sha256} p as_of : wf_problem p → no_fuel (build_relation_components p as_of).
Proof.
  intros Hwf. set (K := sorted_strings (ts_market_contract_id <$> pb_terminal_state_sets p)).
  assert (HK : ∀ i, i ∈ K ↔ i ∈ contracts p) by apply K_contracts.
  assert (Hids : no_fuel (identity_contracts p)) by fuel_free.
  destruct (identity_contracts p) as [ids|e] eqn:Ei.
  2: { unfold build_relation_components. rewrite Ei. cbn [mbind res_bind]. intros [= ->]. by apply Hids. }
  assert (Hutc : utc_states p).
  { apply identity_fold_utc in Ei. intros s Hs. by apply (proj1 (Forall_forall _ _) Ei). }
  destruct (decide (Forall (λ f, fb_atom_ids f ≠ []) (cm_forbidden_atom_combinations (pb_constraint_model p)))) as [Hnf|Hnf].
  - destruct (components_core p as_of Hwf Hnf Hutc) as (abc & groups & -> & _).
    apply no_fuel_bind; [apply no_fuel_mapM; intros; apply make_component_ends|]. intros cs _. unfold require_component. fuel_free.
  - unfold build_relation_components. fold K. rewrite identity_contracts_Ok by done. cbn [mbind res_bind].
    destruct (join_all_correct (singletons K) K [] (identity_edges (identity_groups p))) as (m1 & -> & Hu1);
      [apply uf_spec_init|by apply identity_edges_ok|]. cbn [mbind res_bind].
    apply no_fuel_bind; [by eapply join_forbidden_ends|]. intros m2 Hm2. by apply join_forbidden_nonempty in Hm2.
Qed.

(** ** Calls of the backend *)

Definition ends {A} (m : solver A) : Prop := ∀ k, no_fuel (run_from m k).

Lemma ends_bind {A B} (m : solver A) (f : A → solver B) : ends m → (∀ a, returns m a → ends (f a)) → ends (m ≫= f).
Proof.
  intros Hm Hf k. specialize (Hm k). unfold mbind, solver_bind. cbn [run_from].
  destruct (run_from m k) as [[a k']|e] eqn:E; [|intros [= ->]; done]. apply Hf. by exists k, k'.
Qed.

Lemma ends_lift {A} (m : res A) : no_fuel m → ends (lift m).
Proof. intros Hm k. unfold lift. cbn [run_from]. destruct m as [a|e]; [done|]. by intros [= ->]. Qed.

Lemma ends_ret {A} (a : A) : ends (mret a).
Proof. done. Qed.

Lemma ends_fold {A B} (f : B → A → solver B) b l : (∀ b x, x ∈ l → ends (f b x)) → ends (solver_fold f b l).
Proof.
  revert b. induction l as [|x l IH]; intros b Hf; [done|]. cbn [solver_fold]. apply ends_bind; [apply Hf; constructor|].
  intros b' _. apply IH. intros. apply Hf. by constructor.
Qed.

(** A fold whose body ends on the states it reaches. *)
Lemma ends_fold_from {A B} (P : B → Prop) (f : B → A → solver B) b l :
  P b → (∀ b x, x ∈ l → P b → ends (f b x)) → (∀ b x b', x ∈ l → P b → returns (f b x) b' → P b') → ends (solver_fold f b l).
Proof.
  revert b. induction l as [|x l IH]; intros b Hb Hf Hp; [done|]. cbn [solver_fold].
  apply ends_bind; [apply Hf; [constructor|done]|]. intros b' Hb'. apply IH.
  - eapply Hp; [constructor|exact Hb|done].
  - intros. apply Hf; [by constructor|done].
  - intros ?????. eapply Hp; [by constructor|done].
Qed.

Ltac solver_step :=
  lazymatch goal with
  | |- ends (mret _) => apply ends_ret
  | |- ends (lift _) => apply ends_lift; fuel_free
  | |- ends (_ ≫= _) => apply ends_bind; [|intros ? _]
  | |- ends (solver_fold _ _ _) => apply ends_fold; intros ? ? _
  | |- ends (match ?x with _ => _ end) => destruct x
  | |- ends (let _ := _ in _) => intro
  | |- ∀ _, _ => intro
  | |- ends ?t => let h := head_of t in unfold h
  end.

Ltac solver_free := repeat (assumption || solver_step).

Section backend.
Context (backend : SolverBackend) (limit : Z) (Hb : ∀ k m t, no_fuel (sb_solve backend k m t)).

Lemma solve_checked_ends m : ends (solve_checked backend limit m).
Proof.
  intros k. unfold solve_checked, checked_backend_solve. cbn [run_from].
  assert (Hs : no_fuel (result ← sb_solve backend k m limit; validate_backend_result m result;; Ok result)).
  { apply no_fuel_bind; [apply Hb|]. intros r _. apply no_fuel_bind; [apply validate_result_ends|done]. }
  destruct (result ← _; _) as [r|e]; [done|]. by intros [= ->].
Qed.

Lemma solve_and_lock_ends st o : ends (solve_and_lock backend limit st o).
Proof. unfold solve_and_lock. apply ends_bind; [apply solve_checked_ends|]. intros r _. solver_free. Qed.

Lemma solve_master_ends compiled : ends (solve_master_lexicographically backend limit compiled).
Proof.
  pose proof solve_and_lock_ends as Hl. unfold solve_master_lexicographically.
  apply ends_bind; [apply ends_fold; intros acc o _|intros out _; apply ends_bind; [apply ends_fold; intros acc i _|intros; solver_free]].
  - unfold leading_step. destruct acc as [|[? ?]]; [solver_free|]. apply ends_bind; [apply Hl|]. intros; solver_free.
  - unfold tie_step. destruct acc as [|[? ?]]; [solver_free|]. apply ends_bind; [solver_free|]. intros v _.
    apply ends_bind; [apply Hl|]. intros [r st] _. destruct (negb _); [solver_free|].
    apply ends_bind; [solver_free|]. intros w _. destruct (w =? 0); [solver_free|].
    apply ends_bind; [solver_free|]. intros q _. apply ends_bind; [apply Hl|]. intros; solver_free.
Qed.

Lemma reachable_ends p active required : ends (reachable_action_releases backend limit p active required).
Proof.
  unfold reachable_action_releases. apply ends_bind; [apply ends_lift, compile_terminal_ends|]. intros m _.
  apply ends_bind; [apply ends_fold; intros acc s _|solver_free]. unfold reach_state. destruct (negb _); [solver_free|].
  apply ends_fold. intros acc' t _. unfold reach_atom. apply ends_bind; [solver_free|]. intros r _.
  apply ends_bind; [apply solve_checked_ends|solver_free].
Qed.

Lemma seed_ends p : ends (deterministic_allowed_scenario backend limit p).
Proof.
  unfold deterministic_allowed_scenario. apply ends_bind; [apply ends_lift, compile_terminal_ends|]. intros m _.
  apply ends_bind; [apply ends_fold; intros acc s _|intros; solver_free]. unfold seed_state. destruct acc as [|[atoms m']]; [solver_free|].
  apply ends_bind; [|intros; solver_free]. induction (sort_on ta_atom_id (ts_atoms s)) as [|t l IH]; cbn [seed_atoms]; [solver_free|].
  apply ends_bind; [apply solve_checked_ends|]. intros r _. destruct (br_status r); solver_free.
Qed.

Lemma minimize_ends p qs payout cost d max : wf_problem p → ends (minimize_support backend limit p qs payout cost d max).
Proof.
  intros Hwf. unfold minimize_support. apply ends_bind; [solver_free|]. intros contracts _.
  apply ends_bind.
  { apply ends_lift. destruct (support_closure_correct p Hwf (list_to_set contracts)) as (R & C & E & _). by rewrite E. }
  intros closure _. apply ends_bind; [apply ends_lift, failed_ids_ends|]. intros base _.
  apply ends_bind; [apply ends_fold; intros acc i _|intros out _; solver_free]. unfold recheck. destruct acc as [|[active n]]; [solver_free|].
  destruct (max <=? n); [solver_free|]. apply ends_bind; [apply ends_lift, compile_adversary_ends|]. intros ad _.
  apply ends_bind; [apply solve_checked_ends|]. intros r _. destruct (negb _); [solver_free|].
  apply ends_bind; [apply ends_lift, objective_activity_ends|]. intros v _.
  apply ends_bind; [apply reachable_ends|]. intros rel _. destruct rel; [solver_free|].
  apply ends_bind; [solver_free|]. intros times _. apply ends_bind; [solver_free|]. intros t _. apply ends_bind; [|solver_free].
  apply ends_lift. destruct (_ && _); [|done]. apply no_fuel_bind; [apply failed_ids_ends|done].
Qed.

(** ** The rounds *)

Lemma split_ends p ev graph :
  selection p (pe_quantities ev) → Forall (λ e, Forall (.∈ sg_contract_ids graph) e) (sg_hyperedges graph).*2 →
  no_fuel (split_disconnected_solution p ev graph).
Proof. intros H1 H2. destruct (split_correct p ev graph H1 H2) as [(? & ? & -> & _)| ->]; done. Qed.

Lemma minimize_edges p qs payout cost d max graph n :
  returns (minimize_support backend limit p qs payout cost d max) (inr (graph, n)) →
  Forall (λ e, Forall (.∈ sg_contract_ids graph) e) (sg_hyperedges graph).*2.
Proof.
  intros (contracts & _ & (closure & _ & (base & _ & (out & _ & Hr)%returns_bind)%returns_bind)%returns_bind)%returns_bind.
  destruct out as [reason|[active m]]; [by apply returns_ret in Hr|]. apply returns_bind in Hr as (edges & Hed%returns_lift & [= -> ->]%returns_ret).
  simpl. apply mapM_Ok, Forall2_length in Hed. rewrite snd_zip by lia. apply Forall_forall. intros e He. apply Forall_forall. intros c Hc.
  apply elem_of_sorted_elements, elem_of_union. right. apply elem_of_list_to_set. by eapply elem_of_mjoin_intro.
Qed.

Section round.
Context `{Sha256} (p : ArbitrageProblem) (mode : SearchMode) (max_rounds max_rechecks : Z).
Context (component : RelationComponent) (profile : ReleaseProfile).
Context (Hsorted : StronglySorted (λ i j, String.leb i j = true) (rl_action_ids component)).

Lemma confirmed_ends st excluded status qs payout cost sc :
  wf_problem p → selection p qs →
  ends (confirmed backend limit p mode max_rechecks profile st excluded status qs payout cost sc).
Proof.
  intros Hwf Hsel. unfold confirmed. apply ends_bind; [solver_free|]. intros profit _.
  apply ends_bind; [apply ends_lift, failed_ids_ends|]. intros ids _. destruct ids; [|solver_free].
  apply ends_bind; [by apply minimize_ends|]. intros [reason|[graph n]] Hmin; [solver_free|].
  apply ends_bind; [apply ends_lift, cut_ends|]. intros cut _.
  apply ends_bind; [apply ends_lift, split_ends; [done|by eapply minimize_edges]|]. intros groups _. solver_free.
Qed.

Lemma challenge_ends st excluded cm r closed :
  compile_master p component profile (gs_cuts st) excluded = Ok cm → feasible (cm_model cm) (result_point r) →
  ends (challenge backend limit p mode max_rechecks profile (add_round st) excluded cm r closed).
Proof.
  intros (actions & nogoods & cost & terms & bounds & cc & extra & qual & MP)%compile_master_inv Hr.
  unfold challenge. apply ends_bind; [solver_free|]. intros qs Hqs%returns_lift.
  apply ends_bind; [apply ends_lift, compile_adversary_ends|]. intros ad _.
  apply ends_bind; [apply solve_checked_ends|]. intros ar _. destruct (negb _); [solver_free|].
  apply ends_bind; [solver_free|]. intros sc _. apply ends_bind; [apply ends_lift, objective_activity_ends|]. intros payout _.
  apply ends_bind; [solver_free|]. intros promised _. destruct (payout <? promised).
  { apply ends_bind; [apply ends_lift, cut_ends|]. solver_free. }
  destruct (negb _); [solver_free|]. apply ends_bind; [solver_free|]. intros c _. apply confirmed_ends.
  - by eapply mp_wf.
  - rewrite (master_quantities_at p component profile _ excluded cm actions nogoods cost terms bounds cc extra qual MP r qs Hqs).
    eapply candidate_selection; [exact Hsorted|exact MP|]. eapply master_rows_point; [exact MP|]. by eapply feasible_master.
Qed.

Lemma generation_step_ends st excluded :
  ends (generation_step backend limit p mode max_rounds max_rechecks component profile st excluded).
Proof.
  unfold generation_step. destruct (max_rounds <=? _); [solver_free|].
  apply ends_bind; [apply ends_lift, compile_master_ends|]. intros cm Hcm%returns_lift.
  apply ends_bind; [apply solve_master_ends|]. intros [r closed] Hm.
  pose proof (compile_master_inv _ _ _ _ _ _ Hcm) as (actions & nogoods & cost & terms & bounds & cc & extra & qual & MP).
  apply solve_master_spec in Hm; [|by eapply master_nonempty].
  destruct (br_status r) eqn:E; [| |solver_free|solver_free];
    (apply challenge_ends; [done|]; apply (ma_point _ _ _ _ Hm); by rewrite E).
Qed.

(** A repetition spends a round. *)
Lemma confirmed_again st excluded status qs payout cost sc st' excluded' :
  returns (confirmed backend limit p mode max_rechecks profile st excluded status qs payout cost sc) (Again st' excluded') →
  gs_master_rounds st' = gs_master_rounds st.
Proof.
  unfold confirmed. intros (profit & _ & (ids & _ & Hn)%returns_bind)%returns_bind. destruct ids; [|by apply returns_ret in Hn as [= -> ->]].
  apply returns_bind in Hn as ([reason|[graph n]] & _ & Hn); [by apply returns_ret in Hn|].
  apply returns_bind in Hn as (cut & _ & (groups & _ & Hn)%returns_bind).
  destruct (1 <? length groups)%nat; [by apply returns_ret in Hn as [= -> ->]|].
  destruct (bool_decide (mode = ADMISSION)); [by apply returns_ret in Hn|]. by apply returns_bind in Hn as (b & _ & Hn%returns_ret).
Qed.

Lemma generation_step_again st excluded st' excluded' :
  returns (generation_step backend limit p mode max_rounds max_rechecks component profile st excluded) (Again st' excluded') →
  gs_master_rounds st < max_rounds ∧ gs_master_rounds st' = gs_master_rounds st + 1.
Proof.
  unfold generation_step. destruct (max_rounds <=? gs_master_rounds st) eqn:Emax; [by intros ?%returns_ret|].
  intros (cm & _ & ([r closed] & _ & Hn)%returns_bind)%returns_bind. bool_prop. split; [done|].
  destruct (br_status r); [| |by apply returns_ret in Hn|by apply returns_ret in Hn];
    (unfold challenge in Hn; apply returns_bind in Hn as (qs & _ & (ad & _ & (ar & _ & Hn)%returns_bind)%returns_bind);
     destruct (negb _) in Hn; [by apply returns_ret in Hn|];
     apply returns_bind in Hn as (sc & _ & (payout & _ & (promised & _ & Hn)%returns_bind)%returns_bind);
     destruct (payout <? promised);
       [apply returns_bind in Hn as (cut & _ & Hn); destruct (existsb _ _) in Hn;
         [by apply returns_ret in Hn|by apply returns_ret in Hn as [= -> ->]]|];
     destruct (negb _) in Hn; [by apply returns_ret in Hn|];
     apply returns_bind in Hn as (c & _ & Hn); by apply confirmed_again in Hn).
Qed.

(** The rounds of the limits suffice. *)
Lemma profile_loop_ends fuel st excluded :
  (Z.to_nat (max_rounds - gs_master_rounds st) < fuel)%nat →
  ends (profile_loop backend limit fuel p mode max_rounds max_rechecks component profile st excluded).
Proof.
  revert st excluded. induction fuel as [|fuel IH]; intros st excluded Hf; [lia|]. cbn [profile_loop].
  apply ends_bind; [apply generation_step_ends|]. intros [e phases|st' excluded'|st'] Hn; [solver_free| |solver_free].
  apply generation_step_again in Hn as [H1 H2]. apply IH. lia.
Qed.

Lemma profile_step_ends acc : ends (profile_step backend limit p mode max_rounds max_rechecks component acc profile).
Proof. unfold profile_step. destruct acc; [solver_free|]. apply profile_loop_ends. unfold round_fuel. lia. Qed.
End round.

Lemma generate_ends `{Sha256} rq max_rounds : ends (generate backend limit rq max_rounds).
Proof.
  unfold generate. apply ends_bind; [apply reachable_ends|]. intros rel Hrel. destruct rel as [|releases]; [solver_free|].
  assert (∃ m, compile_terminal (searched_problem rq) None = Ok m) as (m & Hm).
  { apply returns_bind in Hrel as (m & Hm%returns_lift & _). by exists m. }
  pose proof (reach_wf _ None m Hm) as Hwf.
  apply ends_bind; [apply seed_ends|]. intros seed _. destruct seed as [|seed]; [solver_free|].
  apply ends_bind; [apply ends_lift, cut_ends|]. intros cut _.
  apply ends_bind; [apply ends_lift; by apply build_components_ends|]. intros comps Hcomps%returns_lift.
  apply ends_bind; [|intros out _; unfold finish; solver_free].
  apply ends_fold. intros acc c Hc. unfold component_search. destruct acc as [|st]; [solver_free|].
  apply ends_bind; [apply ends_lift, release_profiles_ends|]. intros profiles _. apply ends_fold. intros acc' profile _.
  apply profile_step_ends. by eapply component_actions_sorted.
Qed.

Lemma solve_ends `{Sha256} rq limits :
  bl_soft_time_limit_ms limits = limit → no_fuel (solve_with_constraint_generation rq backend limits).
Proof.
  intros El. unfold solve_with_constraint_generation. rewrite El. destruct (request_failure rq); [done|].
  pose proof (generate_ends rq (bl_max_constraint_generation_rounds limits) 0%nat) as Hg.
  destruct (run_from _ 0) as [[out k]|e]; [done|]. destruct e; try done.
Qed.
End backend.
