(* ===== verification/ResolveCorrect.v ===== *)
(** * The resolver, step by step

    The execution legs of a portfolio on a priced problem; what a qualified
    verification result says about the problem its evidence names; what the
    resolver knows when it funds a market solution. *)

From S2P Require Import Prelude PyValue NLeg NLegForms NLegValidate NLegWf NLegFormsCorrect IsoFormat IsoFormatCorrect Decode DecodeCorrect Decimal DecimalCorrect Oracle OracleScenario OracleEval OracleQualify Support SupportCorrect Search SearchCorrect PartialFill FillProof LinearModel Generation Evidence Verified DecodeInverse Quotes QuotesCorrect Receipts BatchStore Repair Reconcile Entry EntryCorrect PricedCorrect Resolve.
Local Open Scope Z_scope.

(** ** Execution legs *)

Section legs.
Context `{Sha256}.
Context (c : VerifiedComponent) (books : list ImmutableBook) (now : datetime).
Context (p : ArbitrageProblem) (quotes : list CanonicalQuoteEvidence).
Context (Hwf : wf_problem (vc_problem c)) (Hp : priced c books now p quotes) (Hpw : wf_problem p).

Lemma selection_single qs q : selection p qs → q ∈ qs → selection p [q].
Proof.
  intros [_ Hk _] Hq. rewrite Forall_forall in Hk. split; [apply NoDup_singleton| |repeat constructor].
  apply Forall_cons. split; [by apply Hk|constructor].
Qed.

Lemma cost_upper_bound_safe qs q : selection p qs → q ∈ qs → safe [OverflowError] (cost_upper_bound p [q]).
Proof.
  intros Hs Hq. assert (Hs1 := selection_single _ _ Hs Hq). unfold cost_upper_bound.
  rewrite (proj2 (require_valid_Ok p tt) Hpw), (selected_quantities_id p [q] Hpw Hs1). cbn [mbind res_bind].
  apply safe_cost; [set_solver|done..].
Qed.

(** The legs of a selection walk the visible asks of every quantity; only the
    64-bit range can stop them. *)
Lemma execution_legs_ok qs : selection p qs →
  match execution_legs p qs quotes with
  | Ok legs => Forall2 (leg_ok p quotes) qs legs
  | Err e => e = OverflowError
  end.
Proof.
  intros Hs. assert (Hone : ∀ q, q ∈ qs →
    match execution_leg p (index_by ca_action_id (pb_actions p)) (index_by cq_action_id quotes) q with
    | Ok leg => leg_ok p quotes q leg | Err e => e = OverflowError end).
  { intros q Hq. pose proof (sel_known _ _ Hs) as Hk. rewrite Forall_forall in Hk.
    destruct (Hk q Hq) as (a & [Ha Hid]%index_by_elem & Hrange & Hpos).
    pose proof (execution_leg_ok c books now p quotes Hwf Hp a q Hpw Ha Hid Hrange Hpos) as Hleg.
    pose proof (cost_upper_bound_safe qs q Hs Hq) as Hsafe.
    destruct (cost_upper_bound p [q]) as [cost|e]; [by destruct Hleg as (leg & -> & ?)|].
    rewrite Hleg. by apply list_elem_of_singleton in Hsafe. }
  clear Hs. unfold execution_legs. induction qs as [|q qs IH]; [constructor|]. cbn [mapM].
  pose proof (Hone q ltac:(set_solver)) as Hq. destruct (execution_leg _ _ _ q) as [leg|e]; [|done]. cbn [mbind res_bind].
  specialize (IH ltac:(intros; apply Hone; set_solver)). destruct (mapM _ qs) as [legs|e]; [by constructor|done].
Qed.
End legs.

(** ** Verification *)

Section verification.
Context `{Sha256}.

Lemma as_value_error_inv {A} prefix (m : res A) v : as_value_error prefix m = Ok v → m = Ok v.
Proof. unfold as_value_error. destruct m as [a|e]; [done|]. by destruct (is_value_or_type_error e). Qed.

Lemma result_payload_inv r v : result_payload r = Ok v → v = verification_json r.
Proof.
  unfold result_payload. intros (r' & Hr & Hc)%bind_Ok. assert (r' = r) as ->.
  { revert Hr. unfold verification_result. repeat (intros HR; apply bind_Ok in HR as (? & _ & HR); revert HR). by intros [= <-]. }
  unfold canonical in Hc. by apply bind_Ok in Hc as (_ & _ & [= <-]).
Qed.

(** The answer of [verify] is the payload of a result, and a qualified result
    comes from evaluating the candidate of the evidence. *)
Definition verified_from (payload : json) (r : VerificationResult) : Prop :=
  vr_status r = QUALIFIED_VERIFIED →
  ∃ c candidate ev s, candidate_evidence_from_payload payload = Ok c ∧ se_candidate (cv_solver_evidence c) = Some candidate ∧
    check_candidate c candidate = Ok (inr (ev, s)) ∧ pe_failed_qualification_ids ev = [] ∧ vr_solution r = Some s.

Lemma verify_candidate_inv payload c v : candidate_evidence_from_payload payload = Ok c → verify_candidate c = Ok v →
  ∃ r, v = verification_json r ∧ verified_from payload r.
Proof.
  intros Hc. unfold verify_candidate. destruct (se_candidate (cv_solver_evidence c)) as [candidate|] eqn:Ecand.
  2: { intros ->%result_payload_inv. eexists. split; [done|]. intros [=]. }
  destruct (check_candidate c candidate) as [[reason|[ev s]]|e] eqn:Echeck.
  - intros ->%result_payload_inv. eexists. split; [done|]. intros [=].
  - destruct (pe_failed_qualification_ids ev) as [|i l] eqn:Ef; intros ->%result_payload_inv; eexists; (split; [done|]); intros [=].
    by exists c, candidate, ev, s.
  - destruct (is_oracle_error e); [|done]. intros ->%result_payload_inv. eexists. split; [done|]. intros [=].
Qed.

Lemma verify_component_inv i payload v : verify_component i = Ok v → ∃ r, v = verification_json r ∧ verified_from payload r.
Proof.
  unfold verify_component. intros (result & _ & (model & _ & Hv)%bind_Ok)%bind_Ok.
  destruct (or_negative_proof result); apply result_payload_inv in Hv as ->; eexists; (split; [done|]); intros [=].
Qed.

Lemma verification_result_id r r' : verification_result r = Ok r' → r' = r.
Proof.
  unfold verification_result. repeat (intros HR; apply bind_Ok in HR as (? & _ & HR); revert HR). by intros [= <-].
Qed.

Lemma invalid_unknown_inv payload r : invalid_unknown payload = Ok r → vr_status r = VERIFICATION_UNKNOWN.
Proof.
  unfold invalid_unknown. destruct (salvage payload) as [r'|e] eqn:Es.
  - intros [= <-]. revert Es. unfold salvage. repeat (intros HR; apply bind_Ok in HR as (? & _ & HR); revert HR).
    by intros [= <-].
  - destruct (is_value_error e); [|done]. by intros ->%verification_result_id.
Qed.

Lemma verify_inv payload v : verify payload = Ok v → ∃ r, v = verification_json r ∧ verified_from payload r.
Proof.
  unfold verify. set (answer := match field payload "schema_version" with JStr _ => _ | _ => _ end).
  assert (Ha : ∀ w, answer = Ok w → ∃ r, w = verification_json r ∧ verified_from payload r).
  { assert (Hcand : ∀ w, (c ← candidate_evidence_from_payload payload; verify_candidate c) = Ok w →
      ∃ r, w = verification_json r ∧ verified_from payload r).
    { intros w (c & Hc & Hw)%bind_Ok. by eapply verify_candidate_inv. }
    intros w. unfold answer. destruct (field payload "schema_version") as [| | |s| |]; try apply Hcand.
    destruct (s =? PROOF_REQUEST_SCHEMA_V1)%string; [|apply Hcand]. intros (i & _ & Hw)%bind_Ok. by eapply verify_component_inv. }
  destruct answer as [w|e]; [intros [= <-]; by apply Ha|]. destruct (is_value_or_type_error e); [|done].
  intros (r & Hr%invalid_unknown_inv & Hc)%bind_Ok. unfold canonical in Hc. apply bind_Ok in Hc as (_ & _ & [= <-]).
  exists r. split; [done|]. intros E. by rewrite Hr in E.
Qed.

(** *** What the payloads are about *)

Lemma proof_input_id i i' : proof_input i = Ok i' → i' = i.
Proof. unfold proof_input. repeat (intros HR; apply bind_Ok in HR as (? & _ & HR); revert HR). by intros [= <-]. Qed.

Lemma candidate_evidence_id c c' : candidate_evidence c = Ok c' → c' = c.
Proof. unfold candidate_evidence. repeat (intros HR; apply bind_Ok in HR as (? & _ & HR); revert HR). by intros [= <-]. Qed.

Definition sorted_request (r : OracleRequest) : OracleRequest := {|
  rq_schema_version := rq_schema_version r; rq_mode := rq_mode r; rq_problem := sorted_problem (rq_problem r);
  rq_budget := rq_budget r |}.

Lemma proof_input_inv i v : Forall valid_datetime (input_datetimes i) → proof_input_from_payload (proof_input_json i) = Ok v →
  pi_request v = sorted_request (pi_request i).
Proof.
  intros Hd HR. unfold proof_input_from_payload in HR. undecode HR. apply as_value_error_inv in HR.
  undecode_with ltac:(fun Hv => apply request_inv in Hv; [|done]) HR. apply proof_input_id in HR. by subst v.
Qed.

Lemma candidate_evidence_inv c v : Forall valid_datetime (input_datetimes (cv_proof_input c)) →
  candidate_evidence_from_payload (candidate_evidence_json c) = Ok v →
  pi_request (cv_proof_input v) = sorted_request (pi_request (cv_proof_input c)).
Proof.
  intros Hd HR. unfold candidate_evidence_from_payload in HR. undecode HR. apply as_value_error_inv in HR. undecode HR.
  apply candidate_evidence_id in HR. subst v. simpl.
  match goal with HR : proof_input_from_payload _ = Ok _ |- _ => by apply proof_input_inv in HR end.
Qed.

Lemma optional_of_Some {A B} (decode : json → res A) (encode : B → json) o v :
  (∀ x, encode x ≠ JNull) → optional_of decode (jopt encode o) = Ok (Some v) → ∃ x, o = Some x ∧ decode (encode x) = Ok v.
Proof.
  intros Hn. destruct o as [x|]; simpl; [|done]. intros HR. exists x. split; [done|]. pose proof (Hn x).
  destruct (encode x); simpl in HR; try done; by apply bind_Ok in HR as (y & Hy & [= <-]).
Qed.

Lemma verification_status_of_json s n : verification_status_of (JStr (verification_status_value s)) n = Ok s.
Proof. by destruct s. Qed.

Lemma verification_inv r src v :
  verification_result_from_payload (verification_json r) src = Ok v →
  vr_status v = vr_status r ∧
  ∀ s', vr_solution v = Some s' → ∃ s, vr_solution r = Some s ∧ solution_from_payload (solution_json s) = Ok s'.
Proof.
  intros HR. unfold verification_result_from_payload in HR. undecode HR. apply as_value_error_inv in HR.
  undecode_with ltac:(fun Hv => (apply (enum_inv _ _ _ _ _ verification_status_of_json) in Hv) ||
    (apply verification_result_id in Hv)) HR.
  subst v. simpl. split; [done|]. intros s' ->.
  match goal with HR : optional_of solution_from_payload _ = Ok _ |- _ => by apply optional_of_Some in HR end.
Qed.

(** *** A qualified result is a sound evaluation *)

Lemma release_known p qs ev d :
  evaluation_sound p qs ev → pe_conservative_capital_release_at ev = Some d → d ∈ problem_datetimes p.
Proof.
  intros Hev E. destruct (es_release _ _ _ Hev) as (d' & E' & (ω & a & Hal & Ha & _ & Er) & _). assert (d' = d) as -> by congruence.
  pose proof (es_wf _ _ _ Hev) as Hwf. pose proof (wf_action_contracts _ Hwf a Ha) as (s & Es & Hs)%list_elem_of_fmap.
  unfold problem_datetimes. right. apply elem_of_app. right. apply list_elem_of_bind. exists s. split; [|done].
  apply elem_of_app. right. apply list_elem_of_omap. exists (ω (ca_market_contract_id a)). split; [|done].
  rewrite Es. by apply (al_outcome _ _ Hal).
Qed.

(** What the resolver relies on. *)
Record certified_by (p : ArbitrageProblem) (s : PortfolioSolution) (ev : PortfolioEvaluation) : Prop := {
  cb_sound : ∃ qs, evaluation_sound p qs ev;
  cb_qualified : pe_failed_qualification_ids ev = [];
  cb_quantities : ps_quantities s = pe_quantities ev;
  cb_payout : pp_payout_lower_bound_units (ps_payout_proof s) = Some (pe_payout_lower_bound_units ev);
  cb_cost : pp_cost_upper_bound_units (ps_payout_proof s) = Some (pe_cost_upper_bound_units ev);
  cb_profit : pp_guaranteed_profit_units (ps_payout_proof s) = Some (pe_guaranteed_profit_units ev);
  cb_release : pp_conservative_capital_release_at (ps_payout_proof s) = pe_conservative_capital_release_at ev;
}.

Lemma check_candidate_inv c candidate ev s :
  check_candidate c candidate = Ok (inr (ev, s)) → pe_failed_qualification_ids ev = [] →
  certified_by (rq_problem (pi_request (cv_proof_input c))) s ev.
Proof.
  unfold check_candidate. intros (ev' & Hev & (support & _ & HR)%bind_Ok)%bind_Ok Hf. destruct support as [reason|graph]; [done|].
  apply bind_Ok in HR as (s' & Hb & [= -> ->]). apply build_solution_inv in Hb as (Hq & fp & Hpr).
  split; try rewrite Hpr; try done. exists (pc_quantities candidate). by eapply evaluate_sound.
Qed.

Lemma qualified_verification evidence payload verified r s :
  let p := sorted_problem (rq_problem (pi_request (cv_proof_input evidence))) in
  Forall valid_datetime (input_datetimes (cv_proof_input evidence)) →
  canonical (candidate_datetimes evidence) (candidate_evidence_json evidence) = Ok payload →
  verify payload = Ok verified → verification_result_from_payload verified (CandidateSource evidence) = Ok r →
  vr_status r = QUALIFIED_VERIFIED → vr_solution r = Some s →
  ∃ ev, certified_by p s ev.
Proof.
  intros p Hd Hcan (r0 & -> & Hfrom)%verify_inv Hr Hst Hsol. unfold canonical in Hcan. apply bind_Ok in Hcan as (_ & _ & [= <-]).
  apply verification_inv in Hr as [Est Hdec]. rewrite Hst in Est. destruct (Hfrom (eq_sym Est)) as (c & candidate & ev & s0 & Hc & _ & Hch & Hf & Hs0).
  destruct (Hdec s Hsol) as (s1 & Hs1 & Hs). assert (s1 = s0) as -> by congruence.
  apply check_candidate_inv in Hch; [|done]. apply candidate_evidence_inv in Hc; [|done]. rewrite Hc in Hch. simpl in Hch. fold p in Hch.
  destruct Hch as [(qs & Hev) ? Hq ? ? ? Hrel]. exists ev. apply solution_inv in Hs as (Hsq & [? ? ? ?]).
  - split; [by exists qs|done| |congruence..]. rewrite Hsq, Hq. apply sort_on_id, (es_selection _ _ _ Hev).
  - unfold proof_datetimes. rewrite Hrel. destruct (pe_conservative_capital_release_at ev) as [d|] eqn:E; [|constructor].
    apply Forall_singleton. pose proof (release_known _ _ _ _ Hev E) as Hin.
    unfold p in Hin. rewrite (problem_datetimes_sorted _) in Hin. unfold input_datetimes in Hd. rewrite Forall_forall in Hd. auto.
Qed.
End verification.

(** ** Solve, verify, fund *)

Section resolve.
Context `{Sha256}.

Lemma sorted_datetimes p : Forall valid_datetime (problem_datetimes p) → Forall valid_datetime (problem_datetimes (sorted_problem p)).
Proof. by rewrite problem_datetimes_sorted. Qed.

Lemma solve_inv backend i solved : Forall valid_datetime (input_datetimes i) → solve backend (proof_input_json i) = Ok solved →
  ∃ c, solved = candidate_evidence_json c ∧ rq_problem (pi_request (cv_proof_input c)) = sorted_problem (rq_problem (pi_request i)).
Proof.
  intros Hd. unfold solve. intros (i' & Hi & (evidence & _ & Hs)%bind_Ok)%bind_Ok. apply proof_input_inv in Hi; [|done].
  unfold evidence_payload in Hs. apply bind_Ok in Hs as (model & _ & (c & Hc%candidate_evidence_id & Hs)%bind_Ok).
  unfold canonical in Hs. apply bind_Ok in Hs as (_ & _ & [= <-]). exists c. split; [done|]. rewrite Hc. simpl. by rewrite Hi.
Qed.

Lemma prove_certified backend i evidence v s :
  Forall valid_datetime (input_datetimes i) → prove backend i = Ok (evidence, v) → vr_status v = QUALIFIED_VERIFIED →
  vr_solution v = Some s → ∃ ev, certified_by (sorted_problem (rq_problem (pi_request i))) s ev.
Proof.
  intros Hd. unfold prove, canonical. intros (payload & Hp & HR)%bind_Ok Hst Hsol. apply bind_Ok in Hp as (_ & _ & [= <-]).
  apply bind_Ok in HR as (solved & (c & -> & Ec)%solve_inv & HR); [|done].
  assert (Hdc : Forall valid_datetime (input_datetimes (cv_proof_input c))).
  { unfold input_datetimes. rewrite Ec. by apply sorted_datetimes. }
  apply bind_Ok in HR as (e & He & (payload & Hcan & (verified & Hver & (w & Hw & [= <- <-])%bind_Ok)%bind_Ok)%bind_Ok).
  apply candidate_evidence_inv in He; [|done]. assert (Ee : rq_problem (pi_request (cv_proof_input e)) = sorted_problem (rq_problem (pi_request i))).
  { rewrite He. simpl. by rewrite Ec, sorted_problem_idemp. }
  pose proof (qualified_verification e payload verified w s) as Hq. cbv zeta in Hq. rewrite Ee, sorted_problem_idemp in Hq.
  eapply Hq; try done. unfold input_datetimes. rewrite Ee. by apply sorted_datetimes.
Qed.

(** *** The qualifications of a priced problem *)

(** What a funded portfolio guarantees on a problem [P], at time [now]: in every
    allowed outcome it earns the profit threshold and one percent of its cost;
    its capital is back within thirty days, at fifteen percent a year. *)
Record guaranteed (P : ArbitrageProblem) (now : datetime) (usd : Z) (qs : list ActionQuantity) (cost : Z) : Prop := {
  gu_profit : ∀ ω, allowed P ω → cost + usd ≤ realized_payout P ω qs;
  gu_return : 0 < cost ∧ ∀ ω, allowed P ω → cost ≤ 100 * (realized_payout P ω qs - cost);
  gu_release : ∃ d,
    (∀ ω a, allowed P ω → a ∈ pb_actions P → ca_action_id a ∈ aq_action_id <$> qs →
       ∃ t, ta_capital_release_at (ω (ca_market_contract_id a)) = Some t ∧ dt_us t ≤ dt_us d) ∧
    ceil_div (dt_us d - dt_us now) US_PER_SECOND ≤ 30 * 86400 ∧
    ∀ ω, allowed P ω →
      3 * cost * Z.max 1 (ceil_div (ceil_div (dt_us d - dt_us now) US_PER_SECOND) 86400)
      ≤ 20 * 365 * (realized_payout P ω qs - cost);
}.

Lemma qualification_holds p qs ev k :
  evaluation_sound p qs ev → pe_failed_qualification_ids ev = [] → k ∈ pb_qualification_constraints p →
  qualification_passes p k (pe_payout_lower_bound_units ev) (pe_cost_upper_bound_units ev) (pe_guaranteed_profit_units ev)
    (pe_conservative_capital_release_at ev) = Ok true.
Proof.
  intros Hev Hf Hk. destruct (es_failed _ _ _ Hev k Hk) as (b & -> & Hb). f_equal. apply Hb. rewrite Hf. apply not_elem_of_nil.
Qed.

(** The four thresholds of [_qualification_constraints], on an evaluation. *)
Lemma thresholds_hold c states ks p qs ev d :
  evaluation_sound p qs ev → pe_failed_qualification_ids ev = [] → pe_conservative_capital_release_at ev = Some d →
  qualification_constraints c states = Ok ks → pb_qualification_constraints p ≡ₚ ks →
  let profit := pe_guaranteed_profit_units ev in let cost := pe_cost_upper_bound_units ev in
  vc_usd_units_per_dollar c ≤ profit ∧ 0 < cost ∧ cost ≤ 100 * profit ∧
  3 * cost * Z.max 1 (ceil_div (ceil_div (dt_us d - dt_us (pb_as_of p)) US_PER_SECOND) 86400) ≤ 20 * 365 * profit ∧
  ceil_div (dt_us d - dt_us (pb_as_of p)) US_PER_SECOND ≤ 30 * 86400.
Proof.
  intros Hev Hf Hd Hk Hperm profit cost.
  unfold qualification_constraints in Hk. apply bind_Ok in Hk as (rule & _ & (_ & _ & [= <-])%bind_Ok).
  pose proof (λ k Hin, qualification_holds p qs ev k Hev Hf (proj2 (elem_of_Permutation_proper k _ _ Hperm) Hin)) as Hall.
  rewrite Hd in Hall. fold profit cost in Hall.
  pose proof (Hall _ ltac:(left)) as K1. pose proof (Hall _ ltac:(right; left)) as K2.
  pose proof (Hall _ ltac:(right; right; left)) as K3. pose proof (Hall _ ltac:(right; right; right; left)) as K4. clear Hall.
  unfold qualification_passes in K1, K2, K3, K4. cbn [qc_metric qc_comparison qc_threshold_numerator qc_threshold_denominator compare] in K1, K2, K3, K4.
  apply bind_Ok in K1 as (x1 & [-> _]%checked_Ok & [= K1]).
  change (0 <? 10000) with true in K2. cbn [andb] in K2. destruct (Z.leb_spec cost 0) as [|Hcost]; [done|].
  apply bind_Ok in K2 as (x2 & ->%checked_product_Ok & (y2 & [-> _]%checked_Ok & [= K2])%bind_Ok).
  apply bind_Ok in K3 as (days & ->%occupied_days_exact & (x3 & ->%checked_product_Ok & (y3 & ->%checked_product_Ok & [= K3])%bind_Ok)%bind_Ok).
  apply bind_Ok in K4 as (delay & ->%release_delay_exact & (x4 & [-> _]%checked_Ok & [= K4])%bind_Ok).
  cbn [foldr] in *. bool_prop. set (days := Z.max 1 _) in *. split_and!; [lia|lia|lia|lia|lia].
Qed.

(** *** From the verified problem back to the component *)

Section component.
Context (c : VerifiedComponent) (books : list ImmutableBook) (now : datetime).
Context (p : ArbitrageProblem) (quotes : list CanonicalQuoteEvidence).
Abbreviation P := (vc_problem c).
Context (Hwf : wf_problem P) (Hp : priced c books now p quotes).

Lemma priced_datetimes : Forall valid_datetime (now :: problem_datetimes P) → Forall valid_datetime (problem_datetimes p).
Proof.
  intros [Hnow [_ [Ha Hs]%Forall_app]%Forall_cons]%Forall_cons. rewrite Forall_forall in Ha, Hs. constructor.
  { by destruct (pr_now _ _ _ _ _ Hp) as [_ ->]. }
  apply Forall_app. split; apply Forall_forall; intros d (x & Hd & Hx)%list_elem_of_bind.
  - destruct (priced_action_origin _ _ _ _ _ Hp x Hx) as (a & q & Hin & _ & Hpr). apply Ha, list_elem_of_bind. exists a.
    split; [|done]. by rewrite (priced_facts _ _ _ Hwf _ _ _ Hin Hpr) in Hd.
  - rewrite (pr_states _ _ _ _ _ Hp) in Hx. apply list_elem_of_fmap in Hx as (s & -> & Hin). apply Hs, list_elem_of_bind. exists s.
    split; [|done]. apply elem_of_app in Hd as [?|(t & Ht & E)%list_elem_of_omap]; apply elem_of_app; [by left|right].
    apply list_elem_of_fmap in Ht as (t' & -> & Ht). apply list_elem_of_omap. eauto.
Qed.

(** A valid sorted form is enough: pricing broke nothing. *)
Lemma sorted_pricing_ok : wf_problem (sorted_problem p) → pricing_ok c now p quotes.
Proof.
  intros Hq. destruct (pr_now _ _ _ _ _ Hp) as [_ Enow]. pose proof (wf_states _ Hq) as Hst. rewrite Forall_forall in Hst.
  assert (Hin : ∀ s, s ∈ pb_terminal_state_sets P → sorted_state_set (restrict_payouts (available p) s) ∈ pb_terminal_state_sets (sorted_problem p)).
  { intros s Hs. apply DecodeCorrect.sorted_states. exists (restrict_payouts (available p) s). split; [done|].
    rewrite (pr_states _ _ _ _ _ Hp). by apply list_elem_of_fmap_2. }
  split.
  - intros s t d Hs Ht Hd. pose proof (ws_wf_atoms _ _ (Hst _ (Hin s Hs))) as Hats. rewrite Forall_forall in Hats.
    destruct (wt_release _ _ _ (Hats (sorted_atom (restricted_atom p t)) ltac:(simpl; apply elem_of_sort_on, list_elem_of_fmap_2, list_elem_of_fmap_2, Ht)))
      as (d' & Ed & _ & Hle). simpl in Ed, Hle. rewrite Enow in Hle. by simplify_eq.
  - intros k (s & -> & Hs)%list_elem_of_fmap. pose proof (ws_actions _ _ (Hst _ (Hin s Hs))) as Hne. intros E. apply Hne.
    apply Permutation_nil. rewrite <- E. symmetry. apply sorted_actions_of.
  - pose proof (wf_actions _ Hq) as Hall. rewrite Forall_forall in Hall. apply Forall_forall. intros q Hin'.
    assert (Hid : cq_action_id q ∈ available p) by (rewrite <- (priced_quote_ids c books now p quotes Hwf Hp); by apply list_elem_of_fmap_2).
    apply list_elem_of_fmap in Hid as (a & Ea & Ha). destruct (priced_quote c books now p quotes Hwf Hp a Ha) as (q' & Hq' & Esl & _).
    rewrite <- Ea in Hq'. apply index_by_lookup in Hq' as [Hq'in Hq'id]; [|rewrite (priced_quote_ids c books now p quotes Hwf Hp); apply (priced_ids_NoDup c books now p quotes Hwf Hp)].
    assert (q' = q) as ->.
    { apply (NoDup_key_eq cq_action_id quotes); [rewrite (priced_quote_ids c books now p quotes Hwf Hp); apply (priced_ids_NoDup c books now p quotes Hwf Hp)|done..]. }
    rewrite <- Esl. apply (wa_slices_int64 (sorted_problem p)), Hall. by apply DecodeCorrect.sorted_actions.
  - pose proof (pr_constraints _ _ _ _ _ Hp) as HR. unfold qualification_constraints in HR.
    apply bind_Ok in HR as (rule & Hr%of_option_Ok & (? & _ & [= Eq])%bind_Ok).
    pose proof (wf_qualifications _ Hq) as Hall. simpl in Hall. rewrite (sort_on_perm _ _), <- Eq in Hall.
    apply Forall_cons in Hall as [Hk _]. apply (wq_numerator _ Hk).
Qed.

(** A certified portfolio of the sorted priced problem guarantees its profit on
    the component. *)
Lemma certified_guaranteed s ev : certified_by (sorted_problem p) s ev →
  wf_problem p ∧ selection p (ps_quantities s) ∧ ps_quantities s ≠ [] ∧
  guaranteed P now (vc_usd_units_per_dollar c) (ps_quantities s) (portfolio_cost p (ps_quantities s)).
Proof.
  intros [(qs & Hev) Hf Hq Hpay Hcost Hprofit Hrel].
  assert (Hpw : wf_problem p) by (eapply priced_wf; [exact Hwf|exact Hp|by apply sorted_pricing_ok, (es_wf _ _ _ Hev)]).
  assert (Hsel : selection p (ps_quantities s)) by (rewrite Hq; eapply sorted_selection, (es_selection _ _ _ Hev); exact Hpw).
  split_and!; [done|done|rewrite Hq; apply Hev|].
  assert (Hall : ∀ ω, allowed P ω → pe_payout_lower_bound_units ev ≤ realized_payout P ω (ps_quantities s)).
  { intros ω Hω. rewrite <- (priced_realized c books now p quotes Hwf Hp ω _ Hsel).
    pose proof (priced_allowed c books now p quotes Hp ω Hω) as Hω'. rewrite <- (sorted_realized p Hpw _ _ (al_outcome _ _ Hω')), Hq.
    by apply (es_lower _ _ _ Hev), sorted_allowed. }
  destruct (es_release _ _ _ Hev) as (d & Ed & _ & Hlate).
  destruct (pr_now _ _ _ _ _ Hp) as [_ Enow].
  destruct (thresholds_hold c _ _ _ _ _ d Hev Hf Ed (pr_constraints _ _ _ _ _ Hp) (sort_on_perm _ _)) as (T1 & T2 & T3 & T4 & T5).
  assert (Ecost : pe_cost_upper_bound_units ev = portfolio_cost p (ps_quantities s)).
  { rewrite (es_cost _ _ _ Hev), Hq. by apply sorted_portfolio_cost. }
  pose proof (es_profit _ _ _ Hev) as Ep. cbn [pb_as_of sorted_problem] in T4, T5. rewrite Enow in T4, T5. rewrite <- Ecost. split.
  - intros ω Hω. specialize (Hall ω Hω). lia.
  - split; [done|]. intros ω Hω. specialize (Hall ω Hω). lia.
  - exists d. split_and!; [|done|intros ω Hω; specialize (Hall ω Hω); lia].
    intros ω a Hω Ha Hin. pose proof (priced_allowed c books now p quotes Hp ω Hω) as Hω'. pose proof (sorted_allowed p Hpw _ Hω') as Hω''.
    apply Hlate. rewrite Hq in Hin. apply list_elem_of_fmap in Hin as (x & Ex & Hx).
    pose proof (sel_known _ _ Hsel) as Hk. rewrite Hq, Forall_forall in Hk. destruct (Hk x Hx) as (a' & Ha' & _).
    destruct (priced_index c books now p quotes Hwf Hp _ _ Ha') as (b & Hb & Ect & _). apply index_by_elem in Hb as [Hb Hbid].
    assert (b = a) as -> by (apply (NoDup_key_eq ca_action_id (pb_actions P)); [apply (wf_action_ids _ Hwf)|done|done|congruence]).
    apply index_by_elem in Ha' as [Ha' Hid']. exists (sorted_atom ∘ (restricted_atom p ∘ ω)), a'. split_and!; [done|by apply DecodeCorrect.sorted_actions| |].
    + apply list_elem_of_fmap. eauto.
    + by rewrite <- Ect.
Qed.

(** *** Funding *)

(** What holds of an execution solution and the market solution it funds. *)
Record resolution_ok (account : option AccountSnapshot) (r : ResolutionResult) (s : ExecutionSolution) : Prop := {
  ro_funded : ∃ market a, rr_market_solution r = Some market ∧ account = Some a ∧ funded_ok market a now s ∧ ms_problem market = p;
  ro_valid : wf_problem p;
  ro_selection : selection p (xs_quantities s) ∧ xs_quantities s ≠ [];
  ro_capital : xs_capital_use_units s = portfolio_cost p (xs_quantities s);
  ro_legs : Forall2 (leg_ok p quotes) (xs_quantities s) (xs_execution_legs s);
  ro_guaranteed : guaranteed P now (vc_usd_units_per_dollar c) (xs_quantities s) (xs_capital_use_units s);
}.

Lemma market_solution_inv solution evidence v economic m :
  market_solution c p solution evidence v economic quotes = Ok m →
  ms_problem m = p ∧ ms_quantities m = ps_quantities solution ∧
  execution_legs p (ps_quantities solution) quotes = Ok (ms_execution_legs m).
Proof. unfold market_solution. by intros (? & _ & (legs & Hl & (fp & _ & [= <-])%bind_Ok)%bind_Ok)%bind_Ok. Qed.

Lemma fund_market m account r s :
  fund_fixed_solution m account now = Ok r → rr_execution_solution r = Some s → rr_market_solution r = Some m.
Proof.
  unfold fund_fixed_solution. intros HR Hs. repeat (
    match type of HR with
    | (_ ≫= _) = Ok _ => apply bind_Ok in HR as (? & _ & HR)
    | (match ?x with _ => _ end) = Ok _ => destruct x
    | (if ?x then _ else _) = Ok _ => destruct x
    | Ok _ = Ok _ => injection HR as <-
    end); try done.
Qed.

Lemma solve_and_fund_ok backend account limits budget economic r s :
  Forall valid_datetime (now :: problem_datetimes P) →
  solve_and_fund backend c account limits budget now p economic quotes = Ok r → rr_execution_solution r = Some s →
  resolution_ok account r s.
Proof.
  intros Hd HR Hs. unfold solve_and_fund in HR. apply bind_Ok in HR as (i & Hi & HR).
  unfold admission_input in Hi. apply bind_Ok in Hi as (quote & _ & ->%proof_input_id).
  destruct (prove _ _) as [[evidence v]|e] eqn:Ep; [|destruct (is_value_or_type_error e); [by injection HR as <-|done]].
  destruct (vr_status v) eqn:Est; [|by injection HR as <-..]. destruct (vr_solution v) as [solution|] eqn:Esol; [|by injection HR as <-].
  apply bind_Ok in HR as (m & Hm & HR). eapply prove_certified in Ep as (ev & Hcert); [|exact (priced_datetimes Hd)|exact Est|exact Esol].
  simpl in Hcert. destruct (certified_guaranteed _ _ Hcert) as (Hpw & Hsel & Hne & Hg).
  destruct (market_solution_inv _ _ _ _ _ Hm) as (Emp & Emq & Hlegs).
  destruct (fund_fixed_solution_ok m account now r s) as (a & Ea & Hok); [by rewrite Emp|done..|].
  pose proof (fd_quantities _ _ _ _ Hok) as [Eq El]. pose proof (fd_cost _ _ _ _ Hok) as Ec. rewrite Emp, Emq in Ec. rewrite Emq in Eq.
  pose proof (execution_legs_ok c books now p quotes Hwf Hp Hpw _ Hsel) as Hlo. rewrite Hlegs in Hlo.
  split; rewrite ?Eq, ?El, ?Ec; try done. exists m, a. split_and!; [by eapply fund_market|done..].
Qed.
End component.

Lemma resolve_component_ok backend c books account limits budget now r s :
  wf_problem (vc_problem c) → Forall valid_datetime (now :: problem_datetimes (vc_problem c)) →
  resolve_component backend c books account limits budget now None = Ok r → rr_execution_solution r = Some s →
  ∃ p economic quotes, problem_with_visible_asks c books now = Ok (Some (p, economic, quotes)) ∧
    resolution_ok c now p quotes account r s.
Proof.
  intros Hwf Hd HR Hs. unfold resolve_component in HR.
  destruct (problem_with_visible_asks c books now) as [[[[p economic] quotes]|]|e] eqn:Ep.
  - cbn [reuse_prior mbind res_bind] in HR. exists p, economic, quotes. split; [done|].
    eapply solve_and_fund_ok; try done. by eapply problem_with_visible_asks_ok.
  - by injection HR as <-.
  - destruct (is_book_error e); [by injection HR as <-|done].
Qed.
End resolve.
