(* ===== verification/ResolveSamples.v ===== *)
(** * A component, its books and an account

    Two contracts of which exactly one pays 3; each is asked at 0.40 on its
    venue.  The digest is the checksum of [Samples], padded to the 64
    hexadecimal digits the decoders ask for. *)

From S2P Require Import Prelude PyValue NLeg NLegForms Oracle Decimal LinearModel FillProof Generation Evidence Verified Quotes Repair Entry Resolve Samples ReferenceBackend.
Local Open Scope Z_scope.

#[export] Instance padded_sha : Sha256 := λ s, let d := pretty (checksum 0 s) in zeros (64 - String.length d) +:+ d.

Definition now : datetime := Datetime (dt_us as_of + 2 * US_PER_DAY) (Some 0).

Definition action_a : CandidateAction := sample_action "a" "A" "polymarket" 9 1.
Definition action_b : CandidateAction := sample_action "b" "B" "predict.fun" 9 1.

Definition pair_problem : ArbitrageProblem :=
  problem_of [action_a; action_b]
    [sample_state "A" "a" key 3 0; sample_state "B" "b" key 3 0] [exactly_one ["A"; "B"]] [] [].

Definition pair_binding (action venue : string) : BookBinding := {|
  bb_action_id := action; bb_venue_id := venue; bb_native_id := "token-" +:+ action; bb_book_kind := venue;
  bb_fee_rule_id := "fee-v1"; bb_fee_ppm := 0; bb_tick_units := 1; bb_haircut_ppm := 0;
  bb_price_units_per_quote_unit := 10; bb_market_id := "market-" +:+ action |}.

Definition pair_bindings : list BookBinding := [pair_binding "a" "polymarket"; pair_binding "b" "predict.fun"].

Definition pair_component : VerifiedComponent := {|
  vc_problem := pair_problem;
  vc_relation_fingerprint := match component_fingerprint pair_problem pair_bindings 1 with Ok f => f | Err _ => "" end;
  vc_usd_units_per_dollar := 1; vc_book_bindings := pair_bindings |}.

Definition ask (price size : Z) : BookLevel := {| lv_price := Finite false price (-2); lv_size := Finite false size (-2) |}.

Definition book_of (action venue : string) (book : VenueBook) : ImmutableBook := {|
  ib_action_id := action; ib_native_id := "token-" +:+ action; ib_book := book; ib_fee_ppm := 0; ib_tick_units := 1;
  ib_haircut_ppm := 0; ib_price_units_per_quote_unit := 10; ib_venue_id := venue; ib_fee_rule_id := "fee-v1" |}.

(** The book of [a] with the given asks, and the book of [b]. *)
Definition book_a (asks : list BookLevel) : ImmutableBook :=
  book_of "a" "polymarket" (Threshold {| tb_token_id := "token-a"; tb_asks := asks; tb_bids := []; tb_confirmed_at := now |}).
Definition book_b : ImmutableBook :=
  book_of "b" "predict.fun" (Predict {| pk_market_id := "market-b"; pk_yes_asks := [ask 40 100]; pk_no_asks := [];
                                        pk_source_timestamp := now; pk_received_at := now;
                                        pk_yes_token_id := "token-b"; pk_no_token_id := "" |}).

(** Half a contract, too little for a lot, and then one and a half. *)
Definition deep_asks : list BookLevel := [ask 40 50; ask 40 150].
Definition pair_books : list ImmutableBook := [book_a deep_asks; book_b].

Definition pair_limits : BenchmarkLimits := {|
  bl_soft_time_limit_ms := 100; bl_hard_time_limit_ms := 200; bl_memory_limit_bytes := 1000000;
  bl_max_constraint_generation_rounds := 20 |}.

Definition pair_account : AccountSnapshot := {|
  as_captured_at := now;
  as_balances := (λ v, {| ab_key := (v, "acct", MICRO_VALUATION_UNIT); ab_available_units := 10; ab_allowance_units := 10 |})
                   <$> ["polymarket"; "predict.fun"];
  as_max_per_trade_cost_units := 10; as_unsettled_capital_units := 0; as_max_total_unsettled_capital_units := 10 |}.

Definition resolve_pair (backend : SolverBackend) (prior : option MarketSolution) : res ResolutionResult :=
  resolve_component backend pair_component pair_books (Some pair_account) pair_limits sample_budget now prior.
