(* ===== verification/GenerationTheorems.v ===== *)
(** * Properties of the integer models and of constraint generation

    The settlement adversary compiled for a backend solver is the oracle's
    worst-case evaluation, and an answer of a backend is used only as far as
    exact integer arithmetic confirms it.  The master program has exactly the
    portfolios as its points; the loop of cuts reports only sound portfolios,
    misses none when it closes, and ends. *)

From S2P Require Import Prelude PyValue NLeg NLegForms NLegValidate NLegWf IsoFormat Decode UnionFind Oracle OracleScenario OracleEval OracleQualify Support Search SupportCorrect SplitCorrect SearchCorrect SearchTotal Components ComponentsCorrect LinearModel TerminalModel TerminalCorrect PartialFill FillCorrect FillProof Master Generation Samples MasterCorrect GenerationCorrect ReferenceBackend CandidateCorrect MasterComplete GenerationComplete GenerationLoop GenerationSearch GenerationTotal.
Local Open Scope Z_scope.

Lemma canonical_step_filter acts qs acc out :
  foldM (canonical_step acts) acc qs = Ok out → out.1 = acc.1 ++ filter (λ q, aq_quantity_lots q ≠ 0) qs.
Proof.
  revert acc; induction qs as [|q qs IH]; intros [selected seen]; cbn [foldM].
  { intros [= <-]. by rewrite app_nil_r. }
  intros ([selected' seen'] & Hq & ->%IH)%bind_Ok. unfold canonical_step in Hq.
  destruct (acts !! aq_action_id q) as [a|]; [|done]. apply bind_Ok in Hq as (? & _ & (? & _ & [= <- <-])%bind_Ok). simpl.
  rewrite filter_cons. destruct (aq_quantity_lots q =? 0) eqn:E; bool_prop.
  - by rewrite decide_False by lia.
  - rewrite decide_True by lia. by rewrite <- app_assoc.
Qed.

(** Both modules normalize a quantity vector the same way. *)
Lemma canonical_quantities_filter p qs sel :
  canonical_quantities p qs = Ok sel → sel = sort_on aq_action_id (filter (λ q, aq_quantity_lots q ≠ 0) qs).
Proof. intros ([l seen] & Hl%canonical_step_filter & [= <-])%bind_Ok. by simpl in Hl; subst. Qed.

(** C7: the adversary model is exact.  Every allowed settlement outcome is an
    integer point of it and every integer point is an allowed outcome, with
    the payout of the portfolio as objective value; with constraints switched
    off, the outcomes are those of the restricted problem. *)
Theorem adversary_model_exact p qs active ad o :
  compile_adversary p qs active = Ok ad → lm_objective (ad_model ad) = Some o →
  (∀ ω, allowed (restrict p active) ω →
     feasible (ad_model ad) (indicator p ω) ∧
     activity (indicator p ω) (lo_coefficients o) = realized_payout p ω (ad_quantities ad)) ∧
  (∀ x, feasible (ad_model ad) x →
     allowed (restrict p active) (outcome_at p x) ∧
     activity x (lo_coefficients o) = realized_payout p (outcome_at p x) (ad_quantities ad)).
Proof. apply adversary_exact. Qed.

Lemma adversary_model_exact_witness :
  ∃ ad o, compile_adversary cheap both None = Ok ad ∧ lm_objective (ad_model ad) = Some o ∧
    ∀ x, feasible (ad_model ad) x → allowed (restrict cheap None) (outcome_at cheap x) ∧
      activity x (lo_coefficients o) = realized_payout cheap (outcome_at cheap x) (ad_quantities ad).
Proof.
  run (compile_adversary cheap both None) (λ ad, present (lm_objective (ad_model ad))) as (ad & Had & (o & Ho)%some_with).
  exists ad, o. split_and!; [exact Had|exact Ho|]. exact (proj2 (adversary_model_exact cheap both None ad o Had Ho)).
Defined.

(** Solving the adversary is evaluating the portfolio: the minimum of the
    integer program is the payout bound of the exhaustive evaluation, and it
    is attained. *)
Theorem adversary_minimum `{Sha256} p qs budget ad o ev :
  compile_adversary p qs None = Ok ad → lm_objective (ad_model ad) = Some o →
  evaluate_fixed_portfolio p qs budget = Ok ev →
  ad_quantities ad = pe_quantities ev ∧
  (∀ x, feasible (ad_model ad) x → pe_payout_lower_bound_units ev ≤ activity x (lo_coefficients o)) ∧
  ∃ x, feasible (ad_model ad) x ∧ activity x (lo_coefficients o) = pe_payout_lower_bound_units ev.
Proof.
  intros Had Ho Hev. pose proof (evaluate_sound _ _ _ _ Hev) as Hs.
  destruct (adversary_exact p qs None ad o Had Ho) as [Hin Hout]. rewrite restrict_None in Hin, Hout.
  assert (Eq : ad_quantities ad = pe_quantities ev).
  { rewrite (es_quantities _ _ _ Hs). apply (canonical_quantities_filter p). unfold compile_adversary in Had.
    apply bind_Ok in Had as (sel & -> & (? & _ & (? & _ & (m & _ & (ts & _ & (? & _ & [= <-])%bind_Ok)%bind_Ok)%bind_Ok)%bind_Ok)%bind_Ok). done. }
  rewrite Eq in Hin, Hout. split_and!; [done| |].
  - intros x [Hω ->]%Hout. by apply (es_lower _ _ _ Hs).
  - destruct (es_worst _ _ _ Hs) as (ω & Hω & _ & ->). exists (indicator p ω). by apply Hin.
Qed.

Lemma adversary_minimum_witness :
  ∃ ad o ev, compile_adversary cheap both None = Ok ad ∧ lm_objective (ad_model ad) = Some o ∧
    evaluate_fixed_portfolio cheap both sample_budget = Ok ev ∧
    ∃ x, feasible (ad_model ad) x ∧ activity x (lo_coefficients o) = pe_payout_lower_bound_units ev.
Proof.
  run (compile_adversary cheap both None) (λ ad, present (lm_objective (ad_model ad))) as (ad & Had & (o & Ho)%some_with).
  run (evaluate_fixed_portfolio cheap both sample_budget) (λ _, true) as (ev & Hev & _).
  exists ad, o, ev. split_and!; [exact Had|exact Ho|exact Hev|].
  exact (proj2 (proj2 (adversary_minimum cheap both sample_budget ad o ev Had Ho Hev))).
Defined.

(** no claim of a backend is trusted.  A result that passes the check and
    claims a point is an integer point of the model, inside every bound and
    row, assigns exactly the model's variables, and reports the objective
    value of that point. *)
Theorem backend_result_sound m r u :
  validate_backend_result m r = Ok u → claims_point (br_status r) = true → lm_variables m ≠ [] →
  feasible m (result_point r) ∧
  (∀ v o, br_objective_value r = Some v → lm_objective m = Some o → v = activity (result_point r) (lo_coefficients o)) ∧
  ∀ n, n ∈ iv_name <$> lm_variables m ↔ is_Some (py_dict (br_values r) !! n).
Proof. apply validate_backend_result_sound. Qed.

(** [maximize x + 2y] with [x + y <= 3]. *)
Definition small_model : LinearModel :=
  linear_model [int_variable "x" 0 2; int_variable "y" 0 2]
    [linear_constraint "cap" [("x", 1); ("y", 1)] None (Some 3)] (Some (linear_objective MAX [("x", 1); ("y", 2)])).

Definition small_result : BackendResult := {|
  br_status := NATIVE_OPTIMAL; br_values := [("x", 1); ("y", 2)]; br_objective_value := Some 5;
  br_objective_bound := Some 5; br_native_status := "OPTIMAL"; br_solve_ns := 1 |}.

Lemma backend_result_sound_witness :
  validate_backend_result small_model small_result = Ok tt ∧ feasible small_model (result_point small_result).
Proof.
  assert (H : validate_backend_result small_model small_result = Ok tt) by (vm_compute; reflexivity).
  split; [exact H|]. exact (proj1 (backend_result_sound small_model small_result tt H eq_refl ltac:(discriminate))).
Defined.

(** * What constraint generation guarantees

    The solver's evidence is sound and, when it closes the search, optimal; it
    agrees with the exhaustive oracle; it always ends. *)

(** ** A run *)

(** Two contracts of which exactly one pays; a lot of each costs 2 and pays 5. *)
Definition small : ArbitrageProblem :=
  problem_of [sample_action "a" "A" "polymarket" 2 1; sample_action "b" "B" "predict.fun" 2 1]
    [sample_state "A" "a" key 5 0; sample_state "B" "b" key 5 0] [exactly_one ["A"; "B"]] [] [profit_floor 1].

Definition small_limits : BenchmarkLimits := {|
  bl_soft_time_limit_ms := 1000; bl_hard_time_limit_ms := 2000; bl_memory_limit_bytes := 1000000;
  bl_max_constraint_generation_rounds := 20 |}.

Definition small_component : RelationComponent := {|
  rl_component_id := "component:A:B"; rl_action_ids := ["a"; "b"]; rl_contract_ids := ["A"; "B"];
  rl_constraint_ids := ["one-winner"]; rl_as_of := as_of |}.

Definition small_profile : ReleaseProfile := {|
  rp_delay_seconds := (dt_us release - dt_us as_of) / 1000000; rp_occupied_days := (dt_us release - dt_us as_of) / 86400000000;
  rp_release_at := release; rp_eligible_action_ids := ["a"; "b"]; rp_exact_action_ids := ["a"; "b"] |}.

Definition small_cut : WorstStateCut :=
  match cut_from_scenario small (Scenario [SelAtom "A" "A-no"; SelAtom "B" "B-yes"]) with
  | Ok cut => cut
  | Err _ => {| cut_id := ""; cut_scenario := Scenario []; cut_payout_per_lot := [] |}
  end.

(** The search closes on one lot of each, for a profit of 1. *)
Lemma small_run : ∃ e phases c,
  solve_with_constraint_generation (request_of small) reference_backend small_limits = Ok (e, phases) ∧
  se_global_search_closed e = true ∧ se_candidate e = Some c ∧ pc_quantities c = both ∧ pc_claimed_guaranteed_profit_units c = 1.
Proof.
  run (solve_with_constraint_generation (request_of small) reference_backend small_limits)
    (λ out, match se_candidate out.1 with
            | Some c => se_global_search_closed out.1 && bool_decide (pc_quantities c = both) && (pc_claimed_guaranteed_profit_units c =? 1)
            | None => false end) as ([e phases] & Hs & Hc). simpl in Hc.
  destruct (se_candidate e) as [c|] eqn:Ec; [|done]. apply andb_true_iff in Hc as [[H1 H2%bool_decide_eq_true_1]%andb_true_iff H3%Z.eqb_eq].
  exists e, phases, c. split_and!; [exact Hs|exact H1|exact Ec|exact H2|exact H3].
Qed.

(** ** Soundness *)

(** C4: whatever portfolio the solver reports is real.  With a backend whose
    OPTIMAL answers are optimal and whose INFEASIBLE answers are true, the
    reported quantities are a valid non-empty selection of the problem; the
    reported cost charges every lot its slice; the reported payout is the
    worst over the allowed settlement outcomes and is attained in the
    reported scenario; the claimed profit is their exact difference; the
    release time is the latest one of the selected actions; and every
    qualification passes. *)
Theorem generation_sound `{Sha256} backend rq limits e phases c :
  honest backend → solve_with_constraint_generation rq backend limits = Ok (e, phases) → se_candidate e = Some c →
  let p := searched_problem rq in
  let qs := pc_quantities c in
  wf_problem p ∧ selection p qs ∧ qs ≠ [] ∧ guarantees p qs (pc_claimed_guaranteed_profit_units c) ∧
  ∃ payout d, se_payout_lower_bound_units e = Some payout ∧ se_cost_upper_bound_units e = Some (portfolio_cost p qs) ∧
    pc_claimed_guaranteed_profit_units c = payout - portfolio_cost p qs ∧
    (∃ ω, allowed p ω ∧ se_worst_scenario e = Some (scenario p ω) ∧ payout = realized_payout p ω qs) ∧
    (∀ ω, allowed p ω → payout ≤ realized_payout p ω qs) ∧
    se_conservative_capital_release_at e = Some d ∧ release_of p qs (Some d) ∧
    (∀ o, release_of p qs o → ∃ t, o = Some t ∧ dt_us t ≤ dt_us d) ∧
    ∀ q, q ∈ pb_qualification_constraints p →
      qualification_passes p q payout (portfolio_cost p qs) (pc_claimed_guaranteed_profit_units c) (Some d) = Ok true.
Proof. intros Hh Hs Hc p qs. eapply evidence_facts; [|exact Hc]. by eapply solve_spec. Qed.

Lemma generation_sound_witness :
  ∃ e phases c, solve_with_constraint_generation (request_of small) reference_backend small_limits = Ok (e, phases) ∧
    se_candidate e = Some c ∧ selection small (pc_quantities c) ∧ guarantees small (pc_quantities c) (pc_claimed_guaranteed_profit_units c).
Proof.
  destruct small_run as (e & phases & c & Hs & _ & Hc & _). exists e, phases, c. destruct (generation_sound reference_backend (request_of small) small_limits e phases c reference_honest Hs Hc)
    as (_ & H1 & _ & H2 & _). split_and!; [exact Hs|exact Hc|exact H1|exact H2].
Defined.

(** ** Optimality *)

(** C5: with an honest backend (its OPTIMAL answers are optimal and its
    INFEASIBLE answers true) a closed search is complete.  When the solver says
    its global search is closed, every portfolio the exhaustive search would accept (qualified,
    with a connected support) earns at most the profit it reports; without a
    portfolio it answers NO_QUALIFIED_OPPORTUNITY when there is none, and
    NO_ARBITRAGE, for the diagnosis only, when none earns anything. *)
Theorem generation_closed `{Sha256} backend rq limits e phases :
  honest backend → solve_with_constraint_generation rq backend limits = Ok (e, phases) → se_global_search_closed e = true →
  closed_evidence (searched_problem rq) (rq_budget rq) (rq_mode rq) e.
Proof. intros Hh Hs. by eapply solve_spec. Qed.

Lemma generation_closed_witness :
  ∃ e phases, solve_with_constraint_generation (request_of small) reference_backend small_limits = Ok (e, phases) ∧
    ∀ ev, acceptable small sample_budget ev → ∃ profit, se_guaranteed_profit_units e = Some profit ∧ pe_guaranteed_profit_units ev ≤ profit.
Proof.
  destruct small_run as (e & phases & c & Hs & Hc & _). exists e, phases. split; [exact Hs|].
  exact (ca_bound _ _ _ _ (generation_closed reference_backend (request_of small) small_limits e phases reference_honest Hs Hc)).
Defined.

(** C6: with an honest backend, and on any request but the raw diagnosis (which
    skips the qualifications), the solver agrees with the exhaustive oracle.
    When the search closes and the exhaustive solver finishes on the same
    request, both find a portfolio or neither does, and the profits are
    equal. *)
Theorem generation_agrees_with_oracle `{Sha256} backend rq limits e phases mode r :
  honest backend → rq_mode rq ≠ RAW_ARBITRAGE_DIAGNOSTIC →
  solve_with_constraint_generation rq backend limits = Ok (e, phases) → se_global_search_closed e = true →
  solve_exhaustive rq mode = Ok r → or_unknown_reason r = None →
  match or_solution r, se_candidate e with
  | Some s, Some c => claimed_profit s = pc_claimed_guaranteed_profit_units c
  | None, None => True
  | _, _ => False
  end.
Proof. apply solver_oracle_agree. Qed.

Lemma generation_agrees_with_oracle_witness :
  ∃ e phases r s c, solve_with_constraint_generation (request_of small) reference_backend small_limits = Ok (e, phases) ∧
    solve_exhaustive (request_of small) OPTIMIZATION = Ok r ∧ or_solution r = Some s ∧ se_candidate e = Some c ∧
    claimed_profit s = pc_claimed_guaranteed_profit_units c.
Proof.
  destruct small_run as (e & phases & c & Hs & Hcl & Hc & _).
  run (solve_exhaustive (request_of small) OPTIMIZATION) (λ r, is_none (or_unknown_reason r) && present (or_solution r))
    as (r & Hr & [Hu%is_none_None (s & Ho)%some_with]%andb_true_iff).
  pose proof (generation_agrees_with_oracle reference_backend (request_of small) small_limits e phases OPTIMIZATION r reference_honest
    ltac:(discriminate) Hs Hcl Hr Hu) as H. rewrite Ho in H. rewrite Hc in H.
  exists e, phases, r, s, c. split_and!; [exact Hs|exact Hr|exact Ho|exact Hc|exact H].
Defined.

(** ** Termination *)

(** C20: the solver always ends.  Whatever the backend answers, none of its
    loops runs out of the model's fuel: a repetition of the [while True] loop
    spends a round, and the limits bound the rounds. *)
Theorem generation_terminates `{Sha256} backend rq limits :
  (∀ k m t, sb_solve backend k m t ≠ Err OutOfFuel) → solve_with_constraint_generation rq backend limits ≠ Err OutOfFuel.
Proof. intros Hb. exact (solve_ends backend (bl_soft_time_limit_ms limits) Hb rq limits eq_refl). Qed.

Lemma generation_terminates_witness :
  solve_with_constraint_generation (request_of small) reference_backend small_limits ≠ Err OutOfFuel.
Proof. exact (generation_terminates reference_backend (request_of small) small_limits ltac:(discriminate)). Defined.

(** ** The master problem *)

(** C19: the master problem is exact.  Every integer point of it is a portfolio
    of the component: each action is unselected or bought within its domain,
    the cost is the cost of its price slices, the payout is the least payout
    under the known cuts, an action is released exactly with the profile and
    none later, and the portfolio is none of the excluded ones.  Conversely
    every such portfolio that passes the qualifications in a worst outcome is
    a point of at least its true profit. *)
Theorem master_exact `{Sha256} p component profile cuts excluded cm :
  compile_master p component profile cuts excluded = Ok cm →
  ∃ actions, Forall2 (λ i a, a ∈ pb_actions p ∧ ca_action_id a = i) (rl_action_ids component) actions ∧
    (∀ x, feasible (cm_model cm) x → master_point p profile cuts excluded actions x) ∧
    ∀ Q ω, admissible_portfolio p profile cuts excluded actions Q ω →
      ∃ x, feasible (cm_model cm) x ∧ (∀ a, a ∈ actions → lots_at x a = Q (ca_action_id a)) ∧
        total_payout p actions Q ω - total_cost actions Q ≤ x "profit".
Proof.
  intros (actions & nogoods & cost & terms & bounds & cc & extra & qual & MP)%compile_master_inv. exists actions. split_and!.
  - by eapply mp_actions.
  - intros x Hx. eapply master_rows_point; [exact MP|]. by eapply feasible_master.
  - intros Q ω AP. by eapply master_complete.
Qed.

Lemma master_exact_witness :
  ∃ cm actions, compile_master small small_component small_profile [small_cut] [] = Ok cm ∧
    Forall2 (λ i a, a ∈ pb_actions small ∧ ca_action_id a = i) (rl_action_ids small_component) actions ∧
    ∀ x, feasible (cm_model cm) x → master_point small small_profile [small_cut] [] actions x.
Proof.
  run (compile_master small small_component small_profile [small_cut] []) (λ _, true) as (cm & Hcm & _).
  destruct (master_exact small small_component small_profile [small_cut] [] cm Hcm) as (actions & H1 & H2 & _).
  exists cm, actions. split_and!; [exact Hcm|exact H1|exact H2].
Defined.

(** ** A row name that collides *)

Definition ratio (id : string) (metric : QualificationMetric) : QualificationConstraint := {|
  qc_constraint_id := id; qc_rule_version := "q1"; qc_metric := metric;
  qc_comparison := GREATER_THAN_OR_EQUAL; qc_threshold_numerator := 1; qc_threshold_denominator := 1 |}.

(** Two qualifications whose rows get one name. *)
Definition colliding : ArbitrageProblem :=
  problem_of (pb_actions small) (pb_terminal_state_sets small) [exactly_one ["A"; "B"]] []
    [ratio "c" NET_MARGIN_PPM; ratio "c:positive-payout" GUARANTEED_PROFIT_UNITS].

(** The problem is valid and the oracle solves it; the solver raises. *)
Example duplicate_row_escapes :
  validate_problem colliding = [] ∧
  or_business_status <$> solve_exhaustive (request_of colliding) OPTIMIZATION = Ok QUALIFIED_FEASIBLE ∧
  solve_with_constraint_generation (request_of colliding) reference_backend small_limits
  = Err (ValueError "duplicate constraint name: qualification:c:positive-payout").
Proof. split_and!; vm_compute; reflexivity. Qed.
