(* ===== verification/ExecutionSamples.v ===== *)
(** * Sample batches, receipts and stores for the execution theorems *)

From S2P Require Import Prelude PyValue NLeg NLegForms PartialFill FillProof Generation Verified Quotes Receipts BatchStore Lineage Repair Reconcile Entry Lifecycle ReceiptsCorrect Samples.
Local Open Scope Z_scope.

Definition batch_leg (action client venue : string) (max_cost : Z) : BatchLeg := {|
  bl_action_id := action; bl_client_order_id := client; bl_venue_id := venue; bl_account_id := "acct";
  bl_asset_id := client; bl_settlement_asset_id := "usd"; bl_side := "BUY_YES"; bl_submitted_quantity := 1;
  bl_max_cost_units := max_cost;
  bl_max_fee_units := 0; bl_receipt := None |}.

Definition row (venue : string) (units : Z) : ReservationRow := {|
  rv_key := (venue, "acct", "usd"); rv_original_units := units; rv_remaining_units := units; rv_holding_units := 0 |}.

Definition sample_proof : PartialFillProofRecord := {|
  pr_execution_solution_fingerprint := "sha256:solution"; pr_execution_solution_payload_fingerprint := "sha256:payload";
  pr_model_fingerprint := "sha256:model"; pr_quote_fingerprint := "sha256:quote"; pr_cost_fingerprint := "sha256:cost";
  pr_order_semantics_fingerprint := "sha256:semantics"; pr_cap_config_version := "caps-v1";
  pr_max_partial_fill_loss := 500000; pr_max_auto_repair_loss := 0; pr_solver_lower_bound := 0;
  pr_solver_upper_bound := 410000; pr_solver_termination := TERMINATION_CLOSED;
  pr_solver_evidence_fingerprint := "sha256:evidence"; pr_verifier_status := VERIFIER_QUALIFIED;
  pr_verifier_fingerprint := "sha256:verifier"; pr_verifier_evidence_fingerprint := "sha256:verifier-evidence";
  pr_status := PARTIAL_FILL_SAFE; pr_fingerprint := "sha256:proof"; pr_schema_version := PARTIAL_FILL_PROOF_SCHEMA_V1 |}.

Definition sample_entry : BatchEntry := {|
  en_opportunity_episode_id := "episode"; en_episode_lineage_id := "lineage"; en_mode := "AUTO";
  en_execution_solution_fingerprint := "sha256:solution"; en_model_fingerprint := "sha256:model";
  en_quote_fingerprint := "sha256:quote"; en_account_fingerprint := "sha256:account";
  en_partial_fill_proof := sample_proof; en_max_partial_fill_loss := 500000; en_cap_config_version := "caps-v1";
  en_reservation_units := 810000; en_entry_fingerprint := "sha256:entry" |}.

(** Both legs of [cheap] submitted, nothing reported yet. *)
Definition opened : Batch := {|
  ba_execution_batch_id := "batch"; ba_entry := sample_entry; ba_state := "ACTIVE"; ba_frozen_problem := cheap; ba_frozen_budget := sample_budget;
  ba_max_auto_repair_loss := 0; ba_reservation_version := "v1"; ba_prior_unsettled_capital_units := 0;
  ba_total_unsettled_capital_units := 810000;
  ba_reservations := [row "polymarket" 400000; row "predict.fun" 410000];
  ba_legs := [batch_leg "a" "order-a" "polymarket" 400000; batch_leg "b" "order-b" "predict.fun" 410000];
  ba_receipts := ∅; ba_confirmed_holdings := []; ba_receipt_conflicts := []; ba_unresolved_conflicts := [];
  ba_conflict_exposure := ∅; ba_capital_exposure_unknown := false; ba_terminal_ledger := ∅; ba_incident := None;
  ba_repair_plan := None; ba_execution_controls := []; ba_reconciliation := None |}.

Definition receipt (id client venue : string) (filled cost : Z) (state : OrderState) (sequence : Z) : OrderReceipt := {|
  rp_receipt_id := id; rp_execution_batch_id := "batch"; rp_client_order_id := client; rp_venue_id := venue;
  rp_account_id := "acct"; rp_venue_order_id := Some client; rp_submitted_quantity := 1;
  rp_cumulative_filled_quantity := filled; rp_cumulative_cost_units := cost; rp_cumulative_fee_units := 0;
  rp_state := state; rp_sequence := Some sequence; rp_rest_confirmed := false; rp_observed_at := dt_us as_of;
  rp_venue_timestamp := dt_us as_of; rp_rest_observation_version := None;
  rp_schema_version := ORDER_RECEIPT_SCHEMA_V1 |}.

Definition a_filled := receipt "r1" "order-a" "polymarket" 1 390000 FILLED 1.
Definition b_rejected := receipt "r2" "order-b" "predict.fun" 0 0 REJECTED 1.
(** The venue takes the fill back. *)
Definition a_shrinks := receipt "r3" "order-a" "polymarket" 0 0 FILLED 2.

Definition idle : Control := set_control initial_control "AUTO" false None None 0.

Definition stored (b : Batch) : Store := {|
  so_batches := {["batch" := b]}; so_control := idle; so_transitions := ∅; so_acknowledgements := []; so_claims := ∅;
  so_graph := None; so_episodes := None; so_active_lp := false; so_safety_config := None; so_scopes := ∅ |}.

Lemma opened_wf : wf_batch opened.
Proof.
  split.
  - by repeat constructor; simpl; try lia.
  - by repeat constructor.
  - intros k v. simpl. by rewrite lookup_empty.
  - intros k v. simpl. by rewrite lookup_empty.
Qed.

(** ** A funded entry of [cheap] *)

Definition evidence_leg (action venue native : string) : ExecutionLegEvidence := {|
  xl_action_id := action; xl_venue_id := venue; xl_account_id := "acct"; xl_chain_id := "137"; xl_native_id := native;
  xl_side := "BUY_YES"; xl_quantity_lots := 1; xl_protected_price_units := 400000; xl_price_units_per_quote_unit := 1;
  xl_max_fee_units := 0; xl_max_cost_units := 400000; xl_settlement_asset_id := MICRO_VALUATION_UNIT;
  xl_valuation_unit_id := MICRO_VALUATION_UNIT; xl_source_fingerprint := "sha256:book-" +:+ action |}.

(** Funding and entry read the problem, the quantities, the legs and the budget;
    the rest is evidence they only carry along. *)
Definition sample_evidence : CandidateEvidence := {|
  cv_schema_version := CANDIDATE_EVIDENCE_SCHEMA_V1;
  cv_proof_input := {|
    pi_schema_version := PROOF_REQUEST_SCHEMA_V1; pi_request := request_of cheap;
    pi_limits := {| bl_soft_time_limit_ms := 100; bl_hard_time_limit_ms := 200; bl_memory_limit_bytes := 1000000;
                    bl_max_constraint_generation_rounds := 4 |};
    pi_quote_fingerprint := "sha256:quote"; pi_current_generation := 0; pi_code_version := "issue-51" |};
  cv_solver_name := "cp_sat"; cv_solver_version := "1"; cv_model_fingerprint := "sha256:model";
  cv_portfolio_fingerprint := None; cv_solver_evidence := failed_evidence "UNKNOWN" |}.

Definition sample_market : MarketSolution := {|
  ms_component_problem := cheap; ms_component_usd_units_per_dollar := 1000000; ms_component_bindings := [];
  ms_problem := cheap; ms_quantities := both; ms_bounded_cost_units := Some 800000;
  ms_bounded_payout_units := Some 1000000; ms_guaranteed_profit_units := Some 200000;
  ms_capital_release_at := None; ms_global_search_closed := false; ms_relation_fingerprint := "sha256:relation";
  ms_economic_quote_fingerprint := "sha256:quotes"; ms_verification_fingerprint := "sha256:verification";
  ms_candidate_evidence := sample_evidence;
  ms_verification_result := unknown_candidate sample_evidence "NO_CANDIDATE"; ms_quotes := [];
  ms_execution_legs := [evidence_leg "a" "polymarket" "yes-a"; evidence_leg "b" "predict.fun" "yes-b"];
  ms_fingerprint := "sha256:market" |}.

Definition micro (venue : string) (units : Z) : AccountBalance :=
  {| ab_key := (venue, "acct", MICRO_VALUATION_UNIT); ab_available_units := units; ab_allowance_units := units |}.

Definition sample_account : AccountSnapshot := {|
  as_captured_at := as_of; as_balances := [micro "polymarket" 1000000; micro "predict.fun" 1000000];
  as_max_per_trade_cost_units := 1000000; as_unsettled_capital_units := 0; as_max_total_unsettled_capital_units := 2000000 |}.

Definition sample_solution : ExecutionSolution :=
  let account := fingerprint_json (snapshot_json sample_account) in {|
  xs_market_solution_fingerprint := "sha256:market"; xs_account_snapshot_fingerprint := account; xs_quantities := both;
  xs_capital_use_units := 800000; xs_execution_legs := ms_execution_legs sample_market; xs_order_ready := false;
  xs_reason := PARTIAL_FILL_PROOF_REQUIRED;
  xs_fingerprint := solution_fingerprint "sha256:market" account both 800000 (ms_execution_legs sample_market) |}.

Definition bound_proof : PartialFillProofRecord :=
  match execution_solution_binding sample_solution with
  | Err _ => sample_proof
  | Ok b => {|
      pr_execution_solution_fingerprint := sb_execution_solution_fingerprint b;
      pr_execution_solution_payload_fingerprint := sb_execution_solution_payload_fingerprint b;
      pr_model_fingerprint := sb_model_fingerprint b; pr_quote_fingerprint := sb_quote_fingerprint b;
      pr_cost_fingerprint := sb_cost_fingerprint b; pr_order_semantics_fingerprint := sb_order_semantics_fingerprint b;
      pr_cap_config_version := "caps-v1"; pr_max_partial_fill_loss := 500000; pr_max_auto_repair_loss := 0;
      pr_solver_lower_bound := 0; pr_solver_upper_bound := 400000; pr_solver_termination := TERMINATION_CLOSED;
      pr_solver_evidence_fingerprint := "sha256:evidence"; pr_verifier_status := VERIFIER_QUALIFIED;
      pr_verifier_fingerprint := "sha256:verifier"; pr_verifier_evidence_fingerprint := "sha256:verifier-evidence";
      pr_status := PARTIAL_FILL_SAFE; pr_fingerprint := "sha256:proof"; pr_schema_version := PARTIAL_FILL_PROOF_SCHEMA_V1 |}
  end.

Definition sample_ids (batch lineage : string) : EntryIds := {|
  ei_opportunity_episode_id := "episode-" +:+ batch; ei_episode_lineage_id := lineage; ei_execution_batch_id := batch |}.

(** A store before its first batch, with the breaker closed. *)
Definition fresh_store : Store := {|
  so_batches := ∅; so_control := initial_control; so_transitions := ∅; so_acknowledgements := []; so_claims := ∅;
  so_graph := None; so_episodes := None; so_active_lp := false; so_safety_config := None; so_scopes := ∅ |}.

Definition enter_sample (st : Store) (batch lineage : string) (now : Z) : res (Store * Batch) :=
  enter st (sample_ids batch lineage) sample_market sample_account as_of sample_solution bound_proof "AUTO" "caps-v1" None now.

(** A receipt of the batch [batch] for the leg [action], [at_us] microseconds
    after the entry. *)
Definition leg_receipt (batch action venue : string) (filled : Z) (state : OrderState) (sequence at_us : Z) : OrderReceipt := {|
  rp_receipt_id := batch +:+ "-" +:+ action +:+ pretty at_us; rp_execution_batch_id := batch;
  rp_client_order_id := batch +:+ ":" +:+ action; rp_venue_id := venue; rp_account_id := "acct";
  rp_venue_order_id := Some ("venue-" +:+ action); rp_submitted_quantity := 1; rp_cumulative_filled_quantity := filled;
  rp_cumulative_cost_units := filled * 390000; rp_cumulative_fee_units := 0; rp_state := state; rp_sequence := Some sequence;
  rp_rest_confirmed := false; rp_observed_at := dt_us as_of + at_us; rp_venue_timestamp := dt_us as_of + at_us;
  rp_rest_observation_version := None; rp_schema_version := ORDER_RECEIPT_SCHEMA_V1 |}.

(** ** Reconciling it *)

Definition later (us : Z) : datetime := Datetime (dt_us as_of + us) (Some 0).

Definition leg_flow (batch action venue : string) (cost version : Z) : SettlementCashFlow := {|
  fw_client_order_id := batch +:+ ":" +:+ action; fw_venue_order_id := Some ("venue-" +:+ action);
  fw_key := (venue, "acct", MICRO_VALUATION_UNIT); fw_cumulative_cost_units := cost; fw_cumulative_fee_units := 0;
  fw_source_timestamp := later 3; fw_observed_at := later 3; fw_observation_version := Some version;
  fw_rest_confirmed := false |}.

Definition held (venue asset : string) (quantity : Z) : ConfirmedHolding := {|
  ch_key := (venue, "acct", asset); ch_quantity := quantity; ch_source_timestamp := later 3; ch_received_at := later 3 |}.

Definition closing (batch : string) (holdings : list ConfirmedHolding) (flows : list SettlementCashFlow)
    (evidence : list ConflictResolutionEvidence) : ReconciliationContext := {|
  rk_reservation_version := batch +:+ ":v1"; rk_account_snapshot := sample_account; rk_holdings := holdings;
  rk_cash_flows := flows; rk_source_timestamp := later 3; rk_received_at := later 3; rk_now := later 3;
  rk_conflict_resolutions := evidence |}.

Definition both_held : ReconciliationContext :=
  closing "b1" [held "polymarket" "yes-a" 1; held "predict.fun" "yes-b" 1]
    [leg_flow "b1" "a" "polymarket" 390000 1; leg_flow "b1" "b" "predict.fun" 390000 1] [].

(** Venue evidence that the first leg filled after all. *)
Definition fill_evidence (conflict : string) : ConflictResolutionEvidence := {|
  cr_conflict_id := conflict; cr_client_order_id := "b1:a"; cr_venue_order_id := Some "venue-a"; cr_venue_id := "polymarket";
  cr_account_id := "acct"; cr_asset_id := "yes-a"; cr_settlement_asset_id := MICRO_VALUATION_UNIT;
  cr_outcome := RESOLVED_TERMINAL; cr_terminal_state := Some FILLED; cr_cumulative_filled_quantity := 1;
  cr_cumulative_cost_units := 390000; cr_cumulative_fee_units := 0; cr_sequence := Some 2; cr_rest_confirmed := false;
  cr_observation_version := 1; cr_source_timestamp := later 3; cr_observed_at := later 3 |}.

(** ** Runs *)

(** The batch [batch] entered into [st], with both legs reported. *)
Definition reported (st : Store) (batch lineage : string) (now filled : Z) (state : OrderState) : res (Store * Batch) :=
  '(st, _) ← enter_sample st batch lineage now;
  '(st, _) ← apply_receipt st (leg_receipt batch "a" "polymarket" filled state 1 1) None;
  apply_receipt st (leg_receipt batch "b" "predict.fun" filled state 1 1) None.

(** [b1] filled, reconciled, and [b2] entered after it. *)
Definition second_entered : res (Store * Batch) :=
  '(st, _) ← reported fresh_store "b1" "l1" 5 1 FILLED;
  '(st, _) ← complete_reconciliation st "b1" both_held;
  enter_sample st "b2" "l2" 6.

(** The venue repeats the sequence number of [b1]'s first receipt, cancelled
    and empty. *)
Definition late_receipt : OrderReceipt := leg_receipt "b1" "a" "polymarket" 0 CANCELLED 1 9.

(** Both legs of [b1] rejected, then a contradicting fill of the first. *)
Definition contradicted : res (Store * Batch) :=
  '(st, _) ← reported fresh_store "b1" "l1" 5 0 REJECTED;
  apply_receipt st (leg_receipt "b1" "a" "polymarket" 1 FILLED 1 2) None.

Definition one_held (b : Batch) : ReconciliationContext :=
  closing "b1" [held "polymarket" "yes-a" 1] [leg_flow "b1" "a" "polymarket" 390000 2; leg_flow "b1" "b" "predict.fun" 0 1]
    ((λ c, fill_evidence (cx_conflict_id c)) <$> ba_unresolved_conflicts b).
