(* ===== verification/OracleTheorems.v ===== *)
(** * Properties of the oracle

    What the exhaustive solver, the admission search and the raw diagnosis
    promise, in terms of settlement outcomes; the evaluator they share; the
    decomposition of a problem and of a portfolio; and totality. *)

From S2P Require Import Prelude PyValue NLeg NLegForms NLegValidate NLegWf Oracle OracleScenario OracleEval OracleQualify UnionFind Support Search SupportCorrect SplitCorrect SearchCorrect SearchTotal Components ComponentsCorrect Samples.
Local Open Scope Z_scope.

(** ** Search *)

(** C2: the portfolio of an exhaustive solve is a valid non-empty selection,
    its claimed profit is exactly its worst profit over every allowed
    settlement outcome, and no portfolio that passes the qualifications and
    has a connected support guarantees more. *)
Theorem solve_exhaustive_optimal `{Sha256} rq mode r s :
  solve_exhaustive rq mode = Ok r → or_solution r = Some s →
  ∃ profit, pp_guaranteed_profit_units (ps_payout_proof s) = Some profit ∧
    guarantees (rq_problem rq) (ps_quantities s) profit ∧
    selection (rq_problem rq) (ps_quantities s) ∧ ps_quantities s ≠ [] ∧
    ∀ ev, acceptable (rq_problem rq) (rq_budget rq) ev → pe_guaranteed_profit_units ev ≤ profit.
Proof.
  intros Hr Hs. destruct (solve_exhaustive_feasible rq mode r s Hr Hs) as (Hc & _ & Hbest).
  destruct (certified_guarantees (rq_problem rq) (rq_budget rq) s Hc) as (profit & Hp & Hg & Hsel & Hne).
  exists profit. split_and!; [done..|]. intros ev Hev. destruct (Hbest ev Hev) as (s' & Hs' & Hb%better_profit).
  unfold claimed_profit in Hb. by rewrite Hp, (certifies_profit _ _ _ _ Hs') in Hb.
Qed.

Lemma solve_exhaustive_optimal_witness :
  ∃ r s profit, solve_exhaustive (request_of cheap) OPTIMIZATION = Ok r ∧ or_solution r = Some s ∧
    pp_guaranteed_profit_units (ps_payout_proof s) = Some profit ∧ guarantees cheap (ps_quantities s) profit.
Proof.
  run (solve_exhaustive (request_of cheap) OPTIMIZATION) (λ r, present (or_solution r)) as (r & Hr & (s & Hs)%some_with).
  destruct (solve_exhaustive_optimal (request_of cheap) OPTIMIZATION r s Hr Hs) as (profit & Hp & Hg & _).
  exists r, s, profit. split_and!; [exact Hr|exact Hs|exact Hp|exact Hg].
Defined.

(** C3: a NO_ARBITRAGE diagnosis is a theorem about the market: every valid
    non-empty portfolio, of any size, has an allowed settlement outcome in
    which its payout does not exceed its cost. *)
Theorem no_arbitrage_sound `{Sha256} p budget r :
  diagnose_raw_arbitrage p budget = Ok r → or_business_status r = NO_ARBITRAGE →
  ∀ sel, selection p sel → sel ≠ [] → ∃ ω, allowed p ω ∧ realized_payout p ω sel ≤ portfolio_cost p sel.
Proof. apply diagnose_no_arbitrage. Qed.

Lemma no_arbitrage_sound_witness :
  ∃ r, diagnose_raw_arbitrage dear sample_budget = Ok r ∧ or_business_status r = NO_ARBITRAGE ∧
    ∀ sel, selection dear sel → sel ≠ [] → ∃ ω, allowed dear ω ∧ realized_payout dear ω sel ≤ portfolio_cost dear sel.
Proof.
  run (diagnose_raw_arbitrage dear sample_budget) (λ r, bool_decide (or_business_status r = NO_ARBITRAGE)) as (r & Hr & Hb).
  apply bool_decide_eq_true_1 in Hb. exists r. split_and!; [exact Hr|exact Hb|]. exact (no_arbitrage_sound dear sample_budget r Hr Hb).
Defined.

(** C21: when the exhaustive solver answers NO_QUALIFIED_OPPORTUNITY, no
    portfolio of the problem passes every qualification with a connected
    support. *)
Theorem no_qualified_sound `{Sha256} rq mode r :
  solve_exhaustive rq mode = Ok r → or_business_status r = NO_QUALIFIED_OPPORTUNITY →
  ∀ ev, ¬ acceptable (rq_problem rq) (rq_budget rq) ev.
Proof. apply solve_exhaustive_negative. Qed.

(** A profit floor no portfolio reaches. *)
Definition demanding : ArbitrageProblem := race 400000 [profit_floor 300000].

Lemma no_qualified_sound_witness :
  ∃ r, solve_exhaustive (request_of demanding) OPTIMIZATION = Ok r ∧ or_business_status r = NO_QUALIFIED_OPPORTUNITY ∧
    ∀ ev, ¬ acceptable demanding sample_budget ev.
Proof.
  run (solve_exhaustive (request_of demanding) OPTIMIZATION)
    (λ r, bool_decide (or_business_status r = NO_QUALIFIED_OPPORTUNITY)) as (r & Hr & Hb).
  apply bool_decide_eq_true_1 in Hb. exists r. split_and!; [exact Hr|exact Hb|].
  exact (no_qualified_sound (request_of demanding) OPTIMIZATION r Hr Hb).
Defined.

(** C22: evaluating a fixed portfolio is exact.  The cost charges every lot the
    price of its slice, the payout is the minimum over the allowed outcomes and
    is attained, the profit is their difference inside 64 bits, the release
    time is the latest over the outcomes, and a qualification is reported as
    failed exactly when it does not pass. *)
Theorem fixed_portfolio_exact `{Sha256} p qs budget ev :
  evaluate_fixed_portfolio p qs budget = Ok ev → evaluation_sound p qs ev.
Proof. apply evaluate_sound. Qed.

Lemma fixed_portfolio_exact_witness :
  ∃ ev, evaluate_fixed_portfolio cheap both sample_budget = Ok ev ∧ evaluation_sound cheap both ev.
Proof.
  run (evaluate_fixed_portfolio cheap both sample_budget) (λ _, true) as (ev & Hev & _).
  exists ev. split; [exact Hev|]. exact (fixed_portfolio_exact cheap both sample_budget ev Hev).
Defined.

(** The contracts are partitioned into connected components, every
    component carries the actions of its contracts and the constraints inside
    it, and each of them is itself a valid problem. *)
Theorem components_partition `{Sha256} p as_of comps :
  wf_problem p → no_empty_forbidden p → utc_states p →
  build_relation_components p as_of = Ok comps → components_spec p comps.
Proof. apply components_correct. Qed.

(** Two independent races. *)
Definition two_races : ArbitrageProblem :=
  problem_of [sample_action "a" "A" "polymarket" 400000 1; sample_action "b" "B" "predict.fun" 400000 2;
              sample_action_on (key_for "weather") "c" "C" "polymarket" 300000 1]
    [sample_state "A" "a" key 1000000 0; sample_state "B" "b" key 1000000 0; sample_state "C" "c" (key_for "weather") 1000000 500000]
    [exactly_one ["A"; "B"]] [] [profit_floor 1].

Lemma two_races_wf : wf_problem two_races.
Proof. apply validate_problem_wf. vm_compute. reflexivity. Qed.

Lemma two_races_utc : utc_states two_races.
Proof. intros s Hs. by repeat (apply elem_of_cons in Hs as [->|Hs]); [..|apply not_elem_of_nil in Hs]. Qed.

Lemma components_partition_witness :
  ∃ comps, build_relation_components two_races None = Ok comps ∧
    (rl_contract_ids <$> comps) = [["A"; "B"]; ["C"]] ∧ components_spec two_races comps.
Proof.
  run (build_relation_components two_races None) (λ cs, bool_decide ((rl_contract_ids <$> cs) = [["A"; "B"]; ["C"]])) as (cs & Hcs & Hb).
  apply bool_decide_eq_true_1 in Hb. exists cs. split_and!; [exact Hcs|exact Hb|].
  exact (components_partition two_races None cs two_races_wf (Forall_nil_2 _) two_races_utc Hcs).
Defined.

(** components lose nothing and add nothing: an outcome of the whole
    problem is allowed exactly when every component allows it. *)
Theorem components_exact `{Sha256} p as_of comps ω :
  wf_problem p → no_empty_forbidden p → utc_states p → build_relation_components p as_of = Ok comps →
  allowed p ω ↔ outcome p ω ∧ ∀ c, c ∈ comps → allowed (component_slice p c (rl_as_of c)) ω.
Proof. intros Hwf Hnf Hutc Hc. apply components_allowed; [done..|]. by eapply components_correct. Qed.

Lemma components_exact_witness :
  ∃ comps, build_relation_components two_races None = Ok comps ∧
    ∀ ω, allowed two_races ω ↔ outcome two_races ω ∧ ∀ c, c ∈ comps → allowed (component_slice two_races c (rl_as_of c)) ω.
Proof.
  run (build_relation_components two_races None) (λ cs, true) as (cs & Hcs & _).
  exists cs. split; [exact Hcs|]. intros ω.
  exact (components_exact two_races None cs ω two_races_wf (Forall_nil_2 _) two_races_utc Hcs).
Defined.

(** Splitting a valid problem into components never fails, when its
    state sets are stamped in UTC and no forbidden combination is empty. *)
Theorem components_complete `{Sha256} p :
  wf_problem p → no_empty_forbidden p → utc_states p → ∃ comps, build_relation_components p None = Ok comps.
Proof. apply components_total. Qed.

Lemma components_complete_witness : ∃ comps, build_relation_components two_races None = Ok comps.
Proof. exact (components_complete two_races two_races_wf (Forall_nil_2 _) two_races_utc). Defined.

(** A portfolio whose support falls apart guarantees no more than its
    parts do separately, so searching connected portfolios is enough. *)
Theorem disconnected_parts_suffice `{Sha256} p budget qs ev graph groups children :
  evaluate_fixed_portfolio p qs budget = Ok ev →
  derive_selected_support_graph p ev budget = Ok (inr graph) →
  split_disconnected_solution p ev graph = Ok groups →
  Forall2 (λ g child, evaluate_fixed_portfolio p g budget = Ok child) groups children →
  pe_guaranteed_profit_units ev ≤ sumZ (pe_guaranteed_profit_units <$> children).
Proof. apply (parts_profit p budget qs ev graph groups children). Qed.

(** All three legs: the race and the stand-alone bet. *)
Definition three_legs : list ActionQuantity := [AQ "a" 1; AQ "b" 1; AQ "c" 1].
Definition race_part : list ActionQuantity := [AQ "a" 1; AQ "b" 1].
Definition bet_part : list ActionQuantity := [AQ "c" 1].

Lemma disconnected_parts_suffice_witness :
  ∃ ev c1 c2, evaluate_fixed_portfolio two_races three_legs sample_budget = Ok ev ∧
    evaluate_fixed_portfolio two_races race_part sample_budget = Ok c1 ∧
    evaluate_fixed_portfolio two_races bet_part sample_budget = Ok c2 ∧
    pe_guaranteed_profit_units ev ≤ sumZ (pe_guaranteed_profit_units <$> [c1; c2]).
Proof.
  run (ev ← evaluate_fixed_portfolio two_races three_legs sample_budget;
       g ← derive_selected_support_graph two_races ev sample_budget;
       match g with
       | inr graph => groups ← split_disconnected_solution two_races ev graph; Ok (ev, graph, groups)
       | inl _ => Err TypeError
       end) (λ x, bool_decide (x.2 = [race_part; bet_part])) as ([[ev graph] groups] & Hrun & Hg).
  run (evaluate_fixed_portfolio two_races race_part sample_budget) (λ _, true) as (c1 & H1 & _).
  run (evaluate_fixed_portfolio two_races bet_part sample_budget) (λ _, true) as (c2 & H2 & _).
  apply bool_decide_eq_true_1 in Hg. cbn [snd] in Hg. subst groups.
  apply bind_Ok in Hrun as (ev' & Hev & Hrun). apply bind_Ok in Hrun as ([u|graph'] & Hgr & Hrun); [discriminate Hrun|].
  apply bind_Ok in Hrun as (groups' & Hsp & E). injection E as -> -> ->.
  exists ev, c1, c2. split_and!; [exact Hev|exact H1|exact H2|].
  exact (disconnected_parts_suffice two_races sample_budget three_legs ev graph [race_part; bet_part] [c1; c2] Hev Hgr Hsp
    ltac:(constructor; [exact H1|constructor; [exact H2|constructor]])).
Defined.

(** The admission search either gives up with a reason, or returns a
    certified portfolio whose claimed profit is guaranteed, or has examined the
    whole quantity domain and no portfolio is acceptable. *)
Theorem admission_sound `{Sha256} rq r :
  find_qualified rq = Ok r →
  (∃ u, r = unknown_result u) ∨
  (∃ s profit, or_solution r = Some s ∧ pp_guaranteed_profit_units (ps_payout_proof s) = Some profit ∧
     guarantees (rq_problem rq) (ps_quantities s) profit ∧ selection (rq_problem rq) (ps_quantities s) ∧
     or_optimality_status r = NOT_PROVEN) ∨
  (or_business_status r = NO_QUALIFIED_OPPORTUNITY ∧ or_solution r = None ∧
     ∀ ev, ¬ acceptable (rq_problem rq) (rq_budget rq) ev).
Proof.
  intros [?|[(s & Hc & ->)|(proof & -> & _ & _ & Hn)]]%find_qualified_spec; [by left|right; left|by right; right].
  destruct (certified_guarantees _ _ s Hc) as (profit & Hp & Hg & Hsel & _). by exists s, profit.
Qed.

Lemma admission_sound_witness :
  ∃ r s profit, find_qualified (admission_of cheap) = Ok r ∧ or_solution r = Some s ∧
    guarantees cheap (ps_quantities s) profit.
Proof.
  run (find_qualified (admission_of cheap)) (λ r, present (or_solution r)) as (r & Hr & (s & Hs)%some_with).
  destruct (admission_sound (admission_of cheap) r Hr) as [(u & E)|[(s' & profit & E & _ & Hg & _)|(_ & E & _)]].
  - rewrite E in Hs. discriminate Hs.
  - exists r, s', profit. split_and!; [exact Hr|exact E|exact Hg].
  - rewrite E in Hs. discriminate Hs.
Defined.

(** ** Problems, outcomes and costs *)

(** C33: validation reports no issue exactly for well-formed problems. *)
Theorem validate_problem_exact p : validate_problem p = [] ↔ wf_problem p.
Proof. apply validate_problem_wf. Qed.

(** enumerating the scenarios of a valid problem never fails.  Inside
    the state budget it lists exactly the allowed outcomes and there is one;
    otherwise the reason it gives (too many states, a contradictory model or
    an overflow of the count) is true. *)
Theorem scenarios_exact p budget :
  wf_problem p →
  ∃ e, enumerate_scenarios p budget false = Ok e ∧
  match se_scenarios e with
  | Some l => (∀ sc, sc ∈ l ↔ ∃ ω, allowed p ω ∧ sc = scenario p ω) ∧ l ≠ [] ∧
              Z.of_nat (length (joint_choices p)) ≤ bg_max_joint_states budget
  | None => se_unknown_reason e = Some NUMERIC_OVERFLOW ∨
            (se_unknown_reason e = Some ORACLE_STATE_LIMIT_EXCEEDED ∧
               bg_max_joint_states budget < Z.of_nat (length (joint_choices p))) ∨
            (se_unknown_reason e = Some CONTRADICTORY_CONSTRAINT_MODEL ∧ ∀ ω, ¬ allowed p ω)
  end.
Proof.
  intros Hwf. pose proof (wf_enumerable p Hwf) as Hen.
  destruct (enumerate_scenarios_cases p budget false Hen) as (e & He & Hc); [by apply rejects_strict, validate_problem_wf|].
  exists e. split; [done|]. destruct (se_scenarios e) as [l|].
  - destruct Hc as (-> & Hne & _ & Hle). split_and!; [|done..]. intros sc. by apply elem_of_allowed_scenarios.
  - destruct Hc as [?|[?|[? E]]]; [by left|by right; left|right; right]. split; [done|]. intros ω Hω.
    assert (Hin : scenario p ω ∈ allowed_scenarios p) by (apply elem_of_allowed_scenarios; eauto).
    rewrite E in Hin. by apply not_elem_of_nil in Hin.
Qed.

Lemma scenarios_exact_witness :
  ∃ e l, enumerate_scenarios cheap sample_budget false = Ok e ∧ se_scenarios e = Some l ∧
    ∀ sc, sc ∈ l ↔ ∃ ω, allowed cheap ω ∧ sc = scenario cheap ω.
Proof.
  run (enumerate_scenarios cheap sample_budget false) (λ e, present (se_scenarios e)) as (e & He & (l & Hl)%some_with).
  destruct (scenarios_exact cheap sample_budget cheap_wf) as (e' & He' & Hc). rewrite He in He'. injection He' as <-.
  rewrite Hl in Hc. destruct Hc as (Hc & _). exists e, l. split_and!; [exact He|exact Hl|exact Hc].
Defined.

(** A qualification passes exactly when the metric, as a rational
    number, compares to the threshold as the constraint says; no rounding of
    the integer cross-multiplication decides a case. *)
Theorem qualification_exact p c payout cost profit d b :
  wf_qualification c → metric_defined (qc_metric c) payout cost →
  qualification_passes p c payout cost profit (Some d) = Ok b →
  b = true ↔ meets c (metric_Q p (qc_metric c) payout cost profit d).
Proof. apply qualification_passes_exact. Qed.

Definition margin_floor : QualificationConstraint := {|
  qc_constraint_id := "margin"; qc_rule_version := "q1"; qc_metric := NET_MARGIN_PPM;
  qc_comparison := GREATER_THAN_OR_EQUAL; qc_threshold_numerator := 200000; qc_threshold_denominator := 1 |}.

Lemma qualification_exact_witness :
  qualification_passes cheap margin_floor 1000000 800000 200000 (Some release) = Ok true ∧
  meets margin_floor (metric_Q cheap NET_MARGIN_PPM 1000000 800000 200000 release).
Proof.
  split; [vm_compute; reflexivity|].
  apply (qualification_exact cheap margin_floor 1000000 800000 200000 release true); [by split|reflexivity|vm_compute; reflexivity|reflexivity].
Defined.

(** The cost bound of a selection charges every lot of every leg the
    price of the slice that contains it. *)
Theorem cost_exact p qs t :
  wf_problem p → cost_upper_bound_for_selected p qs = Ok t → t = portfolio_cost p qs.
Proof. apply cost_for_selected_reference. Qed.

Lemma cost_exact_witness : cost_upper_bound_for_selected cheap both = Ok 800000 ∧ 800000 = portfolio_cost cheap both.
Proof.
  split; [vm_compute; reflexivity|]. apply (cost_exact cheap both 800000 cheap_wf). vm_compute. reflexivity.
Defined.

(** ** Totality *)

(** C34: the three entry points never raise on a request whose state sets are
    stamped in UTC, valid or not; the one exception is the TypeError of two
    scenarios or groups that tie in a sort key. *)
Theorem search_total `{Sha256} rq mode :
  utc_states (rq_problem rq) →
  safe [TypeError] (solve_exhaustive rq mode) ∧ safe [TypeError] (find_qualified rq) ∧
  safe [TypeError] (diagnose_raw_arbitrage (rq_problem rq) (rq_budget rq)).
Proof.
  intros Hu. split_and!; [by apply solve_exhaustive_total|by apply find_qualified_total|by apply diagnose_total].
Qed.

Lemma search_total_witness : safe [TypeError] (solve_exhaustive (request_of cheap) OPTIMIZATION).
Proof. exact (proj1 (search_total (request_of cheap) OPTIMIZATION cheap_utc)). Defined.

(** A valid problem with an allowed outcome, inside the state budget, is
    evaluated for every admissible non-empty quantity vector; only a checked
    64-bit overflow or a tie of scenario fingerprints can stop it. *)
Theorem evaluate_complete `{Sha256} p qs sel budget n :
  wf_problem p → (∃ ω, allowed p ω) →
  raw_joint_state_count (sorted_states p) = Ok n → n ≤ bg_max_joint_states budget →
  selected_quantities p qs = Ok sel → sel ≠ [] →
  safe [OverflowError; TypeError] (evaluate_fixed_portfolio p qs budget).
Proof.
  intros Hwf [ω Hω] Hn Hle Hs Hne. eapply evaluate_total; try done; [set_solver|left; set_solver|].
  intros E. assert (Hin : scenario p ω ∈ allowed_scenarios p) by (apply elem_of_allowed_scenarios; [by apply wf_enumerable|eauto]).
  rewrite E in Hin. by apply not_elem_of_nil in Hin.
Qed.

(** An outcome of [cheap]: A settles YES and B settles NO. *)
Definition a_wins (contract : string) : TerminalAtom :=
  if (contract =? "A")%string then sample_atom "A-yes" NORMAL_YES "a" 1000000 else sample_atom "B-no" NORMAL_NO "b" 0.

Lemma a_wins_allowed : allowed cheap a_wins.
Proof.
  split.
  - intros s Hs. repeat (apply elem_of_cons in Hs as [->|Hs]); [..|by apply not_elem_of_nil in Hs];
      [apply list_elem_of_here|apply list_elem_of_further, list_elem_of_here].
  - constructor; [|constructor]. vm_compute. reflexivity.
  - constructor.
Qed.

Lemma evaluate_complete_witness : safe [OverflowError; TypeError] (evaluate_fixed_portfolio cheap both sample_budget).
Proof.
  apply (evaluate_complete cheap both both sample_budget 4 cheap_wf (ex_intro _ a_wins a_wins_allowed));
    [vm_compute; reflexivity|vm_compute; discriminate|vm_compute; reflexivity|discriminate].
Defined.

(** The union-find behind every grouping: joining the hyperedges one by
    one always succeeds, keeps a forest over the same keys, and puts two keys
    under one root exactly when a chain of hyperedges connects them. *)
Theorem union_find_exact K edges :
  Forall (λ e, e ≠ [] ∧ Forall (.∈ K) e) edges →
  ∃ m, foldM join_ids (singletons K) edges = Ok m ∧ forest m ∧ (∀ x, is_Some (m !! x) ↔ x ∈ K) ∧
    ∀ x y r s, root m x r → root m y s → r = s ↔ connected edges x y.
Proof. apply union_find_correct. Qed.

Lemma union_find_exact_witness :
  ∃ m, foldM join_ids (singletons ["a"; "b"; "c"]) [["a"; "b"]] = Ok m ∧
    ∀ x y r s, root m x r → root m y s → r = s ↔ connected [["a"; "b"]] x y.
Proof.
  destruct (union_find_exact ["a"; "b"; "c"] [["a"; "b"]]) as (m & Hm & _ & _ & Hc).
  - constructor; [|constructor]. split; [discriminate|]. constructor; [apply list_elem_of_here|].
    constructor; [apply list_elem_of_further, list_elem_of_here|constructor].
  - exists m. split; [exact Hm|exact Hc].
Defined.

(** ** Canonical forms *)

(** A valid problem can still stop the search: a terminal state set whose
    observation window is the same instant in another UTC offset passes
    validation, and the fingerprint of the problem then raises. *)
Theorem offset_window_crashes :
  let k := {| ok_schema_version := OBSERVATION_SCHEMA_V1; ok_oracle_id := "uma"; ok_indicator_id := "election";
              ok_observation_start := Datetime (dt_us as_of) (Some 28800);
              ok_observation_end := Datetime (dt_us release) (Some 28800);
              ok_timezone := "UTC"; ok_rule_version := "r1" |} in
  let p := problem_of [sample_action "a" "A" "polymarket" 400000 1] [sample_state "A" "a" k 1000000 500000] [] []
             [profit_floor 1] in
  validate_problem p = [] ∧ fingerprint_problem p = Err not_canonical ∧
  solve_exhaustive (request_of p) OPTIMIZATION = Err not_canonical ∧
  build_relation_components p None = Err not_canonical.
Proof. vm_compute. done. Qed.
