(* ===== verification/DecodeTheorems.v ===== *)
(** * Properties of the normal forms and of the decoders

    Fingerprints are canonical, a request survives its payload, and the
    decoder lets only well-formed problems through.

    Every result of the exhaustive solver, the raw diagnosis and the admission
    search satisfies [validate_result], and the proofs inside it satisfy the
    branch checks of [payout_proof_from_payload]. *)

From S2P Require Import Prelude PyValue NLeg NLegForms NLegValidate NLegWf IsoFormat IsoFormatCorrect Decode UnionFind Oracle OracleScenario OracleEval OracleQualify Support Search SupportCorrect SplitCorrect SearchCorrect LinearModel TerminalModel PartialFill NLegFormsCorrect DecodeCorrect Samples.
Local Open Scope Z_scope.

(** What [result_from_payload] demands of a result and of its proofs. *)
Record accepted (r : OracleResult) : Prop := {
  ac_result : validate_result r = Ok tt;
  ac_solution : ∀ s, or_solution r = Some s →
    pp_result_kind (ps_payout_proof s) = KIND_PORTFOLIO ∧ check_payout_proof (ps_payout_proof s) = Ok tt;
  ac_negative : ∀ proof, or_negative_proof r = Some proof → check_payout_proof proof = Ok tt;
}.

(** ** Rejection counts *)

Lemma merge_lookup (counts : gmap string Z) (l : list string) k : NoDup l →
  foldl (λ m i, <[i := default 0 (m !! i) + 1]> m) counts l !! k
  = if decide (k ∈ l) then Some (default 0 (counts !! k) + 1) else counts !! k.
Proof.
  intros Hnd. revert counts; induction Hnd as [|i l Hi Hnd IH]; intros counts; simpl.
  - done.
  - rewrite IH. destruct (decide (k = i)) as [->|Hne].
    + rewrite decide_False by done. rewrite lookup_insert_eq. by rewrite decide_True by set_solver.
    + rewrite lookup_insert_ne by done. destruct (decide (k ∈ l)) as [Hk|Hk].
      * by rewrite decide_True by (by apply list_elem_of_further).
      * by rewrite decide_False by (by rewrite elem_of_cons; intros [?|?]).
Qed.

(** No count exceeds the number of vectors examined. *)
Definition counts_within (counts : gmap string Z) (n : Z) : Prop := 0 ≤ n ∧ ∀ k v, counts !! k = Some v → 0 ≤ v ≤ n.

Lemma merge_within counts n ids : counts_within counts n → counts_within (merge_rejections counts ids) (n + 1).
Proof.
  intros [Hn Hc]. split; [lia|]. intros k v. unfold merge_rejections. rewrite merge_lookup by apply NoDup_elements.
  case_decide.
  - intros [= <-]. destruct (counts !! k) as [w|] eqn:E; simpl; [|lia]. specialize (Hc k w E). lia.
  - intros E. specialize (Hc k v E). lia.
Qed.

Lemma sorted_items_within counts n :
  counts_within counts n → forallb (λ c, c.2 <=? n) (sorted_items counts) = true.
Proof.
  intros [_ Hc]. apply forallb_forall. intros [k v] Hin%list_elem_of_In. simpl.
  apply elem_of_sort_on, elem_of_map_to_list in Hin. apply Z.leb_le. by apply (Hc k).
Qed.

(** ** The domain is never empty *)

Lemma quantity_vectors_positive p : 0 < Z.of_nat (length (quantity_vectors p)).
Proof.
  unfold quantity_vectors. rewrite length_product.
  induction (Search.sorted_actions p) as [|a l IH]; csimpl; [lia|]. apply Z.mul_pos_pos; [unfold quantity_range; simpl; lia|exact IH].
Qed.

Lemma state_sizes_positive (l : list TerminalStateSet) p :
  Forall (wf_state p) l → 0 < foldr Z.mul 1 ((λ s, Z.of_nat (length (ts_atoms s))) <$> l).
Proof.
  induction 1 as [|s l Hs Hl IH]; csimpl; [lia|]. pose proof (ws_atoms _ _ Hs).
  destruct (ts_atoms s); [done|]. apply Z.mul_pos_pos; [simpl; lia|done].
Qed.

Lemma joint_states_positive p n : wf_problem p → joint_states_product p = Ok n → 0 < n.
Proof. intros Hwf ->%checked_product_Ok. apply (state_sizes_positive _ p), Hwf. Qed.

Lemma joint_fold_positive p :
  wf_problem p → 0 < foldl (λ n s, n * Z.of_nat (length (ts_atoms s))) 1 (pb_terminal_state_sets p).
Proof.
  intros Hwf. enough (∀ l n, 0 < n → Forall (wf_state p) l →
    0 < foldl (λ n s, n * Z.of_nat (length (ts_atoms s))) n l) as H by (apply H; [lia|apply Hwf]).
  intros l; induction l as [|s l IH]; intros n Hn Hl; simpl; [done|]. apply Forall_cons in Hl as [Hs Hl].
  apply IH; [|done]. pose proof (ws_atoms _ _ Hs). destruct (ts_atoms s); [done|]. apply Z.mul_pos_pos; [done|simpl; lia].
Qed.

(** ** Answers *)

Section answers.
Context `{Sha256}.

Lemma certified_accepted p budget s : certified p budget s →
  pp_result_kind (ps_payout_proof s) = KIND_PORTFOLIO ∧ check_payout_proof (ps_payout_proof s) = Ok tt.
Proof.
  intros [ev [(qs & Hev%evaluate_sound) _ (graph & groups & fp & _ & _ & _ & ->) _]]. split; [done|].
  destruct (es_release _ _ _ Hev) as (d & Hd & _).
  unfold check_payout_proof, portfolio_branch, portfolio_proof. simpl. rewrite Hd. done.
Qed.

Lemma unknown_accepted u : accepted (unknown_result u).
Proof. by split. Qed.

Lemma optimal_accepted p budget s profit : certified p budget s →
  profit = pp_guaranteed_profit_units (ps_payout_proof s) →
  accepted (feasible_result OPTIMAL {| ob_lower_bound_units := profit; ob_upper_bound_units := profit;
                                       ob_gap_units := Some 0; ob_closed := true |} s).
Proof.
  intros Hs ->. split; [|intros s' [= <-]; by eapply certified_accepted|done].
  destruct Hs as [ev Hc]. rewrite (certifies_profit _ _ _ _ Hc). unfold validate_result. simpl.
  by rewrite (bool_decide_eq_true_2 (Some (pe_guaranteed_profit_units ev) = _)).
Qed.

Lemma admission_accepted p budget s : certified p budget s → accepted (feasible_result NOT_PROVEN (admission_bounds s) s).
Proof.
  intros Hs. split; [|intros s' [= <-]; by eapply certified_accepted|done].
  destruct Hs as [ev Hc]. unfold admission_bounds. by rewrite (certifies_profit _ _ _ _ Hc).
Qed.

Lemma search_proof_checked rq audit conclusion source proof :
  build_exhaustive_search_proof rq audit conclusion source = Ok proof →
  au_quantity_vectors_total audit = au_quantity_vectors_examined audit →
  0 < au_quantity_vectors_total audit → 0 < au_joint_states_per_vector audit →
  forallb (λ c, c.2 <=? au_quantity_vectors_examined audit) (au_rejection_counts audit) = true →
  (conclusion = NO_QUALIFIED_OPPORTUNITY ↔ source = None) →
  check_payout_proof proof = Ok tt ∧ result_kind_value (pp_result_kind proof) = business_status_value conclusion ∧
  pp_source_problem_fingerprint proof = source ∧
  pp_joint_states_per_vector proof = Some (au_joint_states_per_vector audit).
Proof.
  unfold build_exhaustive_search_proof. intros (kind & Hk%of_option_Ok & Hr)%bind_Ok. apply bind_Ok in Hr as (fp & _ & Hr).
  apply bind_Ok in Hr as (rf & _ & Hr). injection Hr as <-. intros E Ht Hj Hc Hsrc. simpl.
  destruct audit as [total examined joint counts]; simpl in *. subst examined.
  split; [|by destruct conclusion; simplify_eq/=].
  unfold check_payout_proof, negative_branch. simpl.
  rewrite Z.eqb_refl, (proj2 (Z.ltb_lt _ _) Ht), (proj2 (Z.ltb_lt _ _) Hj), Hc. simpl.
  destruct conclusion; simplify_eq/=; destruct source; simpl; try done;
    [by specialize (proj1 Hsrc eq_refl) | by specialize (proj2 Hsrc eq_refl)].
Qed.

Lemma negative_accepted status bounds proof joint n :
  (status = NO_QUALIFIED_OPPORTUNITY ∧ bounds = no_bounds ∨
   status = NO_ARBITRAGE ∧ is_Some (pp_source_problem_fingerprint proof) ∧
     ∃ v, v ≤ 0 ∧ bounds = {| ob_lower_bound_units := Some v; ob_upper_bound_units := Some v;
                              ob_gap_units := Some 0; ob_closed := true |}) →
  check_payout_proof proof = Ok tt → result_kind_value (pp_result_kind proof) = business_status_value status →
  pp_quantity_vectors_total proof = Some n → pp_quantity_vectors_examined proof = Some n →
  pp_joint_states_per_vector proof = Some joint → 0 < n → 0 < joint →
  accepted (negative_result status bounds proof).
Proof.
  intros Hs Hp Hk Ht He Hj Hn Hjp. split; [|done|by intros pr [= <-]].
  unfold validate_result, negative_result. cbn -[result_kind_value business_status_value].
  rewrite Hk, String.eqb_refl, Ht, He, Hj, (proj2 (Z.ltb_lt _ _) Hn), (proj2 (Z.ltb_lt _ _) Hjp).
  rewrite (bool_decide_eq_true_2 (Some n = Some n)) by done.
  destruct Hs as [[-> ->]|(-> & [src Hsrc] & v & Hv & ->)]; [done|].
  simpl. rewrite Hsrc, (bool_decide_eq_true_2 (Some v = Some v)), (proj2 (Z.leb_le _ _) Hv) by done. done.
Qed.
End answers.

(** ** The loops *)

Section loops.
Context `{Sha256} (p : ArbitrageProblem) (budget : OracleBudget).

Lemma solve_loop_within st vectors st' :
  solve_loop p budget st vectors = Ok (inr st') → counts_within (st_rejections st) (st_examined st) →
  counts_within (st_rejections st') (st_examined st').
Proof.
  revert st; induction vectors as [|lots vectors IH]; intros st; cbn [solve_loop]; [by intros [= <-]|].
  intros ([u|st1] & Hs & Hr)%bind_Ok Hc; [done|]. apply (IH st1 Hr). clear IH Hr. revert Hs. unfold solve_step.
  destruct (negb (any_lots lots)); [intros [= <-]; by apply merge_within|].
  intros (ev & _ & Hs)%bind_Ok. destruct (pe_failed_qualification_ids ev); [|injection Hs as <-; by apply merge_within].
  apply bind_Ok in Hs as ([[u|sols] rej] & _ & Hs); [done|]. apply bind_Ok in Hs as (best & _ & [= <-]). by apply merge_within.
Qed.

Lemma admission_loop_within counts n vectors counts' n' :
  admission_loop p budget counts n vectors = Ok (inr (counts', n')) → counts_within counts n → counts_within counts' n'.
Proof.
  revert counts n; induction vectors as [|lots vectors IH]; intros counts n; cbn [admission_loop]; [by intros [= <- <-]|].
  intros Hr Hc. destruct (negb (any_lots lots)); [eapply IH; [exact Hr|by apply merge_within]|].
  apply bind_Ok in Hr as (ev & _ & Hr).
  destruct (pe_failed_qualification_ids ev); [|eapply IH; [exact Hr|by apply merge_within]].
  apply bind_Ok in Hr as ([[u|[s|]] rej] & _ & Hr); [done|done|]. eapply IH; [exact Hr|by apply merge_within].
Qed.
End loops.

Lemma initial_within : counts_within ∅ 0.
Proof. split; [done|]. intros k v. by rewrite lookup_empty. Qed.

Section searches.
Context `{Sha256}.

Lemma solve_exhaustive_accepted rq mode r : solve_exhaustive rq mode = Ok r → accepted r.
Proof.
  intros Hr. pose proof Hr as Hr0. unfold solve_exhaustive in Hr. apply bind_Ok in Hr as ([u|] & Hreq & Hr).
  { injection Hr as <-. apply unknown_accepted. }
  apply search_request_valid in Hreq. apply bind_Ok in Hr as ([u|st] & Hloop & Hr); [injection Hr as <-; apply unknown_accepted|].
  pose proof (solve_loop_within _ _ _ _ _ Hloop initial_within) as Hw.
  apply solve_loop_spec in Hloop as (He & Hc & _ & _); [|apply initial_certified].
  apply bind_Ok in Hr as (total & Htot%quantity_vector_count_exact & Hr).
  apply bind_Ok in Hr as (joint & Hj%joint_states_positive & Hr); [|done].
  destruct (st_best st) as [s|]; [injection Hr as <-; by apply (optimal_accepted (rq_problem rq) (rq_budget rq)); [apply Hc|]|].
  apply bind_Ok in Hr as (proof & Hp & [= <-]). pose proof (quantity_vectors_positive (rq_problem rq)).
  pose proof (search_proof_inv _ _ _ _ _ Hp) as [Ht Hx]. simpl in He.
  assert (total = st_examined st) as -> by (rewrite Htot, He; lia).
  apply search_proof_checked in Hp as (Hck & Hk & _ & Hjo); simpl; [|done|lia|done|by apply sorted_items_within|done].
  eapply negative_accepted; [by left|exact Hck|exact Hk|exact Ht|exact Hx|exact Hjo|simpl; lia|done].
Qed.

Lemma find_qualified_accepted rq r : find_qualified rq = Ok r → accepted r.
Proof.
  unfold find_qualified. intros ([u|] & Hreq & Hr)%bind_Ok; [injection Hr as <-; apply unknown_accepted|].
  apply search_request_valid in Hreq. apply bind_Ok in Hr as (total & Htot%quantity_vector_count_exact & Hr).
  apply bind_Ok in Hr as (out & Hloop & Hr). pose proof (admission_loop_spec _ _ _ _ _ _ Hloop) as Hspec.
  destruct out as [r'|[counts n]].
  - injection Hr as <-. destruct Hspec as [(u & ->)|(s & Hs & ->)]; [apply unknown_accepted|by eapply admission_accepted].
  - apply admission_loop_within in Hloop; [|apply initial_within]. destruct Hspec as [-> _].
    apply bind_Ok in Hr as (proof & Hp & [= <-]). pose proof (quantity_vectors_positive (rq_problem rq)).
    pose proof (search_proof_inv _ _ _ _ _ Hp) as [Ht Hx]. simpl in Ht, Hx. rewrite Z.add_0_l in *.
    assert (total = Z.of_nat (length (quantity_vectors (rq_problem rq)))) as -> by done.
    pose proof (joint_fold_positive _ Hreq) as Hj.
    apply search_proof_checked in Hp as (Hck & Hk & _ & Hjo); simpl; [|done|done|done|by apply sorted_items_within|done].
    eapply negative_accepted; [by left|exact Hck|exact Hk|exact Ht|exact Hx|exact Hjo|done|done].
Qed.

Lemma diagnose_accepted p budget r : diagnose_raw_arbitrage p budget = Ok r → accepted r.
Proof.
  unfold diagnose_raw_arbitrage. intros (result & Hr & Hd)%bind_Ok. pose proof (solve_exhaustive_accepted _ _ _ Hr) as Ha.
  destruct (bool_decide _) eqn:Eq; cbn [negb] in Hd; [|by injection Hd as <-].
  apply bind_Ok in Hd as (s & Hs%of_option_Ok & Hd). apply bind_Ok in Hd as (profit & Hp%of_option_Ok & Hd).
  destruct (Z.ltb_spec 0 profit) as [|Hle]; [by injection Hd as <-|].
  apply bind_Ok in Hd as (total & Htot & Hd). apply bind_Ok in Hd as (joint & Hj & Hd).
  apply bind_Ok in Hd as (source & _ & Hd). apply bind_Ok in Hd as (proof & Hpf & [= <-]).
  destruct (or_unknown_reason result) eqn:Eu.
  { apply solve_exhaustive_unknown in Hr as [w ->]; [done|by eauto]. }
  destruct (solve_exhaustive_spec _ _ _ Hr Eu) as (Hwf & best & Hc & _ & Hb).
  destruct best as [b|]; [|destruct Hb as (pr & -> & _); done]. subst result. simpl in Hs. injection Hs as ->.
  apply joint_states_positive in Hj; [|done]. apply quantity_vector_count_exact in Htot.
  pose proof (quantity_vectors_positive (rq_problem (diagnostic_request p budget))).
  pose proof (search_proof_inv _ _ _ _ _ Hpf) as [Ht Hx].
  apply search_proof_checked in Hpf as (Hck & Hk & Hsrc & Hjo); simpl; [|done|lia|done| |done].
  2: { rewrite andb_true_r. apply Z.leb_le. lia. }
  eapply negative_accepted; [right|exact Hck|exact Hk|exact Ht|exact Hx|exact Hjo|simpl; lia|done].
  split_and!; [done|by rewrite Hsrc; eauto|]. exists profit. split; [done|]. simpl. by rewrite Hp.
Qed.
End searches.

(** * Properties of the normal forms of a problem *)

(** normalizing a legacy whole-dollar problem scales the money and
    nothing else: in corresponding outcomes the profit of any quantity vector
    in micro-dollars is a million times the legacy profit. *)
Theorem normalize_scales_profit p p' ω ω' qs :
  normalize_problem p = Ok p' → pb_valuation_unit_id p ≠ MICRO_VALUATION_UNIT →
  (∀ a, a ∈ pb_actions p → normalize_legacy_atom (ω (ca_market_contract_id a)) = Ok (ω' (ca_market_contract_id a))) →
  realized_payout p' ω' qs - portfolio_cost p' qs
  = (realized_payout p ω qs - portfolio_cost p qs) * USD_UNITS_PER_DOLLAR.
Proof.
  intros Hn Hu Hω. rewrite (normalize_payout p p' ω ω' qs Hn Hu Hω), (normalize_cost p p' qs Hn Hu). lia.
Qed.

(** A stored problem in whole dollars: one contract, one leg. *)
Definition legacy : ArbitrageProblem := {|
  pb_schema_version := PROBLEM_SCHEMA_V1; pb_problem_id := "legacy"; pb_as_of := as_of; pb_valuation_unit_id := "USD";
  pb_actions := [sample_action "a" "A" "polymarket" 3 2]; pb_terminal_state_sets := [sample_state "A" "a" key 1 0];
  pb_constraint_model := {| cm_relations := []; cm_forbidden_atom_combinations := [] |};
  pb_qualification_constraints := [profit_floor 1] |}.

Lemma normalize_scales_profit_witness :
  ∃ p', normalize_problem legacy = Ok p' ∧
    realized_payout p' (λ _, sample_atom "A-yes" NORMAL_YES "a" 1000000) [AQ "a" 2] - portfolio_cost p' [AQ "a" 2]
    = (realized_payout legacy (λ _, sample_atom "A-yes" NORMAL_YES "a" 1) [AQ "a" 2] - portfolio_cost legacy [AQ "a" 2])
      * USD_UNITS_PER_DOLLAR.
Proof.
  run (normalize_problem legacy) (λ _, true) as (p' & Hp & _). exists p'. split; [exact Hp|].
  apply (normalize_scales_profit legacy p' (λ _, sample_atom "A-yes" NORMAL_YES "a" 1)
    (λ _, sample_atom "A-yes" NORMAL_YES "a" 1000000) [AQ "a" 2] Hp); [discriminate|].
  intros a _. vm_compute. reflexivity.
Defined.

(** The fingerprint does not depend on the order of the parts: the
    sorted form of a problem has the same fingerprint, sorting it again
    changes nothing, and the canonical payload of a problem is the plain dump
    of its sorted form. *)
Theorem fingerprint_canonical `{Sha256} p :
  fingerprint_problem (sorted_problem p) = fingerprint_problem p ∧
  sorted_problem (sorted_problem p) = sorted_problem p ∧
  problem_json p = raw_problem_json (sorted_problem p).
Proof. split_and!; [apply fingerprint_problem_sorted|apply sorted_problem_idemp|apply problem_json_sorted]. Qed.

(** * Properties of the payload decoders

    Decoding inverts the canonical payload, the strict decoder lets only
    well-formed problems through, and what the searches produce passes the
    checks of the result decoder. *)

(** C35: a request survives its canonical payload.  With a well-formed problem,
    datetimes of the years 1 to 9999 and a positive 64-bit budget, the decoder
    accepts the payload and returns the request with its problem in sorted
    form; re-encoding that gives the same payload, hence the same
    fingerprint. *)
Theorem request_round_trip `{Sha256} r :
  rq_schema_version r = REQUEST_SCHEMA_V1 → wf_problem (rq_problem r) → wf_budget (rq_budget r) →
  Forall valid_datetime (problem_datetimes (rq_problem r)) →
  ∃ r', request_from_payload (request_json r) = Ok r' ∧
    rq_problem r' = sorted_problem (rq_problem r) ∧ rq_mode r' = rq_mode r ∧ rq_budget r' = rq_budget r ∧
    request_json r' = request_json r ∧ fingerprint_request r' = fingerprint_request r.
Proof.
  intros Hs Hwf Hb Hd. eexists. split; [by apply request_decode|]. split_and!; try done.
  - unfold request_json. simpl. by rewrite problem_json_sorted_idemp.
  - unfold fingerprint_request, request_json. cbn [rq_problem rq_schema_version rq_mode rq_budget].
    by rewrite (Forall_is_utc_perm _ _ (problem_datetimes_sorted (rq_problem r))), problem_json_sorted_idemp.
Qed.

Lemma request_round_trip_witness :
  ∃ r', request_from_payload (request_json (request_of cheap)) = Ok r' ∧
    fingerprint_request r' = fingerprint_request (request_of cheap).
Proof.
  destruct (request_round_trip (request_of cheap) eq_refl cheap_wf
    ltac:(repeat split; discriminate) ltac:(repeat constructor; vm_compute; discriminate))
    as (r' & Hr & _ & _ & _ & _ & Hf).
  exists r'. split; [exact Hr|exact Hf].
Defined.

(** C36: the problem decoder is a type check.  The strict decoder lets through
    exactly the payloads whose fields form a well-formed problem; the lenient
    one (used for requests) lets through exactly those whose fields form a
    well-formed problem once unknown data is filled in: the rule of the
    contract for an atom without rule, a release at [as_of] for an atom
    without release, a payout of zero for an action without payout.  What they
    return is that problem in canonical order, well formed when strict; every
    other payload that has the fields raises with all issues of the problem. *)
Theorem decoded_problem_well_formed payload allow p :
  (problem_from_payload payload allow = Ok p ↔
   ∃ fields, problem_fields payload = Ok fields ∧ p = sorted_problem fields ∧
     if allow then wf_problem (complete_problem fields) else wf_problem fields) ∧
  (problem_from_payload payload allow = Ok p → sorted_problem p = p ∧ (allow = false → wf_problem p)) ∧
  (∀ fields, problem_fields payload = Ok fields →
     ¬ (if allow then wf_problem (complete_problem fields) else wf_problem fields) →
     problem_from_payload payload allow = Err (invalid_problem (validate_problem fields))).
Proof.
  assert (Hiff : problem_from_payload payload allow = Ok p ↔
    ∃ fields, problem_fields payload = Ok fields ∧ p = sorted_problem fields ∧ admitted_problem allow fields).
  { split.
    - intros Hr. pose proof Hr as (fields & Hf & _)%bind_Ok. exists fields. rewrite (problem_from_payload_fields _ _ _ Hf) in Hr.
      destruct (decide _); [by injection Hr as <-|done].
    - intros (fields & Hf & -> & Ha). rewrite (problem_from_payload_fields _ _ _ Hf). by rewrite decide_True. }
  split; [exact Hiff|]. split.
  - intros (fields & _ & -> & Ha)%Hiff. split; [apply sorted_problem_idemp|]. intros ->. by apply sorted_problem_wf.
  - intros fields Hf Ha. rewrite (problem_from_payload_fields _ _ _ Hf). by rewrite decide_False.
Qed.

(** [cheap] with atoms of which neither rule nor release nor payout is known. *)
Definition vague : ArbitrageProblem := {|
  pb_schema_version := pb_schema_version cheap; pb_problem_id := pb_problem_id cheap; pb_as_of := pb_as_of cheap;
  pb_valuation_unit_id := pb_valuation_unit_id cheap; pb_actions := pb_actions cheap;
  pb_terminal_state_sets := (λ s, {|
    ts_market_contract_id := ts_market_contract_id s; ts_settlement_observation_key := ts_settlement_observation_key s;
    ts_rule_version := ts_rule_version s;
    ts_atoms := (λ t, {| ta_atom_id := ta_atom_id t; ta_kind := ta_kind t; ta_rule_version := None; ta_payouts := [];
                         ta_capital_release_at := None |}) <$> ts_atoms s |}) <$> pb_terminal_state_sets cheap;
  pb_constraint_model := pb_constraint_model cheap; pb_qualification_constraints := pb_qualification_constraints cheap |}.

Lemma decoded_problem_well_formed_witness :
  (∃ p, problem_from_payload (problem_json cheap) false = Ok p ∧ wf_problem p) ∧
  (∃ p fields, problem_from_payload (problem_json vague) true = Ok p ∧ problem_fields (problem_json vague) = Ok fields ∧
     wf_problem (complete_problem fields)) ∧
  (∃ e, problem_from_payload (problem_json vague) false = Err e).
Proof.
  split_and!.
  - run (problem_from_payload (problem_json cheap) false) (λ _, true) as (p & Hp & _).
    exists p. split; [exact Hp|]. apply (decoded_problem_well_formed (problem_json cheap) false p); [exact Hp|reflexivity].
  - run (problem_from_payload (problem_json vague) true) (λ _, true) as (p & Hp & _).
    destruct (proj1 (proj1 (decoded_problem_well_formed (problem_json vague) true p)) Hp) as (fields & Hf & _ & Hwf).
    exists p, fields. split_and!; [exact Hp|exact Hf|exact Hwf].
  - destruct (problem_from_payload (problem_json vague) false) as [p|e] eqn:Hp; [by vm_compute in Hp|by exists e].
Defined.

(** what the searches return is what the decoder accepts: each result of
    the exhaustive solver, of the raw diagnosis and of the admission search
    passes [_validate_result], and the portfolio or exhaustive proof inside it
    passes the branch checks of [_payout_proof_from_payload]. *)
Theorem results_accepted `{Sha256} r :
  (∃ rq mode, solve_exhaustive rq mode = Ok r) ∨ (∃ rq, find_qualified rq = Ok r) ∨
  (∃ p budget, diagnose_raw_arbitrage p budget = Ok r) →
  validate_result r = Ok tt ∧
  (∀ s, or_solution r = Some s →
     pp_result_kind (ps_payout_proof s) = KIND_PORTFOLIO ∧ check_payout_proof (ps_payout_proof s) = Ok tt) ∧
  (∀ proof, or_negative_proof r = Some proof → check_payout_proof proof = Ok tt).
Proof.
  intros Hr. assert (Ha : accepted r).
  { destruct Hr as [(rq & mode & Hr)|[(rq & Hr)|(p & budget & Hr)]].
    - by eapply solve_exhaustive_accepted.
    - by eapply find_qualified_accepted.
    - by eapply diagnose_accepted. }
  destruct Ha. done.
Qed.

Lemma results_accepted_witness :
  ∃ r proof, diagnose_raw_arbitrage dear sample_budget = Ok r ∧ or_negative_proof r = Some proof ∧
    validate_result r = Ok tt ∧ check_payout_proof proof = Ok tt.
Proof.
  run (diagnose_raw_arbitrage dear sample_budget) (λ r, present (or_negative_proof r)) as (r & Hr & (proof & Hp)%some_with).
  destruct (results_accepted r (or_intror (or_intror (ex_intro _ dear (ex_intro _ sample_budget Hr))))) as (Hv & _ & Hn).
  exists r, proof. split_and!; [exact Hr|exact Hp|exact Hv|exact (Hn proof Hp)].
Defined.
