(* ===== verification/FillTheorems.v ===== *)
(** * Properties of the partial-fill adversary and its proof records *)

From S2P Require Import Prelude PyValue NLeg NLegForms NLegValidate NLegWf Oracle OracleScenario OracleEval OracleQualify LinearModel TerminalModel SupportCorrect TerminalCorrect PartialFill NLegFormsCorrect FillCorrect FillProof FillProofCorrect Samples.
Local Open Scope Z_scope.

(** ** Samples *)

Definition fill_fields (cap : Z) (legs : list FillLeg) (p : ArbitrageProblem) : FillAdversaryProblem := {|
  fa_schema_version := FILL_ADVERSARY_SCHEMA_V1; fa_problem_kind := FILL_ADVERSARY_PROBLEM_KIND;
  fa_execution_solution_fingerprint := "solution"; fa_execution_solution_payload_fingerprint := "payload";
  fa_model_fingerprint := "model"; fa_quote_fingerprint := "quotes"; fa_cost_fingerprint := "costs";
  fa_order_semantics_fingerprint := "semantics"; fa_order_semantics_version := ORDER_SEMANTICS_SCHEMA_V1;
  fa_cap_config_version := "caps"; fa_max_partial_fill_loss := cap; fa_max_auto_repair_loss := 0;
  fa_legs := legs; fa_source_problem := sorted_problem p; fa_fingerprint := "" |}.

Definition fill_of (cap : Z) (legs : list FillLeg) (p : ArbitrageProblem) : FillAdversaryProblem :=
  let fields := fill_fields cap legs p in
  set_fill_fingerprint fields (fingerprint_json (JObj (fill_problem_fields fields))).

Definition leg_a : FillLeg := {|
  fl_action_id := "a"; fl_venue_id := "polymarket"; fl_quantity_lots := 1; fl_order_type := "FOK";
  fl_semantics := ATOMIC; fl_max_cost_units := 400000; fl_max_fee_units := 0 |}.
Definition leg_b : FillLeg := {|
  fl_action_id := "b"; fl_venue_id := "predict.fun"; fl_quantity_lots := 1; fl_order_type := "LIMIT";
  fl_semantics := PARTIAL; fl_max_cost_units := 400000; fl_max_fee_units := 10000 |}.

(** Both legs of [cheap]; the worst is that only [b] fills and A wins. *)
Definition race_fill (cap : Z) : FillAdversaryProblem := fill_of cap [leg_a; leg_b] cheap.

Definition only_b (action_id : string) : Z := if (action_id =? "b")%string then 1 else 0.
Definition a_settles (contract : string) : TerminalAtom :=
  if (contract =? "A")%string then sample_atom "A-yes" NORMAL_YES "a" 1000000 else sample_atom "B-no" NORMAL_NO "b" 0.

Definition model_of (fp : FillAdversaryProblem) : LinearModel :=
  match compile_fill_adversary fp with Ok c => cf_model c | Err _ => linear_model [] [] None end.

(** The answer of a solver that found the point of [f] and [ω]. *)
Definition answer (fp : FillAdversaryProblem) (f : string → Z) (ω : string → TerminalAtom) (v : Z) : BackendResult := {|
  br_status := NATIVE_OPTIMAL; br_values := fill_assignment fp f ω; br_objective_value := Some v;
  br_objective_bound := Some v; br_native_status := "OPTIMAL"; br_solve_ns := 1 |}.

(** A backend that can solve one model. *)
Definition backend_for (fp : FillAdversaryProblem) (r : BackendResult) : SolverBackend := {|
  sb_name := "cp_sat"; sb_version := "9";
  sb_solve := λ _ m _, if decide (m = model_of fp) then Ok r else Err ModuleNotFoundError |}.

Lemma backend_for_optimal fp r :
  (∀ o v x, lm_objective (model_of fp) = Some o → br_objective_value r = Some v → feasible (model_of fp) x →
     activity x (lo_coefficients o) ≤ v) →
  optimal_is_optimal (backend_for fp r).
Proof. intros Hv k m t r' o v. simpl. case_decide as E; [|done]. subst m. intros [= <-] _ Ho _ Hr x Hx. by eapply Hv. Qed.

(** The bounded oracle certifies the answer it agrees with. *)
Lemma oracle_backend_optimal fp budget r res w :
  wf_fill fp → enumerate_fill_adversary fp budget = Ok res → fo_closed res = true → fo_worst_loss_units res = Some w →
  br_objective_value r = Some w → is_Some (lm_objective (model_of fp)) → optimal_is_optimal (backend_for fp r).
Proof.
  intros Hfp He Hc Hw Hr Hs. apply backend_for_optimal. intros o v x Ho Hv Hx.
  unfold model_of in Ho, Hx, Hs. destruct (compile_fill_adversary fp) as [c|] eqn:Ec; [|by destruct Hs].
  destruct (fill_point_sound fp c x o Hfp Ec Hx Ho) as (Had & Hω & ->). rewrite Hr in Hv. injection Hv as <-.
  destruct (enumerate_fill_spec fp budget Hfp) as (res' & He' & Hcl & _). rewrite He in He'. injection He' as <-.
  destruct (Hcl Hc) as (w' & Hw' & Hsp). rewrite Hw in Hw'. injection Hw' as <-.
  etrans; [by apply objective_le_loss|]. by apply Hsp.
Qed.

Lemma race_fill_constructed cap : check_fill_problem (race_fill cap) = Ok tt → constructed (race_fill cap).
Proof. intros Hc. split; [|done|apply sorted_problem_idemp]. by repeat constructor. Qed.

Definition worst_answer (cap : Z) : BackendResult := answer (race_fill cap) only_b a_settles 410000.
Definition solver (cap : Z) : SolverBackend := backend_for (race_fill cap) (worst_answer cap).

Lemma race_fill_500_constructed : constructed (race_fill 500000).
Proof. apply race_fill_constructed. vm_compute. reflexivity. Qed.

Lemma race_fill_100_constructed : constructed (race_fill 100000).
Proof. apply race_fill_constructed. vm_compute. reflexivity. Qed.

Lemma race_fill_wf : wf_fill (race_fill 500000).
Proof. exact (check_wf_fill _ tt (co_legs _ race_fill_500_constructed) (co_checked _ race_fill_500_constructed)). Qed.

Lemma solver_optimal : optimal_is_optimal (solver 500000).
Proof.
  run (enumerate_fill_adversary (race_fill 500000) sample_budget)
    (λ r, fo_closed r && bool_decide (fo_worst_loss_units r = Some 410000)) as (r & Hr & [Hc Hw]%andb_true_iff).
  apply bool_decide_eq_true_1 in Hw.
  apply (oracle_backend_optimal _ sample_budget _ r 410000 race_fill_wf Hr Hc Hw); [reflexivity|].
  assert (E : present (lm_objective (model_of (race_fill 500000))) = true) by (vm_compute; reflexivity).
  apply some_with in E as [o ->]. eauto.
Qed.

Lemma race_fill_payouts : payouts_nonneg (race_fill 500000).
Proof.
  intros s t y Hs Ht Hy _.
  assert (E : forallb (λ s, forallb (λ t, forallb (λ y, 0 <=? payout_lower_bound_per_lot_units y) (ta_payouts t)) (ts_atoms s))
    (pb_terminal_state_sets (fa_source_problem (race_fill 500000))) = true) by (vm_compute; reflexivity).
  rewrite forallb_forall in E. specialize (E s (proj1 (list_elem_of_In _ _) Hs)). rewrite forallb_forall in E.
  specialize (E t (proj1 (list_elem_of_In _ _) Ht)). rewrite forallb_forall in E.
  specialize (E y (proj1 (list_elem_of_In _ _) Hy)). by apply Z.leb_le.
Qed.

(** ** The model *)

(** C18: the fill adversary's integer program is exact.  Its integer points
    are the pairs of an admissible fill vector (an atomic leg fills all or
    nothing, a partial leg anything in between) and an allowed settlement
    outcome; its objective is the loss of the pair with negative payouts
    counted as zero, which is the loss itself when no payout is negative. *)
Theorem fill_model_exact fp c o :
  wf_fill fp → compile_fill_adversary fp = Ok c → lm_objective (cf_model c) = Some o →
  (∀ x, feasible (cf_model c) x →
     admissible (fa_legs fp) (fills_at x) ∧ allowed (fa_source_problem fp) (outcome_at (fa_source_problem fp) x) ∧
     activity x (lo_coefficients o) = objective_loss fp (fills_at x) (outcome_at (fa_source_problem fp) x)) ∧
  (∀ f ω, admissible (fa_legs fp) f → allowed (fa_source_problem fp) ω →
     feasible (cf_model c) (fill_point fp f ω) ∧ activity (fill_point fp f ω) (lo_coefficients o) = objective_loss fp f ω) ∧
  (payouts_nonneg fp → ∀ f ω, allowed (fa_source_problem fp) ω → objective_loss fp f ω = fill_loss fp f ω).
Proof.
  intros Hfp Hc Ho. split_and!.
  - intros x Hx. by apply (fill_point_sound fp c).
  - intros f ω Had Hω. by apply (fill_point_complete fp c).
  - intros Hnn f ω Hω. apply compile_fill_inv in Hc as (m & ? & ? & Hm & _).
    apply compile_terminal_inv in Hm as (Hwf & _). apply objective_is_loss; [done|done|apply Hω|done].
Qed.

Lemma fill_model_exact_witness :
  ∃ c o, compile_fill_adversary (race_fill 500000) = Ok c ∧ lm_objective (cf_model c) = Some o ∧
    ∀ x, feasible (cf_model c) x → admissible [leg_a; leg_b] (fills_at x).
Proof.
  run (compile_fill_adversary (race_fill 500000)) (λ c, present (lm_objective (cf_model c))) as (c & Hc & (o & Ho)%some_with).
  exists c, o. split_and!; [exact Hc|exact Ho|]. intros x Hx.
  exact (proj1 (proj1 (fill_model_exact (race_fill 500000) c o race_fill_wf Hc Ho) x Hx)).
Defined.

(** ** Proof records *)

(** C8: SAFE means safe.  When the backend's OPTIMAL answers are optimal and
    the legs' payouts are not negative, a PARTIAL_FILL_SAFE record bounds by
    its cap the loss of every admissible fill vector in every allowed outcome,
    and its bound is exactly the worst one. *)
Theorem safe_record_bounds_loss `{Sha256} fp b t r ce :
  constructed fp → payouts_nonneg fp → optimal_is_optimal b →
  prove_partial_fill fp (Some b) t = Ok (r, ce) → pr_status r = PARTIAL_FILL_SAFE →
  ce = None ∧ pr_solver_upper_bound r ≤ fa_max_partial_fill_loss fp ∧
  (∀ f ω, admissible (fa_legs fp) f → allowed (fa_source_problem fp) ω → fill_loss fp f ω ≤ pr_solver_upper_bound r) ∧
  ∃ f ω, admissible (fa_legs fp) f ∧ allowed (fa_source_problem fp) ω ∧ fill_loss fp f ω = pr_solver_upper_bound r.
Proof.
  intros Hco Hnn Hopt Hp Hst.
  destruct (decided_worst fp b t r ce Hco Hnn Hopt Hp) as (c & result & f & ω & _ & Hset & Hmax); [by rewrite Hst|].
  destruct (st_verdict _ _ _ _ _ _ _ Hset) as [(Hle & _ & ->)|(_ & E & _)]; [|rewrite E in Hst; discriminate Hst].
  rewrite (st_upper _ _ _ _ _ _ _ Hset). split_and!; [done|done|done|].
  exists f, ω. split_and!; [apply Hset|apply Hset|done].
Qed.

Lemma safe_record_bounds_loss_witness :
  ∃ r ce, prove_partial_fill (race_fill 500000) (Some (solver 500000)) 1000 = Ok (r, ce) ∧
    pr_status r = PARTIAL_FILL_SAFE ∧
    ∀ f ω, admissible [leg_a; leg_b] f → allowed (fa_source_problem (race_fill 500000)) ω →
      fill_loss (race_fill 500000) f ω ≤ pr_solver_upper_bound r.
Proof.
  run (prove_partial_fill (race_fill 500000) (Some (solver 500000)) 1000)
    (λ x, String.eqb (pr_status x.1) PARTIAL_FILL_SAFE) as ([r ce] & Hr & Hs%String.eqb_eq).
  exists r, ce. split_and!; [exact Hr|exact Hs|].
  exact (proj1 (proj2 (proj2 (safe_record_bounds_loss (race_fill 500000) (solver 500000) 1000 r ce
    race_fill_500_constructed race_fill_payouts solver_optimal Hr Hs)))).
Defined.

(** C23: an UNSAFE record is a real counterexample, whatever the backend
    answers: its fill vector is admissible, its outcome allowed, the loss it
    reports is the loss of that pair and exceeds the cap. *)
Theorem unsafe_record_counterexample `{Sha256} fp backend t r ce :
  constructed fp → prove_partial_fill fp backend t = Ok (r, ce) → pr_status r = PARTIAL_FILL_UNSAFE →
  ∃ f ω cex, ce = Some cex ∧ admissible (fa_legs fp) f ∧ allowed (fa_source_problem fp) ω ∧
    fc_loss_units cex = fill_loss fp f ω ∧ fa_max_partial_fill_loss fp < fill_loss fp f ω ∧
    fc_fill_quantities cex = filter (λ q, 0 < aq_quantity_lots q) (leg_quantities (fa_legs fp) f) ∧
    selects (fa_source_problem fp) (fc_scenario cex) ω.
Proof.
  intros Hco Hp Hst. destruct (prove_partial_fill_cases fp backend t r ce Hco Hp) as [[E _]|Hs]; [rewrite Hst in E; discriminate E|].
  destruct Hs as (b' & c & result & f & ω & -> & Hc & Hsolve & Hopt' & Hset).
  destruct (st_verdict _ _ _ _ _ _ _ Hset) as [(_ & E & _)|(Hlt & _ & cex & -> & El & Ec & Ef & Hsel)]; [rewrite Hst in E; discriminate E|].
  exists f, ω, cex. split_and!; [done|apply Hset|apply Hset|done..].
Qed.

Lemma unsafe_record_counterexample_witness :
  ∃ r cex f ω, prove_partial_fill (race_fill 100000) (Some (solver 100000)) 1000 = Ok (r, Some cex) ∧
    fc_loss_units cex = fill_loss (race_fill 100000) f ω ∧ 100000 < fill_loss (race_fill 100000) f ω.
Proof.
  run (prove_partial_fill (race_fill 100000) (Some (solver 100000)) 1000)
    (λ x, String.eqb (pr_status x.1) PARTIAL_FILL_UNSAFE) as ([r ce] & Hr & Hs%String.eqb_eq).
  destruct (unsafe_record_counterexample (race_fill 100000) (Some (solver 100000)) 1000 r ce race_fill_100_constructed Hr Hs)
    as (f & ω & cex & Hce & _ & _ & Hl & Hlt & _). subst ce.
  exists r, cex, f, ω. split_and!; [exact Hr|exact Hl|exact Hlt].
Defined.

(** C24: the bounded fill oracle always returns.  When it closes, its worst
    loss is the maximum over every admissible fill and allowed outcome (never
    below zero), attained by the pair it reports; when it does not, it names a
    reason and claims no loss. *)
Theorem fill_oracle_exact fp budget :
  wf_fill fp →
  ∃ r, enumerate_fill_adversary fp budget = Ok r ∧
    (fo_closed r = true → ∃ w, fo_worst_loss_units r = Some w ∧ fill_oracle_spec fp w r) ∧
    (fo_closed r = false → fo_worst_loss_units r = None ∧ is_Some (fo_unknown_reason r)).
Proof. apply enumerate_fill_spec. Qed.

Lemma fill_oracle_exact_witness :
  ∃ r, enumerate_fill_adversary (race_fill 500000) sample_budget = Ok r ∧
    (fo_closed r = true → ∃ w, fo_worst_loss_units r = Some w ∧ fill_oracle_spec (race_fill 500000) w r).
Proof.
  destruct (fill_oracle_exact (race_fill 500000) sample_budget race_fill_wf) as (r & Hr & Hc & _).
  exists r. split; [exact Hr|exact Hc].
Defined.

(** C25: the solver path and the bounded oracle agree: with an honest backend
    and non-negative payouts, a decided record carries the oracle's worst loss
    and is SAFE exactly when that loss is within the cap. *)
Theorem proof_agrees_with_oracle `{Sha256} fp b t r ce budget res w :
  constructed fp → payouts_nonneg fp → optimal_is_optimal b →
  prove_partial_fill fp (Some b) t = Ok (r, ce) → pr_status r ≠ PARTIAL_FILL_UNKNOWN →
  enumerate_fill_adversary fp budget = Ok res → fo_worst_loss_units res = Some w →
  pr_solver_upper_bound r = w ∧ (pr_status r = PARTIAL_FILL_SAFE ↔ w ≤ fa_max_partial_fill_loss fp).
Proof.
  intros Hco Hnn Hopt Hp Hst He Hw.
  destruct (decided_worst fp b t r ce Hco Hnn Hopt Hp Hst) as (c & result & f & ω & Hc & Hset & Hmax).
  pose proof (check_wf_fill fp tt (co_legs _ Hco) (co_checked _ Hco)) as Hfp.
  destruct (enumerate_fill_spec fp budget Hfp) as (res' & He' & Hcl & Hop). rewrite He in He'. injection He' as <-.
  destruct (fo_closed res); [|destruct (Hop eq_refl) as [E _]; congruence].
  destruct (Hcl eq_refl) as (w' & Ew & Hsp). rewrite Hw in Ew. injection Ew as <-.
  assert (E : fill_loss fp f ω = w).
  { apply Z.le_antisymm; [apply Hsp; apply Hset|].
    destruct (os_attained _ _ _ Hsp) as [->|(g & ν & Hg & Hν & <- & _)]; [|by apply Hmax].
    rewrite <- (fill_loss_zero fp ω). apply Hmax; [|apply Hset]. by apply zero_admissible, (settled_known fp c). }
  rewrite (st_upper _ _ _ _ _ _ _ Hset). split; [done|].
  destruct (st_verdict _ _ _ _ _ _ _ Hset) as [(? & -> & _)|(? & -> & _)]; [split; [lia|done]|].
  split; [intros [=]|lia].
Qed.

Lemma proof_agrees_with_oracle_witness :
  ∃ r ce, prove_partial_fill (race_fill 500000) (Some (solver 500000)) 1000 = Ok (r, ce) ∧
    pr_solver_upper_bound r = 410000 ∧ (pr_status r = PARTIAL_FILL_SAFE ↔ 410000 ≤ 500000).
Proof.
  run (prove_partial_fill (race_fill 500000) (Some (solver 500000)) 1000)
    (λ x, String.eqb (pr_status x.1) PARTIAL_FILL_SAFE) as ([r ce] & Hr & Hs%String.eqb_eq).
  run (enumerate_fill_adversary (race_fill 500000) sample_budget)
    (λ r, bool_decide (fo_worst_loss_units r = Some 410000)) as (o & Ho & Hw%bool_decide_eq_true_1).
  exists r, ce. split; [exact Hr|].
  apply (proof_agrees_with_oracle (race_fill 500000) (solver 500000) 1000 r ce sample_budget o 410000
    race_fill_500_constructed race_fill_payouts solver_optimal Hr); [|exact Ho|exact Hw].
  simpl in Hs. rewrite Hs. discriminate.
Defined.

(** ** Negative payouts *)

(** One atomic leg whose contract pays nothing or takes half a dollar. *)
Definition liability : ArbitrageProblem :=
  problem_of [sample_action "a" "A" "polymarket" 400000 1] [sample_state "A" "a" key 0 (-500000)] [] [] [].
Definition liability_fill : FillAdversaryProblem := fill_of 400000 [leg_a] liability.
Definition filled (action_id : string) : Z := 1.
Definition settles (kind : TerminalKind) (suffix : string) (payout : Z) (contract : string) : TerminalAtom :=
  sample_atom (contract +:+ suffix) kind "a" payout.
Definition pays_nothing := settles NORMAL_YES "-yes" 0.
Definition takes_half := settles NORMAL_NO "-no" (-500000).
Definition liability_solver : SolverBackend :=
  backend_for liability_fill (answer liability_fill filled pays_nothing 400000).

Lemma liability_constructed : constructed liability_fill.
Proof. split; [by repeat constructor|vm_compute; reflexivity|apply sorted_problem_idemp]. Qed.

Lemma liability_solver_optimal : optimal_is_optimal liability_solver.
Proof.
  pose proof (check_wf_fill _ tt (co_legs _ liability_constructed) (co_checked _ liability_constructed)) as Hfp.
  apply backend_for_optimal. intros o v x Ho [= <-] Hx.
  run (compile_fill_adversary liability_fill) (λ _, true) as (c & Hc & _).
  unfold model_of in Ho, Hx. rewrite Hc in Ho, Hx.
  destruct (fill_point_sound liability_fill c x o Hfp Hc Hx Ho) as (Had & _ & ->).
  apply Forall_cons in Had as [Had _]. unfold objective_loss. change (fa_legs liability_fill) with [leg_a]. csimpl.
  change (unit_price leg_a) with 400000. unfold admissible_fill in Had. simpl in Had. lia.
Qed.

Lemma takes_half_allowed : allowed (fa_source_problem liability_fill) takes_half.
Proof.
  split; [|constructor|constructor]. intros s Hs.
  apply list_elem_of_singleton in Hs as ->. vm_compute. apply list_elem_of_here.
Qed.

(** C37: a SAFE verdict can be wrong when a payout is negative: the compiled
    objective drops negative payouts, so with a backend that is always right
    the record is SAFE under a cap of 0.4 dollars although the full fill loses
    0.9 dollars in an allowed outcome. *)
Theorem negative_payout_false_safe :
  optimal_is_optimal liability_solver ∧ constructed liability_fill ∧
  (∃ r ce, prove_partial_fill liability_fill (Some liability_solver) 1000 = Ok (r, ce) ∧ pr_status r = PARTIAL_FILL_SAFE) ∧
  admissible (fa_legs liability_fill) filled ∧ allowed (fa_source_problem liability_fill) takes_half ∧
  fill_loss liability_fill filled takes_half = 900000 ∧ fa_max_partial_fill_loss liability_fill = 400000.
Proof.
  split_and!; [apply liability_solver_optimal|apply liability_constructed| | |apply takes_half_allowed| |done].
  - run (prove_partial_fill liability_fill (Some liability_solver) 1000)
      (λ x, String.eqb (pr_status x.1) PARTIAL_FILL_SAFE) as ([r ce] & Hr & Hs%String.eqb_eq). exists r, ce. split; [exact Hr|exact Hs].
  - constructor; [|constructor]. by right.
  - vm_compute. reflexivity.
Qed.
