(* ===== verification/ExecutionTheorems.v ===== *)
(** * Properties of receipt reduction, incidents and repair planning *)

From stdpp Require Import relations.
From S2P Require Import Prelude PyValue NLeg NLegForms NLegValidate NLegWf Oracle OracleScenario OracleEval OracleQualify FillProof Receipts BatchStore Repair ReceiptsCorrect RepairCorrect Samples ExecutionSamples.
Local Open Scope Z_scope.

(** ** Runs *)

(** C9: along every sequence of receipts a batch stays well formed, its legs
    only move forward (filled quantities, costs, fees, times, terminal states
    and order identities), the conflict log only grows, the reserved capital
    does not change, and the occupied capital always covers the reservations,
    the spending of every account, the conflict exposure and the ledger. *)
Theorem run_invariants `{Sha256} b b' :
  wf_batch b → rtc batch_step b b' →
  progress b b' ∧
  original_units b + conflict_units b' + terminal_ledger_cost b' ≤ batch_occupancy b' ∧
  Forall (λ row, sum_on leg_actual (rv_key row) (ba_legs b') ≤ rv_holding_units row) (ba_reservations b').
Proof.
  intros Hb Hr. pose proof (run_progress b b' Hb Hr) as Hp. split; [done|].
  rewrite <- (pg_reserved _ _ Hp). apply occupancy_covers, Hp.
Qed.

Lemma opened_step : ∃ b', batch_step opened b'.
Proof.
  run (apply_reduce a_filled None opened idle) (λ _, true) as ([[b' c'] ch] & Hs & _). exists (if ch then persist b' else b').
  run (check_order_receipt a_filled) (λ _, true) as (u & Hu & _).
  by apply (batch_step_intro opened idle a_filled None b' c' ch u).
Qed.

Lemma run_invariants_witness :
  ∃ b', rtc batch_step opened b' ∧ original_units opened + conflict_units b' + terminal_ledger_cost b' ≤ batch_occupancy b'.
Proof.
  destruct opened_step as (b' & Hs). exists b'. split; [exact (rtc_once _ _ Hs)|].
  exact (proj1 (proj2 (run_invariants opened b' opened_wf (rtc_once _ _ Hs)))).
Defined.

(** C27: a receipt with an incident reason always stops automation: the batch
    is in INCIDENT with that reason, control is MANUAL for this batch and
    counts its capital, the breaker opens for the reasons that require it and
    is never closed. *)
Theorem incident_stops_automation `{Sha256} r context b control b' c' next reason :
  apply_reduce r context b control = Ok (b', c', true) → reduce b r = Ok (next, Some reason, true) →
  ba_state b' = "INCIDENT" ∧ in_reason <$> ba_incident b' = Some reason ∧
  ct_mode c' = "MANUAL" ∧ ct_active_batch_id c' = Some (ba_execution_batch_id b') ∧
  ct_total_unsettled_capital_units c' = prior_unsettled b' + batch_occupancy b' ∧
  (reason ∈ BREAKER_REASONS → ct_breaker_open c' = true) ∧
  (ct_breaker_open control = true → ct_breaker_open c' = true).
Proof.
  unfold apply_reduce. intros Ha Hr. rewrite Hr in Ha. cbn [mbind res_bind negb] in Ha.
  apply bind_Ok in Ha as ([b1 c1] & Ho & [= -> ->]).
  apply open_incident_spec in Ho as (Hf & Hst & _ & (status & Hi) & _ & (Hm & Hact & Ht) & Hb & Hk).
  destruct Hf as (s & i & p & cs & t & ->). split_and!; [done|by rewrite Hi|done..].
Qed.

Definition after_fill : Batch := accept_receipt opened (batch_leg "a" "order-a" "polymarket" 400000) a_filled.

Lemma incident_stops_automation_witness :
  ∃ b' c', apply_reduce a_shrinks None after_fill idle = Ok (b', c', true) ∧ ba_state b' = "INCIDENT" ∧ ct_mode c' = "MANUAL".
Proof.
  run (apply_reduce a_shrinks None after_fill idle) (λ x, x.2) as ([[b' c'] ch] & Ha & Hc). simpl in Hc. subst ch.
  run (reduce after_fill a_shrinks) (λ x, x.2 && bool_decide (x.1.2 = Some "CUMULATIVE_REGRESSION")) as ([[n o] ch] & Hr & Hx).
  simpl in Hx. apply andb_true_iff in Hx as [-> ->%bool_decide_eq_true_1].
  destruct (incident_stops_automation a_shrinks None after_fill idle b' c' n "CUMULATIVE_REGRESSION" Ha Hr) as (H1 & _ & H2 & _).
  exists b', c'. split_and!; [exact Ha|exact H1|exact H2].
Defined.

(** A batch awaits reconciliation only when it is whole: the step that
    sets AWAITING_RECONCILIATION leaves every leg terminal and either every
    leg full or every leg empty; a mixed terminal fill opens an incident. *)
Theorem awaiting_only_when_whole `{Sha256} r context b control b' c' :
  apply_reduce r context b control = Ok (b', c', true) → ba_state b' = "AWAITING_RECONCILIATION" →
  ba_state b ≠ "AWAITING_RECONCILIATION" →
  all_terminal b' = true ∧ (all_full b' = true ∨ all_zero b' = true).
Proof.
  intros Ha%apply_reduce_cases Hst Hb.
  inversion Ha as [|next reason ? ? Hr Hf Hs|next ? ? Hr Hf Hs|next ? ? Hr Hf Hs Ht Hw|next ? ? Hr Hf Hs]; subst; try congruence.
  - destruct Hf as (s & i & p & cs & t & ->). split; [done|]. by apply orb_true_iff.
  - rewrite Hs, (reduce_state _ _ _ _ _ Hr) in Hst. done.
Qed.

Lemma awaiting_only_when_whole_witness :
  ∃ b' c', apply_reduce (receipt "r2" "order-b" "predict.fun" 1 400000 FILLED 1) None after_fill idle = Ok (b', c', true) ∧
    ba_state b' = "AWAITING_RECONCILIATION" ∧ all_terminal b' = true.
Proof.
  run (apply_reduce (receipt "r2" "order-b" "predict.fun" 1 400000 FILLED 1) None after_fill idle)
    (λ x, x.2 && String.eqb (ba_state x.1.1) "AWAITING_RECONCILIATION") as ([[b' c'] ch] & Ha & Hx).
  simpl in Hx. apply andb_true_iff in Hx as [-> Hst%String.eqb_eq].
  exists b', c'. split_and!; [exact Ha|exact Hst|].
  refine (proj1 (awaiting_only_when_whole _ None after_fill idle b' c' Ha Hst _)). vm_compute. discriminate.
Defined.

(** Delivering a receipt twice is the same as delivering it once, even
    with a different repair context: the second call returns the stored batch
    and changes nothing. *)
Theorem receipt_idempotent `{Sha256} st r context context' st' b' :
  apply_receipt st r context = Ok (st', b') → apply_receipt st' r context' = Ok (st', b').
Proof. apply apply_receipt_idempotent. Qed.

Lemma receipt_idempotent_witness :
  ∃ st' b', apply_receipt (stored opened) a_filled None = Ok (st', b') ∧ apply_receipt st' a_filled None = Ok (st', b').
Proof.
  run (apply_receipt (stored opened) a_filled None) (λ _, true) as ([st' b'] & H1 & _).
  exists st', b'. split; [exact H1|]. exact (receipt_idempotent (stored opened) a_filled None None st' b' H1).
Defined.

(** a rejected receipt never touches an order: legs and reservations are
    unchanged, the receipt and its reason are appended to the log, and the
    conflict stays open. *)
Theorem rejected_receipt_isolated `{Sha256} b r b' reason changed :
  reduce b r = Ok (b', Some reason, changed) → reason ∈ REJECT_REASONS →
  ba_legs b' = ba_legs b ∧ ba_reservations b' = ba_reservations b ∧
  (∃ c, ba_unresolved_conflicts b' = ba_unresolved_conflicts b ++ [c] ∧ cx_reason c = reason) ∧
  (∃ e, ba_receipt_conflicts b' = ba_receipt_conflicts b ++ [e] ∧ rx_reason e = reason ∧ rx_new e = r).
Proof. apply reduce_rejected_spec. Qed.

Lemma rejected_receipt_isolated_witness :
  ∃ b', reduce after_fill a_shrinks = Ok (b', Some "CUMULATIVE_REGRESSION", true) ∧ ba_legs b' = ba_legs after_fill.
Proof.
  run (reduce after_fill a_shrinks) (λ x, x.2 && bool_decide (x.1.2 = Some "CUMULATIVE_REGRESSION")) as ([[n o] ch] & Hr & Hx).
  simpl in Hx. apply andb_true_iff in Hx as [-> ->%bool_decide_eq_true_1]. exists n. split; [exact Hr|].
  refine (proj1 (rejected_receipt_isolated after_fill a_shrinks n "CUMULATIVE_REGRESSION" true Hr _)).
  unfold REJECT_REASONS. set_solver.
Defined.

(** A conflict is cleared only by evidence that supersedes it: a terminal
    receipt of the same physical order that is at least as recent and reports
    at least the filled quantity and the cash the conflict claimed. *)
Theorem conflict_cleared_by_newer_evidence `{Sha256} b leg r c :
  c ∈ ba_unresolved_conflicts b → c ∉ ba_unresolved_conflicts (resolve_conflicts b leg r) →
  cx_kind c = SAME_PHYSICAL ∧ is_terminal (rp_state r) = true ∧
  cx_max_actual_cash_units c ≤ rp_cumulative_cost_units r + rp_cumulative_fee_units r ∧
  cx_max_actual_filled_quantity c ≤ rp_cumulative_filled_quantity r ∧
  cx_max_observed_at c ≤ rp_observed_at r ∧ cx_max_source_timestamp c ≤ rp_venue_timestamp r ∧
  cx_physical_key c = physical_key (intended_identity leg (bl_receipt leg)).
Proof. apply resolved_conflict. Qed.

Definition conflicted : Batch := incident_copy after_fill a_shrinks "CUMULATIVE_REGRESSION".
Definition filled_leg : BatchLeg := set_leg_receipt "order-a" a_filled (batch_leg "a" "order-a" "polymarket" 400000).
Definition a_confirmed := receipt "r4" "order-a" "polymarket" 1 390000 FILLED 3.

Lemma conflict_cleared_by_newer_evidence_witness :
  ∃ c, c ∈ ba_unresolved_conflicts conflicted ∧ cx_kind c = SAME_PHYSICAL ∧
    cx_max_actual_filled_quantity c ≤ rp_cumulative_filled_quantity a_confirmed.
Proof.
  assert (E : ba_unresolved_conflicts (resolve_conflicts conflicted filled_leg a_confirmed) = []) by (vm_compute; reflexivity).
  destruct (ba_unresolved_conflicts conflicted) as [|c l] eqn:Ec; [vm_compute in Ec; discriminate Ec|].
  assert (Hc : c ∈ ba_unresolved_conflicts conflicted) by (rewrite Ec; apply list_elem_of_here).
  destruct (conflict_cleared_by_newer_evidence conflicted filled_leg a_confirmed c Hc) as (H1 & _ & _ & H2 & _).
  - rewrite E. apply not_elem_of_nil.
  - exists c. split_and!; [apply list_elem_of_here|exact H1|exact H2].
Defined.

(** ** Repair *)

(** The price of a repair walks the book exactly: buying charges every
    lot the ask of its level plus tick and slippage and the fee rounded up,
    selling credits the bid less tick and slippage (never below zero) and less
    the fee rounded up, and both fail exactly when the book is too thin. *)
Theorem repair_price_exact q quantity :
  quote_ok q → 0 < quantity →
  buy_cost q quantity
  = (if quantity <=? depth q
     then let gross := lots_value (ask_price q) (qt_levels q) quantity in
          Ok (gross + ceil_div (gross * qt_fee_ppm q) 1000000)
     else Err no_depth) ∧
  sell_proceeds q quantity
  = (if quantity <=? depth q
     then let gross := lots_value (bid_price q) (qt_levels q) quantity in
          Ok (Z.max 0 (gross - ceil_div (gross * qt_fee_ppm q) 1000000))
     else Err no_depth).
Proof. intros Hq Hpos. split; [by apply buy_cost_exact|by apply sell_proceeds_exact]. Qed.

Definition level (first last ask bid : Z) : CanonicalBookLevel :=
  {| lv_first_lot := first; lv_last_lot := last; lv_buy_ask_units := ask; lv_sell_bid_units := bid |}.

Definition quote (client venue : string) (levels : list CanonicalBookLevel) : RepairQuote := {|
  qt_client_order_id := client; qt_asset_id := client; qt_venue_id := venue; qt_account_id := "acct";
  qt_settlement_asset_id := "usd"; qt_levels := levels; qt_source_timestamp := as_of; qt_received_at := as_of;
  qt_fee_ppm := 20000; qt_tick_units := 1000; qt_slippage_units := 500 |}.

Definition thin_quote := quote "order-b" "predict.fun" [level 1 2 380000 370000; level 3 5 400000 350000].

Lemma thin_quote_ok : quote_ok thin_quote.
Proof.
  run (mapM check_level (qt_levels thin_quote)) (λ _, true) as (k & Hk & _).
  run (check_quote thin_quote) (λ _, true) as (u & Hu & _). exact (check_quote_ok thin_quote u k Hk Hu).
Qed.

Lemma repair_price_exact_witness :
  buy_cost thin_quote 3 = Ok 1187790 ∧ buy_cost thin_quote 6 = Err no_depth.
Proof.
  rewrite (proj1 (repair_price_exact thin_quote 3 thin_quote_ok eq_refl)),
    (proj1 (repair_price_exact thin_quote 6 thin_quote_ok eq_refl)). split; vm_compute; reflexivity.
Defined.

(** C28: a repair plan is never executed on its own and is the cheapest one:
    the context binds to the batch, no conflict is open, the plan is one of
    the two families priced on the fresh books, a completion fits the
    remaining reservation and both balances of every account, an exit sells
    only confirmed holdings, no other candidate loses less, and the loss is
    flagged exactly when it exceeds the batch's cap. *)
Theorem repair_plan_sound `{Sha256} b c plan :
  repair_plan b (Some c) = Ok (Some plan) → plan_ok b c plan.
Proof. apply repair_plan_ok. Qed.

(** A filled leg and a rejected one. *)
Definition mixed : Batch :=
  accept_receipt after_fill (batch_leg "b" "order-b" "predict.fun" 410000) b_rejected.

Definition cash_flow (client venue : string) (cost : Z) : SettlementCashFlow := {|
  fw_client_order_id := client; fw_venue_order_id := Some client; fw_key := (venue, "acct", "usd");
  fw_cumulative_cost_units := cost; fw_cumulative_fee_units := 0; fw_source_timestamp := as_of; fw_observed_at := as_of;
  fw_observation_version := Some 1; fw_rest_confirmed := false |}.

Definition sample_context : RepairContext := {|
  kx_reservation_version := "v1";
  kx_quotes := [quote "order-a" "polymarket" [level 1 10 390000 370000]; thin_quote];
  kx_holdings := [{| ch_key := ("polymarket", "acct", "order-a"); ch_quantity := 1;
                     ch_source_timestamp := as_of; ch_received_at := as_of |}];
  kx_account_snapshot := {|
    as_captured_at := as_of;
    as_balances := [{| ab_key := ("polymarket", "acct", "usd"); ab_available_units := 1000000; ab_allowance_units := 1000000 |};
                    {| ab_key := ("predict.fun", "acct", "usd"); ab_available_units := 1000000; ab_allowance_units := 1000000 |}];
    as_max_per_trade_cost_units := 1000000; as_unsettled_capital_units := 0; as_max_total_unsettled_capital_units := 1000000 |};
  kx_cash_flows := [cash_flow "order-a" "polymarket" 390000; cash_flow "order-b" "predict.fun" 0];
  kx_now := as_of |}.

Lemma repair_plan_sound_witness :
  ∃ plan, repair_plan mixed (Some sample_context) = Ok (Some plan) ∧ rl_family plan = COMPLETE_REMAINING ∧
    plan_ok mixed sample_context plan.
Proof.
  run (repair_plan mixed (Some sample_context))
    (λ o, match o with Some plan => String.eqb (rl_family plan) COMPLETE_REMAINING | None => false end) as ([plan|] & Hp & Hf);
    [|discriminate Hf].
  apply String.eqb_eq in Hf. exists plan. split_and!; [exact Hp|exact Hf|].
  exact (repair_plan_sound mixed sample_context plan Hp).
Defined.

(** C29: the loss of a completion plan is conservative: whatever the remaining
    lots cost below the quoted price and whichever allowed outcome settles, the
    batch loses at most the loss the plan states. *)
Theorem completion_loss_conservative `{Sha256} b c plan :
  repair_plan b (Some c) = Ok (Some plan) → rl_family plan = COMPLETE_REMAINING →
  ∃ costs qs, Forall2 (priced c buy_cost) (to_complete b) costs ∧ selection (frozen b) qs ∧
    qs = sort_on aq_action_id (filter (λ q, aq_quantity_lots q ≠ 0) (submitted_portfolio b)) ∧
    ∀ paid ω, paid ≤ sumZ (snd <$> costs) → allowed (frozen b) ω →
      spent c + paid - realized_payout (frozen b) ω qs ≤ ra_conservative_total_loss_units (rl_candidate plan).
Proof.
  intros Hp%repair_plan_ok Hf. rewrite (po_family _ _ _ Hp) in Hf.
  destruct (po_candidate _ _ _ Hp) as [Hc|(E & _)]; [by apply completion_loss|rewrite Hf in E; discriminate E].
Qed.

Lemma completion_loss_conservative_witness :
  ∃ plan (costs : list (account_key * Z)) qs, repair_plan mixed (Some sample_context) = Ok (Some plan) ∧
    ∀ paid ω, paid ≤ sumZ (snd <$> costs) → allowed (frozen mixed) ω →
      spent sample_context + paid - realized_payout (frozen mixed) ω qs
      ≤ ra_conservative_total_loss_units (rl_candidate plan).
Proof.
  run (repair_plan mixed (Some sample_context))
    (λ o, match o with Some plan => String.eqb (rl_family plan) COMPLETE_REMAINING | None => false end) as ([plan|] & Hp & Hf);
    [|discriminate Hf].
  apply String.eqb_eq in Hf.
  destruct (completion_loss_conservative mixed sample_context plan Hp Hf) as (costs & qs & _ & _ & _ & Hall).
  exists plan, costs, qs. split; [exact Hp|exact Hall].
Defined.
