(* ===== verification/LifecycleTheorems.v ===== *)
(** * Entry, lineage lock, reconciliation and the capital ledger

    The theorems about the life of a batch in the store, and two runs on which
    the ledger goes wrong. *)

From stdpp Require Import relations.
From S2P Require Import Prelude PyValue NLeg NLegForms NLegWf PartialFill FillProof Quotes Receipts BatchStore Lineage Repair Reconcile Entry Lifecycle ReceiptsCorrect RepairCorrect ReconcileCorrect EntryCorrect LifecycleCorrect OracleScenario Samples ExecutionSamples.
Local Open Scope Z_scope.

(** ** Entry *)

(** C11: a new batch is sound: [enter] creates one only when the breaker is
    closed, no batch is active and no lineage claim exists; the solution is
    funded in full on a fresh account snapshot (balances, allowances and both
    capital caps), the partial-fill proof is SAFE and bound to this solution
    with its bound under the loss cap, the reserved capital, the capital use
    and the cost of the portfolio agree, and the control row counts exactly
    that capital on top and within the configured cap. *)
Theorem entry_sound `{Sha256} st ids market account source_now s proof mode cap expected now st' b :
  wf_problem (ms_problem market) → sound_legs s →
  enter st ids market account source_now s proof mode cap expected now = Ok (st', b) →
  so_batches st !! ei_execution_batch_id ids = None →
  funded_ok market account source_now s ∧
  proof_is_bound_status proof s PARTIAL_FILL_SAFE = true ∧ pr_solver_upper_bound proof ≤ pr_max_partial_fill_loss proof ∧
  ct_breaker_open (so_control st) = false ∧ ct_active_batch_id (so_control st) = None ∧
  so_claims st !! lineage_of b = None ∧ so_claims st' = <[lineage_of b := now]> (so_claims st) ∧
  ct_active_batch_id (so_control st') = Some (ei_execution_batch_id ids) ∧
  so_batches st' = <[ei_execution_batch_id ids := b]> (so_batches st) ∧
  original_units b = portfolio_cost (ms_problem market) (ms_quantities market) ∧ batch_occupancy b = original_units b ∧
  ct_total_unsettled_capital_units (so_control st')
  = ct_total_unsettled_capital_units (so_control st) + portfolio_cost (ms_problem market) (ms_quantities market) ∧
  (0 < unsettled_cap st → ct_total_unsettled_capital_units (so_control st') ≤ unsettled_cap st).
Proof.
  intros Hp Hl (payload & u & Hs & Hpay & Hc)%enter_cases Hnew.
  destruct (check_execution_solution_ok _ _ _ _ _ Hp Hs) as [Hf Hcost].
  destruct (enter_payload_ok _ _ _ _ _ _ _ Hl Hpay) as ([[Eid _] _ [Hb Hub] _ [Er Eo] Et] & _ & _).
  pose proof (fd_cost _ _ _ _ Hf) as Ecost. rewrite <- Hcost, Ecost in Er. rewrite Ecost in Et.
  apply create_batch_cases in Hc as [[_ Hx]|(lineage & _ & Hbr & Hact & _ & Hun & _ & Hcap & _ & Eb & Em & Ecl & Ea & Etot)];
    [rewrite Eid, Hnew in Hx; discriminate Hx|].
  rewrite Eid in *. rewrite Et in *. subst b. change (lineage_of (persist (set_created payload _ lineage))) with lineage.
  split_and!; try done. by rewrite Etot.
Qed.

Lemma sample_solution_sound : sound_legs sample_solution.
Proof. by repeat constructor. Qed.

Lemma entry_sound_witness :
  ∃ st' b, enter_sample fresh_store "b1" "l1" 5 = Ok (st', b) ∧ original_units b = 800000 ∧
    ct_total_unsettled_capital_units (so_control st') = 800000 ∧ funded_ok sample_market sample_account as_of sample_solution.
Proof.
  run (enter_sample fresh_store "b1" "l1" 5) (λ _, true) as ([st' b] & He & _). exists st', b. split; [exact He|].
  unfold enter_sample in He. destruct (entry_sound fresh_store (sample_ids "b1" "l1") sample_market sample_account as_of sample_solution bound_proof
    "AUTO" "caps-v1" None 5 st' b cheap_wf sample_solution_sound He) as (H1 & _ & _ & _ & _ & _ & _ & _ & _ & H2 & _ & H3 & _);
    [reflexivity|].
  split_and!; [rewrite H2; vm_compute; reflexivity|rewrite H3; vm_compute; reflexivity|exact H1].
Defined.

(** C26: the lineage lock always decides, and soundly: the walk over the
    predecessor graph ends even on cycles, and a lineage is admitted only when
    it was never executed and every executed ancestor was followed by a close
    of this very lineage without a qualified opportunity. *)
Theorem executed_lock graph episodes claims component frozen :
  ∃ out, lineage_lock_decision graph episodes claims component frozen = Ok out ∧
    ∀ lineage, out = (Some lineage, None) →
      ∃ rows row, graph = Some rows ∧ row ∈ rows ∧ lr_lineage_id row = lineage ∧
        admitted_lineage rows episodes claims lineage.
Proof.
  assert (Hok : ∃ out, lineage_lock_decision graph episodes claims component frozen = Ok out).
  { unfold lineage_lock_decision. destruct (resolve_row _ _ _) as [out|[row identity]]; [eauto|].
    destruct (lineage_ancestors_ok (default [] graph) (lr_lineage_id row)) as (ancestors & -> & _).
    simpl. destruct (_ || _); [eauto|]. destruct (newest_claim _) as [t|]; [destruct (rearm_evidence _ _ _)|]; eauto. }
  destruct Hok as [out Ho]. exists out. split; [done|]. intros lineage ->. by eapply lineage_lock_sound.
Qed.

(** ** The ledger *)

(** C10: the capital ledger of the store is right along every run: starting
    without batches, only the active batch is ever open, the unsettled capital
    of the control row is the sum over the batches whenever none is active,
    the active batch carries the sum over all others as its prior capital, and
    no two batches execute the same lineage.  Receipts are those of the active
    batch. *)
Theorem capital_ledger `{Sha256} st st' :
  so_batches st = ∅ → ct_active_batch_id (so_control st) = None → ct_total_unsettled_capital_units (so_control st) = 0 →
  rtc store_step st st' →
  (∀ id b, so_batches st' !! id = Some b → ¬ closed b → ct_active_batch_id (so_control st') = Some id) ∧
  (ct_active_batch_id (so_control st') = None →
     ct_total_unsettled_capital_units (so_control st') = settled (so_batches st')) ∧
  (∀ id, ct_active_batch_id (so_control st') = Some id →
     ∃ b, so_batches st' !! id = Some b ∧ ¬ closed b ∧ wf_batch b ∧
       ba_prior_unsettled_capital_units b = settled (delete id (so_batches st'))) ∧
  (∀ i j b c, so_batches st' !! i = Some b → so_batches st' !! j = Some c → lineage_of b = lineage_of c → i = j).
Proof.
  intros Eb Ea Et Hr. pose proof (ledger_run st st' (ledger_empty st Eb Ea Et) Hr) as Hi. split_and!.
  - intros id b. by apply ledger_open_active.
  - apply (li_idle _ Hi).
  - intros id (b & Hb & [Ho Hw _ _ Hp _])%(li_active _ Hi). eauto.
  - apply (li_lineage _ Hi).
Qed.

Lemma capital_ledger_witness :
  ∃ st' b, enter_sample fresh_store "b1" "l1" 5 = Ok (st', b) ∧
    ∃ c, so_batches st' !! "b1" = Some c ∧ ba_prior_unsettled_capital_units c = settled (delete "b1" (so_batches st')).
Proof.
  run (enter_sample fresh_store "b1" "l1" 5) (λ x, bool_decide (ct_active_batch_id (so_control x.1) = Some "b1"))
    as ([st' b] & He & Ha).
  apply bool_decide_eq_true_1 in Ha. exists st', b. split; [exact He|].
  unfold enter_sample in He.
  pose proof (rtc_once _ _ (step_enter _ _ _ _ _ _ _ _ _ _ _ _ _ sample_solution_sound He)) as Hr.
  destruct (proj1 (proj2 (proj2 (capital_ledger fresh_store st' eq_refl eq_refl eq_refl Hr))) "b1" Ha) as (c & H1 & _ & _ & H2).
  exists c. split; [exact H1|exact H2].
Defined.

(** ** Reconciliation *)

Lemma reconciled_ok_persist id c b b' control control' :
  reconciled_ok id c b b' control control' → reconciled_ok id c b (persist b') control control'.
Proof. intros [? ? ? ? ? (? & Hi & ?) ? ? ? ? ?]. split; try done. split_and!; [done| |done]. simpl. by rewrite Hi. Qed.

(** C12: reconciliation settles a batch on evidence: it changes nothing, or it
    releases the control from exactly this batch, clears every open conflict
    with evidence that supersedes it, matches every leg with a cash flow of
    the same cost and fee, finds every expected position in the fresh
    holdings, keeps the cash actually spent unsettled, and closes at zero only
    when nothing was filled and nothing was paid. *)
Theorem reconciliation_sound `{Sha256} st id c st' b b' :
  so_batches st !! id = Some b → settleable b → complete_reconciliation st id c = Ok (st', b') →
  (st' = st ∧ b' = b) ∨
  reconciled_ok id c b b' (so_control st) (so_control st') ∧ so_batches st' = <[id := b']> (so_batches st) ∧
    so_claims st' = so_claims st.
Proof.
  intros Hb Hs [[-> Hx]|(x & next & control & Hx & Hr & -> & Em & Ec & Ecl)]%complete_reconciliation_cases;
    rewrite Hb in Hx; injection Hx as <-; [by left|right].
  rewrite Ec. split_and!; [|done|done]. apply reconciled_ok_persist. by eapply reconcile_reduce_ok.
Qed.

Definition is_active (id : string) (x : Store * Batch) : bool := bool_decide (ct_active_batch_id (so_control x.1) = Some id).
Definition accepts {A} (m : res A) : bool := match m with Ok _ => true | Err _ => false end.
Definition then_ok {A} (m : res A) (P : A → bool) : bool := match m with Ok a => P a | Err _ => false end.

Lemma then_ok_Ok {A} (m : res A) P : then_ok m P = true → ∃ a, m = Ok a ∧ P a = true.
Proof. apply ok_with. Qed.

Lemma both_true a b : a && b = true → a = true ∧ b = true.
Proof. apply andb_true_iff. Qed.

Lemma receipt_step st r st' b :
  then_ok (check_order_receipt r) (λ _, true) = true → is_active (rp_execution_batch_id r) (st, b) = true →
  ∀ b', apply_receipt st r None = Ok (st', b') → store_step st st'.
Proof.
  intros (u & Hu & _)%(ok_with (λ _, true)) Ha%bool_decide_eq_true_1 b' Hr. by eapply (step_receipt st r None st' b' u).
Qed.

(** [b1] entered and filled on both legs, then reconciled. *)
Lemma filled_run :
  ∃ st b st' b', so_batches st !! "b1" = Some b ∧ active_ok st "b1" b ∧
    complete_reconciliation st "b1" both_held = Ok (st', b') ∧ ba_state b' = RECONCILED_FULL.
Proof.
  set (ra := leg_receipt "b1" "a" "polymarket" 1 FILLED 1 1). set (rb := leg_receipt "b1" "b" "predict.fun" 1 FILLED 1 1).
  run (enter_sample fresh_store "b1" "l1" 5)
    (λ x, is_active "b1" x && then_ok (apply_receipt x.1 ra None) (λ y, is_active "b1" y &&
            then_ok (apply_receipt y.1 rb None) (λ z, is_active "b1" z &&
              then_ok (complete_reconciliation z.1 "b1" both_held) (λ w, String.eqb (ba_state w.2) RECONCILED_FULL))))
    as ([s0 b0] & He & [A0 ([s1 b1] & H1 & [A1 ([s2 b2] & H2 & [A2 ([s3 b3] & H3 & Hst%String.eqb_eq)%then_ok_Ok]%both_true)%then_ok_Ok]%both_true)%then_ok_Ok]%both_true).
  assert (Hr : rtc store_step fresh_store s2).
  { unfold enter_sample in He. eapply rtc_l; [exact (step_enter _ _ _ _ _ _ _ _ _ _ _ _ _ sample_solution_sound He)|].
    eapply rtc_l; [eapply (receipt_step s0 ra s1 b0); [vm_compute; reflexivity|exact A0|exact H1]|].
    apply rtc_once. eapply (receipt_step s1 rb s2 b1); [vm_compute; reflexivity|exact A1|exact H2]. }
  apply ledger_run in Hr; [|by apply ledger_empty]. apply bool_decide_eq_true_1 in A2.
  destruct (li_active _ Hr "b1" A2) as (b & Hb & Hok). exists s2, b, s3, b3. split_and!; [done|done|exact H3|exact Hst].
Qed.

Lemma reconciliation_sound_witness :
  ∃ st b st' b', so_batches st !! "b1" = Some b ∧ complete_reconciliation st "b1" both_held = Ok (st', b') ∧
    ba_state b' = RECONCILED_FULL ∧ reconciled_ok "b1" both_held b b' (so_control st) (so_control st').
Proof.
  destruct filled_run as (st & b & st' & b' & Hb & Hok & Hc & Hst).
  exists st, b, st', b'. split_and!; [exact Hb|exact Hc|exact Hst|].
  destruct (reconciliation_sound st "b1" both_held st' b b' Hb (ak_settleable _ _ _ Hok) Hc) as [[_ E]|[H1 _]]; [|exact H1].
  destruct (ak_open _ _ _ Hok). rewrite <- E. unfold closed. rewrite Hst. unfold CLOSED_STATES. set_solver.
Defined.

(** ** Two runs on which the ledger goes wrong *)

Definition fills (b : Batch) : list (option Z) := (λ l, rp_cumulative_filled_quantity <$> bl_receipt l) <$> ba_legs b.

(** C38: reconciliation can close an unhedged batch: the fills are compared
    before the conflict evidence is merged, so a batch whose two orders were
    reported rejected, contradicted by a fill of one of them, is accepted as
    empty, takes the fill over from the evidence and closes as RECONCILED_FULL
    without incident, one leg filled and the other not. *)
Theorem reconciled_mixed_fill :
  ∃ st b st' b', contradicted = Ok (st, b) ∧ accepts (check_reconciliation_context (one_held b)) = true ∧
    forallb (λ e, accepts (check_resolution e)) (rk_conflict_resolutions (one_held b)) = true ∧
    fills b = [Some 0; Some 0] ∧ ba_state b = "INCIDENT" ∧
    complete_reconciliation st "b1" (one_held b) = Ok (st', b') ∧
    fills b' = [Some 1; Some 0] ∧ ba_state b' = RECONCILED_FULL ∧ ba_incident b' = None ∧
    ct_active_batch_id (so_control st') = None.
Proof.
  run contradicted
    (λ x, accepts (check_reconciliation_context (one_held x.2)) &&
          forallb (λ e, accepts (check_resolution e)) (rk_conflict_resolutions (one_held x.2)) &&
          bool_decide (fills x.2 = [Some 0; Some 0]) && bool_decide (ba_state x.2 = "INCIDENT") &&
          then_ok (complete_reconciliation x.1 "b1" (one_held x.2)) (λ y,
            bool_decide (fills y.2 = [Some 1; Some 0]) && bool_decide (ba_state y.2 = RECONCILED_FULL) &&
            is_none (ba_incident y.2) && bool_decide (ct_active_batch_id (so_control y.1) = None)))
    as ([st b] & Hc & [[[[A1 A2]%both_true A3%bool_decide_eq_true_1]%both_true A4%bool_decide_eq_true_1]%both_true
          ([st' b'] & Hr & [[[B1%bool_decide_eq_true_1 B2%bool_decide_eq_true_1]%both_true B3%is_none_None]%both_true
             B4%bool_decide_eq_true_1]%both_true)%then_ok_Ok]%both_true).
  exists st, b, st', b'.
  exact (conj Hc (conj A1 (conj A2 (conj A3 (conj A4 (conj Hr (conj B1 (conj B2 (conj B3 B4))))))))).
Qed.

(** C39: a late receipt can take the control from the active batch: a receipt
    with a conflict for a batch reconciled earlier makes that batch the active
    one again, the capital of the batch in flight drops out of the unsettled
    total, and that batch, still open, is no longer the active one. *)
Theorem late_receipt_steals_control :
  ∃ st b st' b1, second_entered = Ok (st, b) ∧ accepts (check_order_receipt late_receipt) = true ∧
    ct_active_batch_id (so_control st) = Some "b2" ∧ ct_total_unsettled_capital_units (so_control st) = 1600000 ∧
    apply_receipt st late_receipt None = Ok (st', b1) ∧
    ct_active_batch_id (so_control st') = Some "b1" ∧ ct_total_unsettled_capital_units (so_control st') = 800000 ∧
    (ba_state <$> so_batches st' !! "b2") = Some "ACTIVE" ∧
    (ba_total_unsettled_capital_units <$> so_batches st' !! "b2") = Some 800000.
Proof.
  run second_entered
    (λ x, bool_decide (ct_active_batch_id (so_control x.1) = Some "b2") &&
          bool_decide (ct_total_unsettled_capital_units (so_control x.1) = 1600000) &&
          then_ok (apply_receipt x.1 late_receipt None) (λ y,
            bool_decide (ct_active_batch_id (so_control y.1) = Some "b1") &&
            bool_decide (ct_total_unsettled_capital_units (so_control y.1) = 800000) &&
            bool_decide ((ba_state <$> so_batches y.1 !! "b2") = Some "ACTIVE") &&
            bool_decide ((ba_total_unsettled_capital_units <$> so_batches y.1 !! "b2") = Some 800000)))
    as ([st b] & Hc & [[A1%bool_decide_eq_true_1 A2%bool_decide_eq_true_1]%both_true
          ([st' b1] & Hr & [[[B1%bool_decide_eq_true_1 B2%bool_decide_eq_true_1]%both_true B3%bool_decide_eq_true_1]%both_true
             B4%bool_decide_eq_true_1]%both_true)%then_ok_Ok]%both_true).
  assert (Hl : accepts (check_order_receipt late_receipt) = true) by (vm_compute; reflexivity).
  exists st, b, st', b1. exact (conj Hc (conj Hl (conj A1 (conj A2 (conj Hr (conj B1 (conj B2 (conj B3 B4)))))))).
Qed.
