(* ===== verification/ResolveTheorems.v ===== *)
(** * Properties of pricing and of the resolver

    What a portfolio the resolver funds guarantees on the component, what a
    quote promises about the visible asks, when a priced problem is valid, what
    an execution leg records. *)

From S2P Require Import Prelude PyValue NLeg NLegForms NLegValidate NLegWf IsoFormat IsoFormatCorrect Decode DecodeCorrect Decimal DecimalCorrect Oracle OracleScenario OracleEval OracleQualify LinearModel FillProof Generation Evidence Verified Quotes QuotesCorrect Receipts BatchStore Repair Reconcile Entry EntryCorrect PricedCorrect Resolve ResolveCorrect Samples ReferenceBackend ResolveSamples.
Local Open Scope Z_scope.

(** ** Pricing *)

Definition visible_asks (source : ImmutableBook) (a : CandidateAction) : list BookLevel := (book_asks (ib_book source) a).1.1.2.

(** C30: A quote is conservative.  Its levels are contiguous lots from the first
    one and reach the minimum quantity; each level takes its lots from a visible ask of
    its own, no more than the ask offers; its protected price is at least the
    asked price plus a tick, and the cost of a lot covers that price in the
    common unit, with the fee and the haircut.  The asks must have so few
    digits that the decimal context does not round them. *)
Theorem quote_conservative `{Sha256} a source b usd now q
    (Hq : normalize_quote a source b usd now = Ok (Some q)) (Hscale : 0 < ca_quantity_scale a) (Hmax : 1 ≤ ca_max_quantity_lots a)
    (Husd : 0 ≤ usd) (Hfit : ∀ ask, ask ∈ visible_asks source a → ask_fits a source ask) :
  contiguous 0 (cost_slices q) ∧
  (∃ l, last (cq_levels q) = Some l ∧ ca_min_quantity_lots a ≤ ql_last_lot l ≤ ca_max_quantity_lots a) ∧
  ∃ used, used `sublist_of` visible_asks source a ∧ Forall2 (conservative a source usd) used (cq_levels q) ∧
    exhausts a (visible_asks source a) used (cq_levels q).
Proof.
  destruct (normalize_quote_ok _ _ _ _ _ _ Hq Hmax) as (asks & Hok). destruct Hok as [[_ Hv] (t & m & n & Ea & _) _ Hc Hl (used & Hs & Hb & He)].
  assert (visible_asks source a = asks) as -> by (unfold visible_asks; by rewrite Ea). split_and!; [done..|]. exists used. split_and!; [done| |done].
  assert (Hin : Forall (.∈ asks) used) by (apply Forall_forall; intros; by eapply elem_of_sublist).
  assert (visible_asks source a = asks) as Hva by (unfold visible_asks; by rewrite Ea). rewrite Hva in Hfit.
  clear Hs He Hl Hc. revert Hin. induction Hb as [|x y l k Hxy _ IH]; intros Hin; constructor.
  - apply Forall_cons in Hin as [Hx _]. apply backed_conservative; auto.
  - apply IH. by apply Forall_cons in Hin as [_ ?].
Qed.

Lemma ask_fits_samples a source price size : ca_quantity_scale a = 1 → ca_lot_step_units a = 1 →
  ib_price_units_per_quote_unit source = 10 → 0 < price < 1000 → 0 < size < 1000 → ask_fits a source (ask price size).
Proof.
  intros Es Est Eu Hp Hs np c e ns c' e' [= <- <- <-] [= <- <- <-]. rewrite Es, Est, Eu. unfold price_fits, size_fits, PRECISION.
  change (up (-2)) with 1. change (down (-2)) with 100. lia.
Qed.

Lemma quote_conservative_witness : ∃ q,
  normalize_quote action_a (book_a deep_asks) (pair_binding "a" "polymarket") 1 now = Ok (Some q) ∧
  contiguous 0 (cost_slices q) ∧
  (∃ l, last (cq_levels q) = Some l ∧ ca_min_quantity_lots action_a ≤ ql_last_lot l ≤ ca_max_quantity_lots action_a) ∧
  ∃ used, used `sublist_of` visible_asks (book_a deep_asks) action_a ∧
    Forall2 (conservative action_a (book_a deep_asks) 1) used (cq_levels q) ∧
    exhausts action_a (visible_asks (book_a deep_asks) action_a) used (cq_levels q).
Proof.
  eexists. split; [vm_compute; reflexivity|]. apply quote_conservative with (b := pair_binding "a" "polymarket") (now := now).
  - vm_compute. reflexivity.
  - reflexivity.
  - done.
  - done.
  - intros ask Hin. apply list_elem_of_In in Hin as [<-|[<-|[]]]; apply ask_fits_samples; (reflexivity || lia).
Defined.

(** ** The priced problem *)

(** C32: The problem priced from a component's books is valid exactly when no
    atom released its capital before now, every contract keeps a quoted
    action, and the costs and the profit threshold fit 64 bits.  Everything else that the
    validator asks, native complements and payouts of the remaining actions
    included, survives pricing. *)
Theorem priced_problem_valid `{Sha256} c books now p economic quotes
    (Hwf : wf_problem (vc_problem c)) (Hp : problem_with_visible_asks c books now = Ok (Some (p, economic, quotes))) :
  wf_problem p ↔
    (∀ s t d, s ∈ pb_terminal_state_sets (vc_problem c) → t ∈ ts_atoms s → ta_capital_release_at t = Some d →
       dt_us now ≤ dt_us d) ∧
    (∀ k, k ∈ contracts (vc_problem c) → actions_of p k ≠ []) ∧
    Forall (λ q, Forall slice_int64 (cost_slices q)) quotes ∧
    int64 (vc_usd_units_per_dollar c).
Proof.
  apply problem_with_visible_asks_ok in Hp. split.
  - intros Hv. by destruct (priced_wf_inv _ _ _ _ _ Hwf Hp Hv).
  - intros (? & ? & ? & ?). eapply priced_wf; [exact Hwf|exact Hp|done].
Qed.

Definition priced_pair : option (ArbitrageProblem * string * list CanonicalQuoteEvidence) :=
  match problem_with_visible_asks pair_component pair_books now with Ok o => o | Err _ => None end.
Definition pair_priced : ArbitrageProblem := match priced_pair with Some (p, _, _) => p | None => pair_problem end.
Definition pair_economic : string := match priced_pair with Some (_, e, _) => e | None => "" end.
Definition pair_quotes : list CanonicalQuoteEvidence := match priced_pair with Some (_, _, q) => q | None => [] end.

Lemma priced_pair_ok : problem_with_visible_asks pair_component pair_books now = Ok (Some (pair_priced, pair_economic, pair_quotes)).
Proof. vm_compute. reflexivity. Qed.

Lemma pair_problem_wf : wf_problem (vc_problem pair_component).
Proof. apply validate_problem_wf. vm_compute. reflexivity. Qed.

Lemma pair_priced_wf : wf_problem pair_priced.
Proof. apply validate_problem_wf. vm_compute. reflexivity. Qed.

Lemma priced_problem_valid_witness :
  wf_problem pair_priced ∧ ∀ k, k ∈ contracts pair_problem → actions_of pair_priced k ≠ [].
Proof.
  split; [exact pair_priced_wf|].
  pose proof (proj1 (priced_problem_valid _ _ _ _ _ _ pair_problem_wf priced_pair_ok) pair_priced_wf) as (_ & Hk & _). exact Hk.
Defined.

(** ** Execution legs *)

(** The execution legs of a portfolio on a priced problem never run out of
    visible asks: they can fail only by leaving the 64-bit range.  A leg charges
    every lot the fee of the level it comes from, carries the portfolio cost of its lots,
    and its protected price is the highest price among the levels its lots
    reach. *)
Theorem execution_legs_exact `{Sha256} c books now p economic quotes qs
    (Hwf : wf_problem (vc_problem c)) (Hp : problem_with_visible_asks c books now = Ok (Some (p, economic, quotes)))
    (Hpw : wf_problem p) (Hs : selection p qs) :
  match execution_legs p qs quotes with
  | Ok legs => Forall2 (leg_ok p quotes) qs legs
  | Err e => e = OverflowError
  end.
Proof. by apply (execution_legs_ok c books now); [|apply problem_with_visible_asks_ok in Hp|..]. Qed.

Lemma execution_legs_exact_witness : ∃ legs, execution_legs pair_priced [AQ "a" 1; AQ "b" 1] pair_quotes = Ok legs ∧
  Forall2 (leg_ok pair_priced pair_quotes) [AQ "a" 1; AQ "b" 1] legs ∧ xl_max_cost_units <$> legs = [1; 1].
Proof.
  assert (Hsel : selection pair_priced [AQ "a" 1; AQ "b" 1]).
  { apply (selected_quantities_spec pair_priced [AQ "a" 1; AQ "b" 1]). vm_compute. reflexivity. }
  pose proof (execution_legs_exact _ _ _ _ _ _ _ pair_problem_wf priced_pair_ok pair_priced_wf Hsel) as Hlegs.
  destruct (execution_legs pair_priced [AQ "a" 1; AQ "b" 1] pair_quotes) as [legs|e] eqn:E; [|exfalso; vm_compute in E; discriminate].
  exists legs. split_and!; [reflexivity|exact Hlegs|]. vm_compute in E. injection E as <-. reflexivity.
Defined.

(** ** The resolver *)

Lemma pair_datetimes : Forall valid_datetime (now :: problem_datetimes (vc_problem pair_component)).
Proof. apply (bool_decide_unpack _). vm_compute. exact I. Qed.

(** C1: What the resolver funds is safe, whatever the backend answers.  When a
    component resolves to an execution solution without a prior one, its
    problem priced from the visible books is valid; the portfolio is a valid
    selection of it, its capital is the cost of its lots, and its legs walk the
    quoted asks; the account covers every leg and both capital limits, and the
    solution is never ready for orders.  And in every settlement that the
    component's own problem allows, before any pricing, the portfolio pays its
    cost and the profit threshold back, at one percent of the cost, within
    thirty days and at fifteen percent a year. *)
Theorem resolve_sound `{Sha256} backend c books account limits budget now r s
    (Hwf : wf_problem (vc_problem c)) (Hd : Forall valid_datetime (now :: problem_datetimes (vc_problem c)))
    (HR : resolve_component backend c books account limits budget now None = Ok r)
    (Hs : rr_execution_solution r = Some s) :
  ∃ p economic quotes, problem_with_visible_asks c books now = Ok (Some (p, economic, quotes)) ∧
    resolution_ok c now p quotes account r s.
Proof. by apply (resolve_component_ok backend c books account limits budget). Qed.

(** The reference backend finds the pair, for a cost of two and a payout of three. *)
Lemma pair_resolved :
  match resolve_pair reference_backend None with
  | Ok r =>
      match rr_execution_solution r with
      | Some s => xs_quantities s = [AQ "a" 1; AQ "b" 1] ∧ xs_capital_use_units s = 2
      | None => False
      end
  | Err _ => False
  end.
Proof. vm_compute. split; reflexivity. Qed.

Lemma resolve_sound_witness : ∃ r s,
  resolve_pair reference_backend None = Ok r ∧ rr_execution_solution r = Some s ∧ xs_quantities s = [AQ "a" 1; AQ "b" 1] ∧
  ∀ ω, allowed pair_problem ω → 2 + 1 ≤ realized_payout pair_problem ω [AQ "a" 1; AQ "b" 1].
Proof.
  pose proof pair_resolved as Hv. destruct (resolve_pair reference_backend None) as [r|e] eqn:HR; [|destruct Hv].
  destruct (rr_execution_solution r) as [s|] eqn:Hs; [|destruct Hv]. destruct Hv as [Hq Hc]. exists r, s.
  destruct (resolve_sound _ _ _ _ _ _ _ _ _ pair_problem_wf pair_datetimes HR Hs) as (p & e & q & _ & Hok).
  pose proof (gu_profit _ _ _ _ _ (ro_guaranteed _ _ _ _ _ _ _ Hok)) as Hg. rewrite Hc, Hq in Hg.
  exact (conj eq_refl (conj Hs (conj Hq Hg))).
Defined.

(** ** Where pricing does not do what it means to *)

(** The decimal context rounds before the lots are floored: a size of 0.999...9
    with 29 nines is rounded to 1, and a lot is offered that the book does not
    hold. *)
Theorem rounded_size_overstates_lots :
  let size := Finite false (10 ^ 29 - 1) (-29) in
  level_lots action_a {| lv_price := Finite false 40 (-2); lv_size := size |} = Ok 1 ∧
  (10 ^ 29 - 1) * ca_quantity_scale action_a * up (-29) < 1 * ca_lot_step_units action_a * down (-29).
Proof. vm_compute. split; reflexivity. Qed.

Definition shallow_books : list ImmutableBook := [book_a [ask 40 50]; book_b].

(** A book too shallow for one lot of a contract's only action does not merely
    exclude that action: the priced problem has a contract without action, the
    solver refuses it whatever its backend, and the component resolves to
    UNKNOWN. *)
Theorem shallow_contract_unknown :
  match problem_with_visible_asks pair_component shallow_books now with
  | Ok (Some (p, _, quotes)) =>
      cq_action_id <$> quotes = ["b"] ∧ mi_code <$> validate_problem p = ["UNKNOWN_CONTRACT_REFERENCE"]
  | _ => False
  end ∧
  ∀ backend, resolve_component backend pair_component shallow_books (Some pair_account) pair_limits
    sample_budget now None
  = Ok {| rr_status := RESOLUTION_UNKNOWN; rr_failure_reason := Some "SOLVER_OR_VERIFIER_UNKNOWN"; rr_market_solution := None;
          rr_execution_solution := None |}.
Proof. split; [vm_compute; split; reflexivity|intros backend; vm_compute; reflexivity]. Qed.
