(* ===== verification/ModeTheorems.v ===== *)
(** * Properties of the mode contract and of the request queue

    What each operation on the contract does, what AUTO guarantees, what a
    batch admitted from a frozen request finds, and the order of the queue. *)

From S2P Require Import Prelude PyValue NLeg NLegForms IsoFormat Decimal DecimalCorrect Decode FillProof Receipts BatchStore Lifecycle Samples ExecutionSamples Mode ModeCorrect.
Local Open Scope Z_scope.

(** ** A store before its first write *)

Definition fresh : ModeStore := {|
  mo_store := fresh_store; mo_policies := ∅; mo_safety := ∅; mo_members := ∅; mo_incidents := []; mo_events := [] |}.

Definition fresh_view : View := {|
  vw_mode := "MANUAL"; vw_enabled := []; vw_generation := 1; vw_versions := (1, 1);
  vw_policy := (1, DEFAULT_QUALIFICATION_POLICY); vw_safety := (1, (DEFAULT_SAFETY_CONFIG, false)); vw_scopes := ∅;
  vw_breaker_open := false; vw_active_batch := None; vw_incidents := [] |}.

Lemma fresh_represents : represents fresh fresh_view.
Proof.
  split; try reflexivity; try (split; [reflexivity|]).
  - simpl. set_solver.
  - constructor.
  - done.
  - split; [|simpl; lia]. split; [intros name; vm_compute; by split..|done].
  - split; [|simpl; lia]. by split; simpl; split_and!.
  - done.
  - done.
Qed.

Lemma fresh_enabled : enabled_ok fresh_view.
Proof. split; [constructor|]. intros e He. by apply not_elem_of_nil in He. Qed.

Definition members : json := JObj [("kind", JStr "same-event")].

Definition caps (per_trade total : Z) : json := JObj [
  ("episode_rearm_gap_seconds", JInt 300); ("max_per_trade_cost_units", JInt per_trade);
  ("max_total_unsettled_capital_units", JInt total); ("max_partial_fill_loss_units", JInt 0);
  ("max_auto_repair_loss_units", JInt 0)].

(** Caps set, a scope registered and enabled, and the mode AUTO *)
Definition observing : list ModeOp :=
  [UpdateSafety (caps 1000000 2000000) 1 []; UpsertScope "s" "OBSERVE_ONLY" members None [];
   SetEnabledScope "s" true 1 []; SetMode "AUTO" 1 None []].

(** ** The operations *)

(** C14: Every operation on the mode contract — [n_leg_set_mode],
    [n_leg_set_enabled_scope], [n_leg_enforce_auto_scope_versions], the updates
    of the policy, of the caps and of a scope, and the seeding of the default
    scope — refines its specification on a store that stands for a view: it
    makes exactly the change of the specification and nothing else — batches,
    claims, the ledger and the gates are untouched, versions only move forward,
    the enabled scopes stay registered — or it raises the same exception and
    leaves the store as it was, although it commits several transactions. *)
Theorem mode_operations_exact m v op (R : represents m v) :
  match spec_op op v with
  | Ok w => ∃ m', run_op op m = (m', Ok tt) ∧ represents m' w ∧ frame m m' ∧ later v w ∧ (enabled_ok v → enabled_ok w)
  | Err e => run_op op m = (m, Err e)
  end.
Proof.
  pose proof (run_op_refines m v R op) as HR. unfold refines in HR. destruct (spec_op op v) as [w|e] eqn:E; [|done].
  destruct HR as (m' & [] & Hrun & R' & F). exists m'. split_and!; [done..|by eapply spec_op_later|]. intros Hv. by eapply spec_op_enabled.
Qed.

Lemma mode_operations_exact_witness :
  match spec_op (UpsertScope "s" "OBSERVE_ONLY" members None []) fresh_view with
  | Ok w => ∃ m', run_op (UpsertScope "s" "OBSERVE_ONLY" members None []) fresh = (m', Ok tt) ∧ represents m' w ∧
      frame fresh m' ∧ later fresh_view w ∧ (enabled_ok fresh_view → enabled_ok w)
  | Err e => run_op (UpsertScope "s" "OBSERVE_ONLY" members None []) fresh = (fresh, Err e)
  end.
Proof. apply mode_operations_exact, fresh_represents. Defined.

Lemma represents_inj m v w : represents m v → represents m w → v = w.
Proof.
  intros [[? _] [? _] [? _] ? [Hp _] [Hs _] [Hsc _] (? & ? & ?)] [[? _] [? _] [? _] ? [Hp' _] [Hs' _] [Hsc' _] (? & ? & ?)].
  assert (vw_scopes v = vw_scopes w) by (apply map_eq; intros id; by rewrite <- Hsc, <- Hsc').
  rewrite Hp in Hp'. rewrite Hs in Hs'. injection Hp' as ?. injection Hs' as ?. destruct v, w; simpl in *. by subst.
Qed.

Lemma gates_earlier m m' v w : later v w → frame m m' → gates_open m' w → gates_open m v.
Proof.
  intros [_ _ _ _ (Eb & Ea & Ei)] F. unfold gates_open, has_incident_batch. by rewrite Eb, Ea, Ei, (fr_batches _ _ F).
Qed.

Lemma not_loosened before after : safety_direction before after ≠ "loosen" →
  sv_episode_rearm_gap_seconds before ≤ sv_episode_rearm_gap_seconds after ∧
  sv_max_total_unsettled_capital_units after ≤ sv_max_total_unsettled_capital_units before ∧
  sv_max_partial_fill_loss_units after ≤ sv_max_partial_fill_loss_units before ∧
  sv_max_auto_repair_loss_units after ≤ sv_max_auto_repair_loss_units before.
Proof.
  unfold safety_direction. destruct (_ || _ || _ || _) eqn:E; [done|]. intros _. bool_prop. lia.
Qed.

Lemma run_op_still m v op m' w r : represents m v → enabled_ok v → run_op op m = (m', r) → represents m' w → vw_mode w = "AUTO" →
  still_auto op v w ∧ later v w ∧ frame m m' ∧ enabled_ok w.
Proof.
  intros R E Hrun R' Hw. destruct (run_op_total op m v R) as (u & Ru & L & F & Hu). rewrite Hrun in *. simpl in *.
  assert (u = w) as -> by (by eapply represents_inj). destruct Hu as [Hu|(-> & -> & _)].
  - split_and!; [by apply spec_op_still|done..|by eapply spec_op_enabled].
  - split_and!; [by apply still_auto_same|done..].
Qed.

(** C15: AUTO is never widened by itself.  When the mode is AUTO after an
    operation, it was AUTO before, or the operation is a SetMode to AUTO that
    found the breaker closed, no batch active, no open incident and the
    enabled scopes at their versions; the qualification policy has no looser
    threshold, the rearm gap has not shrunk and none of the three caps that
    [_safety_direction] compares has grown; and a scope whose orders are
    now submitted automatically was so before, or the operator names it: by
    switching to AUTO with the scope enabled at this version, or by enabling
    again a scope whose version had drifted. *)
Theorem auto_not_widened m v op m' w r (R : represents m v) (E : enabled_ok v) (Hrun : run_op op m = (m', r))
    (R' : represents m' w) (Hauto : ct_mode (n_leg_control m') = "AUTO") :
  let (before, after) := ((vw_safety v).2.1, (vw_safety w).2.1) in
  (ct_mode (n_leg_control m) = "AUTO" ∨
    ∃ base incident_id audit, op = SetMode "AUTO" base incident_id audit ∧ spec_auto v incident_id = Ok tt) ∧
  looser (vw_policy v).2 (vw_policy w).2 = false ∧
  (sv_episode_rearm_gap_seconds before ≤ sv_episode_rearm_gap_seconds after ∧
   sv_max_total_unsettled_capital_units after ≤ sv_max_total_unsettled_capital_units before ∧
   sv_max_partial_fill_loss_units after ≤ sv_max_partial_fill_loss_units before ∧
   sv_max_auto_repair_loss_units after ≤ sv_max_auto_repair_loss_units before) ∧
  ∀ id, auto_submits m' id → auto_submits m id ∨
    (∃ base incident_id audit, op = SetMode "AUTO" base incident_id audit ∧ auto_ready (with_mode v "AUTO" (vw_enabled v)) id) ∨
    ∃ base audit version, op = SetEnabledScope id true base audit ∧ (id, version) ∈ vw_enabled v.
Proof.
  rewrite (proj1 (rp_mode _ _ R')) in Hauto. destruct (run_op_still _ _ _ _ _ _ R E Hrun R' Hauto) as ([Sp Ss Se Sc] & L & F & E').
  rewrite (proj1 (rp_mode _ _ R)). split_and!; [done|done|by apply not_loosened..|].
  intros id [Hg Hr]%(auto_submits_spec m' w id R' E'). destruct (Sc id Hr) as [Hv|Hother]; [left|by right].
  apply (auto_submits_spec m v id R E). split; [by eapply gates_earlier|done].
Qed.

Lemma after_ops_sound ops m v : represents m v → enabled_ok v → ∃ w, represents (after_ops m ops) w ∧ enabled_ok w ∧ later v w.
Proof.
  revert m v. induction ops as [|op ops IH]; intros m v R E; [by exists v|].
  destruct (run_op_total op m v R) as (w & R' & L & _ & Hw). assert (E' : enabled_ok w).
  { destruct Hw as [Hw|(-> & _)]; [by eapply spec_op_enabled|done]. }
  destruct (IH _ _ R' E') as (u & ? & ? & ?). exists u. split_and!; [done..|by etrans].
Qed.

(** Enabled and watched, in AUTO *)
Definition watching : ModeStore := after_ops fresh observing.

Lemma auto_not_widened_witness : ∃ v w m' r,
  represents watching v ∧ enabled_ok v ∧ run_op (EnforceScopeVersions []) watching = (m', r) ∧ represents m' w ∧
  ct_mode (n_leg_control m') = "AUTO" ∧ looser (vw_policy v).2 (vw_policy w).2 = false.
Proof.
  destruct (after_ops_sound observing fresh fresh_view fresh_represents fresh_enabled) as (v & R & E & _).
  destruct (after_ops_sound [EnforceScopeVersions []] watching v R E) as (w & R' & _).
  destruct (run_op (EnforceScopeVersions []) watching) as [m' r] eqn:Hrun. change (represents (run_op (EnforceScopeVersions []) watching).1 w) in R'.
  rewrite Hrun in R'. simpl in R'. assert (Hauto : ct_mode (n_leg_control m') = "AUTO").
  { change m' with (m', r).1. rewrite <- Hrun. vm_compute. reflexivity. }
  exists v, w, m', r. split_and!; [done..|]. by destruct (auto_not_widened watching v _ m' w r R E Hrun R' Hauto) as (_ & ? & _).
Defined.

(** ** What a frozen request finds *)

Lemma mode_json_same a b : a ∈ ["MANUAL"; "AUTO"] → b ∈ ["MANUAL"; "AUTO"] → json_same (JStr a) (JStr b) = true → b = a.
Proof.
  intros Ha Hb. repeat (apply elem_of_cons in Ha as [->|Ha]); repeat (apply elem_of_cons in Hb as [->|Hb]);
    by (apply not_elem_of_nil in Ha || apply not_elem_of_nil in Hb || done).
Qed.

Lemma admitted_contract `{Sha256} m v c id s safety frozen ops payload component now out :
  represents m v → mode_contract m = Ok c → n_leg_scope m id = Some s →
  json_field "versions" frozen = Some (JObj (frozen_versions c id safety)) →
  so_batches (mo_store (after_ops m ops)) !! ba_execution_batch_id payload = None →
  n_leg_create_batch (mo_store (after_ops m ops)) payload component (Some (expected_versions frozen)) now = Ok out →
  ct_mode (n_leg_control (after_ops m ops)) = ct_mode (n_leg_control m) ∧
  ct_breaker_open (n_leg_control (after_ops m ops)) = false ∧
  current_policy (after_ops m ops) = current_policy m ∧
  n_leg_scope (after_ops m ops) id = Some s.
Proof.
  intros R Hc Hs Hf Hnew HR. destruct (after_ops_later ops m v R) as (w & R' & [_ [_ Lp] _ Ls _] & _). set (m' := after_ops m ops) in *.
  destruct (frozen_found m v c id s safety frozen _ payload component now out R Hc Hs Hf Hnew HR) as (Hb & Hm & _ & Hp & t & Ht & Ev).
  fold (n_leg_control m') in Hb, Hm, Hp. destruct (rp_mode _ _ R) as [Em Vm]. destruct (rp_mode _ _ R') as [Em' Vm'].
  split_and!; [rewrite Em; apply mode_json_same; [done|by rewrite Em'|done]|done| |].
  - pose proof (rp_versions _ _ R') as Ew. apply (f_equal fst) in Ew. simpl in Ew.
    rewrite (proj1 (rp_policy _ _ R)), (proj1 (rp_policy _ _ R')), Lp; [done|congruence].
  - destruct (rp_scopes _ _ R) as [Esc _]. rewrite Esc in Hs. destruct (Ls id s Hs) as (s' & Hs' & _ & Hsame).
    rewrite <- (proj1 (rp_scopes _ _ R')) in Hs'. rewrite Hs'. f_equal. apply Hsame. rewrite <- Ev.
    unfold n_leg_scope in Hs'. rewrite Ht in Hs'. by injection Hs' as <-.
Qed.

(** C16: A batch runs under the contract that its request froze.  A request
    froze the versions of the contract [c] and of the scope [id]; any
    operations on the contract follow; then a new batch is admitted with the
    versions the queue driver reads back from the request.  If the admission
    succeeds, the mode is the one that was frozen, the breaker is closed, and
    the qualification policy and the row of the scope are those the request was
    confirmed with.  And when the mode, the policy or the row of the scope is
    another one at that moment, a batch that would be created without the
    versions is refused with N_LEG_ADMISSION_VERSION_STALE. *)
Theorem admission_same_contract `{Sha256} m v c id s safety frozen ops payload component now
    (R : represents m v) (Hc : mode_contract m = Ok c) (Hs : n_leg_scope m id = Some s)
    (Hf : json_field "versions" frozen = Some (JObj (frozen_versions c id safety)))
    (Hnew : so_batches (mo_store (after_ops m ops)) !! ba_execution_batch_id payload = None) :
  let m' := after_ops m ops in
  let admission := n_leg_create_batch (mo_store m') payload component (Some (expected_versions frozen)) now in
  (∀ out, admission = Ok out →
    ct_mode (n_leg_control m') = ct_mode (n_leg_control m) ∧ ct_breaker_open (n_leg_control m') = false ∧
    current_policy m' = current_policy m ∧ n_leg_scope m' id = Some s) ∧
  (∀ out, n_leg_create_batch (mo_store m') payload component None now = Ok out →
    ct_mode (n_leg_control m') ≠ ct_mode (n_leg_control m) ∨ current_policy m' ≠ current_policy m ∨ n_leg_scope m' id ≠ Some s →
    admission = Err (ValueError "N_LEG_ADMISSION_VERSION_STALE")).
Proof.
  intros m' admission.
  assert (Hok : ∀ out, admission = Ok out →
    ct_mode (n_leg_control m') = ct_mode (n_leg_control m) ∧ ct_breaker_open (n_leg_control m') = false ∧
    current_policy m' = current_policy m ∧ n_leg_scope m' id = Some s).
  { intros out HR. by eapply (admitted_contract m v c id s safety frozen ops payload component now out). }
  split; [done|]. intros out HR Hchange. pose proof (versioned_create _ _ _ (expected_versions frozen) _ _ Hnew HR) as Ha.
  fold admission in Ha. destruct (admission_version_mismatch _ _ _); [done|]. destruct (Hok out Ha) as (? & _ & ? & ?). naive_solver.
Qed.

(** The request of the scope [s] that [opened] executes *)
Definition frozen_request (c : ModeContract) (safety : Z * list (string * json)) : list (string * json) :=
  [("versions", JObj (frozen_versions c "s" safety)); ("execution", JObj [("fingerprint", JStr "sha256:solution")])].

(** The request of a contract is admitted while nothing changed, and refused
    after a return to MANUAL. *)
Lemma admission_same_contract_witness : ∃ c s out,
  let admission ops := n_leg_create_batch (mo_store (after_ops watching ops)) opened None
    (Some (expected_versions (frozen_request c (current_safety_values watching)))) 0 in
  mode_contract watching = Ok c ∧ n_leg_scope watching "s" = Some s ∧
  admission [EnforceScopeVersions []] = Ok out ∧
  current_policy (after_ops watching [EnforceScopeVersions []]) = current_policy watching ∧
  admission [SetMode "MANUAL" 1 None []] = Err (ValueError "N_LEG_ADMISSION_VERSION_STALE").
Proof.
  destruct (after_ops_later observing fresh fresh_view fresh_represents) as (v & R & _).
  destruct (mode_contract watching) as [c|] eqn:Hc; [|by vm_compute in Hc].
  destruct (n_leg_scope watching "s") as [s|] eqn:Hs; [|by vm_compute in Hs].
  destruct (n_leg_create_batch (mo_store (after_ops watching [EnforceScopeVersions []])) opened None
    (Some (expected_versions (frozen_request c (current_safety_values watching)))) 0) as [out|] eqn:HR;
    [|exfalso; vm_compute in Hc; injection Hc as <-; by vm_compute in HR].
  destruct (n_leg_create_batch (mo_store (after_ops watching [SetMode "MANUAL" 1 None []])) opened None None 0) as [out'|] eqn:HR';
    [|by vm_compute in HR'].
  exists c, s, out. split_and!; [done..| |].
  - apply (admission_same_contract watching v c "s" s (current_safety_values watching) (frozen_request c (current_safety_values watching))
      [EnforceScopeVersions []] opened None 0 R Hc Hs) with (out := out); [reflexivity|vm_compute; reflexivity|exact HR].
  - apply (admission_same_contract watching v c "s" s (current_safety_values watching) (frozen_request c (current_safety_values watching))
      [SetMode "MANUAL" 1 None []] opened None 0 R Hc Hs) with (out := out'); [reflexivity|vm_compute; reflexivity|exact HR'|].
    left. vm_compute. discriminate.
Defined.

(** ** The queue *)

Definition no_requests : RequestQueue := {| qu_rows := []; qu_last_index := 0 |}.

Lemma no_requests_ok : queue_ok no_requests.
Proof. by split; try (constructor || done). Qed.

(** An index entry of the key answers every later request with its row. *)
Lemma replay_row q r component payload id now : NoDup (er_idempotency_key <$> qu_rows q) → r ∈ qu_rows q →
  component ≠ "" → er_idempotency_key r ≠ "" →
  n_leg_request_enqueue q component (er_idempotency_key r) payload QUEUE_LIMIT id now = Ok (q, r).
Proof.
  intros Hn Hr Hc Hk. apply String.eqb_neq in Hc, Hk. unfold n_leg_request_enqueue. rewrite Hc, Hk. cbn [negb require mbind res_bind].
  change (1 <=? QUEUE_LIMIT) with true. cbn [require mbind res_bind].
  destruct (head (filter _ (qu_rows q))) as [x|] eqn:Eh; [|by destruct (head_filter_None _ _ Eh r Hr)].
  apply head_Some_elem_of, list_elem_of_filter in Eh as [E Hx]. by rewrite (NoDup_key_eq er_idempotency_key (qu_rows q) x r Hn Hx Hr E).
Qed.

Lemma enqueue_key_nonempty q component key payload id now q' r :
  n_leg_request_enqueue q component key payload QUEUE_LIMIT id now = Ok (q', r) → key ≠ "".
Proof.
  unfold n_leg_request_enqueue. intros (? & _ & (? & Hk%require_Ok & _)%bind_Ok)%bind_Ok. by apply negb_true_iff, String.eqb_neq in Hk.
Qed.

Lemma replay_later q r later component payload id now : queue_ok q → Forall no_reopen later → r ∈ qu_rows q →
  component ≠ "" → er_idempotency_key r ≠ "" → let q' := foldl run_queue q later in
  ∃ r', r' ∈ qu_rows q' ∧ request_identity r' = request_identity r ∧
    n_leg_request_enqueue q' component (er_idempotency_key r) payload QUEUE_LIMIT id now = Ok (q', r').
Proof.
  intros Hq Hl Hr Hc Hk q'. assert (Hid : request_identity r ∈ request_identity <$> qu_rows q').
  { eapply prefix_elem; [by apply identities_kept|]. by apply list_elem_of_fmap_2. }
  apply list_elem_of_fmap in Hid as (r' & E & Hr'). exists r'. split_and!; [done..|].
  assert (er_idempotency_key r' = er_idempotency_key r) as <- by (unfold request_identity in E; congruence).
  apply replay_row; [apply (qo_keys q'); by apply run_queue_from|done..|]. unfold request_identity in E. congruence.
Qed.

(** C17: The execution queue keeps its discipline.  Starting empty, through any
    enqueues (of at most [QUEUE_LIMIT]), updates and abandonments, when no
    update sets a request back to PENDING: indices, request ids and idempotency
    keys are unique and the rows are in the order of their index, no component
    has two pending requests, at most five are pending, the head is the oldest
    pending request, and no operation drops a row, moves it, or changes its id,
    index, key, component or time of creation.  A request that was taken
    answers a repeated request with its idempotency key: by the same row at
    once, and after any later operations by the row that then carries its
    identity, the queue unchanged. *)
Theorem queue_discipline ops (Hops : Forall no_reopen ops) : let q := foldl run_queue no_requests ops in
  queue_ok q ∧
  (∀ before after, ops = before ++ after →
    request_identity <$> qu_rows (foldl run_queue no_requests before) `prefix_of` request_identity <$> qu_rows q) ∧
  (∀ r, n_leg_request_head q = Some r → r ∈ qu_rows q ∧ pending r = true ∧
    ∀ r', r' ∈ qu_rows q → pending r' = true → er_fifo_index r ≤ er_fifo_index r') ∧
  ∀ component key payload id now q' r, n_leg_request_enqueue q component key payload QUEUE_LIMIT id now = Ok (q', r) →
    queue_ok q' ∧ r ∈ qu_rows q' ∧ er_idempotency_key r = key ∧ qu_rows q `prefix_of` qu_rows q' ∧
    ∀ component' payload' id' now', component' ≠ "" →
      n_leg_request_enqueue q' component' key payload' QUEUE_LIMIT id' now' = Ok (q', r) ∧
      ∀ later, Forall no_reopen later → let q'' := foldl run_queue q' later in
        ∃ r', r' ∈ qu_rows q'' ∧ request_identity r' = request_identity r ∧
          n_leg_request_enqueue q'' component' key payload' QUEUE_LIMIT id' now' = Ok (q'', r').
Proof.
  intros q. assert (Hq : queue_ok q) by (apply run_queue_from; [apply no_requests_ok|done]).
  split_and!; [done| |intros r; by apply queue_head_oldest|].
  - intros before after ->. apply Forall_app in Hops as [Hb Ha]. subst q. rewrite foldl_app.
    apply identities_kept; [by apply run_queue_from; [apply no_requests_ok|]|done].
  - intros component key payload id now q' r HR. pose proof (enqueue_ok q component key payload id now Hq) as He. rewrite HR in He.
    destruct He as (Hq' & Hr & Hk & Hp). apply enqueue_key_nonempty in HR as Hkey. subst key.
    split_and!; [done..|]. intros component' payload' id' now' Hc. split; [apply replay_row; [apply (qo_keys _ Hq')|done..]|].
    intros later Hlater q''. by apply (replay_later q' r later).
Qed.

Definition two_requests : list QueueOp :=
  [Enqueue "c1" "k1" [] "r1" 0; Enqueue "c2" "k2" [] "r2" 1; UpdateRequest "r1" (Some "SUBMITTED") None [] 2].

Lemma queue_discipline_witness :
  er_request_id <$> n_leg_request_head (foldl run_queue no_requests two_requests) = Some "r2" ∧
  queue_ok (foldl run_queue no_requests two_requests) ∧
  ∃ q r r', n_leg_request_enqueue (foldl run_queue no_requests two_requests) "c3" "k3" [] QUEUE_LIMIT "r3" 3 = Ok (q, r) ∧
    let q' := foldl run_queue q [AbandonPending "stopped" 4] in
    n_leg_request_enqueue q' "c4" "k3" [] QUEUE_LIMIT "r4" 5 = Ok (q', r') ∧ er_request_id r' = "r3".
Proof.
  destruct (queue_discipline two_requests ltac:(by repeat constructor)) as (Hq & _ & _ & Htaken).
  split; [vm_compute; reflexivity|]. split; [exact Hq|].
  destruct (n_leg_request_enqueue (foldl run_queue no_requests two_requests) "c3" "k3" [] QUEUE_LIMIT "r3" 3) as [[q r]|] eqn:HR;
    [|by vm_compute in HR].
  destruct (Htaken _ _ _ _ _ _ _ HR) as (_ & _ & _ & _ & Hreplay).
  destruct (Hreplay "c4" [] "r4" 5 ltac:(done)) as [_ Hlater].
  destruct (Hlater [AbandonPending "stopped" 4] ltac:(by repeat constructor)) as (r' & _ & E & Hr').
  exists q, r, r'. split; [reflexivity|]. split; [exact Hr'|]. vm_compute in HR. injection HR as <- <-. apply (f_equal (λ x, x.1.1.1.1)) in E. exact E.
Defined.

(** ** What modelling showed *)

(** The action of a scope in the order readiness of the contract *)
Definition readiness_of (m : ModeStore) (id : string) : option (option string) :=
  match mode_contract m with
  | Ok c => (λ r, sr_action r.2) <$> head (filter (λ r, r.1 = id) (n_leg_order_readiness c).2)
  | Err _ => None
  end.

(** C40: [n_leg_upsert_scope] compares capabilities as texts, and the alphabet
    orders AUTO_ELIGIBLE first: raising OBSERVE_ONLY to AUTO_ELIGIBLE is
    classified as tightening, and withdrawing it as loosening.  So a scope that
    AUTO only observes can be made to submit orders by itself, without the
    mode ever leaving AUTO. *)
Theorem capability_raised_in_auto :
  (∀ s members, sc_capability s = "OBSERVE_ONLY" → scope_direction s "AUTO_ELIGIBLE" members = "tighten") ∧
  (∀ s members, sc_capability s = "AUTO_ELIGIBLE" → scope_direction s "OBSERVE_ONLY" members = "loosen") ∧
  ∃ raised enabled, run_op (UpsertScope "s" "AUTO_ELIGIBLE" members (Some 1) []) watching = (raised, Ok tt) ∧
    run_op (SetEnabledScope "s" true 1 []) raised = (enabled, Ok tt) ∧
    ct_mode (n_leg_control watching) = "AUTO" ∧ ct_mode (n_leg_control raised) = "AUTO" ∧ ct_mode (n_leg_control enabled) = "AUTO" ∧
    readiness_of watching "s" = Some None ∧ readiness_of enabled "s" = Some (Some "auto_submit").
Proof.
  split_and!.
  - intros s l E. unfold scope_direction. by rewrite E.
  - intros s l E. unfold scope_direction. by rewrite E.
  - eexists _, _. split; [vm_compute; reflexivity|]. split; [vm_compute; reflexivity|]. vm_compute. by split_and!.
Qed.

(** [_safety_direction] promises to see a cap that grows, and does not see
    the cap of a single trade, nor that zero removes the cap of the unsettled
    capital: an update that raises the one a thousandfold and lifts the other
    leaves the mode at AUTO. *)
Theorem caps_lifted_in_auto : ∃ lifted,
  run_op (UpdateSafety (caps 1000000000 0) 2 []) watching = (lifted, Ok tt) ∧
  ct_mode (n_leg_control watching) = "AUTO" ∧ ct_mode (n_leg_control lifted) = "AUTO" ∧
  unsettled_cap (mo_store watching) = 2000000 ∧ unsettled_cap (mo_store lifted) = 0 ∧
  (λ c, sv_max_per_trade_cost_units c.2.1) <$> current_safety_config watching = Ok 1000000 ∧
  (λ c, sv_max_per_trade_cost_units c.2.1) <$> current_safety_config lifted = Ok 1000000000.
Proof. eexists. split; [vm_compute; reflexivity|]. vm_compute. by split_and!. Qed.

(** The state of a request is not guarded: [n_leg_request_update] accepts
    every state from every state, so a submitted request can be reopened
    and its component has two pending requests, which enqueueing refuses. *)
Theorem request_reopened : let q := foldl run_queue no_requests
    [Enqueue "c1" "k1" [] "r1" 0; UpdateRequest "r1" (Some "SUBMITTED") None [] 1; Enqueue "c1" "k2" [] "r2" 2;
     UpdateRequest "r1" (Some "PENDING") None [] 3] in
  (λ r, (er_request_id r, er_component_id r)) <$> filter (λ r, pending r = true) (qu_rows q) = [("r1", "c1"); ("r2", "c1")] ∧
  n_leg_request_enqueue q "c1" "k3" [] QUEUE_LIMIT "r3" 4 = Err (ValueError "QUEUE_DUPLICATE").
Proof. split; vm_compute; reflexivity. Qed.
