(* ===== verification/PreflightTheorems.v ===== *)
(** * Properties of the preflight

    What the slices of a live book guarantee, and what a request that passes
    the preflight has established about the fresh books. *)

From S2P Require Import Prelude PyValue NLeg NLegForms NLegValidate NLegWf OracleScenario IsoFormat Decode DecodeCorrect Decimal DecimalCorrect Quotes QuotesCorrect FillProof Receipts BatchStore Lifecycle Samples Mode Preflight PreflightCorrect.
Local Open Scope Z_scope.

(** ** Live slices *)

(** C31: The slices of a live book are exact and conservative.  They are
    contiguous from the first lot, offer exactly the whole lots of the side of
    the book up to the maximum of the action, and charge every lot at least
    what any fill at or below the price of the lot's own level costs, with the
    taker fee [rate * p * (1 - p)] of that fill — the argument the code makes
    in a comment — whenever the fee rate is at most one and prices are at most
    one quote unit with few enough digits for the decimal context. *)
Theorem live_slices_conservative a b u slices (Hs : cost_slices_from_book a b (slice_terms u) = Ok slices)
    (Ha : usable_action a) (Hu : 0 < u) (Hrate : (rate_of b).1 ≤ (rate_of b).2)
    (Hfit : ∀ levels level, book_side a b = Ok levels → level ∈ levels → ∃ c e, exact_price u level c e) :
  ∃ levels, book_side a b = Ok levels ∧ contiguous 0 slices ∧
    final_lot 0 slices = Z.min (ca_max_quantity_lots a) (depth a levels) ∧
    ∀ lot, 1 ≤ lot ≤ final_lot 0 slices → ∃ level c e, level_at a levels lot = Some level ∧ exact_price u level c e ∧
      ∀ x y, 0 < y → 0 ≤ x → x * down e ≤ c * up e * u * y →
        let (n, d) := rate_of b in
        ca_lot_step_units a * (x * y * (d * u) + n * x * (u * y - x))
        ≤ lot_cost slices lot * (ca_quantity_scale a * d * u * y * y).
Proof.
  destruct (cost_slices_spec _ _ _ _ Hs (ua_max _ Ha)) as (levels & Hl & Hc & Hf & Hlots). exists levels. split_and!; [done..|].
  intros lot Hlot. specialize (Hlots lot Hlot). destruct (level_at a levels lot) as [level|] eqn:Ea; [|by destruct Hlots as (? & ? & ? & _)].
  destruct (Hfit _ _ Hl (level_at_elem _ _ _ _ Ea)) as (c & e & He). exists level, c, e. split_and!; [done..|].
  intros x y Hy Hx Hxp. by apply (charged_covers a b u level (lot_cost slices lot) c e x y).
Qed.

(** Forty cents for five lots, and a fee of five percent. *)
Definition book_at (price size : Z) (fee : option decimal) : LegBook := {|
  lb_bids := []; lb_asks := [{| lv_price := Finite false price (-2); lv_size := Finite false size 0 |}];
  lb_taker_fee_bps := fee; lb_available := true; lb_book_convention := GENERIC_BOOK_CONVENTION |}.
Definition bps (n : Z) : decimal := Finite false n 0.
Definition leg_action : CandidateAction := sample_action "a" "A" "polymarket" 400000 7.

Lemma live_slices_conservative_witness : ∃ slices levels,
  cost_slices_from_book leg_action (book_at 40 5 (Some (bps 500))) (slice_terms 1000000) = Ok slices ∧
  book_side leg_action (book_at 40 5 (Some (bps 500))) = Ok levels ∧ contiguous 0 slices ∧
  final_lot 0 slices = Z.min 7 (depth leg_action levels).
Proof.
  destruct (cost_slices_from_book leg_action (book_at 40 5 (Some (bps 500))) (slice_terms 1000000)) as [slices|] eqn:Hs; [|by vm_compute in Hs].
  exists slices. destruct (live_slices_conservative leg_action (book_at 40 5 (Some (bps 500))) 1000000 slices Hs) as (levels & H1 & H2 & H3 & _).
  - by split.
  - done.
  - by vm_compute.
  - intros levels level [= <-] ->%list_elem_of_singleton. exists 40, (-2). split; [done|]. split; [|done]. unfold price_fits, PRECISION. lia.
  - exists levels. split_and!; done.
Defined.

(** ** The preflight *)

(** C13: A preflight passes exactly when the frozen request still holds on the
    fresh books: every leg was quoted within the configured age, the exchange
    times of the legs are within the configured skew, every leg has a sequence
    and none is behind its frozen baseline, the frozen quantities are those of
    the legs and the books price every lot of them, every leg has a fee, the
    profit at the fresh cost passes the four gates of the policy, the cost is within the cap
    of a trade and within the executed or the proven cost.  It then reports
    that cost and that profit, and PASS exactly when the cost is no worse than
    the frozen one. *)
Theorem preflight_exact frozen fresh safety policy now r (Hr : preflight frozen fresh safety policy now = Ok r) :
  (pf_ok r = true ↔ ∃ cost, passes frozen fresh safety policy now cost) ∧
  (pf_ok r = true → ∀ cost, passes frozen fresh safety policy now cost →
    pf_fresh_cost_units r = VInt cost ∧
    pf_net_profit_units r = VInt (frozen_payout (mapping_or_empty frozen "market") - cost) ∧
    pf_reason r = if cost <=? frozen_executed (mapping_or_empty frozen "market") (mapping_or_empty frozen "execution")
                  then "PASS" else "PRICE_WITHIN_BOUNDS").
Proof. exact (preflight_verdict frozen fresh safety policy now r Hr). Qed.

Definition quantity_rows (a b : Z) : json := JArr
  [JObj [("action_id", JStr "a"); ("quantity_lots", JInt a)]; JObj [("action_id", JStr "b"); ("quantity_lots", JInt b)]].
Definition frozen_sample : list (string * json) :=
  [("market", JObj [("problem", problem_json cheap); ("quantities", quantity_rows 1 1); ("bounded_cost_units", JInt 820000);
                    ("bounded_payout_units", JInt 1000000); ("capital_release_at", JStr (isoformat_utc release))]);
   ("execution", JObj [("capital_use_units", JInt 810000); ("quantities", quantity_rows 1 1)]);
   ("sequences", JObj [("a", JInt 7)])].

Definition fresh_leg_at (id : string) (price : Z) (fee : option decimal) : SnapshotLeg := {|
  sl_leg_id := id; sl_book := book_at price 5 fee; sl_received_at := Some as_of; sl_exchange_time := Some as_of;
  sl_sequence := Some 7 |}.
Definition fresh_sample (price : Z) (fee : option decimal) : ComponentSnapshot := {|
  cs_component_id := "A:B"; cs_legs := [fresh_leg_at "a" price fee; fresh_leg_at "b" 40 (Some (bps 0))] |}.
Definition policy_sample : list (string * json) :=
  [("min_profit_usd", JStr "0.10"); ("min_net_margin", JStr "0.02"); ("min_annualized_return", JStr "0.15");
   ("max_capital_release_days", JInt 40)].
Definition preflight_sample (price : Z) (fee : option decimal) : res Preflight :=
  preflight frozen_sample (fresh_sample price fee) [] policy_sample as_of.

Example preflight_reasons :
  (λ r, (pf_reason r, pf_fresh_cost_units r)) <$> preflight_sample 39 (Some (bps 500)) = Ok ("PASS", VInt 801895) ∧
  (λ r, (pf_reason r, pf_fresh_cost_units r)) <$> preflight_sample 40 (Some (bps 500)) = Ok ("PRICE_WITHIN_BOUNDS", VInt 812000) ∧
  (λ r, (pf_reason r, pf_fresh_cost_units r)) <$> preflight_sample 41 (Some (bps 500)) = Ok ("PRICE_BEYOND_BOUND", VInt 822095) ∧
  pf_reason <$> preflight_sample 40 None = Ok "FEE_UNKNOWN".
Proof. vm_compute. done. Qed.

Lemma preflight_exact_witness : ∃ r cost,
  preflight_sample 40 (Some (bps 500)) = Ok r ∧ pf_ok r = true ∧
  passes frozen_sample (fresh_sample 40 (Some (bps 500))) [] policy_sample as_of cost ∧ pf_fresh_cost_units r = VInt cost.
Proof.
  destruct (preflight_sample 40 (Some (bps 500))) as [r|] eqn:Hr; [|by vm_compute in Hr].
  assert (Hok : pf_ok r = true) by (vm_compute in Hr; by injection Hr as <-).
  destruct (preflight_exact _ _ _ _ _ _ Hr) as [[Hp _] Hc]. destruct (Hp Hok) as [cost Hpass].
  exists r, cost. split_and!; [reflexivity|exact Hok|exact Hpass|exact (proj1 (Hc Hok cost Hpass))].
Defined.

(** The fee gate of the preflight asks only that a leg has a fee, where
    its comment asks for a finite non-negative one: a book whose fee is not a
    number, or is negative, is priced without fee and passes. *)
Theorem unknown_fee_passes :
  (∀ d b, lb_taker_fee_bps b = Some d → positive d ≠ Ok true ∨ is_finite d = false → fee_rate b = None) ∧
  (λ r, (pf_ok r, pf_reason r, pf_fresh_cost_units r)) <$> preflight_sample 40 (Some (NaN false false 0))
    = Ok (true, "PASS", VInt 800000) ∧
  (λ r, (pf_ok r, pf_reason r, pf_fresh_cost_units r)) <$> preflight_sample 40 (Some (Finite true 500 0))
    = Ok (true, "PASS", VInt 800000).
Proof.
  split_and!; [|vm_compute; reflexivity..]. intros d b Hb Hd. unfold fee_rate. rewrite Hb.
  destruct d as [[] c e| |]; try done. simpl in Hd. destruct (Z.ltb_spec 0 c); [|done]. by destruct Hd.
Qed.
